(* ===== verification/_CoqProject ===== *)
-Q . S2P
Prelude.v
Sha256.v
Crypto.v
AvailTypes.v
Lifecycle.v
EpochStore.v
Settlement.v
Verification.v
Merkle.v
Contract.v
Content.v
ContentEngine.v
ProofEngine.v
Bindings.v
Payment.v
Coordinator.v
Dispatcher.v
Request.v
Demand.v
Tickets.v
ChunkProtocol.v
Session.v
ChunkSession.v
Push.v
Distribution.v
Transfer.v
Manager.v
AvailWire.v
Bridge.v
EscrowContract.v
EthEscrow.v
Paths.v
Legacy.v
Identity.v
Discovery.v
Retrieval.v
Nodes.v
Simulation.v
Dashboard.v
Peer.v
Logger.v
Process.v
Host.v
ProviderMain.v
PublisherMain.v
ConsumerMain.v
Delivery.v
PeerMain.v
Commands.v
Lottery.v
LotterySafety.v
Abigen.v
LotteryBindings.v
LotteryLedger.v
AbiTables.v
BindingSessions.v
LotteryPlay.v
