(* ===== verification/Prelude.v ===== *)
(** * CIPHER: verification library

    CIPHER is a storage network written in Go: publishers encrypt and chunk
    files, push the chunks to providers, challenge the providers to prove that
    they still hold them, and pay for passed challenges with signed vouchers;
    consumers fetch chunks from providers and pay with lottery tickets.  This
    library models the Go code under src/ as executable Rocq functions and
    proves what makes its components correct.

    ** Conventions

    Machine integers are [Z] with the wrap-around written out; bytes are
    [Init.Byte.byte]; Go strings are [string]; [(T, error)] is [result T] with
    the error chain of [fmt.Errorf] kept, so that [errors.Is] is a function;
    maps are [gmap]; a function that mutates shared state takes the state and
    returns the new one with its result.  Clocks, random bytes and failing
    system calls are arguments.  Code outside the repository is a type class
    with the documented laws the program relies on, and every class has a
    concrete instance: [Ed25519] (Crypto), [GoEthereum] (Tickets),
    [ManifestCodec] (Content), [TicketCodec] (ChunkProtocol), the AEAD,
    [SliceSort] and store interfaces of ContentEngine, the signer and chain interfaces of
    Payment and Coordinator, [RequestCodec] (Demand), [SessionCodec]
    (Manager), [AvailCodec] (AvailWire), [GethCommon] (Bridge), [Evm]
    (EscrowContract), [GethAbi] and [EthClient] (EthEscrow), [KeyCodec]
    (Identity), [Dht] (Discovery), [Lottery] (Lottery), [Recipients]
    (LotteryBindings), [PackageBind] (BindingSessions), and the records
    [Bound] for go-ethereum's bound contracts (Abigen), [Node] for an Ethereum
    node (EthEscrow) and [Platform] for libp2p (Host).  A transaction is only
    handed in by the Go code: the node estimates its gas on what it sees, and
    it is mined later, in a state of its own.  SHA-256 is defined (Sha256), so
    collision statements name the two colliding inputs instead of assuming
    that there are none.

    ** Files

    Foundations
    - Prelude: integers, bytes, encodings, strings, errors, readers, lists,
      step relations, hint database [cipher], tactics.
    - Sha256: SHA-256.  Crypto: the Ed25519 interface.
    - Session: two-party stream sessions.  A client procedure and a server
      loop are programs with explicit sends and receives; their joint runs are
      a step relation over all interleavings, which is confluent
      ([session_confluent]): one terminating schedule shows that all schedules
      terminate in the same state.  Against a peer of which nothing is known a
      program runs on a [Transcript] of what its writes and reads give.

    Availability (src/availability/availability-contracts, src/integration)
    - AvailTypes (types/types.go), Lifecycle (contract/state.go, lifecycle.go),
      EpochStore (challenge/), Settlement (settlement/), Verification
      (verification/verifier.go), Contract (contract/contract.go,
      verify_and_record.go): the contract store with its challenge epochs.
    - Merkle (integration/availability/merkle.go), ProofEngine
      (proof_engine.go, resolver.go): the provider's answers; AvailWire
      (protocol.go): envelopes, the provider's stream handler and the
      publisher's client as two-party sessions; Bridge
      (coordinator_bridge.go): the dispatcher wired to the publisher's keys.

    Content (src/network/content)
    - Content (core/, manifest/, storage/fs.go, engine/keys.go), ContentEngine
      (chunker/, crypto/, verifier/, engine/engine.go).

    Payments (src/availability/escrow-payment, src/network/payments)
    - Bindings (bindings/registry.go), Payment (payment/), Coordinator
      (coordinator/publisher.go, sign_only.go), Dispatcher
      (coordinator/dispatcher.go), Tickets (network/payments/signer.go).
    - EscrowContract (escrow/*.sol): the Solidity contract the adapter talks
      to, as functions on its storage, with transactions as trees of calls so
      that recipients of transfers may call back into it.  EthEscrow
      (ethereum/signer.go, escrow_adapter.go): the Ethereum signer and the
      adapter, composed with the contract.

    Demand (src/availability/proof-of-request, integration demand_bridge.go)
    - Request (request/, demand/, validation/), Demand (security/, replica/,
      demandMetadata/, cacheAnnouncement/).

    Network (src/network: protocol, distribution, transfer, retrieval)
    - ChunkProtocol (protocol/chunk: limits, messages, decoder, validation),
      ChunkSession (handler, client), Push (protocol/push), Distribution
      (planner, tracker, uploader).
    - Transfer (transfer/scheduler: the worker pool as a step relation),
      Manager (transfer/manager: session files behind the [SessionManager]
      interface, retries, resumable downloads; retrieval/resolver.go).
    - Paths: what the code uses of path/filepath and strings.  Legacy
      (transfer/header.go, sender.go, receiver.go), Identity (identity/),
      Discovery (discovery/, transport/stream.go, the publisher's choice of
      providers).

    Lottery (src/payments/src, src/network/payments)
    - Lottery: the Solidity contracts PaymentChannel, SettlementEngine,
      CommitRevealEntropy, RaffleMath, ProviderRegistry and
      ChunkDisputeResolver as one [World], with trees of calls as in
      EscrowContract.  LotterySafety: balances, rounds, tickets and reentrancy
      guards over all histories.
    - Abigen: the template of the generated Go bindings (calls, transactions,
      event iterators and subscriptions).  LotteryBindings: the methods and
      events of the four bindings (network/payments/bindings), and the
      contracts of Lottery as the backend they talk to.  AbiTables: the
      interface descriptions embedded in the bindings, as data.
      BindingSessions: sessions, constructors, raw wrappers and deployments.
    - LotteryLedger: the event log of the channel contract as its ledger.
    - LotteryPlay: the Go ticket signer and payment client against those
      contracts.

    Programs (src/nodes, src/network/cmd, src/scripts, src/shared)
    - Retrieval: the publisher's ingest (publisher/main.go) and the consumer's
      path from a content identifier to the reassembled file
      (consumer/main.go, network/cmd/peer/main.go).
    - Nodes: the publisher's audit loop (publisher/main.go), the provider's
      startup and ticket handler (provider/main.go), the consumer's ticket
      generator (consumer/main.go), and the payment client
      (network/payments/client.go).
    - Peer (network/cmd/peer/main.go): ingest, fetch and the maintenance of
      saved sessions; PeerMain: the program around them.
    - Process: programs that return, exit or hang, with deferred calls.  Host
      (network/transport/host.go): libp2p nodes, and how the programs start.
      ProviderMain, PublisherMain and ConsumerMain: the main functions under
      src/nodes, composed in Delivery; Commands: those of bootstrap, relay, dht_inspect and
      gen_keys.
    - Simulation and Dashboard
      (scripts/simulate_availability.go): the availability simulation, which
      wires bridge, proof engines and demand manager together.  Logger
      (shared/logger/logger.go).

    ** What is proved

    - Contracts: every reachable contract store keeps its funds, challenges
      and results consistent, histories only grow, a funded contract can be
      challenged until it ends, verified responses are recorded once and
      settlement pays the passed share.  Epochs challenge every chunk exactly
      once.
    - Proofs: generated Merkle paths verify; a verifying path of the tree's
      depth for another hash yields an explicit SHA-256 collision; an honest
      provider is accepted and a corrupted hash is not.
    - Content: ingest followed by reassembly is the identity, nothing
      unverified is written, a chunk write that is alone is atomic under
      failures.  From chunks of any origin reassembly writes the file's own
      chunks, each once, or the store exhibits a hash collision or a ciphertext
      that opens under another nonce; their order rests on the headers the
      peers send ([order_unprotected]).
      A published file is retrieved exactly from providers that hold it
      ([publish_retrieve]), through the parallel scheduler, and so by the
      consumer program with what the publisher program printed
      ([file_delivered]); an upload leaves such a provider, so that a file
      goes from the publisher through providers to the consumer
      ([pushed_file_delivered]).
    - Payments: the schedule of a contract is a function of its accepted
      results; vouchers claim exactly the earned amount, never more than the
      maximum; slashing evidence verifies; vouchers and tickets are bound to
      all their fields; the voucher store is monotone; settlement order.
      A passed challenge is paid: its voucher reaches the provider and
      verifies there ([pass_paid]); with the Ethereum signer and adapter it is
      accepted by the escrow contract and, if the node lets both transactions
      in, settles to exactly the earned amount ([dispatch_settles], by
      [signed_state_accepted] and the contract's code).  The contract stays solvent under reentrant calls, its agreements
      follow their transition graph and its storage keeps its types.
    - Lottery: the contracts hold exactly what they owe ([lottery_solvent]), a
      round settles at most once and then pays no fallback ticket, and every
      payment spends a ticket of its own ([round_pays_once]); a ticket of the
      Go signer is submitted by the Go client and paid in the block that mines
      it when it wins ([signed_ticket_paid]); a client that iterates over the settlement
      events sees each of them and no other ([settlement_observed]), and one
      that adds up the channel events gets the channel's books
      ([channel_audited]); the generated bindings are type safe over contracts
      that keep to their interfaces ([bindings_typed]), as these do; deposits
      and stakes come back.  LotteryPlay also states what the contracts leave
      open: stale rounds that cannot pay, voiding by anyone, dispute answers
      that prove nothing.
    - Demand: at most one pending request per client and file under any
      interleaving of requests and timers, demand counts distinct clients,
      outcomes are final; replica counts and announcements.
    - Protocols: the decoder accepts exactly the in-limit frames and consumes
      a bounded input; the validator accepts exactly what the builders
      produce; downloads and uploads complete under every schedule with an
      honest peer and stay safe with any peer; a push batch is acknowledged
      only when every assigned chunk is stored, with the right content unless
      two streams were writing that chunk at once ([push_complete_safe];
      [racing_streams_tear] is such a run);
      distribution reports success only with enough committed replicas.
    - Transfers: a parallel download of different chunks that reports success
      has stored every chunk with the right content, in every interleaving of
      its workers; it does a bounded amount of work and can always go on,
      unless a peer owes an answer or every worker that is left polls for
      tasks its peer misses ([run_progress]); the session on disk never claims
      a chunk that is not in the store.  [retry_lost], [miss_spins],
      [silent_peer_blocks] and [silent_peer_hangs] are runs the code does not
      mean to allow.
    - Programs: an honest provider answers every challenge session and is paid
      one voucher per audit round, a restarted one still holds the trees of
      its files, the consumer's tickets are accepted, a node keeps its
      identity across restarts, the legacy transfer is the identity on files.
      The simulation ends if its proof-of-work puzzles have solutions, for
      every order of visits and every choice of chunks, nonces and thresholds,
      with the honest providers paid and the adversary slashed once
      ([simulation_outcome]).  A publisher that
      returns from a push has placed every chunk ([publisher_publishes]), a
      provider serves what its flags say and no more ([provider_serves]), two
      peers exchange a file ([peers_share]), the bootstrap node and the relay
      run under the generated keys ([generated_keys_used]).

    ** Fuel and bounds

    Loops over data are structural.  [build_levels] has fuel equal to the
    number of leaves, enough because each level at least halves
    (GenerateProof_verifies has no fuel hypothesis); [Split] has one round per
    input byte plus one, enough for any positive chunk size; [GeneratePoW]
    is an unbounded search with explicit fuel, and the theorem states after
    how many rounds it returns and when it never does.  Servers run without
    fuel: a session restarts the loop body with a step of its own.  [exec] is
    structural on the tree of calls of a transaction, in EscrowContract and in
    Lottery; [trim_loop] has one round per byte, of which each round but the
    last removes at least one; [exchange_sort] has one round per provider.
    The simulation takes the fuel of its proof-of-work searches, and its
    theorem says that from some bound on the fuel does not matter, or that no
    fuel is enough because a puzzle has no solution.  The event iterator has no fuel:
    its loop is a relation, shown to have a finite run from every state.

    ** Not modelled

    What lies behind [Platform] and [Dht]: libp2p's hosts, relays and the DHT;
    flag parsing (the programs start from the values of their flags) and most
    log lines and banners; the testing flags for throttling and corrupt
    chunks; the bytecode of the contracts; Protocol_Raffle.sol, the
    predecessor of the lottery contracts, and the template contract Counter.sol.
    Gas is left out, but not that a node refuses a transaction whose execution
    reverts when it estimates its gas.  Time limits of streams and queries are
    left out; a peer that stops answering is a run that does not end, or, where
    the push client sets a deadline, a failing read. *)

From Stdlib Require Export ZArith Lia Strings.Byte Ascii String.
From Stdlib Require Import DecimalString DecimalZ.
From stdpp Require Export base list gmap fin_maps strings.

#[global] Set Default Proof Using "Type".
Open Scope Z_scope.

(** ** Machine integers

    Go's fixed-width integers are [Z] with the wrap-around written out. *)

Definition MaxUint32 : Z := 2 ^ 32 - 1.
Definition MaxUint64 : Z := 2 ^ 64 - 1.
Definition u8 (z : Z) : Z := z mod 2 ^ 8.
Definition u16 (z : Z) : Z := z mod 2 ^ 16.
Definition u32 (z : Z) : Z := z mod 2 ^ 32.
Definition u64 (z : Z) : Z := z mod 2 ^ 64.
Definition i64 (z : Z) : Z := (z + 2 ^ 63) mod 2 ^ 64 - 2 ^ 63.

Definition is_u8 (z : Z) : Prop := 0 <= z < 2 ^ 8.
Definition is_u16 (z : Z) : Prop := 0 <= z < 2 ^ 16.
Definition is_u32 (z : Z) : Prop := 0 <= z < 2 ^ 32.
Definition is_u64 (z : Z) : Prop := 0 <= z < 2 ^ 64.
Definition is_i64 (z : Z) : Prop := - 2 ^ 63 <= z < 2 ^ 63.

Lemma u64_id z : is_u64 z → u64 z = z.
Proof. intros H; apply Z.mod_small; exact H. Qed.
Lemma u32_id z : is_u32 z → u32 z = z.
Proof. intros H; apply Z.mod_small; exact H. Qed.
Lemma u64_range z : is_u64 (u64 z).
Proof. apply Z.mod_pos_bound; lia. Qed.
Lemma u32_range z : is_u32 (u32 z).
Proof. apply Z.mod_pos_bound; lia. Qed.
Lemma i64_id z : is_i64 z → i64 z = z.
Proof. intros H; unfold i64, is_i64 in *; rewrite Z.mod_small; lia. Qed.
Lemma i64_range z : is_i64 (i64 z).
Proof.
  unfold is_i64, i64. pose proof (Z.mod_pos_bound (z + 2 ^ 63) (2 ^ 64)). lia.
Qed.

(** Two's-complement reinterpretation [uint64(v)] of an [int64] is injective. *)
Lemma u64_i64_inj a b : is_i64 a → is_i64 b → u64 a = u64 b → a = b.
Proof.
  unfold is_i64, u64. intros Ha Hb H.
  rewrite (Z.mod_eq a), (Z.mod_eq b) in H by lia.
  pose proof (Z.div_mod a (2^64)). pose proof (Z.div_mod b (2^64)).
  pose proof (Z.mod_pos_bound a (2^64)). pose proof (Z.mod_pos_bound b (2^64)).
  nia.
Qed.

(** [len] of a Go slice or string. *)
Definition zlen {A} (l : list A) : Z := Z.of_nat (length l).
Lemma zlen_nonneg {A} (l : list A) : 0 <= zlen l.
Proof. unfold zlen; lia. Qed.
Lemma zlen_cons {A} (x : A) (l : list A) : zlen (x :: l) = 1 + zlen l.
Proof. unfold zlen. simpl. lia. Qed.
Lemma zlen_app {A} (l k : list A) : zlen (l ++ k) = zlen l + zlen k.
Proof. unfold zlen; rewrite length_app; lia. Qed.

(** ** Bytes *)

#[global] Instance byte_eq_dec : EqDecision byte := Byte.byte_eq_dec.
#[global, program] Instance byte_countable : Countable byte :=
  inj_countable Byte.to_N Byte.of_N _.
Next Obligation. intros b. apply Byte.of_to_N. Qed.

Definition byte_to_Z (b : byte) : Z := Z.of_N (Byte.to_N b).
Definition byte_of_Z (z : Z) : byte := default x00 (Byte.of_N (Z.to_N (z mod 256))).

Lemma byte_to_Z_range b : 0 <= byte_to_Z b < 256.
Proof. unfold byte_to_Z. pose proof (Byte.to_N_bounded b). lia. Qed.

Lemma byte_of_to b : byte_of_Z (byte_to_Z b) = b.
Proof.
  unfold byte_of_Z. rewrite Z.mod_small by apply byte_to_Z_range.
  unfold byte_to_Z. rewrite N2Z.id, Byte.of_to_N. done.
Qed.

Lemma byte_to_of z : byte_to_Z (byte_of_Z z) = z mod 256.
Proof.
  unfold byte_of_Z. pose proof (Z.mod_pos_bound z 256 ltac:(lia)) as Hb.
  destruct (Byte.of_N (Z.to_N (z mod 256))) as [b|] eqn:E; simpl.
  - apply Byte.to_of_N in E. unfold byte_to_Z. rewrite E. lia.
  - apply Byte.of_N_None_iff in E. lia.
Qed.

Lemma byte_to_Z_inj a b : byte_to_Z a = byte_to_Z b → a = b.
Proof. intros H. rewrite <- (byte_of_to a), <- (byte_of_to b). by rewrite H. Qed.

(** ** [encoding/binary]: little- and big-endian integers *)

Fixpoint le_bytes (n : nat) (z : Z) : list byte :=
  match n with
  | O => []
  | S n' => byte_of_Z z :: le_bytes n' (z / 256)
  end.

Fixpoint le_val (l : list byte) : Z :=
  match l with
  | [] => 0
  | b :: l' => byte_to_Z b + 256 * le_val l'
  end.

Definition be_bytes (n : nat) (z : Z) : list byte := reverse (le_bytes n z).
(** Also [new(big.Int).SetBytes]. *)
Definition be_val (l : list byte) : Z := le_val (reverse l).

Lemma length_le_bytes n z : length (le_bytes n z) = n.
Proof. revert z; induction n; intros; simpl; auto. Qed.
Lemma length_be_bytes n z : length (be_bytes n z) = n.
Proof. unfold be_bytes. by rewrite length_reverse, length_le_bytes. Qed.

Lemma le_val_le_bytes n z : le_val (le_bytes n z) = z mod 256 ^ Z.of_nat n.
Proof.
  revert z; induction n as [|n IH]; intros z; cbn [le_bytes le_val].
  - by rewrite Z.mod_1_r.
  - rewrite IH, byte_to_of, Nat2Z.inj_succ, Z.pow_succ_r by lia.
    rewrite Z.rem_mul_r by lia. lia.
Qed.

Lemma le_bytes_le_val l : le_bytes (length l) (le_val l) = l.
Proof.
  induction l as [|b l IH]; [done|]. cbn [le_bytes le_val length].
  pose proof (byte_to_Z_range b).
  replace (byte_to_Z b + 256 * le_val l) with (byte_to_Z b + le_val l * 256) by lia.
  rewrite Z.div_add, (Z.div_small (byte_to_Z b)) by lia. simpl. f_equal; [|done].
  apply byte_to_Z_inj. rewrite byte_to_of, Z.mod_add, Z.mod_small by lia. done.
Qed.

Lemma le_val_range l : 0 <= le_val l < 256 ^ zlen l.
Proof.
  unfold zlen. induction l as [|b l IH]; [simpl; lia|].
  cbn [le_val length]. rewrite Nat2Z.inj_succ, Z.pow_succ_r by lia.
  pose proof (byte_to_Z_range b). lia.
Qed.

Lemma be_val_range l : 0 <= be_val l < 256 ^ zlen l.
Proof.
  unfold be_val. pose proof (le_val_range (reverse l)) as H.
  unfold zlen in *. by rewrite length_reverse in H.
Qed.

Lemma le_bytes_inj n a b :
  0 <= a < 256 ^ Z.of_nat n → 0 <= b < 256 ^ Z.of_nat n →
  le_bytes n a = le_bytes n b → a = b.
Proof.
  intros Ha Hb H. apply (f_equal le_val) in H.
  rewrite !le_val_le_bytes, !Z.mod_small in H by lia. done.
Qed.

Lemma be_bytes_inj n a b :
  0 <= a < 256 ^ Z.of_nat n → 0 <= b < 256 ^ Z.of_nat n →
  be_bytes n a = be_bytes n b → a = b.
Proof. intros Ha Hb H. eapply le_bytes_inj; eauto. by apply (inj reverse). Qed.

(** [binary.BigEndian.PutUint64] and the little-endian writers of
    [binary.Write]. *)
Definition be64 (v : Z) : list byte := be_bytes 8 v.
Definition le16 (v : Z) : list byte := le_bytes 2 v.
Definition le32 (v : Z) : list byte := le_bytes 4 v.
Definition le64 (v : Z) : list byte := le_bytes 8 v.

Lemma be64_inj a b : is_u64 a → is_u64 b → be64 a = be64 b → a = b.
Proof. intros Ha Hb. apply be_bytes_inj; [exact Ha|exact Hb]. Qed.

(** ** Strings

    A Go string is a byte sequence; Rocq's [string] is one too, and the
    conversions [[]byte(s)] and [string(b)] are mutually inverse. *)

Definition bytes_of (s : string) : list byte := String.list_byte_of_string s.
Definition string_of (b : list byte) : string := String.string_of_list_byte b.

Lemma bytes_of_string_of b : bytes_of (string_of b) = b.
Proof. apply String.list_byte_of_string_of_list_byte. Qed.
Lemma string_of_bytes_of s : string_of (bytes_of s) = s.
Proof. apply String.string_of_list_byte_of_string. Qed.
Lemma bytes_of_inj s t : bytes_of s = bytes_of t → s = t.
Proof. intros H. rewrite <- (string_of_bytes_of s), H. apply string_of_bytes_of. Qed.
Lemma string_of_inj s t : string_of s = string_of t → s = t.
Proof. intros H. rewrite <- (bytes_of_string_of s), H. apply bytes_of_string_of. Qed.

Lemma bytes_of_app s t : bytes_of (s +:+ t) = bytes_of s ++ bytes_of t.
Proof.
  unfold bytes_of, String.list_byte_of_string.
  induction s as [|a s IH]; [done|]. simpl. f_equal. apply IH.
Qed.

Lemma bytes_of_nil s : bytes_of s = [] → s = ""%string.
Proof. by destruct s. Qed.

(** [len(s)] of a string. *)
Definition slen (s : string) : Z := zlen (bytes_of s).

(** [s[a:b]] of a string, for [0 <= a <= b <= len(s)]. *)
Definition slice (a b : Z) (s : string) : string :=
  string_of (take (Z.to_nat (b - a)) (drop (Z.to_nat a) (bytes_of s))).

Lemma slen_app s t : slen (s +:+ t) = slen s + slen t.
Proof. unfold slen. by rewrite bytes_of_app, zlen_app. Qed.

Lemma slen_slice a b s : 0 <= a <= b → b <= slen s → slen (slice a b s) = b - a.
Proof.
  unfold slen, slice, zlen. rewrite bytes_of_string_of, length_take, length_drop. lia.
Qed.

(** [strconv.FormatInt(z, 10)] and the [%d] verb. *)
Definition format_int (z : Z) : string := NilZero.string_of_int (Z.to_int z).

Lemma format_int_inj a b : format_int a = format_int b → a = b.
Proof.
  unfold format_int. intros H.
  apply (f_equal (λ s, option_map Z.of_int (NilZero.int_of_string s))) in H.
  rewrite !NilZero.isi in H
    by (destruct a as [|p|p], b as [|q|q]; simpl; try done;
        intros E; injection E; apply DecimalPos.Unsigned.to_uint_nonnil).
  simpl in H. injection H as H. by rewrite !DecimalZ.of_to in H.
Qed.

(** A number followed by a dash can be read back. *)
Lemma uint_dash_inj (d d' : Decimal.uint) (x y : string) :
  NilEmpty.string_of_uint d +:+ String "-" x = NilEmpty.string_of_uint d' +:+ String "-" y → d = d'.
Proof.
  revert d'. induction d; intros d'; destruct d'; simpl; intros H; try discriminate H; try done;
    injection H as H; f_equal; auto.
Qed.

Lemma format_int_dash_inj a b x y :
  0 <= a → 0 <= b → format_int a +:+ String "-" x = format_int b +:+ String "-" y → a = b.
Proof.
  assert (Hn : ∀ z, 0 <= z → ∃ d, format_int z = NilEmpty.string_of_uint d).
  { intros [|p|p] Hz; [by exists (Decimal.D0 Decimal.Nil)| |lia]. exists (Pos.to_uint p). unfold format_int. simpl.
    pose proof (DecimalPos.Unsigned.to_uint_nonnil p). by destruct (Pos.to_uint p). }
  intros Ha Hb H. apply format_int_inj. destruct (Hn a Ha) as [d Hd], (Hn b Hb) as [d' Hd'].
  rewrite Hd, Hd' in H |- *. by rewrite (uint_dash_inj _ _ _ _ H).
Qed.

(** [encoding/hex]. *)
Definition hex_digit (z : Z) : byte :=
  if decide (z < 10) then byte_of_Z (48 + z) else byte_of_Z (87 + z).

Definition unhex_digit (b : byte) : option Z :=
  let z := byte_to_Z b in
  if decide (48 <= z <= 57) then Some (z - 48)
  else if decide (97 <= z <= 102) then Some (z - 87)
  else if decide (65 <= z <= 70) then Some (z - 55)
  else None.

Fixpoint hex_encode_bytes (l : list byte) : list byte :=
  match l with
  | [] => []
  | b :: l' => hex_digit (byte_to_Z b / 16) :: hex_digit (byte_to_Z b mod 16)
               :: hex_encode_bytes l'
  end.

Fixpoint hex_decode_bytes (l : list byte) : option (list byte) :=
  match l with
  | [] => Some []
  | [_] => None
  | a :: b :: l' =>
      x ← unhex_digit a; y ← unhex_digit b; r ← hex_decode_bytes l';
      Some (byte_of_Z (16 * x + y) :: r)
  end.

Definition EncodeToString (b : list byte) : string := string_of (hex_encode_bytes b).
Definition DecodeString (s : string) : option (list byte) := hex_decode_bytes (bytes_of s).

Lemma unhex_hex z : 0 <= z < 16 → unhex_digit (hex_digit z) = Some z.
Proof.
  intros Hz. unfold unhex_digit, hex_digit.
  destruct (decide (z < 10)); cbv zeta; rewrite byte_to_of, Z.mod_small by lia;
    repeat case_decide; try lia; f_equal; lia.
Qed.

Lemma hex_decode_encode_bytes l : hex_decode_bytes (hex_encode_bytes l) = Some l.
Proof.
  induction l as [|b l IH]; [done|]. cbn [hex_encode_bytes hex_decode_bytes].
  pose proof (byte_to_Z_range b).
  rewrite !unhex_hex by (split; [apply Z.div_pos || apply Z.mod_pos_bound
    | apply Z.div_lt_upper_bound || apply Z.mod_pos_bound]; lia).
  rewrite IH. simpl. do 2 f_equal.
  rewrite <- Z.div_mod by lia. apply byte_of_to.
Qed.

Lemma DecodeString_EncodeToString b : DecodeString (EncodeToString b) = Some b.
Proof.
  unfold DecodeString, EncodeToString. rewrite bytes_of_string_of.
  apply hex_decode_encode_bytes.
Qed.

Lemma EncodeToString_inj a b : EncodeToString a = EncodeToString b → a = b.
Proof.
  intros H. apply (f_equal DecodeString) in H.
  rewrite !DecodeString_EncodeToString in H. by injection H.
Qed.

Lemma length_hex_encode_bytes l : length (hex_encode_bytes l) = (2 * length l)%nat.
Proof. induction l; simpl in *; lia. Qed.

(** ** Errors

    [errors.New] and [fmt.Errorf] with [%w].  [Wrap] is ["ctx: %w"], [Detail]
    is ["%w: detail"]; arguments that only decorate a message are left out. *)

Inductive error :=
| New (msg : string)
| Wrap (ctx : string) (inner : error)
| Detail (inner : error) (detail : string).

#[global] Instance error_eq_dec : EqDecision error.
Proof. solve_decision. Defined.

(** [err.Error()]. *)
Fixpoint Error (e : error) : string :=
  match e with
  | New m => m
  | Wrap c e' => c +:+ ": " +:+ Error e'
  | Detail e' d => Error e' +:+ ": " +:+ d
  end.

(** [errors.Is(e, target)]. *)
Fixpoint errors_Is (e target : error) : bool :=
  bool_decide (e = target) ||
  match e with
  | New _ => false
  | Wrap _ e' | Detail e' _ => errors_Is e' target
  end.

Lemma errors_Is_refl e : errors_Is e e = true.
Proof. destruct e; simpl; by rewrite bool_decide_eq_true_2. Qed.
Lemma errors_Is_Detail e d t : errors_Is e t = true → errors_Is (Detail e d) t = true.
Proof. intros H. simpl. rewrite H. apply orb_true_r. Qed.
Lemma errors_Is_Wrap c e t : errors_Is e t = true → errors_Is (Wrap c e) t = true.
Proof. intros H. simpl. rewrite H. apply orb_true_r. Qed.

(** A Go result [(T, error)]. *)
Inductive result (A : Type) :=
| Ok (a : A)
| Err (e : error).
Arguments Ok {A} a.
Arguments Err {A} e.

#[global] Instance result_eq_dec `{EqDecision A} : EqDecision (result A).
Proof. solve_decision. Defined.

Definition is_ok {A} (r : result A) : bool :=
  match r with Ok _ => true | Err _ => false end.

Definition rbind {A B} (r : result A) (k : A → result B) : result B :=
  match r with Ok a => k a | Err e => Err e end.

Declare Scope go_scope.
Delimit Scope go_scope with go.
Open Scope go_scope.
(** [x, err := r; if err != nil { return err }]. *)
Notation "'let!' x := r 'in' k" := (rbind r (λ x, k))
  (at level 200, x pattern, r at level 100, k at level 200) : go_scope.
(** The same with the error wrapped: [fmt.Errorf("ctx: %w", err)]. *)
Definition wrap {A} (ctx : string) (r : result A) : result A :=
  match r with Ok a => Ok a | Err e => Err (Wrap ctx e) end.

Lemma rbind_ok {A B} (r : result A) (k : A → result B) b :
  rbind r k = Ok b → ∃ a, r = Ok a ∧ k a = Ok b.
Proof. destruct r; simpl; intros H; [eauto|done]. Qed.

(** ** Time

    [time.Time] is the number of nanoseconds since the Unix epoch,
    [time.Duration] a nanosecond count. *)

Definition zero_time : Z := -62135596800 * 10 ^ 9.   (* time.Time{} *)
Definition Second : Z := 10 ^ 9.
Definition Hour : Z := 3600 * Second.
Definition Unix (t : Z) : Z := t / Second.
Definition UnixNano (t : Z) : Z := i64 t.

(** ** [io.Reader]

    A reader is the list of bytes it will deliver before end of file. *)

Definition EOF : error := New "EOF".
Definition ErrUnexpectedEOF : error := New "unexpected EOF".

(** [io.ReadFull(r, buf)] with [len(buf) = n]. *)
Definition ReadFull (n : nat) (r : list byte) : result (list byte * list byte) :=
  if decide (n <= length r)%nat then Ok (take n r, drop n r)
  else match r with [] => Err EOF | _ => Err ErrUnexpectedEOF end.

Lemma ReadFull_app n a r : length a = n → ReadFull n (a ++ r) = Ok (a, r).
Proof.
  intros <-. unfold ReadFull. rewrite length_app, decide_True by lia.
  by rewrite take_app_length, drop_app_length.
Qed.

Lemma ReadFull_ok n r a r' :
  ReadFull n r = Ok (a, r') → r = a ++ r' ∧ length a = n.
Proof.
  unfold ReadFull. case_decide; [|by destruct r].
  intros [= <- <-]. rewrite take_drop, length_take. split; [done|lia].
Qed.

Lemma ReadFull_short n r : (length r < n)%nat → ∃ e, ReadFull n r = Err e.
Proof. intros H. unfold ReadFull. rewrite decide_False by lia. destruct r; eauto. Qed.

(** ** Length-prefixed fields

    [writeString] of payment/signing.go, [appendString] of
    coordinator/dispatcher.go and [writeString] of cacheAnnouncement/signature.go
    all write an 8-byte big-endian length followed by the bytes. *)

Definition lp_string (s : string) : list byte := be64 (slen s) ++ bytes_of s.

Lemma be64_app_inj a b x y :
  is_u64 a → is_u64 b → be64 a ++ x = be64 b ++ y → a = b ∧ x = y.
Proof.
  intros Ha Hb H. apply app_inj_1 in H; [|unfold be64; by rewrite !length_be_bytes].
  destruct H as [H ->]. split; [|done]. by apply be64_inj.
Qed.

Lemma lp_string_app_inj s t x y :
  is_u64 (slen s) → is_u64 (slen t) →
  lp_string s ++ x = lp_string t ++ y → s = t ∧ x = y.
Proof.
  intros Hs Ht H. unfold lp_string in H. rewrite <- !app_assoc in H.
  apply be64_app_inj in H as [Hl H]; [|done..].
  apply app_inj_1 in H; [|unfold slen, zlen in Hl; lia].
  destruct H as [H ->]. split; [|done]. by apply bytes_of_inj.
Qed.

(** ** Lists and maps *)

Lemma Forall_snoc {A} (P : A → Prop) l x : Forall P (l ++ [x]) ↔ Forall P l ∧ P x.
Proof. rewrite Forall_app, Forall_singleton. done. Qed.

Lemma NoDup_snoc {A} (l : list A) x : NoDup l → x ∉ l → NoDup (l ++ [x]).
Proof.
  intros Hl Hx. apply NoDup_app. split_and!; [done| |apply NoDup_singleton].
  intros y Hy ->%list_elem_of_singleton. done.
Qed.

(** Removing the element at an index: [append(l[:i], l[i+1:]...)]. *)
Definition remove_at {A} (i : nat) (l : list A) : list A := take i l ++ drop (S i) l.

Lemma remove_at_perm {A} (i : nat) (l : list A) x :
  l !! i = Some x → l ≡ₚ x :: remove_at i l.
Proof.
  intros H. unfold remove_at. rewrite <- (take_drop_middle l i x H) at 1.
  by rewrite Permutation_middle.
Qed.

Lemma length_remove_at {A} (i : nat) (l : list A) x :
  l !! i = Some x → length l = S (length (remove_at i l)).
Proof. intros H. by rewrite (remove_at_perm i l x H) at 1. Qed.

(** Last [k] elements: [l[len(l)-k:]] when longer than [k]. *)
Definition last_n {A} (k : nat) (l : list A) : list A := drop (length l - k) l.

Lemma length_last_n {A} (k : nat) (l : list A) : length (last_n k l) = Nat.min k (length l).
Proof. unfold last_n. rewrite length_drop. lia. Qed.

Lemma last_n_all {A} (k : nat) (l : list A) : (length l <= k)%nat → last_n k l = l.
Proof. intros H. unfold last_n. by replace (length l - k)%nat with 0%nat by lia. Qed.

Lemma last_n_snoc {A} (k : nat) (l : list A) x :
  last_n (S k) (l ++ [x]) = last_n k l ++ [x].
Proof.
  unfold last_n. rewrite length_app; simpl.
  replace (length l + 1 - S k)%nat with (length l - k)%nat by lia.
  by rewrite drop_app_le by lia.
Qed.

Lemma fmap_lookup_Some `{Countable K} {A B} (f : A → B) (m : gmap K A) k v :
  f <$> m !! k = Some v → ∃ x, m !! k = Some x ∧ f x = v.
Proof. intros (x & -> & ->)%fmap_Some. eauto. Qed.

(** ** Step relations *)

Lemma rtc_invariant {A} (R : relation A) (P : A → Prop) x y :
  (∀ a b, R a b → P a → P b) → P x → rtc R x y → P y.
Proof. intros Hstep Hx Hxy. induction Hxy; eauto. Qed.

(** ** Automation *)

Create HintDb cipher.
#[export] Hint Resolve u64_range u32_range i64_range zlen_nonneg : cipher.
#[export] Hint Resolve errors_Is_refl errors_Is_Detail errors_Is_Wrap : cipher.
#[export] Hint Rewrite @zlen_app @length_app @length_be_bytes @length_le_bytes : cipher.

(** Split every early return of a translated function: conditions and
    matches become hypotheses, contradictory branches disappear. *)
Ltac go_cases := repeat (case_match; simplify_eq/=); simplify_eq/=.

(** Refute [f x = (_, Err _)] by evaluating [f x] (used on concrete inputs). *)
Ltac refute_err E :=
  exfalso; apply (f_equal (λ x, is_ok (snd x))) in E; vm_compute in E; discriminate E.
