(* ===== verification/Sha256.v ===== *)
(** * SHA-256

    [crypto/sha256] of the Go standard library (FIPS 180-4), as an executable
    function on byte lists.  Every digest the program computes goes through
    it, so nothing in the development assumes a hash function. *)

From S2P Require Import Prelude.
Open Scope Z_scope.

(** Round constants: the first 32 bits of the fractional parts of the cube
    roots of the first 64 primes (and square roots of the first eight for the
    initial state), computed here instead of listed. *)
Definition is_prime (n : nat) : bool :=
  forallb (λ d, negb (Nat.eqb (n mod d) 0)) (seq 2 (n - 2)).
Definition sha_primes : list Z :=
  Eval vm_compute in Z.of_nat <$> List.filter is_prime (seq 2 310).

(** Integer cube root, one bit at a time from bit [k]. *)
Fixpoint icbrt (k : nat) (r n : Z) : Z :=
  match k with
  | O => r
  | S k' => let r' := r + 2 ^ Z.of_nat k' in icbrt k' (if r' ^ 3 <=? n then r' else r) n
  end.
Definition cbrt_bits (p : Z) : Z := icbrt 36 0 (p * 2 ^ 96) mod 2 ^ 32.
Definition sqrt_bits (p : Z) : Z := Z.sqrt (p * 2 ^ 64) mod 2 ^ 32.

Definition sha_k : list Z := Eval vm_compute in cbrt_bits <$> sha_primes.

Record sha_state := SHA { ha : Z; hb : Z; hc : Z; hd : Z; he : Z; hf : Z; hg : Z; hh : Z }.

Definition sha_iv : list Z := Eval vm_compute in sqrt_bits <$> take 8 sha_primes.
Definition sha_init : sha_state :=
  match sha_iv with
  | [a; b; c; d; e; f; g; h] => SHA a b c d e f g h
  | _ => SHA 0 0 0 0 0 0 0 0
  end.

Definition rotr (n x : Z) : Z := Z.lor (Z.shiftr x n) (u32 (Z.shiftl x (32 - n))).
Definition bsig0 (x : Z) : Z := Z.lxor (rotr 2 x) (Z.lxor (rotr 13 x) (rotr 22 x)).
Definition bsig1 (x : Z) : Z := Z.lxor (rotr 6 x) (Z.lxor (rotr 11 x) (rotr 25 x)).
Definition ssig0 (x : Z) : Z := Z.lxor (rotr 7 x) (Z.lxor (rotr 18 x) (Z.shiftr x 3)).
Definition ssig1 (x : Z) : Z := Z.lxor (rotr 17 x) (Z.lxor (rotr 19 x) (Z.shiftr x 10)).
Definition sha_ch (x y z : Z) : Z := Z.lxor (Z.land x y) (Z.land (Z.lxor x 0xffffffff) z).
Definition sha_maj (x y z : Z) : Z :=
  Z.lxor (Z.land x y) (Z.lxor (Z.land x z) (Z.land y z)).

(** Message schedule, kept as the last sixteen words in reverse order. *)
Fixpoint sha_words (n : nat) (l : list byte) : list Z :=
  match n with
  | O => []
  | S n' => be_val (take 4 l) :: sha_words n' (drop 4 l)
  end.

Definition nthZ (i : nat) (l : list Z) : Z := nth i l 0.

Fixpoint sha_expand (n : nat) (w : list Z) : list Z :=
  match n with
  | O => reverse w
  | S n' =>
      sha_expand n'
        (u32 (ssig1 (nthZ 1 w) + nthZ 6 w + ssig0 (nthZ 14 w) + nthZ 15 w) :: w)
  end.

Definition sha_schedule (block : list byte) : list Z :=
  sha_expand 48 (reverse (sha_words 16 block)).

Definition sha_round (s : sha_state) (kw : Z * Z) : sha_state :=
  let t1 := u32 (hh s + bsig1 (he s) + sha_ch (he s) (hf s) (hg s) + kw.1 + kw.2) in
  let t2 := u32 (bsig0 (ha s) + sha_maj (ha s) (hb s) (hc s)) in
  SHA (u32 (t1 + t2)) (ha s) (hb s) (hc s) (u32 (hd s + t1)) (he s) (hf s) (hg s).

Definition sha_block (s : sha_state) (block : list byte) : sha_state :=
  let t := foldl sha_round s (zip sha_k (sha_schedule block)) in
  SHA (u32 (ha s + ha t)) (u32 (hb s + hb t)) (u32 (hc s + hc t)) (u32 (hd s + hd t))
      (u32 (he s + he t)) (u32 (hf s + hf t)) (u32 (hg s + hg t)) (u32 (hh s + hh t)).

Definition sha_pad (l : list byte) : list byte :=
  let n := length l in
  l ++ [byte_of_Z 128] ++ replicate (Z.to_nat ((55 - Z.of_nat n) mod 64)) (byte_of_Z 0)
    ++ be64 (8 * Z.of_nat n).

Fixpoint sha_blocks (n : nat) (s : sha_state) (l : list byte) : sha_state :=
  match n with
  | O => s
  | S n' => sha_blocks n' (sha_block s (take 64 l)) (drop 64 l)
  end.

Definition sha_out (s : sha_state) : list byte :=
  be_bytes 4 (ha s) ++ be_bytes 4 (hb s) ++ be_bytes 4 (hc s) ++ be_bytes 4 (hd s)
  ++ be_bytes 4 (he s) ++ be_bytes 4 (hf s) ++ be_bytes 4 (hg s) ++ be_bytes 4 (hh s).

(** [sha256.Sum256]; [h := sha256.New(); h.Write(a); h.Write(b); h.Sum(nil)]
    is [sha256 (a ++ b)]. *)
Definition sha256 (l : list byte) : list byte :=
  let p := sha_pad l in
  sha_out (sha_blocks (length p / 64) sha_init p).

Arguments sha256 : simpl never.

Lemma length_sha256 l : length (sha256 l) = 32%nat.
Proof. unfold sha256, sha_out. rewrite !length_app, !length_be_bytes. done. Qed.

#[export] Hint Resolve length_sha256 : cipher.
#[export] Hint Rewrite length_sha256 : cipher.

(** FIPS 180-4 test vectors: the empty message, one block and two blocks. *)
Example sha256_empty : EncodeToString (sha256 []) =
  "e3b0c44298fc1c149afbf4c8996fb92427ae41e4649b934ca495991b7852b855"%string.
Proof. vm_compute. reflexivity. Qed.

Example sha256_abc : EncodeToString (sha256 (bytes_of "abc")) =
  "ba7816bf8f01cfea414140de5dae2223b00361a396177a9cb410ff61f20015ad"%string.
Proof. vm_compute. reflexivity. Qed.

Example sha256_two_blocks :
  EncodeToString (sha256 (bytes_of "abcdbcdecdefdefgefghfghighijhijkijkljklmklmnlmnomnopnopq")) =
  "248d6a61d20638b8e5c026930c3e6039a33ce45964ff2167f6ecedd419db06c1"%string.
Proof. vm_compute. reflexivity. Qed.

(** Two inputs that violate collision resistance. *)
Definition sha256_collision (a b : list byte) : Prop := a ≠ b ∧ sha256 a = sha256 b.
