(* ===== verification/Crypto.v ===== *)
(** * Ed25519 signatures

    The interface [crypto/ed25519] offers to the program: signing,
    verification and the documented laws the code relies on.  [ToyEd25519]
    is a concrete implementation of the interface, used to evaluate the
    development on concrete inputs. *)

From S2P Require Import Prelude Sha256.
Open Scope Z_scope.

Definition PublicKeySize : Z := 32.
Definition PrivateKeySize : Z := 64.
Definition SignatureSize : Z := 64.

Class Ed25519 := {
  (** [ed25519.Sign(privateKey, message)] *)
  ed_sign : list byte → list byte → list byte;
  (** [ed25519.Verify(publicKey, message, sig)] *)
  ed_verify : list byte → list byte → list byte → bool;
  (** keys produced by [ed25519.GenerateKey] *)
  ed_valid : list byte → Prop;
  ed_valid_length : ∀ sk, ed_valid sk → length sk = 64%nat;
  ed_sign_length : ∀ sk m, length sk = 64%nat → length (ed_sign sk m) = 64%nat;
  ed_verify_sign : ∀ sk m, ed_valid sk → ed_verify (drop 32 sk) m (ed_sign sk m) = true;
}.

(** [privateKey.Public()]: the second half of the 64-byte private key. *)
Definition ed_public (sk : list byte) : list byte := drop 32 sk.

Lemma ed_public_length `{Ed25519} sk : ed_valid sk → length (ed_public sk) = 32%nat.
Proof. intros Hv%ed_valid_length. unfold ed_public. rewrite length_drop. lia. Qed.

Lemma ed_verify_public `{Ed25519} sk m :
  ed_valid sk → ed_verify (ed_public sk) m (ed_sign sk m) = true.
Proof. apply ed_verify_sign. Qed.

#[export] Hint Resolve ed_valid_length ed_public_length ed_verify_public : cipher.

Definition toy_tag (pk m : list byte) : list byte :=
  sha256 (pk ++ m) ++ sha256 (m ++ pk).

#[global, program] Instance ToyEd25519 : Ed25519 := {|
  ed_sign sk m := toy_tag (drop 32 sk) m;
  ed_verify pk m s := bool_decide (s = toy_tag pk m);
  ed_valid sk := length sk = 64%nat
|}.
Next Obligation. done. Qed.
Next Obligation. intros. unfold toy_tag. by rewrite length_app, !length_sha256. Qed.
Next Obligation. intros. apply bool_decide_eq_true. done. Qed.

(** A concrete key for evaluation. *)
Definition toy_key (b : Z) : list byte := replicate 64 (byte_of_Z b).
