(* ===== verification/AvailTypes.v ===== *)
(** * Availability data model

    availability-contracts/types/types.go: the protocol objects shared by the
    availability packages.  Identifiers ([ContractID], [EpochID],
    [ChallengeID]) are Go strings; times and durations are nanoseconds. *)

From S2P Require Import Prelude.

(** [ContractState] is a string type with nine named constants;
    [StateOther] stands for every other string a caller could convert. *)
Inductive ContractState :=
| Proposed | Agreed | Transferring | Ready | Active
| Completed | Expired | Terminated | Disputed
| StateOther (s : string).

#[global] Instance ContractState_eq_dec : EqDecision ContractState.
Proof. solve_decision. Defined.

Definition IsTerminal (s : ContractState) : bool :=
  bool_decide (s = Completed) || bool_decide (s = Expired)
  || bool_decide (s = Terminated) || bool_decide (s = Disputed).

(** [AvailabilityStatus], a string type. *)
Abbreviation AvailabilityStatus := string.
Definition AvailabilityPass : AvailabilityStatus := "PASS".
Definition AvailabilityFail : AvailabilityStatus := "FAIL".

Inductive EpochStatus := EpochActive | EpochEnded.
#[global] Instance EpochStatus_eq_dec : EqDecision EpochStatus.
Proof. solve_decision. Defined.

Inductive SettlementStatus :=
| SettlementNone   (* the zero value of the struct *)
| SettlementPending | SettlementCompleted | SettlementWithheld
| SettlementExpired | SettlementTerminated.
#[global] Instance SettlementStatus_eq_dec : EqDecision SettlementStatus.
Proof. solve_decision. Defined.

Record ChallengeResult := {
  cr_ChallengeID : string;
  cr_Succeeded : bool;
  cr_RecordedAt : Z;
}.

Record AvailabilityResult := {
  ar_ContractID : string;
  ar_ProviderID : string;
  ar_Period : Z;
  ar_ChallengeID : string;
  ar_Result : AvailabilityStatus;
  ar_Timestamp : Z;
}.

Record SettlementState := {
  ss_Status : SettlementStatus;
  ss_ReleasedAmount : Z;
  ss_WithheldAmount : Z;
  ss_SuccessfulProofs : Z;
  ss_FailedProofs : Z;
  ss_FinalizedAt : Z;
}.

Record AvailabilityContract := {
  ac_ID : string;
  ac_PublisherID : string;
  ac_ProviderID : string;
  ac_FileID : string;
  ac_TotalChunks : Z;
  ac_PaymentAmount : Z;
  ac_FundedAmount : Z;
  ac_Duration : Z;
  ac_CreatedAt : Z;
  ac_EndsAt : Z;
  ac_State : ContractState;
  ac_Challenges : list string;
  ac_Results : list ChallengeResult;
  ac_AvailabilityResults : list AvailabilityResult;
  ac_Settlement : SettlementState;
}.

Record Epoch := {
  ep_ID : string;
  ep_ProviderID : string;
  ep_FileID : string;
  ep_TotalChunks : Z;
  ep_ChallengeCounter : Z;
  ep_Uncovered : list Z;
  ep_Status : EpochStatus;
  ep_RoundNumber : Z;
  ep_CreatedAt : Z;
}.

Record EpochState := {
  es_EpochID : string;
  es_ChallengeCounter : Z;
  es_UncoveredChunkCount : Z;
  es_EpochStatus : EpochStatus;
  es_RoundNumber : Z;
}.

Record Challenge := {
  ch_ChallengeID : string;
  ch_ContractID : string;
  ch_ProviderID : string;
  ch_FileID : string;
  ch_EpochID : string;
  ch_ChunkID : Z;
  ch_Nonce : list byte;
  ch_ChallengeCounter : Z;
  ch_RoundNumber : Z;
  ch_TriggerStatus : bool;
  ch_CreatedAt : Z;
}.

#[global] Instance ChallengeResult_eq_dec : EqDecision ChallengeResult.
Proof. solve_decision. Defined.
#[global] Instance AvailabilityResult_eq_dec : EqDecision AvailabilityResult.
Proof. solve_decision. Defined.
#[global] Instance SettlementState_eq_dec : EqDecision SettlementState.
Proof. solve_decision. Defined.

(** Field updates of a contract record ([contract.F = v]). *)
Definition set_State (s : ContractState) (c : AvailabilityContract) : AvailabilityContract :=
  {| ac_ID := ac_ID c; ac_PublisherID := ac_PublisherID c; ac_ProviderID := ac_ProviderID c;
     ac_FileID := ac_FileID c; ac_TotalChunks := ac_TotalChunks c;
     ac_PaymentAmount := ac_PaymentAmount c; ac_FundedAmount := ac_FundedAmount c;
     ac_Duration := ac_Duration c; ac_CreatedAt := ac_CreatedAt c; ac_EndsAt := ac_EndsAt c;
     ac_State := s; ac_Challenges := ac_Challenges c; ac_Results := ac_Results c;
     ac_AvailabilityResults := ac_AvailabilityResults c; ac_Settlement := ac_Settlement c |}.

Definition set_FundedAmount (a : Z) (c : AvailabilityContract) : AvailabilityContract :=
  {| ac_ID := ac_ID c; ac_PublisherID := ac_PublisherID c; ac_ProviderID := ac_ProviderID c;
     ac_FileID := ac_FileID c; ac_TotalChunks := ac_TotalChunks c;
     ac_PaymentAmount := ac_PaymentAmount c; ac_FundedAmount := a;
     ac_Duration := ac_Duration c; ac_CreatedAt := ac_CreatedAt c; ac_EndsAt := ac_EndsAt c;
     ac_State := ac_State c; ac_Challenges := ac_Challenges c; ac_Results := ac_Results c;
     ac_AvailabilityResults := ac_AvailabilityResults c; ac_Settlement := ac_Settlement c |}.

Definition set_Challenges (l : list string) (c : AvailabilityContract) : AvailabilityContract :=
  {| ac_ID := ac_ID c; ac_PublisherID := ac_PublisherID c; ac_ProviderID := ac_ProviderID c;
     ac_FileID := ac_FileID c; ac_TotalChunks := ac_TotalChunks c;
     ac_PaymentAmount := ac_PaymentAmount c; ac_FundedAmount := ac_FundedAmount c;
     ac_Duration := ac_Duration c; ac_CreatedAt := ac_CreatedAt c; ac_EndsAt := ac_EndsAt c;
     ac_State := ac_State c; ac_Challenges := l; ac_Results := ac_Results c;
     ac_AvailabilityResults := ac_AvailabilityResults c; ac_Settlement := ac_Settlement c |}.

Definition set_Results (l : list ChallengeResult) (r : list AvailabilityResult)
    (c : AvailabilityContract) : AvailabilityContract :=
  {| ac_ID := ac_ID c; ac_PublisherID := ac_PublisherID c; ac_ProviderID := ac_ProviderID c;
     ac_FileID := ac_FileID c; ac_TotalChunks := ac_TotalChunks c;
     ac_PaymentAmount := ac_PaymentAmount c; ac_FundedAmount := ac_FundedAmount c;
     ac_Duration := ac_Duration c; ac_CreatedAt := ac_CreatedAt c; ac_EndsAt := ac_EndsAt c;
     ac_State := ac_State c; ac_Challenges := ac_Challenges c; ac_Results := l;
     ac_AvailabilityResults := r; ac_Settlement := ac_Settlement c |}.

Definition set_Settlement (s : SettlementState) (c : AvailabilityContract) : AvailabilityContract :=
  {| ac_ID := ac_ID c; ac_PublisherID := ac_PublisherID c; ac_ProviderID := ac_ProviderID c;
     ac_FileID := ac_FileID c; ac_TotalChunks := ac_TotalChunks c;
     ac_PaymentAmount := ac_PaymentAmount c; ac_FundedAmount := ac_FundedAmount c;
     ac_Duration := ac_Duration c; ac_CreatedAt := ac_CreatedAt c; ac_EndsAt := ac_EndsAt c;
     ac_State := ac_State c; ac_Challenges := ac_Challenges c; ac_Results := ac_Results c;
     ac_AvailabilityResults := ac_AvailabilityResults c; ac_Settlement := s |}.

Definition zero_settlement : SettlementState :=
  {| ss_Status := SettlementNone; ss_ReleasedAmount := 0; ss_WithheldAmount := 0;
     ss_SuccessfulProofs := 0; ss_FailedProofs := 0; ss_FinalizedAt := zero_time |}.

Definition set_FinalizedAt (t : Z) (s : SettlementState) : SettlementState :=
  {| ss_Status := ss_Status s; ss_ReleasedAmount := ss_ReleasedAmount s;
     ss_WithheldAmount := ss_WithheldAmount s; ss_SuccessfulProofs := ss_SuccessfulProofs s;
     ss_FailedProofs := ss_FailedProofs s; ss_FinalizedAt := t |}.

Definition set_SettlementStatus (st : SettlementStatus) (s : SettlementState) : SettlementState :=
  {| ss_Status := st; ss_ReleasedAmount := ss_ReleasedAmount s;
     ss_WithheldAmount := ss_WithheldAmount s; ss_SuccessfulProofs := ss_SuccessfulProofs s;
     ss_FailedProofs := ss_FailedProofs s; ss_FinalizedAt := ss_FinalizedAt s |}.
