(* ===== verification/Lifecycle.v ===== *)
(** * Contract lifecycle

    availability-contracts/contract/state.go and lifecycle.go: which state of
    an availability contract may follow which.  The abstract specification is
    the inductive relation [lifecycle_step]; [Transition] implements it. *)

From S2P Require Import Prelude AvailTypes.

Definition isValidState (state : ContractState) : bool :=
  match state with
  | Proposed | Agreed | Transferring | Ready | Active
  | Completed | Expired | Terminated | Disputed => true
  | StateOther _ => false
  end.

Definition isTerminalState (state : ContractState) : bool :=
  bool_decide (state = Completed) || bool_decide (state = Expired)
  || bool_decide (state = Terminated) || bool_decide (state = Disputed).

Definition CanTransition (from to : ContractState) : bool :=
  if negb (isValidState from) || negb (isValidState to) || isTerminalState from then false
  else
    match from with
    | Proposed => bool_decide (to = Agreed) || bool_decide (to = Terminated) || bool_decide (to = Disputed)
    | Agreed => bool_decide (to = Transferring) || bool_decide (to = Terminated) || bool_decide (to = Disputed)
    | Transferring => bool_decide (to = Ready) || bool_decide (to = Terminated) || bool_decide (to = Disputed)
    | Ready => bool_decide (to = Active) || bool_decide (to = Terminated) || bool_decide (to = Disputed)
    | Active => bool_decide (to = Completed) || bool_decide (to = Expired)
                || bool_decide (to = Terminated) || bool_decide (to = Disputed)
    | _ => false
    end.

Definition Transition (from to : ContractState) : result ContractState :=
  if negb (CanTransition from to) then Err (New "invalid contract state transition")
  else Ok to.

(** ** Abstract lifecycle *)

Inductive lifecycle_step : ContractState → ContractState → Prop :=
| step_agree : lifecycle_step Proposed Agreed
| step_transfer : lifecycle_step Agreed Transferring
| step_ready : lifecycle_step Transferring Ready
| step_activate : lifecycle_step Ready Active
| step_complete : lifecycle_step Active Completed
| step_expire : lifecycle_step Active Expired
| step_abort s t : s ∈ [Proposed; Agreed; Transferring; Ready; Active] →
                   t ∈ [Terminated; Disputed] → lifecycle_step s t.

Lemma CanTransition_step from to : CanTransition from to = true ↔ lifecycle_step from to.
Proof.
  split.
  - destruct from, to; try discriminate; intros _; constructor; set_solver.
  - inversion 1 as [| | | | | |s t Hs Ht]; subst; try reflexivity.
    set_unfold in Hs; set_unfold in Ht. destruct_or!; subst; done.
Qed.

Lemma Transition_Ok from to s : Transition from to = Ok s ↔ s = to ∧ lifecycle_step from to.
Proof.
  unfold Transition. rewrite <- CanTransition_step.
  destruct (CanTransition from to); simpl; naive_solver.
Qed.

(** Position of a state along the lifecycle. *)
Definition lifecycle_rank (s : ContractState) : nat :=
  match s with
  | Proposed => 0 | Agreed => 1 | Transferring => 2 | Ready => 3 | Active => 4
  | _ => 5
  end.

Lemma lifecycle_step_rank s t :
  lifecycle_step s t →
  (lifecycle_rank s < lifecycle_rank t <= 5)%nat ∧ s ∉ [Terminated; Disputed] ∧
  (t ∉ [Terminated; Disputed] → lifecycle_rank t = S (lifecycle_rank s)).
Proof.
  inversion 1 as [| | | | | |? ? Hs Ht]; subst; simpl;
    try (split_and!; [lia|lia|set_solver|done]).
  split_and!; [..|done]; set_unfold in Hs; set_unfold in Ht;
    destruct_or!; subst; simpl; try lia; set_solver.
Qed.

Lemma lifecycle_nsteps_rank n t :
  nsteps lifecycle_step n Proposed t →
  (n <= lifecycle_rank t)%nat ∧ (t ∉ [Terminated; Disputed] → n = lifecycle_rank t).
Proof.
  revert t; induction n as [|n IH]; intros t Hn.
  - inversion Hn; subst. split; simpl; [lia|done].
  - apply nsteps_inv_r in Hn as (s & [IH1 IH2]%IH & (Hr & Hs & Ht)%lifecycle_step_rank).
    split; [lia|]. intros Hnt. rewrite Ht by done. f_equal. by apply IH2.
Qed.

Lemma Transition_nsteps n s t :
  nsteps (λ s u, Transition s u = Ok u) n s t → nsteps lifecycle_step n s t.
Proof.
  induction 1 as [|m x y z Hxy _ IH]; econstructor; [|exact IH].
  by apply Transition_Ok in Hxy as [_ ?].
Qed.

(** The lifecycle implemented by [Transition] terminates: a sequence of [n]
    accepted transitions that starts in [Proposed] has at most five steps, a
    terminal state accepts no transition at all, and the only way to
    [Completed] is the full chain of five. *)
Theorem lifecycle_terminates :
  (∀ n t, nsteps (λ s u, Transition s u = Ok u) n Proposed t →
          (n <= 5)%nat ∧ (t = Completed → n = 5%nat)) ∧
  (∀ s u, isTerminalState s = true → is_ok (Transition s u) = false).
Proof.
  split.
  - intros n t [Hr He]%Transition_nsteps%lifecycle_nsteps_rank. split.
    + destruct t; simpl in Hr; lia.
    + intros ->. apply He. set_solver.
  - intros s u Hs. unfold Transition, CanTransition. by rewrite Hs, !orb_true_r.
Qed.
