(* ===== verification/EpochStore.v ===== *)
(** * Epochs and challenge generation

    availability-contracts/challenge: epoch.go (the epoch store), randomness.go
    (nonces and selection hashes) and challenge.go (challenge generation).

    The package-level [epochStore] is the state record [EpochStore]; every
    exported function takes the lock for its whole body, so each is one atomic
    state transformer.  Draws from [crypto/rand] ([rnd]) and the wall clock
    ([now]) are arguments. *)

From S2P Require Import Prelude Sha256 AvailTypes.

Record EpochStore := {
  epochs : gmap string Epoch;
  latest : gmap string string;
}.

Definition empty_epochs : EpochStore := {| epochs := ∅; latest := ∅ |}.

(** [providerID + "\x00" + fileID] *)
Definition epoch_key (providerID fileID : string) : string :=
  providerID +:+ String (Ascii.ascii_of_nat 0) EmptyString +:+ fileID.

Definition set_ep_Status (s : EpochStatus) (e : Epoch) : Epoch :=
  {| ep_ID := ep_ID e; ep_ProviderID := ep_ProviderID e; ep_FileID := ep_FileID e;
     ep_TotalChunks := ep_TotalChunks e; ep_ChallengeCounter := ep_ChallengeCounter e;
     ep_Uncovered := ep_Uncovered e; ep_Status := s; ep_RoundNumber := ep_RoundNumber e;
     ep_CreatedAt := ep_CreatedAt e |}.

Definition set_ep_Uncovered (l : list Z) (k : Z) (e : Epoch) : Epoch :=
  {| ep_ID := ep_ID e; ep_ProviderID := ep_ProviderID e; ep_FileID := ep_FileID e;
     ep_TotalChunks := ep_TotalChunks e; ep_ChallengeCounter := k;
     ep_Uncovered := l; ep_Status := ep_Status e; ep_RoundNumber := ep_RoundNumber e;
     ep_CreatedAt := ep_CreatedAt e |}.

Definition CreateEpoch (providerID fileID : string) (totalChunks : Z)
    (rnd : result (list byte)) (now : Z) (st : EpochStore) : EpochStore * result string :=
  if decide (providerID = ""%string ∨ fileID = ""%string) then
    (st, Err (New "provider ID and file ID are required"))
  else if decide (totalChunks <= 0) then
    (st, Err (New "total chunks must be positive"))
  else
    match rnd with
    | Err e => (st, Err (Wrap "generate epoch ID" e))
    | Ok randomID =>
        let epochID := "epoch-" +:+ EncodeToString randomID in
        let uncovered := seqZ 0 totalChunks in
        let key := epoch_key providerID fileID in
        let '(eps, roundNumber) :=
          match latest st !! key with
          | Some previousID =>
              match epochs st !! previousID with
              | Some previous =>
                  (<[previousID := set_ep_Status EpochEnded previous]> (epochs st),
                   u64 (ep_RoundNumber previous + 1))
              | None => (epochs st, 0)
              end
          | None => (epochs st, 0)
          end in
        ({| epochs := <[epochID :=
              {| ep_ID := epochID; ep_ProviderID := providerID; ep_FileID := fileID;
                 ep_TotalChunks := totalChunks; ep_ChallengeCounter := 0;
                 ep_Uncovered := uncovered; ep_Status := EpochActive;
                 ep_RoundNumber := roundNumber; ep_CreatedAt := now |}]> eps;
            latest := <[key := epochID]> (latest st) |}, Ok epochID)
    end.

Definition SelectUncoveredChunk (epochID : string) (chunkHash : list byte)
    (st : EpochStore) : EpochStore * result Z :=
  if decide (epochID = ""%string ∨ zlen chunkHash = 0) then
    (st, Err (New "epoch ID and chunk hash are required"))
  else
    match epochs st !! epochID with
    | None => (st, Err (New "unknown epoch"))
    | Some epoch =>
        if decide (ep_Status epoch ≠ EpochActive) then (st, Err (New "epoch is not active"))
        else if decide (zlen (ep_Uncovered epoch) = 0) then
          (st, Err (New "no uncovered chunks remain in epoch"))
        else
          let selectedIndex := Z.to_nat (be_val chunkHash mod zlen (ep_Uncovered epoch)) in
          let chunkID := nth selectedIndex (ep_Uncovered epoch) 0 in
          ({| epochs := <[epochID :=
                set_ep_Uncovered (remove_at selectedIndex (ep_Uncovered epoch))
                  (u64 (ep_ChallengeCounter epoch + 1)) epoch]> (epochs st);
              latest := latest st |}, Ok chunkID)
    end.

Definition CheckRoundTrigger (roundHash : list byte) : bool :=
  if decide (zlen roundHash = 0) then false
  else bool_decide (be_val roundHash mod 3 = 0).

Definition StartNextEpoch (providerID fileID : string) (rnd : result (list byte)) (now : Z)
    (st : EpochStore) : EpochStore * result string :=
  if decide (providerID = ""%string ∨ fileID = ""%string) then
    (st, Err (New "provider ID and file ID are required"))
  else
    match latest st !! epoch_key providerID fileID with
    | None => (st, Err (New "no prior epoch exists for provider and file"))
    | Some previousID =>
        match epochs st !! previousID with
        | None => (st, Err (New "latest epoch is unavailable"))
        | Some previous => CreateEpoch providerID fileID (ep_TotalChunks previous) rnd now st
        end
    end.

Definition GetEpochState (epochID : string) (st : EpochStore) : result EpochState :=
  if decide (epochID = ""%string) then Err (New "epoch ID is required")
  else
    match epochs st !! epochID with
    | None => Err (New "unknown epoch")
    | Some epoch =>
        Ok {| es_EpochID := ep_ID epoch; es_ChallengeCounter := ep_ChallengeCounter epoch;
              es_UncoveredChunkCount := zlen (ep_Uncovered epoch);
              es_EpochStatus := ep_Status epoch; es_RoundNumber := ep_RoundNumber epoch |}
    end.

(** ** randomness.go *)

Definition GenerateNonce (epochID : string) (challengeCounter : Z)
    (rnd : result (list byte)) : result (list byte) :=
  if decide (epochID = ""%string) then Err (New "epoch ID is required")
  else wrap "generate nonce for epoch" rnd.

Definition GenerateChunkHash (providerID fileID epochID : string) (challengeCounter : Z)
    (nonce : list byte) : list byte :=
  sha256 (bytes_of providerID ++ bytes_of fileID ++ bytes_of epochID
          ++ be64 challengeCounter ++ nonce ++ bytes_of "CHUNK").

Definition GenerateRoundHash (providerID fileID epochID : string) (challengeCounter : Z)
    (nonce : list byte) (roundNumber : Z) : list byte :=
  sha256 (bytes_of providerID ++ bytes_of fileID ++ bytes_of epochID
          ++ be64 challengeCounter ++ nonce ++ be64 roundNumber ++ bytes_of "ROUND").

(** ** challenge.go *)

Definition challengeID (contractID epochID : string) (counter : Z) (nonce : list byte) : string :=
  let input := contractID +:+ "|" +:+ epochID +:+ "|" +:+ format_int counter +:+ "|" in
  "challenge-" +:+ EncodeToString (sha256 (bytes_of input ++ nonce)).

Definition GenerateNextChallenge (contractID providerID fileID epochID : string)
    (challengeCounter roundNumber : Z) (rnd : result (list byte)) (now : Z)
    (st : EpochStore) : EpochStore * result Challenge :=
  if decide (contractID = ""%string ∨ providerID = ""%string ∨ fileID = ""%string
             ∨ epochID = ""%string) then
    (st, Err (New "contract ID, provider ID, file ID, and epoch ID are required"))
  else
    match GetEpochState epochID st with
    | Err e => (st, Err (Wrap "get epoch state" e))
    | Ok epochState =>
        if decide (es_ChallengeCounter epochState ≠ challengeCounter) then
          (st, Err (New "challenge counter does not match epoch counter"))
        else
          match GenerateNonce epochID challengeCounter rnd with
          | Err e => (st, Err (Wrap "generate nonce" e))
          | Ok nonce =>
              let chunkHash := GenerateChunkHash providerID fileID epochID challengeCounter nonce in
              match SelectUncoveredChunk epochID chunkHash st with
              | (st', Err e) => (st', Err (Wrap "select uncovered chunk" e))
              | (st', Ok chunkID) =>
                  let roundHash :=
                    GenerateRoundHash providerID fileID epochID challengeCounter nonce roundNumber in
                  (st', Ok {| ch_ChallengeID := challengeID contractID epochID challengeCounter nonce;
                              ch_ContractID := contractID; ch_ProviderID := providerID;
                              ch_FileID := fileID; ch_EpochID := epochID; ch_ChunkID := chunkID;
                              ch_Nonce := nonce; ch_ChallengeCounter := challengeCounter;
                              ch_RoundNumber := roundNumber;
                              ch_TriggerStatus := CheckRoundTrigger roundHash;
                              ch_CreatedAt := now |})
              end
          end
    end.

Definition CreateChallenge (contractID providerID fileID : string) (totalChunks roundNumber : Z)
    (rndEpoch rndNonce : result (list byte)) (now : Z) (st : EpochStore)
    : EpochStore * result Challenge :=
  if decide (contractID = ""%string ∨ providerID = ""%string ∨ fileID = ""%string) then
    (st, Err (New "contract ID, provider ID, and file ID are required"))
  else
    match CreateEpoch providerID fileID totalChunks rndEpoch now st with
    | (st', Err e) => (st', Err (Wrap "create epoch" e))
    | (st', Ok epochID) =>
        GenerateNextChallenge contractID providerID fileID epochID 0 roundNumber rndNonce now st'
    end.

(** ** Well-formed epochs *)

Record epoch_wf (id : string) (e : Epoch) : Prop := {
  wf_id : ep_ID e = id;
  wf_total : 0 < ep_TotalChunks e < 2 ^ 63;
  wf_nodup : NoDup (ep_Uncovered e);
  wf_range : Forall (λ c, 0 <= c < ep_TotalChunks e) (ep_Uncovered e);
  wf_counter : ep_ChallengeCounter e + zlen (ep_Uncovered e) = ep_TotalChunks e;
  wf_counter_nonneg : 0 <= ep_ChallengeCounter e;
}.

Record store_wf (st : EpochStore) : Prop := {
  wf_epochs : map_Forall epoch_wf (epochs st);
  (** the latest epoch of a provider/file pair exists *)
  wf_latest : ∀ k id, latest st !! k = Some id → is_Some (epochs st !! id);
  (** an active epoch is the latest one of its provider/file pair *)
  wf_active : ∀ id e, epochs st !! id = Some e → ep_Status e = EpochActive →
      latest st !! epoch_key (ep_ProviderID e) (ep_FileID e) = Some id;
}.

Lemma empty_epochs_wf : store_wf empty_epochs.
Proof. split; [apply map_Forall_empty|done|done]. Qed.

Lemma set_ep_Status_wf id e s : epoch_wf id e → epoch_wf id (set_ep_Status s e).
Proof. intros []; split; done. Qed.

Lemma fresh_epoch_wf id p f n r now :
  0 < n < 2 ^ 63 →
  epoch_wf id {| ep_ID := id; ep_ProviderID := p; ep_FileID := f; ep_TotalChunks := n;
                 ep_ChallengeCounter := 0; ep_Uncovered := seqZ 0 n; ep_Status := EpochActive;
                 ep_RoundNumber := r; ep_CreatedAt := now |}.
Proof.
  intros Hn. split; simpl; try done; try lia.
  - apply NoDup_seqZ.
  - apply Forall_forall. intros x ?%elem_of_seqZ. lia.
  - unfold zlen. rewrite length_seqZ. lia.
Qed.

Abbreviation key_of e := (epoch_key (ep_ProviderID e) (ep_FileID e)).

(** Inserting an epoch as the latest of its pair, once no other epoch of that
    pair is active. *)
Lemma insert_epoch_wf eps lat id e :
  epoch_wf id e → map_Forall epoch_wf eps →
  (∀ k j, lat !! k = Some j → is_Some (eps !! j)) →
  (∀ j x, eps !! j = Some x → ep_Status x = EpochActive →
          lat !! key_of x = Some j ∧ key_of x ≠ key_of e) →
  store_wf {| epochs := <[id := e]> eps; latest := <[key_of e := id]> lat |}.
Proof.
  intros He Heps Hl Ha. split; simpl.
  - by apply map_Forall_insert_2.
  - intros k j [[_ <-]|[_ Hj]]%lookup_insert_Some; apply lookup_insert_is_Some; [by left|].
    destruct (decide (id = j)); [by left|]. right. eauto.
  - intros j x [[<- <-]|[_ Hj]]%lookup_insert_Some Hs; [apply lookup_insert_eq|].
    destruct (Ha _ _ Hj Hs) as [Hx Hne]. by rewrite lookup_insert_ne.
Qed.

Lemma CreateEpoch_wf p f n rnd now st :
  is_i64 n → store_wf st → store_wf (CreateEpoch p f n rnd now st).1.
Proof.
  intros Hn [He Hl Ha]. unfold CreateEpoch.
  case_decide; [done|]. case_decide; [done|]. destruct rnd as [rid|]; [|done].
  assert (Hfresh : ∀ id r, epoch_wf id {| ep_ID := id; ep_ProviderID := p; ep_FileID := f;
     ep_TotalChunks := n; ep_ChallengeCounter := 0; ep_Uncovered := seqZ 0 n;
     ep_Status := EpochActive; ep_RoundNumber := r; ep_CreatedAt := now |}).
  { intros id r. apply fresh_epoch_wf. unfold is_i64 in Hn. lia. }
  destruct (latest st !! epoch_key p f) as [pid|] eqn:Hk;
    [destruct (Hl _ _ Hk) as [pe Hpe]; rewrite Hpe|]; apply insert_epoch_wf; auto.
  - apply map_Forall_insert_2; [|done]. by apply set_ep_Status_wf, He.
  - intros k' j Hj. apply lookup_insert_is_Some. destruct (decide (pid = j)); [by left|eauto].
  - intros j x [[<- <-]|[Hne Hj]]%lookup_insert_Some Hs; [done|].
    pose proof (Ha _ _ Hj Hs) as Hx. split; [done|]. simpl. intros Heq. congruence.
  - intros j x Hj Hs. pose proof (Ha _ _ Hj Hs) as Hx. split; [done|].
    simpl. intros Heq. congruence.
Qed.

(** Everything a successful selection does. *)
Lemma SelectUncoveredChunk_Ok id h st st' c :
  SelectUncoveredChunk id h st = (st', Ok c) →
  ∃ e i, epochs st !! id = Some e ∧ ep_Status e = EpochActive ∧ h ≠ [] ∧
    i = Z.to_nat (be_val h mod zlen (ep_Uncovered e)) ∧
    ep_Uncovered e !! i = Some c ∧
    st' = {| epochs := <[id := set_ep_Uncovered (remove_at i (ep_Uncovered e))
                               (u64 (ep_ChallengeCounter e + 1)) e]> (epochs st);
             latest := latest st |}.
Proof.
  unfold SelectUncoveredChunk. case_decide as Hargs; [done|].
  destruct (epochs st !! id) as [e|]; [|done].
  case_decide as Hact; [done|]. case_decide as Hlen; [done|].
  intros [= <- <-]. eexists e, _. split_and!; try done.
  - intros ->. by apply Hargs; right.
  - pose proof (Z.mod_pos_bound (be_val h) (zlen (ep_Uncovered e))).
    destruct (lookup_lt_is_Some_2 (ep_Uncovered e)
      (Z.to_nat (be_val h mod zlen (ep_Uncovered e)))) as [x Hx]; [unfold zlen in *; lia|].
    by rewrite nth_lookup, Hx.
Qed.

(** Selection never fails on an active epoch with chunks left. *)
Lemma SelectUncoveredChunk_succeeds id h st e :
  id ≠ ""%string → h ≠ [] → epochs st !! id = Some e → ep_Status e = EpochActive →
  ep_Uncovered e ≠ [] → ∃ st' c, SelectUncoveredChunk id h st = (st', Ok c).
Proof.
  intros Hid Hh He Ha Hu. unfold SelectUncoveredChunk.
  rewrite decide_False by (intros [?|?]; [done|]; destruct h; unfold zlen in *; simpl in *; [done|lia]).
  rewrite He, decide_False by tauto.
  rewrite decide_False by (destruct (ep_Uncovered e); unfold zlen in *; simpl in *; [done|lia]). eauto.
Qed.

Lemma select_epoch_wf id e i c :
  epoch_wf id e → ep_Uncovered e !! i = Some c →
  epoch_wf id (set_ep_Uncovered (remove_at i (ep_Uncovered e))
                 (u64 (ep_ChallengeCounter e + 1)) e).
Proof.
  intros [] Hi. pose proof (remove_at_perm _ _ _ Hi) as Hp.
  pose proof (length_remove_at _ _ _ Hi) as Hlen. unfold zlen in *.
  assert (Hu : u64 (ep_ChallengeCounter e + 1) = ep_ChallengeCounter e + 1)
    by (apply u64_id; unfold is_u64; lia).
  split; simpl; try done; rewrite ?Hu; unfold zlen; try lia.
  - rewrite Hp in wf_nodup0. by apply NoDup_cons in wf_nodup0 as [_ ?].
  - rewrite Hp in wf_range0. by apply Forall_cons in wf_range0 as [_ ?].
Qed.

Lemma SelectUncoveredChunk_wf id h st :
  store_wf st → store_wf (SelectUncoveredChunk id h st).1.
Proof.
  intros Hst. destruct (SelectUncoveredChunk id h st) as [st' [c|er]] eqn:E; simpl.
  - apply SelectUncoveredChunk_Ok in E as (e & i & He & Ha & _ & _ & Hi & ->).
    destruct Hst as [Hwf Hl Hac]. split; simpl.
    + apply map_Forall_insert_2; [|done]. eapply select_epoch_wf; eauto.
    + intros k j Hj. apply lookup_insert_is_Some. destruct (decide (id = j)); [by left|eauto].
    + intros j x [[<- <-]|[_ Hj]]%lookup_insert_Some Hs; [|by apply Hac]. by apply (Hac id e).
  - unfold SelectUncoveredChunk in E. go_cases; done.
Qed.

Lemma GenerateNextChallenge_wf c p f id k r rnd now st :
  store_wf st → store_wf (GenerateNextChallenge c p f id k r rnd now st).1.
Proof.
  intros Hst. unfold GenerateNextChallenge. repeat (case_match; try done); simpl;
    match goal with H : SelectUncoveredChunk ?i ?h _ = _ |- _ =>
      apply (f_equal fst) in H; simpl in H; subst; by apply SelectUncoveredChunk_wf end.
Qed.

Lemma CreateChallenge_wf c p f n r rnd rnd' now st :
  is_i64 n → store_wf st → store_wf (CreateChallenge c p f n r rnd rnd' now st).1.
Proof.
  intros Hn Hst. unfold CreateChallenge. case_decide; [done|].
  pose proof (CreateEpoch_wf p f n rnd now st Hn Hst) as Hce.
  destruct (CreateEpoch _ _ _ _ _ _) as [st' [id|e]]; simpl in *; [|done].
  by apply GenerateNextChallenge_wf.
Qed.

Lemma StartNextEpoch_wf p f rnd now st :
  store_wf st → store_wf (StartNextEpoch p f rnd now st).1.
Proof.
  intros Hst. unfold StartNextEpoch. repeat (case_match; try done); simpl.
  apply CreateEpoch_wf; [|done].
  match goal with H : epochs st !! _ = Some _ |- _ => apply (wf_epochs _ Hst) in H as [_ [? ?] _ _ _ _] end.
  unfold is_i64. lia.
Qed.

(** ** Reachable stores *)

Inductive epoch_step : EpochStore → EpochStore → Prop :=
| step_create p f n rnd now st :
    is_i64 n → epoch_step st (CreateEpoch p f n rnd now st).1
| step_select id h st : epoch_step st (SelectUncoveredChunk id h st).1
| step_start_next p f rnd now st : epoch_step st (StartNextEpoch p f rnd now st).1
| step_next_challenge c p f id k r rnd now st :
    epoch_step st (GenerateNextChallenge c p f id k r rnd now st).1
| step_create_challenge c p f n r rnd rnd' now st :
    is_i64 n → epoch_step st (CreateChallenge c p f n r rnd rnd' now st).1.

Lemma epoch_step_wf st st' : epoch_step st st' → store_wf st → store_wf st'.
Proof.
  destruct 1; auto using CreateEpoch_wf, SelectUncoveredChunk_wf, StartNextEpoch_wf,
    GenerateNextChallenge_wf, CreateChallenge_wf.
Qed.

Lemma epoch_reachable_wf st : rtc epoch_step empty_epochs st → store_wf st.
Proof.
  apply rtc_invariant; [apply epoch_step_wf|apply empty_epochs_wf].
Qed.

(** In every epoch store the package can reach, an epoch's challenge counter
    plus its uncovered chunks equals its chunk total, the uncovered chunks are
    distinct indices below that total, and a provider/file pair has at most
    one active epoch. *)
Theorem epoch_store_invariant st :
  rtc epoch_step empty_epochs st →
  (∀ id e, epochs st !! id = Some e →
     ep_ChallengeCounter e + zlen (ep_Uncovered e) = ep_TotalChunks e ∧
     NoDup (ep_Uncovered e) ∧ ∀ c, c ∈ ep_Uncovered e → 0 <= c < ep_TotalChunks e) ∧
  (∀ i j e x, epochs st !! i = Some e → epochs st !! j = Some x →
     ep_Status e = EpochActive → ep_Status x = EpochActive →
     ep_ProviderID e = ep_ProviderID x → ep_FileID e = ep_FileID x → i = j).
Proof.
  intros Hst%epoch_reachable_wf. split.
  - intros id e He. destruct (wf_epochs _ Hst _ _ He) as [_ _ Hnd Hr Hc _].
    split_and!; [done..|]. by apply Forall_forall.
  - intros i j e x Hi Hj Ha Hb Hp Hf.
    pose proof (wf_active _ Hst _ _ Hi Ha) as H1.
    pose proof (wf_active _ Hst _ _ Hj Hb) as H2. rewrite Hp, Hf in H1. congruence.
Qed.

Definition wit_rnd (b : Z) : result (list byte) := Ok (replicate 16 (byte_of_Z b)).
Definition wit_epochs : EpochStore :=
  (CreateChallenge "c1" "p1" "f1" 3 0 (wit_rnd 7) (wit_rnd 9) 0 empty_epochs).1.

Lemma wit_epochs_reachable : rtc epoch_step empty_epochs wit_epochs.
Proof. eapply rtc_once, step_create_challenge. unfold is_i64; lia. Qed.

Lemma epoch_store_invariant_witness :
  ∃ id e, epochs wit_epochs !! id = Some e ∧ ep_ChallengeCounter e = 1 ∧
    ep_ChallengeCounter e + zlen (ep_Uncovered e) = 3.
Proof.
  destruct (epoch_store_invariant wit_epochs wit_epochs_reachable) as [H _].
  set (id := "epoch-" +:+ EncodeToString (replicate 16 (byte_of_Z 7))).
  assert (Hv : (λ e, (ep_ChallengeCounter e, ep_TotalChunks e)) <$> epochs wit_epochs !! id
               = Some (1, 3)) by (vm_compute; reflexivity).
  destruct (epochs wit_epochs !! id) as [e|] eqn:E; [|discriminate Hv].
  exists id, e. split; [exact E|]. destruct (H _ _ E) as [Hc _].
  injection Hv as Hk Ht. rewrite Ht in Hc. split; [exact Hk|exact Hc].
Defined.

(** ** Coverage *)

(** Select once per hash, collecting the outcomes. *)
Fixpoint select_run (id : string) (hs : list (list byte)) (st : EpochStore)
    : EpochStore * list (result Z) :=
  match hs with
  | [] => (st, [])
  | h :: hs' =>
      let '(st1, r) := SelectUncoveredChunk id h st in
      let '(st2, rs) := select_run id hs' st1 in (st2, r :: rs)
  end.

Lemma select_run_covers id hs st e :
  id ≠ ""%string → Forall (λ h, h ≠ []) hs → epochs st !! id = Some e →
  ep_Status e = EpochActive → length hs = length (ep_Uncovered e) →
  ∃ st' cs e', select_run id hs st = (st', Ok <$> cs) ∧ cs ≡ₚ ep_Uncovered e ∧
    epochs st' !! id = Some e' ∧ ep_Uncovered e' = [].
Proof.
  intros Hid Hhs. revert st e. induction Hhs as [|h hs Hh _ IH]; intros st e He Ha Hlen.
  - exists st, [], e. by destruct (ep_Uncovered e) eqn:Hu.
  - destruct (SelectUncoveredChunk_succeeds id h st e) as (st1 & c & Hsel);
      [done..|by intros Hu; rewrite Hu in Hlen|].
    simpl. rewrite Hsel.
    apply SelectUncoveredChunk_Ok in Hsel as (e0 & i & He0 & _ & _ & _ & Hi & ->).
    assert (e0 = e) as -> by congruence.
    pose proof (remove_at_perm _ _ _ Hi) as Hp. pose proof (length_remove_at _ _ _ Hi) as Hl.
    match goal with |- context [select_run id hs ?s] =>
      edestruct (IH s) as (st' & cs & e' & Hrun & Hcs & He' & Hu') end;
      [apply lookup_insert_eq|done|simpl in *; lia|].
    rewrite Hrun. exists st', (c :: cs), e'. split_and!; [done| |done..].
    simpl in Hcs. by rewrite Hcs, <- Hp.
Qed.

Lemma CreateEpoch_Ok p f n rnd now st st' id :
  CreateEpoch p f n rnd now st = (st', Ok id) →
  id ≠ ""%string ∧ 0 < n ∧ ∃ e, epochs st' !! id = Some e ∧ ep_Status e = EpochActive ∧
    ep_Uncovered e = seqZ 0 n ∧ ep_TotalChunks e = n ∧ ep_ChallengeCounter e = 0 ∧
    ep_ProviderID e = p ∧ ep_FileID e = f ∧ latest st' !! epoch_key p f = Some id.
Proof.
  unfold CreateEpoch. case_decide; [done|]. case_decide; [done|]. destruct rnd as [rid|]; [|done].
  intros H1. repeat case_match; simplify_eq/=; split_and!; try done; try lia;
    (eexists; split; [apply lookup_insert_eq|]); simpl; rewrite lookup_insert_eq; split_and!; done.
Qed.

(** C13: A fresh epoch of [n] chunks challenges every chunk exactly once: any [n]
    selections succeed whatever their hashes, the chunks they return are a
    permutation of [0..n-1], and every further selection is refused. *)
Theorem epoch_covers_every_chunk p f n rnd now st st1 id hs :
  CreateEpoch p f n rnd now st = (st1, Ok id) →
  Forall (λ h, h ≠ []) hs → zlen hs = n →
  ∃ st2 cs, select_run id hs st1 = (st2, Ok <$> cs) ∧ cs ≡ₚ seqZ 0 n ∧
    ∀ h, is_ok (SelectUncoveredChunk id h st2).2 = false.
Proof.
  intros (Hid & Hn & e & He & Ha & Hu & _)%CreateEpoch_Ok Hhs Hlen.
  destruct (select_run_covers id hs st1 e) as (st2 & cs & e' & Hrun & Hcs & He' & Hu'); try done.
  { rewrite Hu, length_seqZ. unfold zlen in Hlen. lia. }
  exists st2, cs. rewrite Hu in Hcs. split_and!; [done..|].
  intros h. unfold SelectUncoveredChunk. case_decide; [done|]. rewrite He'.
  case_decide; [done|]. by rewrite Hu', decide_True.
Qed.

Lemma epoch_covers_every_chunk_witness :
  ∃ st1 id st2 cs, CreateEpoch "p" "f" 3 (wit_rnd 1) 0 empty_epochs = (st1, Ok id) ∧
    select_run id [bytes_of "a"; bytes_of "b"; bytes_of "c"] st1 = (st2, Ok <$> cs) ∧
    cs ≡ₚ [0; 1; 2].
Proof.
  destruct (CreateEpoch "p" "f" 3 (wit_rnd 1) 0 empty_epochs) as [st1 [id|e]] eqn:E;
    [|refute_err E].
  destruct (epoch_covers_every_chunk "p" "f" 3 (wit_rnd 1) 0 empty_epochs st1 id
    [bytes_of "a"; bytes_of "b"; bytes_of "c"] E) as (st2 & cs & Hr & Hc & _);
    [repeat constructor; discriminate|reflexivity|].
  exists st1, id, st2, cs. auto.
Defined.

(** ** One challenge per counter *)

Lemma GenerateNextChallenge_Ok c p f id k r rnd now st st' ch :
  GenerateNextChallenge c p f id k r rnd now st = (st', Ok ch) →
  ∃ e nonce, epochs st !! id = Some e ∧ ep_ChallengeCounter e = k ∧ rnd = Ok nonce ∧
    c ≠ ""%string ∧ id ≠ ""%string ∧
    SelectUncoveredChunk id (GenerateChunkHash p f id k nonce) st = (st', Ok (ch_ChunkID ch)) ∧
    ch_Nonce ch = nonce ∧ ch_ContractID ch = c ∧ ch_ProviderID ch = p ∧ ch_FileID ch = f ∧
    ch_EpochID ch = id ∧ ch_ChallengeID ch = challengeID c id k nonce ∧
    ch_ChallengeCounter ch = k ∧ ch_RoundNumber ch = r ∧
    ch_TriggerStatus ch = CheckRoundTrigger (GenerateRoundHash p f id k nonce r) ∧
    ch_CreatedAt ch = now.
Proof.
  unfold GenerateNextChallenge, GetEpochState, GenerateNonce.
  case_decide as Hargs; [done|]. apply Decidable.not_or in Hargs as [Hc Hargs].
  apply Decidable.not_or in Hargs as [Hp Hargs]. apply Decidable.not_or in Hargs as [Hf Hid].
  rewrite !decide_False by done. destruct (epochs st !! id) as [e|]; [|done]. simpl.
  case_decide as Hk; [done|]. destruct rnd as [nonce|]; [|done]. simpl.
  destruct (SelectUncoveredChunk _ _ _) as [st1 [cid|er]] eqn:Hs; [|done].
  intros [= <- <-]. exists e, nonce. split_and!; done.
Qed.

(** A generated challenge targets an index below the file's chunk total that
    was still uncovered, removes it from the epoch, and consumes its counter:
    repeating the call with the same counter is refused. *)
Theorem challenge_counter_single_use c p f id k r rnd now st st' ch :
  store_wf st →
  GenerateNextChallenge c p f id k r rnd now st = (st', Ok ch) →
  (∃ e e', epochs st !! id = Some e ∧ epochs st' !! id = Some e' ∧
     0 <= ch_ChunkID ch < ep_TotalChunks e ∧
     ch_ChunkID ch ∈ ep_Uncovered e ∧ ch_ChunkID ch ∉ ep_Uncovered e' ∧
     ep_ChallengeCounter e' = k + 1) ∧
  ∀ c' r' rnd' now', is_ok (GenerateNextChallenge c' p f id k r' rnd' now' st').2 = false.
Proof.
  intros Hst (e & nonce & He & Hk & -> & Hc & Hid & Hsel & _)%GenerateNextChallenge_Ok.
  pose proof Hsel as (e0 & i & He0 & Ha & _ & _ & Hi & Hst')%SelectUncoveredChunk_Ok.
  assert (e0 = e) as -> by congruence. clear He0.
  pose proof (wf_epochs _ Hst _ _ He) as Hwf.
  pose proof (select_epoch_wf _ _ _ _ Hwf Hi) as Hwf'.
  assert (He' : epochs st' !! id = Some (set_ep_Uncovered (remove_at i (ep_Uncovered e))
      (u64 (ep_ChallengeCounter e + 1)) e)) by (subst st'; apply lookup_insert_eq).
  assert (Hk' : u64 (ep_ChallengeCounter e + 1) = k + 1).
  { destruct Hwf, Hwf'. subst k. apply u64_id. unfold is_u64, zlen in *.
    pose proof (length_remove_at _ _ _ Hi). lia. }
  split.
  - eexists e, _. split_and!; [done|exact He'|..].
    + apply (Forall_lookup_1 _ _ _ _ (wf_range _ _ Hwf)) in Hi. lia.
    + apply (Forall_lookup_1 _ _ _ _ (wf_range _ _ Hwf)) in Hi. lia.
    + by eapply list_elem_of_lookup_2.
    + pose proof (wf_nodup _ _ Hwf) as Hnd. rewrite (remove_at_perm _ _ _ Hi) in Hnd.
      by apply NoDup_cons in Hnd as [? _].
    + done.
  - intros c' r' rnd' now'. unfold GenerateNextChallenge, GetEpochState.
    case_decide; [done|]. rewrite decide_False by done. rewrite He'. simpl.
    rewrite decide_True; [done|]. rewrite Hk'. lia.
Qed.

Lemma challenge_counter_single_use_witness :
  ∃ st' ch, GenerateNextChallenge "c1" "p1" "f1"
      ("epoch-" +:+ EncodeToString (replicate 16 (byte_of_Z 7))) 1 0 (wit_rnd 3) 0 wit_epochs
      = (st', Ok ch) ∧
    is_ok (GenerateNextChallenge "c1" "p1" "f1"
      ("epoch-" +:+ EncodeToString (replicate 16 (byte_of_Z 7))) 1 0 (wit_rnd 4) 0 st').2 = false.
Proof.
  destruct (GenerateNextChallenge "c1" "p1" "f1"
      ("epoch-" +:+ EncodeToString (replicate 16 (byte_of_Z 7))) 1 0 (wit_rnd 3) 0 wit_epochs)
    as [st' [ch|e]] eqn:E; [|refute_err E].
  exists st', ch. split; [reflexivity|].
  apply (challenge_counter_single_use _ _ _ _ _ _ _ _ _ _ _
    (epoch_reachable_wf _ wit_epochs_reachable) E).
Defined.
