(* ===== verification/Settlement.v ===== *)
(** * Settlement arithmetic

    availability-contracts/settlement/settlement.go: the proportional payment
    outcome of a contract's recorded results, in [int64] arithmetic. *)

From S2P Require Import Prelude AvailTypes.

(** The loop over [results], updating the two proof counters of [state]. *)
Definition count_result (state : SettlementState) (r : ChallengeResult) : SettlementState :=
  if cr_Succeeded r then
    {| ss_Status := ss_Status state; ss_ReleasedAmount := ss_ReleasedAmount state;
       ss_WithheldAmount := ss_WithheldAmount state;
       ss_SuccessfulProofs := ss_SuccessfulProofs state + 1;
       ss_FailedProofs := ss_FailedProofs state; ss_FinalizedAt := ss_FinalizedAt state |}
  else
    {| ss_Status := ss_Status state; ss_ReleasedAmount := ss_ReleasedAmount state;
       ss_WithheldAmount := ss_WithheldAmount state;
       ss_SuccessfulProofs := ss_SuccessfulProofs state;
       ss_FailedProofs := ss_FailedProofs state + 1; ss_FinalizedAt := ss_FinalizedAt state |}.

Definition CalculateSettlement (fundedAmount : Z) (results : list ChallengeResult)
    : result SettlementState :=
  if decide (fundedAmount <= 0) then Err (New "funded amount must be positive")
  else if decide (zlen results = 0) then Err (New "recorded challenge results are required")
  else
    let state := foldl count_result zero_settlement results in
    let released := Z.quot (i64 (fundedAmount * ss_SuccessfulProofs state)) (zlen results) in
    let withheld := i64 (fundedAmount - released) in
    Ok {| ss_Status := if decide (withheld = 0) then SettlementCompleted else SettlementWithheld;
          ss_ReleasedAmount := released; ss_WithheldAmount := withheld;
          ss_SuccessfulProofs := ss_SuccessfulProofs state;
          ss_FailedProofs := ss_FailedProofs state;
          ss_FinalizedAt := ss_FinalizedAt state |}.

(** ** Specification *)

Definition passes (results : list ChallengeResult) : Z :=
  zlen (filter (λ r, cr_Succeeded r = true) results).

Lemma passes_cons r l : passes (r :: l) = (if cr_Succeeded r then 1 else 0) + passes l.
Proof.
  unfold passes, zlen. rewrite filter_cons. destruct (cr_Succeeded r); simpl; lia.
Qed.

Lemma passes_range l : 0 <= passes l <= zlen l.
Proof. unfold passes, zlen. pose proof (length_filter (λ r, cr_Succeeded r = true) l). lia. Qed.

Lemma passes_all l : passes l = zlen l ↔ Forall (λ r, cr_Succeeded r = true) l.
Proof.
  induction l as [|r l IH]; [done|]. rewrite passes_cons, Forall_cons, <- IH.
  pose proof (passes_range l). unfold zlen in *. simpl length.
  destruct (cr_Succeeded r); split; intros; destruct_and?; try done; lia.
Qed.

Lemma count_results l s :
  ss_SuccessfulProofs (foldl count_result s l) = ss_SuccessfulProofs s + passes l ∧
  ss_FailedProofs (foldl count_result s l) = ss_FailedProofs s + (zlen l - passes l) ∧
  ss_FinalizedAt (foldl count_result s l) = ss_FinalizedAt s.
Proof.
  revert s; induction l as [|r l IH]; intros s; simpl; [unfold passes, zlen; simpl; lia|].
  destruct (IH (count_result s r)) as (-> & -> & ->). rewrite passes_cons.
  unfold zlen, count_result. destruct (cr_Succeeded r); simpl; split_and!; lia.
Qed.

(** The proportional share in unbounded arithmetic. *)
Definition fair_share (funded : Z) (results : list ChallengeResult) : Z :=
  funded * passes results / zlen results.

Lemma fair_share_range funded l : 0 < funded → 0 < zlen l → 0 <= fair_share funded l <= funded.
Proof.
  intros Hf Hl. unfold fair_share. pose proof (passes_range l). split.
  - apply Z.div_pos; nia.
  - apply Z.div_le_upper_bound; nia.
Qed.

Lemma fair_share_full funded l :
  0 < funded → 0 < zlen l → fair_share funded l = funded ↔ passes l = zlen l.
Proof.
  intros Hf Hl. unfold fair_share. pose proof (passes_range l). split.
  - intros H1. pose proof (Z.mul_div_le (funded * passes l) (zlen l) Hl) as H2.
    rewrite H1 in H2. nia.
  - intros ->. apply Z.div_mul. lia.
Qed.

Lemma CalculateSettlement_spec funded results :
  0 < funded → results ≠ [] → funded * zlen results < 2 ^ 63 →
  ∃ s, CalculateSettlement funded results = Ok s ∧
    ss_ReleasedAmount s = fair_share funded results ∧
    0 <= ss_ReleasedAmount s <= funded ∧
    ss_ReleasedAmount s + ss_WithheldAmount s = funded ∧
    ss_SuccessfulProofs s + ss_FailedProofs s = zlen results ∧
    (ss_Status s = SettlementCompleted ↔ Forall (λ r, cr_Succeeded r = true) results).
Proof.
  intros Hf Hne Hov.
  assert (Hl : 0 < zlen results) by (destruct results; unfold zlen; simpl; [done|lia]).
  pose proof (passes_range results) as Hp.
  pose proof (fair_share_range funded results Hf Hl) as Hs.
  unfold CalculateSettlement. rewrite !decide_False by lia.
  destruct (count_results results zero_settlement) as (-> & -> & _).
  change (ss_SuccessfulProofs zero_settlement) with 0.
  change (ss_FailedProofs zero_settlement) with 0. rewrite !Z.add_0_l.
  assert (Hq : Z.quot (i64 (funded * passes results)) (zlen results) = fair_share funded results).
  { rewrite i64_id by (unfold is_i64; nia). apply Z.quot_div_nonneg; [nia|lia]. }
  assert (Hb : funded < 2 ^ 63) by nia.
  assert (Hw : i64 (funded - fair_share funded results) = funded - fair_share funded results)
    by (apply i64_id; unfold is_i64; lia).
  rewrite Hq, Hw. eexists; split; [done|]; simpl. split_and!; try lia.
  rewrite <- passes_all, <- (fair_share_full funded) by done.
  case_decide; split; try done; intros; lia.
Qed.

Lemma CalculateSettlement_FinalizedAt funded results s :
  CalculateSettlement funded results = Ok s → ss_FinalizedAt s = zero_time.
Proof.
  unfold CalculateSettlement. do 2 (case_decide; [done|]). intros [= <-].
  apply (count_results results zero_settlement).
Qed.

(** C34: While the product of the funded amount and the number of results fits in
    an [int64], settlement is exact: it succeeds, releases the floor of the
    passed share, never more than the funds, splits the funds without loss,
    and is [Completed] exactly when every challenge passed. *)
Theorem CalculateSettlement_exact funded results :
  0 < funded → results ≠ [] → funded * zlen results < 2 ^ 63 →
  ∃ s, CalculateSettlement funded results = Ok s ∧
    ss_ReleasedAmount s = fair_share funded results ∧
    0 <= ss_ReleasedAmount s <= funded ∧
    ss_ReleasedAmount s + ss_WithheldAmount s = funded ∧
    ss_SuccessfulProofs s + ss_FailedProofs s = zlen results ∧
    (ss_Status s = SettlementCompleted ↔ Forall (λ r, cr_Succeeded r = true) results).
Proof. apply CalculateSettlement_spec. Qed.

Definition wit_result (b : bool) : ChallengeResult :=
  {| cr_ChallengeID := "c"; cr_Succeeded := b; cr_RecordedAt := 0 |}.

Lemma CalculateSettlement_exact_witness :
  ∃ s, CalculateSettlement 100 [wit_result true; wit_result false; wit_result true] = Ok s ∧
    ss_ReleasedAmount s = 66 ∧ ss_ReleasedAmount s + ss_WithheldAmount s = 100.
Proof.
  destruct (CalculateSettlement_exact 100 [wit_result true; wit_result false; wit_result true])
    as (s & H1 & H2 & _ & H3 & _); [lia|discriminate|reflexivity|].
  exists s. split_and!; [exact H1|rewrite H2; reflexivity|exact H3].
Defined.

(** Without that bound the [int64] product wraps: five ether in wei with two
    passed challenges out of two, a provider that earned everything, settles
    as [Withheld] with a negative released amount. *)
Theorem CalculateSettlement_overflow :
  ∃ s, CalculateSettlement (5 * 10 ^ 18) [wit_result true; wit_result true] = Ok s ∧
    fair_share (5 * 10 ^ 18) [wit_result true; wit_result true] = 5 * 10 ^ 18 ∧
    ss_Status s = SettlementWithheld ∧ ss_ReleasedAmount s = - 4223372036854775808 ∧
    ss_WithheldAmount s = - 2 ^ 63.
Proof. eexists. vm_compute. split_and!; reflexivity. Qed.
