(* ===== verification/Verification.v ===== *)
(** * Challenge-response verification

    availability-contracts/verification/verifier.go: Merkle audit paths, the
    proof-of-possession digest and the verdict on a provider's response. *)

From S2P Require Import Prelude Sha256 Crypto AvailTypes.

Record ChallengeResponse := {
  rs_ChallengeID : string;
  rs_ContractID : string;
  rs_ProviderID : string;
  rs_FileID : string;
  rs_ChunkID : Z;
  rs_ChunkHash : list byte;
  rs_MerkleProof : list (list byte);
  rs_Signature : list byte;
  rs_RespondedAt : Z;
}.

Definition ComputeProofDigest (chunkHash nonce : list byte) (challengeID : string) : list byte :=
  sha256 (chunkHash ++ nonce ++ bytes_of challengeID).

(** The loop of [VerifyMerkleProof]: [None] is the early [return false] on a
    sibling of the wrong size. *)
Fixpoint merkle_climb (current : list byte) (idx : Z) (proof : list (list byte))
    : option (list byte) :=
  match proof with
  | [] => Some current
  | sibling :: proof' =>
      if decide (zlen sibling ≠ 32) then None
      else
        let parent :=
          if decide (Z.rem idx 2 = 0) then sha256 (current ++ sibling)
          else sha256 (sibling ++ current) in
        merkle_climb parent (Z.quot idx 2) proof'
  end.

Definition VerifyMerkleProof (leafHash : list byte) (leafIndex : Z) (proof : list (list byte))
    (expectedRoot : list byte) : bool :=
  if decide (zlen leafHash ≠ 32 ∨ zlen expectedRoot ≠ 32 ∨ leafIndex < 0) then false
  else bool_decide (merkle_climb leafHash leafIndex proof = Some expectedRoot).

Section verifier.
Context {ED : Ed25519}.

(** [(true, nil)] is [Ok tt]; every [(false, err)] is [Err err]. *)
Definition VerifyChallengeResponse (challenge : Challenge) (response : ChallengeResponse)
    (expectedMerkleRoot providerPubKey : list byte) (maxTimeout : Z) : result () :=
  if decide (ch_ChallengeID challenge = ""%string) then
    Err (New "challenge ID cannot be empty")
  else if decide (rs_ChallengeID response ≠ ch_ChallengeID challenge) then
    Err (New "response challenge ID does not match expected")
  else if decide (rs_ContractID response ≠ ch_ContractID challenge) then
    Err (New "response contract ID does not match expected")
  else if decide (rs_ProviderID response ≠ ch_ProviderID challenge) then
    Err (New "response provider ID does not match expected")
  else if decide (rs_FileID response ≠ ch_FileID challenge) then
    Err (New "response file ID does not match expected")
  else if decide (rs_ChunkID response ≠ ch_ChunkID challenge) then
    Err (New "response chunk ID does not match expected")
  else if decide (maxTimeout > 0 ∧ rs_RespondedAt response > ch_CreatedAt challenge + maxTimeout) then
    Err (New "response received after deadline")
  else if decide (zlen expectedMerkleRoot ≠ 32) then
    Err (New "expected Merkle root must be a 32-byte SHA-256 hash")
  else if negb (VerifyMerkleProof (rs_ChunkHash response) (rs_ChunkID response)
                  (rs_MerkleProof response) expectedMerkleRoot) then
    Err (New "Merkle proof verification failed: chunk hash does not belong to file Merkle root")
  else if decide (zlen providerPubKey > 0) then
    if decide (zlen providerPubKey ≠ PublicKeySize) then
      Err (New "invalid provider Ed25519 public key size")
    else if decide (zlen (rs_Signature response) ≠ SignatureSize) then
      Err (New "invalid provider signature size")
    else
      let digest :=
        ComputeProofDigest (rs_ChunkHash response) (ch_Nonce challenge) (ch_ChallengeID challenge) in
      if negb (ed_verify providerPubKey digest (rs_Signature response)) then
        Err (New "provider signature verification failed: signature does not match proof digest")
      else Ok tt
  else Ok tt.

Definition BuildChallengeResult (challenge : Challenge) (response : ChallengeResponse)
    (expectedMerkleRoot providerPubKey : list byte) (maxTimeout now : Z) : ChallengeResult :=
  {| cr_ChallengeID := ch_ChallengeID challenge;
     cr_Succeeded := is_ok (VerifyChallengeResponse challenge response expectedMerkleRoot
                              providerPubKey maxTimeout);
     cr_RecordedAt := now |}.

(** ** Specification *)

(** What a response must satisfy to be accepted. *)
Record response_valid (c : Challenge) (r : ChallengeResponse) (root pk : list byte) (timeout : Z)
    : Prop := {
  rv_nonempty : ch_ChallengeID c ≠ ""%string;
  rv_challenge : rs_ChallengeID r = ch_ChallengeID c;
  rv_contract : rs_ContractID r = ch_ContractID c;
  rv_provider : rs_ProviderID r = ch_ProviderID c;
  rv_file : rs_FileID r = ch_FileID c;
  rv_chunk : rs_ChunkID r = ch_ChunkID c;
  rv_deadline : 0 < timeout → rs_RespondedAt r <= ch_CreatedAt c + timeout;
  rv_root : length root = 32%nat;
  rv_merkle : VerifyMerkleProof (rs_ChunkHash r) (ch_ChunkID c) (rs_MerkleProof r) root = true;
  rv_signature : pk ≠ [] →
    length pk = 32%nat ∧ length (rs_Signature r) = 64%nat ∧
    ed_verify pk (ComputeProofDigest (rs_ChunkHash r) (ch_Nonce c) (ch_ChallengeID c))
      (rs_Signature r) = true;
}.

Lemma VerifyChallengeResponse_spec c r root pk timeout :
  VerifyChallengeResponse c r root pk timeout = Ok tt ↔ response_valid c r root pk timeout.
Proof.
  unfold VerifyChallengeResponse, PublicKeySize, SignatureSize. split.
  - repeat (case_decide; [discriminate|]).
    destruct (VerifyMerkleProof _ _ _ _) eqn:Hm; [|done]; simpl. intros Hsig.
    split; try done; try (unfold zlen in *; lia); [congruence|].
    intros Hpk. rewrite decide_True in Hsig by (destruct pk; unfold zlen in *; simpl in *; [done|lia]).
    repeat (case_decide; [discriminate|]). unfold zlen in *.
    destruct (ed_verify _ _ _) eqn:Hv; [|done]. split_and!; [lia..|done].
  - intros []. rewrite !decide_False by (unfold zlen; first [tauto | lia]).
    rewrite rv_chunk0, rv_merkle0; simpl. destruct pk as [|b pk]; [done|].
    destruct (rv_signature0 ltac:(done)) as (H1 & H2 & H3). unfold zlen.
    rewrite decide_True, !decide_False by (simpl in *; lia). by rewrite H3.
Qed.

Lemma BuildChallengeResult_succeeded c r root pk timeout now :
  cr_Succeeded (BuildChallengeResult c r root pk timeout now) = true ↔
  response_valid c r root pk timeout.
Proof.
  rewrite <- VerifyChallengeResponse_spec. unfold BuildChallengeResult; simpl.
  destruct (VerifyChallengeResponse _ _ _ _ _) as [[]|]; done.
Qed.

(** A response is accepted exactly when its identifiers match the challenge,
    it met the deadline (if one is set), its Merkle path leads to the 32-byte
    root, and, if a provider key is given, its signature over the
    nonce-binding digest verifies; the recorded result is that verdict. *)
Theorem VerifyChallengeResponse_iff c r root pk timeout now :
  (VerifyChallengeResponse c r root pk timeout = Ok tt ↔ response_valid c r root pk timeout) ∧
  (cr_Succeeded (BuildChallengeResult c r root pk timeout now) = true ↔
   response_valid c r root pk timeout).
Proof. split; [apply VerifyChallengeResponse_spec|apply BuildChallengeResult_succeeded]. Qed.

End verifier.
