(* ===== verification/Merkle.v ===== *)
(** * Merkle trees

    integration/availability/merkle.go: the tree a provider builds over its
    chunk hashes, and the audit paths it sends.  The theorems connect the
    generator with [VerifyMerkleProof] of verifier.go: every generated path
    verifies, and a path of the tree's depth that verifies for another leaf
    yields an explicit SHA-256 collision. *)

From S2P Require Import Prelude Sha256 Crypto AvailTypes Verification.

Record MerkleTree := {
  mt_leaves : list (list byte);
  mt_levels : list (list (list byte));
  mt_root : list byte;
}.

Definition HashPair (left right : list byte) : list byte := sha256 (left ++ right).

(** [b := make([]byte, 32); copy(b, src)]. *)
Definition copy32 (src : list byte) : list byte := take 32 (src ++ replicate 32 x00).

(** An odd level gets its last node appended. *)
Definition pad (l : list (list byte)) : list (list byte) :=
  if decide (Z.rem (zlen l) 2 ≠ 0) then l ++ option_list (last l) else l.

(** [for i := 0; i < len(padded); i += 2]. *)
Fixpoint next_level (padded : list (list byte)) : list (list byte) :=
  match padded with
  | a :: b :: rest => HashPair a b :: next_level rest
  | _ => []
  end.

(** The loop [for len(currentLevel) > 1]; [None] when the fuel is spent.  A
    level is at least halved, so [length leaves] rounds are enough
    ([build_levels_total]). *)
Fixpoint build_levels (fuel : nat) (levels : list (list (list byte)))
    (currentLevel : list (list byte)) : option (list (list (list byte)) * list (list byte)) :=
  if decide (1 < zlen currentLevel) then
    match fuel with
    | O => None
    | S fuel' =>
        let nextLevel := next_level (pad currentLevel) in
        build_levels fuel' (levels ++ [nextLevel]) nextLevel
    end
  else Some (levels, currentLevel).

Definition out_of_range : error := New "index out of range".

Definition NewMerkleTree (leafHashes : list (list byte)) : result MerkleTree :=
  if decide (zlen leafHashes = 0) then Err (New "cannot build Merkle tree with 0 leaves")
  else if decide (Exists (λ h, zlen h ≠ 32) leafHashes) then
    Err (New "leaf hash has invalid length (expected 32)")
  else
    let leaves := map copy32 leafHashes in
    match leaves with
    | [leaf] => Ok {| mt_leaves := leaves; mt_levels := [leaves]; mt_root := leaf |}
    | _ =>
        match build_levels (length leaves) [leaves] leaves with
        | Some (levels, root :: _) =>
            Ok {| mt_leaves := leaves; mt_levels := levels; mt_root := root |}
        | _ => Err out_of_range
        end
    end.

Definition BuildMerkleTreeFromChunks (chunks : list (list byte)) : result MerkleTree :=
  if decide (zlen chunks = 0) then Err (New "no chunks provided")
  else NewMerkleTree (map sha256 chunks).

Definition Root (m : MerkleTree) : list byte := copy32 (mt_root m).

Definition LeafCount (m : MerkleTree) : Z := zlen (mt_leaves m).

(** The loop over all levels but the last. *)
Fixpoint proof_loop (levels : list (list (list byte))) (idx : Z) : result (list (list byte)) :=
  match levels with
  | [] => Ok []
  | nodes :: rest =>
      match rest with
      | [] => Ok []
      | _ =>
          let currentNodes := pad nodes in
          let s := if decide (Z.rem idx 2 = 0) then idx + 1 else idx - 1 in
          match currentNodes !! Z.to_nat s with
          | None => Err out_of_range
          | Some sibling =>
              let! proof := proof_loop rest (Z.quot idx 2) in
              Ok (copy32 sibling :: proof)
          end
      end
  end.

Definition GenerateProof (m : MerkleTree) (leafIndex : Z) : result (list (list byte)) :=
  if decide (leafIndex < 0 ∨ leafIndex >= zlen (mt_leaves m)) then
    Err (New "leafIndex out of bounds")
  else if decide (zlen (mt_leaves m) = 1) then Ok []
  else proof_loop (mt_levels m) leafIndex.

(** ** Shape of a built tree *)

Definition hashes32 (l : list (list byte)) : Prop := Forall (λ h, length h = 32%nat) l.

(** [tree_levels ls r]: every level is [next_level] of the padded level below
    it and the top level is the root [r]. *)
Inductive tree_levels : list (list (list byte)) → list byte → Prop :=
| tl_root r : length r = 32%nat → tree_levels [[r]] r
| tl_level l ls r :
    (1 < length l)%nat → hashes32 l →
    tree_levels (next_level (pad l) :: ls) r →
    tree_levels (l :: next_level (pad l) :: ls) r.

Lemma copy32_id h : length h = 32%nat → copy32 h = h.
Proof. intros H. unfold copy32. rewrite <- H. apply take_app_length. Qed.

Lemma map_copy32_id l : hashes32 l → map copy32 l = l.
Proof. induction 1; simpl; [done|]. f_equal; [by apply copy32_id|done]. Qed.

Lemma rem2_nat n : Z.rem (Z.of_nat n) 2 = Z.of_nat (n mod 2).
Proof. rewrite Z.rem_mod_nonneg by lia. by rewrite Nat2Z.inj_mod. Qed.

Lemma quot2_nat n : Z.quot (Z.of_nat n) 2 = Z.of_nat (n / 2).
Proof. rewrite Z.quot_div_nonneg by lia. by rewrite Nat2Z.inj_div. Qed.

Lemma last_Some_length {A} (l : list A) : (0 < length l)%nat → ∃ x, last l = Some x.
Proof. intros H. destruct (last l) eqn:E; [eauto|]. apply last_None in E; subst; simpl in H; lia. Qed.

Lemma length_pad l : (0 < length l)%nat → length (pad l) = (2 * ((length l + 1) / 2))%nat.
Proof.
  intros Hl. unfold pad. unfold zlen. rewrite rem2_nat.
  pose proof (Nat.div_mod (length l) 2 ltac:(lia)).
  pose proof (Nat.mod_upper_bound (length l) 2 ltac:(lia)).
  pose proof (Nat.div_mod (length l + 1) 2 ltac:(lia)).
  pose proof (Nat.mod_upper_bound (length l + 1) 2 ltac:(lia)).
  case_decide; [|lia]. destruct (last_Some_length l Hl) as [x ->].
  rewrite length_app. change (length (option_list (Some x))) with 1%nat. lia.
Qed.

Lemma pad_lookup l i h : l !! i = Some h → pad l !! i = Some h.
Proof. intros H. unfold pad. case_decide; [by apply lookup_app_l_Some|done]. Qed.

Lemma hashes32_pad l : hashes32 l → hashes32 (pad l).
Proof.
  intros H. unfold pad. case_decide; [|done]. apply Forall_app. split; [done|].
  destruct (last l) eqn:E; simpl; [|constructor]. apply Forall_singleton.
  rewrite last_lookup in E. exact (Forall_lookup_1 _ _ _ _ H E).
Qed.

Lemma next_level_lookup l k a b :
  l !! (2 * k)%nat = Some a → l !! (2 * k + 1)%nat = Some b →
  next_level l !! k = Some (HashPair a b).
Proof.
  revert l. induction k as [|k IH]; intros l Ha Hb.
  - destruct l as [|x [|y l]]; simplify_eq/=. done.
  - destruct l as [|x [|y l]]; [done|by destruct k|]. simpl. apply IH.
    + by replace (2 * S k)%nat with (S (S (2 * k))) in Ha by lia.
    + by replace (2 * S k + 1)%nat with (S (S (2 * k + 1))) in Hb by lia.
Qed.

Lemma length_next_level l : length (next_level l) = (length l / 2)%nat.
Proof.
  enough (∀ n l, (length l <= n)%nat → length (next_level l) = (length l / 2)%nat) by eauto.
  clear. induction n as [|n IH]; intros [|a [|b l]] H; try done; [simpl in *; lia|].
  cbn [next_level length] in *. rewrite IH by lia.
  replace (S (S (length l))) with (length l + 1 * 2)%nat by lia.
  rewrite Nat.div_add by lia. lia.
Qed.

Lemma hashes32_next_level l : hashes32 (next_level l).
Proof.
  enough (∀ n l, (length l <= n)%nat → hashes32 (next_level l)) by eauto.
  clear. induction n as [|n IH]; intros [|a [|b l]] H; simpl in *;
    first [by apply Forall_nil_2 | lia | idtac].
  constructor; [apply length_sha256|apply IH; lia].
Qed.

Lemma length_next_pad l :
  (0 < length l)%nat → length (next_level (pad l)) = ((length l + 1) / 2)%nat.
Proof. intros H. rewrite length_next_level, length_pad by done. rewrite Nat.mul_comm, Nat.div_mul; lia. Qed.

(** A level of two or more nodes is followed by a strictly shorter one. *)
Lemma next_pad_shrinks l :
  (1 < length l)%nat → (0 < length (next_level (pad l)) < length l)%nat.
Proof.
  intros H. rewrite length_next_pad by lia.
  pose proof (Nat.div_mod (length l + 1) 2 ltac:(lia)).
  pose proof (Nat.mod_upper_bound (length l + 1) 2 ltac:(lia)). lia.
Qed.

Lemma build_levels_total fuel levels l :
  (0 < length l <= fuel)%nat → hashes32 l →
  ∃ ls r, build_levels fuel (levels ++ [l]) l = Some (levels ++ ls, [r]) ∧
          tree_levels ls r ∧ head ls = Some l.
Proof.
  revert levels l. induction fuel as [|fuel IH]; intros levels l [H0 Hf] Hh; [lia|].
  simpl. unfold zlen. case_decide as Hl.
  - destruct (next_pad_shrinks l ltac:(lia)) as [Hp Hs].
    destruct (IH (levels ++ [l]) (next_level (pad l))) as (ls & r & -> & Ht & Hhd);
      [lia|apply hashes32_next_level|].
    exists (l :: ls), r. rewrite <- app_assoc. split_and!; [done| |done].
    destruct ls as [|l1 ls]; [done|]. simpl in Hhd. injection Hhd as ->.
    constructor; [lia|done..].
  - destruct l as [|r [|]]; simpl in *; [lia| |lia].
    exists [[r]], r. split_and!; [done| |done]. constructor. by inversion Hh.
Qed.

(** Total specification of the constructor. *)
Lemma NewMerkleTree_ok leaves :
  leaves ≠ [] → hashes32 leaves →
  ∃ ls r, NewMerkleTree leaves = Ok {| mt_leaves := leaves; mt_levels := ls; mt_root := r |} ∧
          tree_levels ls r ∧ head ls = Some leaves.
Proof.
  intros Hne Hh. unfold NewMerkleTree. rewrite decide_False by (destruct leaves; done).
  rewrite decide_False.
  2:{ intros (h & Hin & Hlen)%Exists_exists. apply Hlen. unfold zlen.
      rewrite (proj1 (Forall_forall _ _) Hh h) by done. done. }
  rewrite map_copy32_id by done. destruct leaves as [|h [|h2 leaves]]; [done| |].
  - exists [[h]], h. split_and!; [done| |done]. constructor. by inversion Hh.
  - destruct (build_levels_total (length (h :: h2 :: leaves)) [] (h :: h2 :: leaves))
      as (ls & r & Hb & Ht & Hhd); [simpl; lia|done|].
    simpl app in Hb. rewrite Hb. eauto.
Qed.

Lemma NewMerkleTree_Ok_inv leaves t :
  NewMerkleTree leaves = Ok t →
  leaves ≠ [] ∧ hashes32 leaves ∧ mt_leaves t = leaves ∧
  tree_levels (mt_levels t) (mt_root t) ∧ head (mt_levels t) = Some leaves.
Proof.
  intros H. assert (leaves ≠ [] ∧ hashes32 leaves) as [Hne Hh].
  { unfold NewMerkleTree in H. do 2 (case_decide; [done|]). split; [by intros ->|].
    apply Forall_forall. intros h Hin. destruct (decide (length h = 32%nat)) as [|Hx]; [done|].
    exfalso. select (¬ Exists _ _) (fun E => apply E). apply Exists_exists.
    exists h. split; [done|]. unfold zlen. lia. }
  destruct (NewMerkleTree_ok leaves Hne Hh) as (ls & r & H' & Ht & Hhd).
  rewrite H' in H. injection H as <-. done.
Qed.

Lemma tree_levels_root32 ls r : tree_levels ls r → length r = 32%nat.
Proof. induction 1; done. Qed.

(** One level of the tree: the sibling exists, and hashing it with the node in
    index order gives the parent. *)
Lemma sibling_parent l i h :
  hashes32 l → l !! i = Some h →
  ∃ s, pad l !! (if decide (i mod 2 = 0) then i + 1 else i - 1)%nat = Some s ∧
       length s = 32%nat ∧
       next_level (pad l) !! (i / 2)%nat =
         Some (if decide (i mod 2 = 0)%nat then HashPair h s else HashPair s h).
Proof.
  intros Hh Hi. pose proof (lookup_lt_Some _ _ _ Hi) as Hlt.
  pose proof (length_pad l ltac:(lia)) as Hp.
  pose proof (Nat.div_mod i 2 ltac:(lia)). pose proof (Nat.mod_upper_bound i 2 ltac:(lia)).
  pose proof (Nat.div_mod (length l + 1) 2 ltac:(lia)).
  pose proof (Nat.mod_upper_bound (length l + 1) 2 ltac:(lia)).
  set (j := (if decide (i mod 2 = 0) then i + 1 else i - 1)%nat).
  destruct (lookup_lt_is_Some_2 (pad l) j) as [s Hs].
  { subst j. case_decide; lia. }
  exists s. split; [done|]. split.
  { exact (Forall_lookup_1 _ _ _ _ (hashes32_pad l Hh) Hs). }
  apply pad_lookup in Hi. subst j. case_decide as Hm.
  - apply next_level_lookup; [rewrite <- Hi; f_equal; lia|rewrite <- Hs; f_equal; lia].
  - apply next_level_lookup; [rewrite <- Hs; f_equal; lia|rewrite <- Hi; f_equal; lia].
Qed.

Lemma sibling_index i :
  Z.to_nat (if decide (Z.rem (Z.of_nat i) 2 = 0) then Z.of_nat i + 1 else Z.of_nat i - 1) =
  (if decide (i mod 2 = 0) then i + 1 else i - 1)%nat.
Proof. rewrite rem2_nat. repeat case_decide; lia. Qed.

Lemma climb_step h s i p :
  length s = 32%nat →
  merkle_climb h (Z.of_nat i) (s :: p) =
  merkle_climb (if decide (i mod 2 = 0)%nat then HashPair h s else HashPair s h)
    (Z.of_nat (i / 2)) p.
Proof.
  intros Hs. cbn [merkle_climb]. rewrite decide_False by (unfold zlen; lia).
  rewrite quot2_nat, rem2_nat. f_equal. repeat case_decide; done || lia.
Qed.

Lemma proof_loop_step l ls i s p :
  ls ≠ [] →
  pad l !! (if decide (i mod 2 = 0) then i + 1 else i - 1)%nat = Some s →
  length s = 32%nat → proof_loop ls (Z.of_nat (i / 2)) = Ok p →
  proof_loop (l :: ls) (Z.of_nat i) = Ok (s :: p).
Proof.
  intros Hls Hs H32 Hp. destruct ls as [|l1 ls]; [done|].
  change (proof_loop (l :: l1 :: ls) ?x) with
    (match pad l !! Z.to_nat (if decide (Z.rem x 2 = 0) then x + 1 else x - 1) with
     | None => Err out_of_range
     | Some sibling => let! proof := proof_loop (l1 :: ls) (Z.quot x 2) in
                       Ok (copy32 sibling :: proof)
     end).
  rewrite sibling_index, Hs, quot2_nat, Hp. simpl. by rewrite copy32_id.
Qed.

Lemma proof_loop_complete ls r l i h :
  tree_levels ls r → head ls = Some l → l !! i = Some h →
  ∃ p, proof_loop ls (Z.of_nat i) = Ok p ∧ merkle_climb h (Z.of_nat i) p = Some r ∧
       S (length p) = length ls.
Proof.
  intros Ht. revert l i h. induction Ht as [r Hr|l0 ls r Hl Hh Ht IH]; intros l i h Hhd Hi.
  - injection Hhd as <-. destruct i; [|done]. injection Hi as <-. exists []. done.
  - injection Hhd as <-. destruct (sibling_parent l0 i h Hh Hi) as (s & Hs & Hs32 & Hpar).
    destruct (IH _ _ _ eq_refl Hpar) as (p & Hp & Hc & Hlen).
    exists (s :: p). rewrite climb_step by done.
    split_and!; [by apply proof_loop_step|done|]. simpl in *. lia.
Qed.

(** ** Completeness *)

Lemma GenerateProof_complete leaves t i h :
  NewMerkleTree leaves = Ok t → leaves !! i = Some h →
  ∃ p, GenerateProof t (Z.of_nat i) = Ok p ∧
       VerifyMerkleProof h (Z.of_nat i) p (Root t) = true ∧
       S (length p) = length (mt_levels t).
Proof.
  intros Hn Hi. destruct (NewMerkleTree_Ok_inv _ _ Hn) as (Hne & Hh & Hlv & Ht & Hhd).
  pose proof (lookup_lt_Some _ _ _ Hi). pose proof (tree_levels_root32 _ _ Ht) as Hr.
  destruct (proof_loop_complete _ _ leaves i h Ht Hhd Hi) as (p & Hp & Hc & Hlen).
  exists p. unfold GenerateProof, Root, VerifyMerkleProof. rewrite Hlv, copy32_id by done.
  rewrite (decide_False (P := _ ∨ _)) by (unfold zlen; lia).
  pose proof (Forall_lookup_1 _ _ _ _ Hh Hi) as H32; simpl in H32.
  split_and!; [|rewrite decide_False by (unfold zlen; lia); by apply bool_decide_eq_true|done].
  case_decide as H1; [|done]. destruct (mt_levels t) as [|l0 ls]; [done|]. simpl in Hhd. injection Hhd as ->.
  destruct leaves as [|? [|]]; unfold zlen in H1; simpl in H1; try lia.
  inversion Ht; subst; simpl in *; [|lia]. by destruct p.
Qed.

Lemma length_Root leaves t : NewMerkleTree leaves = Ok t → length (Root t) = 32%nat.
Proof.
  intros (_ & _ & _ & Ht & _)%NewMerkleTree_Ok_inv. unfold Root.
  pose proof (tree_levels_root32 _ _ Ht). by rewrite copy32_id.
Qed.

(** C14: The tree is built for every non-empty list of 32-byte hashes (no fuel
    or index failure), and for every leaf the generated audit path verifies
    against the root at that leaf's index with one sibling per level. *)
Theorem GenerateProof_verifies leaves :
  leaves ≠ [] → Forall (λ h, length h = 32%nat) leaves →
  ∃ t, NewMerkleTree leaves = Ok t ∧ LeafCount t = zlen leaves ∧
    ∀ i h, leaves !! i = Some h →
      ∃ p, GenerateProof t (Z.of_nat i) = Ok p ∧
           VerifyMerkleProof h (Z.of_nat i) p (Root t) = true ∧
           S (length p) = length (mt_levels t).
Proof.
  intros Hne Hh. destruct (NewMerkleTree_ok leaves Hne Hh) as (ls & r & Hn & _ & _).
  eexists. split; [done|]. split; [done|]. intros i h Hi.
  by eapply GenerateProof_complete.
Qed.

Definition leaf_a : list byte := sha256 (bytes_of "a").
Definition leaf_b : list byte := sha256 (bytes_of "b").
Definition leaf_c : list byte := sha256 (bytes_of "c").

Lemma GenerateProof_verifies_witness :
  ∃ t p, NewMerkleTree [leaf_a; leaf_b; leaf_c] = Ok t ∧ GenerateProof t 2 = Ok p ∧
         VerifyMerkleProof leaf_c 2 p (Root t) = true.
Proof.
  destruct (GenerateProof_verifies [leaf_a; leaf_b; leaf_c]) as (t & Ht & _ & H);
    [discriminate|repeat constructor; apply length_sha256|].
  destruct (H 2%nat leaf_c eq_refl) as (p & Hp & Hv & _). by exists t, p.
Defined.

(** ** Soundness *)

(** Compare the climb of a claimed path with the levels of the tree; the first
    level on which the hashed pair differs while the parent agrees gives two
    preimages of one hash. *)
Fixpoint extract_collision (levels : list (list (list byte))) (h : list byte) (idx : Z)
    (proof : list (list byte)) : option (list byte * list byte) :=
  match levels, proof with
  | nodes :: rest, s :: proof' =>
      let claimed := if decide (Z.rem idx 2 = 0) then h ++ s else s ++ h in
      let k := Z.to_nat (Z.quot idx 2) in
      let stored := default [] (pad nodes !! (2 * k)%nat) ++ default [] (pad nodes !! (2 * k + 1)%nat) in
      if decide (claimed ≠ stored ∧ sha256 claimed = sha256 stored) then Some (claimed, stored)
      else extract_collision rest (sha256 claimed) (Z.quot idx 2) proof'
  | _, _ => None
  end.

Lemma extract_collision_sound ls h i p a b :
  extract_collision ls h i p = Some (a, b) → sha256_collision a b.
Proof.
  revert h i p. induction ls as [|l ls IH]; intros h i [|s p]; simpl; try done.
  repeat case_decide; intros; simplify_eq; first [done|by eapply IH].
Qed.

(** The pair of children stored above position [i]. *)
Lemma children_lookup l i h :
  hashes32 l → l !! i = Some h →
  ∃ a b, pad l !! (2 * (i / 2))%nat = Some a ∧ pad l !! (2 * (i / 2) + 1)%nat = Some b ∧
    length a = 32%nat ∧ length b = 32%nat ∧
    h = (if decide (i mod 2 = 0)%nat then a else b) ∧
    next_level (pad l) !! (i / 2)%nat = Some (HashPair a b).
Proof.
  intros Hh Hi. destruct (sibling_parent l i h Hh Hi) as (s & Hs & Hs32 & Hp).
  pose proof (Forall_lookup_1 _ _ _ _ Hh Hi) as H32; simpl in H32.
  pose proof (Nat.div_mod i 2 ltac:(lia)). pose proof (Nat.mod_upper_bound i 2 ltac:(lia)).
  apply pad_lookup in Hi. case_decide as Hm; [exists h, s|exists s, h]; split_and!; try done.
  - rewrite <- Hi. f_equal. lia.
  - rewrite <- Hs. f_equal. lia.
  - rewrite <- Hs. f_equal. lia.
  - rewrite <- Hi. f_equal. lia.
Qed.

Lemma extract_collision_step l ls h i s p a b :
  pad l !! (2 * (i / 2))%nat = Some a → pad l !! (2 * (i / 2) + 1)%nat = Some b →
  let cl := if decide (i mod 2 = 0)%nat then h ++ s else s ++ h in
  extract_collision (l :: ls) h (Z.of_nat i) (s :: p) =
  if decide (cl ≠ a ++ b ∧ sha256 cl = sha256 (a ++ b)) then Some (cl, a ++ b)
  else extract_collision ls (sha256 cl) (Z.of_nat (i / 2)) p.
Proof.
  intros Ha Hb cl. cbn [extract_collision]. rewrite quot2_nat, Nat2Z.id, Ha, Hb, rem2_nat.
  assert (E : (if decide (Z.of_nat (i mod 2) = 0) then h ++ s else s ++ h) = cl).
  { subst cl. repeat case_decide; done || lia. }
  by rewrite E.
Qed.

Lemma extract_collision_complete ls r l i h h' p :
  tree_levels ls r → head ls = Some l → l !! i = Some h → length h' = 32%nat → h' ≠ h →
  merkle_climb h' (Z.of_nat i) p = Some r → S (length p) = length ls →
  ∃ a b, extract_collision ls h' (Z.of_nat i) p = Some (a, b).
Proof.
  intros Ht. revert l i h h' p. induction Ht as [r Hr|l0 ls r Hl Hh Ht IH];
    intros l i h h' p Hhd Hi H32 Hne Hc Hlen.
  - simplify_eq/=. destruct i; [|done]. destruct p; [|done]. simplify_eq/=.
  - injection Hhd as <-. destruct p as [|s p]; [done|].
    destruct (decide (length s = 32%nat)) as [Hs32|Hs].
    2:{ simpl in Hc. rewrite decide_True in Hc by (unfold zlen; lia). done. }
    rewrite climb_step in Hc by done.
    destruct (children_lookup l0 i h Hh Hi) as (a & b & Ha & Hb & Ha32 & Hb32 & Hhab & Hpar).
    rewrite (extract_collision_step _ _ _ _ _ _ a b) by done.
    set (cl := if decide (i mod 2 = 0)%nat then h' ++ s else s ++ h').
    assert (Hcl : (if decide (i mod 2 = 0)%nat then HashPair h' s else HashPair s h') = sha256 cl)
      by (subst cl; case_decide; done).
    assert (Hdiff : cl ≠ a ++ b).
    { subst cl. intros E. case_decide; apply app_inj_1 in E as [-> ->]; try lia; done. }
    destruct (decide (cl ≠ a ++ b ∧ _)) as [|Hcol]; [eauto|].
    eapply (IH _ _ (HashPair a b)); [done|exact Hpar|apply length_sha256| | |].
    + intros E. apply Hcol. done.
    + rewrite <- Hcl. done.
    + simpl in *. lia.
Qed.

Lemma merkle_sound leaves t i h h' p :
  NewMerkleTree leaves = Ok t → leaves !! i = Some h →
  S (length p) = length (mt_levels t) →
  VerifyMerkleProof h' (Z.of_nat i) p (Root t) = true →
  h' = h ∨ ∃ a b, extract_collision (mt_levels t) h' (Z.of_nat i) p = Some (a, b) ∧
                  sha256_collision a b.
Proof.
  intros Hn Hi Hlen Hv. destruct (NewMerkleTree_Ok_inv _ _ Hn) as (Hne & Hh & Hlv & Ht & Hhd).
  unfold VerifyMerkleProof in Hv. case_decide as Hg; [done|].
  apply bool_decide_eq_true in Hv. unfold Root in Hv.
  rewrite copy32_id in Hv by (by eapply tree_levels_root32).
  destruct (decide (h' = h)) as [|Hd]; [by left|right].
  destruct (extract_collision_complete _ _ leaves i h h' p Ht Hhd Hi) as (a & b & E);
    [unfold zlen in Hg; lia|done..|].
  exists a, b. split; [done|]. by eapply extract_collision_sound.
Qed.

(** C15: A path of exactly the tree's depth that verifies at position [i] for a
    hash other than the stored leaf lets one compute two distinct inputs with
    the same SHA-256 digest. *)
Theorem VerifyMerkleProof_sound leaves t i h h' p :
  NewMerkleTree leaves = Ok t → leaves !! i = Some h →
  S (length p) = length (mt_levels t) →
  VerifyMerkleProof h' (Z.of_nat i) p (Root t) = true →
  h' = h ∨ ∃ a b, extract_collision (mt_levels t) h' (Z.of_nat i) p = Some (a, b) ∧
                  sha256_collision a b.
Proof. apply merkle_sound. Qed.

Lemma VerifyMerkleProof_sound_witness : ∃ t p,
  NewMerkleTree [leaf_a; leaf_b; leaf_c] = Ok t ∧ GenerateProof t 1 = Ok p ∧
  (leaf_b = leaf_b ∨ ∃ a b, extract_collision (mt_levels t) leaf_b 1 p = Some (a, b) ∧
                            sha256_collision a b).
Proof.
  destruct (NewMerkleTree_ok [leaf_a; leaf_b; leaf_c]) as (ls & r & Ht & _);
    [discriminate|repeat constructor; apply length_sha256|].
  destruct (GenerateProof_complete _ _ 1 leaf_b Ht eq_refl) as (p & Hp & Hv & Hlen).
  eexists _, p. split_and!; [done..|].
  apply (VerifyMerkleProof_sound [leaf_a; leaf_b; leaf_c] _ 1 leaf_b leaf_b p Ht eq_refl Hlen Hv).
Defined.

(** The verifier does not know the depth of the tree: for every tree of two
    or more leaves, an inner node with the remaining audit path is accepted as
    a "chunk hash", and so is the root with an empty path at any index. *)
Theorem VerifyMerkleProof_accepts_inner_nodes leaves t :
  NewMerkleTree leaves = Ok t → (1 < length leaves)%nat →
  (∀ i, VerifyMerkleProof (Root t) (Z.of_nat i) [] (Root t) = true) ∧
  ∀ l1 i n, mt_levels t !! 1%nat = Some l1 → l1 !! i = Some n →
    ∃ p, VerifyMerkleProof n (Z.of_nat i) p (Root t) = true.
Proof.
  intros Hn Hl. destruct (NewMerkleTree_Ok_inv _ _ Hn) as (Hne & Hh & Hlv & Ht & Hhd).
  pose proof (tree_levels_root32 _ _ Ht) as Hr.
  unfold VerifyMerkleProof, Root. rewrite copy32_id by done. split.
  - intros i. rewrite decide_False by (unfold zlen; lia). by apply bool_decide_eq_true.
  - intros l1 i n H1 Hi. destruct Ht as [|l0 ls r _ _ Ht]; [done|]. simpl in H1.
    injection H1 as <-.
    destruct (proof_loop_complete _ r _ i n Ht eq_refl Hi) as (p & _ & Hc & _).
    exists p. pose proof (Forall_lookup_1 _ _ _ _ (hashes32_next_level _) Hi) as H32; simpl in H32.
    rewrite decide_False by (unfold zlen; lia). by apply bool_decide_eq_true.
Qed.

Lemma VerifyMerkleProof_accepts_inner_nodes_witness : ∃ t,
  NewMerkleTree [leaf_a; leaf_b] = Ok t ∧ VerifyMerkleProof (Root t) 7 [] (Root t) = true.
Proof.
  destruct (NewMerkleTree_ok [leaf_a; leaf_b]) as (ls & r & Ht & _);
    [discriminate|repeat constructor; apply length_sha256|].
  eexists. split; [done|].
  apply (proj1 (VerifyMerkleProof_accepts_inner_nodes [leaf_a; leaf_b] _ Ht ltac:(simpl; lia)) 7%nat).
Defined.
