(* ===== verification/Contract.v ===== *)
(** * Availability contracts

    availability-contracts/contract: contract.go and verify_and_record.go.  The
    package-level [contractStore] and [chunkCountResolver], together with the
    [epochStore] of the challenge package it calls, are one state record; each
    exported function holds [contractStore]'s lock for its whole body and is
    one state transformer.  Clock readings, random draws and the resolver's
    answer are arguments. *)

From S2P Require Import Prelude Sha256 Crypto AvailTypes Lifecycle EpochStore Settlement Verification.

Record activeEpoch := { ae_id : string; ae_endAfterCurrent : bool }.

(** [ChunkCountResolver], an interface with one method. *)
Abbreviation ChunkCountResolver := (string → string → result Z).

Record ContractStore := {
  contracts : gmap string AvailabilityContract;
  challenges : gmap string string;
  activeEpochs : gmap string activeEpoch;
  resolver : option ChunkCountResolver;
  epochStore : EpochStore;
}.

Definition empty_contracts : ContractStore :=
  {| contracts := ∅; challenges := ∅; activeEpochs := ∅; resolver := None;
     epochStore := empty_epochs |}.

(** [*contract = c] through the pointer stored under [id]. *)
Definition put (id : string) (c : AvailabilityContract) (st : ContractStore) : ContractStore :=
  {| contracts := <[id := c]> (contracts st); challenges := challenges st;
     activeEpochs := activeEpochs st; resolver := resolver st; epochStore := epochStore st |}.

Definition with_epochs (es : EpochStore) (st : ContractStore) : ContractStore :=
  {| contracts := contracts st; challenges := challenges st;
     activeEpochs := activeEpochs st; resolver := resolver st; epochStore := es |}.

Definition ConfigureChunkCountResolver (r : option ChunkCountResolver) (st : ContractStore)
    : ContractStore * result () :=
  match r with
  | None => (st, Err (New "chunk count resolver is required"))
  | Some _ =>
      ({| contracts := contracts st; challenges := challenges st;
          activeEpochs := activeEpochs st; resolver := r; epochStore := epochStore st |}, Ok tt)
  end.

Definition CreateAvailabilityContract (publisherID providerID fileID : string)
    (paymentAmount duration : Z) (rnd : result (list byte)) (now : Z)
    (st : ContractStore) : ContractStore * result string :=
  if decide (publisherID = ""%string ∨ providerID = ""%string ∨ fileID = ""%string) then
    (st, Err (New "publisher ID, provider ID, and file ID are required"))
  else if decide (paymentAmount <= 0 ∨ duration <= 0) then
    (st, Err (New "payment amount and duration must be positive"))
  else
    match resolver st with
    | None => (st, Err (New "no chunk count resolver is configured"))
    | Some ChunkCount =>
        match ChunkCount providerID fileID with
        | Err e => (st, Err (Wrap "resolve file chunk count" e))
        | Ok totalChunks =>
            if decide (totalChunks <= 0) then
              (st, Err (New "resolved chunk count must be positive"))
            else
              match rnd with
              | Err e => (st, Err (Wrap "generate contract ID" e))
              | Ok randomID =>
                  let contractID := "contract-" +:+ EncodeToString randomID in
                  (put contractID
                     {| ac_ID := contractID; ac_PublisherID := publisherID;
                        ac_ProviderID := providerID; ac_FileID := fileID;
                        ac_TotalChunks := totalChunks; ac_PaymentAmount := paymentAmount;
                        ac_FundedAmount := 0; ac_Duration := duration; ac_CreatedAt := now;
                        ac_EndsAt := now + duration; ac_State := Proposed;
                        ac_Challenges := []; ac_Results := []; ac_AvailabilityResults := [];
                        ac_Settlement := set_SettlementStatus SettlementPending zero_settlement |}
                     st, Ok contractID)
              end
        end
    end.

Definition FundAvailabilityContract (contractID : string) (paymentAmount : Z)
    (st : ContractStore) : ContractStore * result ContractState :=
  match contracts st !! contractID with
  | None => (st, Err (New "unknown contract"))
  | Some contract =>
      if decide (ac_State contract ≠ Proposed) then
        (st, Err (New "contract cannot be funded from its state"))
      else if decide (paymentAmount ≠ ac_PaymentAmount contract) then
        (st, Err (New "funding amount must equal the agreed payment amount"))
      else
        match Transition (ac_State contract) Agreed with
        | Err e => (st, Err e)
        | Ok nextState =>
            let contract := set_State nextState (set_FundedAmount paymentAmount contract) in
            (put contractID contract st, Ok (ac_State contract))
        end
  end.

(** The loop over [[Transferring; Ready; Active]]: [contract.State] is assigned
    before the error is tested, and a failed [Transition] returns [""]. *)
Fixpoint transition_all (s : ContractState) (l : list ContractState)
    : ContractState * option error :=
  match l with
  | [] => (s, None)
  | next :: l' =>
      match Transition s next with
      | Err e => (StateOther "", Some e)
      | Ok s' => transition_all s' l'
      end
  end.

(** Which challenge generator runs: [GenerateNextChallenge] while the tracked
    epoch is active and has chunks left, a new epoch otherwise. *)
Definition generate_challenge (contractID : string) (contract : AvailabilityContract)
    (tracked : option activeEpoch) (rndEpoch rndNonce : result (list byte)) (now : Z)
    (es : EpochStore) : EpochStore * result Challenge :=
  match tracked with
  | Some trackedEpoch =>
      match GetEpochState (ae_id trackedEpoch) es with
      | Err e => (es, Err (Wrap "get active epoch state" e))
      | Ok epochState =>
          let '(es', generated) :=
            if decide (es_EpochStatus epochState = EpochActive
                       ∧ es_UncoveredChunkCount epochState > 0
                       ∧ ae_endAfterCurrent trackedEpoch = false) then
              GenerateNextChallenge contractID (ac_ProviderID contract) (ac_FileID contract)
                (ae_id trackedEpoch) (es_ChallengeCounter epochState)
                (es_RoundNumber epochState) rndNonce now es
            else
              CreateChallenge contractID (ac_ProviderID contract) (ac_FileID contract)
                (ac_TotalChunks contract) (u64 (es_RoundNumber epochState + 1))
                rndEpoch rndNonce now es in
          (es', wrap "generate availability challenge" generated)
      end
  | None =>
      let '(es', generated) :=
        CreateChallenge contractID (ac_ProviderID contract) (ac_FileID contract)
          (ac_TotalChunks contract) 0 rndEpoch rndNonce now es in
      (es', wrap "generate availability challenge" generated)
  end.

(** Returns the generated challenge; the code returns its two identifiers. *)
Definition InitiateAvailabilityChallenge (contractID : string)
    (rndEpoch rndNonce : result (list byte)) (now : Z)
    (st : ContractStore) : ContractStore * result Challenge :=
  match contracts st !! contractID with
  | None => (st, Err (New "unknown contract"))
  | Some contract =>
      if decide ((ac_State contract ≠ Agreed ∧ ac_State contract ≠ Active)
                 ∨ ac_FundedAmount contract ≠ ac_PaymentAmount contract) then
        (st, Err (New "contract must be agreed or active and fully funded before a challenge starts"))
      else if decide (¬ now < ac_EndsAt contract) then
        (put contractID (set_State Expired contract) st, Err (New "contract has expired"))
      else
        match generate_challenge contractID contract (activeEpochs st !! contractID)
                rndEpoch rndNonce now (epochStore st) with
        | (es', Err e) => (with_epochs es' st, Err e)
        | (es', Ok generated) =>
            let '(s', failed) :=
              if decide (ac_State contract = Agreed) then
                transition_all (ac_State contract) [Transferring; Ready; Active]
              else (ac_State contract, None) in
            let contract := set_State s' contract in
            match failed with
            | Some e => (put contractID contract (with_epochs es' st), Err e)
            | None =>
                let challengeID := ch_ChallengeID generated in
                ({| contracts := <[contractID :=
                      set_Challenges (ac_Challenges contract ++ [challengeID]) contract]>
                      (contracts st);
                    challenges := <[challengeID := contractID]> (challenges st);
                    activeEpochs := <[contractID :=
                      {| ae_id := ch_EpochID generated;
                         ae_endAfterCurrent := ch_TriggerStatus generated |}]> (activeEpochs st);
                    resolver := resolver st; epochStore := es' |}, Ok generated)
            end
        end
  end.

Definition RecordAvailabilityResult (contractID challengeID : string)
    (res : ChallengeResult) (now : Z) (st : ContractStore) : ContractStore * result ContractState :=
  match contracts st !! contractID with
  | None => (st, Err (New "unknown contract"))
  | Some contract =>
      if decide (ac_State contract ≠ Active) then (st, Err (New "contract is not active"))
      else if decide (challenges st !! challengeID ≠ Some contractID) then
        (st, Err (New "challenge does not belong to contract"))
      else if decide (cr_ChallengeID res ≠ ""%string ∧ cr_ChallengeID res ≠ challengeID) then
        (st, Err (New "result challenge ID does not match"))
      else if decide (Exists (λ recorded, cr_ChallengeID recorded = challengeID)
                        (ac_Results contract)) then
        (st, Err (New "challenge result has already been recorded"))
      else
        let res := {| cr_ChallengeID := challengeID; cr_Succeeded := cr_Succeeded res;
                      cr_RecordedAt := now |} in
        let status := if cr_Succeeded res then AvailabilityPass else AvailabilityFail in
        let contract :=
          set_Results (ac_Results contract ++ [res])
            (ac_AvailabilityResults contract ++
             [{| ar_ContractID := contractID; ar_ProviderID := ac_ProviderID contract;
                 ar_Period := u64 (zlen (ac_AvailabilityResults contract) + 1);
                 ar_ChallengeID := challengeID; ar_Result := status;
                 ar_Timestamp := cr_RecordedAt res |}]) contract in
        (put contractID contract st, Ok (ac_State contract))
  end.

Definition GetLatestAvailabilityResult (contractID : string) (st : ContractStore)
    : result AvailabilityResult :=
  match contracts st !! contractID with
  | None => Err (New "unknown contract")
  | Some contract =>
      match last (ac_AvailabilityResults contract) with
      | None => Err (New "contract has no recorded availability result")
      | Some r => Ok r
      end
  end.

Definition SettleAvailabilityContract (contractID : string) (now nowFinal : Z)
    (st : ContractStore) : ContractStore * result SettlementStatus :=
  match contracts st !! contractID with
  | None => (st, Err (New "unknown contract"))
  | Some contract =>
      if decide (ac_State contract ≠ Active ∧ ac_State contract ≠ Expired) then
        (st, Err (New "contract cannot be settled from its state"))
      else if decide (zlen (ac_Results contract) = 0) then
        (st, Err (New "cannot settle without recorded challenge results"))
      else
        match CalculateSettlement (ac_FundedAmount contract) (ac_Results contract) with
        | Err e => (st, Err e)
        | Ok settlementState =>
            let contract := set_Settlement settlementState contract in
            match Transition (ac_State contract)
                    (if decide (¬ now < ac_EndsAt contract) then Expired else Completed) with
            | Err e => (put contractID contract st, Err e)
            | Ok nextState =>
                let contract :=
                  set_Settlement (set_FinalizedAt nowFinal (ac_Settlement contract))
                    (set_State nextState contract) in
                (put contractID contract st, Ok (ss_Status (ac_Settlement contract)))
            end
        end
  end.

Definition TerminateAvailabilityContract (contractID : string) (now : Z)
    (st : ContractStore) : ContractStore * result ContractState :=
  match contracts st !! contractID with
  | None => (st, Err (New "unknown contract"))
  | Some contract =>
      if IsTerminal (ac_State contract) then (st, Err (New "contract is already terminal"))
      else
        match Transition (ac_State contract) Terminated with
        | Err e => (st, Err e)
        | Ok nextState =>
            let contract :=
              set_Settlement
                (set_FinalizedAt now (set_SettlementStatus SettlementTerminated (ac_Settlement contract)))
                (set_State nextState contract) in
            (put contractID contract st, Ok (ac_State contract))
        end
  end.

(** ** verify_and_record.go *)

Definition VerifyAndRecordChallengeResponse {ED : Ed25519} (contractID : string)
    (challenge : Challenge) (response : ChallengeResponse)
    (fileMerkleRoot providerPubKey : list byte) (maxTimeout now nowRecord : Z)
    (st : ContractStore) : ContractStore * ChallengeResult * result ContractState :=
  let challengeResult :=
    BuildChallengeResult challenge response fileMerkleRoot providerPubKey maxTimeout now in
  let '(st', r) :=
    RecordAvailabilityResult contractID (ch_ChallengeID challenge) challengeResult nowRecord st in
  (st', challengeResult, r).

(** ** Invariant of a contract record *)

Abbreviation result_ids c := (cr_ChallengeID <$> ac_Results c).

(** The standardized result of the [i]-th recorded outcome. *)
Definition standard_result (c : AvailabilityContract) (i : nat) (r : ChallengeResult)
    : AvailabilityResult :=
  {| ar_ContractID := ac_ID c; ar_ProviderID := ac_ProviderID c;
     ar_Period := u64 (Z.of_nat i + 1); ar_ChallengeID := cr_ChallengeID r;
     ar_Result := if cr_Succeeded r then AvailabilityPass else AvailabilityFail;
     ar_Timestamp := cr_RecordedAt r |}.

(** The money side: nothing is locked before funding, the agreed amount after. *)
Definition funding_ok (c : AvailabilityContract) : Prop :=
  match ac_State c with
  | Proposed => ac_FundedAmount c = 0
  | Agreed | Active | Completed | Expired => ac_FundedAmount c = ac_PaymentAmount c
  | Terminated => ac_FundedAmount c = 0 ∨ ac_FundedAmount c = ac_PaymentAmount c
  | _ => False
  end.

Record contract_wf (id : string) (c : AvailabilityContract) : Prop := {
  cw_id : ac_ID c = id;
  cw_names : id ≠ ""%string ∧ ac_ProviderID c ≠ ""%string ∧ ac_FileID c ≠ ""%string;
  cw_chunks : 0 < ac_TotalChunks c ∧ is_i64 (ac_TotalChunks c);
  cw_payment : 0 < ac_PaymentAmount c;
  cw_funding : funding_ok c;
  cw_results : ac_AvailabilityResults c = imap (standard_result c) (ac_Results c);
  cw_nodup : NoDup (result_ids c);
  cw_answered : ∀ x, x ∈ result_ids c → x ∈ ac_Challenges c;
  cw_before : ac_State c = Proposed ∨ ac_State c = Agreed → ac_Results c = [];
}.

Record cstore_wf (st : ContractStore) : Prop := {
  cs_contracts : map_Forall contract_wf (contracts st);
  cs_challenges : ∀ x id, challenges st !! x = Some id →
      ∃ c, contracts st !! id = Some c ∧ x ∈ ac_Challenges c;
  cs_active : ∀ id ae, activeEpochs st !! id = Some ae →
      ae_id ae ≠ ""%string ∧ is_Some (epochs (epochStore st) !! ae_id ae);
  cs_epochs : store_wf (epochStore st);
  (** Go's [int] result of the resolver *)
  cs_resolver : ∀ f p x n, resolver st = Some f → f p x = Ok n → is_i64 n;
}.

(** ** Evolution of a contract record *)

(** One change of [contract.State]: a lifecycle step, or the assignment of
    [Expired] in [InitiateAvailabilityChallenge], which does not go through
    [Transition]. *)
Definition state_step (s t : ContractState) : Prop :=
  lifecycle_step s t ∨ (s = Agreed ∧ t = Expired).

Record evolves (c c' : AvailabilityContract) : Prop := {
  ev_terms : (ac_ID c', ac_PublisherID c', ac_ProviderID c', ac_FileID c', ac_TotalChunks c',
              ac_PaymentAmount c', ac_Duration c', ac_CreatedAt c', ac_EndsAt c') =
             (ac_ID c, ac_PublisherID c, ac_ProviderID c, ac_FileID c, ac_TotalChunks c,
              ac_PaymentAmount c, ac_Duration c, ac_CreatedAt c, ac_EndsAt c);
  ev_challenges : ac_Challenges c `prefix_of` ac_Challenges c';
  ev_results : ac_Results c `prefix_of` ac_Results c';
  ev_standard : ac_AvailabilityResults c `prefix_of` ac_AvailabilityResults c';
  ev_funded : ac_FundedAmount c = ac_FundedAmount c' ∨
              (ac_State c = Proposed ∧ ac_FundedAmount c' = ac_PaymentAmount c);
  ev_state : rtc state_step (ac_State c) (ac_State c');
}.

#[global] Instance evolves_refl : Reflexive evolves.
Proof. intros c. split; auto; reflexivity. Qed.

Lemma state_step_rank s t :
  state_step s t → (lifecycle_rank s < lifecycle_rank t)%nat.
Proof. intros [[H _]%lifecycle_step_rank|[-> ->]]; simpl; lia. Qed.

Lemma state_steps_rank s t :
  rtc state_step s t → s = t ∨ (lifecycle_rank s < lifecycle_rank t)%nat.
Proof. induction 1 as [|x y z H%state_step_rank _ IH]; [by left|]. destruct IH; subst; right; lia. Qed.

#[global] Instance evolves_trans : Transitive evolves.
Proof.
  intros a b c [T1 C1 R1 S1 F1 P1] [T2 C2 R2 S2 F2 P2].
  split; [congruence|etrans; eassumption..| |etrans; eassumption].
  simplify_eq. destruct F1 as [F1|[F1 F1']], F2 as [F2|[F2 F2']].
  - left; congruence.
  - right. split; [|congruence].
    destruct (state_steps_rank _ _ P1) as [->|Hr]; [done|]. rewrite F2 in Hr. simpl in Hr. lia.
  - right. split; congruence.
  - right. split; congruence.
Qed.

(** A terminal state has no successor. *)
Lemma state_steps_terminal s t : rtc state_step s t → IsTerminal s = true → t = s.
Proof.
  intros H Ht. destruct (state_steps_rank _ _ H) as [->|Hr]; [done|].
  destruct H as [|x y z H _]; [done|]. destruct H as [H|[-> ->]]; [|done].
  apply CanTransition_step in H. destruct x, y; discriminate.
Qed.

(** ** What one operation does to the store *)

(** Every operation but [Create] and a successful [Initiate] either leaves the
    contracts alone or replaces one record by an evolved, well-formed one. *)
Inductive updates (st : ContractStore) : ContractStore → Prop :=
| upd_none : updates st st
| upd_put id c c' :
    contracts st !! id = Some c → evolves c c' → contract_wf id c' → updates st (put id c' st).

Lemma updates_wf st st' : cstore_wf st → updates st st' → cstore_wf st'.
Proof.
  intros Hst []; [done|]. destruct Hst as [Hc Hch Ha He Hr]. split; simpl; try done.
  - by apply map_Forall_insert_2.
  - intros x j Hx. destruct (Hch _ _ Hx) as (cx & Hcx & Hin).
    destruct (decide (id = j)) as [<-|Hne]; [|rewrite lookup_insert_ne by done; eauto].
    rewrite lookup_insert_eq. eexists; split; [done|]. simplify_eq.
    select (evolves _ _) (fun H => destruct (ev_challenges _ _ H) as [k ->]). set_solver.
Qed.

Ltac wf_field H := destruct H as [? ? ? ? ? ? ? ? ?]; split; simpl in *; try done.

Lemma Fund_updates id a st :
  cstore_wf st → updates st (FundAvailabilityContract id a st).1.
Proof.
  intros Hst. unfold FundAvailabilityContract.
  destruct (contracts st !! id) as [c|] eqn:Hc; [|constructor].
  case_decide as Hs; [constructor|]. case_decide as Ha; [constructor|]. subst a. rewrite Hs.
  simpl. apply (upd_put _ _ c); [done| |].
  - split; simpl; try done; [by right|]. rewrite Hs. apply rtc_once. left. constructor.
  - pose proof (cs_contracts _ Hst _ _ Hc) as Hwf. wf_field Hwf. intros _. apply cw_before0. by left.
Qed.

Lemma Record_updates id x r now st :
  cstore_wf st → updates st (RecordAvailabilityResult id x r now st).1.
Proof.
  intros Hst. unfold RecordAvailabilityResult.
  destruct (contracts st !! id) as [c|] eqn:Hc; [|constructor].
  case_decide as Hs; [constructor|]. case_decide as Ho; [constructor|].
  case_decide; [constructor|]. case_decide as Hx; [constructor|].
  simpl. apply (upd_put _ _ c); [done| |].
  - split; simpl; auto; first [by apply prefix_app_r|apply rtc_refl].
  - pose proof (cs_contracts _ Hst _ _ Hc) as Hwf.
    destruct (cs_challenges _ Hst _ _ Ho) as (c1 & Hc1 & Hin). simplify_eq.
    destruct Hwf as [Hid Hn Hch Hp Hf Hr Hnd Han Hb]. split; simpl; try done.
    + rewrite imap_app. unfold standard_result at 2; simpl. f_equal; [exact Hr|].
      rewrite Hr. unfold zlen. rewrite length_imap, Nat.add_0_r, Hid. done.
    + rewrite fmap_app. simpl. apply NoDup_snoc; [done|].
      intros (y & -> & Hy)%list_elem_of_fmap. apply Hx. apply Exists_exists. eauto.
    + intros y. rewrite fmap_app. intros [Hy| ->%list_elem_of_singleton]%elem_of_app;
        [by apply Han|done].
    + intros [H1|H1]; congruence.
Qed.

Lemma Settle_updates id now fin st :
  cstore_wf st → updates st (SettleAvailabilityContract id now fin st).1.
Proof.
  intros Hst. unfold SettleAvailabilityContract.
  destruct (contracts st !! id) as [c|] eqn:Hc; [|constructor].
  case_decide as Hs; [constructor|]. case_decide as Hn; [constructor|].
  destruct (CalculateSettlement _ _) as [ss|e]; [|constructor]. simpl.
  pose proof (cs_contracts _ Hst _ _ Hc) as Hwf.
  destruct (Transition _ _) as [next|e] eqn:Ht; simpl; apply (upd_put _ _ c); try done.
  - apply Transition_Ok in Ht as [-> Hstep]. split; simpl; auto.
    apply rtc_once. by left.
  - apply Transition_Ok in Ht as [-> Hstep]. wf_field Hwf.
    + unfold funding_ok in *. simpl. apply CanTransition_step in Hstep.
      destruct (ac_State c); case_decide; done.
    + case_decide; intros [|]; done.
  - split; simpl; auto; apply rtc_refl.
  - by wf_field Hwf.
Qed.

Lemma Terminate_updates id now st :
  cstore_wf st → updates st (TerminateAvailabilityContract id now st).1.
Proof.
  intros Hst. unfold TerminateAvailabilityContract.
  destruct (contracts st !! id) as [c|] eqn:Hc; [|constructor].
  destruct (IsTerminal (ac_State c)) eqn:Hi; [constructor|].
  destruct (Transition _ _) as [next|e] eqn:Ht; [|constructor].
  apply Transition_Ok in Ht as [-> Hstep]. simpl. apply (upd_put _ _ c); [done| |].
  - split; simpl; auto. apply rtc_once. by left.
  - pose proof (cs_contracts _ Hst _ _ Hc) as Hwf. wf_field Hwf; [|intros [|]; done].
    unfold funding_ok in *. simpl. destruct (ac_State c); done || auto.
Qed.

(** ** Creating and challenging *)

Lemma Create_wf pub prov file a d rnd now st st' id :
  cstore_wf st → CreateAvailabilityContract pub prov file a d rnd now st = (st', Ok id) →
  contracts st !! id = None →
  cstore_wf st' ∧ ∃ c, st' = put id c st ∧ ac_State c = Proposed ∧ ac_FundedAmount c = 0.
Proof.
  intros Hst Hcr Hfresh. unfold CreateAvailabilityContract in Hcr.
  case_decide as Hargs; [done|]. case_decide as Hpos; [done|].
  destruct (resolver st) as [f|] eqn:Hres; [|done].
  destruct (f prov file) as [n|] eqn:Hf; [|done]. case_decide as Hn; [done|].
  destruct rnd as [rid|]; [|done]. injection Hcr as <- <-.
  split; [|by eexists]. destruct Hst as [Hc Hch Ha He Hr]. split; simpl; try done.
  - apply map_Forall_insert_2; [|done]. split; simpl; try done.
    + split_and!; [done|tauto..].
    + split; [lia|by eapply Hr].
    + lia.
    + constructor.
  - intros x j Hx. destruct (Hch _ _ Hx) as (cx & Hcx & Hin). exists cx.
    rewrite lookup_insert_ne; [done|]. congruence.
Qed.

Lemma Create_err pub prov file a d rnd now st st' e :
  CreateAvailabilityContract pub prov file a d rnd now st = (st', Err e) → st' = st.
Proof. unfold CreateAvailabilityContract. repeat case_match; congruence. Qed.

(** ** Challenging *)

Lemma transition_to_active : transition_all Agreed [Transferring; Ready; Active] = (Active, None).
Proof. reflexivity. Qed.

Lemma GenerateNextChallenge_mono c p f id k r rnd now es j :
  is_Some (epochs es !! j) → is_Some (epochs (GenerateNextChallenge c p f id k r rnd now es).1 !! j).
Proof.
  intros Hj. unfold GenerateNextChallenge. repeat (case_match; try done); simpl;
    match goal with H : SelectUncoveredChunk ?i ?h _ = _ |- _ => unfold SelectUncoveredChunk in H;
      repeat (case_match; simplify_eq; try done) end; simpl; apply lookup_insert_is_Some';
    auto.
Qed.

Lemma CreateEpoch_mono p f n rnd now es j :
  is_Some (epochs es !! j) → is_Some (epochs (CreateEpoch p f n rnd now es).1 !! j).
Proof.
  intros Hj. unfold CreateEpoch. repeat (case_match; simplify_eq/=; try done);
    rewrite ?lookup_insert_is_Some'; auto.
Qed.

Lemma CreateChallenge_mono c p f n r rnd rnd' now es j :
  is_Some (epochs es !! j) → is_Some (epochs (CreateChallenge c p f n r rnd rnd' now es).1 !! j).
Proof.
  intros Hj. unfold CreateChallenge. case_decide; [done|].
  pose proof (CreateEpoch_mono p f n rnd now es j Hj) as H1.
  destruct (CreateEpoch _ _ _ _ _ _) as [es1 [id|e]]; [|done].
  by apply GenerateNextChallenge_mono.
Qed.

Lemma epoch_step_mono es es' j :
  epoch_step es es' → is_Some (epochs es !! j) → is_Some (epochs es' !! j).
Proof.
  destruct 1; auto using CreateEpoch_mono, GenerateNextChallenge_mono, CreateChallenge_mono; intros Hj.
  - unfold SelectUncoveredChunk. repeat (case_match; simplify_eq/=; try done).
    rewrite lookup_insert_is_Some'; auto.
  - unfold StartNextEpoch. repeat (case_match; try done). by apply CreateEpoch_mono.
Qed.

(** A generated challenge names the contract and an epoch that exists. *)
Lemma GenerateNextChallenge_epoch c p f id k r rnd now es es' ch :
  GenerateNextChallenge c p f id k r rnd now es = (es', Ok ch) →
  ch_ContractID ch = c ∧ ch_ProviderID ch = p ∧ ch_FileID ch = f ∧
  ch_EpochID ch ≠ ""%string ∧ is_Some (epochs es' !! ch_EpochID ch).
Proof.
  intros H. pose proof (GenerateNextChallenge_mono c p f id k r rnd now es id) as Hm.
  rewrite H in Hm. apply GenerateNextChallenge_Ok in H as (e & nonce & He & ?).
  destruct_and!. simplify_eq/=. rewrite He in Hm. split_and!; eauto.
Qed.

Lemma generate_challenge_spec id c tracked rndE rndN now es :
  is_i64 (ac_TotalChunks c) → store_wf es →
  let r := generate_challenge id c tracked rndE rndN now es in
  store_wf r.1 ∧ (∀ j, is_Some (epochs es !! j) → is_Some (epochs r.1 !! j)) ∧
  ∀ ch, r.2 = Ok ch → ch_ContractID ch = id ∧ ch_ProviderID ch = ac_ProviderID c ∧
    ch_FileID ch = ac_FileID c ∧ ch_EpochID ch ≠ ""%string ∧ is_Some (epochs r.1 !! ch_EpochID ch).
Proof.
  intros Hn Hes. unfold generate_challenge.
  assert (Hcreate : ∀ k, let '(es', g) := CreateChallenge id (ac_ProviderID c) (ac_FileID c)
      (ac_TotalChunks c) k rndE rndN now es in
    store_wf es' ∧ (∀ j, is_Some (epochs es !! j) → is_Some (epochs es' !! j)) ∧
    ∀ ch, g = Ok ch → ch_ContractID ch = id ∧ ch_ProviderID ch = ac_ProviderID c ∧
      ch_FileID ch = ac_FileID c ∧ ch_EpochID ch ≠ ""%string ∧
      is_Some (epochs es' !! ch_EpochID ch)).
  { intros k. destruct (CreateChallenge _ _ _ _ _ _ _ _ _) as [es' g] eqn:E.
    split_and!.
    - change es' with (es', g).1. rewrite <- E. by apply CreateChallenge_wf.
    - intros j Hj. change es' with (es', g).1. rewrite <- E. by apply CreateChallenge_mono.
    - intros ch ->. unfold CreateChallenge in E. case_decide; [done|].
      destruct (CreateEpoch _ _ _ _ _ _) as [es1 [eid|]]; [|done].
      by eapply GenerateNextChallenge_epoch. }
  destruct tracked as [ae|].
  - destruct (GetEpochState (ae_id ae) es) as [s|e]; [|done]. case_decide.
    + destruct (GenerateNextChallenge _ _ _ _ _ _ _ _ _) as [es' g] eqn:E. simpl. split_and!.
      * change es' with (es', g).1. rewrite <- E. by apply GenerateNextChallenge_wf.
      * intros j Hj. change es' with (es', g).1. rewrite <- E. by apply GenerateNextChallenge_mono.
      * intros ch Hg. destruct g; [|done]. injection Hg as ->. by eapply GenerateNextChallenge_epoch.
    + specialize (Hcreate (u64 (es_RoundNumber s + 1))). destruct (CreateChallenge _ _ _ _ _ _ _ _ _) as [es' g].
      destruct Hcreate as (H1 & H2 & H3). split_and!; [done..|].
      intros ch Hg. destruct g; [|done]. injection Hg as ->. by apply H3.
  - specialize (Hcreate 0). destruct (CreateChallenge _ _ _ _ _ _ _ _ _) as [es' g].
    destruct Hcreate as (H1 & H2 & H3). split_and!; [done..|].
    intros ch Hg. destruct g; [|done]. injection Hg as ->. by apply H3.
Qed.

(** No record is removed and each one evolves. *)
Definition all_evolve (st st' : ContractStore) : Prop :=
  ∀ j c, contracts st !! j = Some c → ∃ c', contracts st' !! j = Some c' ∧ evolves c c'.

#[global] Instance all_evolve_refl : Reflexive all_evolve.
Proof. intros st j c Hc. exists c. split; [done|reflexivity]. Qed.
#[global] Instance all_evolve_trans : Transitive all_evolve.
Proof.
  intros s1 s2 s3 H1 H2 j c (c2 & (c3 & ? & ?)%H2 & ?)%H1. exists c3. split; [done|]. by etrans.
Qed.

Lemma put_evolves st id c c' :
  contracts st !! id = Some c → evolves c c' → all_evolve st (put id c' st).
Proof.
  intros Hc Hev j x Hj. simpl. destruct (decide (id = j)) as [<-|].
  - rewrite lookup_insert_eq. simplify_eq. eauto.
  - rewrite lookup_insert_ne by done. exists x. split; [done|reflexivity].
Qed.

Lemma updates_evolve st st' : updates st st' → all_evolve st st'.
Proof. destruct 1; [reflexivity|by eapply put_evolves]. Qed.

Lemma Expire_updates id c st :
  cstore_wf st → contracts st !! id = Some c →
  (ac_State c = Agreed ∨ ac_State c = Active) → updates st (put id (set_State Expired c) st).
Proof.
  intros Hst Hc Hs. pose proof (cs_contracts _ Hst _ _ Hc) as Hwf. apply (upd_put _ _ c); [done| |].
  - split; simpl; auto. apply rtc_once. destruct Hs as [-> | ->]; [by right|left; constructor].
  - wf_field Hwf; [|intros [|]; done]. unfold funding_ok in *. by destruct Hs as [Hs|Hs]; rewrite Hs in *.
Qed.

Lemma with_epochs_wf es st :
  cstore_wf st → store_wf es →
  (∀ j, is_Some (epochs (epochStore st) !! j) → is_Some (epochs es !! j)) →
  cstore_wf (with_epochs es st).
Proof. intros [Hc Hch Ha He Hr] Hes Hm. split; simpl; try done. intros id ae [? ?]%Ha. auto. Qed.

Lemma not_guard (s : ContractState) (f p : Z) :
  ¬ ((s ≠ Agreed ∧ s ≠ Active) ∨ f ≠ p) → (s = Agreed ∨ s = Active) ∧ f = p.
Proof. intros H. destruct (decide (s = Agreed)), (decide (s = Active)), (decide (f = p)); tauto. Qed.

(** The whole effect of an accepted initiation. *)
Definition challenged (id : string) (ch : Challenge) (c : AvailabilityContract) : AvailabilityContract :=
  set_Challenges (ac_Challenges c ++ [ch_ChallengeID ch]) (set_State Active c).

Lemma Initiate_Ok id rndE rndN now st st' ch :
  InitiateAvailabilityChallenge id rndE rndN now st = (st', Ok ch) →
  ∃ c es', contracts st !! id = Some c ∧ (ac_State c = Agreed ∨ ac_State c = Active) ∧
    ac_FundedAmount c = ac_PaymentAmount c ∧ now < ac_EndsAt c ∧
    generate_challenge id c (activeEpochs st !! id) rndE rndN now (epochStore st) = (es', Ok ch) ∧
    st' = {| contracts := <[id := challenged id ch c]> (contracts st);
             challenges := <[ch_ChallengeID ch := id]> (challenges st);
             activeEpochs := <[id := {| ae_id := ch_EpochID ch;
                                        ae_endAfterCurrent := ch_TriggerStatus ch |}]> (activeEpochs st);
             resolver := resolver st; epochStore := es' |}.
Proof.
  unfold InitiateAvailabilityChallenge. destruct (contracts st !! id) as [c|] eqn:Hid; [|done].
  case_decide as Hg; [done|]. apply not_guard in Hg as [Hs Hf]. case_decide as Hexp; [done|].
  destruct (generate_challenge _ _ _ _ _ _ _) as [es' [g|e]] eqn:Hgen; [|done].
  intros H. exists c, es'. destruct Hs as [Hs|Hs]; rewrite Hs in H; simpl in H;
    injection H as <- <-; split_and!; auto; f_equal; by rewrite <- Hs.
Qed.

Lemma Initiate_Ok_wf id rndE rndN now st st' ch :
  cstore_wf st → InitiateAvailabilityChallenge id rndE rndN now st = (st', Ok ch) →
  cstore_wf st' ∧ all_evolve st st'.
Proof.
  intros Hst (c & es' & Hid & Hs & Hf & Hnow & Hgen & ->)%Initiate_Ok.
  pose proof (cs_contracts _ Hst _ _ Hid) as Hwf.
  destruct (generate_challenge_spec id c (activeEpochs st !! id) rndE rndN now (epochStore st))
    as (Hes & Hm & Hok); [apply Hwf|apply Hst|]. rewrite Hgen in *; simpl in *.
  destruct (Hok ch eq_refl) as (_ & _ & _ & Hne & Hex).
  assert (Hev : evolves c (challenged id ch c)).
  { split; simpl; auto; [by apply prefix_app_r|].
    destruct Hs as [-> | ->]; [|reflexivity].
    eapply rtc_l; [left; apply step_transfer|]. eapply rtc_l; [left; apply step_ready|].
    apply rtc_once. left; apply step_activate. }
  split; [|by apply (put_evolves st id c)]. destruct Hst as [Hc Hch Ha He Hr]. split; simpl; try done.
  - apply map_Forall_insert_2; [|done]. wf_field Hwf; [set_solver|by intros [|]].
  - intros x j [[<- <-]|[_ Hx]]%lookup_insert_Some.
    + rewrite lookup_insert_eq. eexists; split; [done|]. simpl. set_solver.
    + destruct (Hch _ _ Hx) as (cx & Hcx & Hin). destruct (decide (id = j)) as [<-|].
      * rewrite lookup_insert_eq. eexists; split; [done|]. simplify_eq/=. set_solver.
      * rewrite lookup_insert_ne by done. eauto.
  - intros j ae [[<- <-]|[_ Hj]]%lookup_insert_Some; [done|].
    destruct (Ha _ _ Hj) as [? ?]. auto.
Qed.

Lemma Initiate_Err_wf id rndE rndN now st st' e :
  cstore_wf st → InitiateAvailabilityChallenge id rndE rndN now st = (st', Err e) →
  cstore_wf st' ∧ all_evolve st st'.
Proof.
  intros Hst. unfold InitiateAvailabilityChallenge.
  destruct (contracts st !! id) as [c|] eqn:Hid; [|by intros [= <- _]].
  case_decide as Hg; [by intros [= <- _]|]. apply not_guard in Hg as [Hs Hf]. case_decide as Hexp.
  { intros [= <- _]. pose proof (Expire_updates id c st Hst Hid Hs) as Hu.
    split; [by eapply updates_wf|by apply updates_evolve]. }
  pose proof (cs_contracts _ Hst _ _ Hid) as Hwf.
  destruct (generate_challenge_spec id c (activeEpochs st !! id) rndE rndN now (epochStore st))
    as (Hes & Hm & _); [apply Hwf|apply Hst|].
  destruct (generate_challenge _ _ _ _ _ _ _) as [es' [g|er]]; simpl in *.
  - by destruct Hs as [-> | ->].
  - intros [= <- _]. split; [by apply with_epochs_wf|]. intros j x Hj. exists x. split; [done|reflexivity].
Qed.

(** ** Reachable stores *)

(** One call of the package's API, or of the challenge package's own API on the
    shared epoch store.  A contract identifier is 128 random bits; a run in
    which [CreateAvailabilityContract] draws an identifier that is in use is
    excluded. *)
Inductive contract_step : ContractStore → ContractStore → Prop :=
| cs_configure r st :
    (∀ f p x n, r = Some f → f p x = Ok n → is_i64 n) →
    contract_step st (ConfigureChunkCountResolver r st).1
| cs_create pub prov file a d rnd now st :
    (∀ rid, rnd = Ok rid → contracts st !! ("contract-" +:+ EncodeToString rid) = None) →
    contract_step st (CreateAvailabilityContract pub prov file a d rnd now st).1
| cs_fund id a st : contract_step st (FundAvailabilityContract id a st).1
| cs_initiate id rndE rndN now st :
    contract_step st (InitiateAvailabilityChallenge id rndE rndN now st).1
| cs_record id x r now st : contract_step st (RecordAvailabilityResult id x r now st).1
| cs_settle id now fin st : contract_step st (SettleAvailabilityContract id now fin st).1
| cs_terminate id now st : contract_step st (TerminateAvailabilityContract id now st).1
| cs_epoch es st : epoch_step (epochStore st) es → contract_step st (with_epochs es st).

Lemma contract_step_wf st st' :
  contract_step st st' → cstore_wf st → cstore_wf st' ∧ all_evolve st st'.
Proof.
  intros Hstep Hst. destruct Hstep.
  - destruct r as [f|]; simpl; [|done]. destruct Hst. split; [split; simpl; try done; naive_solver|].
    intros j x Hj. exists x. split; [done|reflexivity].
  - destruct (CreateAvailabilityContract _ _ _ _ _ _ _ _) as [st' [id|e]] eqn:E; simpl.
    + assert (Hf : contracts st !! id = None).
      { pose proof E as E'. unfold CreateAvailabilityContract in E'.
        repeat case_match; simplify_eq/=. by apply H. }
      destruct (Create_wf _ _ _ _ _ _ _ _ _ _ Hst E Hf) as [Hwf (c & -> & _)].
      split; [done|]. intros j x Hj. simpl. exists x. split; [|reflexivity].
      rewrite lookup_insert_ne; [done|]. congruence.
    + apply Create_err in E as ->. done.
  - pose proof (Fund_updates id a st Hst). eauto using updates_wf, updates_evolve.
  - destruct (InitiateAvailabilityChallenge _ _ _ _ _) as [st' [ch|e]] eqn:E; simpl;
      [by eapply Initiate_Ok_wf|by eapply Initiate_Err_wf].
  - pose proof (Record_updates id x r now st Hst). eauto using updates_wf, updates_evolve.
  - pose proof (Settle_updates id now fin st Hst). eauto using updates_wf, updates_evolve.
  - pose proof (Terminate_updates id now st Hst). eauto using updates_wf, updates_evolve.
  - split; [|intros j x Hj; exists x; split; [done|reflexivity]].
    apply with_epochs_wf; [done|eapply epoch_step_wf; [done|apply Hst]|].
    intros j. by apply epoch_step_mono.
Qed.

Lemma empty_contracts_wf : cstore_wf empty_contracts.
Proof. by split. Qed.

Lemma contract_steps_wf st st' :
  rtc contract_step st st' → cstore_wf st → cstore_wf st' ∧ all_evolve st st'.
Proof.
  induction 1 as [|x y z Hxy _ IH]; intros Hx; [by split|].
  destruct (contract_step_wf _ _ Hxy Hx) as [Hy H1]. destruct (IH Hy) as [Hz H2].
  split; [done|by etrans].
Qed.

Lemma reachable_wf st : rtc contract_step empty_contracts st → cstore_wf st.
Proof. intros H. apply (contract_steps_wf _ _ H empty_contracts_wf). Qed.

(** ** Challenge generation cannot get stuck *)

Lemma GenerateNextChallenge_succeeds c p f id r rid now es e :
  c ≠ ""%string → p ≠ ""%string → f ≠ ""%string → id ≠ ""%string →
  epochs es !! id = Some e → ep_Status e = EpochActive → ep_Uncovered e ≠ [] →
  ∃ es' ch, GenerateNextChallenge c p f id (ep_ChallengeCounter e) r (Ok rid) now es = (es', Ok ch).
Proof.
  intros Hc Hp Hf Hid He Ha Hu. unfold GenerateNextChallenge, GetEpochState, GenerateNonce.
  rewrite decide_False by tauto. rewrite !(decide_False (P := id = _)) by done. rewrite He. simpl.
  rewrite decide_False by tauto.
  destruct (SelectUncoveredChunk_succeeds id
    (GenerateChunkHash p f id (ep_ChallengeCounter e) rid) es e) as (es' & x & ->); [done| |eauto..].
  intros H0. apply (f_equal length) in H0. unfold GenerateChunkHash in H0.
  by rewrite length_sha256 in H0.
Qed.

Lemma CreateChallenge_succeeds c p f n r rid rid' now es :
  c ≠ ""%string → p ≠ ""%string → f ≠ ""%string → 0 < n →
  ∃ es' ch, CreateChallenge c p f n r (Ok rid) (Ok rid') now es = (es', Ok ch).
Proof.
  intros Hc Hp Hf Hn. unfold CreateChallenge. rewrite decide_False by tauto.
  destruct (CreateEpoch p f n (Ok rid) now es) as [es1 [id|er]] eqn:E.
  - apply CreateEpoch_Ok in E as (Hid & _ & e & He & Ha & Hu & _ & Hk & _).
    rewrite <- Hk. apply GenerateNextChallenge_succeeds; try done. rewrite Hu.
    rewrite seqZ_cons by done. done.
  - unfold CreateEpoch in E. rewrite !decide_False in E by (lia || tauto).
    repeat case_match; discriminate.
Qed.

Lemma generate_challenge_succeeds id c tracked rid rid' now es :
  contract_wf id c →
  (∀ ae, tracked = Some ae → ae_id ae ≠ ""%string ∧ is_Some (epochs es !! ae_id ae)) →
  ∃ es' ch, generate_challenge id c tracked (Ok rid) (Ok rid') now es = (es', Ok ch).
Proof.
  intros [_ (Hid & Hp & Hf) [Hn _] _ _ _ _ _ _] Htr. unfold generate_challenge.
  pose proof (λ r, CreateChallenge_succeeds id _ _ _ r rid rid' now es Hid Hp Hf Hn) as Hcr.
  destruct tracked as [ae|]; [|by destruct (Hcr 0) as (es' & ch & ->); eauto].
  destruct (Htr ae eq_refl) as [Hae [e He]]. unfold GetEpochState.
  rewrite decide_False, He by done. cbn [es_EpochStatus es_UncoveredChunkCount es_ChallengeCounter
    es_RoundNumber]. case_decide as Hd.
  - destruct Hd as (Ha & Hu & _).
    destruct (GenerateNextChallenge_succeeds id (ac_ProviderID c) (ac_FileID c) (ae_id ae)
      (ep_RoundNumber e) rid' now es e) as (es' & ch & ->); try done; [|eauto].
    intros H0. rewrite H0 in Hu. done.
  - destruct (Hcr (u64 (ep_RoundNumber e + 1))) as (es' & ch & ->). eauto.
Qed.

(** ** A concrete run, for the witnesses below *)

Definition wit_id : string := "contract-01".
Definition wit_c1 : ContractStore :=
  (CreateAvailabilityContract "pub" "prov" "file" 100 10 (Ok [x01]) 0
     (ConfigureChunkCountResolver (Some (λ _ _, Ok 2)) empty_contracts).1).1.
Definition wit_c2 : ContractStore := (FundAvailabilityContract wit_id 100 wit_c1).1.
Definition wit_c3 : ContractStore :=
  (InitiateAvailabilityChallenge wit_id (wit_rnd 7) (wit_rnd 9) 1 wit_c2).1.
Definition wit_challenge : string :=
  challengeID wit_id ("epoch-" +:+ EncodeToString (replicate 16 (byte_of_Z 7))) 0
    (replicate 16 (byte_of_Z 9)).
Definition wit_c4 : ContractStore :=
  (RecordAvailabilityResult wit_id wit_challenge
     {| cr_ChallengeID := ""; cr_Succeeded := true; cr_RecordedAt := 0 |} 2 wit_c3).1.

Lemma wit_c2_reachable : rtc contract_step empty_contracts wit_c2.
Proof.
  eapply rtc_l; [apply (cs_configure (Some (λ _ _, Ok 2)))|].
  { intros f p x n [= <-] [= <-]. unfold is_i64. lia. }
  eapply rtc_l; [apply (cs_create "pub" "prov" "file" 100 10 (Ok [x01]) 0)|].
  { intros rid [= <-]. reflexivity. }
  apply rtc_once, cs_fund.
Qed.

Lemma wit_c3_reachable : rtc contract_step empty_contracts wit_c3.
Proof. eapply rtc_r; [apply wit_c2_reachable|apply cs_initiate]. Qed.

Lemma wit_c4_reachable : rtc contract_step empty_contracts wit_c4.
Proof. eapply rtc_r; [apply wit_c3_reachable|apply cs_record]. Qed.

Lemma wit_c4_contract :
  ∃ c, contracts wit_c4 !! wit_id = Some c ∧
    (ac_State c, ac_EndsAt c, ac_PaymentAmount c, zlen (ac_Results c)) = (Active, 10, 100, 1).
Proof. apply fmap_lookup_Some. vm_compute. reflexivity. Qed.

(** ** Properties *)

(** C11: In every store the package can reach: the locked amount is zero before
    funding and exactly the agreed payment while the contract is agreed,
    active, completed or expired; no challenge has two recorded results; every
    recorded result answers a challenge issued for that contract; and the
    standardized results are the recorded ones, in order, numbered from 1. *)
Theorem contract_store_invariant st id c :
  rtc contract_step empty_contracts st → contracts st !! id = Some c →
  funding_ok c ∧ 0 < ac_PaymentAmount c ∧ NoDup (result_ids c) ∧
  (∀ x, x ∈ result_ids c → x ∈ ac_Challenges c) ∧
  ac_AvailabilityResults c = imap (standard_result c) (ac_Results c).
Proof. intros Hr Hc. by destruct (cs_contracts _ (reachable_wf _ Hr) _ _ Hc). Qed.

Lemma contract_store_invariant_witness :
  ∃ c, contracts wit_c4 !! wit_id = Some c ∧ zlen (ac_Results c) = 1 ∧ NoDup (result_ids c).
Proof.
  destruct wit_c4_contract as (c & Hc & Hv). injection Hv as _ _ _ Hl. exists c.
  destruct (contract_store_invariant wit_c4 wit_id c wit_c4_reachable Hc) as (_ & _ & Hn & _).
  auto.
Defined.

(** C12: Along every run the agreed terms of a contract never change, its
    challenge and result histories only grow, its funds are locked at most
    once, and a contract in a terminal state stays in that state. *)
Theorem contract_history st st' id c :
  rtc contract_step empty_contracts st → rtc contract_step st st' →
  contracts st !! id = Some c →
  ∃ c', contracts st' !! id = Some c' ∧
    ac_PaymentAmount c' = ac_PaymentAmount c ∧ ac_ProviderID c' = ac_ProviderID c ∧
    ac_FileID c' = ac_FileID c ∧ ac_EndsAt c' = ac_EndsAt c ∧
    ac_Challenges c `prefix_of` ac_Challenges c' ∧
    ac_AvailabilityResults c `prefix_of` ac_AvailabilityResults c' ∧
    (ac_State c ≠ Proposed → ac_FundedAmount c' = ac_FundedAmount c) ∧
    (IsTerminal (ac_State c) = true → ac_State c' = ac_State c).
Proof.
  intros Hr Hrun Hc. destruct (contract_steps_wf _ _ Hrun (reachable_wf _ Hr)) as [_ Hev].
  destruct (Hev _ _ Hc) as (c' & Hc' & [HT HC HR HS HF HP]). simplify_eq.
  exists c'. split_and!; try done.
  - intros Hs. destruct HF as [|[? _]]; done.
  - by apply state_steps_terminal.
Qed.

Lemma contract_history_witness :
  ∃ c', contracts (TerminateAvailabilityContract wit_id 3 wit_c4).1 !! wit_id = Some c' ∧
    ac_PaymentAmount c' = 100.
Proof.
  destruct wit_c4_contract as (c & Hc & Hv). injection Hv as _ _ Hp _.
  destruct (contract_history wit_c4 (TerminateAvailabilityContract wit_id 3 wit_c4).1 wit_id c
    wit_c4_reachable (rtc_once _ _ (cs_terminate _ _ _)) Hc) as (c' & Hc' & Hp' & _).
  exists c'. split; [exact Hc'|congruence].
Defined.

(** A funded contract can always be challenged before it ends: with working
    randomness [InitiateAvailabilityChallenge] succeeds, whatever epochs it
    has been through, leaves the contract [Active], appends the new challenge
    and makes the contract its owner. *)
Theorem Initiate_live st id c rid rid' now :
  rtc contract_step empty_contracts st → contracts st !! id = Some c →
  ac_State c = Agreed ∨ ac_State c = Active → now < ac_EndsAt c →
  ∃ st' ch c', InitiateAvailabilityChallenge id (Ok rid) (Ok rid') now st = (st', Ok ch) ∧
    contracts st' !! id = Some c' ∧ ac_State c' = Active ∧
    ac_Challenges c' = ac_Challenges c ++ [ch_ChallengeID ch] ∧
    challenges st' !! ch_ChallengeID ch = Some id ∧
    ch_ContractID ch = id ∧ ch_ProviderID ch = ac_ProviderID c ∧ ch_FileID ch = ac_FileID c.
Proof.
  intros Hr%reachable_wf Hc Hs Hnow. pose proof (cs_contracts _ Hr _ _ Hc) as Hwf.
  destruct (generate_challenge_succeeds id c (activeEpochs st !! id) rid rid' now (epochStore st))
    as (es' & ch & Hg); [done|intros ae; apply Hr|].
  destruct (InitiateAvailabilityChallenge id (Ok rid) (Ok rid') now st) as [st' [ch'|e]] eqn:E.
  - apply Initiate_Ok in E as (c1 & es1 & Hc1 & _ & _ & _ & Hg1 & ->).
    assert (c1 = c) as -> by congruence. rewrite Hg in Hg1. injection Hg1 as <- <-.
    destruct (generate_challenge_spec id c (activeEpochs st !! id) (Ok rid) (Ok rid') now (epochStore st))
      as (_ & _ & Hok); [apply Hwf|apply Hr|]. rewrite Hg in Hok.
    destruct (Hok _ eq_refl) as (H1 & H2 & H3 & _).
    eexists _, ch, _. split; [reflexivity|]. simpl. rewrite !lookup_insert_eq. split_and!; done.
  - exfalso. unfold InitiateAvailabilityChallenge in E. rewrite Hc in E.
    pose proof (cw_funding _ _ Hwf) as Hf. unfold funding_ok in Hf.
    rewrite decide_False in E by (destruct Hs as [Hs|Hs]; rewrite Hs in *; tauto).
    rewrite decide_False in E by tauto. rewrite Hg in E. by destruct Hs as [Hs|Hs]; rewrite Hs in E.
Qed.

Lemma Initiate_live_witness :
  ∃ st' ch, InitiateAvailabilityChallenge wit_id (wit_rnd 1) (wit_rnd 2) 5 wit_c4 = (st', Ok ch) ∧
    challenges st' !! ch_ChallengeID ch = Some wit_id.
Proof.
  destruct wit_c4_contract as (c & Hc & Hv). injection Hv as Hs He _ _.
  destruct (Initiate_live wit_c4 wit_id c (replicate 16 (byte_of_Z 1)) (replicate 16 (byte_of_Z 2)) 5
    wit_c4_reachable Hc (or_intror Hs) ltac:(rewrite He; lia)) as (st' & ch & c' & H1 & _ & _ & _ & H2 & _).
  exists st', ch. auto.
Defined.

(** An accepted result is appended exactly once: the outcome history grows
    by that verdict under the next period number, it becomes the latest
    result handed to the payment module, and recording the same challenge
    again is refused without changing the store. *)
Theorem RecordAvailabilityResult_once st st' id x r now s :
  rtc contract_step empty_contracts st →
  RecordAvailabilityResult id x r now st = (st', Ok s) →
  s = Active ∧
  (∃ c c', contracts st !! id = Some c ∧ contracts st' !! id = Some c' ∧
     ac_Results c' = ac_Results c ++
       [{| cr_ChallengeID := x; cr_Succeeded := cr_Succeeded r; cr_RecordedAt := now |}] ∧
     GetLatestAvailabilityResult id st' = Ok
       {| ar_ContractID := id; ar_ProviderID := ac_ProviderID c;
          ar_Period := u64 (zlen (ac_Results c) + 1); ar_ChallengeID := x;
          ar_Result := if cr_Succeeded r then AvailabilityPass else AvailabilityFail;
          ar_Timestamp := now |}) ∧
  ∀ r' now', ∃ e, RecordAvailabilityResult id x r' now' st' = (st', Err e).
Proof.
  intros Hr%reachable_wf H. unfold RecordAvailabilityResult in H.
  destruct (contracts st !! id) as [c|] eqn:Hc; [|done].
  case_decide as Hs; [done|]. case_decide as Ho; [done|]. case_decide as Hm; [done|].
  case_decide as Hx; [done|]. simpl in H. injection H as <- <-. split; [done|]. split.
  - eexists c, _. simpl. rewrite lookup_insert_eq. split_and!; [done..|].
    unfold GetLatestAvailabilityResult. simpl. rewrite lookup_insert_eq. simpl.
    rewrite last_snoc. unfold zlen.
    rewrite (cw_results _ _ (cs_contracts _ Hr _ _ Hc)), length_imap. done.
  - intros r' now'. unfold RecordAvailabilityResult. simpl. rewrite lookup_insert_eq. simpl.
    do 3 (case_decide; [by eexists|]). rewrite decide_True; [by eexists|].
    apply Exists_app. right. by constructor.
Qed.

Lemma RecordAvailabilityResult_once_witness :
  ∃ s e, (RecordAvailabilityResult wit_id wit_challenge
            {| cr_ChallengeID := ""; cr_Succeeded := true; cr_RecordedAt := 0 |} 2 wit_c3).2 = Ok s ∧
    RecordAvailabilityResult wit_id wit_challenge
      {| cr_ChallengeID := ""; cr_Succeeded := false; cr_RecordedAt := 0 |} 4 wit_c4 = (wit_c4, Err e).
Proof.
  unfold wit_c4. destruct (RecordAvailabilityResult wit_id wit_challenge
    {| cr_ChallengeID := ""; cr_Succeeded := true; cr_RecordedAt := 0 |} 2 wit_c3)
    as [st' [s|e]] eqn:E; [|refute_err E].
  destruct (RecordAvailabilityResult_once _ _ _ _ _ _ _ wit_c3_reachable E) as (_ & _ & H).
  destruct (H {| cr_ChallengeID := ""; cr_Succeeded := false; cr_RecordedAt := 0 |} 4) as [e He].
  exists s, e. auto.
Defined.

(** C33: Verifying and recording a response in one call stores [PASS] exactly
    when the response satisfies the specification of the verifier, and
    [FAIL] otherwise; the outcome returned to the caller is the stored one. *)
Theorem VerifyAndRecord_correct {ED : Ed25519} st st' id ch resp root pk timeout t1 t2 cr s :
  VerifyAndRecordChallengeResponse id ch resp root pk timeout t1 t2 st = (st', cr, Ok s) →
  (cr_Succeeded cr = true ↔ response_valid ch resp root pk timeout) ∧
  ∃ a, GetLatestAvailabilityResult id st' = Ok a ∧ ar_ChallengeID a = ch_ChallengeID ch ∧
    (ar_Result a = AvailabilityPass ↔ response_valid ch resp root pk timeout) ∧
    (ar_Result a = AvailabilityFail ↔ ¬ response_valid ch resp root pk timeout).
Proof.
  unfold VerifyAndRecordChallengeResponse. intros H.
  destruct (RecordAvailabilityResult _ _ _ _ _) as [st1 r1] eqn:E. injection H as <- <- ->.
  assert (Hv : cr_Succeeded (BuildChallengeResult ch resp root pk timeout t1) = true ↔
               response_valid ch resp root pk timeout) by apply BuildChallengeResult_succeeded.
  split; [done|]. unfold RecordAvailabilityResult in E.
  destruct (contracts st !! id) as [c|] eqn:Hc; [|done]. do 4 (case_decide; [done|]).
  cbn [cr_Succeeded] in E. injection E as <- _.
  unfold BuildChallengeResult in Hv. cbn [cr_Succeeded] in Hv.
  unfold GetLatestAvailabilityResult. simpl. rewrite lookup_insert_eq. simpl. rewrite last_snoc.
  eexists. split; [done|]. split; [done|]. cbn [ar_Result]. rewrite <- Hv.
  assert (AvailabilityPass ≠ AvailabilityFail) by discriminate.
  destruct (is_ok _); naive_solver.
Qed.

Definition wit_response : ChallengeResponse :=
  {| rs_ChallengeID := ""; rs_ContractID := ""; rs_ProviderID := ""; rs_FileID := "";
     rs_ChunkID := 0; rs_ChunkHash := []; rs_MerkleProof := []; rs_Signature := [];
     rs_RespondedAt := 0 |}.
Definition wit_issued : Challenge :=
  {| ch_ChallengeID := wit_challenge; ch_ContractID := wit_id; ch_ProviderID := "prov";
     ch_FileID := "file"; ch_EpochID := "e"; ch_ChunkID := 0; ch_Nonce := [];
     ch_ChallengeCounter := 0; ch_RoundNumber := 0; ch_TriggerStatus := false; ch_CreatedAt := 0 |}.

Lemma VerifyAndRecord_correct_witness :
  ∃ st' cr s, VerifyAndRecordChallengeResponse wit_id wit_issued wit_response [] [] 5 1 2 wit_c3
                = (st', cr, Ok s) ∧
    (cr_Succeeded cr = true ↔ response_valid wit_issued wit_response [] [] 5).
Proof.
  destruct (VerifyAndRecordChallengeResponse wit_id wit_issued wit_response [] [] 5 1 2 wit_c3)
    as [[st' cr] [s|e]] eqn:E; [|refute_err E].
  exists st', cr, s. split; [done|]. apply (VerifyAndRecord_correct _ _ _ _ _ _ _ _ _ _ _ _ E).
Defined.

(** Settling an active contract with at least one result, while the product
    of the funds and the number of results fits in an [int64], succeeds: it
    releases the fair share, keeps the rest, records the finalization time,
    and ends the contract as [Completed] before its end and [Expired] after. *)
Theorem SettleAvailabilityContract_active st id c now fin :
  rtc contract_step empty_contracts st → contracts st !! id = Some c →
  ac_State c = Active → ac_Results c ≠ [] →
  ac_PaymentAmount c * zlen (ac_Results c) < 2 ^ 63 →
  ∃ st' status c', SettleAvailabilityContract id now fin st = (st', Ok status) ∧
    contracts st' !! id = Some c' ∧
    ac_State c' = (if decide (now < ac_EndsAt c) then Completed else Expired) ∧
    ss_ReleasedAmount (ac_Settlement c') = fair_share (ac_PaymentAmount c) (ac_Results c) ∧
    ss_ReleasedAmount (ac_Settlement c') + ss_WithheldAmount (ac_Settlement c') = ac_PaymentAmount c ∧
    ss_FinalizedAt (ac_Settlement c') = fin ∧
    (status = SettlementCompleted ↔ Forall (λ r, cr_Succeeded r = true) (ac_Results c)).
Proof.
  intros Hr%reachable_wf Hc Hs Hne Hov. pose proof (cs_contracts _ Hr _ _ Hc) as Hwf.
  assert (Hf : ac_FundedAmount c = ac_PaymentAmount c).
  { pose proof (cw_funding _ _ Hwf) as H. unfold funding_ok in H. by rewrite Hs in H. }
  destruct (CalculateSettlement_spec (ac_PaymentAmount c) (ac_Results c))
    as (ss & Hss & Hrel & _ & Hsum & _ & Hst); [apply Hwf|done..|].
  unfold SettleAvailabilityContract. rewrite Hc, decide_False by tauto.
  rewrite decide_False by (destruct (ac_Results c); unfold zlen; simpl; [done|lia]).
  rewrite Hf, Hss. cbn [ac_State set_Settlement ac_EndsAt]. rewrite Hs.
  destruct (decide (now < ac_EndsAt c)); [rewrite decide_False by tauto|rewrite decide_True by done];
    (eexists _, _, _; split; [reflexivity|]; simpl; rewrite lookup_insert_eq; split_and!; done).
Qed.

Lemma SettleAvailabilityContract_active_witness :
  ∃ st' status, SettleAvailabilityContract wit_id 5 6 wit_c4 = (st', Ok status).
Proof.
  destruct wit_c4_contract as (c & Hc & Hv). injection Hv as Hs He Hp Hl.
  destruct (SettleAvailabilityContract_active wit_c4 wit_id c 5 6 wit_c4_reachable Hc Hs)
    as (st' & status & c' & H & _); [intros H0; rewrite H0 in Hl; discriminate Hl|rewrite Hp, Hl; lia|].
  exists st', status. exact H.
Defined.

(** An expired contract can never be settled, although the code admits the
    state: for every recorded history the call fails in [Transition], after
    the stored settlement has already been overwritten and its finalization
    time lost. *)
Theorem Settle_expired_fails st id c now fin ss :
  contracts st !! id = Some c → ac_State c = Expired → ac_Results c ≠ [] →
  CalculateSettlement (ac_FundedAmount c) (ac_Results c) = Ok ss →
  ∃ st' e c', SettleAvailabilityContract id now fin st = (st', Err e) ∧
    contracts st' !! id = Some c' ∧ ac_State c' = Expired ∧ ac_Settlement c' = ss ∧
    ss_FinalizedAt (ac_Settlement c') = zero_time.
Proof.
  intros Hc Hs Hne Hss. unfold SettleAvailabilityContract. rewrite Hc, decide_False by tauto.
  rewrite decide_False by (destruct (ac_Results c); unfold zlen; simpl; [done|lia]).
  rewrite Hss. cbn [ac_State set_Settlement]. rewrite Hs.
  assert (Hz : ss_FinalizedAt ss = zero_time) by (by apply CalculateSettlement_FinalizedAt in Hss).
  case_decide; (eexists _, _, _; split; [reflexivity|]; simpl; rewrite lookup_insert_eq; split_and!; done).
Qed.

Lemma Settle_expired_fails_witness :
  ∃ st' e, SettleAvailabilityContract wit_id 12 13
             (InitiateAvailabilityChallenge wit_id (wit_rnd 1) (wit_rnd 2) 11 wit_c4).1 = (st', Err e).
Proof.
  destruct (fmap_lookup_Some (λ c, (ac_State c, zlen (ac_Results c),
       is_ok (CalculateSettlement (ac_FundedAmount c) (ac_Results c))))
     (contracts (InitiateAvailabilityChallenge wit_id (wit_rnd 1) (wit_rnd 2) 11 wit_c4).1)
     wit_id (Expired, 1, true)) as (c & Hc & Hv); [vm_compute; reflexivity|].
  injection Hv as Hs Hl Hss. destruct (CalculateSettlement _ _) as [ss|] eqn:Ess; [|discriminate Hss].
  destruct (Settle_expired_fails _ wit_id c 12 13 ss Hc Hs) as (st' & e & c' & H & _);
    [intros H0; rewrite H0 in Hl; discriminate Hl|exact Ess|].
  exists st', e. exact H.
Defined.
