(* ===== verification/Content.v ===== *)
(** * Content data model and storage

    network/content: core/types.go (chunks), manifest/manifest.go (manifests),
    storage/fs.go (the content-addressed store on a file system) and
    engine/keys.go (the key provider).

    The JSON codec of manifests is the interface [ManifestCodec], with the
    round trip the code relies on. *)

From S2P Require Import Prelude Sha256.

(** [ChunkID], [ContentID] and [Hash] are [[32]byte]. *)
Record ChunkHeader := {
  hd_Version : Z;      (* uint16 *)
  hd_ID : list byte;   (* [32]byte *)
  hd_Index : Z;        (* uint32 *)
  hd_Offset : Z;       (* int64 *)
  hd_PlainSize : Z;    (* uint32 *)
  hd_CipherSize : Z;   (* uint32 *)
  hd_Nonce : list byte (* [12]byte *)
}.

Record Chunk := { ck_Header : ChunkHeader; ck_Data : list byte }.

#[global] Instance ChunkHeader_eq_dec : EqDecision ChunkHeader.
Proof. solve_decision. Defined.
#[global] Instance Chunk_eq_dec : EqDecision Chunk.
Proof. solve_decision. Defined.

(** ** Manifests *)

Record ContentDescriptor := { cd_ID : list byte; cd_Type : string; cd_Size : Z }.
Record CryptoDescriptor := {
  cy_Algorithm : string; cy_Version : Z; cy_ChunkNonceSize : Z; cy_KeyID : string }.
Record Manifest := {
  mf_Version : Z;
  mf_Descriptor : ContentDescriptor;
  mf_ChunkIDs : list (list byte);
  mf_MerkleRoot : list byte;
  mf_WholeHash : list byte;
  mf_Crypto : CryptoDescriptor;
}.

#[global] Instance ContentDescriptor_eq_dec : EqDecision ContentDescriptor.
Proof. solve_decision. Defined.
#[global] Instance CryptoDescriptor_eq_dec : EqDecision CryptoDescriptor.
Proof. solve_decision. Defined.
#[global] Instance Manifest_eq_dec : EqDecision Manifest.
Proof. solve_decision. Defined.

(** A value of the Go type: every identifier is an array of 32 bytes. *)
Record manifest_typed (m : Manifest) : Prop := {
  mt_content : length (cd_ID (mf_Descriptor m)) = 32%nat;
  mt_chunks : Forall (λ i, length i = 32%nat) (mf_ChunkIDs m);
}.

Class ManifestCodec := {
  Serialize : Manifest → list byte;
  Deserialize : list byte → result Manifest;
  Deserialize_typed : ∀ d m, Deserialize d = Ok m → manifest_typed m;
  Deserialize_Serialize : ∀ m, manifest_typed m → Deserialize (Serialize m) = Ok m;
}.

(** ** The header on disk: [binary.Write(f, binary.LittleEndian, &chunk.Header)] *)

Definition encode_header (h : ChunkHeader) : list byte :=
  le16 (hd_Version h) ++ hd_ID h ++ le32 (hd_Index h) ++ le64 (u64 (hd_Offset h)) ++
  le32 (hd_PlainSize h) ++ le32 (hd_CipherSize h) ++ hd_Nonce h.

(** [binary.Size(core.ChunkHeader{})]. *)
Definition headerSize : nat := 66.

(** [binary.Read] of the same struct: one [ReadFull] of its size, then the
    fields; the remaining bytes are the rest. *)
Definition decode_header (r : list byte) : result (ChunkHeader * list byte) :=
  let! (bs, rest) := ReadFull headerSize r in
  let! (v, r) := ReadFull 2 bs in
  let! (i, r) := ReadFull 32 r in
  let! (x, r) := ReadFull 4 r in
  let! (o, r) := ReadFull 8 r in
  let! (p, r) := ReadFull 4 r in
  let! (c, r) := ReadFull 4 r in
  let! (n, r) := ReadFull 12 r in
  Ok ({| hd_Version := le_val v; hd_ID := i; hd_Index := le_val x;
         hd_Offset := i64 (le_val o); hd_PlainSize := le_val p;
         hd_CipherSize := le_val c; hd_Nonce := n |}, rest).

Record header_typed (h : ChunkHeader) : Prop := {
  ht_version : is_u16 (hd_Version h);
  ht_id : length (hd_ID h) = 32%nat;
  ht_index : is_u32 (hd_Index h);
  ht_offset : is_i64 (hd_Offset h);
  ht_plain : is_u32 (hd_PlainSize h);
  ht_cipher : is_u32 (hd_CipherSize h);
  ht_nonce : length (hd_Nonce h) = 12%nat;
}.

Lemma i64_u64 z : is_i64 z → i64 (u64 z) = z.
Proof.
  unfold is_i64, i64, u64. intros H. rewrite Z.add_mod_idemp_l by lia.
  rewrite Z.mod_small; lia.
Qed.

(** Consume one field of a reader whose input starts with it. *)
Ltac read_field :=
  rewrite ReadFull_app by (unfold le16, le32, le64, be64;
    rewrite ?length_le_bytes, ?length_be_bytes; done); cbn [rbind].

Lemma length_encode_header h : header_typed h → length (encode_header h) = headerSize.
Proof.
  intros []. unfold encode_header, le16, le32, le64.
  rewrite !length_app, !length_le_bytes. unfold headerSize. lia.
Qed.

Lemma decode_encode_header h rest :
  header_typed h → decode_header (encode_header h ++ rest) = Ok (h, rest).
Proof.
  intros Hh. unfold decode_header. rewrite ReadFull_app by (by apply length_encode_header).
  destruct Hh as [Hv Hi Hx Ho Hp Hc Hn]. cbn [rbind]. unfold encode_header.
  repeat read_field. rewrite <- (app_nil_r (hd_Nonce h)) at 1. read_field.
  unfold le16, le32, le64. rewrite !le_val_le_bytes.
  rewrite (Z.mod_small (u64 _)) by apply u64_range. rewrite i64_u64 by done.
  rewrite !Z.mod_small by first [exact Hv|exact Hx|exact Hp|exact Hc]. by destruct h.
Qed.

Lemma u64_i64 z : is_u64 z → u64 (i64 z) = z.
Proof.
  unfold is_u64, i64, u64. intros H. rewrite Zminus_mod_idemp_l.
  replace (z + 2 ^ 63 - 2 ^ 63) with z by lia. apply Z.mod_small. lia.
Qed.

Lemma le_bytes_of_length n l : length l = n → le_bytes n (le_val l) = l.
Proof. intros <-. apply le_bytes_le_val. Qed.

(** Conversely, what is decoded is typed and encodes back to the bytes read. *)
Lemma decode_header_ok r h rest :
  decode_header r = Ok (h, rest) → header_typed h ∧ r = encode_header h ++ rest.
Proof.
  unfold decode_header. intros ((bs & rest') & [-> Hbs]%ReadFull_ok & H)%rbind_ok.
  apply rbind_ok in H as ((v & r1) & [-> Hv]%ReadFull_ok & H).
  apply rbind_ok in H as ((i & r2) & [-> Hi]%ReadFull_ok & H).
  apply rbind_ok in H as ((x & r3) & [-> Hx]%ReadFull_ok & H).
  apply rbind_ok in H as ((o & r4) & [-> Ho]%ReadFull_ok & H).
  apply rbind_ok in H as ((p & r5) & [-> Hp]%ReadFull_ok & H).
  apply rbind_ok in H as ((c & r6) & [-> Hc]%ReadFull_ok & H).
  apply rbind_ok in H as ((n & r7) & [-> Hn]%ReadFull_ok & H). injection H as <- <-.
  rewrite !length_app, Hv, Hi, Hx, Ho, Hp, Hc, Hn in Hbs. unfold headerSize in Hbs.
  assert (r7 = []) as -> by (apply nil_length_inv; lia).
  assert (Hr : ∀ l k, length l = k → 0 <= le_val l < 256 ^ Z.of_nat k)
    by (intros l k <-; apply le_val_range).
  pose proof (Hr v _ Hv). pose proof (Hr x _ Hx). pose proof (Hr o _ Ho).
  pose proof (Hr p _ Hp). pose proof (Hr c _ Hc). split.
  - split; simpl; try done. apply i64_range.
  - unfold encode_header, le16, le32, le64.
    cbn [hd_Version hd_ID hd_Index hd_Offset hd_PlainSize hd_CipherSize hd_Nonce].
    rewrite u64_i64 by done. rewrite !le_bytes_of_length, app_nil_r by done. done.
Qed.

(** ** The file system behind [FSStorage]

    Paths relative to the base directory mapped to file contents. *)

Abbreviation FS := (gmap string (list byte)).

Definition NotExist : error := New "file does not exist".

Definition pathForChunk (id : list byte) : string :=
  let encoded := EncodeToString id in
  if decide (slen encoded >= 4) then
    slice 0 2 encoded +:+ "/" +:+ slice 2 4 encoded +:+ "/" +:+ encoded
  else encoded.

Definition HasChunk (id : list byte) (fs : FS) : bool :=
  bool_decide (is_Some (fs !! pathForChunk id)).

(** [fmt.Sprintf("%s.%d.tmp", path, os.Getpid())] *)
Definition tmp_path (pid : Z) (path : string) : string :=
  path +:+ "." +:+ format_int pid +:+ ".tmp".

(** The system calls of [PutChunk], each of which can fail. *)
Inductive put_call := MkdirAll | CreateTmp | WriteHeader | WriteData | SyncFile | RenameTmp.
#[global] Instance put_call_eq_dec : EqDecision put_call.
Proof. solve_decision. Defined.

(** [fault] is the call that fails, if one does; a failed write or sync
    removes the temporary file, a failed rename leaves it. *)
Definition PutChunk (pid : Z) (fault : option (put_call * error)) (chunk : Chunk) (fs : FS)
    : FS * result () :=
  let path := pathForChunk (hd_ID (ck_Header chunk)) in
  let tmpPath := tmp_path pid path in
  match fault with
  | Some (MkdirAll, e) => (fs, Err (Wrap "failed to create shard dir" e))
  | Some (CreateTmp, e) => (fs, Err e)
  | Some (WriteHeader, e) => (delete tmpPath fs, Err (Wrap "failed to write chunk header" e))
  | Some (WriteData, e) => (delete tmpPath fs, Err (Wrap "failed to write chunk data" e))
  | Some (SyncFile, e) => (delete tmpPath fs, Err (Wrap "failed to fsync chunk" e))
  | Some (RenameTmp, e) =>
      (<[tmpPath := encode_header (ck_Header chunk) ++ ck_Data chunk]> fs, Err e)
  | None =>
      (<[path := encode_header (ck_Header chunk) ++ ck_Data chunk]> (delete tmpPath fs), Ok tt)
  end.

Definition GetChunk (id : list byte) (fs : FS) : result Chunk :=
  match fs !! pathForChunk id with
  | None => Err NotExist
  | Some file =>
      match decode_header file with
      | Err e => Err (Wrap "failed to read chunk header" e)
      | Ok (h, data) => Ok {| ck_Header := h; ck_Data := data |}
      end
  end.

Definition manifestPath (id : list byte) : string := "manifests/" +:+ EncodeToString id +:+ ".json".

Definition GetManifestBytes (id : list byte) (fs : FS) : result (list byte) :=
  match fs !! manifestPath id with
  | None => Err (Wrap "manifest not found" NotExist)
  | Some data => Ok data
  end.

Definition PutManifestBytes (id data : list byte) (fs : FS) : FS * result () :=
  (<[manifestPath id := data]> fs, Ok tt).

(** [ListManifests]: the file names of the manifest directory that are the
    hex encoding of 32 bytes followed by [.json]. *)
Definition manifest_name (path : string) : option (list byte) :=
  if String.prefix "manifests/" path then
    let name := slice 10 (slen path) path in
    let n := slen name in
    if decide (5 <= n ∧ slice (n - 5) n name = ".json"%string) then
      match DecodeString (slice 0 (n - 5) name) with
      | Some idBytes => if decide (zlen idBytes ≠ 32) then None else Some idBytes
      | None => None
      end
    else None
  else None.

Definition ListManifests (fs : FS) : list (list byte) := omap manifest_name (fst <$> map_to_list fs).

(** ** Paths *)

Lemma length_EncodeToString b : slen (EncodeToString b) = 2 * zlen b.
Proof.
  unfold slen, EncodeToString, zlen. rewrite bytes_of_string_of, length_hex_encode_bytes. lia.
Qed.

Lemma string_app_inj_l (p s t : string) : p +:+ s = p +:+ t → s = t.
Proof. induction p; simpl; [done|]. intros [= H]. auto. Qed.

Lemma string_app_inj_r (s t p : string) : s +:+ p = t +:+ p → s = t.
Proof.
  intros H. apply (f_equal bytes_of) in H. rewrite !bytes_of_app in H.
  apply app_inv_tail in H. by apply bytes_of_inj.
Qed.

Lemma slen_pathForChunk id : length id = 32%nat → slen (pathForChunk id) = 70.
Proof.
  intros H. assert (He : slen (EncodeToString id) = 64)
    by (rewrite length_EncodeToString; unfold zlen; lia).
  unfold pathForChunk. rewrite decide_True by lia.
  rewrite !slen_app, !slen_slice, He by lia. done.
Qed.

Lemma pathForChunk_inj a b :
  length a = 32%nat → length b = 32%nat → pathForChunk a = pathForChunk b → a = b.
Proof.
  intros Ha Hb H. unfold pathForChunk in H.
  rewrite !decide_True in H by (rewrite length_EncodeToString; unfold zlen; lia).
  apply (f_equal bytes_of) in H. rewrite !bytes_of_app, !app_assoc in H.
  apply app_inj_2 in H as [_ H].
  - by apply EncodeToString_inj, bytes_of_inj.
  - pose proof (length_EncodeToString a). pose proof (length_EncodeToString b).
    unfold slen, zlen in *. lia.
Qed.

Lemma tmp_path_not_chunk pid a b :
  length a = 32%nat → length b = 32%nat → tmp_path pid (pathForChunk a) ≠ pathForChunk b.
Proof.
  intros Ha Hb H. apply (f_equal slen) in H. unfold tmp_path in H.
  rewrite !slen_app, !slen_pathForChunk in H by done.
  pose proof (zlen_nonneg (bytes_of (format_int pid))).
  change (slen ".tmp") with 4 in H. change (slen ".") with 1 in H. unfold slen in H. lia.
Qed.

Lemma manifestPath_inj a b : manifestPath a = manifestPath b → a = b.
Proof. intros H%string_app_inj_l%string_app_inj_r. by apply EncodeToString_inj. Qed.

(** Third character: ["/"] in a chunk path, ["n"] in a manifest path. *)
Lemma manifest_not_under_chunk a b (suffix : string) :
  length a = 32%nat → pathForChunk a +:+ suffix ≠ manifestPath b.
Proof.
  intros Ha H. unfold pathForChunk in H.
  rewrite decide_True in H by (rewrite length_EncodeToString; unfold zlen; lia).
  apply (f_equal (λ s, bytes_of s !! 2%nat)) in H. rewrite !bytes_of_app in H.
  rewrite <- !app_assoc, lookup_app_r in H.
  - unfold slice in H. rewrite !bytes_of_string_of in H.
    pose proof (length_EncodeToString a). unfold slen, zlen in *.
    rewrite length_take, length_drop in H. replace (2 - _)%nat with 0%nat in H by lia. done.
  - unfold slice. rewrite bytes_of_string_of, length_take. lia.
Qed.

(** ** Store operations *)

Lemma PutChunk_reads pid fault chunk fs id :
  header_typed (ck_Header chunk) → length id = 32%nat →
  let '(fs', r) := PutChunk pid fault chunk fs in
  (is_ok r = true ↔ fault = None) ∧
  GetChunk id fs' =
    (if decide (fault = None ∧ id = hd_ID (ck_Header chunk)) then Ok chunk else GetChunk id fs) ∧
  ∀ m, GetManifestBytes m fs' = GetManifestBytes m fs.
Proof.
  intros Hh Hid. pose proof (ht_id _ Hh) as Hcid.
  set (path := pathForChunk (hd_ID (ck_Header chunk))). set (tmp := tmp_path pid path).
  assert (Ht : tmp ≠ pathForChunk id) by (by apply tmp_path_not_chunk).
  assert (Hm : ∀ m, path ≠ manifestPath m ∧ tmp ≠ manifestPath m).
  { intros m. split; [|by apply manifest_not_under_chunk].
    intros H. apply (manifest_not_under_chunk (hd_ID (ck_Header chunk)) m ""); [done|].
    rewrite <- H. apply bytes_of_inj. rewrite bytes_of_app. apply app_nil_r. }
  unfold PutChunk. fold path. fold tmp.
  destruct fault as [[[] e]|]; (split; [done|]); (split;
    [|intros m; destruct (Hm m); unfold GetManifestBytes;
      rewrite ?lookup_insert_ne, ?lookup_delete_ne by done; done]).
  all: try (rewrite decide_False by (intros [? _]; done); unfold GetChunk;
    rewrite ?lookup_insert_ne, ?lookup_delete_ne by done; done).
  case_decide as Hd.
  - destruct Hd as [_ ->]. unfold GetChunk. fold path. rewrite lookup_insert_eq.
    rewrite decode_encode_header by done. by destruct chunk.
  - unfold GetChunk. rewrite lookup_insert_ne, lookup_delete_ne; [done..|].
    intros Hp. apply Hd. split; [done|]. symmetry. by apply pathForChunk_inj.
Qed.

Lemma GetChunk_typed id fs c : GetChunk id fs = Ok c → header_typed (ck_Header c).
Proof.
  unfold GetChunk. destruct (fs !! _); [|done].
  destruct (decode_header _) as [[h d]|] eqn:E; [|done]. intros [= <-].
  by apply decode_header_ok in E as [? _].
Qed.

(** Writing a chunk is atomic whichever system call fails, if any: after a
    successful [PutChunk] the chunk reads back unchanged under its identifier
    and every other chunk as before; after a failed one every chunk reads
    exactly as before; manifests are untouched in both cases. *)
Theorem PutChunk_atomic pid fault chunk fs id :
  header_typed (ck_Header chunk) → length id = 32%nat →
  let '(fs', r) := PutChunk pid fault chunk fs in
  (is_ok r = true ↔ fault = None) ∧
  GetChunk id fs' =
    (if decide (fault = None ∧ id = hd_ID (ck_Header chunk)) then Ok chunk else GetChunk id fs) ∧
  ∀ m, GetManifestBytes m fs' = GetManifestBytes m fs.
Proof. apply PutChunk_reads. Qed.

Definition wit_header (i : Z) : ChunkHeader :=
  {| hd_Version := 1; hd_ID := replicate 32 (byte_of_Z i); hd_Index := i; hd_Offset := 0;
     hd_PlainSize := 3; hd_CipherSize := 19; hd_Nonce := replicate 12 x00 |}.

Lemma wit_header_typed : header_typed (wit_header 1).
Proof. split; vm_compute; first [done|split; done]. Qed.

Lemma PutChunk_atomic_witness :
  let chunk := {| ck_Header := wit_header 1; ck_Data := bytes_of "abc" |} in
  GetChunk (replicate 32 x01) (PutChunk 7 None chunk ∅).1 = Ok chunk.
Proof.
  pose proof (PutChunk_atomic 7 None {| ck_Header := wit_header 1; ck_Data := bytes_of "abc" |} ∅
    (replicate 32 x01) wit_header_typed eq_refl) as H.
  exact (proj1 (proj2 H)).
Defined.

(** A manifest reads back under its identifier and no other changes. *)
Lemma GetManifestBytes_Put id data fs m :
  GetManifestBytes m (PutManifestBytes id data fs).1 =
  if decide (m = id) then Ok data else GetManifestBytes m fs.
Proof.
  unfold GetManifestBytes, PutManifestBytes. simpl. case_decide as H.
  - subst. by rewrite lookup_insert_eq.
  - rewrite lookup_insert_ne; [done|]. intros E%manifestPath_inj. done.
Qed.

(** ** engine/keys.go *)

Abbreviation LocalKeyProvider := (gmap (list byte) (list byte)).
Definition key_Get (id : list byte) (p : LocalKeyProvider) : result (list byte) :=
  match p !! id with None => Err (New "key not found") | Some key => Ok key end.
Definition key_Put (id key : list byte) (p : LocalKeyProvider) : LocalKeyProvider := <[id := key]> p.
Definition key_Delete (id : list byte) (p : LocalKeyProvider) : LocalKeyProvider := delete id p.

(** ** A concrete codec, for evaluation *)

Definition manifest_tuple (m : Manifest) :=
  (mf_Version m, (cd_ID (mf_Descriptor m), cd_Type (mf_Descriptor m), cd_Size (mf_Descriptor m)),
   mf_ChunkIDs m, mf_MerkleRoot m, mf_WholeHash m,
   (cy_Algorithm (mf_Crypto m), cy_Version (mf_Crypto m), cy_ChunkNonceSize (mf_Crypto m),
    cy_KeyID (mf_Crypto m))).


#[global, program] Instance Manifest_countable : Countable Manifest :=
  inj_countable manifest_tuple
    (λ '(v, (i, t, s), ids, r, w, (a, cv, n, k)),
       Some {| mf_Version := v; mf_Descriptor := {| cd_ID := i; cd_Type := t; cd_Size := s |};
               mf_ChunkIDs := ids; mf_MerkleRoot := r; mf_WholeHash := w;
               mf_Crypto := {| cy_Algorithm := a; cy_Version := cv; cy_ChunkNonceSize := n;
                               cy_KeyID := k |} |}) _.
Next Obligation. by intros [? [] ? ? ? []]. Qed.

Fixpoint pos_bits (p : positive) : list byte :=
  match p with xH => [] | xO p => x00 :: pos_bits p | xI p => x01 :: pos_bits p end.
Fixpoint bits_pos (l : list byte) : positive :=
  match l with [] => xH | b :: l => if decide (b = x00) then xO (bits_pos l) else xI (bits_pos l) end.
Lemma bits_pos_bits p : bits_pos (pos_bits p) = p.
Proof. induction p; simpl; congruence. Qed.

#[global] Instance manifest_typed_dec m : Decision (manifest_typed m).
Proof.
  refine (cast_if (decide (length (cd_ID (mf_Descriptor m)) = 32%nat ∧
                           Forall (λ i, length i = 32%nat) (mf_ChunkIDs m))));
    [by destruct_and!; split|intros [? ?]; tauto].
Defined.

Definition toy_deserialize (d : list byte) : result Manifest :=
  match decode (bits_pos d) with
  | Some m => if decide (manifest_typed m) then Ok m else Err (New "invalid manifest")
  | None => Err (New "invalid manifest")
  end.

#[global, program] Instance ToyManifestCodec : ManifestCodec :=
  {| Serialize m := pos_bits (encode m); Deserialize := toy_deserialize |}.
Next Obligation.
  intros d m. unfold toy_deserialize. destruct (decode (bits_pos d)) as [m0|]; [|discriminate].
  case_decide; [|discriminate]. by intros [= <-].
Qed.
Next Obligation.
  intros m Hm. cbv beta. unfold toy_deserialize.
  by rewrite bits_pos_bits, decode_encode, decide_True.
Qed.
