(* ===== verification/ContentEngine.v ===== *)
(** * Content engine

    network/content: chunker/chunker.go, crypto/chacha20.go, verifier/sha256.go
    and engine/engine.go (ingest and reassembly).

    The AEAD cipher is the interface [AEAD] of golang.org/x/crypto, [sort.Slice]
    the interface [SliceSort] (any sort, stable or not); the chunk store the
    engine writes to and reads from is the interface [ChunkStore], which
    [FSStorage] implements. *)

From stdpp Require Import sorting.
From S2P Require Import Prelude Sha256 Content.

(** ** Interfaces *)

(** [chacha20poly1305]: [Seal] and [Open] for a 32-byte key and a 12-byte nonce. *)
Class AEAD := {
  aead_Seal : list byte → list byte → list byte → list byte;
  aead_Open : list byte → list byte → list byte → result (list byte);
  aead_length : ∀ k n p, length k = 32%nat → length n = 12%nat →
    length (aead_Seal k n p) = (length p + 16)%nat;
  aead_Open_Seal : ∀ k n p, length k = 32%nat → length n = 12%nat →
    aead_Open k n (aead_Seal k n p) = Ok p;
}.

(** [sort.Slice(chunks, …)] by [Header.Index]: the chunks, rearranged in
    ascending order of their index.  The sort need not be stable: nothing is
    said of the order of chunks with the same index. *)
Definition index_of (c : Chunk) : Z := hd_Index (ck_Header c).
Definition index_le (a b : Chunk) : Prop := index_of a <= index_of b.

Class SliceSort := {
  sort_Slice : list Chunk → list Chunk;
  sort_Slice_perm : ∀ l, sort_Slice l ≡ₚ l;
  sort_Slice_sorted : ∀ l, StronglySorted index_le (sort_Slice l);
}.

(** [core.ChunkSink] and [core.ChunkSource]. *)
Class ChunkStore (St : Type) := {
  cs_put : Chunk → St → St * result ();
  cs_get : list byte → St → result Chunk;
  cs_get_put : ∀ c s s' id, header_typed (ck_Header c) → length id = 32%nat →
    cs_put c s = (s', Ok tt) →
    cs_get id s' = if decide (id = hd_ID (ck_Header c)) then Ok c else cs_get id s;
}.

(** The file-system store, with the faults of its environment as a parameter. *)
#[global, program] Instance FSChunkStore (pid : Z) (fault : Chunk → option (put_call * error))
    : ChunkStore FS := {|
  cs_put c fs := PutChunk pid (fault c) c fs;
  cs_get id fs := GetChunk id fs
|}.
Next Obligation.
  intros pid fault c fs fs' id Hh Hid Hp. pose proof (PutChunk_reads pid (fault c) c fs id Hh Hid) as H.
  rewrite Hp in H. destruct H as (Hok & Hg & _). simpl in Hok.
  rewrite Hg. repeat case_decide; tauto.
Qed.

(** ** chunker.go *)

(** [io.ReadFull] into a buffer of [size] bytes, from a reader that delivers
    [r] and then fails with [rerr] ([None] is end of file): the bytes read and
    the error. *)
Definition read_full (size : nat) (r : list byte) (rerr : option error)
    : list byte * option error :=
  if decide (size <= length r)%nat then (take size r, None)
  else (r, Some (match rerr with
                 | Some e => e
                 | None => match r with [] => EOF | _ => ErrUnexpectedEOF end
                 end)).

Definition plain_chunk (index offset : Z) (data : list byte) : Chunk :=
  {| ck_Header := {| hd_Version := 1; hd_ID := replicate 32 x00; hd_Index := index;
                     hd_Offset := offset; hd_PlainSize := u32 (zlen data);
                     hd_CipherSize := 0; hd_Nonce := replicate 12 x00 |};
     ck_Data := data |}.

(** The goroutine of [Split]: the chunks it sends and the error it reports;
    [None] when the fuel is spent. *)
Fixpoint split_loop (fuel size : nat) (r : list byte) (rerr : option error) (index offset : Z)
    : option (list Chunk * option error) :=
  match fuel with
  | O => None
  | S fuel' =>
      let '(buf, err) := read_full size r rerr in
      let sent := if decide (0 < zlen buf) then [plain_chunk index offset buf] else [] in
      let index' := if decide (0 < zlen buf) then u32 (index + 1) else index in
      let offset' := if decide (0 < zlen buf) then i64 (offset + zlen buf) else offset in
      match err with
      | Some e =>
          Some (sent, if decide (e ≠ EOF ∧ e ≠ ErrUnexpectedEOF) then Some e else None)
      | None =>
          '(cs, e) ← split_loop fuel' size (drop size r) rerr index' offset';
          Some (sent ++ cs, e)
      end
  end.

(** One round per full buffer and one for the end of the input. *)
Definition Split (ChunkSize : Z) (r : list byte) (rerr : option error)
    : option (list Chunk * option error) :=
  split_loop (S (length r)) (Z.to_nat ChunkSize) r rerr 0 0.

(** [cks] cuts [data] into non-empty pieces of at most [size] bytes, numbered
    and placed consecutively. *)
Inductive pieces (size : Z) : Z → Z → list Chunk → list byte → Prop :=
| pieces_nil idx off : pieces size idx off [] []
| pieces_cons idx off d cs rest :
    0 < zlen d <= size → is_u32 idx → is_i64 off →
    pieces size (idx + 1) (off + zlen d) cs rest →
    pieces size idx off (plain_chunk idx off d :: cs) (d ++ rest).

Lemma split_loop_pieces fuel size r idx off :
  (0 < size)%nat → (length r < fuel)%nat → 0 <= idx →
  idx * Z.of_nat size + zlen r < 2 ^ 32 * Z.of_nat size → 0 <= off → off + zlen r < 2 ^ 63 →
  ∃ cks, split_loop fuel size r None idx off = Some (cks, None) ∧
         pieces (Z.of_nat size) idx off cks r.
Proof.
  intros Hsz. revert r idx off. induction fuel as [|fuel IH]; intros r idx off Hf Hi Hib Ho Hob; [lia|].
  cbn [split_loop]. unfold read_full. unfold zlen in Hib, Hob. destruct (decide (size <= length r)%nat) as [Hle|Hgt].
  - assert (Hlen : length (take size r) = size) by (rewrite length_take; lia).
    rewrite !(decide_True (P := 0 < zlen (take size r))) by (unfold zlen; lia).
    assert (is_u32 idx) by (unfold is_u32; nia).
    unfold u32, i64. rewrite Z.mod_small by nia.
    replace ((off + zlen (take size r) + 2 ^ 63) mod 2 ^ 64 - 2 ^ 63) with (off + zlen (take size r))
      by (rewrite Z.mod_small; unfold zlen; lia).
    destruct (IH (drop size r) (idx + 1) (off + zlen (take size r))) as (cks & -> & Hp);
      [rewrite length_drop; lia|lia| |unfold zlen; lia|unfold zlen; rewrite length_drop; lia|].
    { unfold zlen. rewrite length_drop. nia. }
    eexists. split; [reflexivity|]. rewrite <- (take_drop size r) at 2. simpl.
    constructor; [unfold zlen; lia|done|unfold is_i64; lia|done].
  - destruct r as [|b r].
    + eexists. split; [reflexivity|constructor].
    + rewrite (decide_True (P := 0 < _)) by (unfold zlen; simpl; lia).
      eexists. split; [reflexivity|].
      assert (Hp : pieces (Z.of_nat size) idx off [plain_chunk idx off (b :: r)] ((b :: r) ++ [])).
      { constructor; [unfold zlen; simpl in *; lia|unfold is_u32; simpl in *; nia
                     |unfold is_i64; lia|constructor]. }
      by rewrite app_nil_r in Hp.
Qed.

Section engine.
Context {AE : AEAD} {SS : SliceSort} {St : Type} {CS : ChunkStore St}.

(** ** crypto/chacha20.go *)

(** [chacha20poly1305.New(key)]. *)
Definition aead_New (key : list byte) : result () :=
  if decide (zlen key ≠ 32) then Err (New "chacha20poly1305: bad key length") else Ok tt.

Definition generateNonce (index : Z) : list byte :=
  take 12 (sha256 (bytes_of "cipher-nonce" ++ le64 index)).

Definition EncryptChunk (key : list byte) (chunk : Chunk) : result Chunk :=
  let! _ := wrap "failed to create cipher" (aead_New key) in
  let h := ck_Header chunk in
  let nonce := generateNonce (hd_Index h) in
  let ciphertext := aead_Seal key nonce (ck_Data chunk) in
  Ok {| ck_Header := {| hd_Version := hd_Version h; hd_ID := hd_ID h; hd_Index := hd_Index h;
                        hd_Offset := hd_Offset h; hd_PlainSize := hd_PlainSize h;
                        hd_CipherSize := u32 (zlen ciphertext); hd_Nonce := nonce |};
        ck_Data := ciphertext |}.

Definition DecryptChunk (key : list byte) (chunk : Chunk) : result Chunk :=
  let! _ := wrap "failed to create cipher" (aead_New key) in
  if decide (hd_CipherSize (ck_Header chunk) ≠ u32 (zlen (ck_Data chunk))) then
    Err (New "cipher size mismatch in header")
  else
    let! plaintext := wrap "failed to decrypt chunk"
                        (aead_Open key (hd_Nonce (ck_Header chunk)) (ck_Data chunk)) in
    if decide (hd_PlainSize (ck_Header chunk) ≠ u32 (zlen plaintext)) then
      Err (New "plain size mismatch in header")
    else Ok {| ck_Header := ck_Header chunk; ck_Data := plaintext |}.

(** ** verifier/sha256.go *)

Definition Sum (data : list byte) : list byte := sha256 data.
Definition Verify (data hash : list byte) : bool := bool_decide (sha256 data = hash).

(** ** engine.go *)

Definition set_hd_ID (id : list byte) (c : Chunk) : Chunk :=
  let h := ck_Header c in
  {| ck_Header := {| hd_Version := hd_Version h; hd_ID := id; hd_Index := hd_Index h;
                     hd_Offset := hd_Offset h; hd_PlainSize := hd_PlainSize h;
                     hd_CipherSize := hd_CipherSize h; hd_Nonce := hd_Nonce h |};
     ck_Data := ck_Data c |}.

(** The loop of [Ingest] over the chunks of the channel. *)
Fixpoint ingest_loop (key : list byte) (chunks : list Chunk) (chunkIDs : list (list byte))
    (totalSize : Z) (store : St) : St * result (list (list byte) * Z) :=
  match chunks with
  | [] => (store, Ok (chunkIDs, totalSize))
  | chunk :: rest =>
      match EncryptChunk key chunk with
      | Err e => (store, Err (Wrap "failed to encrypt chunk" e))
      | Ok chunk =>
          let chunkID := Sum (ck_Data chunk) in
          let chunk := set_hd_ID chunkID chunk in
          match cs_put chunk store with
          | (store', Err e) => (store', Err (Wrap "failed to store chunk" e))
          | (store', Ok _) =>
              ingest_loop key rest (chunkIDs ++ [chunkID])
                (u64 (totalSize + hd_PlainSize (ck_Header chunk))) store'
          end
      end
  end.

Definition Ingest (ChunkSize : Z) (r : list byte) (rerr : option error) (mtype : string)
    (rndID rndKey : result (list byte)) (keys : LocalKeyProvider) (store : St)
    : option (LocalKeyProvider * St * result Manifest) :=
  match rndID with
  | Err e => Some (keys, store, Err (Wrap "failed to generate content id" e))
  | Ok contentID =>
      match rndKey with
      | Err e => Some (keys, store, Err (Wrap "failed to generate key" e))
      | Ok key =>
          let keys := key_Put contentID key keys in
          '(chunks, readErr) ← Split ChunkSize r rerr;
          match ingest_loop key chunks [] 0 store with
          | (store', Err e) => Some (keys, store', Err e)
          | (store', Ok (chunkIDs, totalSize)) =>
              match readErr with
              | Some e => Some (keys, store', Err (Wrap "error reading stream" e))
              | None =>
                  let wholeHash := Sum (concat chunkIDs) in
                  Some (keys, store',
                    Ok {| mf_Version := 1;
                          mf_Descriptor := {| cd_ID := contentID; cd_Type := mtype; cd_Size := totalSize |};
                          mf_ChunkIDs := chunkIDs; mf_MerkleRoot := wholeHash;
                          mf_WholeHash := wholeHash;
                          mf_Crypto := {| cy_Algorithm := "ChaCha20-Poly1305"; cy_Version := 1;
                                          cy_ChunkNonceSize := 12; cy_KeyID := "embedded" |} |})
              end
          end
      end
  end.

(** The fetch loop of [Reassemble]. *)
Fixpoint fetch_loop (key : list byte) (ids : list (list byte)) (store : St) : result (list Chunk) :=
  match ids with
  | [] => Ok []
  | chunkID :: rest =>
      let! chunk := wrap "failed to get chunk" (cs_get chunkID store) in
      if decide (Sum (ck_Data chunk) ≠ chunkID) then
        Err (New "corrupted chunk: hash mismatch")
      else
        let! chunk := wrap "failed to decrypt chunk" (DecryptChunk key chunk) in
        let! chunks := fetch_loop key rest store in
        Ok (chunk :: chunks)
  end.

(** The bytes written to [w]. *)
Definition Reassemble (m : Manifest) (keys : LocalKeyProvider) (store : St) : result (list byte) :=
  let! key := wrap "failed to get content key" (key_Get (cd_ID (mf_Descriptor m)) keys) in
  let! chunks := fetch_loop key (mf_ChunkIDs m) store in
  Ok (concat (ck_Data <$> sort_Slice chunks)).

(** ** Correctness of ingest and reassembly *)

Lemma generateNonce_length i : length (generateNonce i) = 12%nat.
Proof. unfold generateNonce. by rewrite length_take, length_sha256. Qed.

(** What [Ingest] stores for a plaintext chunk, and under which identifier. *)
Definition sealed (key : list byte) (c : Chunk) : list byte :=
  aead_Seal key (generateNonce (hd_Index (ck_Header c))) (ck_Data c).
Definition stored_id (key : list byte) (c : Chunk) : list byte := sha256 (sealed key c).
Definition stored_chunk (key : list byte) (c : Chunk) : Chunk :=
  let h := ck_Header c in
  {| ck_Header := {| hd_Version := hd_Version h; hd_ID := stored_id key c; hd_Index := hd_Index h;
                     hd_Offset := hd_Offset h; hd_PlainSize := hd_PlainSize h;
                     hd_CipherSize := u32 (zlen (sealed key c));
                     hd_Nonce := generateNonce (hd_Index h) |};
     ck_Data := sealed key c |}.

Lemma stored_typed key size idx off d :
  length key = 32%nat → 0 < zlen d <= size → size <= 2 ^ 32 - 17 → is_u32 idx → is_i64 off →
  header_typed (ck_Header (stored_chunk key (plain_chunk idx off d))).
Proof.
  intros Hk Hd Hs Hi Ho. split; simpl; try done; apply u32_range.
Qed.

Lemma DecryptChunk_stored key idx off d :
  length key = 32%nat →
  DecryptChunk key (stored_chunk key (plain_chunk idx off d)) =
  Ok {| ck_Header := ck_Header (stored_chunk key (plain_chunk idx off d)); ck_Data := d |}.
Proof.
  intros Hk. unfold DecryptChunk, aead_New. rewrite (decide_False (P := zlen key ≠ 32)) by (unfold zlen; lia).
  simpl. rewrite decide_False by tauto.
  unfold sealed. simpl. rewrite aead_Open_Seal by (done || apply generateNonce_length).
  simpl. by rewrite decide_False by tauto.
Qed.

Lemma ingest_loop_step key c rest acc tot st :
  length key = 32%nat →
  ingest_loop key (c :: rest) acc tot st =
  match cs_put (stored_chunk key c) st with
  | (st', Err e) => (st', Err (Wrap "failed to store chunk" e))
  | (st', Ok _) => ingest_loop key rest (acc ++ [stored_id key c])
                     (u64 (tot + hd_PlainSize (ck_Header c))) st'
  end.
Proof.
  intros Hk. cbn [ingest_loop]. unfold EncryptChunk, aead_New.
  rewrite decide_False by (unfold zlen; lia). reflexivity.
Qed.

(** The loop stores every piece under its identifier and touches no other
    identifier. *)
Lemma ingest_loop_spec key size idx off cks data acc tot st :
  (∀ c s, ∃ s', cs_put c s = (s', Ok tt)) →
  length key = 32%nat → size <= 2 ^ 32 - 17 → pieces size idx off cks data →
  0 <= tot → tot + zlen data < 2 ^ 64 →
  ∃ st', ingest_loop key cks acc tot st = (st', Ok (acc ++ (stored_id key <$> cks), tot + zlen data)) ∧
    (∀ id, length id = 32%nat → id ∉ stored_id key <$> cks → cs_get id st' = cs_get id st) ∧
    (NoDup (stored_id key <$> cks) →
     Forall (λ c, cs_get (stored_id key c) st' = Ok (stored_chunk key c)) cks).
Proof.
  intros Hput Hk Hs Hp. revert acc tot st.
  induction Hp as [idx off|idx off d cs rest Hd Hi Ho Hp IH]; intros acc tot st Ht Hb.
  - exists st. simpl. rewrite app_nil_r, Z.add_0_r. split_and!; [done..|]. constructor.
  - rewrite ingest_loop_step by done. set (c := plain_chunk idx off d).
    destruct (Hput (stored_chunk key c) st) as [s1 Hs1]. rewrite Hs1.
    rewrite zlen_app in Hb.
    replace (u64 (tot + hd_PlainSize (ck_Header c))) with (tot + zlen d).
    2:{ simpl. rewrite u32_id by (unfold is_u32; lia). rewrite u64_id; [done|].
        unfold is_u64. pose proof (zlen_nonneg rest). lia. }
    destruct (IH (acc ++ [stored_id key c]) (tot + zlen d) s1) as (st' & Hrun & Hkeep & Hget);
      [lia|lia|].
    assert (Htyped : header_typed (ck_Header (stored_chunk key c))) by (by eapply stored_typed).
    assert (Hsid : length (stored_id key c) = 32%nat) by apply length_sha256.
    exists st'. rewrite Hrun, zlen_app. cbn [fmap list_fmap]. split_and!.
    + do 3 f_equal; [by rewrite <- app_assoc|lia].
    + intros id Hid Hni. rewrite Hkeep by set_solver.
      rewrite (cs_get_put _ _ _ _ Htyped Hid Hs1), decide_False; [done|]. simpl. set_solver.
    + intros [Hni Hnd]%NoDup_cons. constructor; [|by apply Hget].
      rewrite Hkeep by done. rewrite (cs_get_put _ _ _ _ Htyped Hsid Hs1).
      by rewrite decide_True.
Qed.

Lemma fetch_loop_spec key size idx off cks data st :
  length key = 32%nat → pieces size idx off cks data →
  Forall (λ c, cs_get (stored_id key c) st = Ok (stored_chunk key c)) cks →
  ∃ out, fetch_loop key (stored_id key <$> cks) st = Ok out ∧
    concat (ck_Data <$> out) = data ∧
    index_of <$> out = (λ i, idx + Z.of_nat i) <$> seq 0 (length cks).
Proof.
  intros Hk Hp. induction Hp as [idx off|idx off d cs rest Hd Hi Ho Hp IH]; intros Hget.
  - exists []. done.
  - apply Forall_cons in Hget as [Hc Hget]. destruct (IH Hget) as (out & Hf & Hcat & Hidx).
    set (c := plain_chunk idx off d) in *.
    exists ({| ck_Header := ck_Header (stored_chunk key c); ck_Data := d |} :: out).
    cbn [fmap list_fmap fetch_loop]. rewrite Hc. cbn [wrap rbind].
    rewrite decide_False by tauto. subst c. rewrite DecryptChunk_stored by done.
    cbn [wrap rbind]. cbn [fmap list_fmap] in Hf. rewrite Hf. simpl. split_and!; [done|by rewrite Hcat|].
    f_equal; [unfold index_of; cbn; lia|]. simpl in Hidx. rewrite Hidx. rewrite <- (fmap_S_seq 0), <- list_fmap_compose.
    apply list_fmap_ext. intros i x _. simpl. lia.
Qed.

(** Chunks with distinct indices have one sorted order. *)
Lemma sort_Slice_unique l l' :
  NoDup (index_of <$> l) → l' ≡ₚ l → StronglySorted index_le l' → sort_Slice l = l'.
Proof.
  intros Hnd Hp Hs. eapply (StronglySorted_unique_strong index_le); [|apply sort_Slice_sorted|exact Hs|].
  - intros x y Hx Hy Hxy Hyx. rewrite sort_Slice_perm in Hx. rewrite Hp in Hy.
    assert (He : index_of x = index_of y) by (unfold index_le in *; lia). clear -Hnd Hx Hy He.
    induction l as [|c l IH]; [by apply not_elem_of_nil in Hx|].
    cbn in Hnd. apply NoDup_cons in Hnd as [Hc Hnd].
    apply elem_of_cons in Hx as [->|Hx], Hy as [->|Hy]; [done| | |by apply IH].
    + destruct Hc. rewrite He. by apply list_elem_of_fmap_2.
    + destruct Hc. rewrite <- He. by apply list_elem_of_fmap_2.
  - by rewrite sort_Slice_perm, Hp.
Qed.

Lemma sort_Slice_numbered z n l :
  index_of <$> l = (λ i, z + Z.of_nat i) <$> seq 0 n → sort_Slice l = l.
Proof.
  intros Hl. apply sort_Slice_unique; [|done|].
  - rewrite Hl. apply NoDup_fmap_2; [intros i j; lia|apply NoDup_seq].
  - assert (Hz : ∀ k, index_of <$> l = (λ i, z + Z.of_nat i) <$> seq k n → StronglySorted index_le l);
      [|by eapply Hz]. clear Hl. revert n. induction l as [|c l IH]; intros [|n] k; try done; [constructor|].
    cbn [fmap list_fmap seq]. intros [= Hc Hl]. constructor; [by eapply IH|].
    apply Forall_forall. intros x Hx. unfold index_le.
    assert (Hi : index_of x ∈ (λ i, z + Z.of_nat i) <$> seq (S k) n)
      by (setoid_rewrite <- Hl; by apply list_elem_of_fmap_2).
    apply list_elem_of_fmap in Hi as (i & -> & Hi%elem_of_seq). lia.
Qed.

(** [m] describes [data], cut into [cks] of at most [size] bytes and sealed under
    [key]. *)
Record ingested (size : Z) (key data : list byte) (cks : list Chunk) (m : Manifest) : Prop := {
  ig_pieces : pieces size 0 0 cks data;
  ig_ids : mf_ChunkIDs m = stored_id key <$> cks;
}.

Lemma Ingest_spec ChunkSize data mtype contentID key keys store :
  0 < ChunkSize <= 2 ^ 32 - 17 → zlen data < 2 ^ 32 * ChunkSize → zlen data < 2 ^ 63 →
  length key = 32%nat → (∀ c s, ∃ s', cs_put c s = (s', Ok tt)) →
  ∃ store' m cks,
    Ingest ChunkSize data None mtype (Ok contentID) (Ok key) keys store =
      Some (key_Put contentID key keys, store', Ok m) ∧
    ingested ChunkSize key data cks m ∧ cd_ID (mf_Descriptor m) = contentID ∧ cd_Size (mf_Descriptor m) = zlen data ∧
    (NoDup (mf_ChunkIDs m) → Forall (λ c, cs_get (stored_id key c) store' = Ok (stored_chunk key c)) cks).
Proof.
  intros Hs Hb1 Hb2 Hk Hput.
  destruct (split_loop_pieces (S (length data)) (Z.to_nat ChunkSize) data 0 0) as (cks & Hsp & Hp);
    [lia..|].
  rewrite Z2Nat.id in Hp by lia.
  destruct (ingest_loop_spec key ChunkSize 0 0 cks data [] 0 store) as (st' & Hrun & _ & Hget);
    try done; [lia|lia|].
  unfold Ingest, Split. rewrite Hsp. cbn [mbind option_bind]. rewrite Hrun.
  eexists st', _, cks. split; [reflexivity|]. split; [done|].
  split; [done|]. split; [simpl; lia|done].
Qed.

(** What reassembly writes from the chunks that were ingested. *)
Lemma Reassemble_stored {size} m keys key data cks store :
  length key = 32%nat → key_Get (cd_ID (mf_Descriptor m)) keys = Ok key → ingested size key data cks m →
  Forall (λ c, cs_get (stored_id key c) store = Ok (stored_chunk key c)) cks →
  Reassemble m keys store = Ok data.
Proof.
  intros Hk Hg [Hp Hids] Hst.
  destruct (fetch_loop_spec key size 0 0 cks data store Hk Hp Hst) as (out & Hf & Hcat & Hidx).
  unfold Reassemble. rewrite Hg. cbn [wrap rbind]. rewrite Hids, Hf. cbn [rbind].
  rewrite (sort_Slice_numbered _ _ _ Hidx). by rewrite Hcat.
Qed.

(** Ingesting a stream with a working store always produces a manifest of
    its size, and reassembling that manifest from the store and key provider
    it left behind writes exactly the original bytes, provided the chunk
    identifiers are distinct (two chunks of one file with the same ciphertext
    hash share one stored header). *)
Theorem Reassemble_Ingest ChunkSize data mtype contentID key keys store :
  0 < ChunkSize <= 2 ^ 32 - 17 → zlen data < 2 ^ 32 * ChunkSize → zlen data < 2 ^ 63 →
  length key = 32%nat → (∀ c s, ∃ s', cs_put c s = (s', Ok tt)) →
  ∃ keys' store' m,
    Ingest ChunkSize data None mtype (Ok contentID) (Ok key) keys store = Some (keys', store', Ok m) ∧
    cd_Size (mf_Descriptor m) = zlen data ∧
    (NoDup (mf_ChunkIDs m) → Reassemble m keys' store' = Ok data).
Proof.
  intros Hs Hb1 Hb2 Hk Hput.
  destruct (Ingest_spec ChunkSize data mtype contentID key keys store)
    as (st' & m & cks & Hi & Hg & Hid & Hsz & Hst); try done.
  eexists _, _, _. split; [exact Hi|]. split; [exact Hsz|]. intros Hnd.
  eapply Reassemble_stored; [done| |done|by apply Hst]. rewrite Hid. unfold key_Get, key_Put.
  by rewrite lookup_insert_eq.
Qed.

(** ** Reassembly from chunks of unknown origin *)

Lemma pieces_concat size idx off cks data : pieces size idx off cks data → concat (ck_Data <$> cks) = data.
Proof. induction 1 as [|idx off d cs rest _ _ _ _ IH]; [done|]. cbn. by rewrite <- IH. Qed.

Lemma pieces_sizes size idx off cks data :
  pieces size idx off cks data → Forall (λ c, 0 < zlen (ck_Data c) <= size) cks.
Proof. by induction 1; constructor. Qed.

Lemma pieces_indices size idx off cks data :
  pieces size idx off cks data →
  index_of <$> cks = (λ i, idx + Z.of_nat i) <$> seq 0 (length cks).
Proof.
  induction 1 as [|idx off d cs rest _ _ _ _ IH]; [done|]. cbn. f_equal; [lia|].
  cbn in IH. rewrite IH. rewrite <- (fmap_S_seq 0), <- list_fmap_compose.
  apply list_fmap_ext. intros i x _. simpl. lia.
Qed.

(** The data stored for [c] is not what was sealed, yet has its hash. *)
Definition forged (key : list byte) (store : St) (c : Chunk) : Prop :=
  ∃ c', cs_get (stored_id key c) store = Ok c' ∧ sha256_collision (ck_Data c') (sealed key c).

(** The ciphertext sealed for [c] also opens, under another nonce that the
    stored header names, to something else: a break of the cipher's key and
    message commitment. *)
Definition reopened (key : list byte) (store : St) (c : Chunk) : Prop :=
  ∃ c' p, cs_get (stored_id key c) store = Ok c' ∧
    hd_Nonce (ck_Header c') ≠ generateNonce (index_of c) ∧
    aead_Open key (hd_Nonce (ck_Header c')) (sealed key c) = Ok p ∧ p ≠ ck_Data c.

Lemma DecryptChunk_opens key c c' o :
  ck_Data c' = sealed key c → DecryptChunk key c' = Ok o →
  ck_Header o = ck_Header c' ∧
  (ck_Data o = ck_Data c ∨
   hd_Nonce (ck_Header c') ≠ generateNonce (index_of c) ∧
   aead_Open key (hd_Nonce (ck_Header c')) (sealed key c) = Ok (ck_Data o) ∧ ck_Data o ≠ ck_Data c).
Proof.
  intros Hd. unfold DecryptChunk, aead_New. destruct (decide (zlen key ≠ 32)) as [|Hk]; [done|]. cbn [wrap rbind].
  case_decide; [done|]. rewrite Hd. destruct (aead_Open _ _ _) as [p|] eqn:E; [cbn [wrap rbind]|done].
  case_decide; [done|]. intros [= <-]. split; [done|]. cbn.
  destruct (decide (p = ck_Data c)) as [|Hne]; [by left|right]. split_and!; [|done..].
  intros Hn. rewrite Hn in E. unfold sealed in E. change (hd_Index (ck_Header c)) with (index_of c) in E.
  rewrite aead_Open_Seal in E; [by injection E as <-|unfold zlen in Hk; lia|apply generateNonce_length].
Qed.

Lemma fetch_loop_any key cks store out :
  fetch_loop key (stored_id key <$> cks) store = Ok out →
  Exists (λ c, forged key store c ∨ reopened key store c) cks ∨
  Forall2 (λ o c, ck_Data o = ck_Data c ∧
     ∃ c', cs_get (stored_id key c) store = Ok c' ∧ ck_Header o = ck_Header c') out cks.
Proof.
  revert out. induction cks as [|c cks IH]; intros out; [intros [= <-]; by right|].
  cbn [fmap list_fmap fetch_loop]. intros (c' & Hc & Hf)%rbind_ok.
  destruct (cs_get (stored_id key c) store) as [c0|] eqn:Hg; [|done]. injection Hc as ->.
  case_decide as Hh; [done|]. apply rbind_ok in Hf as (o & Ho & Hf).
  apply rbind_ok in Hf as (os & Hos & Hf). injection Hf as <-.
  destruct (decide (ck_Data c' = sealed key c)) as [Hd|Hd].
  2: { left. left. left. exists c'. split; [done|]. split; [done|]. exact Hh. }
  destruct (DecryptChunk key c') as [o'|] eqn:E; [|done]. injection Ho as ->.
  destruct (DecryptChunk_opens key c c' o Hd E) as [H1 [H2|(H2 & H3 & H4)]].
  - destruct (IH _ Hos) as [|Hr]; [left; by right|right]. constructor; [|done]. split; [done|]. by exists c'.
  - left. left. right. by exists c', (ck_Data o).
Qed.

(** C22: Whatever peers and disk have put into the store, and however [sort.Slice]
    orders chunks of equal number, a reassembly that succeeds with the file's
    manifest and key writes the file's own chunks, every one of them exactly
    once, in some order; if the stored headers number them as they were
    ingested, it writes the file.  Otherwise the store itself holds the break:
    data that is not the ciphertext of a chunk of the file but has its SHA-256
    hash, or a nonce other than the chunk's own under which the cipher opens
    the chunk's ciphertext to another plaintext.  Of the cipher only its
    correctness (Open inverts Seal under the same key and nonce) is used. *)
Theorem Reassemble_genuine {size} m keys key data cks store out :
  ingested size key data cks m → key_Get (cd_ID (mf_Descriptor m)) keys = Ok key →
  Reassemble m keys store = Ok out →
  Exists (λ c, forged key store c ∨ reopened key store c) cks ∨
  (∃ ps, ps ≡ₚ ck_Data <$> cks ∧ out = concat ps) ∧
  ((∀ c c', c ∈ cks → cs_get (stored_id key c) store = Ok c' →
     hd_Index (ck_Header c') = hd_Index (ck_Header c)) → out = data).
Proof.
  intros [Hp Hids] Hg. unfold Reassemble. rewrite Hg, Hids. cbn [wrap rbind].
  intros (chunks & Hf & Ho)%rbind_ok. injection Ho as <-.
  destruct (fetch_loop_any _ _ _ _ Hf) as [|Hall]; [by left|right].
  assert (Hd : ck_Data <$> chunks = ck_Data <$> cks).
  { clear -Hall. induction Hall as [|o c os cs [Ho _] _ IH]; [done|]. cbn. by rewrite Ho, IH. }
  split.
  - exists (ck_Data <$> sort_Slice chunks). split; [|done]. by rewrite sort_Slice_perm, Hd.
  - intros Hi. assert (He : index_of <$> chunks = index_of <$> cks).
    { clear -Hall Hi. unfold index_of. induction Hall as [|o c os cs (_ & c' & Hc & Hh) _ IH]; [done|]. cbn.
      rewrite Hh, (Hi c c') by (done || by left). f_equal. apply IH. intros x x' Hx. apply Hi. by right. }
    rewrite (pieces_indices _ _ _ _ _ Hp) in He. rewrite (sort_Slice_numbered _ _ _ He), Hd.
    by eapply pieces_concat.
Qed.

(** A chunk under another number. *)
Definition set_index (i : Z) (c : Chunk) : Chunk :=
  let h := ck_Header c in
  {| ck_Header := {| hd_Version := hd_Version h; hd_ID := hd_ID h; hd_Index := i;
                     hd_Offset := hd_Offset h; hd_PlainSize := hd_PlainSize h;
                     hd_CipherSize := hd_CipherSize h; hd_Nonce := hd_Nonce h |};
     ck_Data := ck_Data c |}.

Lemma DecryptChunk_set_index key i c :
  DecryptChunk key (set_index i c) = let! o := DecryptChunk key c in Ok (set_index i o).
Proof.
  unfold DecryptChunk. destruct (wrap _ (aead_New key)); [cbn|done]. case_decide; [done|].
  destruct (wrap _ (aead_Open _ _ _)); [cbn|done]. by case_decide.
Qed.

(** The order is not protected: nothing ties the number in a chunk's header to
    its place in the manifest, and the hash covers the data only.  If the two
    chunks of a file arrive with their numbers exchanged, reassembly succeeds
    and writes the second half first. *)
Theorem order_unprotected m keys key off d0 d1 store :
  length key = 32%nat → key_Get (cd_ID (mf_Descriptor m)) keys = Ok key →
  let c0 := plain_chunk 0 0 d0 in let c1 := plain_chunk 1 off d1 in
  mf_ChunkIDs m = [stored_id key c0; stored_id key c1] →
  cs_get (stored_id key c0) store = Ok (set_index 1 (stored_chunk key c0)) →
  cs_get (stored_id key c1) store = Ok (set_index 0 (stored_chunk key c1)) →
  Reassemble m keys store = Ok (d1 ++ d0).
Proof.
  intros Hk Hg c0 c1 Hids H0 H1. unfold Reassemble. rewrite Hg, Hids. cbn [wrap rbind fetch_loop].
  rewrite H0. cbn [wrap rbind]. rewrite decide_False by (intros H; by apply H).
  rewrite DecryptChunk_set_index. unfold c0. rewrite DecryptChunk_stored by done. cbn [wrap rbind].
  rewrite H1. cbn [wrap rbind]. rewrite decide_False by (intros H; by apply H).
  rewrite DecryptChunk_set_index. unfold c1. rewrite DecryptChunk_stored by done. cbn [wrap rbind].
  set (o0 := set_index 1 _). set (o1 := set_index 0 _). rewrite (sort_Slice_unique [o0; o1] [o1; o0]).
  - cbn. by rewrite app_nil_r.
  - change (NoDup [1; 0]). apply (bool_decide_eq_true_1 _). reflexivity.
  - constructor.
  - repeat constructor. unfold index_le. cbn. lia.
Qed.

(** Reassembly never writes unverified bytes: every chunk it uses hashes to
    its identifier in the manifest; a chunk whose stored data does not hash to
    its identifier makes the whole call fail. *)
Theorem Reassemble_integrity m keys store out :
  Reassemble m keys store = Ok out →
  ∀ id, id ∈ mf_ChunkIDs m → ∃ c, cs_get id store = Ok c ∧ sha256 (ck_Data c) = id.
Proof.
  unfold Reassemble. intros (key & _ & (chunks & Hf & _)%rbind_ok)%rbind_ok. revert chunks Hf.
  induction (mf_ChunkIDs m) as [|i ids IH]; intros chunks Hf id Hid; [by apply not_elem_of_nil in Hid|].
  cbn [fetch_loop] in Hf. apply rbind_ok in Hf as (c & Hc & Hf).
  destruct (cs_get i store) as [c0|] eqn:Hg; [|done]. injection Hc as ->.
  case_decide as Hh; [done|]. apply rbind_ok in Hf as (c' & _ & Hf).
  apply rbind_ok in Hf as (cs & Hf & _). apply elem_of_cons in Hid as [->|Hid]; eauto.
Qed.

End engine.

(** ** Concrete instances *)

Definition toy_mac (k n p : list byte) : list byte := take 16 (sha256 (k ++ n ++ p)).

#[global, program] Instance ToyAEAD : AEAD := {|
  aead_Seal k n p := p ++ toy_mac k n p;
  aead_Open k n c :=
    let p := take (length c - 16) c in
    if decide (drop (length c - 16) c = toy_mac k n p) then Ok p
    else Err (New "chacha20poly1305: message authentication failed")
|}.
Next Obligation. intros. cbv beta. unfold toy_mac. by rewrite length_app, length_take, length_sha256. Qed.
Next Obligation.
  intros k n p _ _. cbv beta zeta. rewrite length_app.
  replace (length p + length (toy_mac k n p) - 16)%nat with (length p)
    by (unfold toy_mac; rewrite length_take, length_sha256; lia).
  rewrite take_app_length, drop_app_length. by rewrite decide_True.
Qed.

(** Insertion sort is such a sort. *)
Fixpoint insert_index (c : Chunk) (l : list Chunk) : list Chunk :=
  match l with
  | [] => [c]
  | x :: l' => if decide (index_of c <= index_of x) then c :: l else x :: insert_index c l'
  end.

Lemma insert_index_perm c l : insert_index c l ≡ₚ c :: l.
Proof.
  induction l as [|x l IH]; [done|]. cbn. case_decide; [done|]. rewrite IH. constructor.
Qed.
Lemma insert_index_sorted c l : StronglySorted index_le l → StronglySorted index_le (insert_index c l).
Proof.
  induction 1 as [|x l Hs IH Hx]; [by repeat constructor|]. cbn. case_decide as H.
  - repeat constructor; [done..|]. eapply Forall_impl; [done|]. intros y. unfold index_le. lia.
  - constructor; [done|]. rewrite insert_index_perm. constructor; [unfold index_le; lia|done].
Qed.

#[global, program] Instance InsertionSort : SliceSort := {| sort_Slice := foldr insert_index [] |}.
Next Obligation. intros l. cbv beta. induction l as [|c l IH]; [done|]. cbn. by rewrite insert_index_perm, IH. Qed.
Next Obligation. intros l. cbv beta. induction l as [|c l IH]; [constructor|]. by apply insert_index_sorted. Qed.

Definition wit_data : list byte := bytes_of "hello world".
Definition wit_key : list byte := replicate 32 x07.

Lemma Reassemble_Ingest_witness :
  let _ := FSChunkStore 7 (λ _, None) in
  ∃ keys' store' m,
    Ingest 4 wit_data None "file" (Ok (replicate 32 x01)) (Ok wit_key) ∅ ∅ = Some (keys', store', Ok m) ∧
    Reassemble m keys' store' = Ok wit_data.
Proof.
  intros CS.
  destruct (Reassemble_Ingest (CS := CS) 4 wit_data "file" (replicate 32 x01) wit_key ∅ ∅)
    as (keys' & store' & m & H1 & _ & H3);
    [lia|vm_compute; reflexivity|vm_compute; reflexivity|reflexivity|intros c s; eexists; reflexivity|].
  exists keys', store', m. split; [exact H1|]. apply H3.
  assert (Hv : match Ingest (CS := CS) 4 wit_data None "file" (Ok (replicate 32 x01)) (Ok wit_key) ∅ ∅ with
               | Some (_, _, Ok m) => bool_decide (NoDup (mf_ChunkIDs m))
               | _ => false
               end = true) by (vm_compute; reflexivity).
  rewrite H1 in Hv. by apply bool_decide_eq_true in Hv.
Defined.

Lemma Reassemble_genuine_witness :
  let _ := FSChunkStore 7 (λ _, None) in
  ∃ keys store m cks, Reassemble m keys store = Ok wit_data ∧
    ∃ ps, ps ≡ₚ ck_Data <$> cks ∧ wit_data = concat ps.
Proof.
  intros CS.
  destruct (Ingest_spec (CS := CS) 4 wit_data "file" (replicate 32 x01) wit_key ∅ ∅)
    as (store' & m & cks & H1 & H2 & Hid & _ & H3);
    [lia|vm_compute; reflexivity|vm_compute; reflexivity|reflexivity|intros c s; eexists; reflexivity|].
  assert (Hv : match Ingest (CS := CS) 4 wit_data None "file" (Ok (replicate 32 x01)) (Ok wit_key) ∅ ∅ with
               | Some (_, _, Ok m) => bool_decide (NoDup (mf_ChunkIDs m))
               | _ => false
               end = true) by (vm_compute; reflexivity).
  rewrite H1 in Hv. apply bool_decide_eq_true in Hv. specialize (H3 Hv).
  assert (Hk : key_Get (cd_ID (mf_Descriptor m)) (key_Put (replicate 32 x01) wit_key ∅) = Ok wit_key)
    by (rewrite Hid; unfold key_Get, key_Put; by rewrite lookup_insert_eq).
  pose proof (Reassemble_stored (CS := CS) m _ wit_key wit_data cks store' eq_refl Hk H2 H3) as Hr.
  exists (key_Put (replicate 32 x01) wit_key ∅), store', m, cks. split; [exact Hr|].
  destruct (Reassemble_genuine (CS := CS) m _ wit_key wit_data cks store' wit_data H2 Hk Hr)
    as [Hf|[Hp _]]; [|exact Hp].
  exfalso. apply Exists_exists in Hf as (c & Hc & [(c' & Hg & Hne & _)|(c' & p & Hg & Hne & _)]);
    rewrite (proj1 (Forall_forall _ _) H3 c Hc) in Hg; injection Hg as <-; by apply Hne.
Defined.

Lemma Reassemble_integrity_witness :
  let _ := FSChunkStore 7 (λ _, None) in
  ∃ keys store m out, Reassemble m keys store = Ok out ∧ mf_ChunkIDs m ≠ [] ∧
    ∀ id, id ∈ mf_ChunkIDs m → ∃ c, cs_get id store = Ok c ∧ sha256 (ck_Data c) = id.
Proof.
  intros CS.
  assert (Hv : match Ingest (CS := CS) 4 wit_data None "file" (Ok (replicate 32 x01)) (Ok wit_key) ∅ ∅ with
               | Some (keys, st, Ok m) => is_ok (Reassemble m keys st) && negb (bool_decide (mf_ChunkIDs m = []))
               | _ => false
               end = true) by (vm_compute; reflexivity).
  destruct (Ingest (CS := CS) 4 wit_data None "file" (Ok (replicate 32 x01)) (Ok wit_key) ∅ ∅)
    as [[[keys store] [m|]]|]; [|discriminate Hv..].
  apply andb_true_iff in Hv as [Hr Hn].
  destruct (Reassemble m keys store) as [out|] eqn:Er; [|discriminate Hr].
  exists keys, store, m, out. split; [exact Er|].
  split; [intros H0; rewrite H0 in Hn; discriminate Hn|].
  exact (Reassemble_integrity m keys store out Er).
Defined.

(** With a zero chunk size [io.ReadFull] fills an empty buffer without error, so
    the loop of [Split] neither sends a chunk nor ends, on any input. *)
Lemma Split_zero_diverges fuel r rerr idx off : split_loop fuel 0 r rerr idx off = None.
Proof.
  revert idx off. induction fuel as [|fuel IH]; intros idx off; [done|].
  cbn [split_loop]. unfold read_full. rewrite decide_True by lia. simpl. by rewrite drop_0, IH.
Qed.
