(* ===== verification/ProofEngine.v ===== *)
(** * Provider proof engine and chunk-count resolver

    integration/availability: proof_engine.go (how a provider answers a
    challenge) and resolver.go (how a contract learns a file's chunk count).
    Both read manifests through the [core.ManifestStore] interface, which is
    the record [ManifestStore] below. *)

From S2P Require Import Prelude Sha256 Crypto AvailTypes Verification Merkle Content.

(** The two reading methods of [core.ManifestStore]. *)
Record ManifestStore := {
  ms_GetManifestBytes : list byte → result (list byte);
  ms_ListManifests : result (list (list byte));
}.

(** The file-system store seen through the interface. *)
Definition FSManifestStore (fs : FS) : ManifestStore :=
  {| ms_GetManifestBytes id := GetManifestBytes id fs; ms_ListManifests := Ok (ListManifests fs) |}.

Record ProviderProofEngine := {
  pe_providerID : string;
  pe_privKey : list byte;
  pe_pubKey : list byte;
  pe_chunkSource : option ManifestStore;   (* a chunk source that is a ManifestStore *)
  pe_trees : gmap string MerkleTree;
  pe_chunkPayload : gmap string (gmap Z (list byte));
}.

Definition NewProviderProofEngine (providerID : string) (privKey : list byte)
    (chunkSource : option ManifestStore) : result ProviderProofEngine :=
  if decide (providerID = ""%string) then Err (New "providerID is required")
  else if decide (zlen privKey ≠ PrivateKeySize) then
    Err (New "valid Ed25519 private key is required")
  else Ok {| pe_providerID := providerID; pe_privKey := privKey; pe_pubKey := ed_public privKey;
             pe_chunkSource := chunkSource; pe_trees := ∅; pe_chunkPayload := ∅ |}.

Definition set_trees (t : gmap string MerkleTree) (e : ProviderProofEngine) : ProviderProofEngine :=
  {| pe_providerID := pe_providerID e; pe_privKey := pe_privKey e; pe_pubKey := pe_pubKey e;
     pe_chunkSource := pe_chunkSource e; pe_trees := t; pe_chunkPayload := pe_chunkPayload e |}.

Definition set_payload (p : gmap string (gmap Z (list byte))) (e : ProviderProofEngine)
    : ProviderProofEngine :=
  {| pe_providerID := pe_providerID e; pe_privKey := pe_privKey e; pe_pubKey := pe_pubKey e;
     pe_chunkSource := pe_chunkSource e; pe_trees := pe_trees e; pe_chunkPayload := p |}.

(** [for i, c := range chunks { payload[i] = copy of c }]. *)
Definition store_payload (chunks : list (list byte)) (m : gmap Z (list byte)) : gmap Z (list byte) :=
  foldl (λ acc ic, <[Z.of_nat ic.1 := ic.2]> acc) m (imap pair chunks).

Definition RegisterFileChunks (fileID : string) (chunks : list (list byte))
    (e : ProviderProofEngine) : ProviderProofEngine * result MerkleTree :=
  if decide (fileID = ""%string) then (e, Err (New "fileID cannot be empty"))
  else if decide (zlen chunks = 0) then (e, Err (New "no chunks provided"))
  else
    match BuildMerkleTreeFromChunks chunks with
    | Err er => (e, Err (Wrap "build Merkle tree" er))
    | Ok tree =>
        let payload := default ∅ (pe_chunkPayload e !! fileID) in
        (set_payload (<[fileID := store_payload chunks payload]> (pe_chunkPayload e))
           (set_trees (<[fileID := tree]> (pe_trees e)) e), Ok tree)
    end.

Definition RegisterTree (fileID : string) (tree : option MerkleTree) (e : ProviderProofEngine)
    : ProviderProofEngine * result () :=
  match tree with
  | None => (e, Err (New "fileID and tree cannot be empty"))
  | Some tree =>
      if decide (fileID = ""%string) then (e, Err (New "fileID and tree cannot be empty"))
      else (set_trees (<[fileID := tree]> (pe_trees e)) e, Ok tt)
  end.

Definition MerkleRoot (fileID : string) (e : ProviderProofEngine) : result (list byte) :=
  match pe_trees e !! fileID with
  | None => Err (New "no tree registered for fileID")
  | Some tree => Ok (Root tree)
  end.

(** [b[0] ^= 0xFF]. *)
Definition flip_first (b : list byte) : list byte :=
  match b with [] => [] | x :: b' => byte_of_Z (Z.lxor (byte_to_Z x) 255) :: b' end.

Lemma lxor_255_neq z : 0 <= z < 256 → Z.lxor z 255 ≠ z ∧ 0 <= Z.lxor z 255 < 256.
Proof.
  intros H. assert (Hz : z = z mod 2 ^ 8) by (rewrite Z.mod_small; lia). split.
  - intros E. apply (f_equal (λ x, Z.testbit x 0)) in E.
    rewrite Z.lxor_spec in E. by destruct (Z.testbit z 0).
  - rewrite Hz. change 255 with (Z.ones 8). rewrite <- Z.land_ones by lia.
    replace (Z.lxor (Z.land z (Z.ones 8)) (Z.ones 8)) with (Z.land (Z.lxor z (Z.ones 8)) (Z.ones 8)).
    + rewrite Z.land_ones by lia. apply Z.mod_pos_bound. lia.
    + apply Z.bits_inj'. intros n Hn. rewrite !Z.land_spec, !Z.lxor_spec, !Z.land_spec.
      by destruct (Z.testbit z n), (Z.testbit (Z.ones 8) n).
Qed.

Lemma flip_first_neq b : length b = 32%nat → flip_first b ≠ b.
Proof.
  destruct b as [|x b]; [done|]. intros _ [= H].
  destruct (lxor_255_neq (byte_to_Z x) (byte_to_Z_range x)) as [Hne Hr].
  apply (f_equal byte_to_Z) in H. rewrite byte_to_of, Z.mod_small in H by done. done.
Qed.

Section engine.
Context {ED : Ed25519} {MC : ManifestCodec}.

(** Loading a tree on demand from the manifest store: the nested conditions,
    each of which just gives up. *)
Definition load_tree (fileID : string) (src : option ManifestStore) : option MerkleTree :=
  store ← src;
  idBytes ← DecodeString fileID;
  if decide (zlen idBytes = 32) then
    match ms_GetManifestBytes store idBytes with
    | Err _ => None
    | Ok mData =>
        match Deserialize mData with
        | Err _ => None
        | Ok m =>
            match NewMerkleTree (map copy32 (mf_ChunkIDs m)) with
            | Err _ => None
            | Ok newTree => Some newTree
            end
        end
    end
  else None.

Definition generateResponse (challenge : Challenge) (corruptHash corruptSig : bool) (now : Z)
    (e : ProviderProofEngine) : ProviderProofEngine * result ChallengeResponse :=
  if decide (ch_ChallengeID challenge = ""%string) then (e, Err (New "challenge ID is empty"))
  else
    let '(e, tree) :=
      match pe_trees e !! ch_FileID challenge with
      | Some t => (e, Some t)
      | None =>
          match load_tree (ch_FileID challenge) (pe_chunkSource e) with
          | Some t => ((RegisterTree (ch_FileID challenge) (Some t) e).1, Some t)
          | None => (e, None)
          end
      end in
    match tree with
    | None => (e, Err (New "file not found on provider"))
    | Some tree =>
        if decide (ch_ChunkID challenge < 0 ∨ ch_ChunkID challenge >= LeafCount tree) then
          (e, Err (New "chunk index out of bounds"))
        else
          match GenerateProof tree (ch_ChunkID challenge) with
          | Err er => (e, Err (Wrap "generate Merkle proof" er))
          | Ok proof =>
              let chunkHash := copy32 (default [] (mt_leaves tree !! Z.to_nat (ch_ChunkID challenge))) in
              let chunkHash := if corruptHash then flip_first chunkHash else chunkHash in
              let digest := ComputeProofDigest chunkHash (ch_Nonce challenge) (ch_ChallengeID challenge) in
              let sig := ed_sign (pe_privKey e) digest in
              let sig := if corruptSig then flip_first sig else sig in
              (e, Ok {| rs_ChallengeID := ch_ChallengeID challenge;
                        rs_ContractID := ch_ContractID challenge;
                        rs_ProviderID := pe_providerID e; rs_FileID := ch_FileID challenge;
                        rs_ChunkID := ch_ChunkID challenge; rs_ChunkHash := chunkHash;
                        rs_MerkleProof := proof; rs_Signature := sig; rs_RespondedAt := now |})
          end
    end.

Definition HandleChallenge (challenge : Challenge) (now : Z) (e : ProviderProofEngine)
    : ProviderProofEngine * result ChallengeResponse :=
  generateResponse challenge false false now e.

Definition HandleChallengeAdversarial (challenge : Challenge) (corruptChunkHash corruptSig : bool)
    (now : Z) (e : ProviderProofEngine) : ProviderProofEngine * result ChallengeResponse :=
  generateResponse challenge corruptChunkHash corruptSig now e.

(** ** resolver.go *)

Record StorageChunkCountResolver := {
  rv_manifestStore : option ManifestStore;
  rv_inMemory : gmap string Manifest;
}.

Definition NewStorageChunkCountResolver (store : option ManifestStore) : StorageChunkCountResolver :=
  {| rv_manifestStore := store; rv_inMemory := ∅ |}.

Definition RegisterManifest (m : option Manifest) (aliases : list string)
    (r : StorageChunkCountResolver) : StorageChunkCountResolver :=
  match m with
  | None => r
  | Some m =>
      let contentIDHex := EncodeToString (cd_ID (mf_Descriptor m)) in
      {| rv_manifestStore := rv_manifestStore r;
         rv_inMemory := foldl (λ acc a, if decide (a = ""%string) then acc else <[a := m]> acc)
                          (<[contentIDHex := m]> (rv_inMemory r)) aliases |}
  end.

(** Reading a manifest with at least one chunk from the store. *)
Definition usable_manifest (store : ManifestStore) (id : list byte) : option Manifest :=
  match ms_GetManifestBytes store id with
  | Err _ => None
  | Ok data =>
      match Deserialize data with
      | Err _ => None
      | Ok m => if decide (zlen (mf_ChunkIDs m) > 0) then Some m else None
      end
  end.

(** The scan over [ListManifests]. *)
Fixpoint scan_manifests (store : ManifestStore) (fileID : string) (ids : list (list byte))
    : option Manifest :=
  match ids with
  | [] => None
  | id :: rest =>
      if decide (EncodeToString id = fileID) then
        match usable_manifest store id with
        | Some m => Some m
        | None => scan_manifests store fileID rest
        end
      else scan_manifests store fileID rest
  end.

Definition ChunkCount (providerID fileID : string) (r : StorageChunkCountResolver)
    : StorageChunkCountResolver * result Z :=
  let notFound := (r, Err (New "file chunk metadata not found")) in
  if decide (fileID = ""%string) then (r, Err (New "fileID cannot be empty"))
  else
    match rv_inMemory r !! fileID with
    | Some m =>
        if decide (zlen (mf_ChunkIDs m) = 0) then (r, Err (New "manifest has 0 chunks"))
        else (r, Ok (zlen (mf_ChunkIDs m)))
    | None =>
        match rv_manifestStore r with
        | None => notFound
        | Some store =>
            let direct :=
              match DecodeString fileID with
              | Some idBytes =>
                  if decide (zlen idBytes = 32) then usable_manifest store idBytes else None
              | None => None
              end in
            let found :=
              match direct with
              | Some m => Some m
              | None =>
                  match ms_ListManifests store with
                  | Err _ => None
                  | Ok ids => scan_manifests store fileID ids
                  end
              end in
            match found with
            | Some m => (RegisterManifest (Some m) [] r, Ok (zlen (mf_ChunkIDs m)))
            | None => notFound
            end
        end
    end.

(** ** Answering challenges *)

(** The tree the engine answers from: the registered one, else the one it can
    load. *)
Definition provider_tree (e : ProviderProofEngine) (fileID : string) : option MerkleTree :=
  match pe_trees e !! fileID with
  | Some t => Some t
  | None => load_tree fileID (pe_chunkSource e)
  end.

Lemma generateResponse_spec ch (cH cS : bool) now e leaves t i h :
  ch_ChallengeID ch ≠ ""%string → provider_tree e (ch_FileID ch) = Some t →
  NewMerkleTree leaves = Ok t → ch_ChunkID ch = Z.of_nat i → leaves !! i = Some h →
  ∃ e' proof, GenerateProof t (Z.of_nat i) = Ok proof ∧
    let hash := if cH then flip_first h else h in
    let sig := ed_sign (pe_privKey e) (ComputeProofDigest hash (ch_Nonce ch) (ch_ChallengeID ch)) in
    generateResponse ch cH cS now e =
      (e', Ok {| rs_ChallengeID := ch_ChallengeID ch; rs_ContractID := ch_ContractID ch;
                 rs_ProviderID := pe_providerID e; rs_FileID := ch_FileID ch;
                 rs_ChunkID := ch_ChunkID ch; rs_ChunkHash := hash; rs_MerkleProof := proof;
                 rs_Signature := if cS then flip_first sig else sig; rs_RespondedAt := now |}).
Proof.
  intros Hne Htree Hn Hid Hi. unfold generateResponse. rewrite decide_False by done.
  destruct (NewMerkleTree_Ok_inv _ _ Hn) as (_ & Hh & Hlv & _ & _).
  destruct (GenerateProof_complete leaves t i h Hn Hi) as (proof & Hp & _).
  pose proof (lookup_lt_Some _ _ _ Hi) as Hlt.
  pose proof (Forall_lookup_1 _ _ _ _ Hh Hi) as H32; simpl in H32.
  unfold provider_tree in Htree.
  destruct (pe_trees e !! ch_FileID ch) as [t0|] eqn:Ht0.
  - injection Htree as ->. exists e, proof. split; [done|].
    unfold LeafCount. rewrite Hid, Hlv, decide_False by (unfold zlen; lia).
    rewrite Hp, Nat2Z.id, Hi. simpl default. by rewrite copy32_id.
  - rewrite Htree. eexists _, proof. split; [done|].
    unfold LeafCount. rewrite Hid, Hlv, decide_False by (unfold zlen; lia).
    rewrite Hp, Nat2Z.id, Hi. simpl default. rewrite copy32_id by done.
    assert (Hk : pe_privKey (RegisterTree (ch_FileID ch) (Some t) e).1 = pe_privKey e ∧
                 pe_providerID (RegisterTree (ch_FileID ch) (Some t) e).1 = pe_providerID e).
    { unfold RegisterTree. by case_decide. }
    destruct Hk as [-> ->]. done.
Qed.

Lemma honest_accepted e ch now timeout leaves t :
  provider_tree e (ch_FileID ch) = Some t → NewMerkleTree leaves = Ok t →
  ed_valid (pe_privKey e) → pe_pubKey e = ed_public (pe_privKey e) →
  ch_ChallengeID ch ≠ ""%string → ch_ProviderID ch = pe_providerID e →
  0 <= ch_ChunkID ch < zlen leaves → (0 < timeout → now <= ch_CreatedAt ch + timeout) →
  ∃ e' r, HandleChallenge ch now e = (e', Ok r) ∧
    VerifyChallengeResponse ch r (Root t) (pe_pubKey e) timeout = Ok tt.
Proof.
  intros Htree Hn Hk Hpk Hne Hprov Hc Htime.
  assert (Hid : ch_ChunkID ch = Z.of_nat (Z.to_nat (ch_ChunkID ch))) by lia.
  destruct (lookup_lt_is_Some_2 leaves (Z.to_nat (ch_ChunkID ch))) as [h Hh]; [unfold zlen in Hc; lia|].
  destruct (generateResponse_spec ch false false now e leaves t _ h Hne Htree Hn Hid Hh)
    as (e' & proof & Hp & Hr).
  destruct (GenerateProof_complete leaves t _ h Hn Hh) as (proof' & Hp' & Hv & _).
  rewrite Hp in Hp'. injection Hp' as <-. rewrite <- Hid in Hv.
  eexists e', _. split; [exact Hr|]. apply VerifyChallengeResponse_spec. split; simpl; try done.
  - by eapply length_Root.
  - intros _. rewrite Hpk. split_and!.
    + by apply ed_public_length.
    + apply ed_sign_length, ed_valid_length, Hk.
    + by apply ed_verify_public.
Qed.

(** Answering may load a tree, and changes nothing else. *)
Lemma generateResponse_keeps ch cH cS now e e' r :
  generateResponse ch cH cS now e = (e', r) →
  e' = set_trees (pe_trees e') e ∧ pe_trees e ⊆ pe_trees e'.
Proof.
  assert (Hs : e = set_trees (pe_trees e) e) by (by destruct e).
  unfold generateResponse. case_decide; [intros [= <- _]; done|].
  destruct (pe_trees e !! ch_FileID ch) as [t|] eqn:Ht.
  { repeat case_match; intros [= <- _]; done. }
  destruct (load_tree _ _) as [t|]; [|intros [= <- _]; done].
  unfold RegisterTree. assert (Hsub : pe_trees e ⊆ <[ch_FileID ch := t]> (pe_trees e))
    by (by apply insert_subseteq).
  repeat case_match; simplify_eq/=; intros [= <- _]; done.
Qed.

(** The trees the engine can answer from stay the same. *)
Lemma generateResponse_trees ch cH cS now e e' r f :
  generateResponse ch cH cS now e = (e', r) → provider_tree e' f = provider_tree e f.
Proof.
  unfold generateResponse. case_decide; [by intros [= <- _]|].
  destruct (pe_trees e !! ch_FileID ch) as [t|] eqn:Ht.
  { repeat case_match; by intros [= <- _]. }
  destruct (load_tree _ _) as [t|] eqn:Hl; [|by intros [= <- _]]. unfold RegisterTree.
  assert (Hk : provider_tree (set_trees (<[ch_FileID ch := t]> (pe_trees e)) e) f = provider_tree e f).
  { unfold provider_tree. simpl. destruct (decide (f = ch_FileID ch)) as [->|Hn].
    - by rewrite lookup_insert_eq, Ht, Hl.
    - by rewrite lookup_insert_ne. }
  repeat case_match; simplify_eq/=; by intros [= <- _].
Qed.

(** C16: An honest provider passes: for a tree the engine holds or can load from
    its manifest store, the answer to a well-formed challenge on any chunk of
    the file is accepted against that tree's root and the engine's public key
    when it is given in time. *)
Theorem HandleChallenge_accepted e ch now timeout leaves t :
  provider_tree e (ch_FileID ch) = Some t → NewMerkleTree leaves = Ok t →
  ed_valid (pe_privKey e) → pe_pubKey e = ed_public (pe_privKey e) →
  ch_ChallengeID ch ≠ ""%string → ch_ProviderID ch = pe_providerID e →
  0 <= ch_ChunkID ch < zlen leaves → (0 < timeout → now <= ch_CreatedAt ch + timeout) →
  ∃ e' r, HandleChallenge ch now e = (e', Ok r) ∧
    VerifyChallengeResponse ch r (Root t) (pe_pubKey e) timeout = Ok tt.
Proof. apply honest_accepted. Qed.

(** A manifest in the store makes the tree of its chunk identifiers available. *)
Lemma provider_tree_manifest e fs id m :
  pe_chunkSource e = Some (FSManifestStore fs) → length id = 32%nat →
  pe_trees e !! EncodeToString id = None →
  GetManifestBytes id fs = Ok (Serialize m) → manifest_typed m → mf_ChunkIDs m ≠ [] →
  ∃ t, NewMerkleTree (mf_ChunkIDs m) = Ok t ∧ provider_tree e (EncodeToString id) = Some t.
Proof.
  intros Hsrc Hid Ht Hget Hm Hne.
  destruct (NewMerkleTree_ok (mf_ChunkIDs m) Hne (mt_chunks _ Hm)) as (ls & r & Hn & _).
  eexists. split; [exact Hn|]. unfold provider_tree, load_tree. rewrite Ht, Hsrc. simpl.
  rewrite DecodeString_EncodeToString. simpl. rewrite decide_True by (unfold zlen; lia).
  rewrite Hget, Deserialize_Serialize, map_copy32_id, Hn by (done || apply Hm). done.
Qed.

(** A provider that stored a file's manifest answers for every chunk of it
    without any chunk having been registered: the tree is rebuilt from the
    manifest's chunk identifiers and the answer verifies against its root. *)
Theorem HandleChallenge_from_manifest e fs id m ch now timeout :
  pe_chunkSource e = Some (FSManifestStore fs) → length id = 32%nat →
  pe_trees e !! EncodeToString id = None →
  GetManifestBytes id fs = Ok (Serialize m) → manifest_typed m → mf_ChunkIDs m ≠ [] →
  ed_valid (pe_privKey e) → pe_pubKey e = ed_public (pe_privKey e) →
  ch_FileID ch = EncodeToString id → ch_ChallengeID ch ≠ ""%string →
  ch_ProviderID ch = pe_providerID e → 0 <= ch_ChunkID ch < zlen (mf_ChunkIDs m) →
  (0 < timeout → now <= ch_CreatedAt ch + timeout) →
  ∃ t e' r, NewMerkleTree (mf_ChunkIDs m) = Ok t ∧ HandleChallenge ch now e = (e', Ok r) ∧
    VerifyChallengeResponse ch r (Root t) (pe_pubKey e) timeout = Ok tt.
Proof.
  intros Hsrc Hid Ht Hget Hm Hne Hk Hpk Hf Hcid Hprov Hc Htime.
  destruct (provider_tree_manifest e fs id m) as (t & Hn & Htree); try done.
  rewrite <- Hf in Htree.
  destruct (honest_accepted e ch now timeout (mf_ChunkIDs m) t) as (e' & r & H1 & H2); try done.
  by exists t, e', r.
Qed.

(** A corrupted chunk hash is caught: if the answer of
    [HandleChallengeAdversarial] with a corrupted hash were accepted, two
    different inputs with the same SHA-256 digest could be computed from it. *)
Theorem corrupted_hash_rejected e ch cS now timeout pk leaves t e' r :
  provider_tree e (ch_FileID ch) = Some t → NewMerkleTree leaves = Ok t →
  ch_ChallengeID ch ≠ ""%string → 0 <= ch_ChunkID ch < zlen leaves →
  HandleChallengeAdversarial ch true cS now e = (e', Ok r) →
  VerifyChallengeResponse ch r (Root t) pk timeout = Ok tt →
  ∃ a b, extract_collision (mt_levels t) (rs_ChunkHash r) (ch_ChunkID ch) (rs_MerkleProof r) = Some (a, b) ∧
         sha256_collision a b.
Proof.
  intros Htree Hn Hne Hc Hr Hv.
  assert (Hi : ch_ChunkID ch = Z.of_nat (Z.to_nat (ch_ChunkID ch))) by lia.
  destruct (lookup_lt_is_Some_2 leaves (Z.to_nat (ch_ChunkID ch))) as [h Hh]; [unfold zlen in Hc; lia|].
  destruct (generateResponse_spec ch true cS now e leaves t _ h Hne Htree Hn Hi Hh)
    as (e1 & proof & Hp & Hr1).
  unfold HandleChallengeAdversarial in Hr. rewrite Hr1 in Hr. injection Hr as <- <-. simpl.
  apply VerifyChallengeResponse_spec in Hv as [_ _ _ _ _ _ _ _ Hm _]. simpl in Hm.
  destruct (GenerateProof_complete leaves t _ h Hn Hh) as (proof' & Hp' & _ & Hlen).
  rewrite Hp in Hp'. injection Hp' as <-. rewrite Hi in Hm |- *.
  destruct (merkle_sound leaves t _ h (flip_first h) proof Hn Hh Hlen Hm) as [Hx|]; [|done].
  exfalso. destruct (NewMerkleTree_Ok_inv _ _ Hn) as (_ & H32 & _).
  pose proof (Forall_lookup_1 _ _ _ _ H32 Hh) as H0; simpl in H0. by apply (flip_first_neq h).
Qed.

(** ** Resolving chunk counts *)

Lemma usable_manifest_Some store id m :
  usable_manifest store id = Some m ↔
  (∃ data, ms_GetManifestBytes store id = Ok data ∧ Deserialize data = Ok m) ∧ 0 < zlen (mf_ChunkIDs m).
Proof.
  unfold usable_manifest. destruct (ms_GetManifestBytes store id) as [d|].
  2:{ split; [done|]. by intros [(d' & ? & _) _]. }
  destruct (Deserialize d) as [m'|] eqn:E.
  2:{ split; [done|]. intros [(d' & [= <-] & E') _]. congruence. }
  case_decide as Hz; split; try done.
  - intros [= ->]. split; [eauto|lia].
  - intros [(d' & [= <-] & E') Hm]. congruence.
  - intros [(d' & [= <-] & E') Hm]. rewrite E in E'. injection E' as ->. lia.
Qed.

Lemma scan_manifests_Some store f ids m :
  scan_manifests store f ids = Some m → ∃ id, EncodeToString id = f ∧ usable_manifest store id = Some m.
Proof.
  induction ids as [|id ids IH]; simpl; [done|]. case_decide as Hd; [|done].
  destruct (usable_manifest store id) eqn:E; [|done]. intros [= <-]. eauto.
Qed.

(** A chunk count the resolver hands to a contract is positive and is the
    number of chunk identifiers of a manifest that is cached under the file's
    name or stored under the content identifier it encodes; and once a file
    whose manifest carries its own identifier has been resolved, the answer
    no longer depends on the store. *)
Theorem ChunkCount_sound prov fileID r r' n :
  ChunkCount prov fileID r = (r', Ok n) →
  ∃ m, n = zlen (mf_ChunkIDs m) ∧ 0 < n ∧
    (rv_inMemory r !! fileID = Some m ∨
     ∃ store id data, rv_manifestStore r = Some store ∧ DecodeString fileID = Some id ∧
       ms_GetManifestBytes store id = Ok data ∧ Deserialize data = Ok m) ∧
    (EncodeToString (cd_ID (mf_Descriptor m)) = fileID →
     ∀ store', (ChunkCount prov fileID
                  {| rv_manifestStore := store'; rv_inMemory := rv_inMemory r' |}).2 = Ok n).
Proof.
  unfold ChunkCount. case_decide as Hf; [done|].
  destruct (rv_inMemory r !! fileID) as [m|] eqn:Hmem.
  { case_decide as Hz; [done|]. intros [= <- <-]. exists m. pose proof (zlen_nonneg (mf_ChunkIDs m)).
    split_and!; [done|lia|by left|]. intros _ store'. simpl.
    rewrite Hmem, decide_False by done. done. }
  destruct (rv_manifestStore r) as [store|] eqn:Hs; [|done].
  destruct (match _ with Some m => Some m | None => _ end) as [m|] eqn:Hfound; [|done].
  intros [= <- <-].
  assert (Hu : ∃ id, DecodeString fileID = Some id ∧ usable_manifest store id = Some m).
  { destruct (DecodeString fileID) as [idb|] eqn:Hd.
    - destruct (decide (zlen idb = 32)); [destruct (usable_manifest store idb) eqn:E|].
      + injection Hfound as <-. eauto.
      + destruct (ms_ListManifests store) as [ids|]; [|done].
        apply scan_manifests_Some in Hfound as (id & He & Hm). subst.
        rewrite DecodeString_EncodeToString in Hd. injection Hd as <-. eauto.
      + destruct (ms_ListManifests store) as [ids|]; [|done].
        apply scan_manifests_Some in Hfound as (id & He & Hm). subst.
        rewrite DecodeString_EncodeToString in Hd. injection Hd as <-. eauto.
    - destruct (ms_ListManifests store) as [ids|]; [|done].
      apply scan_manifests_Some in Hfound as (id & He & Hm). subst.
      by rewrite DecodeString_EncodeToString in Hd. }
  destruct Hu as (id & Hid & ((data & Hg & Hd) & Hpos)%usable_manifest_Some).
  exists m. split_and!; [done|done|right; by exists store, id, data|].
  intros Heq store'. simpl. rewrite Heq, lookup_insert_eq, decide_False by lia. done.
Qed.

End engine.

(** ** Witnesses *)

Definition wit_engine (t : MerkleTree) : ProviderProofEngine :=
  {| pe_providerID := "p1"; pe_privKey := toy_key 5; pe_pubKey := ed_public (toy_key 5);
     pe_chunkSource := None; pe_trees := {["f1" := t]}; pe_chunkPayload := ∅ |}.

Definition wit_ask (file : string) : Challenge :=
  {| ch_ChallengeID := "c1"; ch_ContractID := "k1"; ch_ProviderID := "p1"; ch_FileID := file;
     ch_EpochID := "e"; ch_ChunkID := 1; ch_Nonce := [x01]; ch_ChallengeCounter := 0;
     ch_RoundNumber := 0; ch_TriggerStatus := false; ch_CreatedAt := 100 |}.

Definition wit_leaves : list (list byte) := [leaf_a; leaf_b; leaf_c].
Lemma wit_leaves_32 : Forall (λ h, length h = 32%nat) wit_leaves.
Proof. repeat constructor; apply length_sha256. Qed.

Lemma HandleChallenge_accepted_witness : ∃ t e' r,
  HandleChallenge (wit_ask "f1") 150 (wit_engine t) = (e', Ok r) ∧
  VerifyChallengeResponse (wit_ask "f1") r (Root t) (pe_pubKey (wit_engine t)) 60 = Ok tt.
Proof.
  destruct (NewMerkleTree_ok wit_leaves ltac:(discriminate) wit_leaves_32) as (ls & rt & Hn & _).
  exists {| mt_leaves := wit_leaves; mt_levels := ls; mt_root := rt |}.
  apply (HandleChallenge_accepted (wit_engine _) (wit_ask "f1") 150 60 wit_leaves _);
    [reflexivity|exact Hn|reflexivity|reflexivity|discriminate|reflexivity|vm_compute; split; congruence
    |simpl; lia].
Defined.

Definition wit_manifest : Manifest :=
  {| mf_Version := 1; mf_Descriptor := {| cd_ID := leaf_a; cd_Type := "file"; cd_Size := 3 |};
     mf_ChunkIDs := wit_leaves; mf_MerkleRoot := leaf_a; mf_WholeHash := leaf_a;
     mf_Crypto := {| cy_Algorithm := ""; cy_Version := 1; cy_ChunkNonceSize := 12; cy_KeyID := "" |} |}.
Lemma wit_manifest_typed : manifest_typed wit_manifest.
Proof. split; [apply length_sha256|apply wit_leaves_32]. Qed.

Definition wit_fs : FS := (PutManifestBytes leaf_a (Serialize wit_manifest) ∅).1.
Lemma wit_fs_get : GetManifestBytes leaf_a wit_fs = Ok (Serialize wit_manifest).
Proof. unfold wit_fs. rewrite GetManifestBytes_Put. by rewrite decide_True. Qed.

Definition wit_engine2 : ProviderProofEngine :=
  {| pe_providerID := "p1"; pe_privKey := toy_key 5; pe_pubKey := ed_public (toy_key 5);
     pe_chunkSource := Some (FSManifestStore wit_fs); pe_trees := ∅; pe_chunkPayload := ∅ |}.

Lemma HandleChallenge_from_manifest_witness : ∃ t e' r,
  HandleChallenge (wit_ask (EncodeToString leaf_a)) 150 wit_engine2 = (e', Ok r) ∧
  VerifyChallengeResponse (wit_ask (EncodeToString leaf_a)) r (Root t) (pe_pubKey wit_engine2) 60 = Ok tt.
Proof.
  destruct (HandleChallenge_from_manifest wit_engine2 wit_fs leaf_a wit_manifest
    (wit_ask (EncodeToString leaf_a)) 150 60) as (t & e' & r & _ & H1 & H2);
    [reflexivity|apply length_sha256|apply lookup_empty|exact wit_fs_get|exact wit_manifest_typed
    |discriminate|reflexivity|reflexivity|reflexivity|discriminate|reflexivity
    |simpl; unfold zlen; simpl; lia|simpl; lia|].
  exists t, e', r. auto.
Defined.

Lemma corrupted_hash_rejected_witness : ∃ t e' r,
  HandleChallengeAdversarial (wit_ask "f1") true false 150 (wit_engine t) = (e', Ok r) ∧
  (VerifyChallengeResponse (wit_ask "f1") r (Root t) [] 60 = Ok tt →
   ∃ a b, sha256_collision a b).
Proof.
  destruct (NewMerkleTree_ok wit_leaves ltac:(discriminate) wit_leaves_32) as (ls & rt & Hn & _).
  set (t := {| mt_leaves := wit_leaves; mt_levels := ls; mt_root := rt |}) in *.
  destruct (generateResponse_spec (wit_ask "f1") true false 150 (wit_engine t) wit_leaves t 1 leaf_b)
    as (e' & proof & _ & Hr); [discriminate|reflexivity|exact Hn|reflexivity..|].
  eexists t, e', _. split; [exact Hr|]. intros Hv.
  destruct (corrupted_hash_rejected (wit_engine t) (wit_ask "f1") false 150 60 [] wit_leaves t _ _
    eq_refl Hn ltac:(discriminate) ltac:(vm_compute; split; congruence) Hr Hv) as (a & b & _ & Hc).
  exists a, b. exact Hc.
Defined.

Lemma ChunkCount_sound_witness : ∃ r' n m,
  ChunkCount "p" "alias" (RegisterManifest (Some wit_manifest) ["alias"%string]
    (NewStorageChunkCountResolver None)) = (r', Ok n) ∧ n = zlen (mf_ChunkIDs m) ∧ 0 < n.
Proof.
  destruct (ChunkCount "p" "alias" (RegisterManifest (Some wit_manifest) ["alias"%string]
    (NewStorageChunkCountResolver None))) as [r' [n|e]] eqn:E; [|refute_err E].
  destruct (ChunkCount_sound _ _ _ _ _ E) as (m & H1 & H2 & _). exists r', n, m. auto.
Defined.
