(* ===== verification/Bindings.v ===== *)
(** * Identity bindings

    escrow-payment/bindings/registry.go: Ethereum addresses ([[20]byte]) and
    escrow identifiers ([[32]byte]) with their hexadecimal form, and the
    registry that binds availability identities to them.  Each method holds
    the registry's lock for its whole body. *)

From S2P Require Import Prelude.

(** [0x]-prefixed hexadecimal of [n] bytes; the prefix is optional on input. *)
Definition parse_fixed (n : Z) (msg value : string) : result (list byte) :=
  let value := if decide (slen value = 2 * n + 2 ∧ slice 0 2 value = "0x"%string)
               then slice 2 (slen value) value else value in
  match DecodeString value with
  | Some decoded => if decide (zlen decoded ≠ n) then Err (New msg) else Ok decoded
  | None => Err (New msg)
  end.

Definition ParseEthereumAddress (value : string) : result (list byte) :=
  parse_fixed 20 "Ethereum address must be exactly 20 bytes of hex" value.
Definition ParseEscrowContractID (value : string) : result (list byte) :=
  parse_fixed 32 "escrow contract ID must be exactly 32 bytes of hex" value.

(** [EthereumAddress.String] and [EscrowContractID.String]. *)
Definition hex_String (b : list byte) : string := "0x" +:+ EncodeToString b.

Definition zero_bytes (n : nat) : list byte := replicate n x00.

Record Registry := {
  rg_providers : gmap string (list byte);
  rg_contracts : gmap string (list byte);
}.
Definition NewRegistry : Registry := {| rg_providers := ∅; rg_contracts := ∅ |}.

Definition BindProvider (peerID : string) (address : list byte) (r : Registry)
    : Registry * result () :=
  if decide (peerID = ""%string ∨ address = zero_bytes 20) then
    (r, Err (New "peer ID and non-zero Ethereum address are required"))
  else
    match rg_providers r !! peerID with
    | Some existing =>
        if decide (existing ≠ address) then
          (r, Err (New "peer ID is already bound to a different Ethereum address"))
        else (r, Ok tt)
    | None =>
        ({| rg_providers := <[peerID := address]> (rg_providers r);
            rg_contracts := rg_contracts r |}, Ok tt)
    end.

Definition BindContract (contractID : string) (escrowContractID : list byte) (r : Registry)
    : Registry * result () :=
  if decide (contractID = ""%string ∨ escrowContractID = zero_bytes 32) then
    (r, Err (New "availability contract ID and non-zero escrow contract ID are required"))
  else
    match rg_contracts r !! contractID with
    | Some existing =>
        if decide (existing ≠ escrowContractID) then
          (r, Err (New "contract ID is already bound to a different escrow contract"))
        else (r, Ok tt)
    | None =>
        ({| rg_providers := rg_providers r;
            rg_contracts := <[contractID := escrowContractID]> (rg_contracts r) |}, Ok tt)
    end.

Definition ProviderAddress (peerID : string) (r : Registry) : option (list byte) :=
  rg_providers r !! peerID.
Definition EscrowID (contractID : string) (r : Registry) : option (list byte) :=
  rg_contracts r !! contractID.

(** ** Text form *)

Lemma hex_String_inj a b : hex_String a = hex_String b → a = b.
Proof. intros H. simplify_eq/=. by apply EncodeToString_inj. Qed.

Lemma slice_prefix p s : slice 0 (slen p) (p +:+ s) = p.
Proof.
  unfold slice. rewrite bytes_of_app. unfold slen, zlen.
  rewrite Z.sub_0_r, Nat2Z.id. change (Z.to_nat 0) with 0%nat.
  rewrite drop_0, take_app_length. apply string_of_bytes_of.
Qed.

Lemma slice_suffix p s : slice (slen p) (slen (p +:+ s)) (p +:+ s) = s.
Proof.
  unfold slice. rewrite slen_app, bytes_of_app. unfold slen, zlen.
  rewrite Nat2Z.id, drop_app_length, take_ge by lia. apply string_of_bytes_of.
Qed.

Lemma parse_fixed_String n msg b :
  0 <= n → zlen b = n → parse_fixed n msg (hex_String b) = Ok b.
Proof.
  intros Hn Hb. unfold parse_fixed, hex_String.
  assert (He : slen (EncodeToString b) = 2 * zlen b).
  { unfold slen, EncodeToString, zlen. rewrite bytes_of_string_of, length_hex_encode_bytes. lia. }
  rewrite decide_True.
  - change 2 with (slen "0x") at 1. rewrite slice_suffix, DecodeString_EncodeToString.
    by rewrite decide_False by lia.
  - split; [rewrite slen_app, He; change (slen "0x") with 2; lia|apply (slice_prefix "0x")].
Qed.

Lemma parse_fixed_Ok n msg v b : parse_fixed n msg v = Ok b → zlen b = n.
Proof.
  unfold parse_fixed. destruct (DecodeString _); [|done]. case_decide; [done|]. by intros [= <-].
Qed.

(** The text forms round-trip: printing any 20-byte address or 32-byte
    escrow identifier and parsing it gives the value back, whatever parses has
    the right size, and distinct values print differently. *)
Theorem parse_String_roundtrip :
  (∀ a, length a = 20%nat → ParseEthereumAddress (hex_String a) = Ok a) ∧
  (∀ c, length c = 32%nat → ParseEscrowContractID (hex_String c) = Ok c) ∧
  (∀ v a, ParseEthereumAddress v = Ok a → length a = 20%nat) ∧
  (∀ v c, ParseEscrowContractID v = Ok c → length c = 32%nat) ∧
  (∀ a b, hex_String a = hex_String b → a = b).
Proof.
  split_and!.
  - intros a Ha. apply parse_fixed_String; [lia|]. unfold zlen. lia.
  - intros a Ha. apply parse_fixed_String; [lia|]. unfold zlen. lia.
  - intros v a H%parse_fixed_Ok. unfold zlen in H. lia.
  - intros v a H%parse_fixed_Ok. unfold zlen in H. lia.
  - apply hex_String_inj.
Qed.

(** ** Stability of bindings *)

Inductive registry_step : Registry → Registry → Prop :=
| rs_provider p a r : registry_step r (BindProvider p a r).1
| rs_contract c e r : registry_step r (BindContract c e r).1.

Definition registry_le (r r' : Registry) : Prop :=
  rg_providers r ⊆ rg_providers r' ∧ rg_contracts r ⊆ rg_contracts r'.

#[global] Instance registry_le_preorder : PreOrder registry_le.
Proof.
  split; [by split|]. intros a b c [H1 H2] [H3 H4]. split; by etrans.
Qed.

Lemma BindProvider_le p a r : registry_le r (BindProvider p a r).1.
Proof.
  unfold BindProvider. repeat case_match; try reflexivity. split; simpl; [|done].
  by apply insert_subseteq.
Qed.

Lemma BindContract_le c e r : registry_le r (BindContract c e r).1.
Proof.
  unfold BindContract. repeat case_match; try reflexivity. split; simpl; [done|].
  by apply insert_subseteq.
Qed.

Lemma registry_steps_le r r' : rtc registry_step r r' → registry_le r r'.
Proof.
  induction 1 as [|x y z Hxy _ IH]; [reflexivity|]. etrans; [|exact IH].
  destruct Hxy; [apply BindProvider_le|apply BindContract_le].
Qed.

(** A binding is permanent: whatever calls follow, a bound peer keeps its
    Ethereum address and a bound contract its escrow identifier; binding
    again to the same value succeeds, to any other value fails, and neither
    changes the registry. *)
Theorem bindings_permanent r r' p a c e :
  rtc registry_step r r' → ProviderAddress p r = Some a → EscrowID c r = Some e →
  ProviderAddress p r' = Some a ∧ EscrowID c r' = Some e ∧
  (∀ x, x ≠ zero_bytes 20 → p ≠ ""%string →
     (BindProvider p x r').1 = r' ∧ (is_ok (BindProvider p x r').2 = true ↔ x = a)) ∧
  (∀ x, x ≠ zero_bytes 32 → c ≠ ""%string →
     (BindContract c x r').1 = r' ∧ (is_ok (BindContract c x r').2 = true ↔ x = e)).
Proof.
  intros [Hp Hc]%registry_steps_le Ha He. unfold ProviderAddress, EscrowID in *.
  apply (lookup_weaken _ _ _ _ Ha) in Hp. apply (lookup_weaken _ _ _ _ He) in Hc.
  split_and!; [done..| |].
  - intros x Hx Hn. unfold BindProvider. rewrite decide_False by tauto. rewrite Hp.
    case_decide; simpl; split; try done; split; intros; congruence.
  - intros x Hx Hn. unfold BindContract. rewrite decide_False by tauto. rewrite Hc.
    case_decide; simpl; split; try done; split; intros; congruence.
Qed.

Definition wit_addr : list byte := replicate 20 x11.
Definition wit_escrow : list byte := replicate 32 x22.
Definition wit_registry : Registry :=
  (BindContract "contract-01" wit_escrow (BindProvider "prov" wit_addr NewRegistry).1).1.

Lemma bindings_permanent_witness :
  EscrowID "contract-01" (BindContract "other" wit_escrow wit_registry).1 = Some wit_escrow ∧
  is_ok (BindProvider "prov" (replicate 20 x12)
           (BindContract "other" wit_escrow wit_registry).1).2 = false.
Proof.
  destruct (bindings_permanent wit_registry (BindContract "other" wit_escrow wit_registry).1
    "prov" wit_addr "contract-01" wit_escrow (rtc_once _ _ (rs_contract _ _ _)) eq_refl eq_refl)
    as (_ & H2 & H3 & _).
  split; [exact H2|]. destruct (H3 (replicate 20 x12)) as [_ H]; [discriminate|discriminate|].
  destruct (is_ok _); [|reflexivity]. discriminate (proj1 H eq_refl).
Defined.
