(* ===== verification/Payment.v ===== *)
(** * Payment states

    escrow-payment/payment: payment_state.go, signing.go, verification.go and
    submission.go.  The signer and the escrow adapter are Go interfaces; the
    signer's is the class [StateSigner], the adapter's a state transformer of
    the chain. *)

From S2P Require Import Prelude Sha256 Crypto AvailTypes.

Record PaymentState := {
  ps_ContractID : string;
  ps_Publisher : string;
  ps_Provider : string;
  ps_Sequence : Z;             (* uint64 *)
  ps_Period : Z;               (* uint64 *)
  ps_CumulativePayment : Z;    (* uint64 *)
  ps_LastChallengeID : string;
  ps_ValidUntil : Z;           (* uint64 *)
  ps_Status : AvailabilityStatus;
  ps_PublisherSignature : list byte;
}.

Definition zero_payment : PaymentState :=
  {| ps_ContractID := ""; ps_Publisher := ""; ps_Provider := ""; ps_Sequence := 0; ps_Period := 0;
     ps_CumulativePayment := 0; ps_LastChallengeID := ""; ps_ValidUntil := 0; ps_Status := "";
     ps_PublisherSignature := [] |}.

Definition set_sig (sig : list byte) (s : PaymentState) : PaymentState :=
  {| ps_ContractID := ps_ContractID s; ps_Publisher := ps_Publisher s; ps_Provider := ps_Provider s;
     ps_Sequence := ps_Sequence s; ps_Period := ps_Period s;
     ps_CumulativePayment := ps_CumulativePayment s; ps_LastChallengeID := ps_LastChallengeID s;
     ps_ValidUntil := ps_ValidUntil s; ps_Status := ps_Status s; ps_PublisherSignature := sig |}.

(** [state.ContractID = id; state.ValidUntil = v]. *)
Definition set_target (id : string) (v : Z) (s : PaymentState) : PaymentState :=
  {| ps_ContractID := id; ps_Publisher := ps_Publisher s; ps_Provider := ps_Provider s;
     ps_Sequence := ps_Sequence s; ps_Period := ps_Period s;
     ps_CumulativePayment := ps_CumulativePayment s; ps_LastChallengeID := ps_LastChallengeID s;
     ps_ValidUntil := v; ps_Status := ps_Status s;
     ps_PublisherSignature := ps_PublisherSignature s |}.

Definition CreatePaymentState (res : AvailabilityResult) (publisherID : string)
    (cumulativePayment sequence : Z) : result PaymentState :=
  if decide (ar_ContractID res = ""%string ∨ ar_ProviderID res = ""%string
             ∨ ar_ChallengeID res = ""%string ∨ publisherID = ""%string) then
    Err (New "contract ID, publisher ID, provider ID, and challenge ID are required")
  else if decide (ar_Result res ≠ AvailabilityPass) then
    Err (New "payment state requires a successful availability result")
  else
    Ok {| ps_ContractID := ar_ContractID res; ps_Publisher := publisherID;
          ps_Provider := ar_ProviderID res; ps_Sequence := sequence; ps_Period := ar_Period res;
          ps_CumulativePayment := cumulativePayment; ps_LastChallengeID := ar_ChallengeID res;
          ps_ValidUntil := 0; ps_Status := ar_Result res; ps_PublisherSignature := [] |}.

(** ** signing.go and verification.go *)

(** The bytes hashed by [paymentStateDigest], in order. *)
Definition payment_preimage (s : PaymentState) : list byte :=
  lp_string (ps_ContractID s) ++ lp_string (ps_Publisher s) ++ lp_string (ps_Provider s)
  ++ be64 (ps_Sequence s) ++ be64 (ps_Period s) ++ be64 (ps_CumulativePayment s)
  ++ lp_string (ps_LastChallengeID s) ++ be64 (ps_ValidUntil s) ++ lp_string (ps_Status s).

Definition paymentStateDigest (s : PaymentState) : list byte := sha256 (payment_preimage s).

Section signing.
Context {ED : Ed25519}.

Definition SignPaymentState (s : PaymentState) (publisherPrivateKey : list byte)
    : result PaymentState :=
  if decide (zlen publisherPrivateKey ≠ PrivateKeySize) then Err (New "invalid publisher private key")
  else if decide (ps_ContractID s = ""%string ∨ ps_Publisher s = ""%string
                  ∨ ps_Provider s = ""%string) then
    Err (New "payment state is incomplete")
  else Ok (set_sig (ed_sign publisherPrivateKey (paymentStateDigest s)) s).

Definition VerifyPaymentState (s : PaymentState) (publisherPublicKey : list byte) : bool :=
  bool_decide (zlen publisherPublicKey = PublicKeySize)
  && bool_decide (zlen (ps_PublisherSignature s) = SignatureSize)
  && ed_verify publisherPublicKey (paymentStateDigest s) (ps_PublisherSignature s).
End signing.

(** [StateSigner]: signing fills in a signature and nothing else. *)
Class StateSigner := {
  Sign : PaymentState → result PaymentState;
  Sign_Ok : ∀ s s', Sign s = Ok s' → ∃ sig, sig ≠ [] ∧ s' = set_sig sig s;
}.

#[global, program] Instance Ed25519Signer `{Ed25519} (PrivateKey : list byte) : StateSigner :=
  {| Sign s := SignPaymentState s PrivateKey |}.
Next Obligation.
  intros ? key s s'. cbv beta. unfold SignPaymentState, PrivateKeySize. case_decide as Hk; [done|].
  case_decide; [done|]. intros [= <-]. eexists. split; [|done]. intros HX.
  apply (f_equal length) in HX. rewrite ed_sign_length in HX by (unfold zlen in Hk; lia). done.
Qed.

(** ** submission.go *)

Record PaymentStateStore := { pst_Latest : PaymentState; pst_HasState : bool }.
Definition empty_store : PaymentStateStore := {| pst_Latest := zero_payment; pst_HasState := false |}.

Definition StorePaymentState (s : PaymentState) (store : PaymentStateStore)
    : PaymentStateStore * result () :=
  if decide (ps_ContractID s = ""%string ∨ zlen (ps_PublisherSignature s) = 0) then
    (store, Err (New "a signed payment state is required"))
  else if decide (pst_HasState store = true ∧
                  (ps_ContractID s ≠ ps_ContractID (pst_Latest store)
                   ∨ ps_Sequence s <= ps_Sequence (pst_Latest store)
                   ∨ ps_CumulativePayment s < ps_CumulativePayment (pst_Latest store))) then
    (store, Err (New "payment state is stale or belongs to another contract"))
  else ({| pst_Latest := s; pst_HasState := true |}, Ok tt).

Definition GetLatestPaymentState (store : PaymentStateStore) : result PaymentState :=
  if pst_HasState store then Ok (pst_Latest store) else Err (New "no payment state is stored").

(** [EscrowSubmitter.SubmitPaymentState] and [EscrowSettler.SettleContract]:
    calls that act on the chain [W]. *)
Abbreviation EscrowCall W := (string → PaymentState → W → W * result ()).

Definition SubmitPaymentState {W} (contractID : string) (s : PaymentState)
    (submitter : option (EscrowCall W)) (w : W) : W * result () :=
  match submitter with
  | None => (w, Err (New "matching contract ID and escrow submitter are required"))
  | Some submit =>
      if decide (contractID = ""%string ∨ ps_ContractID s ≠ contractID) then
        (w, Err (New "matching contract ID and escrow submitter are required"))
      else if decide (zlen (ps_PublisherSignature s) = 0) then
        (w, Err (New "payment state must be signed before submission"))
      else submit contractID s w
  end.

(** ** The digest binds every field *)

(** The integer fields hold [uint64] values and the strings have lengths a Go
    string can have. *)
Record payment_typed (s : PaymentState) : Prop := {
  pt_contract : is_u64 (slen (ps_ContractID s));
  pt_publisher : is_u64 (slen (ps_Publisher s));
  pt_provider : is_u64 (slen (ps_Provider s));
  pt_seq : is_u64 (ps_Sequence s);
  pt_period : is_u64 (ps_Period s);
  pt_cum : is_u64 (ps_CumulativePayment s);
  pt_last : is_u64 (slen (ps_LastChallengeID s));
  pt_valid : is_u64 (ps_ValidUntil s);
  pt_status : is_u64 (slen (ps_Status s));
}.

Lemma payment_preimage_inj s t :
  payment_typed s → payment_typed t → payment_preimage s = payment_preimage t →
  set_sig [] s = set_sig [] t.
Proof.
  intros [] [] H. unfold payment_preimage in H.
  apply lp_string_app_inj in H as [H1 H]; [|done..].
  apply lp_string_app_inj in H as [H2 H]; [|done..].
  apply lp_string_app_inj in H as [H3 H]; [|done..].
  apply be64_app_inj in H as [H4 H]; [|done..].
  apply be64_app_inj in H as [H5 H]; [|done..].
  apply be64_app_inj in H as [H6 H]; [|done..].
  apply lp_string_app_inj in H as [H7 H]; [|done..].
  apply be64_app_inj in H as [H8 H]; [|done..].
  rewrite <- (app_nil_r (lp_string (ps_Status s))), <- (app_nil_r (lp_string (ps_Status t))) in H.
  apply lp_string_app_inj in H as [H9 _]; [|done..].
  unfold set_sig. congruence.
Qed.

(** The signed digest commits to the whole voucher: two payment states with
    the same digest agree on contract, parties, sequence, period, cumulative
    payment, challenge, expiry and status, or their encodings are an explicit
    SHA-256 collision. *)
Theorem paymentStateDigest_binding s t :
  payment_typed s → payment_typed t → paymentStateDigest s = paymentStateDigest t →
  set_sig [] s = set_sig [] t ∨ sha256_collision (payment_preimage s) (payment_preimage t).
Proof.
  intros Hs Ht H. destruct (decide (payment_preimage s = payment_preimage t)) as [E|E].
  - left. by apply payment_preimage_inj.
  - right. by split.
Qed.

Definition wit_payment (seq cum : Z) : PaymentState :=
  {| ps_ContractID := "0xe1"; ps_Publisher := "pub"; ps_Provider := "0xa1"; ps_Sequence := seq;
     ps_Period := seq; ps_CumulativePayment := cum; ps_LastChallengeID := "c"; ps_ValidUntil := 10;
     ps_Status := AvailabilityPass; ps_PublisherSignature := [x01] |}.

Lemma wit_payment_typed seq cum : is_u64 seq → is_u64 cum → payment_typed (wit_payment seq cum).
Proof. intros. split; simpl; try done; vm_compute; split; congruence. Qed.

Lemma paymentStateDigest_binding_witness :
  set_sig [] (wit_payment 1 5) = set_sig [] (set_sig [x02] (wit_payment 1 5)) ∨
  sha256_collision (payment_preimage (wit_payment 1 5))
    (payment_preimage (set_sig [x02] (wit_payment 1 5))).
Proof.
  apply (paymentStateDigest_binding (wit_payment 1 5) (set_sig [x02] (wit_payment 1 5)));
    [apply wit_payment_typed; unfold is_u64; lia| |reflexivity].
  destruct (wit_payment_typed 1 5); [unfold is_u64; lia..|]. split; assumption.
Defined.

(** A state signed with a publisher key verifies under that key's public
    half, signing changes nothing but the signature, and it succeeds on every
    complete state. *)
Theorem Verify_SignPaymentState {ED : Ed25519} s key :
  ed_valid key → ps_ContractID s ≠ ""%string → ps_Publisher s ≠ ""%string →
  ps_Provider s ≠ ""%string →
  ∃ s', SignPaymentState s key = Ok s' ∧ VerifyPaymentState s' (ed_public key) = true ∧
        set_sig [] s' = set_sig [] s.
Proof.
  intros Hk H1 H2 H3. pose proof (ed_valid_length _ Hk) as Hl.
  unfold SignPaymentState, PrivateKeySize. rewrite !decide_False by (unfold zlen; tauto || lia).
  eexists. split; [done|]. split; [|done]. unfold VerifyPaymentState, PublicKeySize, SignatureSize, zlen.
  rewrite ed_public_length by done. simpl. rewrite ed_sign_length by done. simpl.
  change (paymentStateDigest (set_sig ?g s)) with (paymentStateDigest s).
  by apply ed_verify_public.
Qed.

(** Whatever was signed verifies. *)
Lemma SignPaymentState_verifies {ED : Ed25519} s s' key :
  ed_valid key → SignPaymentState s key = Ok s' → VerifyPaymentState s' (ed_public key) = true.
Proof.
  intros Hk. pose proof (ed_valid_length _ Hk) as Hl. unfold SignPaymentState.
  case_decide; [done|]. case_decide; [done|]. intros [= <-].
  unfold VerifyPaymentState, PublicKeySize, SignatureSize, zlen.
  rewrite ed_public_length by done. simpl. rewrite ed_sign_length by done. simpl.
  change (paymentStateDigest (set_sig ?g s)) with (paymentStateDigest s).
  by apply ed_verify_public.
Qed.

Lemma Verify_SignPaymentState_witness :
  ∃ s', SignPaymentState (wit_payment 1 5) (toy_key 5) = Ok s' ∧
        VerifyPaymentState s' (ed_public (toy_key 5)) = true.
Proof.
  destruct (Verify_SignPaymentState (wit_payment 1 5) (toy_key 5)) as (s' & H1 & H2 & _);
    [reflexivity|discriminate..|]. exists s'. auto.
Defined.

(** ** The latest-state store *)

Lemma StorePaymentState_Ok s store store' :
  StorePaymentState s store = (store', Ok tt) →
  store' = {| pst_Latest := s; pst_HasState := true |} ∧
  ps_ContractID s ≠ ""%string ∧ ps_PublisherSignature s ≠ [] ∧
  (pst_HasState store = true →
   ps_ContractID s = ps_ContractID (pst_Latest store) ∧
   ps_Sequence (pst_Latest store) < ps_Sequence s ∧
   ps_CumulativePayment (pst_Latest store) <= ps_CumulativePayment s).
Proof.
  unfold StorePaymentState. case_decide as H1; [done|]. case_decide as H2; [done|].
  intros [= <-]. apply Decidable.not_or in H1 as [H1 H1']. split_and!; [done|done| |].
  - intros H0. apply H1'. by rewrite H0.
  - intros Hs. destruct (decide (ps_ContractID s = ps_ContractID (pst_Latest store))); [|tauto].
    destruct (decide (ps_Sequence s <= ps_Sequence (pst_Latest store))); [tauto|].
    destruct (decide (ps_CumulativePayment s < ps_CumulativePayment (pst_Latest store))); [tauto|].
    split_and!; [done|lia|lia].
Qed.

Lemma StorePaymentState_Err s store store' e :
  StorePaymentState s store = (store', Err e) → store' = store.
Proof. unfold StorePaymentState. repeat case_decide; congruence. Qed.

Definition store_step (a b : PaymentStateStore) : Prop := ∃ s, b = (StorePaymentState s a).1.

(** A voucher store only moves forward: over any sequence of attempts the
    latest voucher stays with the same contract, its sequence number and its
    cumulative payment never decrease, and every change of voucher raises the
    sequence number. *)
Theorem payment_store_monotone a b :
  rtc store_step a b → pst_HasState a = true →
  pst_HasState b = true ∧
  ps_ContractID (pst_Latest b) = ps_ContractID (pst_Latest a) ∧
  ps_CumulativePayment (pst_Latest a) <= ps_CumulativePayment (pst_Latest b) ∧
  (b = a ∨ ps_Sequence (pst_Latest a) < ps_Sequence (pst_Latest b)).
Proof.
  induction 1 as [x|x y z [s Hy] _ IH]; intros Hx; [split_and!; auto; lia|].
  destruct (StorePaymentState s x) as [x' [[]|e]] eqn:E; simpl in Hy; subst y.
  - apply StorePaymentState_Ok in E as (-> & _ & _ & Hm). destruct (Hm Hx) as (H1 & H2 & H3).
    destruct (IH eq_refl) as (H4 & H5 & H6 & H7). simpl in *. split_and!; [done|congruence|lia|].
    right. destruct H7 as [->|]; simpl; lia.
  - apply StorePaymentState_Err in E as ->. by apply IH.
Qed.

Lemma payment_store_monotone_witness :
  let a := {| pst_Latest := wit_payment 1 5; pst_HasState := true |} in
  let b := (StorePaymentState (wit_payment 2 8) a).1 in
  ps_CumulativePayment (pst_Latest a) <= ps_CumulativePayment (pst_Latest b) ∧
  (b = a ∨ ps_Sequence (pst_Latest a) < ps_Sequence (pst_Latest b)).
Proof.
  intros a b. destruct (payment_store_monotone a b) as (_ & _ & H1 & H2);
    [apply rtc_once; exists (wit_payment 2 8); reflexivity|reflexivity|]. split; assumption.
Defined.
