(* ===== verification/Coordinator.v ===== *)
(** * Publisher coordinator

    escrow-payment/coordinator: publisher.go and sign_only.go.  The coordinator
    resolves availability identities to payment identities, signs vouchers
    off-chain and keeps the latest one per escrow contract; on-chain calls go
    through the submitter and the optional settler.

    The signer is the interface [StateSigner]; the chain is a type [W] that the
    adapters transform.  Each method holds [c.mu] over the state it reads and
    writes and is one state transformer. *)

From S2P Require Import Prelude Sha256 Crypto AvailTypes Bindings Payment.

Record PublisherCoordinator (W : Type) := {
  pc_publisherID : string;
  pc_submitter : EscrowCall W;
  pc_paymentStateTTL : Z;
  pc_settler : option (EscrowCall W);
  pc_bindings : Registry;
  pc_stores : gmap string PaymentStateStore;
}.
Arguments pc_publisherID {W}. Arguments pc_submitter {W}. Arguments pc_paymentStateTTL {W}.
Arguments pc_settler {W}. Arguments pc_bindings {W}. Arguments pc_stores {W}.

Definition ErrNotPassResult : error := New "only PASS results produce a payment state".
Definition ErrNoEscrowBinding : error :=
  New "no escrow contract is registered for this availability contract".
Definition ErrNoProviderAddress : error := New "no Ethereum address registered for this provider".
Definition ErrInvalidTTL : error := New "payment state TTL must be positive".
Definition ErrNoStore : error := New "no payment state store for this escrow contract".
Definition ErrStaleState : error := New "payment state is not newer than the stored latest state".
Definition ErrNoStoredState : error :=
  New "no stored payment state available for this escrow contract".
Definition ErrStateExpired : error := New "latest stored payment state has expired".

Section coordinator.
Context {W : Type} {SG : StateSigner}.
Implicit Types c : PublisherCoordinator W.

Definition NewPublisherCoordinator (publisherID : string) (submitter : option (EscrowCall W))
    : result (PublisherCoordinator W) :=
  match submitter with
  | None => Err (New "publisher ID, payment signer, and escrow submitter are required")
  | Some submitter =>
      if decide (publisherID = ""%string) then
        Err (New "publisher ID, payment signer, and escrow submitter are required")
      else Ok {| pc_publisherID := publisherID; pc_submitter := submitter;
                 pc_paymentStateTTL := 24 * Hour; pc_settler := None;
                 pc_bindings := NewRegistry; pc_stores := ∅ |}
  end.

Definition with_bindings (r : Registry) c : PublisherCoordinator W :=
  {| pc_publisherID := pc_publisherID c; pc_submitter := pc_submitter c;
     pc_paymentStateTTL := pc_paymentStateTTL c; pc_settler := pc_settler c;
     pc_bindings := r; pc_stores := pc_stores c |}.

Definition with_stores (s : gmap string PaymentStateStore) c : PublisherCoordinator W :=
  {| pc_publisherID := pc_publisherID c; pc_submitter := pc_submitter c;
     pc_paymentStateTTL := pc_paymentStateTTL c; pc_settler := pc_settler c;
     pc_bindings := pc_bindings c; pc_stores := s |}.

Definition SetPaymentStateTTL (ttl : Z) c : PublisherCoordinator W * result () :=
  if decide (ttl <= 0) then (c, Err (New "payment-state TTL must be positive"))
  else ({| pc_publisherID := pc_publisherID c; pc_submitter := pc_submitter c;
           pc_paymentStateTTL := ttl; pc_settler := pc_settler c;
           pc_bindings := pc_bindings c; pc_stores := pc_stores c |}, Ok tt).

Definition SetSettler (settler : option (EscrowCall W)) c : PublisherCoordinator W :=
  {| pc_publisherID := pc_publisherID c; pc_submitter := pc_submitter c;
     pc_paymentStateTTL := pc_paymentStateTTL c; pc_settler := settler;
     pc_bindings := pc_bindings c; pc_stores := pc_stores c |}.

Definition RegisterProvider (availabilityProviderID : string) (ethereumAddress : list byte) c
    : PublisherCoordinator W * result () :=
  let '(r, res) := BindProvider availabilityProviderID ethereumAddress (pc_bindings c) in
  (with_bindings r c, res).

Definition RegisterContract (availabilityContractID : string) (escrowContractID : list byte) c
    : PublisherCoordinator W * result () :=
  match BindContract availabilityContractID escrowContractID (pc_bindings c) with
  | (r, Err e) => (with_bindings r c, Err e)
  | (r, Ok _) =>
      let c := with_bindings r c in
      let escrowID := hex_String escrowContractID in
      match pc_stores c !! escrowID with
      | Some _ => (c, Ok tt)
      | None => (with_stores (<[escrowID := empty_store]> (pc_stores c)) c, Ok tt)
      end
  end.

Definition ProviderAddressFor (res : AvailabilityResult) c : option string :=
  hex_String <$> ProviderAddress (ar_ProviderID res) (pc_bindings c).

Definition set_ar_ProviderID (p : string) (r : AvailabilityResult) : AvailabilityResult :=
  {| ar_ContractID := ar_ContractID r; ar_ProviderID := p; ar_Period := ar_Period r;
     ar_ChallengeID := ar_ChallengeID r; ar_Result := ar_Result r; ar_Timestamp := ar_Timestamp r |}.

Definition CreateAndSignPaymentState (res : AvailabilityResult) (cumulativePayment sequence now : Z) c
    : PublisherCoordinator W * result PaymentState :=
  if decide (ar_Result res ≠ AvailabilityPass) then (c, Err ErrNotPassResult)
  else if decide (pc_paymentStateTTL c <= 0) then (c, Err ErrInvalidTTL)
  else
    match EscrowID (ar_ContractID res) (pc_bindings c) with
    | None => (c, Err ErrNoEscrowBinding)
    | Some escrowContractID =>
        match ProviderAddress (ar_ProviderID res) (pc_bindings c) with
        | None => (c, Err ErrNoProviderAddress)
        | Some providerAddress =>
            let escrowKey := hex_String escrowContractID in
            match pc_stores c !! escrowKey with
            | None => (c, Err (Detail ErrNoStore escrowKey))
            | Some store =>
                if decide (pst_HasState store = true ∧
                           (sequence <= ps_Sequence (pst_Latest store)
                            ∨ cumulativePayment < ps_CumulativePayment (pst_Latest store))) then
                  (c, Err (Detail ErrStaleState "got and stored sequence and payment"))
                else
                  let res := set_ar_ProviderID (hex_String providerAddress) res in
                  match CreatePaymentState res (pc_publisherID c) cumulativePayment sequence with
                  | Err e => (c, Err e)
                  | Ok state =>
                      let state := set_target escrowKey
                        (u64 (Unix (now + pc_paymentStateTTL c))) state in
                      match Sign state with
                      | Err e => (c, Err e)
                      | Ok signed =>
                          match StorePaymentState signed store with
                          | (_, Err e) => (c, Err e)
                          | (store', Ok _) =>
                              (with_stores (<[escrowKey := store']> (pc_stores c)) c, Ok signed)
                          end
                      end
                  end
            end
        end
    end.

(** Both settlement methods read the coordinator under the lock and then act
    on the chain. *)
Definition SubmitLatestPaymentStateOnChain (escrowID : string) (now : Z) c (w : W) : W * result () :=
  match pc_stores c !! escrowID with
  | None => (w, Err (Detail ErrNoStoredState escrowID))
  | Some store =>
      if negb (pst_HasState store) then (w, Err (Detail ErrNoStoredState escrowID))
      else if decide (ps_ValidUntil (pst_Latest store) <= u64 (Unix now)) then
        (w, Err (Detail ErrStateExpired "valid until and now"))
      else SubmitPaymentState escrowID (pst_Latest store) (Some (pc_submitter c)) w
  end.

Definition no_settler : string := "no settler configured; call SetSettler before settlement".

Definition SettleContractOnChain (escrowID : string) (now : Z) c (w : W) : W * result () :=
  match pc_settler c with
  | None => (w, Err (New no_settler))
  | Some settle =>
      match pc_stores c !! escrowID with
      | None => (w, Err (Detail ErrNoStoredState escrowID))
      | Some store =>
          if negb (pst_HasState store) then (w, Err (Detail ErrNoStoredState escrowID))
          else if decide (ps_ValidUntil (pst_Latest store) <= u64 (Unix now)) then
            (w, Err (Detail ErrStateExpired "valid until and now"))
          else
            match SubmitPaymentState escrowID (pst_Latest store) (Some (pc_submitter c)) w with
            | (w', Err e) => (w', Err (Wrap "submit payment state on-chain" e))
            | (w', Ok _) =>
                match settle escrowID (pst_Latest store) w' with
                | (w'', Err e) => (w'', Err (Wrap "settle contract on-chain" e))
                | (w'', Ok _) => (w'', Ok tt)
                end
            end
      end
  end.

(** ** Signing *)

(** The voucher a successful call produces, before its signature. *)
Definition voucher (res : AvailabilityResult) (cum seq now : Z) c (escrow addr : list byte)
    : PaymentState :=
  {| ps_ContractID := hex_String escrow; ps_Publisher := pc_publisherID c;
     ps_Provider := hex_String addr; ps_Sequence := seq; ps_Period := ar_Period res;
     ps_CumulativePayment := cum; ps_LastChallengeID := ar_ChallengeID res;
     ps_ValidUntil := u64 (Unix (now + pc_paymentStateTTL c)); ps_Status := AvailabilityPass;
     ps_PublisherSignature := [] |}.

Lemma CreateAndSign_Ok res cum seq now c c' s :
  CreateAndSignPaymentState res cum seq now c = (c', Ok s) →
  ∃ escrow addr sig store, ar_Result res = AvailabilityPass ∧
    EscrowID (ar_ContractID res) (pc_bindings c) = Some escrow ∧
    ProviderAddress (ar_ProviderID res) (pc_bindings c) = Some addr ∧
    pc_stores c !! hex_String escrow = Some store ∧
    (pst_HasState store = true → ps_Sequence (pst_Latest store) < seq ∧
       ps_CumulativePayment (pst_Latest store) <= cum) ∧
    sig ≠ [] ∧ s = set_sig sig (voucher res cum seq now c escrow addr) ∧
    c' = with_stores (<[hex_String escrow := {| pst_Latest := s; pst_HasState := true |}]>
                        (pc_stores c)) c.
Proof.
  unfold CreateAndSignPaymentState. case_decide as Hp; [done|]. case_decide as Ht; [done|].
  destruct (EscrowID _ _) as [escrow|] eqn:He; [|done].
  destruct (ProviderAddress _ _) as [addr|] eqn:Ha; [|done].
  destruct (pc_stores c !! hex_String escrow) as [store|] eqn:Hs; [|done].
  case_decide as Hm; [done|]. unfold CreatePaymentState. case_decide; [done|].
  simpl. rewrite (decide_False (P := ar_Result res ≠ _)) by tauto.
  destruct (Sign _) as [signed|] eqn:Hsig; [|done].
  destruct (StorePaymentState signed store) as [store' [[]|]] eqn:Hst; [|done].
  intros [= <- <-]. apply StorePaymentState_Ok in Hst as (-> & _ & _ & _).
  apply Sign_Ok in Hsig as (sig & Hne & ->).
  exists escrow, addr, sig, store. split_and!; try done.
  - intros Hh. destruct (decide (seq <= ps_Sequence (pst_Latest store))); [tauto|].
    destruct (decide (cum < ps_CumulativePayment (pst_Latest store))); [tauto|]. lia.
  - unfold set_sig, set_target, voucher. simpl. by rewrite Hp.
Qed.

(** The voucher returned is one the signer produced. *)
Lemma CreateAndSign_signed res cum seq now c c' s :
  CreateAndSignPaymentState res cum seq now c = (c', Ok s) → ∃ s0, Sign s0 = Ok s.
Proof. unfold CreateAndSignPaymentState. repeat case_match; intros; simplify_eq; eauto. Qed.

Lemma CreateAndSign_voucher res cum seq now c c' s :
  CreateAndSignPaymentState res cum seq now c = (c', Ok s) →
  ∃ escrow addr, EscrowID (ar_ContractID res) (pc_bindings c) = Some escrow ∧
    ProviderAddress (ar_ProviderID res) (pc_bindings c) = Some addr ∧
    Sign (voucher res cum seq now c escrow addr) = Ok s.
Proof.
  unfold CreateAndSignPaymentState. case_decide as Hp; [done|]. case_decide; [done|].
  destruct (EscrowID _ _) as [escrow|] eqn:He; [|done].
  destruct (ProviderAddress _ _) as [addr|] eqn:Ha; [|done].
  destruct (pc_stores c !! hex_String escrow) as [store|]; [|done].
  case_decide; [done|]. unfold CreatePaymentState. case_decide; [done|].
  simpl. rewrite (decide_False (P := ar_Result res ≠ _)) by tauto.
  destruct (Sign _) as [signed|] eqn:Hsig; [|done].
  destruct (StorePaymentState signed store) as [store' [[]|]]; [|done]. intros [= _ <-].
  exists escrow, addr. split_and!; [done|done|]. rewrite <- Hsig. f_equal.
  unfold set_target, voucher. simpl. by rewrite Hp.
Qed.

Lemma CreateAndSign_Err res cum seq now c c' e :
  CreateAndSignPaymentState res cum seq now c = (c', Err e) → c' = c.
Proof. unfold CreateAndSignPaymentState. repeat case_match; congruence. Qed.

(** Signing a voucher either fails and leaves the coordinator exactly as it
    was, or returns a voucher for the contract's escrow identifier and the
    provider's Ethereum address with the requested sequence and amount, makes
    it the stored latest one, and it is newer than the one stored before. *)
Theorem CreateAndSignPaymentState_spec res cum seq now c c' r :
  CreateAndSignPaymentState res cum seq now c = (c', r) →
  (∀ e, r = Err e → c' = c) ∧
  (∀ s, r = Ok s → ar_Result res = AvailabilityPass ∧
     ∃ escrow addr store, EscrowID (ar_ContractID res) (pc_bindings c) = Some escrow ∧
       ProviderAddress (ar_ProviderID res) (pc_bindings c) = Some addr ∧
       set_sig [] s = voucher res cum seq now c escrow addr ∧ ps_PublisherSignature s ≠ [] ∧
       pc_stores c !! hex_String escrow = Some store ∧
       (pst_HasState store = true → ps_Sequence (pst_Latest store) < seq ∧
          ps_CumulativePayment (pst_Latest store) <= cum) ∧
       pc_stores c' !! hex_String escrow = Some {| pst_Latest := s; pst_HasState := true |}).
Proof.
  intros H. split; [intros e ->; by eapply CreateAndSign_Err|].
  intros s ->. apply CreateAndSign_Ok in H
    as (escrow & addr & sig & store & Hp & He & Ha & Hs & Hm & Hne & -> & ->).
  split; [done|]. exists escrow, addr, store. split_and!; try done. apply lookup_insert_eq.
Qed.

(** ** Settlement *)

(** Settlement spends at most what was signed and in the right order: the
    settler is called only after the submitter has accepted the very same
    latest voucher of that escrow contract, an expired or missing voucher or a
    missing settler never touches the chain, and a failed submission stops the
    flow before the settler. *)
Theorem SettleContractOnChain_order escrowID now c w :
  let '(w', r) := SettleContractOnChain escrowID now c w in
  (∃ settle store w1, pc_settler c = Some settle ∧ pc_stores c !! escrowID = Some store ∧
     pst_HasState store = true ∧ u64 (Unix now) < ps_ValidUntil (pst_Latest store) ∧
     ps_ContractID (pst_Latest store) = escrowID ∧
     pc_submitter c escrowID (pst_Latest store) w = (w1, Ok tt) ∧
     (w', is_ok r) = ((settle escrowID (pst_Latest store) w1).1,
                      is_ok (settle escrowID (pst_Latest store) w1).2)) ∨
  (is_ok r = false ∧
   (w' = w ∨ ∃ store e, pc_stores c !! escrowID = Some store ∧
      pc_submitter c escrowID (pst_Latest store) w = (w', Err e))).
Proof.
  destruct (SettleContractOnChain escrowID now c w) as [w' r] eqn:E.
  unfold SettleContractOnChain in E.
  destruct (pc_settler c) as [settle|]; [|simplify_eq; right; auto].
  destruct (pc_stores c !! escrowID) as [store|] eqn:Hs; [|simplify_eq; right; auto].
  destruct (pst_HasState store) eqn:Hh; [|simplify_eq/=; right; auto]. simpl in E.
  case_decide as Hv; [simplify_eq; right; auto|]. unfold SubmitPaymentState in E.
  case_decide as Hid; [simplify_eq; right; auto|]. case_decide; [simplify_eq; right; auto|].
  destruct (pc_submitter c escrowID (pst_Latest store) w) as [w1 [[]|e]] eqn:Hsub;
    [|simplify_eq; right; split; [done|right; eauto]].
  left. exists settle, store, w1.
  destruct (decide (ps_ContractID (pst_Latest store) = escrowID)); [|tauto].
  split_and!; try done; [lia|].
  destruct (settle escrowID (pst_Latest store) w1) as [w2 [[]|er]]; by simplify_eq/=.
Qed.

(** ** Steps of the coordinator *)

Inductive coord_step : PublisherCoordinator W → PublisherCoordinator W → Prop :=
| co_provider p a c : coord_step c (RegisterProvider p a c).1
| co_contract i e c : coord_step c (RegisterContract i e c).1
| co_ttl t c : coord_step c (SetPaymentStateTTL t c).1
| co_settler s c : coord_step c (SetSettler s c)
| co_sign res cum seq now c : coord_step c (CreateAndSignPaymentState res cum seq now c).1.

Lemma RegisterContract_le i e c :
  registry_le (pc_bindings c) (pc_bindings (RegisterContract i e c).1).
Proof.
  unfold RegisterContract. pose proof (BindContract_le i e (pc_bindings c)) as H.
  destruct (BindContract _ _ _) as [r [|]]; simpl in *; [|done]. by case_match.
Qed.

Lemma RegisterContract_binds i e c c' :
  RegisterContract i e c = (c', Ok tt) → EscrowID i (pc_bindings c') = Some e.
Proof.
  unfold RegisterContract, BindContract, EscrowID. intros H.
  case_decide; [done|]. destruct (rg_contracts (pc_bindings c) !! i) as [x|] eqn:Hx.
  - case_decide; [done|]. destruct (pc_stores _ !! _); simplify_eq/=; done.
  - destruct (pc_stores _ !! _); simplify_eq/=; apply lookup_insert_eq.
Qed.

(** Every operation keeps the existing bindings. *)
Lemma coord_step_bindings c c' :
  coord_step c c' → registry_le (pc_bindings c) (pc_bindings c').
Proof.
  destruct 1 as [p a c|i e c|t c|s c|res cum seq now c].
  - unfold RegisterProvider. pose proof (BindProvider_le p a (pc_bindings c)) as H.
    by destruct (BindProvider _ _ _).
  - apply RegisterContract_le.
  - unfold SetPaymentStateTTL. case_decide; reflexivity.
  - reflexivity.
  - destruct (CreateAndSignPaymentState _ _ _ _ _) as [c' [s|e]] eqn:E.
    + apply CreateAndSign_Ok in E as (? & ? & ? & ? & _ & _ & _ & _ & _ & _ & _ & ->). simpl. reflexivity.
    + apply CreateAndSign_Err in E as ->. simpl. reflexivity.
Qed.

End coordinator.

(** ** Witness *)

Definition wit_chain_call : EscrowCall nat := λ _ _ w, (S w, Ok tt).
Definition wit_coordinator : PublisherCoordinator nat :=
  (RegisterContract "k1" wit_escrow
     {| pc_publisherID := "pub"; pc_submitter := wit_chain_call; pc_paymentStateTTL := 24 * Hour;
        pc_settler := None; pc_bindings := wit_registry; pc_stores := ∅ |}).1.
Definition wit_pass : AvailabilityResult :=
  {| ar_ContractID := "k1"; ar_ProviderID := "prov"; ar_Period := 1; ar_ChallengeID := "c1";
     ar_Result := AvailabilityPass; ar_Timestamp := 0 |}.

Lemma CreateAndSignPaymentState_spec_witness :
  let _ := Ed25519Signer (toy_key 3) in
  ∃ c' s, CreateAndSignPaymentState wit_pass 30 1 0 wit_coordinator = (c', Ok s) ∧
    ps_PublisherSignature s ≠ [].
Proof.
  intros SG.
  destruct (CreateAndSignPaymentState (SG := SG) wit_pass 30 1 0 wit_coordinator) as [c' [s|e]] eqn:E;
    [|refute_err E].
  destruct (CreateAndSignPaymentState_spec _ _ _ _ _ _ _ E) as [_ H].
  destruct (H s eq_refl) as (_ & ? & ? & ? & _ & _ & _ & Hn & _).
  exists c', s. split; [reflexivity|exact Hn].
Defined.
