(* ===== verification/Dispatcher.v ===== *)
(** * Availability payment dispatcher

    escrow-payment/coordinator/dispatcher.go: turns verified availability
    results into signed vouchers (PASS) and signed fail records (FAIL), under a
    payment schedule per contract and the K-consecutive-failures rule.
    [d.mu] is held over the whole of each operation. *)

From S2P Require Import Prelude Sha256 Crypto AvailTypes Bindings Payment Coordinator.

Definition DefaultFailureThreshold : Z := 3.
Definition failRecordDomainTag : string := "CIPHER_FAIL_RECORD_V1".

Definition ErrInvalidArgument : error := New "invalid argument".
Definition ErrScheduleExists : error := New "payment schedule already registered for contract".
Definition ErrScheduleNotFound : error := New "no payment schedule registered for contract".
Definition ErrDuplicateChallenge : error := New "challenge result already dispatched".
Definition ErrUnknownStatus : error := New "unrecognized availability status".
Definition ErrSequenceExhausted : error := New "sequence counter exhausted".

Record FailRecord := {
  fr_EscrowContractID : string;
  fr_ProviderEthAddress : string;
  fr_ChallengeID : string;
  fr_Period : Z;
  fr_Sequence : Z;
  fr_IssuedAt : Z;
  fr_PublisherSignature : list byte;
}.

Inductive DispatchKind := DispatchKindPass | DispatchKindFail.

(** [PaymentState] and [FailRecord] are [Some] for the kind they belong to. *)
Record DispatchResult := {
  dr_Kind : DispatchKind;
  dr_PaymentState : option PaymentState;
  dr_FailRecord : option FailRecord;
  dr_ConsecutiveFailures : Z;
  dr_SlashEligible : bool;
  dr_SlashEvidence : list FailRecord;
}.

Record PaymentSchedule := {
  sc_PaymentPerPass : Z;            (* uint64 *)
  sc_MaxPayment : Z;                (* uint64 *)
  sc_CurrentCumulativePayment : Z;  (* uint64 *)
  sc_Sequence : Z;                  (* uint64 *)
  sc_EscrowContractID : list byte;
  sc_ProcessedChallenges : gset string;
  sc_ConsecutiveFailures : Z;       (* uint32 *)
  sc_FailStreak : list FailRecord;
}.

Record Dispatcher (W : Type) := {
  ds_coordinator : PublisherCoordinator W;
  ds_schedules : gmap string PaymentSchedule;
  ds_signerKey : list byte;
  ds_failureThreshold : Z;          (* uint32 *)
}.
Arguments ds_coordinator {W}. Arguments ds_schedules {W}.
Arguments ds_signerKey {W}. Arguments ds_failureThreshold {W}.

(** ** Fail records *)

Definition buildFailRecordPayload (rec : FailRecord) : list byte :=
  lp_string failRecordDomainTag ++ lp_string (fr_EscrowContractID rec)
  ++ lp_string (fr_ProviderEthAddress rec) ++ lp_string (fr_ChallengeID rec)
  ++ be64 (fr_Period rec) ++ be64 (fr_Sequence rec) ++ be64 (u64 (UnixNano (fr_IssuedAt rec))).

Definition set_fr_sig (sig : list byte) (r : FailRecord) : FailRecord :=
  {| fr_EscrowContractID := fr_EscrowContractID r; fr_ProviderEthAddress := fr_ProviderEthAddress r;
     fr_ChallengeID := fr_ChallengeID r; fr_Period := fr_Period r; fr_Sequence := fr_Sequence r;
     fr_IssuedAt := fr_IssuedAt r; fr_PublisherSignature := sig |}.

Definition validateResult (res : AvailabilityResult) : result () :=
  if decide (ar_ContractID res = ""%string) then
    Err (Detail ErrInvalidArgument "result has empty contract ID")
  else if decide (ar_ChallengeID res = ""%string) then
    Err (Detail ErrInvalidArgument "result has empty challenge ID")
  else if decide (ar_Result res = AvailabilityPass ∨ ar_Result res = AvailabilityFail) then Ok tt
  else Err (Detail ErrUnknownStatus (ar_Result res)).

Section dispatcher.
Context {W : Type} {SG : StateSigner} {ED : Ed25519}.
Implicit Types d : Dispatcher W.

Definition WithFailureThreshold (k : Z) d : result (Dispatcher W) :=
  if decide (k = 0) then Err (Detail ErrInvalidArgument "failure threshold must be at least 1")
  else Ok {| ds_coordinator := ds_coordinator d; ds_schedules := ds_schedules d;
             ds_signerKey := ds_signerKey d; ds_failureThreshold := k |}.

(** [opts] is the list of thresholds given through [WithFailureThreshold], the
    only option there is. *)
Definition NewAvailabilityPaymentDispatcher (coordinator : option (PublisherCoordinator W))
    (signerKey : list byte) (opts : list Z) : result (Dispatcher W) :=
  match coordinator with
  | None => Err (Detail ErrInvalidArgument "publisher coordinator is required")
  | Some coordinator =>
      if decide (zlen signerKey ≠ PrivateKeySize) then
        Err (Detail ErrInvalidArgument "valid publisher Ed25519 private key is required for signing FailRecords")
      else
        foldl (λ acc k, let! d := acc in WithFailureThreshold k d)
          (Ok {| ds_coordinator := coordinator; ds_schedules := ∅; ds_signerKey := signerKey;
                 ds_failureThreshold := DefaultFailureThreshold |}) opts
  end.

Definition with_coordinator (c : PublisherCoordinator W) d : Dispatcher W :=
  {| ds_coordinator := c; ds_schedules := ds_schedules d; ds_signerKey := ds_signerKey d;
     ds_failureThreshold := ds_failureThreshold d |}.
Definition with_schedule (id : string) (s : PaymentSchedule) d : Dispatcher W :=
  {| ds_coordinator := ds_coordinator d; ds_schedules := <[id := s]> (ds_schedules d);
     ds_signerKey := ds_signerKey d; ds_failureThreshold := ds_failureThreshold d |}.

Definition RegisterContractSchedule (availabilityContractID : string) (escrowContractID : list byte)
    (paymentPerPass maxPayment : Z) d : Dispatcher W * result () :=
  if decide (availabilityContractID = ""%string ∨ escrowContractID = zero_bytes 32) then
    (d, Err (Detail ErrInvalidArgument "valid availability contract ID and escrow contract ID are required"))
  else if decide (paymentPerPass = 0 ∨ maxPayment = 0) then
    (d, Err (Detail ErrInvalidArgument "payment per pass and max payment must be positive"))
  else if decide (paymentPerPass > maxPayment) then
    (d, Err (Detail ErrInvalidArgument "payment per pass cannot exceed max payment"))
  else
    match ds_schedules d !! availabilityContractID with
    | Some _ => (d, Err (Detail ErrScheduleExists availabilityContractID))
    | None =>
        match RegisterContract availabilityContractID escrowContractID (ds_coordinator d) with
        | (c, Err e) => (with_coordinator c d, Err (Wrap "register contract in coordinator" e))
        | (c, Ok _) =>
            (with_schedule availabilityContractID
               {| sc_PaymentPerPass := paymentPerPass; sc_MaxPayment := maxPayment;
                  sc_CurrentCumulativePayment := 0; sc_Sequence := 0;
                  sc_EscrowContractID := escrowContractID; sc_ProcessedChallenges := ∅;
                  sc_ConsecutiveFailures := 0; sc_FailStreak := [] |}
               (with_coordinator c d), Ok tt)
        end
    end.

Definition buildAndSignFailRecord (res : AvailabilityResult) (escrowContractID : list byte)
    (sequence now : Z) d : result FailRecord :=
  match ProviderAddressFor res (ds_coordinator d) with
  | None => Err ErrNoProviderAddress
  | Some providerAddress =>
      let rec :=
        {| fr_EscrowContractID := hex_String escrowContractID;
           fr_ProviderEthAddress := providerAddress; fr_ChallengeID := ar_ChallengeID res;
           fr_Period := ar_Period res; fr_Sequence := sequence; fr_IssuedAt := now;
           fr_PublisherSignature := [] |} in
      Ok (set_fr_sig (ed_sign (ds_signerKey d) (sha256 (buildFailRecordPayload rec))) rec)
  end.

Definition DispatchAvailabilityResult (res : AvailabilityResult) (now : Z) d
    : Dispatcher W * result DispatchResult :=
  match validateResult res with
  | Err e => (d, Err e)
  | Ok _ =>
      match ds_schedules d !! ar_ContractID res with
      | None => (d, Err (Detail ErrScheduleNotFound (ar_ContractID res)))
      | Some schedule =>
          if decide (ar_ChallengeID res ∈ sc_ProcessedChallenges schedule) then
            (d, Err (Detail ErrDuplicateChallenge (ar_ChallengeID res)))
          else if decide (sc_Sequence schedule = MaxUint64) then (d, Err ErrSequenceExhausted)
          else
            let nextSequence := u64 (sc_Sequence schedule + 1) in
            if decide (ar_Result res = AvailabilityPass) then
              let remaining :=
                u64 (sc_MaxPayment schedule - sc_CurrentCumulativePayment schedule) in
              let nextCumulative :=
                if decide (sc_PaymentPerPass schedule >= remaining) then sc_MaxPayment schedule
                else u64 (sc_CurrentCumulativePayment schedule + sc_PaymentPerPass schedule) in
              match CreateAndSignPaymentState res nextCumulative nextSequence now
                      (ds_coordinator d) with
              | (c, Err e) => (with_coordinator c d, Err (Wrap "sign payment state" e))
              | (c, Ok signed) =>
                  (with_schedule (ar_ContractID res)
                     {| sc_PaymentPerPass := sc_PaymentPerPass schedule;
                        sc_MaxPayment := sc_MaxPayment schedule;
                        sc_CurrentCumulativePayment := nextCumulative;
                        sc_Sequence := nextSequence;
                        sc_EscrowContractID := sc_EscrowContractID schedule;
                        sc_ProcessedChallenges :=
                          sc_ProcessedChallenges schedule ∪ {[ar_ChallengeID res]};
                        sc_ConsecutiveFailures := 0; sc_FailStreak := [] |}
                     (with_coordinator c d),
                   Ok {| dr_Kind := DispatchKindPass; dr_PaymentState := Some signed;
                         dr_FailRecord := None; dr_ConsecutiveFailures := 0;
                         dr_SlashEligible := false; dr_SlashEvidence := [] |})
              end
            else if decide (ar_Result res = AvailabilityFail) then
              match buildAndSignFailRecord res (sc_EscrowContractID schedule) nextSequence now d with
              | Err e => (d, Err (Wrap "sign fail record" e))
              | Ok rec =>
                  let newCount :=
                    if decide (sc_ConsecutiveFailures schedule < MaxUint32)
                    then sc_ConsecutiveFailures schedule + 1
                    else sc_ConsecutiveFailures schedule in
                  let newStreak := sc_FailStreak schedule ++ [rec] in
                  let newStreak :=
                    if decide (zlen newStreak > ds_failureThreshold d)
                    then last_n (Z.to_nat (ds_failureThreshold d)) newStreak else newStreak in
                  let eligible := bool_decide (newCount >= ds_failureThreshold d) in
                  (with_schedule (ar_ContractID res)
                     {| sc_PaymentPerPass := sc_PaymentPerPass schedule;
                        sc_MaxPayment := sc_MaxPayment schedule;
                        sc_CurrentCumulativePayment := sc_CurrentCumulativePayment schedule;
                        sc_Sequence := nextSequence;
                        sc_EscrowContractID := sc_EscrowContractID schedule;
                        sc_ProcessedChallenges :=
                          sc_ProcessedChallenges schedule ∪ {[ar_ChallengeID res]};
                        sc_ConsecutiveFailures := newCount; sc_FailStreak := newStreak |} d,
                   Ok {| dr_Kind := DispatchKindFail; dr_PaymentState := None;
                         dr_FailRecord := Some rec; dr_ConsecutiveFailures := newCount;
                         dr_SlashEligible := eligible;
                         dr_SlashEvidence := if eligible then newStreak else [] |})
              end
            else (d, Err (Detail ErrUnknownStatus (ar_Result res)))
      end
  end.

Definition VerifyFailRecord (rec : FailRecord) (publisherPubKey : list byte) : bool :=
  if decide (zlen publisherPubKey ≠ PublicKeySize) then false
  else if decide (zlen (fr_PublisherSignature rec) ≠ SignatureSize) then false
  else ed_verify publisherPubKey (sha256 (buildFailRecordPayload rec)) (fr_PublisherSignature rec).

(** The loop of [VerifyFailStreak]; [prev] is [records[i-1]]. *)
Fixpoint verify_streak (prev : option FailRecord) (records : list FailRecord)
    (publisherPubKey : list byte) : bool :=
  match records with
  | [] => true
  | rec :: rest =>
      if negb (VerifyFailRecord rec publisherPubKey) then false
      else
        match prev with
        | Some p =>
            if decide (fr_EscrowContractID rec ≠ fr_EscrowContractID p
                       ∨ fr_ProviderEthAddress rec ≠ fr_ProviderEthAddress p
                       ∨ fr_Sequence p = MaxUint64
                       ∨ fr_Sequence rec ≠ u64 (fr_Sequence p + 1)) then false
            else verify_streak (Some rec) rest publisherPubKey
        | None => verify_streak (Some rec) rest publisherPubKey
        end
  end.

Definition VerifyFailStreak (records : list FailRecord) (publisherPubKey : list byte) : bool :=
  if decide (zlen records = 0) then false else verify_streak None records publisherPubKey.

(** A deep snapshot; values are immutable here, so it is the schedule itself. *)
Definition GetContractPaymentSchedule (contractID : string) d : option PaymentSchedule :=
  ds_schedules d !! contractID.

Definition SubmitSettlementOnChain (availabilityContractID : string) (now now' : Z) d (w : W)
    : W * result () :=
  match ds_schedules d !! availabilityContractID with
  | None => (w, Err (Detail ErrScheduleNotFound availabilityContractID))
  | Some schedule =>
      let escrowID := hex_String (sc_EscrowContractID schedule) in
      match SettleContractOnChain escrowID now (ds_coordinator d) w with
      | (w', Err e) =>
          if decide (Error e = no_settler) then
            SubmitLatestPaymentStateOnChain escrowID now' (ds_coordinator d) w'
          else (w', Err e)
      | (w', Ok _) => (w', Ok tt)
      end
  end.

(** ** Abstract specification: what the schedule should hold after a history of
    accepted results *)

Definition passed (h : list AvailabilityResult) : Z :=
  foldl (λ n r, if decide (ar_Result r = AvailabilityPass) then n + 1 else n) 0 h.
(** Number of failures since the last pass. *)
Definition trailing (h : list AvailabilityResult) : Z :=
  foldl (λ n r, if decide (ar_Result r = AvailabilityFail) then n + 1 else 0) 0 h.

Lemma passed_snoc h r :
  passed (h ++ [r]) = if decide (ar_Result r = AvailabilityPass) then passed h + 1 else passed h.
Proof. unfold passed. by rewrite foldl_snoc. Qed.
Lemma trailing_snoc h r :
  trailing (h ++ [r]) = if decide (ar_Result r = AvailabilityFail) then trailing h + 1 else 0.
Proof. unfold trailing. by rewrite foldl_snoc. Qed.
Lemma passed_nonneg h : 0 <= passed h.
Proof. induction h using rev_ind; [done|]. rewrite passed_snoc. case_decide; lia. Qed.
Lemma trailing_nonneg h : 0 <= trailing h.
Proof. induction h using rev_ind; [done|]. rewrite trailing_snoc. case_decide; lia. Qed.

(** A record is signed by the dispatcher's key and describes result [r]. *)
Record record_for (d : Dispatcher W) (escrow : list byte) (seq : Z) (r : AvailabilityResult)
    (rec : FailRecord) : Prop := {
  rf_seq : fr_Sequence rec = seq;
  rf_escrow : fr_EscrowContractID rec = hex_String escrow;
  rf_challenge : fr_ChallengeID rec = ar_ChallengeID r;
  rf_fail : ar_Result r = AvailabilityFail;
  rf_provider : ∃ a, ProviderAddress (ar_ProviderID r) (pc_bindings (ds_coordinator d)) = Some a ∧
                     fr_ProviderEthAddress rec = hex_String a;
  rf_sig : fr_PublisherSignature rec = ed_sign (ds_signerKey d) (sha256 (buildFailRecordPayload rec));
}.

(** The evidence is one record for each of the last results of the history. *)
Definition streak_for d (escrow : list byte) (h : list AvailabilityResult)
    (recs : list FailRecord) : Prop :=
  (length recs <= length h)%nat ∧
  ∀ i rec, recs !! i = Some rec →
    ∃ r, h !! (length h - length recs + i)%nat = Some r ∧
         record_for d escrow (zlen h - zlen recs + Z.of_nat i + 1) r rec.

Record schedule_refines d (escrow : list byte) (ppp maxp : Z) (h : list AvailabilityResult)
    (s : PaymentSchedule) : Prop := {
  sr_ppp : sc_PaymentPerPass s = ppp;
  sr_max : sc_MaxPayment s = maxp;
  sr_escrow : sc_EscrowContractID s = escrow;
  sr_seq : sc_Sequence s = zlen h;
  sr_seq_bound : zlen h <= MaxUint64;
  sr_cum : sc_CurrentCumulativePayment s = Z.min maxp (ppp * passed h);
  sr_ids : ∀ x, x ∈ sc_ProcessedChallenges s ↔ x ∈ ar_ChallengeID <$> h;
  sr_nodup : NoDup (ar_ChallengeID <$> h);
  sr_failures : sc_ConsecutiveFailures s = Z.min MaxUint32 (trailing h);
  sr_length : zlen (sc_FailStreak s) = Z.min (ds_failureThreshold d) (trailing h);
  sr_streak : streak_for d escrow h (sc_FailStreak s);
}.

Lemma streak_for_last_n d escrow h recs k :
  streak_for d escrow h recs → streak_for d escrow h (last_n k recs).
Proof.
  intros [Hl Hs]. split; [rewrite length_last_n; lia|].
  intros i rec Hi. unfold last_n in Hi. rewrite lookup_drop in Hi.
  destruct (Hs _ _ Hi) as (r & Hr & Hrec). apply lookup_lt_Some in Hi.
  rewrite length_last_n. exists r. split; [rewrite <- Hr; f_equal; lia|].
  unfold zlen in *. rewrite length_last_n.
  replace (Z.of_nat (length h) - Z.of_nat (k `min` length recs) + Z.of_nat i + 1) with
    (Z.of_nat (length h) - Z.of_nat (length recs) + Z.of_nat (length recs - k + i) + 1) by lia.
  done.
Qed.

Lemma streak_for_snoc d escrow h recs r rec :
  streak_for d escrow h recs → record_for d escrow (zlen h + 1) r rec →
  streak_for d escrow (h ++ [r]) (recs ++ [rec]).
Proof.
  intros [Hl Hs] Hr. split; [rewrite !length_app; simpl; lia|].
  intros i x Hi. rewrite !length_app, !zlen_app. simpl length.
  change (zlen [r]) with 1. change (zlen [rec]) with 1.
  apply lookup_app_Some in Hi as [Hi|[Hge Hi]].
  - destruct (Hs _ _ Hi) as (r' & Hr' & Hrec). exists r'.
    split; [rewrite lookup_app_l; [rewrite <- Hr'; f_equal; lia|apply lookup_lt_Some in Hr'; lia]|].
    replace (zlen h + 1 - (zlen recs + 1)) with (zlen h - zlen recs) by lia. done.
  - apply list_lookup_singleton_Some in Hi as [Hi ->]. exists r.
    assert (i = length recs) as -> by lia. split.
    + rewrite lookup_app_r by lia. by replace (_ - _)%nat with 0%nat by lia.
    + replace (zlen h + 1 - (zlen recs + 1) + Z.of_nat (length recs) + 1) with (zlen h + 1)
        by (unfold zlen; lia). done.
Qed.

(** The records name the challenges of the last results, in order. *)
Lemma streak_ids d escrow h recs k :
  streak_for d escrow h recs → length recs = k →
  fr_ChallengeID <$> recs = ar_ChallengeID <$> last_n k h.
Proof.
  intros [Hl Hs] <-. apply list_eq. intros i. rewrite !list_lookup_fmap. unfold last_n.
  rewrite lookup_drop. destruct (recs !! i) as [rec|] eqn:Hi; simpl.
  - destruct (Hs _ _ Hi) as (r & -> & [_ _ Hc _ _ _]). simpl. by rewrite Hc.
  - apply lookup_ge_None in Hi.
    rewrite (proj2 (lookup_ge_None h (length h - length recs + i))); [done|lia].
Qed.

(** The streak survives changes of the coordinator that keep its bindings. *)
Lemma streak_for_coord d c escrow h recs :
  registry_le (pc_bindings (ds_coordinator d)) (pc_bindings c) →
  streak_for d escrow h recs → streak_for (with_coordinator c d) escrow h recs.
Proof.
  intros [Hp _] [Hl Hs]. split; [done|]. intros i rec Hi.
  destruct (Hs _ _ Hi) as (r & Hr & []). exists r. split; [done|]. split; try done.
  destruct rf_provider0 as (a & Ha & Hx). exists a. split; [|done].
  unfold ProviderAddress in *. simpl. by eapply lookup_weaken.
Qed.

Lemma schedule_refines_coord d c escrow ppp maxp h s :
  registry_le (pc_bindings (ds_coordinator d)) (pc_bindings c) →
  schedule_refines d escrow ppp maxp h s → schedule_refines (with_coordinator c d) escrow ppp maxp h s.
Proof. intros Hle []. split; try done. by apply streak_for_coord. Qed.

(** Adding or replacing schedules does not matter either. *)
Lemma schedule_refines_schedule d id s' escrow ppp maxp h s :
  schedule_refines d escrow ppp maxp h s →
  schedule_refines (with_schedule id s' d) escrow ppp maxp h s.
Proof.
  intros []. split; try done. destruct sr_streak0 as [Hl Hs]. split; [done|]. intros i rec Hi.
  destruct (Hs _ _ Hi) as (r & Hr & []). exists r. split; [done|]. by split.
Qed.

(** ** One dispatch *)

(** Everything an accepted result did. *)
Lemma Dispatch_Ok res now d d' out :
  DispatchAvailabilityResult res now d = (d', Ok out) →
  ∃ s, ds_schedules d !! ar_ContractID res = Some s ∧
    ar_ChallengeID res ∉ sc_ProcessedChallenges s ∧ sc_Sequence s ≠ MaxUint64 ∧
    let seq := u64 (sc_Sequence s + 1) in
    let processed := sc_ProcessedChallenges s ∪ {[ar_ChallengeID res]} in
    ((ar_Result res = AvailabilityPass ∧ ∃ cum c signed,
       cum = (if decide (sc_PaymentPerPass s >= u64 (sc_MaxPayment s - sc_CurrentCumulativePayment s))
              then sc_MaxPayment s
              else u64 (sc_CurrentCumulativePayment s + sc_PaymentPerPass s)) ∧
       CreateAndSignPaymentState res cum seq now (ds_coordinator d) = (c, Ok signed) ∧
       d' = with_schedule (ar_ContractID res)
              {| sc_PaymentPerPass := sc_PaymentPerPass s; sc_MaxPayment := sc_MaxPayment s;
                 sc_CurrentCumulativePayment := cum; sc_Sequence := seq;
                 sc_EscrowContractID := sc_EscrowContractID s; sc_ProcessedChallenges := processed;
                 sc_ConsecutiveFailures := 0; sc_FailStreak := [] |} (with_coordinator c d) ∧
       dr_Kind out = DispatchKindPass ∧ dr_PaymentState out = Some signed ∧
       dr_SlashEligible out = false)
     ∨
     (ar_Result res = AvailabilityFail ∧ ∃ rec count streak,
       buildAndSignFailRecord res (sc_EscrowContractID s) seq now d = Ok rec ∧
       count = (if decide (sc_ConsecutiveFailures s < MaxUint32)
                then sc_ConsecutiveFailures s + 1 else sc_ConsecutiveFailures s) ∧
       streak = last_n (Z.to_nat (ds_failureThreshold d)) (sc_FailStreak s ++ [rec]) ∧
       d' = with_schedule (ar_ContractID res)
              {| sc_PaymentPerPass := sc_PaymentPerPass s; sc_MaxPayment := sc_MaxPayment s;
                 sc_CurrentCumulativePayment := sc_CurrentCumulativePayment s; sc_Sequence := seq;
                 sc_EscrowContractID := sc_EscrowContractID s; sc_ProcessedChallenges := processed;
                 sc_ConsecutiveFailures := count; sc_FailStreak := streak |} d ∧
       dr_Kind out = DispatchKindFail ∧ dr_FailRecord out = Some rec ∧
       dr_ConsecutiveFailures out = count ∧
       dr_SlashEligible out = bool_decide (count >= ds_failureThreshold d) ∧
       dr_SlashEvidence out = if dr_SlashEligible out then streak else [])).
Proof.
  unfold DispatchAvailabilityResult. destruct (validateResult res) as [[]|]; [|done].
  destruct (ds_schedules d !! ar_ContractID res) as [s|] eqn:Hs; [|done].
  case_decide as Hdup; [done|]. case_decide as Hmax; [done|]. case_decide as Hp.
  - destruct (CreateAndSignPaymentState _ _ _ _ _) as [c [signed|]] eqn:Hc; [|done].
    intros [= <- <-]. exists s. cbv zeta. split; [done|]. split; [done|]. split; [done|].
    left. split; [done|]. eexists _, c, signed. split; [reflexivity|]. by split_and!.
  - case_decide as Hf; [|done].
    destruct (buildAndSignFailRecord _ _ _ _ _) as [rec|] eqn:Hr; [|done].
    intros [= <- <-]. exists s. cbv zeta. split; [done|]. split; [done|]. split; [done|].
    right. split; [done|]. eexists rec, _, _. split; [done|]. split; [reflexivity|].
    split; [reflexivity|].
    assert (Hst : (if decide (zlen (sc_FailStreak s ++ [rec]) > ds_failureThreshold d)
                   then last_n (Z.to_nat (ds_failureThreshold d)) (sc_FailStreak s ++ [rec])
                   else sc_FailStreak s ++ [rec]) =
                  last_n (Z.to_nat (ds_failureThreshold d)) (sc_FailStreak s ++ [rec])).
    { case_decide as Hz; [done|]. rewrite last_n_all; [done|]. unfold zlen in Hz. lia. }
    rewrite Hst. by split_and!.
Qed.

(** A refused result leaves the dispatcher as it was. *)
Lemma Dispatch_Err res now d d' e :
  DispatchAvailabilityResult res now d = (d', Err e) → d' = d.
Proof.
  unfold DispatchAvailabilityResult. destruct (validateResult res); [|congruence].
  destruct (ds_schedules d !! ar_ContractID res) as [s|]; [|congruence].
  case_decide; [congruence|]. case_decide; [congruence|]. case_decide.
  - destruct (CreateAndSignPaymentState _ _ _ _ _) as [c [signed|]] eqn:Hc; [congruence|].
    intros [= <- _]. apply CreateAndSign_Err in Hc as ->. by destruct d.
  - case_decide; [|congruence]. destruct (buildAndSignFailRecord _ _ _ _ _); congruence.
Qed.

(** ** Refinement *)

(** Histories of contract [cid]: registered with its terms, then any sequence of
    dispatches (for this or another contract, accepted or not), further
    schedule registrations and coordinator operations.  [h] collects the
    accepted results of [cid]. *)
Inductive history (cid : string) (escrow : list byte) (ppp maxp : Z)
    : list AvailabilityResult → Dispatcher W → Prop :=
| hist_register d d' :
    is_u64 ppp → is_u64 maxp → 1 <= ds_failureThreshold d <= MaxUint32 →
    RegisterContractSchedule cid escrow ppp maxp d = (d', Ok tt) → history cid escrow ppp maxp [] d'
| hist_dispatch h d res now d' r :
    history cid escrow ppp maxp h d → DispatchAvailabilityResult res now d = (d', r) →
    history cid escrow ppp maxp
      (if is_ok r && bool_decide (ar_ContractID res = cid) then h ++ [res] else h) d'
| hist_schedule h d id e p m :
    history cid escrow ppp maxp h d →
    history cid escrow ppp maxp h (RegisterContractSchedule id e p m d).1
| hist_coord h d c :
    history cid escrow ppp maxp h d → coord_step (ds_coordinator d) c →
    history cid escrow ppp maxp h (with_coordinator c d).

Record dispatcher_inv (cid : string) (escrow : list byte) (ppp maxp : Z)
    (h : list AvailabilityResult) (d : Dispatcher W) : Prop := {
  di_terms : 0 < ppp <= maxp ∧ is_u64 maxp;
  di_threshold : 1 <= ds_failureThreshold d <= MaxUint32;
  di_binding : EscrowID cid (pc_bindings (ds_coordinator d)) = Some escrow;
  di_schedule : ∃ s, ds_schedules d !! cid = Some s ∧ schedule_refines d escrow ppp maxp h s;
}.

Lemma Register_Ok id e p m d d' :
  RegisterContractSchedule id e p m d = (d', Ok tt) →
  ds_schedules d !! id = None ∧ p <= m ∧ p ≠ 0 ∧
  EscrowID id (pc_bindings (RegisterContract id e (ds_coordinator d)).1) = Some e ∧
  d' = with_schedule id
         {| sc_PaymentPerPass := p; sc_MaxPayment := m; sc_CurrentCumulativePayment := 0;
            sc_Sequence := 0; sc_EscrowContractID := e; sc_ProcessedChallenges := ∅;
            sc_ConsecutiveFailures := 0; sc_FailStreak := [] |}
         (with_coordinator (RegisterContract id e (ds_coordinator d)).1 d).
Proof.
  unfold RegisterContractSchedule. intros H. do 3 (case_decide; [done|]).
  destruct (ds_schedules d !! id); [done|].
  destruct (RegisterContract id e (ds_coordinator d)) as [c [[]|]] eqn:Hc; [|done].
  simplify_eq/=. split_and!; [done|lia|lia|by eapply RegisterContract_binds|done].
Qed.

Lemma Register_Err id e p m d d' er :
  RegisterContractSchedule id e p m d = (d', Err er) →
  d' = d ∨ d' = with_coordinator (RegisterContract id e (ds_coordinator d)).1 d.
Proof.
  unfold RegisterContractSchedule. intros H. repeat (case_decide; [simplify_eq; auto|]).
  destruct (ds_schedules d !! id); [simplify_eq; auto|].
  destruct (RegisterContract id e (ds_coordinator d)) as [c [|]]; simplify_eq/=. auto.
Qed.

Lemma fresh_refines d escrow ppp maxp :
  1 <= ds_failureThreshold d → 0 < ppp → 0 <= maxp →
  schedule_refines d escrow ppp maxp []
    {| sc_PaymentPerPass := ppp; sc_MaxPayment := maxp; sc_CurrentCumulativePayment := 0;
       sc_Sequence := 0; sc_EscrowContractID := escrow; sc_ProcessedChallenges := ∅;
       sc_ConsecutiveFailures := 0; sc_FailStreak := [] |}.
Proof.
  intros. split; simpl; try done.
  - change (passed []) with 0. lia.
  - set_solver.
  - constructor.
  - change (trailing []) with 0. change (zlen []) with 0. lia.
Qed.

Lemma dispatcher_inv_other cid escrow ppp maxp h d c (f : gmap string PaymentSchedule) :
  dispatcher_inv cid escrow ppp maxp h d →
  registry_le (pc_bindings (ds_coordinator d)) (pc_bindings c) →
  f !! cid = ds_schedules d !! cid →
  dispatcher_inv cid escrow ppp maxp h
    {| ds_coordinator := c; ds_schedules := f; ds_signerKey := ds_signerKey d;
       ds_failureThreshold := ds_failureThreshold d |}.
Proof.
  intros [Ht Hk Hb (s & Hs & Hr)] Hle Hf. split; [done|done| |].
  { destruct Hle as [_ Hc]. simpl. unfold EscrowID in *. by eapply lookup_weaken. }
  exists s. simpl. rewrite Hf. split; [done|].
  apply (schedule_refines_coord d c) in Hr; [|done]. destruct Hr. split; try done.
  destruct sr_streak0 as [Hl Hst]. split; [done|]. intros i rec Hi.
  destruct (Hst _ _ Hi) as (r & Hr & []). exists r. split; [done|]. by split.
Qed.

(** The concrete step matches the abstract one on a PASS. *)
Lemma pass_refines d c escrow ppp maxp h s res :
  0 < ppp <= maxp → is_u64 maxp → 1 <= ds_failureThreshold d →
  schedule_refines d escrow ppp maxp h s →
  ar_Result res = AvailabilityPass → ar_ChallengeID res ∉ sc_ProcessedChallenges s →
  sc_Sequence s ≠ MaxUint64 →
  let cum := if decide (sc_PaymentPerPass s >= u64 (sc_MaxPayment s - sc_CurrentCumulativePayment s))
             then sc_MaxPayment s else u64 (sc_CurrentCumulativePayment s + sc_PaymentPerPass s) in
  cum = Z.min maxp (ppp * passed (h ++ [res])) ∧ u64 (sc_Sequence s + 1) = zlen h + 1 ∧
  schedule_refines (with_coordinator c d) escrow ppp maxp (h ++ [res])
    {| sc_PaymentPerPass := sc_PaymentPerPass s; sc_MaxPayment := sc_MaxPayment s;
       sc_CurrentCumulativePayment := cum; sc_Sequence := u64 (sc_Sequence s + 1);
       sc_EscrowContractID := sc_EscrowContractID s;
       sc_ProcessedChallenges := sc_ProcessedChallenges s ∪ {[ar_ChallengeID res]};
       sc_ConsecutiveFailures := 0; sc_FailStreak := [] |}.
Proof.
  intros Hp Hm Hk [] Hres Hdup Hseq cum.
  assert (Hu : u64 (sc_Sequence s + 1) = zlen h + 1).
  { rewrite sr_seq0 in *. apply u64_id. unfold is_u64, MaxUint64 in *. pose proof (zlen_nonneg h). lia. }
  assert (Hc : cum = Z.min maxp (ppp * passed (h ++ [res]))).
  { subst cum. rewrite passed_snoc, (decide_True (P := ar_Result res = _)) by done.
    rewrite sr_ppp0, sr_max0, sr_cum0.
    pose proof (passed_nonneg h). unfold is_u64 in Hm.
    rewrite u64_id by (unfold is_u64; nia).
    case_decide; [nia|]. rewrite u64_id by (unfold is_u64; nia). nia. }
  split_and!; [done|done|]. split; simpl; try done.
  - rewrite Hu, zlen_app. done.
  - rewrite zlen_app. change (zlen [res]) with 1. lia.
  - intros x. rewrite elem_of_union, sr_ids0, fmap_app, elem_of_app. set_solver.
  - rewrite fmap_app. apply NoDup_snoc; [done|]. by rewrite <- sr_ids0.
  - rewrite trailing_snoc, decide_False by (rewrite Hres; discriminate). done.
  - rewrite trailing_snoc, decide_False by (rewrite Hres; discriminate).
    rewrite Z.min_r by lia. done.
  - split; [simpl; lia|]. done.
Qed.

Lemma buildAndSign_record_for res escrow seq now d rec :
  ar_Result res = AvailabilityFail → buildAndSignFailRecord res escrow seq now d = Ok rec →
  record_for d escrow seq res rec.
Proof.
  unfold buildAndSignFailRecord, ProviderAddressFor. intros Hf.
  destruct (ProviderAddress _ _) as [a|] eqn:Ha; [|done]. intros [= <-]. split; try done. eauto.
Qed.

(** And on a FAIL. *)
Lemma fail_refines d escrow ppp maxp h s res now rec :
  1 <= ds_failureThreshold d <= MaxUint32 →
  schedule_refines d escrow ppp maxp h s →
  ar_Result res = AvailabilityFail → ar_ChallengeID res ∉ sc_ProcessedChallenges s →
  sc_Sequence s ≠ MaxUint64 →
  buildAndSignFailRecord res (sc_EscrowContractID s) (u64 (sc_Sequence s + 1)) now d = Ok rec →
  let count := if decide (sc_ConsecutiveFailures s < MaxUint32)
               then sc_ConsecutiveFailures s + 1 else sc_ConsecutiveFailures s in
  let streak := last_n (Z.to_nat (ds_failureThreshold d)) (sc_FailStreak s ++ [rec]) in
  schedule_refines d escrow ppp maxp (h ++ [res])
    {| sc_PaymentPerPass := sc_PaymentPerPass s; sc_MaxPayment := sc_MaxPayment s;
       sc_CurrentCumulativePayment := sc_CurrentCumulativePayment s;
       sc_Sequence := u64 (sc_Sequence s + 1); sc_EscrowContractID := sc_EscrowContractID s;
       sc_ProcessedChallenges := sc_ProcessedChallenges s ∪ {[ar_ChallengeID res]};
       sc_ConsecutiveFailures := count; sc_FailStreak := streak |}.
Proof.
  intros Hk [] Hres Hdup Hseq Hrec count streak.
  assert (Hu : u64 (sc_Sequence s + 1) = zlen h + 1).
  { rewrite sr_seq0 in *. apply u64_id. unfold is_u64, MaxUint64 in *. pose proof (zlen_nonneg h). lia. }
  apply buildAndSign_record_for in Hrec; [|done]. rewrite Hu, sr_escrow0 in Hrec.
  pose proof (trailing_nonneg h).
  assert (Ht : trailing (h ++ [res]) = trailing h + 1) by (rewrite trailing_snoc, decide_True; done).
  split; simpl; try done.
  - rewrite Hu, zlen_app. done.
  - rewrite zlen_app. change (zlen [res]) with 1. lia.
  - rewrite passed_snoc, decide_False by (rewrite Hres; discriminate). done.
  - intros x. rewrite elem_of_union, sr_ids0, fmap_app, elem_of_app. set_solver.
  - rewrite fmap_app. apply NoDup_snoc; [done|]. by rewrite <- sr_ids0.
  - subst count. rewrite Ht, sr_failures0. case_decide; lia.
  - subst streak. unfold zlen. rewrite length_last_n, length_app, Ht. simpl length.
    unfold zlen in sr_length0. lia.
  - by apply streak_for_last_n, streak_for_snoc.
Qed.

Lemma history_inv cid escrow ppp maxp h d :
  history cid escrow ppp maxp h d → dispatcher_inv cid escrow ppp maxp h d.
Proof.
  induction 1 as [d d' Hp Hm Hk Hreg|h d res now d' r _ IH Hd|h d id e p m _ IH|h d c _ IH Hc].
  - apply Register_Ok in Hreg as (_ & Hle & Hp0 & Hb & ->). unfold is_u64 in Hp.
    split; [split; [lia|done]|done|done|].
    eexists. simpl. rewrite lookup_insert_eq. split; [done|].
    apply (fresh_refines (with_schedule _ _ (with_coordinator _ d))); simpl; unfold is_u64 in Hm; lia.
  - destruct r as [out|e]; [|apply Dispatch_Err in Hd as ->; done]. simpl.
    apply Dispatch_Ok in Hd as (s & Hs & Hdup & Hseq & Hcase). cbv zeta in Hcase.
    pose proof IH as [[Hterms Hmx] Hk Hbind (s0 & Hs0 & Href)].
    case_bool_decide as Hcid.
    + rewrite Hcid, Hs0 in Hs. injection Hs as ->. split; [done| | |].
      { by destruct Hcase as [(_ & cum & c & sg & _ & _ & -> & _)|(_ & rec & n & st & _ & _ & _ & -> & _)]. }
      { destruct Hcase as [(_ & cum & c & sg & _ & Hsign & -> & _)|(_ & rec & n & st & _ & _ & _ & -> & _)];
          [|done].
        apply CreateAndSign_Ok in Hsign as (? & ? & ? & ? & _ & _ & _ & _ & _ & _ & _ & ->). done. }
      destruct Hcase as [(Hres & cum & c & sg & -> & Hsign & -> & _)|(Hres & rec & n & st & Hrec & -> & -> & -> & _)];
        eexists; simpl; rewrite Hcid, lookup_insert_eq; (split; [done|]); apply schedule_refines_schedule.
      * eapply pass_refines; try done. lia.
      * by eapply fail_refines.
    + destruct Hcase as [(_ & cum & c & sg & _ & Hsign & -> & _)|(_ & rec & n & st & _ & _ & _ & -> & _)].
      * apply (dispatcher_inv_other cid escrow ppp maxp h d c); [done| |by rewrite lookup_insert_ne].
        apply CreateAndSign_Ok in Hsign as (? & ? & ? & ? & _ & _ & _ & _ & _ & _ & _ & ->).
        simpl. reflexivity.
      * apply (dispatcher_inv_other cid escrow ppp maxp h d (ds_coordinator d));
          [done|reflexivity|by rewrite lookup_insert_ne].
  - destruct (RegisterContractSchedule id e p m d) as [d' [[]|er]] eqn:E; simpl.
    + apply Register_Ok in E as (Hn & _ & _ & _ & ->).
      apply (dispatcher_inv_other cid escrow ppp maxp h d); [done|apply RegisterContract_le|].
      simpl. destruct (di_schedule _ _ _ _ _ _ IH) as (s & Hs & _).
      rewrite lookup_insert_ne; [done|]. congruence.
    + apply Register_Err in E as [-> | ->]; [done|].
      apply (dispatcher_inv_other cid escrow ppp maxp h d); [done|apply RegisterContract_le|done].
  - apply (dispatcher_inv_other cid escrow ppp maxp h d); [done|by apply coord_step_bindings|done].
Qed.

(** ** Verifying evidence *)

Definition linked (a b : FailRecord) : Prop :=
  fr_EscrowContractID b = fr_EscrowContractID a ∧
  fr_ProviderEthAddress b = fr_ProviderEthAddress a ∧
  fr_Sequence b = fr_Sequence a + 1 ∧ 0 <= fr_Sequence a < MaxUint64.

Lemma verify_streak_linked pk recs prev :
  Forall (λ r, VerifyFailRecord r pk = true) recs →
  (∀ p r, prev = Some p → recs !! 0%nat = Some r → linked p r) →
  (∀ i a b, recs !! i = Some a → recs !! S i = Some b → linked a b) →
  verify_streak prev recs pk = true.
Proof.
  intros Hv. revert prev. induction Hv as [|r recs Hr Hv IH]; intros prev Hp Hl; [done|].
  cbn [verify_streak]. rewrite Hr. simpl negb.
  assert (Hrest : verify_streak (Some r) recs pk = true).
  { apply IH; [intros p x [= <-] Hx; by apply (Hl 0%nat)|intros i; apply (Hl (S i))]. }
  destruct prev as [p|]; [|done]. destruct (Hp p r eq_refl eq_refl) as (H1 & H2 & H3 & H4).
  rewrite decide_False; [done|]. rewrite u64_id by (unfold is_u64, MaxUint64 in *; lia).
  intros [?|[?|[?|?]]]; try done; lia.
Qed.

Lemma record_for_verifies d escrow seq r rec :
  ed_valid (ds_signerKey d) → record_for d escrow seq r rec →
  VerifyFailRecord rec (ed_public (ds_signerKey d)) = true.
Proof.
  intros Hk [_ _ _ _ _ Hsig]. unfold VerifyFailRecord, PublicKeySize, SignatureSize, zlen.
  rewrite ed_public_length by done. rewrite Hsig.
  rewrite ed_sign_length by (by apply ed_valid_length). by apply ed_verify_public.
Qed.

Lemma streak_verifies d escrow h recs p :
  ed_valid (ds_signerKey d) → streak_for d escrow h recs → recs ≠ [] → zlen h <= MaxUint64 →
  Forall (λ r, ar_ProviderID r = p) h →
  VerifyFailStreak recs (ed_public (ds_signerKey d)) = true.
Proof.
  intros Hk [Hl Hs] Hne Hb Hp. unfold VerifyFailStreak.
  rewrite decide_False by (destruct recs; unfold zlen; simpl; [done|lia]).
  apply verify_streak_linked; [|done|].
  - apply Forall_lookup_2. intros i rec Hi. destruct (Hs _ _ Hi) as (r & _ & Hr).
    by eapply record_for_verifies.
  - intros i a b Ha Hbx. destruct (Hs _ _ Ha) as (ra & Hra & [Sa Ea _ _ (xa & Pa & Qa) _]).
    destruct (Hs _ _ Hbx) as (rb & Hrb & [Sb Eb _ _ (xb & Pb & Qb) _]).
    pose proof (Forall_lookup_1 _ _ _ _ Hp Hra) as Pra. pose proof (Forall_lookup_1 _ _ _ _ Hp Hrb) as Prb.
    simpl in Pra, Prb. apply lookup_lt_Some in Hbx. unfold zlen in *.
    split_and!; [congruence|congruence|lia|lia|lia].
Qed.

(** ** Properties *)

(** C1: The schedule of a contract is exactly what its history of accepted
    results says: the sequence number counts them, no challenge is counted
    twice, the cumulative payment is the price of the passes capped at the
    maximum, and the failure counter is the number of failures since the last
    pass (saturating at 2^32-1); other contracts, refused results and
    coordinator operations do not affect it. *)
Theorem schedule_follows_history cid escrow ppp maxp h d :
  history cid escrow ppp maxp h d →
  ∃ s, GetContractPaymentSchedule cid d = Some s ∧
    sc_Sequence s = zlen h ∧ NoDup (ar_ChallengeID <$> h) ∧
    sc_CurrentCumulativePayment s = Z.min maxp (ppp * passed h) ∧
    sc_ConsecutiveFailures s = Z.min MaxUint32 (trailing h) ∧
    (∀ x, x ∈ sc_ProcessedChallenges s ↔ x ∈ ar_ChallengeID <$> h).
Proof. intros [_ _ _ (s & Hs & [])]%history_inv. exists s. by split_and!. Qed.

(** A PASS voucher claims the exact amount earned: for the contract's own
    escrow identifier, with the next sequence number and a cumulative payment
    of [min(max, price * passes)], which never exceeds the agreed maximum and
    never wraps around. *)
Lemma pass_voucher cid escrow ppp maxp h d res now d' out :
  history cid escrow ppp maxp h d →
  DispatchAvailabilityResult res now d = (d', Ok out) →
  ar_ContractID res = cid → ar_Result res = AvailabilityPass →
  ∃ v, dr_PaymentState out = Some v ∧ dr_Kind out = DispatchKindPass ∧
    ps_ContractID v = hex_String escrow ∧ ps_LastChallengeID v = ar_ChallengeID res ∧
    ps_Sequence v = zlen h + 1 ∧
    ps_CumulativePayment v = Z.min maxp (ppp * (passed h + 1)) ∧
    0 < ps_CumulativePayment v <= maxp ∧ ps_PublisherSignature v ≠ [].
Proof.
  intros [[Hterms Hm] Hk Hb (s & Hs & Href)]%history_inv Hd Hcid Hp.
  apply Dispatch_Ok in Hd as (s0 & Hs0 & Hdup & Hseq & Hcase). rewrite Hcid, Hs in Hs0.
  injection Hs0 as <-.
  destruct Hcase as [(_ & cum & c & v & -> & Hsign & _ & Hkind & Hv & _)|(Hf & _)];
    [|rewrite Hp in Hf; discriminate Hf].
  destruct (pass_refines d c escrow ppp maxp h s res) as (Hcum & Hsq & _); try done; [lia|].
  rewrite Hcum, Hsq in Hsign.
  apply CreateAndSign_Ok in Hsign as (esc & addr & sig & st & _ & He & _ & _ & _ & Hne & -> & _).
  rewrite Hcid, Hb in He. injection He as <-. pose proof (passed_nonneg h).
  rewrite passed_snoc, decide_True in Hv by done.
  eexists. split; [exact Hv|]. simpl. split_and!; try done; nia.
Qed.

(** The voucher is what the signer made of the result's voucher, and it is the
    one stored for settlement. *)
Lemma pass_stored cid escrow ppp maxp h d res now d' out :
  history cid escrow ppp maxp h d →
  DispatchAvailabilityResult res now d = (d', Ok out) →
  ar_ContractID res = cid → ar_Result res = AvailabilityPass →
  ∃ v addr, is_u64 (zlen h + 1) ∧
    ProviderAddress (ar_ProviderID res) (pc_bindings (ds_coordinator d)) = Some addr ∧
    Sign (voucher res (Z.min maxp (ppp * (passed h + 1))) (zlen h + 1) now (ds_coordinator d) escrow addr)
      = Ok v ∧ dr_PaymentState out = Some v ∧
    (∃ s, ds_schedules d' !! cid = Some s ∧ sc_EscrowContractID s = escrow) ∧
    ds_coordinator d' = with_stores (<[hex_String escrow := {| pst_Latest := v; pst_HasState := true |}]>
      (pc_stores (ds_coordinator d))) (ds_coordinator d).
Proof.
  intros [[Hterms Hm] Hk Hb (s & Hs & Href)]%history_inv Hd Hcid Hp.
  apply Dispatch_Ok in Hd as (s0 & Hs0 & Hdup & Hseq & Hcase). rewrite Hcid, Hs in Hs0.
  injection Hs0 as <-.
  destruct Hcase as [(_ & cum & c & v & -> & Hsign & -> & Hkind & Hv & _)|(Hf & _)];
    [|rewrite Hp in Hf; discriminate Hf].
  destruct (pass_refines d c escrow ppp maxp h s res) as (Hcum & Hsq & _); try done; [lia|].
  rewrite Hcum, Hsq, passed_snoc, decide_True in Hsign by done.
  destruct (CreateAndSign_voucher _ _ _ _ _ _ _ Hsign) as (esc & addr & He & Ha & Hvo).
  rewrite Hcid, Hb in He. injection He as <-. exists v, addr. split_and!; try done.
  - rewrite <- Hsq. apply u64_range.
  - eexists. split; [simpl; by rewrite Hcid, lookup_insert_eq|]. simpl. by destruct Href.
  - apply CreateAndSign_Ok in Hsign as (esc & addr' & sig & st & _ & He & _ & _ & _ & _ & _ & ->).
    rewrite Hcid, Hb in He. by injection He as <-.
Qed.

(** C10: Slashing is flagged exactly when the last K results of the contract are
    all failures, and then the evidence is K records, one for each of them,
    that pass [VerifyFailStreak] under the publisher's public key (when the
    results name one provider). *)
Theorem slash_evidence_valid cid escrow ppp maxp h d res now d' out p :
  history cid escrow ppp maxp h d →
  DispatchAvailabilityResult res now d = (d', Ok out) →
  ar_ContractID res = cid → ar_Result res = AvailabilityFail →
  ed_valid (ds_signerKey d) → Forall (λ r, ar_ProviderID r = p) (h ++ [res]) →
  (dr_SlashEligible out = true ↔ ds_failureThreshold d <= trailing h + 1) ∧
  (dr_SlashEligible out = true →
   zlen (dr_SlashEvidence out) = ds_failureThreshold d ∧
   fr_ChallengeID <$> dr_SlashEvidence out =
     ar_ChallengeID <$> last_n (Z.to_nat (ds_failureThreshold d)) (h ++ [res]) ∧
   VerifyFailStreak (dr_SlashEvidence out) (ed_public (ds_signerKey d)) = true) ∧
  (dr_SlashEligible out = false → dr_SlashEvidence out = []).
Proof.
  intros [[Hterms Hm] Hk _ (s & Hs & Href)]%history_inv Hd Hcid Hf Hkey Hprov.
  apply Dispatch_Ok in Hd as (s0 & Hs0 & Hdup & Hseq & Hcase). rewrite Hcid, Hs in Hs0.
  injection Hs0 as <-.
  destruct Hcase as [(Hp & _)|(_ & rec & n & st & Hrec & -> & -> & _ & _ & _ & _ & Hel & Hev)];
    [rewrite Hp in Hf; discriminate Hf|].
  pose proof (fail_refines d escrow ppp maxp h s res now rec Hk Href Hf Hdup Hseq Hrec) as Href'.
  destruct Href'. simpl in *. pose proof (trailing_nonneg h).
  assert (Ht : trailing (h ++ [res]) = trailing h + 1) by (rewrite trailing_snoc, decide_True; done).
  rewrite Ht in *. rewrite sr_failures0 in Hel.
  assert (Hiff : dr_SlashEligible out = true ↔ ds_failureThreshold d <= trailing h + 1).
  { rewrite Hel, bool_decide_eq_true. lia. }
  split; [done|]. split; [|intros Hn; by rewrite Hn in Hev].
  intros Hy. rewrite Hy in Hev. rewrite Hev. apply Hiff in Hy. split; [lia|].
  set (recs := last_n _ (sc_FailStreak s ++ [rec])) in *.
  assert (Hlen : length recs = Z.to_nat (ds_failureThreshold d)) by (unfold zlen in sr_length0; lia).
  split.
  - by eapply streak_ids.
  - eapply streak_verifies; try done. intros H0. rewrite H0 in Hlen. simpl in Hlen. lia.
Qed.

(** C35: A refused result changes nothing, in the dispatcher or the coordinator
    it drives, and a challenge that was already accepted is always refused as
    a duplicate. *)
Theorem dispatch_failure_atomic cid escrow ppp maxp h d res now :
  history cid escrow ppp maxp h d →
  (∀ d' e, DispatchAvailabilityResult res now d = (d', Err e) → d' = d) ∧
  (ar_ContractID res = cid → ar_ChallengeID res ∈ ar_ChallengeID <$> h →
   ar_ContractID res ≠ ""%string → ar_ChallengeID res ≠ ""%string →
   ar_Result res = AvailabilityPass ∨ ar_Result res = AvailabilityFail →
   ∃ e, DispatchAvailabilityResult res now d = (d, Err e) ∧
        errors_Is e ErrDuplicateChallenge = true).
Proof.
  intros [_ _ _ (s & Hs & [])]%history_inv. split; [intros d' e; apply Dispatch_Err|].
  intros Hcid Hin Hne1 Hne2 Hst. unfold DispatchAvailabilityResult, validateResult.
  rewrite !(decide_False (P := _ = ""%string)) by done.
  rewrite (decide_True (P := _ ∨ _)) by done.
  rewrite Hcid, Hs, decide_True by (by apply sr_ids0). eexists. split; [reflexivity|].
  auto with cipher.
Qed.

(** The string comparison that selects the fallback of
    [SubmitSettlementOnChain] is exact: only the voucher is submitted if and
    only if no settler is configured; with a settler the outcome is that of
    the two-step flow, whatever errors the chain reports. *)
Theorem SubmitSettlement_fallback cid now now' d w s :
  ds_schedules d !! cid = Some s →
  let escrowID := hex_String (sc_EscrowContractID s) in
  (pc_settler (ds_coordinator d) = None →
   SubmitSettlementOnChain cid now now' d w =
   SubmitLatestPaymentStateOnChain escrowID now' (ds_coordinator d) w) ∧
  (pc_settler (ds_coordinator d) ≠ None →
   SubmitSettlementOnChain cid now now' d w =
   SettleContractOnChain escrowID now (ds_coordinator d) w).
Proof.
  intros Hs escrowID. unfold SubmitSettlementOnChain. rewrite Hs. fold escrowID. split.
  - intros Hn. unfold SettleContractOnChain. rewrite Hn. by rewrite decide_True.
  - intros Hn. destruct (SettleContractOnChain escrowID now (ds_coordinator d) w) as [w' [[]|e]] eqn:E;
      [done|]. rewrite decide_False; [done|]. unfold SettleContractOnChain in E.
    destruct (pc_settler (ds_coordinator d)) as [settle|]; [|done].
    destruct (pc_stores _ !! _) as [st|]; [|injection E as <- <-; discriminate].
    destruct (pst_HasState st); [|injection E as <- <-; discriminate]. cbn [negb] in E.
    case_decide; [injection E as <- <-; discriminate|].
    destruct (SubmitPaymentState _ _ _ _) as [w1 [[]|e1]]; [|injection E as <- <-; discriminate].
    destruct (settle _ _ _) as [w2 [[]|e2]]; [discriminate|injection E as <- <-; discriminate].
Qed.

End dispatcher.

(** ** Signed bytes of a fail record *)

Record record_typed (r : FailRecord) : Prop := {
  rt_escrow : is_u64 (slen (fr_EscrowContractID r));
  rt_provider : is_u64 (slen (fr_ProviderEthAddress r));
  rt_challenge : is_u64 (slen (fr_ChallengeID r));
  rt_period : is_u64 (fr_Period r);
  rt_seq : is_u64 (fr_Sequence r);
  rt_time : is_i64 (fr_IssuedAt r);
}.

Lemma payload_inj a b :
  record_typed a → record_typed b → buildFailRecordPayload a = buildFailRecordPayload b →
  set_fr_sig [] a = set_fr_sig [] b.
Proof.
  intros [] [] H. unfold buildFailRecordPayload in H.
  assert (Ht : is_u64 (slen failRecordDomainTag)) by (vm_compute; split; congruence).
  apply lp_string_app_inj in H as [_ H]; [|done..].
  apply lp_string_app_inj in H as [H1 H]; [|done..].
  apply lp_string_app_inj in H as [H2 H]; [|done..].
  apply lp_string_app_inj in H as [H3 H]; [|done..].
  apply be64_app_inj in H as [H4 H]; [|done..].
  apply be64_app_inj in H as [H5 H]; [|done..].
  apply be64_inj in H; [|apply u64_range..]. unfold UnixNano in H.
  rewrite !i64_id in H by done. apply u64_i64_inj in H; [|done..].
  unfold set_fr_sig. congruence.
Qed.

(** The bytes signed for a fail record determine the record (escrow,
    provider, challenge, period, sequence and time), and they are never the
    bytes signed for a voucher of the coordinator, so neither signature can
    be passed off as the other without a SHA-256 collision. *)
Theorem fail_record_binding a b v :
  record_typed a → record_typed b → payment_typed v →
  (∃ e, ps_ContractID v = hex_String e) →
  (sha256 (buildFailRecordPayload a) = sha256 (buildFailRecordPayload b) →
   set_fr_sig [] a = set_fr_sig [] b ∨
   sha256_collision (buildFailRecordPayload a) (buildFailRecordPayload b)) ∧
  (sha256 (buildFailRecordPayload a) = paymentStateDigest v →
   sha256_collision (buildFailRecordPayload a) (payment_preimage v)).
Proof.
  intros Ha Hb Hv [e He]. split; intros H.
  - destruct (decide (buildFailRecordPayload a = buildFailRecordPayload b)) as [E|E]; [left|by right].
    by apply payload_inj.
  - split; [|done]. unfold buildFailRecordPayload, payment_preimage. intros E.
    apply lp_string_app_inj in E as [E _]; [|vm_compute; split; congruence|apply Hv].
    rewrite He in E. discriminate E.
Qed.

Definition wit_record (seq : Z) : FailRecord :=
  {| fr_EscrowContractID := "0xe1"; fr_ProviderEthAddress := "0xa1"; fr_ChallengeID := "c";
     fr_Period := seq; fr_Sequence := seq; fr_IssuedAt := 5; fr_PublisherSignature := [] |}.
Lemma wit_record_typed : record_typed (wit_record 1).
Proof. split; vm_compute; split; congruence. Qed.

Lemma wit_signed_typed : record_typed (set_fr_sig [x01] (wit_record 1)).
Proof. split; vm_compute; split; congruence. Qed.

Definition wit_voucher : PaymentState := set_target (hex_String wit_escrow) 10 (wit_payment 1 5).
Lemma wit_voucher_typed : payment_typed wit_voucher.
Proof. split; vm_compute; split; congruence. Qed.

Lemma fail_record_binding_witness :
  set_fr_sig [] (set_fr_sig [x01] (wit_record 1)) = set_fr_sig [] (wit_record 1) ∨
  sha256_collision (buildFailRecordPayload (set_fr_sig [x01] (wit_record 1)))
                   (buildFailRecordPayload (wit_record 1)).
Proof.
  assert (He : ∃ e, ps_ContractID wit_voucher = hex_String e) by (exists wit_escrow; reflexivity).
  exact (proj1 (fail_record_binding (set_fr_sig [x01] (wit_record 1)) (wit_record 1) wit_voucher
    wit_signed_typed wit_record_typed wit_voucher_typed He) eq_refl).
Defined.

(** ** A concrete run *)

Definition wit_submit : EscrowCall nat := λ _ _ w, (S w, Ok tt).
#[local] Instance wit_signer : StateSigner := Ed25519Signer (toy_key 3).

Definition wit_coord : PublisherCoordinator nat :=
  {| pc_publisherID := "pub"; pc_submitter := wit_submit; pc_paymentStateTTL := 24 * Hour;
     pc_settler := None; pc_bindings := (BindProvider "prov" wit_addr NewRegistry).1;
     pc_stores := ∅ |}.
Definition wit_d0 : Dispatcher nat :=
  {| ds_coordinator := wit_coord; ds_schedules := ∅; ds_signerKey := toy_key 4;
     ds_failureThreshold := 2 |}.
Definition wit_d1 : Dispatcher nat := (RegisterContractSchedule "k1" wit_escrow 30 100 wit_d0).1.
Definition wit_res (ch : string) (st : string) : AvailabilityResult :=
  {| ar_ContractID := "k1"; ar_ProviderID := "prov"; ar_Period := 1; ar_ChallengeID := ch;
     ar_Result := st; ar_Timestamp := 0 |}.
Definition wit_d2 : Dispatcher nat :=
  (DispatchAvailabilityResult (wit_res "c1" AvailabilityFail) 7 wit_d1).1.

Lemma wit_d1_history : history "k1" wit_escrow 30 100 [] wit_d1.
Proof.
  apply (hist_register _ _ _ _ wit_d0); [unfold is_u64; lia|unfold is_u64; lia|vm_compute; split; congruence|].
  unfold wit_d1. destruct (RegisterContractSchedule "k1" wit_escrow 30 100 wit_d0) as [d [[]|e]] eqn:E;
    [reflexivity|refute_err E].
Qed.

Lemma wit_d2_history : history "k1" wit_escrow 30 100 [wit_res "c1" AvailabilityFail] wit_d2.
Proof.
  unfold wit_d2. destruct (DispatchAvailabilityResult (wit_res "c1" AvailabilityFail) 7 wit_d1)
    as [d [out|e]] eqn:E; [|refute_err E].
  exact (hist_dispatch _ _ _ _ _ _ _ _ _ _ wit_d1_history E).
Qed.

Lemma schedule_follows_history_witness :
  ∃ s, GetContractPaymentSchedule "k1" wit_d2 = Some s ∧ sc_Sequence s = 1.
Proof.
  destruct (schedule_follows_history _ _ _ _ _ _ wit_d2_history) as (s & H1 & H2 & _).
  exists s. split; [exact H1|exact H2].
Defined.

Lemma slash_evidence_valid_witness :
  ∃ d' out, DispatchAvailabilityResult (wit_res "c2" AvailabilityFail) 9 wit_d2 = (d', Ok out) ∧
    dr_SlashEligible out = true ∧
    VerifyFailStreak (dr_SlashEvidence out) (ed_public (toy_key 4)) = true.
Proof.
  destruct (DispatchAvailabilityResult (wit_res "c2" AvailabilityFail) 9 wit_d2) as [d' [out|e]] eqn:E;
    [|refute_err E].
  destruct (slash_evidence_valid _ _ _ _ _ _ _ _ _ _ "prov" wit_d2_history E eq_refl eq_refl)
    as (H1 & H2 & _); [vm_compute; reflexivity|repeat constructor|].
  assert (Hel : dr_SlashEligible out = true) by (apply H1; vm_compute; congruence).
  exists d', out. split; [reflexivity|]. split; [exact Hel|]. apply H2, Hel.
Defined.

Lemma dispatch_failure_atomic_witness :
  ∃ e, DispatchAvailabilityResult (wit_res "c1" AvailabilityPass) 9 wit_d2 = (wit_d2, Err e) ∧
       errors_Is e ErrDuplicateChallenge = true.
Proof.
  apply (dispatch_failure_atomic _ _ _ _ _ _ (wit_res "c1" AvailabilityPass) 9 wit_d2_history);
    [reflexivity|left|discriminate|discriminate|left; reflexivity].
Defined.

Lemma SubmitSettlement_fallback_witness :
  ∃ s, ds_schedules wit_d1 !! "k1" = Some s ∧
    SubmitSettlementOnChain "k1" 0 0 wit_d1 0%nat =
    SubmitLatestPaymentStateOnChain (hex_String (sc_EscrowContractID s)) 0 (ds_coordinator wit_d1) 0%nat.
Proof.
  destruct (fmap_lookup_Some sc_Sequence (ds_schedules wit_d1) "k1" 0) as (s & Hs & _);
    [vm_compute; reflexivity|].
  exists s. split; [exact Hs|].
  apply (SubmitSettlement_fallback "k1" 0 0 wit_d1 0%nat s Hs). vm_compute. reflexivity.
Defined.
