(* ===== verification/Request.v ===== *)
(** * Request pool, demand and proof of work

    proof-of-request: model/request.go, request/request.go (the pool of pending
    requests), demand/tracker.go, validation/validator.go, security/pow.go and
    security/signature.go.

    Records are shared by pointer between the pool, the timers and the threads
    that resolve or abort them, so the state has a heap of records.  The
    operations are split at the points where the code releases [mu]:
    [transitionRequest] finds a record in one critical section, changes it in a
    second one and stops its timer after that; a timer can fire in between. *)

From S2P Require Import Prelude Sha256 Crypto.

Inductive RequestStatus := Pending | Resolved | Aborted | Expired.
#[global] Instance RequestStatus_eq_dec : EqDecision RequestStatus.
Proof. solve_decision. Defined.

Record Request := {
  rq_FileID : string;
  rq_ClientID : string;
  rq_Timestamp : Z;   (* int64 *)
  rq_Status : RequestStatus;
}.

Definition set_rq_Status (s : RequestStatus) (r : Request) : Request :=
  {| rq_FileID := rq_FileID r; rq_ClientID := rq_ClientID r; rq_Timestamp := rq_Timestamp r;
     rq_Status := s |}.

(** [requestRecord]: [rr_timer] is [record.timer != nil]. *)
Record requestRecord := { rr_request : Request; rr_timer : bool }.

Record Pool := {
  pl_heap : gmap nat requestRecord;    (* every record ever allocated *)
  pl_requests : list nat;              (* the global slice [requests] *)
  pl_next : nat;                       (* next fresh pointer *)
  pl_armed : gmap nat Z;               (* armed timers and when they fire *)
  pl_found : list (nat * RequestStatus); (* threads between find and transition *)
  pl_stopping : list nat;              (* threads between transition and Stop *)
  pl_clock : Z;
}.

Definition empty_pool (now : Z) : Pool :=
  {| pl_heap := ∅; pl_requests := []; pl_next := 0; pl_armed := ∅; pl_found := [];
     pl_stopping := []; pl_clock := now |}.

Definition CreateRequest (fileID clientID : string) (now : Z) : Request :=
  {| rq_FileID := fileID; rq_ClientID := clientID; rq_Timestamp := UnixNano now;
     rq_Status := Pending |}.

Definition rec_status (r : requestRecord) : RequestStatus := rq_Status (rr_request r).
Definition matches (fileID clientID : string) (r : requestRecord) : bool :=
  bool_decide (rq_FileID (rr_request r) = fileID) && bool_decide (rq_ClientID (rr_request r) = clientID)
  && bool_decide (rec_status r = Pending).

(** The search loops of [GetOrCreateRequest] and [transitionRequest]. *)
Fixpoint find_record (fileID clientID : string) (heap : gmap nat requestRecord) (l : list nat)
    : option nat :=
  match l with
  | [] => None
  | p :: l' =>
      match heap !! p with
      | Some r => if matches fileID clientID r then Some p else find_record fileID clientID heap l'
      | None => find_record fileID clientID heap l'
      end
  end.

(** The result carries the request and whether it was created. *)
Definition GetOrCreateRequest (fileID clientID : string) (lifetime : Z) (st : Pool)
    : Pool * result (Request * bool) :=
  if decide (lifetime <= 0) then (st, Err (New "request lifetime must be positive"))
  else
    match find_record fileID clientID (pl_heap st) (pl_requests st) with
    | Some p =>
        match pl_heap st !! p with
        | Some r => (st, Ok (rr_request r, false))
        | None => (st, Err (New "nil pointer dereference"))
        end
    | None =>
        let req := CreateRequest fileID clientID (pl_clock st) in
        let p := pl_next st in
        ({| pl_heap := <[p := {| rr_request := req; rr_timer := true |}]> (pl_heap st);
            pl_requests := pl_requests st ++ [p]; pl_next := S p;
            pl_armed := <[p := pl_clock st + lifetime]> (pl_armed st);
            pl_found := pl_found st; pl_stopping := pl_stopping st; pl_clock := pl_clock st |},
         Ok (req, true))
    end.

(** [removeRecordLocked]: drop the first occurrence of the pointer. *)
Fixpoint removeRecordLocked (target : nat) (l : list nat) : list nat :=
  match l with
  | [] => []
  | p :: l' => if decide (p = target) then l' else p :: removeRecordLocked target l'
  end.

(** The critical section of [transitionRecord]; the result is its return value
    and whether a timer is left to stop. *)
Definition transitionRecord (p : nat) (newStatus : RequestStatus) (st : Pool) : Pool * (bool * bool) :=
  match pl_heap st !! p with
  | None => (st, (false, false))
  | Some record =>
      if decide (rec_status record ≠ Pending) then (st, (false, false))
      else
        ({| pl_heap := <[p := {| rr_request := set_rq_Status newStatus (rr_request record);
                                 rr_timer := false |}]> (pl_heap st);
            pl_requests := removeRecordLocked p (pl_requests st); pl_next := pl_next st;
            pl_armed := pl_armed st; pl_found := pl_found st; pl_stopping := pl_stopping st;
            pl_clock := pl_clock st |},
         (true, rr_timer record && bool_decide (newStatus ≠ Expired)))
  end.

(** First critical section of [transitionRequest]: the thread keeps the pointer
    it found. *)
Definition find_step (fileID clientID : string) (newStatus : RequestStatus) (st : Pool) : Pool :=
  match find_record fileID clientID (pl_heap st) (pl_requests st) with
  | None => st
  | Some p =>
      {| pl_heap := pl_heap st; pl_requests := pl_requests st; pl_next := pl_next st;
         pl_armed := pl_armed st; pl_found := (p, newStatus) :: pl_found st;
         pl_stopping := pl_stopping st; pl_clock := pl_clock st |}
  end.

(** A thread that found [p] performs its transition. *)
Definition transition_step (i : nat) (st : Pool) : Pool :=
  match pl_found st !! i with
  | None => st
  | Some (p, newStatus) =>
      let '(st', (_, stop)) := transitionRecord p newStatus st in
      {| pl_heap := pl_heap st'; pl_requests := pl_requests st'; pl_next := pl_next st';
         pl_armed := pl_armed st'; pl_found := remove_at i (pl_found st');
         pl_stopping := if stop then p :: pl_stopping st' else pl_stopping st';
         pl_clock := pl_clock st' |}
  end.

(** [timer.Stop()] after the lock was released. *)
Definition stop_step (i : nat) (st : Pool) : Pool :=
  match pl_stopping st !! i with
  | None => st
  | Some p =>
      {| pl_heap := pl_heap st; pl_requests := pl_requests st; pl_next := pl_next st;
         pl_armed := delete p (pl_armed st); pl_found := pl_found st;
         pl_stopping := remove_at i (pl_stopping st); pl_clock := pl_clock st |}
  end.

(** A due timer fires and runs [expireRequest]. *)
Definition fire_step (p : nat) (st : Pool) : Pool :=
  match pl_armed st !! p with
  | None => st
  | Some due =>
      if decide (due <= pl_clock st) then
        let st := {| pl_heap := pl_heap st; pl_requests := pl_requests st; pl_next := pl_next st;
                     pl_armed := delete p (pl_armed st); pl_found := pl_found st;
                     pl_stopping := pl_stopping st; pl_clock := pl_clock st |} in
        (transitionRecord p Expired st).1
      else st
  end.

Definition tick (dt : Z) (st : Pool) : Pool :=
  {| pl_heap := pl_heap st; pl_requests := pl_requests st; pl_next := pl_next st;
     pl_armed := pl_armed st; pl_found := pl_found st; pl_stopping := pl_stopping st;
     pl_clock := pl_clock st + dt |}.

(** [ResolveRequest] and [AbortRequest] start with these finds; run without
    interference, the three steps in a row are the whole call. *)
Definition ResolveRequest (fileID clientID : string) (st : Pool) : Pool :=
  stop_step 0 (transition_step 0 (find_step fileID clientID Resolved st)).
Definition AbortRequest (fileID clientID : string) (st : Pool) : Pool :=
  stop_step 0 (transition_step 0 (find_step fileID clientID Aborted st)).

Definition GetPendingRequests (st : Pool) : list Request :=
  filter (λ r, rq_Status r = Pending)
    (omap (λ p, rr_request <$> pl_heap st !! p) (pl_requests st)).

(** ** demand/tracker.go and validation/validator.go *)

Definition CalculateDemand (fileID : string) (st : Pool) : result Z :=
  if decide (fileID = ""%string) then Err (New "file ID cannot be empty")
  else Ok (zlen (filter (λ r, rq_FileID r = fileID) (GetPendingRequests st))).

Definition ValidateRequest (req : Request) : bool :=
  if decide (rq_FileID req = ""%string) then false
  else if decide (rq_ClientID req = ""%string) then false
  else if decide (rq_Timestamp req <= 0) then false
  else if decide (rq_Status req ≠ Pending) then false
  else true.

(** ** Interleaved executions *)

Inductive pool_step : Pool → Pool → Prop :=
| ps_create f c life st : pool_step st (GetOrCreateRequest f c life st).1
| ps_find f c s st : s = Resolved ∨ s = Aborted → pool_step st (find_step f c s st)
| ps_transition i st : pool_step st (transition_step i st)
| ps_stop i st : pool_step st (stop_step i st)
| ps_fire p st : pool_step st (fire_step p st)
| ps_tick dt st : 0 <= dt → pool_step st (tick dt st).

(** The pool holds exactly the pending records, each once, at most one per
    file and client, and each with an armed timer. *)
Record pool_wf (st : Pool) : Prop := {
  pw_nodup : NoDup (pl_requests st);
  pw_live : ∀ p, p ∈ pl_requests st ↔
      ∃ r, pl_heap st !! p = Some r ∧ rec_status r = Pending;
  pw_unique : ∀ p q r s, pl_heap st !! p = Some r → pl_heap st !! q = Some s →
      rec_status r = Pending → rec_status s = Pending →
      rq_FileID (rr_request r) = rq_FileID (rr_request s) →
      rq_ClientID (rr_request r) = rq_ClientID (rr_request s) → p = q;
  pw_timer : ∀ p r, pl_heap st !! p = Some r → rec_status r = Pending →
      rr_timer r = true ∧ is_Some (pl_armed st !! p);
  pw_fresh : ∀ p, is_Some (pl_heap st !! p) → (p < pl_next st)%nat;
  pw_stopping : ∀ p, p ∈ pl_stopping st → ∃ r, pl_heap st !! p = Some r ∧ rec_status r ≠ Pending;
  pw_found : ∀ p s, (p, s) ∈ pl_found st → s ≠ Pending;
}.

Lemma matches_true f c r :
  matches f c r = true ↔
  rq_FileID (rr_request r) = f ∧ rq_ClientID (rr_request r) = c ∧ rec_status r = Pending.
Proof. unfold matches. rewrite !andb_true_iff, !bool_decide_eq_true. tauto. Qed.

Lemma find_record_Some f c h l p :
  find_record f c h l = Some p → p ∈ l ∧ ∃ r, h !! p = Some r ∧ matches f c r = true.
Proof.
  induction l as [|q l IH]; simpl; [done|]. destruct (h !! q) as [r|] eqn:Hq.
  - destruct (matches f c r) eqn:Hm; [intros [= <-]; split; [left|eauto]|].
    intros [? ?]%IH. split; [by right|done].
  - intros [? ?]%IH. split; [by right|done].
Qed.

Lemma find_record_None f c h l p r :
  find_record f c h l = None → p ∈ l → h !! p = Some r → matches f c r = false.
Proof.
  induction l as [|q l IH]; intros Hn Hp Hr; [by apply not_elem_of_nil in Hp|]. simpl in Hn.
  apply elem_of_cons in Hp as [->|Hp].
  - rewrite Hr in Hn. by destruct (matches f c r).
  - destruct (h !! q) as [x|]; [destruct (matches f c x); [done|]|]; eauto.
Qed.

Lemma removeRecordLocked_elem t l p :
  NoDup l → p ∈ removeRecordLocked t l ↔ p ∈ l ∧ p ≠ t.
Proof.
  induction 1 as [|q l Hq Hl IH]; simpl; [set_solver|]. case_decide as Hd.
  - subst. rewrite elem_of_cons. split; [|naive_solver]. intros Hp. split; [by right|]. by intros ->.
  - rewrite !elem_of_cons, IH. naive_solver.
Qed.

Lemma removeRecordLocked_NoDup t l : NoDup l → NoDup (removeRecordLocked t l).
Proof.
  induction 1 as [|q l Hq Hl IH]; simpl; [constructor|]. case_decide; [done|].
  constructor; [|done]. rewrite removeRecordLocked_elem by done. tauto.
Qed.

(** A terminal transition of one record keeps the pool well formed, and only
    needs timers of pending records to stay armed. *)
Lemma transitionRecord_wf p s st :
  s ≠ Pending → pool_wf st → pool_wf (transitionRecord p s st).1.
Proof.
  intros Hs Hst. unfold transitionRecord. destruct (pl_heap st !! p) as [r|] eqn:Hp; [|done].
  case_decide as Hpend; [done|]. destruct Hst as [Hnd Hlive Hu Ht Hf Hst Hfd]. simpl.
  assert (Hheap : ∀ q x, <[p:={| rr_request := set_rq_Status s (rr_request r); rr_timer := false |}]>
      (pl_heap st) !! q = Some x → rec_status x = Pending → q ≠ p ∧ pl_heap st !! q = Some x).
  { intros q x [[<- <-]|[Hne Hq]]%lookup_insert_Some Hx; [done|]. done. }
  split; simpl.
  - by apply removeRecordLocked_NoDup.
  - intros q. rewrite removeRecordLocked_elem by done. rewrite Hlive. split.
    + intros [(x & Hx & Hpx) Hne]. exists x. by rewrite lookup_insert_ne.
    + intros (x & Hx & Hpx). destruct (Hheap _ _ Hx Hpx). eauto.
  - intros q1 q2 x y Hx Hy Hpx Hpy. destruct (Hheap _ _ Hx Hpx), (Hheap _ _ Hy Hpy). eauto.
  - intros q x Hx Hpx. destruct (Hheap _ _ Hx Hpx). eauto.
  - intros q [x Hx]. apply lookup_insert_Some in Hx as [[<- _]|[_ Hx]]; eauto.
  - intros q (x & Hx & Hpx)%Hst. destruct (decide (q = p)) as [->|Hne].
    + rewrite lookup_insert_eq. eexists. split; [done|]. done.
    + rewrite lookup_insert_ne by done. eauto.
  - done.
Qed.

(** When a timer fires it is already gone; the record it expires no longer needs it. *)
Lemma fire_wf p st :
  pool_wf st →
  pool_wf (transitionRecord p Expired
    {| pl_heap := pl_heap st; pl_requests := pl_requests st; pl_next := pl_next st;
       pl_armed := delete p (pl_armed st); pl_found := pl_found st;
       pl_stopping := pl_stopping st; pl_clock := pl_clock st |}).1.
Proof.
  intros Hst. pose proof (transitionRecord_wf p Expired st ltac:(done) Hst) as Hwf.
  unfold transitionRecord in *. simpl in *.
  destruct (pl_heap st !! p) as [r|] eqn:Hp; [case_decide as Hn|]; simpl in *;
    destruct Hwf as [Hnd Hlive Hu Ht Hf Hs Hfd]; split; simpl in *; try done;
    intros q x Hx Px; (rewrite lookup_delete_ne; [by apply (Ht q x)|]); intros <-.
  - congruence.
  - rewrite lookup_insert_eq in Hx. injection Hx as <-. done.
  - congruence.
Qed.

Lemma GetOrCreateRequest_wf f c life st : pool_wf st → pool_wf (GetOrCreateRequest f c life st).1.
Proof.
  intros Hst. unfold GetOrCreateRequest. case_decide; [done|].
  destruct (find_record f c (pl_heap st) (pl_requests st)) as [p|] eqn:Hfind; [by case_match|].
  destruct Hst as [Hnd Hlive Hu Ht Hf Hs Hfd]. simpl.
  assert (Hnew : pl_heap st !! pl_next st = None).
  { destruct (pl_heap st !! pl_next st) eqn:E; [|done].
    pose proof (Hf _ (ex_intro _ _ E)). lia. }
  assert (Hno : ∀ p r, pl_heap st !! p = Some r → rec_status r = Pending →
                ¬ (rq_FileID (rr_request r) = f ∧ rq_ClientID (rr_request r) = c)).
  { intros p r Hp Hr [H1 H2]. assert (Hin : p ∈ pl_requests st) by (apply Hlive; eauto).
    pose proof (find_record_None _ _ _ _ _ _ Hfind Hin Hp) as Hm.
    rewrite (proj2 (matches_true f c r)) in Hm; done. }
  split; simpl.
  - apply NoDup_snoc; [done|]. rewrite Hlive. intros (r & Hr & _). congruence.
  - intros q. rewrite elem_of_app, list_elem_of_singleton, Hlive.
    destruct (decide (q = pl_next st)) as [->|Hne].
    + rewrite lookup_insert_eq. split; [eauto|by right].
    + rewrite lookup_insert_ne by done. split; [intros [?|?]; done|by left].
  - intros q1 q2 x y [[<- <-]|[Hn1 Hx]]%lookup_insert_Some [[<- <-]|[Hn2 Hy]]%lookup_insert_Some Px Py H1 H2;
      simpl in *; try done; eauto; exfalso.
    + by eapply (Hno q2).
    + by eapply (Hno q1).
  - intros q x [[<- <-]|[Hn Hx]]%lookup_insert_Some Px.
    + split; [done|]. rewrite lookup_insert_eq. eauto.
    + rewrite lookup_insert_ne by done. eauto.
  - intros q [x Hx]. apply lookup_insert_Some in Hx as [[<- _]|[_ Hx]]; [lia|].
    specialize (Hf q (ex_intro _ _ Hx)). lia.
  - intros q (x & Hx & Px)%Hs. exists x. rewrite lookup_insert_ne; [done|]. congruence.
  - done.
Qed.

Lemma remove_at_subset {A} i (l : list A) x : x ∈ remove_at i l → x ∈ l.
Proof.
  unfold remove_at. rewrite elem_of_app. intros [H|H].
  - apply list_elem_of_lookup_1 in H as [j Hj]. apply lookup_take_Some in Hj as [Hj _].
    by eapply list_elem_of_lookup_2.
  - apply list_elem_of_lookup_1 in H as [j Hj]. rewrite lookup_drop in Hj.
    by eapply list_elem_of_lookup_2.
Qed.

Lemma pool_step_wf st st' : pool_step st st' → pool_wf st → pool_wf st'.
Proof.
  intros Hstep Hst. destruct Hstep as [f c life st|f c s st Hs|i st|i st|p st|dt st Hdt].
  - by apply GetOrCreateRequest_wf.
  - unfold find_step. destruct (find_record _ _ _ _); [|done]. destruct Hst. split; simpl; try done.
    intros q x [[= -> ->]|Hin]%elem_of_cons; [by destruct Hs as [-> | ->]|eauto].
  - unfold transition_step. destruct (pl_found st !! i) as [[p s]|] eqn:Hi; [|done].
    assert (Hs : s ≠ Pending) by (eapply pw_found; [done|by eapply list_elem_of_lookup_2]).
    pose proof (transitionRecord_wf p s st Hs Hst) as Hwf.
    destruct (transitionRecord p s st) as [st' [ok stop]] eqn:E. simpl in Hwf.
    destruct Hwf. split; simpl; try done.
    + intros q Hq. destruct stop; [|by apply pw_stopping0].
      apply elem_of_cons in Hq as [->|Hq]; [|by apply pw_stopping0].
      unfold transitionRecord in E. destruct (pl_heap st !! p) as [r|]; [|done].
      case_decide; [done|]. injection E as <- _ _. simpl. rewrite lookup_insert_eq. eauto.
    + intros q x Hin%remove_at_subset. eauto.
  - unfold stop_step. destruct (pl_stopping st !! i) as [p|] eqn:Hi; [|done].
    assert (Hp : ∃ r, pl_heap st !! p = Some r ∧ rec_status r ≠ Pending)
      by (eapply pw_stopping; [done|by eapply list_elem_of_lookup_2]).
    destruct Hp as (r & Hr & Hnp). destruct Hst. split; simpl; try done.
    + intros q x Hx Px. rewrite lookup_delete_ne; [eauto|]. congruence.
    + intros q Hin%remove_at_subset. eauto.
  - unfold fire_step. destruct (pl_armed st !! p) as [due|] eqn:Hd; [|done]. case_decide; [|done].
    by apply fire_wf.
  - destruct Hst. by split.
Qed.

Lemma empty_pool_wf now : pool_wf (empty_pool now).
Proof.
  split; simpl; try done.
  - apply NoDup_nil_2.
  - intros p. split; [set_solver|by intros (r & Hr & _)].
  - by intros p [x Hx].
  - set_solver.
  - set_solver.
Qed.

Lemma pool_reachable_wf now st : rtc pool_step (empty_pool now) st → pool_wf st.
Proof. apply rtc_invariant; [apply pool_step_wf|apply empty_pool_wf]. Qed.

Abbreviation pair_of r := (rq_FileID r, rq_ClientID r).

(** The pending requests, one per live pointer, have distinct file/client pairs. *)
Lemma live_requests_nodup st l :
  pool_wf st → NoDup l → (∀ p, p ∈ l → p ∈ pl_requests st) →
  NoDup ((λ r, pair_of r) <$> omap (λ p, rr_request <$> pl_heap st !! p) l).
Proof.
  intros Hst. induction 1 as [|p l Hp Hl IH]; intros Hin; [constructor|].
  assert (Hpin : p ∈ pl_requests st) by (apply Hin; left).
  apply (pw_live _ Hst) in Hpin as (r & Hr & Pr). simpl. rewrite Hr. simpl.
  constructor; [|apply IH; intros q Hq; apply Hin; by right].
  intros (x & Hx & Hex)%list_elem_of_fmap.
  apply list_elem_of_omap in Hex as (q & Hq & Hqx).
  assert (Hqin : q ∈ pl_requests st) by (apply Hin; by right).
  apply (pw_live _ Hst) in Hqin as (s & Hs & Ps). rewrite Hs in Hqx. simplify_eq/=.
  apply Hp. rewrite (pw_unique _ Hst p q r s) by done. done.
Qed.

Lemma pending_nodup st :
  pool_wf st → NoDup ((λ r, pair_of r) <$> GetPendingRequests st).
Proof.
  intros Hst. pose proof (live_requests_nodup st (pl_requests st) Hst (pw_nodup _ Hst) (λ _ H, H)) as H.
  unfold GetPendingRequests.
  eapply sublist_NoDup; [exact H|]. apply fmap_sublist, sublist_filter.
Qed.

Lemma demand_clients st f :
  pool_wf st → NoDup (rq_ClientID <$> filter (λ r, rq_FileID r = f) (GetPendingRequests st)).
Proof.
  intros Hst. pose proof (pending_nodup st Hst) as Hn.
  induction (GetPendingRequests st) as [|r l IH]; [constructor|]. simpl in Hn.
  apply NoDup_cons in Hn as [Hr Hn]. rewrite filter_cons. case_decide as Hf; [|by apply IH].
  simpl. constructor; [|by apply IH].
  intros (x & Hx & Hin)%list_elem_of_fmap. apply list_elem_of_filter in Hin as [Hxf Hin].
  apply Hr, list_elem_of_fmap. exists x. split; [congruence|done].
Qed.

(** C32: However creations, resolutions, aborts and timers interleave, a client
    has at most one pending request per file, the demand reported for a file
    is the number of distinct clients with a pending request for it, and every
    pending request has an armed timer. *)
Theorem request_pool_invariant now st :
  rtc pool_step (empty_pool now) st →
  NoDup ((λ r, (rq_FileID r, rq_ClientID r)) <$> GetPendingRequests st) ∧
  (∀ f n, CalculateDemand f st = Ok n →
     n = Z.of_nat (size (list_to_set (C := gset string)
           (rq_ClientID <$> filter (λ r, rq_FileID r = f) (GetPendingRequests st))))) ∧
  (∀ p r, pl_heap st !! p = Some r → rec_status r = Pending →
     p ∈ pl_requests st ∧ is_Some (pl_armed st !! p)).
Proof.
  intros Hst%pool_reachable_wf. split_and!; [by apply pending_nodup| |].
  - intros f n. unfold CalculateDemand. case_decide; [done|]. intros [= <-].
    rewrite size_list_to_set by (by apply demand_clients). unfold zlen. by rewrite length_fmap.
  - intros p r Hp Hr. split; [apply (pw_live _ Hst); eauto|]. by eapply (pw_timer _ Hst).
Qed.

(** ** Records only move from pending to one final status *)

Definition record_le (r r' : requestRecord) : Prop :=
  set_rq_Status Pending (rr_request r') = set_rq_Status Pending (rr_request r) ∧
  (rec_status r ≠ Pending → rec_status r' = rec_status r).

Definition heap_le (h h' : gmap nat requestRecord) : Prop :=
  ∀ p r, h !! p = Some r → ∃ r', h' !! p = Some r' ∧ record_le r r'.

#[global] Instance heap_le_preorder : PreOrder heap_le.
Proof.
  split; [intros h p r Hp; exists r; by repeat split|].
  intros a b c H1 H2 p r (r1 & (r2 & H3 & [E2 S2])%H2 & [E1 S1])%H1. exists r2. split; [done|].
  split; [congruence|]. intros Hr. rewrite S2; [by apply S1|]. by rewrite S1.
Qed.

Lemma transitionRecord_le p s st : heap_le (pl_heap st) (pl_heap (transitionRecord p s st).1).
Proof.
  unfold transitionRecord. destruct (pl_heap st !! p) as [r|] eqn:Hp; [|reflexivity].
  case_decide as Hn; [reflexivity|]. intros q x Hq. simpl. destruct (decide (p = q)) as [<-|].
  - rewrite lookup_insert_eq. eexists. split; [done|]. simplify_eq. split; [done|]. done.
  - rewrite lookup_insert_ne by done. exists x. by repeat split.
Qed.

Lemma pool_step_le st st' : pool_wf st → pool_step st st' → heap_le (pl_heap st) (pl_heap st').
Proof.
  intros Hst Hstep. destruct Hstep as [f c life st|f c s st Hs|i st|i st|p st|dt st Hdt].
  - unfold GetOrCreateRequest. case_decide; [reflexivity|].
    destruct (find_record _ _ _ _); [by case_match|]. simpl. intros q x Hq. exists x.
    rewrite lookup_insert_ne; [by repeat split|]. intros <-.
    pose proof (pw_fresh _ Hst _ (ex_intro _ _ Hq)). lia.
  - unfold find_step. by case_match.
  - unfold transition_step. destruct (pl_found st !! i) as [[p s]|]; [|reflexivity].
    pose proof (transitionRecord_le p s st). by destruct (transitionRecord p s st) as [st' [? ?]].
  - unfold stop_step. by case_match.
  - unfold fire_step. destruct (pl_armed st !! p); [|reflexivity]. case_decide; [|reflexivity].
    match goal with |- heap_le _ (pl_heap (transitionRecord _ _ ?s).1) =>
      exact (transitionRecord_le p Expired s) end.
  - reflexivity.
Qed.

Lemma pool_steps_le st st' : pool_wf st → rtc pool_step st st' → heap_le (pl_heap st) (pl_heap st').
Proof.
  intros Hst H. induction H as [|x y z Hxy _ IH]; [reflexivity|].
  etrans; [by apply pool_step_le|]. apply IH. by eapply pool_step_wf.
Qed.

Lemma fire_expires p st r due :
  pl_heap st !! p = Some r → rec_status r = Pending → pl_armed st !! p = Some due →
  due <= pl_clock st →
  ∃ r', pl_heap (fire_step p st) !! p = Some r' ∧ rec_status r' = Expired.
Proof.
  intros Hp Hr Ha Hd. unfold fire_step. rewrite Ha, decide_True by done.
  unfold transitionRecord. simpl. rewrite Hp, decide_False by tauto. simpl.
  rewrite lookup_insert_eq. eauto.
Qed.

(** A request's outcome is decided once: whichever of the resolver, the
    aborter and the timer comes first wins, and from then on its record never
    changes; a request nobody answers is expired by its timer once that is
    due. *)
Theorem request_outcome_final now st p r :
  rtc pool_step (empty_pool now) st → pl_heap st !! p = Some r →
  (∀ st', rtc pool_step st st' → ∃ r', pl_heap st' !! p = Some r' ∧
     rq_FileID (rr_request r') = rq_FileID (rr_request r) ∧
     rq_ClientID (rr_request r') = rq_ClientID (rr_request r) ∧
     (rec_status r ≠ Pending → rec_status r' = rec_status r)) ∧
  (rec_status r = Pending → ∃ due, pl_armed st !! p = Some due ∧
     ∀ dt, due <= pl_clock st + dt →
       ∃ r', pl_heap (fire_step p (tick dt st)) !! p = Some r' ∧ rec_status r' = Expired).
Proof.
  intros Hst%pool_reachable_wf Hp. split.
  - intros st' Hrun. destruct (pool_steps_le _ _ Hst Hrun _ _ Hp) as (r' & Hr' & [E S]).
    exists r'. split; [done|]. unfold set_rq_Status in E. simplify_eq. done.
  - intros Hr. destruct (pw_timer _ Hst _ _ Hp Hr) as [_ [due Hd]]. exists due. split; [done|].
    intros dt Hdt. by eapply (fire_expires p (tick dt st)).
Qed.

Definition wit_pool : Pool := (GetOrCreateRequest "f" "c" 5 (empty_pool 10)).1.
Lemma wit_pool_reachable : rtc pool_step (empty_pool 10) wit_pool.
Proof. apply rtc_once, ps_create. Qed.

Lemma request_pool_invariant_witness :
  CalculateDemand "f" wit_pool = Ok 1 ∧
  1 = Z.of_nat (size (list_to_set (C := gset string)
        (rq_ClientID <$> filter (λ r, rq_FileID r = "f"%string) (GetPendingRequests wit_pool)))).
Proof.
  assert (H : CalculateDemand "f" wit_pool = Ok 1) by (vm_compute; reflexivity).
  split; [exact H|].
  apply (proj1 (proj2 (request_pool_invariant 10 wit_pool wit_pool_reachable)) "f"%string 1 H).
Defined.

Lemma request_outcome_final_witness :
  ∃ r', pl_heap (fire_step 0 (tick 7 wit_pool)) !! 0%nat = Some r' ∧ rec_status r' = Expired.
Proof.
  destruct (fmap_lookup_Some rec_status (pl_heap wit_pool) 0%nat Pending) as (r & Hr & Hs);
    [vm_compute; reflexivity|].
  destruct (request_outcome_final 10 wit_pool 0%nat r wit_pool_reachable Hr) as [_ H].
  destruct (H Hs) as (due & Hd & Hx).
  assert (due = 15) as -> by (vm_compute in Hd; congruence). apply Hx. vm_compute. congruence.
Defined.
