(* ===== verification/Demand.v ===== *)
(** * Proof of work, replicas and cache announcements

    proof-of-request: security/pow.go, security/signature.go,
    replica/tracker.go, demandMetadata/metadata.go and cacheAnnouncement, with
    the manager of integration/availability/demand_bridge.go that combines them
    with the request pool. *)

From S2P Require Import Prelude Sha256 Crypto Content Request.

(** ** security/pow.go *)

Record PoW := { pw_Nonce : Z; (* uint64 *) pw_Difficulty : Z (* uint8 *) }.

(** [strings.Repeat("0", n)] and [strings.HasPrefix]. *)
Definition zeros (n : Z) : list byte := replicate (Z.to_nat n) x30.
Definition HasPrefix (s prefix : list byte) : bool :=
  bool_decide (take (length prefix) s = prefix).

Definition pow_input (req : Request) (nonce : Z) : string :=
  rq_ClientID req +:+ rq_FileID req +:+ format_int (rq_Timestamp req) +:+ format_int nonce.

Definition pow_hash (req : Request) (nonce : Z) : list byte :=
  bytes_of (EncodeToString (sha256 (bytes_of (pow_input req nonce)))).

(** The search loop; [None] when the fuel is spent. *)
Fixpoint pow_loop (fuel : nat) (req : Request) (difficulty nonce : Z) : option PoW :=
  match fuel with
  | O => None
  | S fuel' =>
      if HasPrefix (pow_hash req nonce) (zeros difficulty) then
        Some {| pw_Nonce := nonce; pw_Difficulty := difficulty |}
      else pow_loop fuel' req difficulty (u64 (nonce + 1))
  end.
Definition GeneratePoW (fuel : nat) (req : Request) (difficulty : Z) : option PoW :=
  pow_loop fuel req difficulty 0.

Definition VerifyPoW (req : Request) (proof : PoW) : bool :=
  HasPrefix (pow_hash req (pw_Nonce proof)) (zeros (pw_Difficulty proof)).

(** ** security/signature.go: [json.Marshal] of a request is an interface *)

Class RequestCodec := { marshal : Request → result (list byte) }.
Record SignedRequest := { sr_Request : Request; sr_Signature : list byte }.

Definition SignRequest `{Ed25519, RequestCodec} (req : Request) (privateKey : list byte)
    : result SignedRequest :=
  let! data := marshal req in
  Ok {| sr_Request := req; sr_Signature := ed_sign privateKey data |}.

Definition VerifySignature `{Ed25519, RequestCodec} (s : SignedRequest) (publicKey : list byte) : bool :=
  match marshal (sr_Request s) with
  | Err _ => false
  | Ok data => ed_verify publicKey data (sr_Signature s)
  end.

(** ** replica/tracker.go *)

Inductive ProviderState := Active | Removed.
#[global] Instance ProviderState_eq_dec : EqDecision ProviderState.
Proof. solve_decision. Defined.

Record Replica := {
  rp_ReplicaID : string;
  rp_ProviderID : string;
  rp_FileID : string;
  rp_Version : Z;   (* uint64 *)
  rp_State : ProviderState;
}.

Definition set_rp_State (s : ProviderState) (r : Replica) : Replica :=
  {| rp_ReplicaID := rp_ReplicaID r; rp_ProviderID := rp_ProviderID r; rp_FileID := rp_FileID r;
     rp_Version := rp_Version r; rp_State := s |}.

Abbreviation replica_key r := (rp_ProviderID r, rp_FileID r, rp_Version r).

(** The update loop of [AddOrUpdateReplica]: change the first record with the
    same provider, file and version, or append. *)
Fixpoint upsert (replica : Replica) (l : list Replica) : list Replica :=
  match l with
  | [] => [replica]
  | existing :: l' =>
      if decide (rp_ProviderID existing = rp_ProviderID replica
                 ∧ rp_FileID existing = rp_FileID replica
                 ∧ rp_Version existing = rp_Version replica)
      then set_rp_State (rp_State replica) existing :: l'
      else existing :: upsert replica l'
  end.

Definition AddOrUpdateReplica (replica : Replica) (t : list Replica) : list Replica * result () :=
  if decide (rp_ProviderID replica = ""%string) then (t, Err (New "provider ID cannot be empty"))
  else if decide (rp_FileID replica = ""%string) then (t, Err (New "file ID cannot be empty"))
  else (upsert replica t, Ok tt).

Definition counts (fileID : string) (version : Z) (r : Replica) : Prop :=
  rp_FileID r = fileID ∧ rp_Version r = version ∧ rp_State r = Active.
#[global] Instance counts_dec f v r : Decision (counts f v r).
Proof. unfold counts. apply _. Defined.

Definition GetReplicaCount (fileID : string) (version : Z) (t : list Replica) : result Z :=
  if decide (fileID = ""%string) then Err (New "file ID cannot be empty")
  else Ok (zlen (filter (counts fileID version) t)).

Fixpoint RemoveReplica (providerID fileID : string) (version : Z) (t : list Replica)
    : list Replica * bool :=
  match t with
  | [] => ([], false)
  | replica :: t' =>
      if decide (rp_ProviderID replica = providerID ∧ rp_FileID replica = fileID
                 ∧ rp_Version replica = version ∧ rp_State replica = Active)
      then (set_rp_State Removed replica :: t', true)
      else let '(t'', b) := RemoveReplica providerID fileID version t' in (replica :: t'', b)
  end.

(** ** demandMetadata/metadata.go *)

Record DemandMetadata := {
  dm_FileID : string; dm_Demand : Z; dm_ReplicaCount : Z; dm_Timestamp : Z; dm_Version : Z }.

Definition CreateDemandMetadata (fileID : string) (demand replicaCount timestamp version : Z)
    : result DemandMetadata :=
  if decide (fileID = ""%string) then Err (New "file ID cannot be empty")
  else if decide (demand < 0) then Err (New "demand cannot be negative")
  else if decide (replicaCount < 0) then Err (New "replica count cannot be negative")
  else if decide (timestamp = zero_time) then Err (New "timestamp cannot be zero")
  else Ok {| dm_FileID := fileID; dm_Demand := demand; dm_ReplicaCount := replicaCount;
             dm_Timestamp := timestamp; dm_Version := version |}.

(** ** cacheAnnouncement *)

Record CacheAnnouncement := {
  ca_ProviderID : string;
  ca_FileID : string;
  ca_MerkleRoot : string;
  ca_Version : Z;   (* uint64 *)
  ca_Expiry : Z;
}.
Record SignedCacheAnnouncement := { sa_Announcement : CacheAnnouncement; sa_Signature : list byte }.

Definition CreateCacheAnnouncement (providerID fileID merkleRoot : string) (version expiry : Z)
    : result CacheAnnouncement :=
  if decide (providerID = ""%string) then Err (New "provider ID cannot be empty")
  else if decide (fileID = ""%string) then Err (New "file ID cannot be empty")
  else if decide (merkleRoot = ""%string) then Err (New "Merkle root cannot be empty")
  else if decide (expiry = zero_time) then Err (New "expiry cannot be zero")
  else Ok {| ca_ProviderID := providerID; ca_FileID := fileID; ca_MerkleRoot := merkleRoot;
             ca_Version := version; ca_Expiry := expiry |}.

Definition announcement_bytes (a : CacheAnnouncement) : list byte :=
  lp_string (ca_ProviderID a) ++ lp_string (ca_FileID a) ++ lp_string (ca_MerkleRoot a)
  ++ be64 (u64 (UnixNano (ca_Expiry a))) ++ be64 (ca_Version a).

Definition buildSigningPayload (a : CacheAnnouncement) : result (list byte) :=
  if decide (ca_ProviderID a = ""%string) then Err (New "provider ID cannot be empty")
  else if decide (ca_FileID a = ""%string) then Err (New "file ID cannot be empty")
  else if decide (ca_MerkleRoot a = ""%string) then Err (New "Merkle root cannot be empty")
  else Ok (announcement_bytes a).

Section announcements.
Context {ED : Ed25519}.

Definition SignCacheAnnouncement (a : CacheAnnouncement) (privateKey : list byte)
    : result SignedCacheAnnouncement :=
  let! payload := buildSigningPayload a in
  Ok {| sa_Announcement := a; sa_Signature := ed_sign privateKey payload |}.

Definition VerifyCacheAnnouncement (s : SignedCacheAnnouncement) (publicKey : list byte) : bool :=
  match buildSigningPayload (sa_Announcement s) with
  | Err _ => false
  | Ok payload => ed_verify publicKey payload (sa_Signature s)
  end.

(** ** demand_bridge.go *)

Definition CreateSignedCacheAnnouncement (providerID : string) (privKey : list byte)
    (m : option Manifest) (ttl now : Z) : result SignedCacheAnnouncement :=
  match m with
  | None => Err (New "manifest cannot be nil")
  | Some m =>
      let fileID := EncodeToString (cd_ID (mf_Descriptor m)) in
      let merkleRoot := EncodeToString (mf_MerkleRoot m) in
      let! ann := wrap "create cache announcement"
                    (CreateCacheAnnouncement providerID fileID merkleRoot (mf_Version m) (now + ttl)) in
      wrap "sign cache announcement" (SignCacheAnnouncement ann privKey)
  end.

(** The manager's state is its replica tracker. *)
Definition IngestAnnouncement (signed : SignedCacheAnnouncement) (pubKey : list byte) (now : Z)
    (t : list Replica) : list Replica * result () :=
  if negb (VerifyCacheAnnouncement signed pubKey) then
    (t, Err (New "invalid cache announcement signature"))
  else
    let ann := sa_Announcement signed in
    if decide (now > ca_Expiry ann) then (t, Err (New "cache announcement has expired"))
    else AddOrUpdateReplica
           {| rp_ReplicaID := ""; rp_ProviderID := ca_ProviderID ann; rp_FileID := ca_FileID ann;
              rp_Version := ca_Version ann; rp_State := Active |} t.

End announcements.

Definition ValidateAndTrackRequest (req : Request) (pow : PoW) (lifetime : Z) (pool : Pool)
    : Pool * result Request :=
  if negb (VerifyPoW req pow) then (pool, Err (New "proof of work verification failed"))
  else
    match GetOrCreateRequest (rq_FileID req) (rq_ClientID req) lifetime pool with
    | (pool', Err e) => (pool', Err (Wrap "track request" e))
    | (pool', Ok (trackedReq, _)) => (pool', Ok trackedReq)
    end.

(** ** Proof of work *)

Lemma length_pow_hash req n : length (pow_hash req n) = 64%nat.
Proof.
  unfold pow_hash, EncodeToString. rewrite bytes_of_string_of, length_hex_encode_bytes.
  by rewrite length_sha256.
Qed.

Lemma HasPrefix_long s p : (length s < length p)%nat → HasPrefix s p = false.
Proof.
  intros H. apply bool_decide_eq_false. intros E. apply (f_equal length) in E.
  rewrite length_take in E. lia.
Qed.

Lemma pow_loop_sound fuel req d n p :
  is_u64 n → pow_loop fuel req d n = Some p →
  VerifyPoW req p = true ∧ pw_Difficulty p = d ∧ is_u64 (pw_Nonce p) ∧
  (Z.of_nat fuel + n <= 2 ^ 64 → ∀ m, n <= m < pw_Nonce p →
     VerifyPoW req {| pw_Nonce := m; pw_Difficulty := d |} = false).
Proof.
  revert n. induction fuel as [|fuel IH]; intros n Hn; [done|]. cbn [pow_loop].
  destruct (HasPrefix _ _) eqn:Hp.
  - intros [= <-]. split_and!; try done. intros _ m. simpl. lia.
  - intros Hl. destruct (IH _ (u64_range _) Hl) as (H1 & H2 & H3 & H4). split_and!; try done.
    intros Hb m Hm. destruct (decide (m = n)) as [->|]; [exact Hp|].
    destruct (decide (n + 1 < 2 ^ 64)) as [Hlt|Hge].
    + rewrite u64_id in H4 by (unfold is_u64 in *; lia). apply H4; lia.
    + unfold is_u64 in H3. lia.
Qed.

Lemma pow_loop_complete fuel req d n m :
  0 <= n <= m → m < 2 ^ 64 → VerifyPoW req {| pw_Nonce := m; pw_Difficulty := d |} = true →
  m - n < Z.of_nat fuel → is_Some (pow_loop fuel req d n).
Proof.
  revert n. induction fuel as [|fuel IH]; intros n Hn Hm Hv Hf; [lia|]. cbn [pow_loop].
  destruct (HasPrefix (pow_hash req n) (zeros d)) eqn:Hp; [eauto|].
  destruct (decide (n = m)) as [->|Hne]; [unfold VerifyPoW in Hv; simpl in Hv; congruence|].
  rewrite u64_id by (unfold is_u64; lia). apply IH; [lia|done|done|lia].
Qed.

(** More fuel changes nothing once the search has ended. *)
Lemma pow_loop_mono fuel fuel' req d n p :
  (fuel <= fuel')%nat → pow_loop fuel req d n = Some p → pow_loop fuel' req d n = Some p.
Proof.
  revert fuel' n. induction fuel as [|fuel IH]; intros [|fuel'] n Hle; try done; [lia|]. cbn [pow_loop].
  destruct (HasPrefix _ _); [done|]. apply IH. lia.
Qed.
Lemma GeneratePoW_mono fuel fuel' req d p :
  (fuel <= fuel')%nat → GeneratePoW fuel req d = Some p → GeneratePoW fuel' req d = Some p.
Proof. apply pow_loop_mono. Qed.

(** If no 64-bit nonce verifies, the search never ends: the counter wraps. *)
Lemma GeneratePoW_never fuel req d :
  (∀ n, is_u64 n → VerifyPoW req {| pw_Nonce := n; pw_Difficulty := d |} = false) →
  GeneratePoW fuel req d = None.
Proof.
  intros Hno. destruct (GeneratePoW fuel req d) as [p|] eqn:E; [|done].
  apply pow_loop_sound in E as (Hv & Hd & Hn & _); [|unfold is_u64; lia].
  specialize (Hno _ Hn). rewrite <- Hd in Hno. destruct p. simpl in *. congruence.
Qed.

Lemma bounded_search (P : Z → bool) (N : nat) :
  (∃ n, 0 <= n < Z.of_nat N ∧ P n = true) ∨ (∀ n, 0 <= n < Z.of_nat N → P n = false).
Proof.
  induction N as [|N [(n & Hn & Hp)|IH]]; [right; lia|left; exists n; split; [lia|done]|].
  destruct (P (Z.of_nat N)) eqn:E; [left; exists (Z.of_nat N); split; [lia|done]|right].
  intros n Hn. destruct (decide (n = Z.of_nat N)) as [->|]; [done|apply IH; lia].
Qed.

(** Of several puzzles of difficulty one, either one has no solution, or some
    fuel solves them all. *)
Lemma puzzles_dec {A} (puzzle : A → Request) (l : list A) :
  (∃ c, c ∈ l ∧ ∀ n, is_u64 n → VerifyPoW (puzzle c) {| pw_Nonce := n; pw_Difficulty := 1 |} = false) ∨
  (∃ bound, ∀ fuel, (bound <= fuel)%nat → ∀ c, c ∈ l → is_Some (GeneratePoW fuel (puzzle c) 1)).
Proof.
  induction l as [|c l IH]; [right; exists O; by intros ? _ ? ?%elem_of_nil|].
  destruct (bounded_search (λ n, VerifyPoW (puzzle c) {| pw_Nonce := n; pw_Difficulty := 1 |}) (Z.to_nat (2 ^ 64)))
    as [(n & Hn & Hv)|Hno]; rewrite ?Z2Nat.id in * by lia.
  - destruct IH as [(c' & Hc' & Hno)|[bound Hall]]; [left; exists c'; split; [by right|done]|right].
    exists (max bound (S (Z.to_nat n))). intros fuel Hle c' [->|Hc']%elem_of_cons; [|apply Hall; [lia|done]].
    apply (pow_loop_complete _ _ _ 0 n); [lia|lia|done|lia].
  - left. exists c. split; [by left|]. intros n Hn. apply Hno. exact Hn.
Qed.

(** [GeneratePoW] finds the least nonce: what it returns verifies, has the
    requested difficulty and no smaller nonce works; it returns after [n+1]
    rounds whenever nonce [n] works; and for a difficulty above 64, which
    [uint8] allows, it never returns because a SHA-256 digest has only 64 hex
    digits. *)
Theorem GeneratePoW_least req d :
  (∀ fuel p, GeneratePoW fuel req d = Some p → Z.of_nat fuel <= 2 ^ 64 →
     VerifyPoW req p = true ∧ pw_Difficulty p = d ∧
     ∀ m, 0 <= m < pw_Nonce p → VerifyPoW req {| pw_Nonce := m; pw_Difficulty := d |} = false) ∧
  (∀ n, 0 <= n < 2 ^ 64 → VerifyPoW req {| pw_Nonce := n; pw_Difficulty := d |} = true →
     is_Some (GeneratePoW (S (Z.to_nat n)) req d)) ∧
  (64 < d → ∀ fuel, GeneratePoW fuel req d = None).
Proof.
  split_and!.
  - intros fuel p H Hf. destruct (pow_loop_sound fuel req d 0 p) as (H1 & H2 & _ & H4);
      [unfold is_u64; lia|done|]. split_and!; try done. apply H4. lia.
  - intros n Hn Hv. apply (pow_loop_complete _ req d 0 n); [lia|lia|done|lia].
  - intros Hd fuel. unfold GeneratePoW. generalize 0 at 1. induction fuel as [|fuel IH]; intros n; [done|].
    cbn [pow_loop]. rewrite HasPrefix_long; [apply IH|].
    rewrite length_pow_hash. unfold zeros. rewrite length_replicate. lia.
Qed.

(** The work is chosen by the prover: [ValidateAndTrackRequest] accepts every
    request that declares difficulty zero, whatever its nonce, so no work is
    needed to enter the pool; and one proof serves every way of splitting the
    same text into client and file names. *)
Theorem pow_not_enforced req n life pool c f c' f' ts p :
  0 < life →
  VerifyPoW req {| pw_Nonce := n; pw_Difficulty := 0 |} = true ∧
  ValidateAndTrackRequest req {| pw_Nonce := n; pw_Difficulty := 0 |} life pool =
    (let '(pool', r) := GetOrCreateRequest (rq_FileID req) (rq_ClientID req) life pool in
     (pool', match r with Ok (t, _) => Ok t | Err e => Err (Wrap "track request" e) end)) ∧
  (c +:+ f = c' +:+ f' →
   VerifyPoW {| rq_FileID := f; rq_ClientID := c; rq_Timestamp := ts; rq_Status := Pending |} p =
   VerifyPoW {| rq_FileID := f'; rq_ClientID := c'; rq_Timestamp := ts; rq_Status := Pending |} p).
Proof.
  intros Hl. split_and!; [done| |].
  - unfold ValidateAndTrackRequest. change (VerifyPoW req _) with true. simpl.
    destruct (GetOrCreateRequest _ _ _ _) as [pool' [[t b]|e]]; done.
  - intros H. unfold VerifyPoW, pow_hash, pow_input. simpl. do 5 f_equal.
    apply bytes_of_inj. rewrite !bytes_of_app, !app_assoc.
    apply (f_equal bytes_of) in H. rewrite !bytes_of_app in H. by rewrite H.
Qed.

Lemma pow_not_enforced_witness :
  let r c f := {| rq_FileID := f; rq_ClientID := c; rq_Timestamp := 9; rq_Status := Pending |} in
  VerifyPoW (r "ab" "c")%string {| pw_Nonce := 4; pw_Difficulty := 1 |} =
  VerifyPoW (r "a" "bc")%string {| pw_Nonce := 4; pw_Difficulty := 1 |}.
Proof.
  intros r. apply (pow_not_enforced (r "a" "b")%string 0 5 (empty_pool 0) "ab" "c" "a" "bc" 9
    {| pw_Nonce := 4; pw_Difficulty := 1 |} ltac:(lia)). reflexivity.
Defined.

(** ** Replica tracker *)

(** Provider, file and version [k] is recorded in state [s]. *)
Definition has_state (t : list Replica) (k : string * string * Z) (s : ProviderState) : Prop :=
  ∃ r, r ∈ t ∧ replica_key r = k ∧ rp_State r = s.

Abbreviation keys t := ((λ r, replica_key r) <$> t).

Lemma upsert_keys r t k : k ∈ keys (upsert r t) ↔ k ∈ keys t ∨ k = replica_key r.
Proof.
  induction t as [|x t IH]; [set_solver|]. cbn [upsert]. case_decide as Hd.
  - simpl. rewrite !elem_of_cons. destruct Hd as (H1 & H2 & H3). rewrite <- H1, <- H2, <- H3. tauto.
  - simpl. rewrite !elem_of_cons, IH. tauto.
Qed.

Lemma upsert_NoDup r t : NoDup (keys t) → NoDup (keys (upsert r t)).
Proof.
  induction t as [|x t IH]; intros Hn; [apply NoDup_singleton|]. cbn [upsert].
  simpl in Hn. apply NoDup_cons in Hn as [Hx Hn]. case_decide as Hd; simpl; constructor; auto.
  rewrite upsert_keys. intros [?|E]; [done|]. apply Hd. by injection E as -> -> ->.
Qed.

Lemma has_state_cons x t k s :
  has_state (x :: t) k s ↔ (replica_key x = k ∧ rp_State x = s) ∨ has_state t k s.
Proof.
  unfold has_state. split.
  - intros (r & [->|Hr]%elem_of_cons & H); [by left|right; eauto].
  - intros [H|(r & Hr & H)]; [exists x; split; [left|done]|exists r; split; [by right|done]].
Qed.

Lemma has_state_key t k s : has_state t k s → k ∈ keys t.
Proof. intros (r & Hr & <- & _). apply list_elem_of_fmap. eauto. Qed.

Lemma upsert_has_state r t k s :
  NoDup (keys t) →
  has_state (upsert r t) k s ↔ if decide (k = replica_key r) then s = rp_State r else has_state t k s.
Proof.
  induction t as [|x t IH]; intros Hn.
  - cbn [upsert]. rewrite has_state_cons. case_decide as Hk.
    + split; [intros [[_ <-]|(y & Hy & _)]; [done|set_solver]|intros ->; by left].
    + split; [intros [[E _]|H]; [by symmetry in E|done]|by right].
  - simpl in Hn. apply NoDup_cons in Hn as [Hx Hn]. cbn [upsert].
    destruct (decide (rp_ProviderID x = rp_ProviderID r ∧ rp_FileID x = rp_FileID r
                      ∧ rp_Version x = rp_Version r)) as [Hd|Hd].
    + destruct Hd as (H1 & H2 & H3).
      assert (Hkx : replica_key x = replica_key r) by congruence.
      rewrite !has_state_cons. simpl. case_decide as Hk.
      * split; [intros [[_ <-]|Ht%has_state_key]; [done|]|intros ->; left; by rewrite Hkx, Hk].
        exfalso. apply Hx. rewrite Hkx, <- Hk. done.
      * rewrite has_state_cons, Hkx.
        split; (intros [[E _]|?]; [by symmetry in E|by right]).
    + rewrite !has_state_cons, IH by done. case_decide as Hk; [|by rewrite has_state_cons].
      split; [|by right]. intros [[E _]|?]; [|done]. exfalso. apply Hd. rewrite Hk in E.
      by injection E as -> -> ->.
Qed.

Lemma RemoveReplica_spec p f v t :
  NoDup (keys t) →
  let '(t', b) := RemoveReplica p f v t in
  keys t' = keys t ∧ (b = true ↔ has_state t (p, f, v) Active) ∧
  ∀ k s, has_state t' k s ↔
    if decide (k = (p, f, v) ∧ b = true) then s = Removed else has_state t k s.
Proof.
  induction t as [|x t IH]; intros Hn.
  - simpl. split_and!; [done| |intros; rewrite decide_False by (intros [_ ?]; done); done].
    split; [done|]. intros H%has_state_key. by apply not_elem_of_nil in H.
  - simpl in Hn. apply NoDup_cons in Hn as [Hx Hn]. cbn [RemoveReplica]. case_decide as Hd.
    + destruct Hd as (H1 & H2 & H3 & H4). assert (Hkx : replica_key x = (p, f, v)) by congruence.
      split_and!; [done| |].
      * split; [|done]. intros _. apply has_state_cons. by left.
      * intros k s. rewrite !has_state_cons. simpl. case_decide as Hk.
        -- destruct Hk as [-> _]. split; [|intros ->; by left].
           intros [[_ <-]|Ht%has_state_key]; [done|]. rewrite <- Hkx in Ht. done.
        -- rewrite has_state_cons, Hkx. assert (k ≠ (p, f, v)) by tauto.
           split; (intros [[E _]|?]; [by symmetry in E|by right]).
    + specialize (IH Hn). destruct (RemoveReplica p f v t) as [t' b].
      destruct IH as (Hk1 & Hb & Hs). split_and!; [exact (f_equal (cons (replica_key x)) Hk1)| |].
      * rewrite Hb, has_state_cons. split; [by right|]. intros [[E1 E2]|?]; [|done].
        exfalso. apply Hd. injection E1 as -> -> ->. done.
      * intros k s. rewrite !has_state_cons, Hs. destruct (decide (k = (p, f, v) ∧ b = true)) as [Hk|Hk];
          [|by rewrite has_state_cons].
        split; [|by right]. intros [[E1 E2]|?]; [|done]. destruct Hk as [-> Hbt].
        apply Hb, has_state_key in Hbt. rewrite <- E1 in Hbt. done.
Qed.

Inductive replica_step : list Replica → list Replica → Prop :=
| rp_add r t : replica_step t (AddOrUpdateReplica r t).1
| rp_remove p f v t : replica_step t (RemoveReplica p f v t).1.

Lemma replica_step_NoDup t t' : replica_step t t' → NoDup (keys t) → NoDup (keys t').
Proof.
  intros [r u|p f v u] Hn.
  - unfold AddOrUpdateReplica. do 2 (case_decide; [done|]). by apply upsert_NoDup.
  - pose proof (RemoveReplica_spec p f v u Hn) as H. destruct (RemoveReplica p f v u) as [u' b].
    destruct H as (E & _). change (NoDup (keys u')). by rewrite E.
Qed.

Lemma replica_reachable t : rtc replica_step [] t → NoDup (keys t).
Proof. apply (rtc_invariant replica_step (λ t, NoDup (keys t))); [apply replica_step_NoDup|constructor]. Qed.

(** The providers that hold a file version. *)
Definition holders (f : string) (v : Z) (t : list Replica) : gset string :=
  list_to_set (rp_ProviderID <$> filter (counts f v) t).

Lemma elem_of_holders f v t x : x ∈ holders f v t ↔ has_state t (x, f, v) Active.
Proof.
  unfold holders, has_state. rewrite elem_of_list_to_set, list_elem_of_fmap. split.
  - intros (r & -> & [(H1 & H2 & H3) Hr]%list_elem_of_filter). exists r. split_and!; [done|congruence|done].
  - intros (r & Hr & E & Hs). injection E as <- <- <-. exists r. split; [done|].
    by apply list_elem_of_filter.
Qed.

Lemma holders_NoDup f v t :
  NoDup (keys t) → NoDup (rp_ProviderID <$> filter (counts f v) t).
Proof.
  induction t as [|x t IH]; intros Hn; [constructor|]. simpl in Hn.
  apply NoDup_cons in Hn as [Hx Hn]. rewrite filter_cons. case_decide as Hc; [|by apply IH].
  simpl. constructor; [|by apply IH]. intros (y & Hy & Hin)%list_elem_of_fmap.
  apply list_elem_of_filter in Hin as [Hcy Hin]. apply Hx, list_elem_of_fmap. exists y.
  destruct Hc as (? & ? & _), Hcy as (? & ? & _). split; [congruence|done].
Qed.

(** The replica count of a file version is the number of distinct providers
    holding it: announcing adds exactly that provider (or drops it, for a
    [Removed] record), removing drops exactly that provider and reports
    whether it held the version, and other files and versions are untouched. *)
Theorem replica_tracker_counts t :
  rtc replica_step [] t →
  (∀ f v n, GetReplicaCount f v t = Ok n → n = Z.of_nat (size (holders f v t))) ∧
  (∀ r, is_ok (AddOrUpdateReplica r t).2 = true →
     ∀ f v x, x ∈ holders f v (AddOrUpdateReplica r t).1 ↔
       if decide ((x, f, v) = replica_key r) then rp_State r = Active else x ∈ holders f v t) ∧
  (∀ p f v, let '(t', b) := RemoveReplica p f v t in
     (b = true ↔ p ∈ holders f v t) ∧
     ∀ f' v' x, x ∈ holders f' v' t' ↔ x ∈ holders f' v' t ∧ (x, f', v') ≠ (p, f, v)).
Proof.
  intros Hn%replica_reachable. split_and!.
  - intros f v n. unfold GetReplicaCount. case_decide; [done|]. intros [= <-].
    unfold holders. rewrite size_list_to_set by (by apply holders_NoDup).
    unfold zlen. by rewrite length_fmap.
  - intros r Hok f v x. unfold AddOrUpdateReplica in *. do 2 (case_decide; [done|]). simpl.
    rewrite !elem_of_holders, upsert_has_state by done.
    destruct (decide ((x, f, v) = replica_key r)); [split; congruence|by rewrite elem_of_holders].
  - intros p f v. pose proof (RemoveReplica_spec p f v t Hn) as H.
    destruct (RemoveReplica p f v t) as [t' b]. destruct H as (_ & Hb & Hs).
    rewrite elem_of_holders. split; [done|]. intros f' v' x. rewrite !elem_of_holders, Hs.
    destruct (decide ((x, f', v') = (p, f, v) ∧ b = true)) as [[-> _]|Hd].
    + split; [done|]. by intros [_ ?].
    + split; [|tauto]. intros Hx. split; [done|]. intros E. apply Hd. split; [done|].
      apply Hb. by rewrite <- E.
Qed.

Definition wit_replica : Replica :=
  {| rp_ReplicaID := ""; rp_ProviderID := "p"; rp_FileID := "f"; rp_Version := 1; rp_State := Active |}.
Lemma replica_tracker_counts_witness :
  let t := (AddOrUpdateReplica wit_replica []).1 in
  GetReplicaCount "f" 1 t = Ok 1 ∧ 1 = Z.of_nat (size (holders "f" 1 t)).
Proof.
  intros t. assert (H : GetReplicaCount "f" 1 t = Ok 1) by (vm_compute; reflexivity).
  split; [exact H|].
  apply (proj1 (replica_tracker_counts t (rtc_once _ _ (rp_add wit_replica []))) _ _ _ H).
Defined.

(** ** Announcements *)

Record announcement_typed (a : CacheAnnouncement) : Prop := {
  at_provider : is_u64 (slen (ca_ProviderID a));
  at_file : is_u64 (slen (ca_FileID a));
  at_root : is_u64 (slen (ca_MerkleRoot a));
  at_version : is_u64 (ca_Version a);
  at_expiry : is_i64 (ca_Expiry a);
}.

Lemma announcement_bytes_inj a b :
  announcement_typed a → announcement_typed b → announcement_bytes a = announcement_bytes b → a = b.
Proof.
  intros [] [] H. unfold announcement_bytes in H.
  apply lp_string_app_inj in H as [H1 H]; [|done..].
  apply lp_string_app_inj in H as [H2 H]; [|done..].
  apply lp_string_app_inj in H as [H3 H]; [|done..].
  apply be64_app_inj in H as [H4 H]; [|apply u64_range..].
  apply be64_inj in H; [|done..]. unfold UnixNano in H4. rewrite !i64_id in H4 by done.
  apply u64_i64_inj in H4; [|done..]. destruct a, b; simpl in *; congruence.
Qed.

(** A provider's announcement of a manifest verifies under its key and, until
    it expires, adds the provider to the holders of that file version; the
    bytes it signs determine every field of the announcement; and nothing is
    recorded for an announcement that does not verify or has expired. *)
Theorem announcement_ingested {ED : Ed25519} p key m ttl now now' signed t pk :
  ed_valid key → CreateSignedCacheAnnouncement p key (Some m) ttl now = Ok signed →
  (∀ b, announcement_typed (sa_Announcement signed) → announcement_typed b →
     buildSigningPayload b = buildSigningPayload (sa_Announcement signed) →
     b = sa_Announcement signed) ∧
  (now' <= now + ttl → NoDup (keys t) →
   ∃ t', IngestAnnouncement signed (ed_public key) now' t = (t', Ok tt) ∧
         p ∈ holders (EncodeToString (cd_ID (mf_Descriptor m))) (mf_Version m) t') ∧
  (VerifyCacheAnnouncement signed pk = false ∨ now + ttl < now' →
   ∃ e, IngestAnnouncement signed pk now' t = (t, Err e)).
Proof.
  intros Hk Hs. unfold CreateSignedCacheAnnouncement, CreateCacheAnnouncement in Hs.
  destruct (decide (p = ""%string)) as [|Hp]; [done|].
  destruct (decide (EncodeToString (cd_ID (mf_Descriptor m)) = ""%string)) as [|Hf]; [done|].
  destruct (decide (EncodeToString (mf_MerkleRoot m) = ""%string)) as [|Hr]; [done|].
  destruct (decide (now + ttl = zero_time)) as [|Ht]; [done|]. simpl in Hs.
  unfold SignCacheAnnouncement, buildSigningPayload in Hs. simpl in Hs.
  rewrite !(decide_False (P := _ = ""%string)) in Hs by done. simpl in Hs. injection Hs as <-.
  split_and!.
  - simpl. intros b Ha Hb. unfold buildSigningPayload. simpl.
    rewrite (decide_False (P := p = _)), (decide_False (P := EncodeToString (cd_ID _) = _)),
      (decide_False (P := EncodeToString (mf_MerkleRoot _) = _)) by done.
    do 3 (case_decide; [done|]). intros E. apply announcement_bytes_inj; [done..|congruence].
  - intros Hn Hnd. unfold IngestAnnouncement, VerifyCacheAnnouncement, buildSigningPayload. simpl.
    rewrite (decide_False (P := p = _)), (decide_False (P := EncodeToString (cd_ID _) = _)),
      (decide_False (P := EncodeToString (mf_MerkleRoot _) = _)) by done. simpl.
    rewrite ed_verify_public by done. simpl. rewrite decide_False by lia.
    unfold AddOrUpdateReplica. simpl. rewrite !decide_False by done.
    eexists. split; [reflexivity|]. apply elem_of_holders, upsert_has_state; [done|].
    by rewrite decide_True.
  - intros [Hv|He]; unfold IngestAnnouncement.
    + rewrite Hv. simpl. eauto.
    + destruct (VerifyCacheAnnouncement _ _); simpl; [|eauto]. rewrite decide_True by lia. eauto.
Qed.

Definition wit_ann_manifest : Manifest :=
  {| mf_Version := 1; mf_Descriptor := {| cd_ID := replicate 32 x01; cd_Type := "file"; cd_Size := 3 |};
     mf_ChunkIDs := []; mf_MerkleRoot := replicate 32 x02; mf_WholeHash := [];
     mf_Crypto := {| cy_Algorithm := ""; cy_Version := 1; cy_ChunkNonceSize := 12; cy_KeyID := "" |} |}.

Lemma announcement_ingested_witness :
  ∃ signed t', CreateSignedCacheAnnouncement "p" (toy_key 5) (Some wit_ann_manifest) 10 100 = Ok signed ∧
    IngestAnnouncement signed (ed_public (toy_key 5)) 105 [] = (t', Ok tt).
Proof.
  destruct (CreateSignedCacheAnnouncement "p" (toy_key 5) (Some wit_ann_manifest) 10 100)
    as [signed|e] eqn:E;
    [|exfalso; apply (f_equal is_ok) in E; vm_compute in E; discriminate E].
  destruct (announcement_ingested (ED := ToyEd25519) "p" (toy_key 5) wit_ann_manifest 10 100 105 signed [] [] eq_refl E)
    as (_ & H & _).
  destruct (H ltac:(lia) ltac:(constructor)) as (t' & Ht & _). exists signed, t'. auto.
Defined.

(** A request signed with a key verifies under its public half. *)
Lemma Verify_SignRequest `{Ed25519, RequestCodec} req key s :
  ed_valid key → SignRequest req key = Ok s → VerifySignature s (ed_public key) = true.
Proof.
  unfold SignRequest, VerifySignature. intros Hk (data & Hd & [= <-])%rbind_ok. simpl.
  rewrite Hd. by apply ed_verify_public.
Qed.
