(* ===== verification/Tickets.v ===== *)
(** * Payment tickets

    network/payments/signer.go: the EIP-712 round tickets a consumer signs for
    the chunks it receives.  go-ethereum (Keccak-256, secp256k1 recovery and
    the padding helpers) is the interface [GoEthereum]; [ToyEthereum] is a
    concrete instance for evaluation. *)

From S2P Require Import Prelude Sha256.

(** ** The interface of go-ethereum *)

Class GoEthereum := {
  Keccak256Hash : list byte → list byte;
  (** [math.PaddedBigBytes(x, n)] *)
  PaddedBigBytes : Z → nat → list byte;
  (** [common.LeftPadBytes(b, n)] *)
  LeftPadBytes : list byte → nat → list byte;
  (** [crypto.Sign(digest, key)]: [R || S || V] with [V] in [{0, 1}] *)
  ec_Sign : list byte → list byte → result (list byte);
  (** [crypto.SigToPub(digest, sig)] followed by [crypto.PubkeyToAddress] *)
  ec_Recover : list byte → list byte → result (list byte);
  (** [crypto.PubkeyToAddress(key.PublicKey)] *)
  PubkeyToAddress : list byte → list byte;
  ec_valid : list byte → Prop;
  length_Keccak256Hash : ∀ b, length (Keccak256Hash b) = 32%nat;
  PaddedBigBytes_small : ∀ z n, 0 <= z < 256 ^ Z.of_nat n → PaddedBigBytes z n = be_bytes n z;
  LeftPadBytes_short : ∀ b n, (length b <= n)%nat →
    LeftPadBytes b n = replicate (n - length b) x00 ++ b;
  ec_Sign_valid : ∀ d k, ec_valid k → length d = 32%nat →
    ∃ rs v, ec_Sign d k = Ok (rs ++ [v]) ∧ length rs = 64%nat ∧ (v = x00 ∨ v = x01) ∧
            ec_Recover d (rs ++ [v]) = Ok (PubkeyToAddress k);
}.

(** A [*big.Int] field is [None] when the pointer is nil. *)
Record RoundTicket := {
  rt_Sender : list byte;      (* common.Address: [20]byte *)
  rt_Recipient : list byte;
  rt_RoundID : option Z;
  rt_LocalIndex : option Z;
  rt_FaceValue : option Z;
  rt_WinProb : option Z;
  rt_SenderNonce : option Z;
}.

Record SignedTicket := { st_Ticket : RoundTicket; st_Signature : list byte }.

#[global] Instance RoundTicket_eq_dec : EqDecision RoundTicket.
Proof. solve_decision. Defined.
#[global] Instance SignedTicket_eq_dec : EqDecision SignedTicket.
Proof. solve_decision. Defined.

Section tickets.
Context {GE : GoEthereum}.

Definition EIP712DomainTypeHash : list byte := Keccak256Hash (bytes_of
  "EIP712Domain(string name,string version,uint256 chainId,address verifyingContract)").
Definition RoundTicketTypeHash : list byte := Keccak256Hash (bytes_of
  "RoundTicket(address sender,address recipient,uint256 roundId,uint256 localIndex,uint256 faceValue,uint256 winProb,uint256 senderNonce)").
Definition ProtocolNameHash : list byte := Keccak256Hash (bytes_of "CIPHER Payment Protocol").
Definition ProtocolVersionHash : list byte := Keccak256Hash (bytes_of "1.0.0").

Definition domain_encoding (chainID : Z) (verifyingContract : list byte) : list byte :=
  EIP712DomainTypeHash ++ ProtocolNameHash ++ ProtocolVersionHash ++
  PaddedBigBytes chainID 32 ++ LeftPadBytes verifyingContract 32.

Definition ComputeDomainSeparator (chainID : Z) (verifyingContract : list byte) : list byte :=
  Keccak256Hash (domain_encoding chainID verifyingContract).

(** [None] is the nil dereference of a missing number. *)
Definition ticket_encoding (t : RoundTicket) : option (list byte) :=
  round ← rt_RoundID t; index ← rt_LocalIndex t; face ← rt_FaceValue t;
  prob ← rt_WinProb t; nonce ← rt_SenderNonce t;
  Some (RoundTicketTypeHash ++ LeftPadBytes (rt_Sender t) 32 ++ LeftPadBytes (rt_Recipient t) 32 ++
    PaddedBigBytes round 32 ++ PaddedBigBytes index 32 ++ PaddedBigBytes face 32 ++
    PaddedBigBytes prob 32 ++ PaddedBigBytes nonce 32).

Definition HashRoundTicket (t : RoundTicket) : option (list byte) :=
  Keccak256Hash <$> ticket_encoding t.

Definition typed_data (domainSeparator structHash : list byte) : list byte :=
  [x19; x01] ++ domainSeparator ++ structHash.

Definition HashTypedData (domainSeparator structHash : list byte) : list byte :=
  Keccak256Hash (typed_data domainSeparator structHash).

Record TicketSigner := {
  ts_ChainID : Z;
  ts_VerifyingContract : list byte;
  ts_DomainSeparator : list byte;
  ts_PrivateKey : option (list byte);
  ts_Address : list byte;
}.

Definition NewTicketSigner (privKey : option (list byte)) (chainID : Z)
    (verifyingContract : list byte) : TicketSigner :=
  {| ts_ChainID := chainID; ts_VerifyingContract := verifyingContract;
     ts_DomainSeparator := ComputeDomainSeparator chainID verifyingContract;
     ts_PrivateKey := privKey;
     ts_Address := match privKey with Some k => PubkeyToAddress k | None => replicate 20 x00 end |}.

Definition Digest (s : TicketSigner) (t : RoundTicket) : option (list byte) :=
  structHash ← HashRoundTicket t; Some (HashTypedData (ts_DomainSeparator s) structHash).

(** [sig[64] = f(sig[64])] *)
Definition map_v (f : Z → Z) (sig : list byte) : list byte :=
  match sig !! 64%nat with
  | Some v => <[64%nat := byte_of_Z (f (byte_to_Z v))]> sig
  | None => sig
  end.
Definition v_up (v : Z) : Z := if decide (v < 27) then v + 27 else v.
Definition v_down (v : Z) : Z := if decide (v >= 27) then v - 27 else v.

Definition SignTicket (s : TicketSigner) (t : RoundTicket) : option (result (list byte)) :=
  match ts_PrivateKey s with
  | None => Some (Err (New "cannot sign ticket: private key is nil"))
  | Some key =>
      digest ← Digest s t;
      Some match ec_Sign digest key with
           | Err e => Err (Wrap "failed to sign ticket digest" e)
           | Ok sig => Ok (map_v v_up sig)
           end
  end.

Definition RecoverSigner (s : TicketSigner) (t : RoundTicket) (sig : list byte)
    : option (result (list byte)) :=
  if decide (zlen sig ≠ 65) then Some (Err (New "invalid signature length"))
  else
    digest ← Digest s t;
    Some match ec_Recover digest (map_v v_down sig) with
         | Err e => Err (Wrap "failed to recover public key" e)
         | Ok addr => Ok addr
         end.

Definition Verify (s : TicketSigner) (t : RoundTicket) (sig expectedSigner : list byte)
    : option bool :=
  r ← RecoverSigner s t sig;
  Some match r with Err _ => false | Ok recovered => bool_decide (recovered = expectedSigner) end.

(** ** Well-formed tickets: 20-byte addresses and [uint256] numbers *)

Definition is_u256 (z : Z) : Prop := 0 <= z < 2 ^ 256.
Definition some_u256 (o : option Z) : Prop := ∃ z, o = Some z ∧ is_u256 z.

Record ticket_typed (t : RoundTicket) : Prop := {
  tt_sender : length (rt_Sender t) = 20%nat;
  tt_recipient : length (rt_Recipient t) = 20%nat;
  tt_numbers : Forall some_u256
    [rt_RoundID t; rt_LocalIndex t; rt_FaceValue t; rt_WinProb t; rt_SenderNonce t];
}.

Lemma pad_app_inj z z' x y :
  is_u256 z → is_u256 z' → PaddedBigBytes z 32 ++ x = PaddedBigBytes z' 32 ++ y → z = z' ∧ x = y.
Proof.
  intros Hz Hz' H. rewrite !PaddedBigBytes_small in H by done.
  apply app_inj_1 in H; [|by rewrite !length_be_bytes]. destruct H as [H ->].
  split; [|done]. by apply be_bytes_inj in H.
Qed.

Lemma leftpad_app_inj a b x y :
  length a = 20%nat → length b = 20%nat →
  LeftPadBytes a 32 ++ x = LeftPadBytes b 32 ++ y → a = b ∧ x = y.
Proof.
  intros Ha Hb H. rewrite !LeftPadBytes_short, Ha, Hb, <- !app_assoc in H by lia.
  apply app_inv_head in H. apply app_inj_1 in H; [done|congruence].
Qed.

Lemma ticket_encoding_typed t : ticket_typed t → ∃ e, ticket_encoding t = Some e.
Proof.
  intros [_ _ H]. apply Forall_cons in H as [(a & Ha & _) H].
  apply Forall_cons in H as [(b & Hb & _) H]. apply Forall_cons in H as [(c & Hc & _) H].
  apply Forall_cons in H as [(d & Hd & _) H]. apply Forall_cons in H as [(e & He & _) _].
  unfold ticket_encoding. rewrite Ha, Hb, Hc, Hd, He. simpl. eauto.
Qed.

Lemma ticket_encoding_inj t t' e :
  ticket_typed t → ticket_typed t' → ticket_encoding t = Some e → ticket_encoding t' = Some e → t = t'.
Proof.
  intros [Hs Hr Hn] [Hs' Hr' Hn'] He He'. destruct t, t'. unfold ticket_encoding in *. simpl in *.
  rewrite !Forall_cons in Hn, Hn'.
  destruct Hn as ((? & -> & ?) & (? & -> & ?) & (? & -> & ?) & (? & -> & ?) & (? & -> & ?) & _).
  destruct Hn' as ((? & -> & ?) & (? & -> & ?) & (? & -> & ?) & (? & -> & ?) & (? & -> & ?) & _).
  simpl in He, He'. apply (inj Some) in He as <-. apply (inj Some) in He'.
  apply app_inv_head in He'.
  apply leftpad_app_inj in He' as [-> He']; [|done..].
  apply leftpad_app_inj in He' as [-> He']; [|done..].
  do 4 (apply pad_app_inj in He' as [-> He']; [|done..]).
  rewrite <- (app_nil_r (PaddedBigBytes _ _)), <- (app_nil_r (PaddedBigBytes x3 _)) in He'.
  apply pad_app_inj in He' as [-> _]; done.
Qed.

(** Two different inputs with the same Keccak-256 hash. *)
Definition keccak_collision (a b : list byte) : Prop :=
  a ≠ b ∧ Keccak256Hash a = Keccak256Hash b.

Lemma keccak_inj a b : Keccak256Hash a = Keccak256Hash b → a = b ∨ keccak_collision a b.
Proof. intros H. destruct (decide (a = b)); [by left|by right]. Qed.

(** ** Binding *)

(** A ticket digest commits to the whole ticket and to the chain and contract
    it is spent on: two well-formed tickets with the same digest under two
    signers are the same ticket for the same chain and contract, or one of
    three explicit pairs of encodings is a Keccak-256 collision. *)
Theorem ticket_digest_binding t t' k k' chain chain' vc vc' e e' d :
  ticket_typed t → ticket_typed t' → ticket_encoding t = Some e → ticket_encoding t' = Some e' →
  is_u256 chain → is_u256 chain' → length vc = 20%nat → length vc' = 20%nat →
  Digest (NewTicketSigner k chain vc) t = Some d → Digest (NewTicketSigner k' chain' vc') t' = Some d →
  (t = t' ∧ chain = chain' ∧ vc = vc') ∨
  keccak_collision (typed_data (ComputeDomainSeparator chain vc) (Keccak256Hash e))
                   (typed_data (ComputeDomainSeparator chain' vc') (Keccak256Hash e')) ∨
  keccak_collision (domain_encoding chain vc) (domain_encoding chain' vc') ∨
  keccak_collision e e'.
Proof.
  intros Ht Ht' He He' Hc Hc' Hv Hv'. unfold Digest, HashRoundTicket, HashTypedData.
  rewrite He, He'. simpl. intros <- [= Hd]. symmetry in Hd.
  destruct (keccak_inj _ _ Hd) as [E|?]; [|tauto]. unfold typed_data in E.
  apply app_inv_head, app_inj_1 in E;
    [|unfold ComputeDomainSeparator; by rewrite !length_Keccak256Hash].
  destruct E as [E1 E2]. unfold ComputeDomainSeparator in E1.
  destruct (keccak_inj _ _ E1) as [E3|?]; [|tauto].
  destruct (keccak_inj _ _ E2) as [E4|?]; [|tauto]. left.
  unfold domain_encoding in E3. do 3 apply app_inv_head in E3.
  apply pad_app_inj in E3 as [-> E3]; [|done..].
  rewrite <- (app_nil_r (LeftPadBytes vc _)), <- (app_nil_r (LeftPadBytes vc' _)) in E3.
  apply leftpad_app_inj in E3 as [-> _]; [|done..].
  split; [|done]. subst e'. by eapply ticket_encoding_inj.
Qed.

(** ** Signing and recovery *)

Lemma map_v_down_up rs v :
  length rs = 64%nat → (v = x00 ∨ v = x01) → map_v v_down (map_v v_up (rs ++ [v])) = rs ++ [v].
Proof.
  intros Hl Hv. assert (Hk : ∀ w, (rs ++ [w]) !! 64%nat = Some w)
    by (intros w; rewrite lookup_app_r, Hl by lia; done).
  assert (Hi : ∀ w w', <[64%nat := w']> (rs ++ [w]) = rs ++ [w'])
    by (intros w w'; rewrite insert_app_r_alt, Hl by lia; done).
  unfold map_v. rewrite Hk, Hi, Hk, Hi. f_equal.
  destruct Hv as [-> | ->]; vm_compute; reflexivity.
Qed.

Lemma length_map_v f sig : length (map_v f sig) = length sig.
Proof. unfold map_v. case_match; [apply length_insert|done]. Qed.

(** A ticket signed with a key verifies for exactly one signer, the address
    of that key; the signature has 65 bytes and the recovery byte 27 or 28
    that the EVM expects; and a ticket with a missing number cannot be signed
    or verified by anyone: both calls dereference nil. *)
Theorem SignTicket_Verify k chain vc t addr :
  ec_valid k →
  let s := NewTicketSigner (Some k) chain vc in
  (ticket_typed t →
   ∃ sig, SignTicket s t = Some (Ok sig) ∧ length sig = 65%nat ∧
     (∃ v, sig !! 64%nat = Some v ∧ (byte_to_Z v = 27 ∨ byte_to_Z v = 28)) ∧
     Verify s t sig addr = Some (bool_decide (addr = ts_Address s))) ∧
  (ticket_encoding t = None →
   SignTicket s t = None ∧ ∀ sig, length sig = 65%nat → Verify s t sig addr = None).
Proof.
  intros Hk s. split.
  - intros (e & He)%ticket_encoding_typed.
    unfold Verify, SignTicket, RecoverSigner, Digest, HashRoundTicket. rewrite He. simpl.
    destruct (ec_Sign_valid (HashTypedData (ComputeDomainSeparator chain vc) (Keccak256Hash e)) k)
      as (rs & v & Hs & Hl & Hv & Hr); [done|apply length_Keccak256Hash|].
    rewrite Hs. simpl. eexists. split; [done|].
    rewrite length_map_v, length_app, Hl. split; [done|]. split.
    + unfold map_v. rewrite lookup_app_r, Hl by lia. simpl.
      rewrite list_lookup_insert_eq by (rewrite length_app, Hl; simpl; lia).
      eexists. split; [done|]. destruct Hv as [-> | ->]; vm_compute; tauto.
    + rewrite decide_False; [|unfold zlen; rewrite length_map_v, length_app, Hl; simpl; lia].
      simpl. rewrite map_v_down_up, Hr by done. simpl. f_equal. apply bool_decide_ext.
      split; congruence.
  - intros He. unfold Verify, SignTicket, RecoverSigner, Digest, HashRoundTicket. rewrite He. simpl.
    split; [done|]. intros sig Hl. rewrite decide_False; [done|]. unfold zlen. lia.
Qed.

End tickets.

(** ** A concrete instance *)

Definition toy_left_pad (b : list byte) (n : nat) : list byte := replicate (n - length b) x00 ++ b.
Definition toy_ec_sign (d k : list byte) : result (list byte) :=
  Ok (d ++ replicate 12 x00 ++ take 20 k ++ [x01]).
Definition toy_ec_recover (d sig : list byte) : result (list byte) :=
  if decide (take 32 sig = d) then Ok (take 20 (drop 44 sig)) else Err (New "recovery failed").

#[global, program] Instance ToyEthereum : GoEthereum := {|
  Keccak256Hash := sha256;
  PaddedBigBytes z n := be_bytes n z;
  LeftPadBytes := toy_left_pad;
  ec_Sign := toy_ec_sign;
  ec_Recover := toy_ec_recover;
  PubkeyToAddress k := take 20 k;
  ec_valid k := length k = 32%nat;
|}.
Next Obligation. apply length_sha256. Qed.
Next Obligation. done. Qed.
Next Obligation. done. Qed.
Next Obligation.
  intros d k Hk Hd. cbv beta in Hk. exists (d ++ replicate 12 x00 ++ take 20 k), x01.
  unfold toy_ec_sign, toy_ec_recover.
  assert (H20 : length (take 20 k) = 20%nat) by (rewrite length_take; lia).
  rewrite <- !app_assoc. split_and!; [done| |tauto|].
  - rewrite !length_app, length_replicate, H20, Hd. done.
  - rewrite decide_True by (by rewrite take_app_length').
    rewrite app_assoc, drop_app_length' by (rewrite length_app, length_replicate, Hd; done).
    by rewrite take_app_length' by done.
Qed.

Definition wit_ticket (n : Z) : RoundTicket :=
  {| rt_Sender := replicate 20 x01; rt_Recipient := replicate 20 x02; rt_RoundID := Some 1;
     rt_LocalIndex := Some n; rt_FaceValue := Some 1000; rt_WinProb := Some 5;
     rt_SenderNonce := Some 9 |}.
Lemma wit_ticket_typed n : is_u256 n → ticket_typed (wit_ticket n).
Proof.
  intros H. split; [done|done|]. repeat constructor; (eexists; split; [reflexivity|]; done).
Qed.

Lemma SignTicket_Verify_witness :
  ∃ sig, SignTicket (NewTicketSigner (Some (replicate 32 x07)) 1 (replicate 20 x03)) (wit_ticket 4)
           = Some (Ok sig) ∧ length sig = 65%nat.
Proof.
  destruct (SignTicket_Verify (GE := ToyEthereum) (replicate 32 x07) 1 (replicate 20 x03) (wit_ticket 4) []
    eq_refl) as [H _].
  destruct (H (wit_ticket_typed 4 ltac:(split; [lia|reflexivity]))) as (sig & H1 & H2 & _). eauto.
Defined.

Lemma ticket_digest_binding_witness :
  ∃ d, Digest (NewTicketSigner None 1 (replicate 20 x03)) (wit_ticket 4) = Some d ∧
    Digest (NewTicketSigner (Some []) 1 (replicate 20 x03)) (wit_ticket 4) = Some d ∧
    (wit_ticket 4 = wit_ticket 4 ∨ keccak_collision (GE := ToyEthereum) [] []).
Proof.
  pose proof (wit_ticket_typed 4 ltac:(split; [lia|reflexivity])) as Ht.
  assert (H1 : is_u256 1) by (split; [lia|reflexivity]).
  destruct (ticket_encoding_typed (GE := ToyEthereum) _ Ht) as (e & He).
  destruct (Digest (NewTicketSigner None 1 (replicate 20 x03)) (wit_ticket 4)) as [d|] eqn:E;
    [|exfalso; unfold Digest, HashRoundTicket in E; rewrite He in E; discriminate E].
  pose proof (ticket_digest_binding (GE := ToyEthereum) _ _ None (Some []) _ _ _ _ e e d
    Ht Ht He He H1 H1 (eq_refl : length (replicate 20 x03) = 20%nat)
    (eq_refl : length (replicate 20 x03) = 20%nat) E E) as H.
  exists d. split; [done|]. split; [exact E|].
  destruct H as [[H _]|[[H _]|[[H _]|[H _]]]]; [by left|by destruct H..].
Defined.
