(* ===== verification/ChunkProtocol.v ===== *)
(** * The chunk protocol on the wire

    network/protocol/chunk: limits.go, messages.go (the message envelope and
    its payloads), decoder.go (the bounded frame decoder) and validation.go.

    An [io.Reader] is the list of bytes it will deliver; a reading function
    returns what it left unread with its result.  A nil reader or message
    pointer is not a value of the model. *)

From S2P Require Import Prelude Sha256 Content Tickets.

(** ** Readers as state passing *)

Definition reader (A : Type) : Type := list byte → list byte * result A.
Definition rd_ret {A} (a : A) : reader A := λ r, (r, Ok a).
Definition rd_err {A} (e : error) : reader A := λ r, (r, Err e).
Definition rd_bind {A B} (m : reader A) (k : A → reader B) : reader B := λ r,
  let '(r', x) := m r in
  match x with Ok a => k a r' | Err e => (r', Err e) end.
(** [io.ReadFull]: a short read consumes what is left. *)
Definition rd_full (n : nat) : reader (list byte) := λ r,
  match ReadFull n r with Ok (a, r') => (r', Ok a) | Err e => ([], Err e) end.
Definition rd_map_err {A} (f : error → error) (m : reader A) : reader A := λ r,
  let '(r', x) := m r in (r', match x with Ok a => Ok a | Err e => Err (f e) end).
Notation "'read!' x := m 'in' k" := (rd_bind m (λ x, k))
  (at level 200, x pattern, m at level 100, k at level 200) : go_scope.

(** ** limits.go *)

Definition HashSize : Z := 32.
Definition ContentIDSize : Z := 32.
Definition MaxErrorMessageSize : Z := 512.
Definition MaxChunkRequestSize : Z := 512.
Definition MaxFrameSize : Z := 2 * 1024 * 1024.
Definition MaxMessagePayloadSize : Z := MaxFrameSize - 3.
Definition MaxChunkResponseSize : Z := MaxMessagePayloadSize.
Definition MaxProtocolErrorSize : Z := MaxErrorMessageSize + 128.
Definition MaxManifestSize : Z := MaxMessagePayloadSize.
Definition MaxTicketSize : Z := 4096.
Definition MaxSupportedChunkCount : Z := 2 ^ 32.
Definition MaxSupportedChunkIndex : Z := MaxSupportedChunkCount - 1.

(** [MessageType] and [ErrorCode] are [uint8]. *)
Definition MsgRequestManifest : Z := 0x01.
Definition MsgManifest : Z := 0x02.
Definition MsgRequestChunk : Z := 0x03.
Definition MsgChunk : Z := 0x04.
Definition MsgAck : Z := 0x05.
Definition MsgError : Z := 0x06.
Definition MsgTicket : Z := 0x07.

Definition ErrContentNotFound : Z := 0x01.
Definition ErrChunkNotFound : Z := 0x02.
Definition ErrInvalidManifest : Z := 0x03.
Definition ErrPermissionDenied : Z := 0x04.
Definition ErrInternal : Z := 0x05.
Definition ErrIntegrityMismatch : Z := 0x06.
Definition ErrBadRequest : Z := 0x07.
Definition ErrUnsupportedMessage : Z := 0x08.

Definition MaxPayloadSizeForMessage (messageType : Z) : Z :=
  if decide (messageType = MsgRequestManifest) then MaxChunkRequestSize
  else if decide (messageType = MsgManifest) then MaxManifestSize
  else if decide (messageType = MsgRequestChunk) then MaxChunkRequestSize
  else if decide (messageType = MsgChunk) then MaxChunkResponseSize
  else if decide (messageType = MsgAck) then HashSize + 1
  else if decide (messageType = MsgTicket) then MaxTicketSize
  else if decide (messageType = MsgError) then MaxProtocolErrorSize
  else 0.

(** ** messages.go *)

Definition CurrentMessageVersion : Z := 1.

Record Message := { m_Version : Z; (* uint16 *) m_Type : Z; (* uint8 *) m_Payload : list byte }.

#[global] Instance Message_eq_dec : EqDecision Message.
Proof. solve_decision. Defined.

Definition envelope (msg : Message) : list byte :=
  le16 (m_Version msg) ++ [byte_of_Z (m_Type msg)] ++ m_Payload msg.

(** The bytes [WriteMessage] sends: a [uint32] length and the envelope. *)
Definition WriteMessage (msg : Message) : list byte :=
  let buf := envelope msg in le32 (u32 (zlen buf)) ++ buf.

Definition ReadMessage : reader Message :=
  read! bs := rd_full 4 in
  let size := le_val bs in
  if decide (size > 2 * 1024 * 1024) then rd_err (New "message exceeds maximum frame size")
  else
    read! data := rd_full (Z.to_nat size) in
    λ r, (r,
      let! (v, buf) := ReadFull 2 data in
      let! (t, buf) := ReadFull 1 buf in
      Ok {| m_Version := le_val v; m_Type := le_val t; m_Payload := buf |}).

Definition message (t : Z) (payload : list byte) : Message :=
  {| m_Version := CurrentMessageVersion; m_Type := t; m_Payload := payload |}.

Definition BuildRequestManifest (id : list byte) : Message := message MsgRequestManifest id.
Definition ParseRequestManifest (payload : list byte) : result (list byte) :=
  if decide (zlen payload ≠ 32) then Err (New "invalid payload length for REQUEST_MANIFEST")
  else Ok payload.

Definition BuildManifest (id data : list byte) : Message := message MsgManifest (id ++ data).
Definition ParseManifest (payload : list byte) : result (list byte * list byte) :=
  if decide (zlen payload < 32) then Err (New "invalid payload length for MANIFEST")
  else Ok (take 32 payload, drop 32 payload).

Definition BuildRequestChunk (id : list byte) : Message := message MsgRequestChunk id.
Definition ParseRequestChunk (payload : list byte) : result (list byte) :=
  if decide (zlen payload ≠ 32) then Err (New "invalid payload length for REQUEST_CHUNK")
  else Ok payload.

Definition BuildChunk (chunk : Chunk) : Message :=
  message MsgChunk (encode_header (ck_Header chunk) ++ ck_Data chunk).
Definition ParseChunk (payload : list byte) : result Chunk :=
  let! (h, data) := decode_header payload in Ok {| ck_Header := h; ck_Data := data |}.

Definition BuildAck (id : list byte) (status : Z) : Message :=
  message MsgAck (id ++ [byte_of_Z status]).
Definition ParseAck (payload : list byte) : result (list byte * Z) :=
  if decide (zlen payload ≠ 33) then Err (New "invalid payload length for ACK")
  else Ok (take 32 payload, le_val (drop 32 payload)).

Definition BuildError (code : Z) (msg : string) : Message :=
  message MsgError (byte_of_Z code :: bytes_of msg).
Definition ParseError (payload : list byte) : result (Z * string) :=
  match payload with
  | [] => Err (New "invalid payload length for ERROR")
  | c :: rest => Ok (byte_to_Z c, string_of rest)
  end.

(** [encoding/json] on signed tickets. *)
Class TicketCodec := {
  ticket_Marshal : SignedTicket → result (list byte);
  ticket_Unmarshal : list byte → result SignedTicket;
  ticket_Unmarshal_Marshal : ∀ t d, ticket_Marshal t = Ok d → ticket_Unmarshal d = Ok t ∧ d ≠ [];
}.

Definition BuildTicket `{TicketCodec} (signedTicket : SignedTicket) : result Message :=
  match ticket_Marshal signedTicket with
  | Err e => Err (Wrap "failed to marshal ticket payload" e)
  | Ok data => Ok (message MsgTicket data)
  end.
Definition ParseTicket `{TicketCodec} (payload : list byte) : result SignedTicket :=
  match payload with
  | [] => Err (New "empty payload for TICKET")
  | _ => wrap "failed to unmarshal ticket payload" (ticket_Unmarshal payload)
  end.

(** ** decoder.go *)

Definition frameHeaderSize : nat := 7.
Definition messageHeaderSize : Z := 3.

Definition ErrInvalidProtocolVersion : error := New "invalid protocol version".
Definition ErrUnknownMessageType : error := New "unknown message type".
Definition ErrInvalidPayloadSize : error := New "invalid payload size".
Definition ErrPayloadTooLarge : error := New "payload exceeds protocol limit".
Definition ErrTruncatedFrame : error := New "truncated protocol frame".

Record Frame := { f_Version : Z; f_MessageType : Z; f_Payload : list byte }.

Definition read_header : reader (list byte) :=
  rd_map_err (λ e, Detail ErrTruncatedFrame ("failed to read frame header: " +:+ Error e))
    (rd_full frameHeaderSize).

Definition read_payload (size : Z) : reader (list byte) :=
  rd_map_err (λ e, Detail ErrTruncatedFrame
                     ("expected=" +:+ format_int size +:+ " bytes: " +:+ Error e))
    (rd_full (Z.to_nat size)).

Definition DecodeFrame : reader Frame :=
  read! header := read_header in
  let frameSize := le_val (take 4 header) in
  if decide (frameSize < messageHeaderSize) then
    rd_err (Detail ErrInvalidPayloadSize "frame size is smaller than message header")
  else
  let version := le_val (take 2 (drop 4 header)) in
  if decide (version ≠ CurrentMessageVersion) then
    rd_err (Detail ErrInvalidProtocolVersion (format_int version))
  else
  let messageType := le_val (drop 6 header) in
  let maxPayloadSize := MaxPayloadSizeForMessage messageType in
  if decide (maxPayloadSize <= 0) then
    rd_err (Detail ErrUnknownMessageType (format_int messageType))
  else
  let declaredSize := u32 (frameSize - messageHeaderSize) in
  if decide (declaredSize = 0) then
    rd_err (Detail ErrInvalidPayloadSize "declared an empty payload")
  else if decide (declaredSize > maxPayloadSize) then
    rd_err (Detail ErrPayloadTooLarge (format_int declaredSize))
  else
  read! payload := read_payload declaredSize in
  rd_ret {| f_Version := version; f_MessageType := messageType; f_Payload := payload |}.

Definition DecodeExpectedFrame (expected : Z) : reader Frame :=
  read! frame := DecodeFrame in
  if decide (f_MessageType frame ≠ expected) then rd_err (New "unexpected message type")
  else rd_ret frame.

Definition DecodeFrameHeader : reader (Z * Z * Z) :=
  read! header := read_header in
  let frameSize := le_val (take 4 header) in
  if decide (frameSize < messageHeaderSize) then
    rd_err (Detail ErrInvalidPayloadSize "frame size is smaller than message header")
  else
  let version := le_val (take 2 (drop 4 header)) in
  if decide (version ≠ CurrentMessageVersion) then
    rd_err (Detail ErrInvalidProtocolVersion (format_int version))
  else
  let messageType := le_val (drop 6 header) in
  let maxPayloadSize := MaxPayloadSizeForMessage messageType in
  if decide (maxPayloadSize <= 0) then
    rd_err (Detail ErrUnknownMessageType (format_int messageType))
  else
  let payloadSize := u32 (frameSize - messageHeaderSize) in
  if decide (payloadSize = 0) then
    rd_err (Detail ErrInvalidPayloadSize "declared an empty payload")
  else if decide (payloadSize > maxPayloadSize) then
    rd_err (Detail ErrPayloadTooLarge (format_int payloadSize))
  else rd_ret (version, messageType, payloadSize).

Definition ReadFramePayload (messageType payloadSize : Z) : reader (list byte) :=
  let maxPayloadSize := MaxPayloadSizeForMessage messageType in
  if decide (maxPayloadSize <= 0) then
    rd_err (Detail ErrUnknownMessageType (format_int messageType))
  else if decide (payloadSize = 0) then rd_err ErrInvalidPayloadSize
  else if decide (payloadSize > maxPayloadSize) then
    rd_err (Detail ErrPayloadTooLarge (format_int payloadSize))
  else read_payload payloadSize.

(** ** validation.go *)

Definition ErrInvalidMessageVersion : error := New "invalid message version".
Definition ErrInvalidMessageType : error := New "invalid message type".
Definition ErrInvalidPayloadLength : error := New "invalid payload length".
Definition ErrInvalidContentID : error := New "invalid content ID".
Definition ErrInvalidChunkID : error := New "invalid chunk ID".
Definition ErrInvalidChunkHeader : error := New "invalid chunk header".
Definition ErrInvalidCiphertext : error := New "invalid ciphertext".
Definition ErrInvalidAckStatus : error := New "invalid ack status".
Definition ErrInvalidErrorCode : error := New "invalid error code".
Definition ErrInvalidErrorMessage : error := New "invalid error message".
Definition ErrContentMismatch : error := New "content ID does not match request".
Definition ErrChunkMismatch : error := New "chunk ID does not match request".
Definition ErrInvalidChunkIndex : error := New "invalid chunk index".
Definition ErrInvalidManifestPayload : error := New "invalid manifest payload".

Definition ValidateTicketPayload (payload : list byte) : result () :=
  if decide (zlen payload = 0) then Err (New "ticket payload cannot be empty")
  else if decide (zlen payload > MaxTicketSize) then Err (New "ticket payload exceeds maximum size")
  else Ok tt.

Definition ValidateRequestManifestPayload (payload : list byte) : result () :=
  if decide (zlen payload ≠ ContentIDSize) then Err (Wrap "request manifest" ErrInvalidContentID)
  else Ok tt.

Definition ValidateManifestPayload (payload : list byte) : result () :=
  if decide (zlen payload < ContentIDSize) then Err (Wrap "manifest" ErrInvalidManifestPayload)
  else Ok tt.

Definition ValidateRequestChunkPayload (payload : list byte) : result () :=
  if decide (zlen payload ≠ HashSize) then Err (Wrap "request chunk" ErrInvalidChunkID)
  else Ok tt.

Definition splitChunkPayload (payload : list byte) : result (ChunkHeader * list byte) :=
  if decide (zlen payload < Z.of_nat headerSize) then Err (Wrap "chunk" ErrInvalidPayloadLength)
  else
    match decode_header (take headerSize payload) with
    | Err e => Err (Wrap "chunk" (Detail ErrInvalidChunkHeader (Error e)))
    | Ok (header, _) => Ok (header, drop headerSize payload)
    end.

Definition ValidateChunkPayload (payload : list byte) : result () :=
  if decide (zlen payload < Z.of_nat headerSize) then Err (Wrap "chunk" ErrInvalidPayloadLength)
  else
    let! (header, ciphertext) := splitChunkPayload payload in
    if decide (hd_Version header ≠ CurrentMessageVersion) then
      Err (Wrap "chunk" ErrInvalidMessageVersion)
    else if decide (hd_Index header > MaxSupportedChunkIndex) then
      Err (Wrap "chunk" ErrInvalidChunkIndex)
    else if decide (hd_CipherSize header ≠ u32 (zlen ciphertext)) then
      Err (Wrap "chunk" ErrInvalidCiphertext)
    else if decide (zlen ciphertext = 0) then
      Err (Wrap "chunk" (Detail ErrInvalidCiphertext "empty ciphertext"))
    else Ok tt.

Definition ValidateAckPayload (payload : list byte) : result () :=
  if decide (zlen payload ≠ HashSize + 1) then Err (Wrap "ack" ErrInvalidPayloadLength)
  else if decide (payload !! 32%nat ≠ Some x00) then Err (Wrap "ack" ErrInvalidAckStatus)
  else Ok tt.

Definition isKnownErrorCode (code : Z) : bool :=
  bool_decide (code ∈ [ErrContentNotFound; ErrChunkNotFound; ErrInvalidManifest;
    ErrPermissionDenied; ErrInternal; ErrIntegrityMismatch; ErrBadRequest; ErrUnsupportedMessage]).

Definition ValidateErrorPayload (payload : list byte) : result () :=
  match payload with
  | [] => Err (Wrap "protocol error" ErrInvalidPayloadLength)
  | c :: _ =>
      if negb (isKnownErrorCode (byte_to_Z c)) then Err (Wrap "protocol error" ErrInvalidErrorCode)
      else if decide (zlen payload - 1 > MaxErrorMessageSize) then
        Err (Wrap "protocol error" ErrInvalidErrorMessage)
      else Ok tt
  end.

Definition ValidateMessagePayload (messageType : Z) (payload : list byte) : result () :=
  let maxPayloadSize := MaxPayloadSizeForMessage messageType in
  if decide (maxPayloadSize <= 0) then Err (Wrap "message" ErrInvalidMessageType)
  else if decide (zlen payload > maxPayloadSize) then Err (Wrap "message" ErrInvalidPayloadLength)
  else if decide (messageType = MsgRequestManifest) then ValidateRequestManifestPayload payload
  else if decide (messageType = MsgManifest) then ValidateManifestPayload payload
  else if decide (messageType = MsgRequestChunk) then ValidateRequestChunkPayload payload
  else if decide (messageType = MsgChunk) then ValidateChunkPayload payload
  else if decide (messageType = MsgAck) then ValidateAckPayload payload
  else if decide (messageType = MsgTicket) then ValidateTicketPayload payload
  else if decide (messageType = MsgError) then ValidateErrorPayload payload
  else Err (Wrap "message" ErrInvalidMessageType).

Definition ValidateMessage (msg : Message) : result () :=
  if decide (m_Version msg ≠ CurrentMessageVersion) then
    Err (Wrap "message" ErrInvalidMessageVersion)
  else ValidateMessagePayload (m_Type msg) (m_Payload msg).

Definition ValidateManifestForRequest (requested payload : list byte) : result () :=
  let! _ := ValidateManifestPayload payload in
  let! (received, _) := ParseManifest payload in
  if decide (received ≠ requested) then Err (Wrap "manifest" ErrContentMismatch) else Ok tt.

Definition ValidateChunkForRequest (requested payload : list byte) : result () :=
  let! _ := ValidateChunkPayload payload in
  let! (header, _) := splitChunkPayload payload in
  if decide (hd_ID header ≠ requested) then Err (Wrap "chunk" ErrChunkMismatch) else Ok tt.

Definition ValidateChunkRequestForContent (chunkIndex totalChunks : Z) : result () :=
  if decide (totalChunks = 0 ∨ totalChunks > MaxSupportedChunkCount) then
    Err (New "content information has invalid total chunk count")
  else if decide (chunkIndex >= totalChunks) then Err (Wrap "chunk request" ErrInvalidChunkIndex)
  else Ok tt.

(** ** Reader lemmas *)

Lemma rd_full_app n a r : length a = n → rd_full n (a ++ r) = (r, Ok a).
Proof. intros H. unfold rd_full. by rewrite ReadFull_app. Qed.

Lemma rd_full_cases n r :
  (∃ a r', r = a ++ r' ∧ length a = n ∧ rd_full n r = (r', Ok a)) ∨
  ((length r < n)%nat ∧ ∃ e, rd_full n r = ([], Err e)).
Proof.
  unfold rd_full, ReadFull. case_decide as H.
  - left. exists (take n r), (drop n r). rewrite take_drop, length_take. split_and!; [done|lia|done].
  - right. split; [lia|]. destruct r; eauto.
Qed.

Definition message_typed (msg : Message) : Prop := is_u16 (m_Version msg) ∧ is_u8 (m_Type msg).

Lemma le_val_byte z : is_u8 z → le_val [byte_of_Z z] = z.
Proof. intros H. cbn [le_val]. rewrite byte_to_of, Z.mod_small by exact H. lia. Qed.
Lemma le_val_le16 z : is_u16 z → le_val (le16 z) = z.
Proof. intros H. unfold le16. rewrite le_val_le_bytes. by rewrite Z.mod_small by exact H. Qed.
Lemma le_val_le32 z : is_u32 z → le_val (le32 z) = z.
Proof. intros H. unfold le32. rewrite le_val_le_bytes. by rewrite Z.mod_small by exact H. Qed.
Lemma length_le16 z : length (le16 z) = 2%nat.
Proof. apply length_le_bytes. Qed.
Lemma length_le32 z : length (le32 z) = 4%nat.
Proof. apply length_le_bytes. Qed.

Lemma zlen_envelope msg : zlen (envelope msg) = 3 + zlen (m_Payload msg).
Proof. unfold envelope, zlen. rewrite !length_app, length_le16. simpl length. lia. Qed.

(** A message that fits in a frame is read back exactly, whatever follows it. *)
Lemma ReadMessage_WriteMessage msg rest :
  message_typed msg → zlen (m_Payload msg) <= MaxMessagePayloadSize →
  ReadMessage (WriteMessage msg ++ rest) = (rest, Ok msg).
Proof.
  intros [Hv Ht] Hl. unfold ReadMessage, WriteMessage, rd_bind. rewrite <- app_assoc.
  rewrite rd_full_app by apply length_le32. rewrite le_val_le32 by apply u32_range.
  pose proof (zlen_envelope msg) as He. pose proof (zlen_nonneg (m_Payload msg)).
  unfold MaxMessagePayloadSize, MaxFrameSize in Hl.
  rewrite u32_id by (unfold is_u32; lia). rewrite decide_False by lia.
  rewrite rd_full_app by (unfold zlen; lia). f_equal.
  unfold envelope. rewrite ReadFull_app by apply length_le16. cbn [rbind].
  rewrite ReadFull_app by done. cbn [rbind]. rewrite le_val_le16, le_val_byte by done. by destruct msg.
Qed.

(** ** The frame decoder *)

(** Decoding in two steps, as a caller that reserves memory in between does. *)
Definition decode_in_two_steps : reader Frame :=
  read! (version, messageType, payloadSize) := DecodeFrameHeader in
  read! payload := ReadFramePayload messageType payloadSize in
  rd_ret {| f_Version := version; f_MessageType := messageType; f_Payload := payload |}.

(** [DecodeFrame] is exactly [DecodeFrameHeader] followed by
    [ReadFramePayload], on every input: same frame, same error, same unread
    rest; the checks that [ReadFramePayload] repeats never fire after the
    header was accepted. *)
Theorem DecodeFrame_two_steps r : DecodeFrame r = decode_in_two_steps r.
Proof.
  unfold decode_in_two_steps, DecodeFrame, DecodeFrameHeader, ReadFramePayload, rd_bind.
  destruct (read_header r) as [r' [header|e]]; [|done].
  repeat case_decide; try done; simpl; repeat case_decide; done.
Qed.

Definition frame_message (f : Frame) : Message :=
  {| m_Version := f_Version f; m_Type := f_MessageType f; m_Payload := f_Payload f |}.

(** The frames the decoder lets through. *)
Record frame_ok (f : Frame) : Prop := {
  fo_version : f_Version f = CurrentMessageVersion;
  fo_type : is_u8 (f_MessageType f);
  fo_size : 0 < zlen (f_Payload f) <= MaxPayloadSizeForMessage (f_MessageType f);
}.

Lemma MaxPayload_bound t : MaxPayloadSizeForMessage t <= MaxMessagePayloadSize.
Proof. unfold MaxPayloadSizeForMessage. repeat case_decide; done. Qed.

(** The header bytes of a frame. *)
Lemma header_fields (h : list byte) :
  length h = 7%nat →
  h = le32 (le_val (take 4 h)) ++ le16 (le_val (take 2 (drop 4 h))) ++
      [byte_of_Z (le_val (drop 6 h))] ∧
  is_u32 (le_val (take 4 h)) ∧ is_u8 (le_val (drop 6 h)).
Proof.
  intros H. do 8 (destruct h as [|? h]; try discriminate H). cbn [take drop].
  unfold le32, le16. rewrite !le_bytes_of_length by done. split; [|split].
  - simpl. do 7 f_equal. cbn [le_val]. rewrite Z.mul_0_r, Z.add_0_r. by rewrite byte_of_to.
  - apply (le_val_range [_; _; _; _]).
  - apply (le_val_range [_]).
Qed.

Lemma read_header_ok r r' h : read_header r = (r', Ok h) → r = h ++ r' ∧ length h = 7%nat.
Proof.
  unfold read_header, rd_map_err.
  destruct (rd_full_cases frameHeaderSize r) as [(a & r1 & -> & Ha & ->)|(_ & e & ->)]; [|done].
  by intros [= <- <-].
Qed.

Lemma read_payload_ok n r r' p :
  0 <= n → read_payload n r = (r', Ok p) → r = p ++ r' ∧ zlen p = n.
Proof.
  intros Hn. unfold read_payload, rd_map_err.
  destruct (rd_full_cases (Z.to_nat n) r) as [(a & r1 & -> & Ha & ->)|(_ & e & ->)]; [|done].
  intros [= <- <-]. split; [done|]. unfold zlen. lia.
Qed.

Lemma DecodeFrame_complete f rest :
  frame_ok f → DecodeFrame (WriteMessage (frame_message f) ++ rest) = (rest, Ok f).
Proof.
  intros [Hv Ht Hs]. pose proof (MaxPayload_bound (f_MessageType f)) as Hb.
  unfold MaxMessagePayloadSize, MaxFrameSize in Hb.
  unfold DecodeFrame, WriteMessage, read_header, rd_bind, rd_map_err, frame_message.
  rewrite zlen_envelope. cbn [m_Payload]. unfold envelope. cbn [m_Version m_Type m_Payload].
  rewrite u32_id by (unfold is_u32; lia).
  set (h := le32 (3 + zlen (f_Payload f)) ++ le16 (f_Version f) ++ [byte_of_Z (f_MessageType f)]).
  replace ((le32 _ ++ _ ++ _ ++ f_Payload f) ++ rest) with (h ++ f_Payload f ++ rest)
    by (unfold h; by rewrite <- !app_assoc).
  rewrite rd_full_app by (unfold h; by rewrite !length_app, length_le32, length_le16).
  assert (H4 : take 4 h = le32 (3 + zlen (f_Payload f)))
    by (unfold h; apply take_app_length'; by rewrite length_le32).
  assert (H2 : take 2 (drop 4 h) = le16 (f_Version f))
    by (unfold h; rewrite drop_app_length' by (by rewrite length_le32);
        apply take_app_length'; by rewrite length_le16).
  assert (H6 : drop 6 h = [byte_of_Z (f_MessageType f)])
    by (unfold h; rewrite app_assoc; apply drop_app_length'; by rewrite length_app, length_le32, length_le16).
  cbv zeta. rewrite H4, H2, H6, le_val_byte by done.
  rewrite le_val_le32 by (unfold is_u32; lia). rewrite Hv, le_val_le16 by done.
  unfold messageHeaderSize. rewrite u32_id by (unfold is_u32; lia).
  replace (3 + zlen (f_Payload f) - 3) with (zlen (f_Payload f)) by lia.
  rewrite !decide_False by (try done; lia).
  unfold read_payload, rd_map_err. rewrite rd_full_app by (unfold zlen; lia).
  unfold rd_ret. rewrite <- Hv. by destruct f.
Qed.

Lemma DecodeFrame_sound r rest f :
  DecodeFrame r = (rest, Ok f) → frame_ok f ∧ r = WriteMessage (frame_message f) ++ rest.
Proof.
  unfold DecodeFrame, rd_bind.
  destruct (read_header r) as [r1 [h|e]] eqn:Hh; [|done].
  apply read_header_ok in Hh as [-> Hl]. destruct (header_fields h Hl) as (Eh & H4 & H6).
  set (sz := le_val (take 4 h)) in *. set (ty := le_val (drop 6 h)) in *.
  unfold messageHeaderSize. case_decide; [done|]. case_decide as Hv; [done|].
  rewrite u32_id by (unfold is_u32 in *; lia).
  do 3 (case_decide; [done|]).
  destruct (read_payload (sz - 3) r1) as [r2 [p|e]] eqn:Hp; [|done].
  apply read_payload_ok in Hp as [-> Hp]; [|lia]. intros [= <- <-]. split.
  - split; simpl; [done|done|lia].
  - unfold WriteMessage. rewrite zlen_envelope. unfold envelope, frame_message.
    cbn [m_Version m_Type m_Payload f_Version f_MessageType f_Payload].
    rewrite Hp, u32_id by (unfold is_u32 in *; lia).
    replace (3 + (sz - 3)) with sz by lia. rewrite Eh at 1. by rewrite <- !app_assoc.
Qed.

(** The decoder leaves a suffix of its input and never takes more than a
    header and the largest payload of the protocol. *)
Lemma DecodeFrame_consumes r :
  ∃ c, r = c ++ (DecodeFrame r).1 ∧ zlen c <= 7 + MaxMessagePayloadSize.
Proof.
  assert (Hm : 0 <= MaxMessagePayloadSize) by done.
  unfold DecodeFrame, rd_bind, read_header, rd_map_err.
  destruct (rd_full_cases frameHeaderSize r) as [(h & r1 & -> & Hh & ->)|(Hs & e & ->)].
  2:{ exists r. rewrite app_nil_r. split; [done|]. unfold zlen, frameHeaderSize in *. lia. }
  assert (Hz : zlen h = 7) by (unfold zlen, frameHeaderSize in *; lia).
  assert (Hstop : ∃ c, h ++ r1 = c ++ r1 ∧ zlen c <= 7 + MaxMessagePayloadSize)
    by (exists h; split; [done|lia]).
  do 4 (case_decide; [exact Hstop|]). case_decide as Hd; [exact Hstop|].
  pose proof (MaxPayload_bound (le_val (drop 6 h))).
  set (n := u32 _) in *. unfold read_payload, rd_map_err.
  destruct (rd_full_cases (Z.to_nat n) r1) as [(p & r2 & -> & Hp & ->)|(Hs & e & ->)]; simpl.
  - exists (h ++ p). rewrite <- app_assoc. split; [done|]. rewrite zlen_app. unfold zlen in *. lia.
  - exists (h ++ r1). rewrite app_nil_r. split; [done|]. rewrite zlen_app. unfold zlen in *. lia.
Qed.

(** C36: The bounded decoder accepts exactly the encodings of in-limit frames:
    it returns a frame if and only if the input starts with the bytes
    [WriteMessage] produces for it, its version is current and its non-empty
    payload is within the limit of its type; and whatever a peer sends, it
    consumes at most a header and the largest payload. *)
Theorem DecodeFrame_exact r :
  (∀ rest f, DecodeFrame r = (rest, Ok f) ↔
     frame_ok f ∧ r = WriteMessage (frame_message f) ++ rest) ∧
  ∃ c, r = c ++ (DecodeFrame r).1 ∧ zlen c <= 7 + MaxMessagePayloadSize.
Proof.
  split; [|apply DecodeFrame_consumes]. intros rest f. split; [apply DecodeFrame_sound|].
  intros [Hf ->]. by apply DecodeFrame_complete.
Qed.

(** ** Validation *)

(** The protocol's messages as values, and the messages the builders make of
    them. *)
Inductive payload_value :=
| VRequestManifest (id : list byte)
| VManifest (id data : list byte)
| VRequestChunk (id : list byte)
| VChunk (c : Chunk)
| VAck (id : list byte)
| VError (code : Z) (msg : string)
| VTicket (data : list byte).

Definition build (v : payload_value) : Message :=
  match v with
  | VRequestManifest id => BuildRequestManifest id
  | VManifest id data => BuildManifest id data
  | VRequestChunk id => BuildRequestChunk id
  | VChunk c => BuildChunk c
  | VAck id => BuildAck id 0
  | VError code msg => BuildError code msg
  | VTicket data => message MsgTicket data
  end.

Definition value_ok (v : payload_value) : Prop :=
  match v with
  | VRequestManifest id | VRequestChunk id | VAck id => zlen id = 32
  | VManifest id data => zlen id = 32 ∧ 32 + zlen data <= MaxMessagePayloadSize
  | VChunk c =>
      header_typed (ck_Header c) ∧ hd_Version (ck_Header c) = 1 ∧
      hd_CipherSize (ck_Header c) = zlen (ck_Data c) ∧ ck_Data c ≠ [] ∧
      Z.of_nat headerSize + zlen (ck_Data c) <= MaxMessagePayloadSize
  | VError code msg => 1 <= code <= 8 ∧ slen msg <= 512
  | VTicket data => 0 < zlen data <= 4096
  end.

Lemma zlen_nil {A} (l : list A) : zlen l = 0 ↔ l = [].
Proof. unfold zlen. destruct l; simpl; split; try done; lia. Qed.

Lemma splitChunkPayload_ok p h c :
  splitChunkPayload p = Ok (h, c) ↔ header_typed h ∧ p = encode_header h ++ c.
Proof.
  unfold splitChunkPayload. split.
  - case_decide as Hl; [done|].
    destruct (decode_header (take headerSize p)) as [[h' x]|e] eqn:E; [|done].
    apply decode_header_ok in E as [Hh E]. intros [= <- <-]. split; [done|].
    pose proof (length_encode_header _ Hh) as Hlen. apply (f_equal length) in E as El.
    rewrite length_app, length_take, Hlen in El. unfold zlen in Hl.
    assert (x = []) as -> by (apply nil_length_inv; lia).
    rewrite app_nil_r in E. rewrite <- E. by rewrite take_drop.
  - intros [Hh ->]. pose proof (length_encode_header _ Hh) as Hlen.
    rewrite decide_False by (rewrite zlen_app; unfold zlen; lia).
    rewrite take_app_length', drop_app_length' by done.
    rewrite <- (app_nil_r (encode_header h)). by rewrite decode_encode_header.
Qed.

Lemma ValidateChunkPayload_iff p :
  zlen p <= MaxMessagePayloadSize →
  ValidateChunkPayload p = Ok tt ↔ ∃ c, value_ok (VChunk c) ∧ p = m_Payload (BuildChunk c).
Proof.
  intros Hmax. unfold ValidateChunkPayload, MaxMessagePayloadSize, MaxFrameSize in *. split.
  - case_decide as Hsz; [done|]. intros ((h & c) & Hs & H)%rbind_ok.
    apply splitChunkPayload_ok in Hs as [Hh ->].
    rewrite zlen_app in Hmax. pose proof (zlen_nonneg (encode_header h)).
    pose proof (length_encode_header h Hh) as Hlen.
    destruct (decide (hd_Version h ≠ CurrentMessageVersion)) as [|Hv]; [done|].
    case_decide; [done|]. rewrite u32_id in H by (pose proof (zlen_nonneg c); unfold is_u32; lia).
    destruct (decide (hd_CipherSize h ≠ zlen c)) as [|Hc]; [done|]. case_decide as Hn; [done|].
    exists {| ck_Header := h; ck_Data := c |}. simpl. split; [|done]. split_and!; [done| | | |].
    + by apply dec_stable in Hv.
    + by apply dec_stable in Hc.
    + intros ->. by apply Hn.
    + unfold zlen, MaxMessagePayloadSize, MaxFrameSize in *. lia.
  - intros (c & (Hh & Hv & Hc & Hn & Hl) & ->). cbn [m_Payload message BuildChunk] in *.
    unfold MaxMessagePayloadSize, MaxFrameSize in Hl.
    pose proof (length_encode_header _ Hh) as Hlen. pose proof (zlen_nonneg (ck_Data c)).
    rewrite decide_False by (rewrite zlen_app; unfold zlen; lia).
    rewrite (proj2 (splitChunkPayload_ok _ _ _) (conj Hh eq_refl)). cbn [rbind].
    rewrite decide_False by (unfold CurrentMessageVersion; lia).
    pose proof (ht_index _ Hh) as Hi.
    rewrite decide_False by (unfold is_u32, MaxSupportedChunkIndex, MaxSupportedChunkCount in *; lia).
    rewrite u32_id by (unfold is_u32; lia). rewrite decide_False by lia.
    rewrite decide_False by (by rewrite zlen_nil). done.
Qed.

Lemma isKnownErrorCode_iff code : isKnownErrorCode code = true ↔ 1 <= code <= 8.
Proof.
  unfold isKnownErrorCode. rewrite bool_decide_eq_true. rewrite !elem_of_cons, elem_of_nil.
  unfold ErrContentNotFound, ErrChunkNotFound, ErrInvalidManifest, ErrPermissionDenied, ErrInternal,
    ErrIntegrityMismatch, ErrBadRequest, ErrUnsupportedMessage. lia.
Qed.

Lemma ValidateErrorPayload_iff p :
  ValidateErrorPayload p = Ok tt ↔
  ∃ code msg, value_ok (VError code msg) ∧ p = m_Payload (BuildError code msg).
Proof.
  unfold ValidateErrorPayload, MaxErrorMessageSize. split.
  - destruct p as [|c p]; [done|].
    destruct (isKnownErrorCode (byte_to_Z c)) eqn:Hc; [|done]. simpl. case_decide as Hl; [done|].
    intros _. exists (byte_to_Z c), (string_of p). simpl. unfold slen. rewrite bytes_of_string_of, byte_of_to.
    apply isKnownErrorCode_iff in Hc. split; [split; [done|]|done]. unfold zlen in *. simpl in *. lia.
  - intros (code & msg & [Hc Hl] & ->). cbn [m_Payload message BuildError].
    rewrite byte_to_of, Z.mod_small by lia.
    rewrite (proj2 (isKnownErrorCode_iff code)) by done. simpl.
    rewrite decide_False; [done|]. unfold slen, zlen in *. simpl. lia.
Qed.

Lemma ValidateAckPayload_iff p :
  ValidateAckPayload p = Ok tt ↔ ∃ id, zlen id = 32 ∧ p = m_Payload (BuildAck id 0).
Proof.
  unfold ValidateAckPayload, HashSize. split.
  - destruct (decide (zlen p ≠ 32 + 1)) as [|Hl]; [done|]. apply dec_stable in Hl.
    destruct (decide (p !! 32%nat ≠ Some x00)) as [|Hx]; [done|]. apply dec_stable in Hx. intros _.
    exists (take 32 p). unfold zlen in *. rewrite length_take. split; [lia|].
    simpl. rewrite <- (take_drop_middle p 32 x00 Hx) at 1. f_equal.
    rewrite drop_ge by lia. done.
  - intros (id & Hl & ->). cbn [m_Payload message BuildAck].
    rewrite decide_False by (rewrite zlen_app, Hl; unfold zlen; simpl; lia).
    rewrite decide_False; [done|]. intros H. apply H.
    rewrite lookup_app_r by (unfold zlen in Hl; lia).
    replace (32 - length id)%nat with 0%nat by (unfold zlen in Hl; lia). done.
Qed.

(** Every message of a known type that satisfies its payload check. *)
Definition payload_check (t : Z) : option (list byte → result ()) :=
  if decide (t = MsgRequestManifest) then Some ValidateRequestManifestPayload
  else if decide (t = MsgManifest) then Some ValidateManifestPayload
  else if decide (t = MsgRequestChunk) then Some ValidateRequestChunkPayload
  else if decide (t = MsgChunk) then Some ValidateChunkPayload
  else if decide (t = MsgAck) then Some ValidateAckPayload
  else if decide (t = MsgTicket) then Some ValidateTicketPayload
  else if decide (t = MsgError) then Some ValidateErrorPayload
  else None.

Lemma ValidateMessagePayload_check t p :
  ValidateMessagePayload t p = Ok tt ↔
  ∃ check, payload_check t = Some check ∧ zlen p <= MaxPayloadSizeForMessage t ∧ check p = Ok tt.
Proof.
  unfold ValidateMessagePayload, payload_check, MaxPayloadSizeForMessage.
  repeat (case_decide; simplify_eq; try done); (split; [|intros (f & Hf & Hl & Hck)]);
    simplify_eq; try done; try lia; intros; eexists; split_and!; try done; lia.
Qed.

Lemma builder_payload_ok v :
  value_ok v →
  ∃ check, payload_check (m_Type (build v)) = Some check ∧
    zlen (m_Payload (build v)) <= MaxPayloadSizeForMessage (m_Type (build v)) ∧
    check (m_Payload (build v)) = Ok tt.
Proof.
  destruct v as [id|id data|id|c|id|code msg|data]; intros Hv; (eexists; split; [reflexivity|]).
  - simpl in *. unfold ValidateRequestManifestPayload. by rewrite Hv.
  - destruct Hv as [Hi Hl]. simpl. unfold ValidateManifestPayload.
    rewrite zlen_app, Hi. split; [exact Hl|]. rewrite decide_False; [done|].
    pose proof (zlen_nonneg data). unfold ContentIDSize. lia.
  - simpl in *. unfold ValidateRequestChunkPayload. by rewrite Hv.
  - assert (Hl : zlen (m_Payload (BuildChunk c)) <= MaxMessagePayloadSize).
    { destruct Hv as (Hh & _ & _ & _ & Hl). cbn [BuildChunk message m_Payload]. rewrite zlen_app.
      unfold zlen at 1. by rewrite length_encode_header. }
    split; [exact Hl|]. apply ValidateChunkPayload_iff; [done|]. eauto.
  - split; [|apply ValidateAckPayload_iff; eauto]. simpl in *. rewrite zlen_app, Hv. done.
  - split; [|apply ValidateErrorPayload_iff; eauto]. destruct Hv as [_ Hl]. simpl.
    unfold slen, zlen, MaxPayloadSizeForMessage in *. simpl. unfold MaxProtocolErrorSize, MaxErrorMessageSize. lia.
  - simpl in *. unfold ValidateTicketPayload. split; [apply Hv|].
    rewrite !decide_False by (unfold MaxTicketSize; lia). done.
Qed.

Lemma payload_ok_builder t p check :
  payload_check t = Some check → zlen p <= MaxPayloadSizeForMessage t → check p = Ok tt →
  ∃ v, value_ok v ∧ message t p = build v.
Proof.
  unfold payload_check. repeat case_decide; intros [= <-]; subst t; intros Hl Hp.
  - unfold ValidateRequestManifestPayload in Hp.
    destruct (decide (zlen p ≠ ContentIDSize)) as [|Hd%dec_stable]; [done|]. by exists (VRequestManifest p).
  - unfold ValidateManifestPayload in Hp. case_decide as Hd; [done|].
    exists (VManifest (take 32 p) (drop 32 p)). unfold build, BuildManifest. rewrite take_drop.
    split; [|done]. simpl. unfold MaxPayloadSizeForMessage, ContentIDSize, zlen in *. simpl in Hl.
    rewrite length_take, length_drop. unfold MaxManifestSize in *. lia.
  - unfold ValidateRequestChunkPayload in Hp.
    destruct (decide (zlen p ≠ HashSize)) as [|Hd%dec_stable]; [done|]. by exists (VRequestChunk p).
  - apply ValidateChunkPayload_iff in Hp as (c & Hc & ->); [|exact Hl]. by exists (VChunk c).
  - apply ValidateAckPayload_iff in Hp as (id & Hc & ->). by exists (VAck id).
  - unfold ValidateTicketPayload in Hp. do 2 (case_decide; [done|]). exists (VTicket p). split; [|done].
    simpl. pose proof (zlen_nonneg p). unfold MaxTicketSize in *. lia.
  - apply ValidateErrorPayload_iff in Hp as (code & msg & Hc & ->). by exists (VError code msg).
Qed.

Lemma ValidateMessage_built msg :
  ValidateMessage msg = Ok tt ↔ ∃ v, value_ok v ∧ msg = build v.
Proof.
  unfold ValidateMessage. split.
  - destruct (decide (m_Version msg ≠ CurrentMessageVersion)) as [|Hv%dec_stable]; [done|].
    intros (check & Hc & Hl & Hp)%ValidateMessagePayload_check.
    destruct (payload_ok_builder _ _ _ Hc Hl Hp) as (v & Hok & E). exists v. split; [done|].
    rewrite <- E. destruct msg; simpl in *. unfold message. by rewrite Hv.
  - intros (v & Hv & ->). rewrite decide_False by (destruct v; intros H; by apply H).
    apply ValidateMessagePayload_check. by apply builder_payload_ok.
Qed.

Lemma built_frame_ok v :
  value_ok v → frame_ok {| f_Version := 1; f_MessageType := m_Type (build v);
                           f_Payload := m_Payload (build v) |}.
Proof.
  intros Hv. destruct (builder_payload_ok v Hv) as (c & _ & Hl & _).
  split; cbn [f_Version f_MessageType f_Payload]; [done|by destruct v|split; [|done]].
  destruct v as [id|id data|id|ch|id|code msg|data]; cbn in Hv;
    cbn [build BuildRequestManifest BuildManifest BuildRequestChunk BuildChunk BuildAck BuildError
         message m_Payload]; rewrite ?zlen_app.
  - lia.
  - destruct Hv as [Hv _]. pose proof (zlen_nonneg data). lia.
  - lia.
  - destruct Hv as [Hv _]. pose proof (zlen_nonneg (ck_Data ch)).
    unfold zlen at 1. rewrite (length_encode_header _ Hv). unfold headerSize. lia.
  - pose proof (zlen_nonneg [byte_of_Z 0]). lia.
  - unfold zlen. cbn [length]. lia.
  - lia.
Qed.

(** The validator accepts exactly the messages the builders produce from
    in-limit values (32-byte identifiers, a chunk header of the current version
    whose declared size is that of its non-empty ciphertext, a zero
    acknowledgement, a known error code with at most 512 bytes of text, a
    ticket of at most 4096 bytes); and every accepted message travels: the
    plain reader and the bounded decoder both read it back exactly, whatever
    follows on the stream. *)
Theorem ValidateMessage_exact msg rest :
  (ValidateMessage msg = Ok tt ↔ ∃ v, value_ok v ∧ msg = build v) ∧
  (ValidateMessage msg = Ok tt →
   ReadMessage (WriteMessage msg ++ rest) = (rest, Ok msg) ∧
   ∃ f, DecodeFrame (WriteMessage msg ++ rest) = (rest, Ok f) ∧ frame_message f = msg).
Proof.
  split; [apply ValidateMessage_built|]. intros (v & Hv & ->)%ValidateMessage_built.
  pose proof (built_frame_ok v Hv) as Hf.
  assert (E : frame_message {| f_Version := 1; f_MessageType := m_Type (build v);
                               f_Payload := m_Payload (build v) |} = build v) by (by destruct v).
  split.
  - destruct Hf as [_ Ht Hs]. simpl in *. pose proof (MaxPayload_bound (m_Type (build v))).
    apply ReadMessage_WriteMessage; [|lia]. split; [by destruct v|done].
  - eexists. split; [|exact E]. rewrite <- E. by apply DecodeFrame_complete.
Qed.

Definition wit_chunk : Chunk :=
  {| ck_Header := {| hd_Version := 1; hd_ID := replicate 32 x01; hd_Index := 0; hd_Offset := 0;
       hd_PlainSize := 3; hd_CipherSize := 3; hd_Nonce := replicate 12 x00 |};
     ck_Data := bytes_of "abc" |}.
Lemma ValidateMessage_exact_witness :
  ValidateMessage (BuildChunk wit_chunk) = Ok tt ∧
  ReadMessage (WriteMessage (BuildChunk wit_chunk) ++ [x07]) = ([x07], Ok (BuildChunk wit_chunk)).
Proof.
  assert (H : ValidateMessage (BuildChunk wit_chunk) = Ok tt) by (vm_compute; reflexivity).
  split; [exact H|]. apply (proj2 (ValidateMessage_exact (BuildChunk wit_chunk) [x07]) H).
Defined.

(** A validated answer is for the request that was made. *)
Lemma ValidateChunkForRequest_ok requested payload :
  ValidateChunkForRequest requested payload = Ok tt →
  ∃ h c, header_typed h ∧ payload = encode_header h ++ c ∧ hd_ID h = requested ∧ c ≠ [].
Proof.
  unfold ValidateChunkForRequest. intros (u & Hv & H)%rbind_ok.
  apply rbind_ok in H as ((h & c) & Hs & H).
  destruct (decide (hd_ID h ≠ requested)) as [|Hid%dec_stable]; [done|].
  unfold ValidateChunkPayload in Hv. rewrite Hs in Hv. simpl in Hv.
  apply splitChunkPayload_ok in Hs as [Hh ->]. exists h, c. split_and!; [done|done|done|].
  intros ->. by repeat case_decide.
Qed.
