(* ===== verification/Session.v ===== *)
(** * Two-party sessions over a stream

    The stream protocols of the network layer are pairs of sequential
    programs: a client procedure and a server handler that loops until its
    stream ends.  [prog] is such a program with its sends and receives made
    explicit; [session_step] runs a client and a server in every interleaving,
    with the messages in flight in two FIFO queues.  [session_confluent] says
    that the schedule does not matter: if one schedule runs the session to the
    end, every schedule reaches that same end in the same number of steps, so
    no schedule deadlocks or diverges. *)

From S2P Require Import Prelude.

Inductive prog (M A : Type) :=
| Ret (a : A)
| Send (m : M) (k : result () → prog M A)
| Recv (k : result M → prog M A).
Arguments Ret {M A} a.
Arguments Send {M A} m k.
Arguments Recv {M A} k.

Fixpoint pbind {M A B} (p : prog M A) (f : A → prog M B) : prog M B :=
  match p with
  | Ret a => f a
  | Send m k => Send m (λ r, pbind (k r) f)
  | Recv k => Recv (λ r, pbind (k r) f)
  end.
Notation "'do!' x := p 'in' k" := (pbind p (λ x, k))
  (at level 200, x pattern, p at level 100, k at level 200) : go_scope.
(** [WriteMessage(s, msg)] with its error ignored. *)
Notation "'send!' m 'in' k" := (Send m (λ _, k))
  (at level 200, m at level 100, k at level 200) : go_scope.

(** ** A program against a peer of which nothing is known *)

(** What becomes of its writes, and what its reads give, in order; once the list
    is used up every further operation fails, as on a closed stream. *)
Record Transcript (M : Type) := { tr_writes : list (result ()); tr_reads : list (result M) }.
Arguments tr_writes {M}. Arguments tr_reads {M}.
(** The messages that went through. *)
Inductive io (M : Type) := Wrote (m : M) | Got (m : M).
Arguments Wrote {M}. Arguments Got {M}.

Definition next {A} (l : list (result A)) : result A * list (result A) :=
  match l with [] => (Err EOF, []) | r :: l' => (r, l') end.

Fixpoint replay {M A} (p : prog M A) (tr : Transcript M) : A * list (io M) * Transcript M :=
  match p with
  | Ret a => (a, [], tr)
  | Send m k =>
      let '(r, ws) := next (tr_writes tr) in
      let '(a, t, tr') := replay (k r) {| tr_writes := ws; tr_reads := tr_reads tr |} in
      (a, match r with Ok _ => Wrote m :: t | Err _ => t end, tr')
  | Recv k =>
      let '(r, rs) := next (tr_reads tr) in
      let '(a, t, tr') := replay (k r) {| tr_writes := tr_writes tr; tr_reads := rs |} in
      (a, match r with Ok m => Got m :: t | Err _ => t end, tr')
  end.

Lemma replay_bind {M A B} (p : prog M A) (f : A → prog M B) tr a t tr' b t' tr'' :
  replay p tr = (a, t, tr') → replay (f a) tr' = (b, t', tr'') → replay (pbind p f) tr = (b, t ++ t', tr'').
Proof.
  revert tr t. induction p as [x|m k IH|k IH]; intros tr t; cbn [replay pbind].
  - intros [= -> <- <-] H. exact H.
  - destruct (next (tr_writes tr)) as [r ws]. destruct (replay (k r) _) as [[a1 t1] tr1] eqn:E.
    intros [= -> <- <-] H. rewrite (IH _ _ _ E H). by destruct r.
  - destruct (next (tr_reads tr)) as [r rs]. destruct (replay (k r) _) as [[a1 t1] tr1] eqn:E.
    intros [= -> <- <-] H. rewrite (IH _ _ _ E H). by destruct r.
Qed.

(** ** Confluence *)

(** A relation in which any two steps can be joined in one. *)
Definition diamond {A} (R : relation A) : Prop :=
  ∀ x y z, R x y → R x z → y = z ∨ ∃ w, R y w ∧ R z w.

Lemma diamond_step {A} (R : relation A) n x y z :
  diamond R → nsteps R (S n) x z → nf R z → R x y → nsteps R n y z.
Proof.
  intros HR. revert x y. induction n as [|n IH]; intros x y Hn Hz Hxy;
    inversion Hn as [|? ? x1 ? Hx1 Hr]; subst.
  - inversion Hr; subst. destruct (HR _ _ _ Hxy Hx1) as [->|(w & _ & Hw)]; [constructor|].
    exfalso. apply Hz. by exists w.
  - destruct (HR _ _ _ Hxy Hx1) as [->|(w & Hyw & Hw)]; [done|].
    econstructor; [exact Hyw|]. by apply (IH x1).
Qed.

Lemma diamond_confluent {A} (R : relation A) n x z :
  diamond R → nsteps R n x z → nf R z →
  ∀ m y, nsteps R m x y → (m <= n)%nat ∧ nsteps R (n - m) y z.
Proof.
  intros HR Hn Hz m y Hm. revert n Hn. induction Hm as [x|m x x1 y Hx1 Hm IH]; intros n Hn.
  - split; [lia|]. by rewrite Nat.sub_0_r.
  - destruct n as [|n].
    + inversion Hn; subst. exfalso. apply Hz. by exists x1.
    + destruct (IH n) as [? ?]; [by eapply diamond_step|]. split; [lia|]. done.
Qed.

(** ** Sessions *)

Section session.
(** [writable m] is the result of writing [m]; [receive m] what the other
    side reads when [m] was written. *)
Context {M A S : Type} (writable : M → result ()) (receive : M → result M).
(** One round of the server's loop; [false] ends the handler. *)
Context (body : S → prog M (S * bool)).

Record config := {
  c_client : prog M A;
  c_server : prog M (S * bool);
  c_up : list M;     (* client to server *)
  c_down : list M;   (* server to client *)
}.

Definition push (m : M) (q : list M) : list M := if is_ok (writable m) then q ++ [m] else q.

Inductive session_step : config → config → Prop :=
| client_send m k q up down :
    session_step {| c_client := Send m k; c_server := q; c_up := up; c_down := down |}
                 {| c_client := k (writable m); c_server := q; c_up := push m up; c_down := down |}
| client_recv k q up m down :
    session_step {| c_client := Recv k; c_server := q; c_up := up; c_down := m :: down |}
                 {| c_client := k (receive m); c_server := q; c_up := up; c_down := down |}
| client_eof k s up :
    session_step {| c_client := Recv k; c_server := Ret (s, false); c_up := up; c_down := [] |}
                 {| c_client := k (Err EOF); c_server := Ret (s, false); c_up := up; c_down := [] |}
| server_send m k p up down :
    session_step {| c_client := p; c_server := Send m k; c_up := up; c_down := down |}
                 {| c_client := p; c_server := k (writable m); c_up := up; c_down := push m down |}
| server_recv k p m up down :
    session_step {| c_client := p; c_server := Recv k; c_up := m :: up; c_down := down |}
                 {| c_client := p; c_server := k (receive m); c_up := up; c_down := down |}
| server_loop s p up down :
    session_step {| c_client := p; c_server := Ret (s, true); c_up := up; c_down := down |}
                 {| c_client := p; c_server := body s; c_up := up; c_down := down |}
| server_eof a k down :
    session_step {| c_client := Ret a; c_server := Recv k; c_up := []; c_down := down |}
                 {| c_client := Ret a; c_server := k (Err EOF); c_up := []; c_down := down |}.

Lemma push_cons m n q : push m (n :: q) = n :: push m q.
Proof. unfold push. by destruct (is_ok _). Qed.

Lemma session_diamond : diamond session_step.
Proof.
  intros x y z Hy Hz. inversion Hy; subst; inversion Hz; subst; try (by left);
    right; eexists; split; rewrite ?push_cons; constructor.
Qed.

Definition session (p : prog M A) (s : S) : config :=
  {| c_client := p; c_server := body s; c_up := []; c_down := [] |}.
(** The client has returned [a] and the handler has ended in state [s]. *)
Definition finished (a : A) (s : S) (down : list M) : config :=
  {| c_client := Ret a; c_server := Ret (s, false); c_up := []; c_down := down |}.

Lemma finished_nf a s down : nf session_step (finished a s down).
Proof. intros [y Hy]. inversion Hy. Qed.

(** Every schedule of [c] ends in [z]: there is a number of steps after which
    every run is there, and no run is stuck before. *)
Definition always_ends (c z : config) : Prop :=
  ∃ n, ∀ m y, nsteps session_step m c y → (m <= n)%nat ∧ nsteps session_step (n - m) y z.

Lemma session_confluent c a s down :
  rtc session_step c (finished a s down) → always_ends c (finished a s down).
Proof.
  intros (n & Hn)%rtc_nsteps_1. exists n.
  apply diamond_confluent; [apply session_diamond|done|apply finished_nf].
Qed.

End session.
Arguments session_step {M A S} writable receive body.
Arguments always_ends {M A S} writable receive body.

(** ** Arbitrary peers

    [may_return p a]: some sequence of answers, from any peer whatsoever and
    with any read or write failing, makes [p] return [a]. *)
Inductive may_return {M A} : prog M A → A → Prop :=
| mr_ret a : may_return (Ret a) a
| mr_send m k r a : may_return (k r) a → may_return (Send m k) a
| mr_recv k r a : may_return (k r) a → may_return (Recv k) a.

Lemma may_return_ret_inv {M A} (x a : A) : may_return (M := M) (Ret x) a → a = x.
Proof. by inversion 1. Qed.
Lemma may_return_send_inv {M A} (m : M) (k : result () → prog M A) a :
  may_return (Send m k) a → ∃ r, may_return (k r) a.
Proof. inversion 1; eauto. Qed.
Lemma may_return_recv_inv {M A} (k : result M → prog M A) a :
  may_return (Recv k) a → ∃ r, may_return (k r) a.
Proof. inversion 1; eauto. Qed.

Lemma may_return_bind_inv {M A B} (p : prog M A) (f : A → prog M B) b :
  may_return (pbind p f) b → ∃ a, may_return p a ∧ may_return (f a) b.
Proof.
  induction p as [a|m k IH|k IH]; simpl; intros H.
  - exists a. split; [constructor|done].
  - apply may_return_send_inv in H as [r Hr]. destruct (IH r Hr) as (a & H1 & H2).
    exists a. split; [by econstructor|done].
  - apply may_return_recv_inv in H as [r Hr]. destruct (IH r Hr) as (a & H1 & H2).
    exists a. split; [by econstructor|done].
Qed.

(** Take apart a returning program, one branch of the code at a time. *)
Ltac returns_inv :=
  repeat match goal with
  | H : may_return (Ret _) _ |- _ => apply may_return_ret_inv in H
  | H : may_return (Send _ _) _ |- _ => apply may_return_send_inv in H as [? H]
  | H : may_return (Recv _) _ |- _ => apply may_return_recv_inv in H as [? H]
  | H : may_return (match ?x with _ => _ end) _ |- _ => let E := fresh "E" in destruct x eqn:E
  end.

(** Run one step of a session. *)
Ltac session_step_tac := eapply rtc_l; [constructor|cbn [pbind is_ok push]].
