(* ===== verification/ChunkSession.v ===== *)
(** * Chunk retrieval sessions

    network/protocol/chunk/handler.go (the provider's stream handler) and
    client.go (manifest resolution and chunk download), composed over a
    stream.  The stores are those of [Content]; the ticket handler and the
    ticket generator are arbitrary stateful functions. *)

From S2P Require Import Prelude Sha256 Content Tickets ChunkProtocol Session.

Abbreviation proto := (prog Message).

(** ** handler.go *)

Section handler.
(** The provider's optional [TicketHandlerFunc], with the state behind it. *)
Context {TC : TicketCodec} {TS : Type}.
Context (ticketHandler : option (SignedTicket → TS → TS * result ())).
(** Whether the test hook [TestCorruptProb] strikes a chunk. *)
Context (corrupts : list byte → bool).

Definition handleRequestManifest (fs : FS) (msg : Message) (ts : TS) : proto TS :=
  match ParseRequestManifest (m_Payload msg) with
  | Err _ => send! (BuildError ErrBadRequest "invalid payload for REQUEST_MANIFEST") in Ret ts
  | Ok contentID =>
      match GetManifestBytes contentID fs with
      | Err _ => send! (BuildError ErrContentNotFound "manifest not found") in Ret ts
      | Ok manifestData => send! (BuildManifest contentID manifestData) in Ret ts
      end
  end.

(** [chunkData.Data[0] ^= 0xFF] when the hook strikes. *)
Definition corrupt (chunk : Chunk) : Chunk :=
  match ck_Data chunk with
  | [] => chunk
  | b :: rest =>
      {| ck_Header := ck_Header chunk;
         ck_Data := byte_of_Z (Z.lxor (byte_to_Z b) 0xFF) :: rest |}
  end.

Definition handle_ack (ackMsg : Message) (ts : TS) : proto TS :=
  if decide (m_Type ackMsg = MsgError) then Ret ts
  else if decide (m_Type ackMsg = MsgTicket) then
    match ParseTicket (m_Payload ackMsg) with
    | Err _ => Ret ts
    | Ok signedTicket =>
        match ticketHandler with
        | None => Ret ts
        | Some h =>
            match h signedTicket ts with
            | (ts', Ok _) => Ret ts'
            | (ts', Err e) =>
                send! (BuildError ErrPermissionDenied ("invalid ticket: " +:+ Error e)) in Ret ts'
            end
        end
    end
  else Ret ts.

Definition handleRequestChunk (fs : FS) (msg : Message) (ts : TS) : proto TS :=
  match ParseRequestChunk (m_Payload msg) with
  | Err _ => send! (BuildError ErrBadRequest "invalid payload for REQUEST_CHUNK") in Ret ts
  | Ok chunkID =>
      match GetChunk chunkID fs with
      | Err _ => send! (BuildError ErrChunkNotFound "chunk not found") in Ret ts
      | Ok chunk =>
          let chunkData := if corrupts chunkID then corrupt chunk else chunk in
          Send (BuildChunk chunkData) (λ w,
            match w with
            | Err _ => Ret ts
            | Ok _ => Recv (λ r, match r with Err _ => Ret ts | Ok ackMsg => handle_ack ackMsg ts end)
            end)
      end
  end.

(** One round of the loop of [handleStream]. *)
Definition handleStream (fs : FS) (ts : TS) : proto (TS * bool) :=
  Recv (λ r,
    match r with
    | Err _ => Ret (ts, false)
    | Ok msg =>
        if decide (m_Version msg ≠ CurrentMessageVersion) then
          send! (BuildError ErrUnsupportedMessage "unsupported message version") in Ret (ts, false)
        else if decide (m_Type msg = MsgRequestManifest) then
          do! ts' := handleRequestManifest fs msg ts in Ret (ts', true)
        else if decide (m_Type msg = MsgRequestChunk) then
          do! ts' := handleRequestChunk fs msg ts in Ret (ts', true)
        else
          send! (BuildError ErrUnsupportedMessage "unsupported message type") in Ret (ts, true)
    end).

End handler.

(** ** client.go *)

Section client.
(** The consumer's optional [TicketGeneratorFunc], with the state behind it. *)
Context {TC : TicketCodec} {TG : Type}.
Context (ticketGenerator : option (list byte → TG → TG * result SignedTicket)).

Definition ErrRemoteChunkNotFound : error := New "remote error: chunk not found".

(** [code, msg, _ := ParseError(payload)]: a malformed payload gives zero values. *)
Definition parse_error (payload : list byte) : Z * string :=
  match ParseError payload with Ok x => x | Err _ => (0, ""%string) end.

Definition remote_error (code : Z) (msg : string) : error :=
  New ("remote error (code " +:+ format_int code +:+ "): " +:+ msg).

Definition Resolve (id : list byte) : proto (result (list byte)) :=
  Send (BuildRequestManifest id) (λ w,
    match w with
    | Err e => Ret (Err (Wrap "failed to send REQUEST_MANIFEST" e))
    | Ok _ => Recv (λ r,
        match r with
        | Err e => Ret (Err (Wrap "failed to read response" e))
        | Ok resp =>
            if decide (m_Type resp = MsgError) then
              let '(code, msg) := parse_error (m_Payload resp) in Ret (Err (remote_error code msg))
            else if decide (m_Type resp ≠ MsgManifest) then
              Ret (Err (New ("expected MANIFEST, got " +:+ format_int (m_Type resp))))
            else
              match ParseManifest (m_Payload resp) with
              | Err e => Ret (Err e)
              | Ok (respID, data) =>
                  if decide (respID ≠ id) then Ret (Err (New "content ID mismatch in response"))
                  else Ret (Ok data)
              end
        end)
    end).

Definition set_chunk_id (id : list byte) (c : Chunk) : Chunk :=
  let h := ck_Header c in
  {| ck_Header := {| hd_Version := hd_Version h; hd_ID := id; hd_Index := hd_Index h;
       hd_Offset := hd_Offset h; hd_PlainSize := hd_PlainSize h;
       hd_CipherSize := hd_CipherSize h; hd_Nonce := hd_Nonce h |};
     ck_Data := ck_Data c |}.

(** The last step of [FetchChunk]: a ticket if a generator is configured,
    otherwise an acknowledgement whose failure is ignored. *)
Definition acknowledge (chunkID : list byte) (chunk : Chunk) (g : TG) : proto (TG * result Chunk) :=
  match ticketGenerator with
  | Some gen =>
      match gen chunkID g with
      | (g', Err e) => Ret (g', Err (Wrap "failed to generate ticket" e))
      | (g', Ok signedTicket) =>
          match BuildTicket signedTicket with
          | Err e => Ret (g', Err (Wrap "failed to build ticket message" e))
          | Ok ticketMsg =>
              Send ticketMsg (λ w,
                match w with
                | Err e => Ret (g', Err (Wrap "failed to send ticket message" e))
                | Ok _ => Ret (g', Ok chunk)
                end)
          end
      end
  | None => send! (BuildAck chunkID 0) in Ret (g, Ok chunk)
  end.

(** The part of [FetchChunk] after the response was read. *)
Definition fetch_response (chunkID : list byte) (g : TG) (r : result Message)
    : proto (TG * result Chunk) :=
  match r with
  | Err e => Ret (g, Err (Wrap "failed to read response" e))
  | Ok resp =>
      if decide (m_Type resp = MsgError) then
        let '(code, msg) := parse_error (m_Payload resp) in
        if decide (code = ErrChunkNotFound) then Ret (g, Err ErrRemoteChunkNotFound)
        else Ret (g, Err (remote_error code msg))
      else if decide (m_Type resp ≠ MsgChunk) then
        Ret (g, Err (New ("expected CHUNK, got " +:+ format_int (m_Type resp))))
      else
        match ParseChunk (m_Payload resp) with
        | Err e => Ret (g, Err (Wrap "failed to parse chunk" e))
        | Ok chunk =>
            if decide (sha256 (ck_Data chunk) ≠ chunkID) then
              send! (BuildError ErrIntegrityMismatch "chunk hash mismatch") in
              Ret (g, Err (New ("corrupted chunk " +:+ EncodeToString chunkID +:+ " received")))
            else acknowledge chunkID (set_chunk_id chunkID chunk) g
        end
  end.

Definition FetchChunk (chunkID : list byte) (g : TG) : proto (TG * result Chunk) :=
  Send (BuildRequestChunk chunkID) (λ w,
    match w with
    | Err e => Ret (g, Err (Wrap "failed to send REQUEST_CHUNK" e))
    | Ok _ => Recv (fetch_response chunkID g)
    end).

(** [fault id] is the system call of the client's store that fails for a chunk. *)
Fixpoint Download (pid : Z) (fault : list byte → option (put_call * error))
    (chunkIDs : list (list byte)) (g : TG) (fs : FS) : proto (TG * FS * result ()) :=
  match chunkIDs with
  | [] => Ret (g, fs, Ok tt)
  | chunkID :: rest =>
      do! (g', r) := FetchChunk chunkID g in
      match r with
      | Err e => Ret (g', fs, Err e)
      | Ok chunk =>
          match PutChunk pid (fault chunkID) chunk fs with
          | (fs', Err e) =>
              Ret (g', fs', Err (Wrap ("failed to store chunk " +:+ EncodeToString chunkID) e))
          | (fs', Ok _) => Download pid fault rest g' fs'
          end
      end
  end.

(** ** Whatever the peer answers *)

(** A store is content-addressed when every chunk it yields is filed under the
    hash of its data. *)
Definition store_valid (fs : FS) : Prop :=
  ∀ id c, length id = 32%nat → GetChunk id fs = Ok c → sha256 (ck_Data c) = id ∧ hd_ID (ck_Header c) = id.

Lemma set_chunk_id_typed id c :
  length id = 32%nat → header_typed (ck_Header c) → header_typed (ck_Header (set_chunk_id id c)).
Proof. intros Hi []. by split. Qed.

Lemma acknowledge_returns id c g g' r :
  may_return (acknowledge id c g) (g', Ok r) → r = c.
Proof. unfold acknowledge. intros H. returns_inv; by simplify_eq. Qed.

Lemma ParseChunk_typed p c : ParseChunk p = Ok c → header_typed (ck_Header c).
Proof.
  unfold ParseChunk. intros ((h & d) & [Hh _]%decode_header_ok & [= <-])%rbind_ok. done.
Qed.

Lemma FetchChunk_returns id g g' c :
  length id = 32%nat → may_return (FetchChunk id g) (g', Ok c) →
  sha256 (ck_Data c) = id ∧ hd_ID (ck_Header c) = id ∧ header_typed (ck_Header c).
Proof.
  unfold FetchChunk. intros Hid H. returns_inv; unfold fetch_response, parse_error in H;
    returns_inv; simplify_eq.
  apply acknowledge_returns in H as ->. simpl. split_and!; [by apply dec_stable|done|].
  eapply set_chunk_id_typed; [done|]. by eapply ParseChunk_typed.
Qed.

(** A validated chunk keeps a store content-addressed, even if writing it fails. *)
Lemma PutChunk_valid pid fault c fs fs' r :
  header_typed (ck_Header c) → sha256 (ck_Data c) = hd_ID (ck_Header c) → store_valid fs →
  PutChunk pid fault c fs = (fs', r) → store_valid fs'.
Proof.
  intros Hh Hs Hv E id c' Hid Hc. pose proof (PutChunk_reads pid fault c fs id Hh Hid) as H.
  rewrite E in H. destruct H as (_ & Hg & _). rewrite Hg in Hc. case_decide as Hd; [|by apply Hv].
  destruct Hd as [_ ->]. by simplify_eq.
Qed.

Lemma Download_returns pid fault ids g fs g' fs' r :
  Forall (λ id, length id = 32%nat) ids → store_valid fs →
  may_return (Download pid fault ids g fs) (g', fs', r) →
  store_valid fs' ∧
  (∀ id, length id = 32%nat → is_ok (GetChunk id fs) = true → is_ok (GetChunk id fs') = true) ∧
  (r = Ok tt → ∀ id, id ∈ ids → is_ok (GetChunk id fs') = true).
Proof.
  revert g fs. induction ids as [|id ids IH]; intros g fs Hl Hv H; cbn [Download] in H.
  - apply may_return_ret_inv in H. simplify_eq. split_and!; [done|done|set_solver].
  - apply Forall_cons in Hl as [Hid Hl].
    apply may_return_bind_inv in H as ((g1 & r1) & Hf & H).
    destruct r1 as [c|e]; [|apply may_return_ret_inv in H; by simplify_eq].
    apply FetchChunk_returns in Hf as (Hs & Hc & Hh); [|done].
    destruct (PutChunk pid (fault id) c fs) as [fs1 r1] eqn:E.
    assert (Hv1 : store_valid fs1) by (eapply PutChunk_valid; [exact Hh|congruence|exact Hv|exact E]).
    assert (Hk : ∀ i, length i = 32%nat → is_ok (GetChunk i fs1) =
              if decide (is_ok r1 = true ∧ i = id) then true else is_ok (GetChunk i fs)).
    { intros i Hi. pose proof (PutChunk_reads pid (fault id) c fs i Hh Hi) as Hr. rewrite E, Hc in Hr.
      destruct Hr as (Ho & -> & _). case_decide as H1; case_decide as H2; try done; tauto. }
    destruct r1 as [u|e].
    + apply IH in H as (H1 & H2 & H3); [|done..]. split_and!; [done| |].
      * intros i Hi Hg. apply H2; [done|]. rewrite Hk by done. by destruct (decide (_ ∧ _)).
      * intros -> i [->|Hi]%elem_of_cons; [|by apply H3]. apply H2; [done|].
        rewrite Hk by done. by rewrite decide_True.
    + apply may_return_ret_inv in H. simplify_eq. split_and!; [done| |done].
      intros i Hi Hg. rewrite Hk by done. by destruct (decide (_ ∧ _)).
Qed.

End client.

(** ** Client and handler together *)

(** What the other side reads when a message was written. *)
Definition receive (m : Message) : result Message := (ReadMessage (WriteMessage m)).2.
Definition writable (m : Message) : result () := Ok tt.

(** Reading one message does not depend on what follows it on the stream. *)
Lemma receive_prefix m rest :
  message_typed m → zlen (m_Payload m) + 3 <= MaxUint32 →
  (ReadMessage (WriteMessage m ++ rest)).2 = receive m.
Proof.
  intros Ht Hl. unfold receive. destruct (decide (zlen (m_Payload m) <= MaxMessagePayloadSize)) as [Hs|Hs].
  - rewrite <- (app_nil_r (WriteMessage m)) at 2. by rewrite !ReadMessage_WriteMessage.
  - pose proof (zlen_nonneg (m_Payload m)). unfold MaxMessagePayloadSize, MaxFrameSize, MaxUint32 in *.
    assert (H' : ∀ r, (ReadMessage (WriteMessage m ++ r)).2 = Err (New "message exceeds maximum frame size")).
    { intros r. unfold ReadMessage, WriteMessage, rd_bind. rewrite <- app_assoc.
      rewrite rd_full_app by apply length_le32. rewrite le_val_le32 by apply u32_range.
      rewrite zlen_envelope, u32_id by (unfold is_u32; lia). by rewrite decide_True by lia. }
    rewrite H'. specialize (H' []). by rewrite app_nil_r in H'.
Qed.

Lemma receive_ok m :
  message_typed m → zlen (m_Payload m) <= MaxMessagePayloadSize → receive m = Ok m.
Proof.
  intros Ht Hl. unfold receive. rewrite <- (app_nil_r (WriteMessage m)). by rewrite ReadMessage_WriteMessage.
Qed.

Section joint.
Context {TC : TicketCodec} {TS TG : Type}.
Context (ticketHandler : option (SignedTicket → TS → TS * result ())).
Context (corrupts : list byte → bool).
Context (ticketGenerator : option (list byte → TG → TG * result SignedTicket)).
Context (provider : FS).

Abbreviation serve := (handleStream ticketHandler corrupts provider).
Abbreviation fetch := (FetchChunk ticketGenerator).
Abbreviation step := (session_step writable receive serve).
Abbreviation idle p ts :=
  {| c_client := p; c_server := serve ts; c_up := []; c_down := [] |}.

(** The provider can serve [id] with the chunk [c]. *)
Record serves (id : list byte) (c : Chunk) : Prop := {
  sv_stored : GetChunk id provider = Ok c;
  sv_hash : sha256 (ck_Data c) = id;
  sv_intact : corrupts id = false;
  sv_fits : Z.of_nat headerSize + zlen (ck_Data c) <= MaxMessagePayloadSize;
}.

(** The ticket exchange after a chunk: the states of generator and handler
    when the ticket was generated, delivered and accepted. *)
Definition exchange (id : list byte) (x : TG * TS) : option (TG * TS) :=
  let '(g, ts) := x in
  match ticketGenerator with
  | None => Some (g, ts)
  | Some gen =>
      match gen id g with
      | (_, Err _) => None
      | (g', Ok t) =>
          match ticket_Marshal t with
          | Err _ => None
          | Ok d =>
              if decide (zlen d <= MaxMessagePayloadSize) then
                match ticketHandler with
                | None => Some (g', ts)
                | Some h => match h t ts with (ts', Ok _) => Some (g', ts') | (_, Err _) => None end
                end
              else None
          end
      end
  end.

Fixpoint exchange_all (ids : list (list byte)) (x : TG * TS) : option (TG * TS) :=
  match ids with
  | [] => Some x
  | id :: ids' => x' ← exchange id x; exchange_all ids' x'
  end.

Lemma ParseChunk_Build c :
  header_typed (ck_Header c) → ParseChunk (encode_header (ck_Header c) ++ ck_Data c) = Ok c.
Proof. intros H. unfold ParseChunk. rewrite decode_encode_header by done. by destruct c. Qed.

Lemma receive_request id : length id = 32%nat → receive (BuildRequestChunk id) = Ok (BuildRequestChunk id).
Proof.
  intros H. apply receive_ok; [done|]. simpl. unfold zlen. rewrite H. done.
Qed.

Lemma receive_chunk id c : serves id c → receive (BuildChunk c) = Ok (BuildChunk c).
Proof.
  intros [Hg Hs Hi Hf]. apply receive_ok; [done|]. cbn [BuildChunk message m_Payload].
  rewrite zlen_app. unfold zlen at 1. by rewrite (length_encode_header _ (GetChunk_typed _ _ _ Hg)).
Qed.

(** The server's answer to a request it can serve. *)
Lemma serve_chunk id c ts :
  serves id c → length id = 32%nat →
  handleRequestChunk ticketHandler corrupts provider (BuildRequestChunk id) ts =
  Send (BuildChunk c) (λ w, match w with
    | Err _ => Ret ts
    | Ok _ => Recv (λ r, match r with Err _ => Ret ts | Ok ackMsg => handle_ack ticketHandler ackMsg ts end)
    end).
Proof.
  intros [Hg Hs Hi Hf] Hl. unfold handleRequestChunk, ParseRequestChunk. cbn [BuildRequestChunk message m_Payload].
  rewrite decide_False by (unfold zlen; lia). rewrite Hg, Hi. done.
Qed.

(** The client's reaction to that answer, and to a remote error. *)
Lemma client_on_chunk id c g :
  serves id c →
  fetch_response ticketGenerator id g (Ok (BuildChunk c)) =
  acknowledge ticketGenerator id (set_chunk_id id c) g.
Proof.
  intros [Hg Hs Hi Hf]. unfold fetch_response. cbn [BuildChunk message m_Payload m_Type].
  rewrite ParseChunk_Build by (by eapply GetChunk_typed).
  rewrite decide_False by done. rewrite decide_False by (intros H; by apply H).
  rewrite decide_False by (intros H; by apply H). done.
Qed.

Lemma client_on_error id g code msg :
  is_u8 code → code ≠ ErrChunkNotFound →
  fetch_response ticketGenerator id g (Ok (BuildError code msg)) = Ret (g, Err (remote_error code msg)).
Proof.
  intros Hc Hne. unfold fetch_response, parse_error, ParseError.
  cbn [BuildError message m_Payload m_Type]. rewrite decide_True by done.
  rewrite byte_to_of, Z.mod_small, string_of_bytes_of by exact Hc. by rewrite decide_False.
Qed.

(** The first half of a fetch, up to the client's acknowledgement. *)
Lemma fetch_half {B} id c g ts (f : TG * result Chunk → proto B) :
  serves id c →
  rtc step (idle (pbind (fetch id g) f) ts)
    {| c_client := pbind (acknowledge ticketGenerator id (set_chunk_id id c) g) f;
       c_server := Recv (λ r, pbind (match r with Err _ => Ret ts
                                     | Ok ackMsg => handle_ack ticketHandler ackMsg ts end)
                                    (λ ts', Ret (ts', true)));
       c_up := []; c_down := [] |}.
Proof.
  intros Hs. assert (Hl : length id = 32%nat) by (rewrite <- (sv_hash _ _ Hs); apply length_sha256).
  unfold FetchChunk. cbn [pbind].
  eapply rtc_l; [constructor|]. unfold writable, push; cbn [is_ok app].
  cbn [pbind]. eapply rtc_l; [constructor|]. rewrite receive_request by done.
  rewrite decide_False by (intros H; by apply H). rewrite decide_False by done.
  rewrite decide_True by done. rewrite (serve_chunk id c) by done. cbn [pbind].
  eapply rtc_l; [constructor|]. unfold push; cbn [is_ok app].
  eapply rtc_l; [constructor|]. rewrite (receive_chunk id c), client_on_chunk by done. done.
Qed.

Lemma receive_ack id : length id = 32%nat → receive (BuildAck id 0) = Ok (BuildAck id 0).
Proof.
  intros H. apply receive_ok; [done|]. simpl. unfold zlen. rewrite length_app, H. done.
Qed.

Lemma receive_ticket d : zlen d <= MaxMessagePayloadSize → receive (message MsgTicket d) = Ok (message MsgTicket d).
Proof. intros H. by apply receive_ok. Qed.

(** A whole fetch with its ticket exchange. *)
Lemma fetch_run {B} id c g ts g' ts' (f : TG * result Chunk → proto B) :
  serves id c → exchange id (g, ts) = Some (g', ts') →
  rtc step (idle (pbind (fetch id g) f) ts) (idle (f (g', Ok (set_chunk_id id c))) ts').
Proof.
  intros Hs He. assert (Hl : length id = 32%nat) by (rewrite <- (sv_hash _ _ Hs); apply length_sha256).
  etrans; [by apply fetch_half|]. unfold acknowledge, exchange, BuildTicket in *.
  destruct ticketGenerator as [gen|].
  - destruct (gen id g) as [g1 [t|e]]; [|done]. destruct (ticket_Marshal t) as [d|e] eqn:Ed; [|done].
    case_decide as Hd; [|done]. cbn [pbind].
    eapply rtc_l; [constructor|]. unfold writable, push; cbn [is_ok app pbind].
    eapply rtc_l; [constructor|]. rewrite receive_ticket by done.
    destruct (ticket_Unmarshal_Marshal t d Ed) as [Hu Hn].
    unfold handle_ack, ParseTicket. cbn [message m_Type m_Payload].
    destruct d as [|b d]; [done|]. rewrite Hu. simpl.
    destruct ticketHandler as [h|].
    + destruct (h t ts) as [ts1 [u|e]]; [|done]. injection He as -> ->.
      eapply rtc_l; [constructor|]. done.
    + injection He as -> ->. eapply rtc_l; [constructor|]. done.
  - injection He as -> ->. cbn [pbind].
    eapply rtc_l; [constructor|]. unfold writable, push; cbn [is_ok app pbind].
    eapply rtc_l; [constructor|]. rewrite receive_ack by done. simpl.
    eapply rtc_l; [constructor|]. done.
Qed.

(** The session ends when the client closes its stream. *)
Lemma close_run {B} (a : B) ts : rtc step (idle (Ret a) ts) (finished a ts []).
Proof. eapply rtc_l; [constructor|]. done. Qed.

(** The client's store after storing the fetched chunks. *)
Definition stored (fs fs' : FS) (ids : list (list byte)) : Prop :=
  (∀ id, id ∈ ids → ∃ c, GetChunk id provider = Ok c ∧ GetChunk id fs' = Ok (set_chunk_id id c)) ∧
  (∀ id, length id = 32%nat → id ∉ ids → GetChunk id fs' = GetChunk id fs).

Lemma stored_cons fs fs1 fs2 id c ids :
  length id = 32%nat → Forall (λ i, length i = 32%nat) ids → GetChunk id provider = Ok c →
  (∀ i, length i = 32%nat → GetChunk i fs1 = if decide (i = id) then Ok (set_chunk_id id c) else GetChunk i fs) →
  stored fs1 fs2 ids → stored fs fs2 (id :: ids).
Proof.
  intros Hid Hall Hc H1 [Hin Hout]. split.
  - intros i [->|Hi]%elem_of_cons; [|by apply Hin].
    destruct (decide (id ∈ ids)) as [Hi|Hi]; [by apply Hin|]. exists c. split; [done|].
    rewrite Hout, H1 by done. by rewrite decide_True.
  - intros i Hl [Hne Hi]%not_elem_of_cons. rewrite Hout, H1 by done. by rewrite decide_False.
Qed.

Lemma Download_run pid fault ids g ts g' ts' fs :
  (∀ id, fault id = None) → (∀ id, id ∈ ids → ∃ c, serves id c) →
  exchange_all ids (g, ts) = Some (g', ts') →
  ∃ fs', stored fs fs' ids ∧
    rtc step (idle (Download ticketGenerator pid fault ids g fs) ts) (finished (g', fs', Ok tt) ts' []).
Proof.
  intros Hf. revert g ts fs. induction ids as [|id ids IH]; intros g ts fs Hs He.
  - injection He as <- <-. exists fs. split; [split; [set_solver|done]|]. apply close_run.
  - cbn [exchange_all] in He. apply bind_Some in He as ([g1 ts1] & He1 & He2).
    destruct (Hs id) as [c Hc]; [left|].
    assert (Hl : ∀ i d, serves i d → length i = 32%nat)
      by (intros i d Hi; rewrite <- (sv_hash _ _ Hi); apply length_sha256).
    pose proof (GetChunk_typed _ _ _ (sv_stored _ _ Hc)) as Hh.
    destruct (PutChunk pid None (set_chunk_id id c) fs) as [fs1 r1] eqn:Ep.
    assert (Hr : ∀ i, length i = 32%nat → is_ok r1 = true ∧
      GetChunk i fs1 = if decide (i = id) then Ok (set_chunk_id id c) else GetChunk i fs).
    { intros i Hi. pose proof (PutChunk_reads pid None (set_chunk_id id c) fs i) as Hr. rewrite Ep in Hr.
      destruct Hr as (Ho & -> & _); [apply set_chunk_id_typed; [by eapply Hl|done]|done|].
      split; [by apply Ho|]. simpl. destruct (decide (i = id)).
      - by rewrite decide_True.
      - rewrite decide_False; [done|tauto]. }
    destruct (IH g1 ts1 fs1) as (fs2 & Hst & Hrun); [intros i Hi; apply Hs; by right|done|].
    exists fs2. split.
    + eapply stored_cons; [by eapply Hl| |apply Hc|intros i Hi; apply (Hr i Hi)|done].
      apply Forall_forall. intros i Hi. destruct (Hs i) as [d Hd]; [by right|]. by eapply Hl.
    + cbn [Download]. etrans; [eapply fetch_run; [done|exact He1]|]. cbv beta iota.
      rewrite Hf, Ep. destruct (Hr id) as [Ho _]; [by eapply Hl|]. by destruct r1.
Qed.

(** C23: A download completes under every schedule: if the provider holds every
    requested chunk under the hash of its data, the client's store works and
    each ticket is accepted, every interleaving of client and handler ends
    with success on both sides, in the same final state; the client's store
    then holds exactly the provider's chunks for the requested identifiers and
    is otherwise unchanged, and the ticket handler saw one ticket per chunk, in
    order. *)
Theorem Download_session pid fault ids g ts g' ts' fs :
  (∀ id, fault id = None) → (∀ id, id ∈ ids → ∃ c, serves id c) →
  exchange_all ids (g, ts) = Some (g', ts') →
  ∃ fs', stored fs fs' ids ∧
    always_ends writable receive serve
      (session serve (Download ticketGenerator pid fault ids g fs) ts)
      (finished (g', fs', Ok tt) ts' []).
Proof.
  intros Hf Hs He. destruct (Download_run pid fault ids g ts g' ts' fs Hf Hs He) as (fs' & Hst & Hr).
  exists fs'. split; [done|]. by apply session_confluent.
Qed.

(** ** Manifests *)

(** Resolving a manifest returns exactly the bytes the provider stores under
    the content identifier, under every schedule; when it stores none, the
    client gets the remote error, and in both cases the handler ends cleanly. *)
Theorem Resolve_session id ts :
  length id = 32%nat →
  (∀ data, GetManifestBytes id provider = Ok data → 32 + zlen data <= MaxMessagePayloadSize →
     always_ends writable receive serve (session serve (Resolve id) ts) (finished (Ok data) ts [])) ∧
  (∀ e, GetManifestBytes id provider = Err e →
     always_ends writable receive serve (session serve (Resolve id) ts)
       (finished (Err (remote_error ErrContentNotFound "manifest not found")) ts [])).
Proof.
  intros Hl. assert (Hreq : receive (BuildRequestManifest id) = Ok (BuildRequestManifest id)).
  { apply receive_ok; [done|]. simpl. unfold zlen. by rewrite Hl. }
  assert (Hp : ParseRequestManifest id = Ok id)
    by (unfold ParseRequestManifest; rewrite decide_False; [done|unfold zlen; lia]).
  split; [intros data Hd Hs|intros e Hd]; apply session_confluent; unfold Resolve, session, handleStream.
  all: eapply rtc_l; [constructor|]; unfold writable, push; cbn [is_ok app].
  all: eapply rtc_l; [constructor|]; rewrite Hreq; simpl; unfold handleRequestManifest;
    cbn [BuildRequestManifest message m_Payload]; rewrite Hp, Hd; cbn [pbind].
  all: eapply rtc_l; [constructor|]; unfold push; cbn [is_ok app].
  all: eapply rtc_l; [constructor|]. 
  - rewrite (receive_ok (BuildManifest id data)); 
      [|done|cbn [BuildManifest message m_Payload]; rewrite zlen_app; unfold zlen at 1; by rewrite Hl].
    cbn [BuildManifest message m_Payload m_Type]. unfold ParseManifest.
    rewrite (decide_False (P := zlen _ < 32)) by (rewrite zlen_app; unfold zlen; lia).
    rewrite take_app_length', drop_app_length' by done. simpl. rewrite decide_False by (intros H; by apply H).
    eapply rtc_l; [constructor|]. apply close_run.
  - simpl. eapply rtc_l; [constructor|]. apply close_run.
Qed.

(** ** Refused chunks *)

Lemma corrupt_differs c : ck_Data c ≠ [] → ck_Data (corrupt c) ≠ ck_Data c.
Proof.
  assert (Hb : ∀ b, bool_decide (byte_of_Z (Z.lxor (byte_to_Z b) 0xFF) = b) = false)
    by (intros []; vm_compute; reflexivity).
  unfold corrupt. destruct (ck_Data c) as [|b l]; [done|]. intros _ H. cbn [ck_Data] in H.
  specialize (Hb b). apply bool_decide_eq_false in Hb. congruence.
Qed.

Lemma corrupt_header c : ck_Header (corrupt c) = ck_Header c.
Proof. unfold corrupt. by destruct (ck_Data c). Qed.

Lemma length_corrupt c : length (ck_Data (corrupt c)) = length (ck_Data c).
Proof. by destruct c as [h [|b l]]. Qed.

(** A fetch that cannot succeed fails cleanly under every schedule: a chunk
    the provider does not hold gives [ErrRemoteChunkNotFound], and a chunk
    corrupted on the way out is detected and reported (otherwise the two data
    are an explicit SHA-256 collision); the handler survives both. *)
Theorem FetchChunk_refused id g ts :
  length id = 32%nat →
  (∀ e, GetChunk id provider = Err e →
     always_ends writable receive serve (session serve (fetch id g) ts)
       (finished (g, Err ErrRemoteChunkNotFound) ts [])) ∧
  (∀ c, GetChunk id provider = Ok c → sha256 (ck_Data c) = id → corrupts id = true → ck_Data c ≠ [] →
     Z.of_nat headerSize + zlen (ck_Data c) <= MaxMessagePayloadSize →
     always_ends writable receive serve (session serve (fetch id g) ts)
       (finished (g, Err (New ("corrupted chunk " +:+ EncodeToString id +:+ " received"))) ts []) ∨
     (ck_Data (corrupt c) ≠ ck_Data c ∧ sha256 (ck_Data (corrupt c)) = sha256 (ck_Data c))).
Proof.
  intros Hl. assert (Hp : ParseRequestChunk id = Ok id)
    by (unfold ParseRequestChunk; rewrite decide_False; [done|unfold zlen; lia]).
  split.
  - intros e He. apply session_confluent. unfold session, FetchChunk, handleStream.
    eapply rtc_l; [constructor|]; unfold writable, push; cbn [is_ok app].
    eapply rtc_l; [constructor|]. rewrite receive_request by done. simpl. unfold handleRequestChunk.
    cbn [BuildRequestChunk message m_Payload]. rewrite Hp, He. cbn [pbind].
    eapply rtc_l; [constructor|]; unfold push; cbn [is_ok app].
    eapply rtc_l; [constructor|]. simpl. eapply rtc_l; [constructor|]. apply close_run.
  - intros c Hc Hs Hx Hn Hf. pose proof (corrupt_differs c Hn) as Hd.
    destruct (decide (sha256 (ck_Data (corrupt c)) = id)) as [E|E]; [right; by rewrite Hs|left].
    pose proof (GetChunk_typed _ _ _ Hc) as Hh. rewrite <- corrupt_header in Hh.
    apply session_confluent. unfold session, FetchChunk, handleStream.
    eapply rtc_l; [constructor|]; unfold writable, push; cbn [is_ok app].
    eapply rtc_l; [constructor|]. rewrite receive_request by done. simpl. unfold handleRequestChunk.
    cbn [BuildRequestChunk message m_Payload]. rewrite Hp, Hc, Hx. cbn [pbind].
    eapply rtc_l; [constructor|]; unfold push; cbn [is_ok app].
    eapply rtc_l; [constructor|]. rewrite (receive_ok (BuildChunk (corrupt c))); [|done|].
    2:{ cbn [BuildChunk message m_Payload]. rewrite zlen_app. unfold zlen in *.
        by rewrite length_encode_header, length_corrupt by done. }
    unfold fetch_response. cbn [BuildChunk message m_Payload m_Type]. rewrite ParseChunk_Build by done.
    rewrite (decide_True (P := sha256 _ ≠ id)) by done. cbn [decide].
    eapply rtc_l; [constructor|]; unfold push; cbn [is_ok app].
    eapply rtc_l; [constructor|]. simpl. eapply rtc_l; [constructor|]. apply close_run.
Qed.

(** ** Late refusal of a ticket *)

Lemma handle_ack_refused h t d ts ts1 e :
  ticketHandler = Some h → ticket_Marshal t = Ok d → h t ts = (ts1, Err e) →
  handle_ack ticketHandler (message MsgTicket d) ts =
  Send (BuildError ErrPermissionDenied ("invalid ticket: " +:+ Error e)) (λ _, Ret ts1).
Proof.
  intros Hh Ed Eh. destruct (ticket_Unmarshal_Marshal t d Ed) as [Hu Hn].
  unfold handle_ack, ParseTicket. cbn [message m_Type m_Payload].
  rewrite decide_False, decide_True by done. destruct d as [|b d]; [done|].
  rewrite Hu. cbn [wrap]. by rewrite Hh, Eh.
Qed.

(** A request served to a client that has already returned: the answer stays
    unread and the handler ends with the stream. *)
Lemma serve_unread {B} (a : B) id c ts :
  serves id c →
  rtc step {| c_client := Ret a; c_server := serve ts; c_up := [BuildRequestChunk id]; c_down := [] |}
    (finished a ts [BuildChunk c]).
Proof.
  intros Hs. assert (Hl : length id = 32%nat) by (rewrite <- (sv_hash _ _ Hs); apply length_sha256).
  unfold handleStream. eapply rtc_l; [constructor|]. rewrite receive_request by done.
  rewrite decide_False by (intros H; by apply H). rewrite decide_False by done.
  rewrite decide_True by done. rewrite (serve_chunk id c) by done. cbn [pbind].
  eapply rtc_l; [constructor|]. unfold writable, push; cbn [is_ok app pbind].
  eapply rtc_l; [constructor|]. cbn [pbind]. eapply rtc_l; [constructor|].
  eapply rtc_l; [constructor|]. done.
Qed.

(** A refused ticket does not stop the chunk it pays for: the chunk has been
    delivered and stored, the client's fetch of it succeeds, and the refusal
    is read as the answer to the next request, which fails although the
    provider serves that chunk. *)
Theorem ticket_refused_late id1 c1 id2 c2 rest gen h g g1 t d ts ts1 e pid fs fs1 :
  ticketGenerator = Some gen → ticketHandler = Some h →
  gen id1 g = (g1, Ok t) → ticket_Marshal t = Ok d → zlen d <= MaxMessagePayloadSize →
  h t ts = (ts1, Err e) → slen (Error e) <= 1024 → serves id1 c1 → serves id2 c2 →
  PutChunk pid None (set_chunk_id id1 c1) fs = (fs1, Ok tt) →
  GetChunk id1 fs1 = Ok (set_chunk_id id1 c1) ∧
  always_ends writable receive serve
    (session serve (Download ticketGenerator pid (λ _, None) (id1 :: id2 :: rest) g fs) ts)
    (finished (g1, fs1, Err (remote_error ErrPermissionDenied ("invalid ticket: " +:+ Error e))) ts1
       [BuildChunk c2]).
Proof.
  intros Hgen Hh Eg Ed Hd Eh Hsl Hs1 Hs2 Hput.
  assert (Hl : ∀ i c, serves i c → length i = 32%nat)
    by (intros i c Hi; rewrite <- (sv_hash _ _ Hi); apply length_sha256).
  split.
  { pose proof (PutChunk_reads pid None (set_chunk_id id1 c1) fs id1) as Hr. rewrite Hput in Hr.
    destruct Hr as (_ & -> & _); [|by eapply Hl|by rewrite decide_True].
    apply set_chunk_id_typed; [by eapply Hl|]. eapply GetChunk_typed, Hs1. }
  apply session_confluent. cbn [Download]. etrans; [by apply fetch_half|].
  unfold acknowledge, BuildTicket. rewrite Hgen, Eg, Ed. cbn [pbind].
  eapply rtc_l; [apply client_send|]. unfold writable, push; cbn [is_ok app pbind]. rewrite Hput.
  eapply rtc_l; [apply server_recv|]. rewrite receive_ticket by done.
  rewrite (handle_ack_refused h t d ts ts1 e) by done. cbn [pbind].
  eapply rtc_l; [apply server_send|]. unfold push; cbn [is_ok app].
  eapply rtc_l; [apply server_loop|]. unfold FetchChunk. cbn [pbind].
  eapply rtc_l; [apply client_send|]. unfold push; cbn [is_ok app pbind].
  eapply rtc_l; [apply client_recv|].
  rewrite (receive_ok (BuildError _ _)); [|done|].
  2:{ unfold slen, zlen in *. cbn [BuildError message m_Payload length]. rewrite bytes_of_app, length_app.
      unfold MaxMessagePayloadSize, MaxFrameSize. simpl length. lia. }
  rewrite <- Hgen, client_on_error by done. cbn [pbind]. by apply serve_unread.
Qed.
End joint.

(** ** Integrity against any peer *)

(** C24: Whatever the peer sends and whichever reads, writes or store calls fail, a
    download keeps the client's store content-addressed (every chunk it yields
    is filed under the hash of its data) and loses nothing it held; and if it
    reports success, every requested chunk is there. *)
Theorem Download_integrity {TC : TicketCodec} {TG : Type}
    (ticketGenerator : option (list byte → TG → TG * result SignedTicket)) pid fault ids g fs g' fs' r :
  Forall (λ id, length id = 32%nat) ids → store_valid fs →
  may_return (Download ticketGenerator pid fault ids g fs) (g', fs', r) →
  store_valid fs' ∧
  (∀ id, length id = 32%nat → is_ok (GetChunk id fs) = true → is_ok (GetChunk id fs') = true) ∧
  (r = Ok tt → ∀ id, id ∈ ids → ∃ c, GetChunk id fs' = Ok c ∧ sha256 (ck_Data c) = id).
Proof.
  intros Hl Hv H. destruct (Download_returns _ _ _ _ _ _ _ _ _ Hl Hv H) as (H1 & H2 & H3).
  split_and!; [done|done|]. intros Hr id Hid. specialize (H3 Hr id Hid).
  destruct (GetChunk id fs') as [c|e] eqn:E; [|done]. exists c. split; [done|].
  refine (proj1 (H1 id c _ E)). by apply (proj1 (Forall_forall _ _) Hl).
Qed.

(** ** Witnesses *)

Definition ws_ticket : SignedTicket := {| st_Ticket := wit_ticket 1; st_Signature := [] |}.
(** A codec for one ticket. *)
Definition one_marshal (t : SignedTicket) : result (list byte) :=
  if decide (t = ws_ticket) then Ok [x01] else Err (New "unsupported").
Definition one_unmarshal (d : list byte) : result SignedTicket :=
  if decide (d = [x01]) then Ok ws_ticket else Err (New "unsupported").
#[local, program] Instance OneTicketCodec : TicketCodec := {|
  ticket_Marshal := one_marshal; ticket_Unmarshal := one_unmarshal |}.
Next Obligation.
  intros t d. cbv beta. unfold one_marshal, one_unmarshal.
  destruct (decide (t = ws_ticket)) as [->|]; [|discriminate]. intros [= <-]. by rewrite decide_True.
Qed.

Definition ws_chunk (b : byte) : Chunk :=
  {| ck_Header := {| hd_Version := 1; hd_ID := sha256 [b]; hd_Index := 0; hd_Offset := 0;
       hd_PlainSize := 1; hd_CipherSize := 1; hd_Nonce := replicate 12 x00 |}; ck_Data := [b] |}.
Definition ws_id (b : byte) : list byte := sha256 [b].
Definition ws_provider : FS :=
  (PutChunk 1 None (ws_chunk x61) (PutChunk 1 None (ws_chunk x62) ∅).1).1.

Lemma ws_chunk_typed b : header_typed (ck_Header (ws_chunk b)).
Proof. split; simpl; try (by split); try done. Qed.

Lemma length_ws_id b : length (ws_id b) = 32%nat.
Proof. apply length_sha256. Qed.

Lemma ws_serves b :
  b = x61 ∨ b = x62 → serves (λ _, false) ws_provider (ws_id b) (ws_chunk b).
Proof.
  intros Hb. split; [|done|done|done]. unfold ws_provider.
  pose proof (PutChunk_reads 1 None (ws_chunk x61) (PutChunk 1 None (ws_chunk x62) ∅).1 (ws_id b)
    (ws_chunk_typed _) (length_ws_id b)) as H1.
  pose proof (PutChunk_reads 1 None (ws_chunk x62) ∅ (ws_id b) (ws_chunk_typed _) (length_ws_id b)) as H2.
  destruct (PutChunk 1 None (ws_chunk x62) ∅) as [f2 r2]. cbn [fst snd] in *.
  destruct (PutChunk 1 None (ws_chunk x61) f2) as [f1 r1]. cbn [fst snd].
  destruct H1 as (_ & -> & _), H2 as (_ & -> & _). destruct Hb as [-> | ->].
  - by rewrite decide_True.
  - rewrite decide_False; [by rewrite decide_True|]. intros [_ H].
    assert (Hne : bool_decide (ws_id x62 = ws_id x61) = false) by (vm_compute; reflexivity).
    apply bool_decide_eq_false in Hne. apply Hne. exact H.
Qed.

Lemma Download_session_witness :
  ∃ fs' : FS, stored ws_provider ∅ fs' [ws_id x61; ws_id x62] ∧
    is_ok (GetChunk (ws_id x62) fs') = true.
Proof.
  pose (gen := λ (_ : list byte) (n : nat), (S n, Ok ws_ticket) : nat * result SignedTicket).
  pose (h := λ (t : SignedTicket) (l : list SignedTicket), (l ++ [t], Ok tt) : list SignedTicket * result ()).
  destruct (Download_session (Some h) (λ _, false) (Some gen) ws_provider 1 (λ _, None)
    [ws_id x61; ws_id x62] 0%nat [] 2%nat [ws_ticket; ws_ticket] ∅) as (fs' & Hs & _).
  - done.
  - intros id [->|[->|[]%not_elem_of_nil]%elem_of_cons]%elem_of_cons.
    + exists (ws_chunk x61). apply ws_serves. by left.
    + exists (ws_chunk x62). apply ws_serves. by right.
  - vm_compute. reflexivity.
  - exists fs'. split; [exact Hs|]. destruct (proj1 Hs (ws_id x62)) as (c & _ & ->); [|done].
    apply elem_of_cons. right. by apply list_elem_of_singleton.
Defined.

Lemma Download_integrity_witness :
  ∃ fs' : FS, store_valid fs' ∧
    may_return (Download (TG := ()) None 1 (λ _, None) [ws_id x61] tt ∅)
      (tt, fs', Err (Wrap "failed to send REQUEST_CHUNK" EOF)).
Proof.
  assert (H : may_return (Download (TG := ()) None 1 (λ _, None) [ws_id x61] tt ∅)
                (tt, ∅, Err (Wrap "failed to send REQUEST_CHUNK" EOF)))
    by (simpl; apply (mr_send _ _ (Err EOF)); simpl; constructor).
  exists ∅. split; [|exact H].
  refine (proj1 (Download_integrity None 1 (λ _, None) [ws_id x61] tt ∅ tt ∅ _ _ _ H)).
  - apply Forall_singleton, length_ws_id.
  - intros id c _ Hc. discriminate Hc.
Defined.

Lemma Resolve_session_witness :
  let fs := (PutManifestBytes (ws_id x61) [x07] ∅).1 in
  always_ends writable receive (handleStream (TS := ()) None (λ _, false) fs)
    (session (handleStream None (λ _, false) fs) (Resolve (ws_id x61)) tt) (finished (Ok [x07]) tt []).
Proof.
  intros fs. apply (Resolve_session None (λ _, false) fs (ws_id x61) tt (length_ws_id x61)).
  - unfold fs. rewrite GetManifestBytes_Put. by rewrite decide_True.
  - done.
Defined.

Lemma FetchChunk_refused_witness :
  always_ends writable receive (handleStream (TS := ()) None (λ _, false) ∅)
    (session (handleStream None (λ _, false) ∅) (FetchChunk None (ws_id x61) tt) tt)
    (finished (tt, Err ErrRemoteChunkNotFound) tt []).
Proof.
  exact (proj1 (FetchChunk_refused None (λ _, false) None ∅ (ws_id x61) tt tt (length_ws_id x61))
    NotExist eq_refl).
Defined.

Lemma ticket_refused_late_witness :
  ∃ fs1 : FS, GetChunk (ws_id x61) fs1 = Ok (set_chunk_id (ws_id x61) (ws_chunk x61)).
Proof.
  pose (gen := λ (_ : list byte) (u : ()), (u, Ok ws_ticket) : () * result SignedTicket).
  pose (h := λ (t : SignedTicket) (u : ()), (u, Err (New "forged")) : () * result ()).
  destruct (PutChunk 1 None (set_chunk_id (ws_id x61) (ws_chunk x61)) ∅) as [fs1 [[]|e]] eqn:E;
    [|exfalso; apply (f_equal (λ x, is_ok x.2)) in E; discriminate E].
  exists fs1. apply (ticket_refused_late (TC := OneTicketCodec) (Some h) (λ _, false) (Some gen)
    ws_provider (ws_id x61) (ws_chunk x61)
    (ws_id x62) (ws_chunk x62) [] gen h tt tt ws_ticket [x01] tt tt (New "forged") 1 ∅ fs1
    eq_refl eq_refl eq_refl); [vm_compute; reflexivity|done|reflexivity|done|apply ws_serves; by left|
    apply ws_serves; by right|exact E].
Defined.
