(* ===== verification/Push.v ===== *)
(** * The push protocol

    network/protocol/push: messages.go, client.go (a publisher uploading a
    manifest and chunks) and handler.go (a provider's sessions).  The pending
    sessions are a heap of session objects with a map from content identifiers
    to pointers, because a chunk upload keeps its session's pointer between two
    critical sections.  Streams interleave at the system calls of the store,
    which share one temporary file per chunk.  The [StartedAt]/[UpdatedAt]
    stamps, which nothing reads, and log lines are left out. *)

From S2P Require Import Prelude Sha256 Content ChunkProtocol Session.

(** ** messages.go *)

Definition CurrentPushVersion : Z := 1.
Definition MaxMessageSize : Z := 4 * 1024 * 1024.

Definition MsgPushManifest : Z := 0x10.
Definition MsgPushManifestAck : Z := 0x11.
Definition MsgPushChunk : Z := 0x12.
Definition MsgPushChunkAck : Z := 0x13.
Definition MsgPushBatchComplete : Z := 0x14.
Definition MsgPushBatchCompleteAck : Z := 0x15.
Definition MsgPushError : Z := 0x16.

Definition PushStatusOK : Z := 0x00.
Definition PushStatusUnauthorized : Z := 0x01.
Definition PushStatusMalformed : Z := 0x03.
Definition PushStatusIncomplete : Z := 0x04.
Definition PushStatusHashMismatch : Z := 0x05.
Definition PushStatusNotInAssignedSet : Z := 0x06.
Definition PushStatusIOError : Z := 0x07.

Record PushMessage := { p_Version : Z; (* uint16 *) p_Type : Z; (* uint8 *) p_Payload : list byte }.

Definition push_envelope (msg : PushMessage) : list byte :=
  le16 (p_Version msg) ++ [byte_of_Z (p_Type msg)] ++ p_Payload msg.

(** The bytes [WritePushMessage] sends, or its error. *)
Definition WritePushMessage (msg : PushMessage) : result (list byte) :=
  let buf := push_envelope msg in
  let size := u32 (zlen buf) in
  if decide (size > MaxMessageSize) then
    Err (New ("message size " +:+ format_int size +:+ " exceeds limit " +:+ format_int MaxMessageSize))
  else Ok (le32 size ++ buf).

Definition ReadPushMessage : reader PushMessage :=
  read! bs := rd_full 4 in
  let size := le_val bs in
  if decide (size > MaxMessageSize) then
    rd_err (New ("message size " +:+ format_int size +:+ " exceeds maximum frame size "
                 +:+ format_int MaxMessageSize))
  else if decide (size < 3) then rd_err (New "message frame too short")
  else
    read! data := rd_full (Z.to_nat size) in
    λ r, (r,
      let! (v, buf) := ReadFull 2 data in
      let! (t, buf) := ReadFull 1 buf in
      Ok {| p_Version := le_val v; p_Type := le_val t; p_Payload := buf |}).

Definition push_message (t : Z) (payload : list byte) : PushMessage :=
  {| p_Version := CurrentPushVersion; p_Type := t; p_Payload := payload |}.

Definition BuildPushManifest (contentID : list byte) (assignedChunkIDs : list (list byte))
    (manifestData : list byte) : PushMessage :=
  push_message MsgPushManifest
    (contentID ++ le32 (u32 (zlen assignedChunkIDs)) ++ concat assignedChunkIDs ++ manifestData).

(** [n] identifiers of 32 bytes from the front of the payload. *)
Fixpoint split_ids (n : nat) (payload : list byte) : list (list byte) :=
  match n with O => [] | S n' => take 32 payload :: split_ids n' (drop 32 payload) end.

Definition ParsePushManifest (payload : list byte)
    : result (list byte * list (list byte) * list byte) :=
  if decide (zlen payload < 36) then Err (New "invalid payload length for PUSH_MANIFEST")
  else
    let contentID := take 32 payload in
    let count := le_val (take 4 (drop 32 payload)) in
    let expectedOffset := 36 + count * 32 in
    if decide (zlen payload < expectedOffset) then Err (New "payload too short for assigned chunks")
    else Ok (contentID, split_ids (Z.to_nat count) (drop 36 payload),
             drop (Z.to_nat expectedOffset) payload).

Definition BuildPushManifestAck (contentID : list byte) (status : Z) : PushMessage :=
  push_message MsgPushManifestAck (contentID ++ [byte_of_Z status]).
Definition BuildPushChunkAck (chunkID : list byte) (status : Z) : PushMessage :=
  push_message MsgPushChunkAck (chunkID ++ [byte_of_Z status]).
Definition BuildPushBatchCompleteAck (contentID : list byte) (status : Z) : PushMessage :=
  push_message MsgPushBatchCompleteAck (contentID ++ [byte_of_Z status]).

(** The three acknowledgements share their payload: an identifier and a status. *)
Definition parse_ack (what : string) (payload : list byte) : result (list byte * Z) :=
  if decide (zlen payload ≠ 33) then
    Err (New ("invalid payload length for " +:+ what +:+ ": " +:+ format_int (zlen payload)))
  else Ok (take 32 payload, le_val (drop 32 payload)).
Definition ParsePushManifestAck := parse_ack "PUSH_MANIFEST_ACK".
Definition ParsePushChunkAck := parse_ack "PUSH_CHUNK_ACK".
Definition ParsePushBatchCompleteAck := parse_ack "PUSH_BATCH_COMPLETE_ACK".

Definition BuildPushChunk (contentID : list byte) (chunk : Chunk) : PushMessage :=
  push_message MsgPushChunk (contentID ++ encode_header (ck_Header chunk) ++ ck_Data chunk).
Definition ParsePushChunk (payload : list byte) : result (list byte * Chunk) :=
  if decide (zlen payload < 32 + Z.of_nat headerSize) then
    Err (New "invalid payload length for PUSH_CHUNK")
  else
    let! (h, data) := decode_header (drop 32 payload) in
    Ok (take 32 payload, {| ck_Header := h; ck_Data := data |}).

Definition BuildPushBatchComplete (contentID : list byte) : PushMessage :=
  push_message MsgPushBatchComplete contentID.
Definition ParsePushBatchComplete (payload : list byte) : result (list byte) :=
  if decide (zlen payload ≠ 32) then Err (New "invalid payload length for PUSH_BATCH_COMPLETE")
  else Ok payload.

Definition BuildPushError (code : Z) (msg : string) : PushMessage :=
  push_message MsgPushError (byte_of_Z code :: bytes_of msg).
Definition ParsePushError (payload : list byte) : result (Z * string) :=
  match payload with
  | [] => Err (New "invalid payload length for PUSH_ERROR")
  | c :: rest => Ok (byte_to_Z c, string_of rest)
  end.

(** ** client.go *)

Abbreviation pproto := (prog PushMessage).

Definition push_parse_error (payload : list byte) : Z * string :=
  match ParsePushError payload with Ok x => x | Err _ => (0, ""%string) end.

(** The part [SendManifest], [SendChunk] and [SendBatchComplete] share: read
    the acknowledgement [ackType] and check that it names [id] with status OK. *)
Definition ack_response (what : string) (ackType : Z) (parse : list byte → result (list byte * Z))
    (id : list byte) (mismatch rejected : string) (r : result PushMessage) : pproto (result ()) :=
  match r with
  | Err e => Ret (Err (Wrap ("failed to read " +:+ what +:+ "_ACK") e))
  | Ok resp =>
      if decide (p_Type resp = MsgPushError) then
        let '(code, msg) := push_parse_error (p_Payload resp) in
        Ret (Err (New ("remote push error (code " +:+ format_int code +:+ "): " +:+ msg)))
      else if decide (p_Type resp ≠ ackType) then
        Ret (Err (New ("unexpected response type: " +:+ format_int (p_Type resp) +:+
                       ", expected " +:+ what +:+ "_ACK")))
      else
        match parse (p_Payload resp) with
        | Err e => Ret (Err (Wrap ("failed to parse " +:+ what +:+ "_ACK") e))
        | Ok (respID, status) =>
            if decide (respID ≠ id) then Ret (Err (New mismatch))
            else if decide (status ≠ PushStatusOK) then
              Ret (Err (New (rejected +:+ format_int status)))
            else Ret (Ok tt)
        end
  end.

(** Write the request, then read its acknowledgement. *)
Definition request_ack (what : string) (req : PushMessage) (ackType : Z)
    (parse : list byte → result (list byte * Z)) (id : list byte) (mismatch rejected : string)
    : pproto (result ()) :=
  Send req (λ w,
    match w with
    | Err e => Ret (Err (Wrap ("failed to write " +:+ what) e))
    | Ok _ => Recv (ack_response what ackType parse id mismatch rejected)
    end).

Definition SendManifest (contentID : list byte) (assignedChunkIDs : list (list byte))
    (manifestData : list byte) : pproto (result ()) :=
  request_ack "PUSH_MANIFEST" (BuildPushManifest contentID assignedChunkIDs manifestData)
    MsgPushManifestAck ParsePushManifestAck contentID "contentID mismatch in manifest ack"
    "provider rejected manifest with status code ".

Definition SendChunk (contentID : list byte) (chunk : Chunk) : pproto (result ()) :=
  request_ack "PUSH_CHUNK" (BuildPushChunk contentID chunk)
    MsgPushChunkAck ParsePushChunkAck (hd_ID (ck_Header chunk)) "chunkID mismatch in chunk ack"
    "provider rejected chunk with status code ".

Definition SendBatchComplete (contentID : list byte) : pproto (result ()) :=
  request_ack "PUSH_BATCH_COMPLETE" (BuildPushBatchComplete contentID)
    MsgPushBatchCompleteAck ParsePushBatchCompleteAck contentID
    "contentID mismatch in batch complete ack"
    "provider rejected batch completion with status code ".

(** ** handler.go *)

Record PendingSession := {
  pd_ContentID : list byte;
  pd_Manifest : Manifest;
  pd_ManifestBytes : list byte;
  pd_ExpectedChunks : gset (list byte);
  pd_CommittedChunks : gset (list byte);   (* the keys of the map, all set to true *)
}.

Definition commit_chunk (id : list byte) (s : PendingSession) : PendingSession :=
  {| pd_ContentID := pd_ContentID s; pd_Manifest := pd_Manifest s;
     pd_ManifestBytes := pd_ManifestBytes s; pd_ExpectedChunks := pd_ExpectedChunks s;
     pd_CommittedChunks := {[ id ]} ∪ pd_CommittedChunks s |}.

(** The store of the engine and the sessions of a [StreamHandler]. *)
Record PushState := {
  pu_fs : FS;
  pu_heap : gmap nat PendingSession;
  pu_sessions : gmap (list byte) nat;
  pu_next : nat;
}.

Definition set_fs (fs : FS) (st : PushState) : PushState :=
  {| pu_fs := fs; pu_heap := pu_heap st; pu_sessions := pu_sessions st; pu_next := pu_next st |}.

(** Who may push: [allowPush], [authPolicy] and [allowedPublishers]. *)
Record PushPolicy := {
  pp_allowPush : bool;
  pp_authPolicy : string;
  pp_allowedPublishers : gset string;
}.
Definition AuthPolicyAllowlist : string := "allowlist".

(** [NewStreamHandler]: the list of publishers becomes a set. *)
Definition push_NewStreamHandler (allowPush : bool) (authPolicy : string) (allowedPublishers : list string) : PushPolicy :=
  {| pp_allowPush := allowPush; pp_authPolicy := authPolicy;
     pp_allowedPublishers := list_to_set allowedPublishers |}.

(** How [PutManifestBytes] fails: before [os.WriteFile] has opened the file, or
    after, with the file left holding [part]. *)
Inductive manifest_failure := Unopened | Torn (part : list byte).

Definition failed_manifest (contentID : list byte) (e : manifest_failure) (fs : FS) : FS :=
  match e with Unopened => fs | Torn part => <[manifestPath contentID := part]> fs end.

Section handler.
Context {MC : ManifestCodec}.
(** The temporary-file suffix of the store and the system calls that fail. *)
Context (pid : Z) (put_fault : list byte → option (put_call * error)).
Context (manifest_fault : list byte → option manifest_failure).

(** [h.sessions[contentID] = &PendingSession{...}] *)
Definition open_session (contentID : list byte) (m : Manifest) (data : list byte)
    (assigned : list (list byte)) (st : PushState) : PushState :=
  {| pu_fs := pu_fs st;
     pu_heap := <[pu_next st :=
       {| pd_ContentID := contentID; pd_Manifest := m; pd_ManifestBytes := data;
          pd_ExpectedChunks := list_to_set assigned; pd_CommittedChunks := ∅ |}]> (pu_heap st);
     pu_sessions := <[contentID := pu_next st]> (pu_sessions st);
     pu_next := S (pu_next st) |}.

Definition handlePushManifest (msg : PushMessage) (st : PushState) : pproto PushState :=
  match ParsePushManifest (p_Payload msg) with
  | Err _ => send! (BuildPushError PushStatusMalformed "malformed manifest payload") in Ret st
  | Ok (contentID, assignedChunkIDs, manifestData) =>
      match Deserialize manifestData with
      | Err _ => send! (BuildPushError PushStatusMalformed "invalid manifest JSON") in Ret st
      | Ok m =>
          if decide (cd_ID (mf_Descriptor m) ≠ contentID) then
            send! (BuildPushError PushStatusMalformed "contentID mismatch") in Ret st
          else
            send! (BuildPushManifestAck contentID PushStatusOK) in
            Ret (open_session contentID m manifestData assignedChunkIDs st)
      end
  end.

(** The checks of [handlePushChunk]: the status of a refusal, or the pointer
    of the session the chunk belongs to. *)
Definition chunk_check (contentID : list byte) (chunk : Chunk) (st : PushState) : Z + nat :=
  let chunkID := hd_ID (ck_Header chunk) in
  match pu_sessions st !! contentID with
  | None => inl PushStatusNotInAssignedSet
  | Some ptr =>
      match pu_heap st !! ptr with
      | None => inl PushStatusNotInAssignedSet
      | Some session =>
          if decide (chunkID ∉ pd_ExpectedChunks session) then inl PushStatusNotInAssignedSet
          else if decide (chunkID ∉ mf_ChunkIDs (pd_Manifest session)) then inl PushStatusMalformed
          else if decide (sha256 (ck_Data chunk) ≠ chunkID) then inl PushStatusHashMismatch
          else inr ptr
      end
  end.

(** Its idempotent store: whether the chunk is there afterwards. *)
Definition chunk_store (chunk : Chunk) (st : PushState) : PushState * bool :=
  let chunkID := hd_ID (ck_Header chunk) in
  if HasChunk chunkID (pu_fs st) then (st, true)
  else
    let '(fs', r) := PutChunk pid (put_fault chunkID) chunk (pu_fs st) in (set_fs fs' st, is_ok r).

(** [session.CommittedChunks[chunkID] = true] *)
Definition chunk_commit (ptr : nat) (chunkID : list byte) (st : PushState) : PushState :=
  {| pu_fs := pu_fs st; pu_heap := alter (commit_chunk chunkID) ptr (pu_heap st);
     pu_sessions := pu_sessions st; pu_next := pu_next st |}.

Definition handlePushChunk (msg : PushMessage) (st : PushState) : pproto PushState :=
  match ParsePushChunk (p_Payload msg) with
  | Err _ => send! (BuildPushError PushStatusMalformed "malformed chunk payload") in Ret st
  | Ok (contentID, chunk) =>
      let chunkID := hd_ID (ck_Header chunk) in
      match chunk_check contentID chunk st with
      | inl status => send! (BuildPushChunkAck chunkID status) in Ret st
      | inr ptr =>
          match chunk_store chunk st with
          | (st', false) => send! (BuildPushChunkAck chunkID PushStatusIOError) in Ret st'
          | (st', true) =>
              send! (BuildPushChunkAck chunkID PushStatusOK) in Ret (chunk_commit ptr chunkID st')
          end
      end
  end.

(** The critical section of [handlePushBatchComplete] and the status it acknowledges. *)
Definition batch_complete (contentID : list byte) (st : PushState) : PushState * Z :=
  match pu_sessions st !! contentID with
  | None => (st, PushStatusIncomplete)
  | Some ptr =>
      match pu_heap st !! ptr with
      | None => (st, PushStatusIncomplete)
      | Some session =>
          let allCommitted := bool_decide (pd_ExpectedChunks session ⊆ pd_CommittedChunks session) in
          if negb allCommitted ||
             bool_decide (size (pd_CommittedChunks session) < size (pd_ExpectedChunks session))%nat
          then (st, PushStatusIncomplete)
          else
            match manifest_fault contentID with
            | Some e => (set_fs (failed_manifest contentID e (pu_fs st)) st, PushStatusIOError)
            | None =>
                let fs' := (PutManifestBytes contentID (pd_ManifestBytes session) (pu_fs st)).1 in
                ({| pu_fs := fs'; pu_heap := pu_heap st;
                    pu_sessions := delete contentID (pu_sessions st); pu_next := pu_next st |},
                 PushStatusOK)
            end
      end
  end.

Definition handlePushBatchComplete (msg : PushMessage) (st : PushState) : pproto PushState :=
  match ParsePushBatchComplete (p_Payload msg) with
  | Err _ => send! (BuildPushError PushStatusMalformed "malformed batch complete payload") in Ret st
  | Ok contentID =>
      let '(st', status) := batch_complete contentID st in
      send! (BuildPushBatchCompleteAck contentID status) in Ret st'
  end.

(** The loop of [handleStream]. *)
Definition push_loop (st : PushState) : pproto (PushState * bool) :=
  Recv (λ r,
    match r with
    | Err _ => Ret (st, false)
    | Ok msg =>
        if decide (p_Version msg ≠ CurrentPushVersion) then
          send! (BuildPushError PushStatusMalformed "unsupported version") in Ret (st, false)
        else if decide (p_Type msg = MsgPushManifest) then
          do! st' := handlePushManifest msg st in Ret (st', true)
        else if decide (p_Type msg = MsgPushChunk) then
          do! st' := handlePushChunk msg st in Ret (st', true)
        else if decide (p_Type msg = MsgPushBatchComplete) then
          do! st' := handlePushBatchComplete msg st in Ret (st', true)
        else
          send! (BuildPushError PushStatusMalformed "unknown message type") in Ret (st, false)
    end).

(** [handleStream]: the authorization check, then the loop. *)
Definition handleStream (policy : PushPolicy) (remotePeer : string) (st : PushState)
    : pproto (PushState * bool) :=
  if negb (pp_allowPush policy) then
    send! (BuildPushError PushStatusUnauthorized "provider push disabled") in Ret (st, false)
  else if decide (pp_authPolicy policy = AuthPolicyAllowlist ∧
                  remotePeer ∉ pp_allowedPublishers policy) then
    send! (BuildPushError PushStatusUnauthorized "publisher not in allowlist") in Ret (st, false)
  else Ret (st, true).

(** ** Interleaved streams

    Any number of streams use one handler.  A step is one critical section or
    one system call of some stream; the uploads in flight are between them.
    [PutChunk] writes to a temporary file whose name depends on the chunk and
    the process only, so that two streams may have the same file open: an
    [os.Create] truncates what the other one wrote, an [os.Rename] moves the
    file under the other one's descriptor, an [os.Remove] unlinks it. *)

(** An open file: the name it goes by now, [None] once it has none, and the
    offset of the next write. *)
Record handle := { h_name : option string; h_off : nat }.

Inductive upload :=
| Checked (ptr : nat) (chunk : Chunk)     (* the checks passed, [HasChunk] is next *)
| Absent (ptr : nat) (chunk : Chunk)      (* [os.MkdirAll] and [os.Create] are next *)
| Writing (ptr : nat) (chunk : Chunk) (f : handle) (todo : list byte)
| Synced (ptr : nat) (chunk : Chunk)      (* written, synced and closed: [os.Rename] is next *)
| Failing (chunk : Chunk)                 (* a write failed, the file is closed: [os.Remove] is next *)
| Stored (ptr : nat) (id : list byte).    (* the commit is next *)

(** The state of the handler, the uploads in flight and, recorded for the
    theorems only, the chunks that two streams have been writing at once. *)
Abbreviation Streams := (PushState * list upload * gset (list byte))%type.

Definition chunk_id (chunk : Chunk) : list byte := hd_ID (ck_Header chunk).
Definition tmp_of (id : list byte) : string := tmp_path pid (pathForChunk id).
Definition file_of (chunk : Chunk) : list byte := encode_header (ck_Header chunk) ++ ck_Data chunk.

(** The chunk whose temporary file an upload has created and not yet given up. *)
Definition holder (u : upload) : option (list byte) :=
  match u with
  | Writing _ c _ _ | Synced _ c | Failing c => Some (chunk_id c)
  | _ => None
  end.
Definition held (fl : list upload) : list (list byte) := omap holder fl.

Definition raced_by (id : list byte) (fl : list upload) : gset (list byte) :=
  if decide (id ∈ held fl) then {[ id ]} else ∅.

(** [write(2)] at an offset; a gap beyond the end reads as zeros. *)
Definition write_at (off : nat) (bs file : list byte) : list byte :=
  take off file ++ replicate (off - length file) x00 ++ bs ++ drop (off + length bs) file.

Definition write_file (f : handle) (bs : list byte) (fs : FS) : FS :=
  match h_name f with Some p => alter (write_at (h_off f) bs) p fs | None => fs end.

(** What a rename and a remove do to the name of an open file. *)
Definition renamed (old new p : string) : option string :=
  if decide (p = old) then Some new else if decide (p = new) then None else Some p.
Definition removed (old p : string) : option string := if decide (p = old) then None else Some p.

Definition relink (f : string → option string) (u : upload) : upload :=
  match u with
  | Writing ptr c h todo => Writing ptr c {| h_name := h_name h ≫= f; h_off := h_off h |} todo
  | _ => u
  end.

Inductive push_step : Streams → Streams → Prop :=
| step_manifest cid m data assigned st fl R :
    Deserialize data = Ok m → cd_ID (mf_Descriptor m) = cid → length cid = 32%nat →
    push_step (st, fl, R) (open_session cid m data assigned st, fl, R)
| step_check cid chunk st ptr fl R :
    header_typed (ck_Header chunk) → chunk_check cid chunk st = inr ptr →
    push_step (st, fl, R) (st, Checked ptr chunk :: fl, R)
(** [has, _ := h.engine.HasChunk]: an error counts as absent. *)
| step_stat ptr chunk has st fl fl' R :
    fl ≡ₚ Checked ptr chunk :: fl' → (has = true → HasChunk (chunk_id chunk) (pu_fs st) = true) →
    push_step (st, fl, R)
      (st, (if has then Stored ptr (chunk_id chunk) else Absent ptr chunk) :: fl', R)
| step_create ptr chunk st fl fl' R :
    fl ≡ₚ Absent ptr chunk :: fl' →
    push_step (st, fl, R)
      (set_fs (<[tmp_of (chunk_id chunk) := []]> (pu_fs st)) st,
       Writing ptr chunk {| h_name := Some (tmp_of (chunk_id chunk)); h_off := 0 |} (file_of chunk) :: fl',
       raced_by (chunk_id chunk) fl' ∪ R)
(** [binary.Write] of the header and [f.Write] of the data, in any number of system calls. *)
| step_write ptr chunk h bs todo st fl fl' R :
    fl ≡ₚ Writing ptr chunk h (bs ++ todo) :: fl' →
    push_step (st, fl, R)
      (set_fs (write_file h bs (pu_fs st)) st,
       Writing ptr chunk {| h_name := h_name h; h_off := h_off h + length bs |} todo :: fl', R)
| step_sync ptr chunk h st fl fl' R :
    fl ≡ₚ Writing ptr chunk h [] :: fl' → push_step (st, fl, R) (st, Synced ptr chunk :: fl', R)
| step_fault ptr chunk h todo st fl fl' R :
    fl ≡ₚ Writing ptr chunk h todo :: fl' → push_step (st, fl, R) (st, Failing chunk :: fl', R)
| step_remove chunk st fl fl' R :
    fl ≡ₚ Failing chunk :: fl' →
    push_step (st, fl, R)
      (set_fs (delete (tmp_of (chunk_id chunk)) (pu_fs st)) st,
       relink (removed (tmp_of (chunk_id chunk))) <$> fl', R)
| step_rename ptr chunk file st fl fl' R :
    fl ≡ₚ Synced ptr chunk :: fl' → pu_fs st !! tmp_of (chunk_id chunk) = Some file →
    push_step (st, fl, R)
      (set_fs (<[pathForChunk (chunk_id chunk) := file]> (delete (tmp_of (chunk_id chunk)) (pu_fs st))) st,
       Stored ptr (chunk_id chunk) ::
         (relink (renamed (tmp_of (chunk_id chunk)) (pathForChunk (chunk_id chunk))) <$> fl'), R)
(** [os.MkdirAll], [os.Create] or [os.Rename] fails; the chunk is refused. *)
| step_refuse u ptr chunk st fl fl' R :
    fl ≡ₚ u :: fl' → u = Absent ptr chunk ∨ u = Synced ptr chunk →
    push_step (st, fl, R) (st, fl', R)
| step_commit ptr id st fl fl' R :
    fl ≡ₚ Stored ptr id :: fl' → push_step (st, fl, R) (chunk_commit ptr id st, fl', R)
| step_complete cid st st' status fl R :
    batch_complete cid st = (st', status) → push_step (st, fl, R) (st', fl, R).

(** Every chunk file of the store, but those of [R], holds data that hashes to
    its name. *)
Definition store_but (R : gset (list byte)) (fs : FS) : Prop :=
  ∀ id, length id = 32%nat → id ∉ R → HasChunk id fs = true →
        ∃ c, GetChunk id fs = Ok c ∧ sha256 (ck_Data c) = id.

(** A chunk that passed the checks against the session at [ptr]. *)
Record chunk_due (st : PushState) (ptr : nat) (c : Chunk) : Prop := {
  du_typed : header_typed (ck_Header c);
  du_hash : sha256 (ck_Data c) = chunk_id c;
  du_listed : ∃ s, pu_heap st !! ptr = Some s ∧ chunk_id c ∈ pd_ExpectedChunks s ∧
    chunk_id c ∈ mf_ChunkIDs (pd_Manifest s);
}.

(** The names the temporary file of a chunk may go by. *)
Definition own_name (id : list byte) (n : option string) : Prop :=
  n = None ∨ n = Some (tmp_of id) ∨ n = Some (pathForChunk id).

(** What is known of an upload in flight. *)
Definition upload_ok (st : PushState) (u : upload) : Prop :=
  match u with
  | Checked ptr c | Absent ptr c | Synced ptr c => chunk_due st ptr c
  | Writing ptr c h _ => chunk_due st ptr c ∧ own_name (chunk_id c) (h_name h)
  | Failing c => length (chunk_id c) = 32%nat
  | Stored ptr id =>
      length id = 32%nat ∧ HasChunk id (pu_fs st) = true ∧
      ∃ s, pu_heap st !! ptr = Some s ∧ id ∈ pd_ExpectedChunks s ∧ id ∈ mf_ChunkIDs (pd_Manifest s)
  end.

(** The temporary file of an upload that has it for itself. *)
Definition file_ok (fs : FS) (u : upload) : Prop :=
  match u with
  | Writing _ c h todo =>
      h_name h = Some (tmp_of (chunk_id c)) ∧
      ∃ written, fs !! tmp_of (chunk_id c) = Some written ∧ h_off h = length written ∧
        written ++ todo = file_of c
  | Synced _ c => fs !! tmp_of (chunk_id c) = Some (file_of c)
  | _ => True
  end.

Record session_ok (fs : FS) (s : PendingSession) : Prop := {
  so_manifest : Deserialize (pd_ManifestBytes s) = Ok (pd_Manifest s);
  so_id : cd_ID (mf_Descriptor (pd_Manifest s)) = pd_ContentID s;
  so_committed : ∀ id, id ∈ pd_CommittedChunks s →
    length id = 32%nat ∧ HasChunk id fs = true ∧ id ∈ pd_ExpectedChunks s ∧
    id ∈ mf_ChunkIDs (pd_Manifest s);
}.

Record push_wf (R : gset (list byte)) (st : PushState) : Prop := {
  pw_store : store_but R (pu_fs st);
  pw_sessions : ∀ cid ptr, pu_sessions st !! cid = Some ptr →
    ∃ s, pu_heap st !! ptr = Some s ∧ pd_ContentID s = cid;
  pw_heap : ∀ ptr s, pu_heap st !! ptr = Some s → (ptr < pu_next st)%nat ∧ session_ok (pu_fs st) s;
}.

(** A chunk that is not in [R] has one writer at most, whose file is its own. *)
Record streams_wf (x : Streams) : Prop := {
  sw_state : push_wf x.2 x.1.1;
  sw_uploads : Forall (upload_ok x.1.1) x.1.2;
  sw_files : ∀ u id, u ∈ x.1.2 → holder u = Some id → id ∉ x.2 → file_ok (pu_fs x.1.1) u;
  sw_single : NoDup (filter (.∉ x.2) (held x.1.2));
}.

(** *** Store lemmas *)

Lemma HasChunk_GetChunk id fs : HasChunk id fs = bool_decide (GetChunk id fs ≠ Err NotExist).
Proof.
  unfold HasChunk, GetChunk. apply bool_decide_ext. destruct (fs !! _) as [file|].
  - split; [|by eauto]. intros _. destruct (decode_header file) as [[]|]; done.
  - split; [by intros []|]. intros H. by destruct H.
Qed.

(** A chunk is read from one file. *)
Lemma GetChunk_ext id fs fs' :
  fs' !! pathForChunk id = fs !! pathForChunk id →
  GetChunk id fs' = GetChunk id fs ∧ HasChunk id fs' = HasChunk id fs.
Proof. intros E. unfold GetChunk, HasChunk. by rewrite E. Qed.

Lemma chunk_not_manifest id cid : length id = 32%nat → pathForChunk id ≠ manifestPath cid.
Proof.
  intros Hl E. apply (manifest_not_under_chunk id cid "" Hl). rewrite <- E.
  apply bytes_of_inj. rewrite bytes_of_app. apply app_nil_r.
Qed.

Lemma GetChunk_manifest id cid data fs :
  length id = 32%nat →
  GetChunk id (<[manifestPath cid := data]> fs) = GetChunk id fs ∧
  HasChunk id (<[manifestPath cid := data]> fs) = HasChunk id fs.
Proof.
  intros Hl. apply GetChunk_ext, lookup_insert_ne. intros E. by apply (chunk_not_manifest id cid Hl).
Qed.

Lemma GetChunk_PutManifest id cid data fs :
  length id = 32%nat → GetChunk id (PutManifestBytes cid data fs).1 = GetChunk id fs.
Proof. apply GetChunk_manifest. Qed.

(** Storing a checked chunk keeps the store sound and every chunk in it. *)
Lemma chunk_store_spec R c st st' ok :
  header_typed (ck_Header c) → sha256 (ck_Data c) = hd_ID (ck_Header c) → store_but R (pu_fs st) →
  chunk_store c st = (st', ok) →
  store_but R (pu_fs st') ∧ st' = set_fs (pu_fs st') st ∧
  (∀ id, length id = 32%nat → HasChunk id (pu_fs st) = true → HasChunk id (pu_fs st') = true) ∧
  (ok = true → HasChunk (hd_ID (ck_Header c)) (pu_fs st') = true).
Proof.
  clear manifest_fault. intros Hh Hs Hok. unfold chunk_store. set (id0 := hd_ID (ck_Header c)) in *.
  destruct (HasChunk id0 (pu_fs st)) eqn:Hhas.
  { intros [= <- <-]. split_and!; [done|by destruct st|done|done]. }
  destruct (PutChunk pid (put_fault id0) c (pu_fs st)) as [fs' r] eqn:Ep. intros [= <- <-].
  assert (Hr : ∀ id, length id = 32%nat →
    GetChunk id fs' = if decide (is_ok r = true ∧ id = id0) then Ok c else GetChunk id (pu_fs st)).
  { intros id Hl. pose proof (PutChunk_reads pid (put_fault id0) c (pu_fs st) id Hh Hl) as H.
    rewrite Ep in H. destruct H as (Ho & -> & _). fold id0.
    destruct (decide (_ ∧ _)) as [H1|H1], (decide (_ ∧ _)) as [H2|H2]; try done; tauto. }
  simpl. split_and!; [|done| |].
  - intros id Hl Hn Hid. rewrite HasChunk_GetChunk, Hr in Hid by done. rewrite Hr by done.
    destruct (decide (_ ∧ _)) as [[_ ->]|]; [by exists c|].
    apply Hok; [done|done|]. by rewrite HasChunk_GetChunk.
  - intros id Hl Hid. rewrite HasChunk_GetChunk, Hr by done. destruct (decide (_ ∧ _)); [done|].
    by rewrite <- HasChunk_GetChunk.
  - intros Ho. rewrite HasChunk_GetChunk, Hr by apply Hh. by rewrite decide_True.
Qed.

(** *** Growth: chunks stay, sessions keep their terms *)

Definition same_terms (s s' : PendingSession) : Prop :=
  pd_ExpectedChunks s' = pd_ExpectedChunks s ∧ pd_Manifest s' = pd_Manifest s ∧
  pd_ManifestBytes s' = pd_ManifestBytes s ∧ pd_ContentID s' = pd_ContentID s.

Record grows (st st' : PushState) : Prop := {
  gr_fs : ∀ id, length id = 32%nat → HasChunk id (pu_fs st) = true → HasChunk id (pu_fs st') = true;
  gr_heap : ∀ ptr s, pu_heap st !! ptr = Some s → ∃ s', pu_heap st' !! ptr = Some s' ∧ same_terms s s';
}.

Lemma chunk_due_grows st st' ptr c : grows st st' → chunk_due st ptr c → chunk_due st' ptr c.
Proof.
  intros [_ Hh] [H1 H2 (s & Hs & He & Hm)]. destruct (Hh _ _ Hs) as (s' & Hs' & E1 & E2 & _).
  split; [done|done|]. exists s'. by rewrite E1, E2.
Qed.

Lemma upload_ok_grows st st' u : grows st st' → upload_ok st u → upload_ok st' u.
Proof.
  intros Hg. destruct u as [ptr c|ptr c|ptr c h todo|ptr c|c|ptr id]; simpl.
  1,2,4: by apply chunk_due_grows.
  - intros [H1 H2]. split; [by eapply chunk_due_grows|done].
  - done.
  - destruct Hg as [Hf Hh]. intros (H1 & H2 & s & Hs & He & Hm).
    destruct (Hh _ _ Hs) as (s' & Hs' & E1 & E2 & _). split_and!; [done|by apply Hf|].
    exists s'. by rewrite E1, E2.
Qed.

Lemma uploads_grow st st' fl : grows st st' → Forall (upload_ok st) fl → Forall (upload_ok st') fl.
Proof. intros Hg H. eapply Forall_impl; [exact H|]. intros u. by apply upload_ok_grows. Qed.

Lemma session_ok_grows fs fs' s :
  (∀ id, length id = 32%nat → HasChunk id fs = true → HasChunk id fs' = true) →
  session_ok fs s → session_ok fs' s.
Proof.
  intros Hf [H1 H2 H3]. split; [done..|]. intros id Hid. destruct (H3 id Hid) as (? & ? & ?). auto.
Qed.

(** Another file system under the same sessions. *)
Lemma set_fs_wf R R' fs' st :
  (∀ id, length id = 32%nat → HasChunk id (pu_fs st) = true → HasChunk id fs' = true) →
  store_but R' fs' → push_wf R st → push_wf R' (set_fs fs' st) ∧ grows st (set_fs fs' st).
Proof.
  intros Hf Hs [H1 H2 H3]. split; [split; simpl; [done|done|]|split; [done|]].
  - intros ptr s Hp. destruct (H3 _ _ Hp). split; [done|]. by eapply session_ok_grows.
  - intros ptr s Hp. by exists s.
Qed.

Lemma open_session_wf R cid m data assigned st :
  Deserialize data = Ok m → cd_ID (mf_Descriptor m) = cid → push_wf R st →
  push_wf R (open_session cid m data assigned st) ∧ grows st (open_session cid m data assigned st).
Proof.
  intros Hd Hc [H1 H2 H3]. simpl in *.
  assert (Hfresh : pu_heap st !! pu_next st = None).
  { destruct (pu_heap st !! pu_next st) as [s|] eqn:E; [|done]. apply H3 in E as [? _]. lia. }
  split; split; simpl; [done| | |done|].
  - intros cid' ptr. destruct (decide (cid' = cid)) as [->|Hne].
    + rewrite lookup_insert_eq. intros [= <-]. eexists. by rewrite lookup_insert_eq.
    + rewrite lookup_insert_ne by done. intros Hs. destruct (H2 _ _ Hs) as (s & Hp & He). exists s.
      rewrite lookup_insert_ne; [done|]. intros <-. congruence.
  - intros ptr s. destruct (decide (ptr = pu_next st)) as [->|Hne].
    + rewrite lookup_insert_eq. intros [= <-]. split; [lia|]. split; simpl; [done|done|]. set_solver.
    + rewrite lookup_insert_ne by done. intros Hs. destruct (H3 _ _ Hs). split; [lia|done].
  - intros ptr s Hs. exists s. rewrite lookup_insert_ne; [done|]. intros <-. congruence.
Qed.

Lemma chunk_check_ok cid c st ptr :
  chunk_check cid c st = inr ptr →
  sha256 (ck_Data c) = hd_ID (ck_Header c) ∧
  ∃ s, pu_sessions st !! cid = Some ptr ∧ pu_heap st !! ptr = Some s ∧
    hd_ID (ck_Header c) ∈ pd_ExpectedChunks s ∧ hd_ID (ck_Header c) ∈ mf_ChunkIDs (pd_Manifest s).
Proof.
  unfold chunk_check. destruct (pu_sessions st !! cid) as [p|]; [|done].
  destruct (pu_heap st !! p) as [s|] eqn:Hp; [|done].
  destruct (decide (hd_ID _ ∉ pd_ExpectedChunks s)) as [|H1%dec_stable]; [done|].
  destruct (decide (hd_ID _ ∉ mf_ChunkIDs _)) as [|H2%dec_stable]; [done|].
  destruct (decide (sha256 _ ≠ _)) as [|H3%dec_stable]; [done|]. intros [= <-]. eauto 10.
Qed.

Lemma chunk_store_wf R c st st' ok :
  header_typed (ck_Header c) → sha256 (ck_Data c) = hd_ID (ck_Header c) → push_wf R st →
  chunk_store c st = (st', ok) →
  push_wf R st' ∧ grows st st' ∧ (ok = true → HasChunk (hd_ID (ck_Header c)) (pu_fs st') = true).
Proof.
  intros Hh Hs Hwf E.
  destruct (chunk_store_spec R c st st' ok Hh Hs (pw_store _ _ Hwf) E) as (Hok & -> & Hk & Hhas).
  destruct (set_fs_wf R R (pu_fs st') st Hk Hok Hwf). split_and!; done.
Qed.

Lemma commit_wf R ptr id st :
  upload_ok st (Stored ptr id) → push_wf R st →
  push_wf R (chunk_commit ptr id st) ∧ grows st (chunk_commit ptr id st).
Proof.
  intros (Hl & Hhas & s0 & Hs0 & He & Hm) [H1 H2 H3].
  split; split; simpl; [done| | |done|].
  - intros cid p Hp. destruct (H2 _ _ Hp) as (s & Hs & Hc). rewrite lookup_alter.
    case_decide as Hd; [subst; rewrite Hs; eexists; by split|]. by exists s.
  - intros p s. rewrite lookup_alter. case_decide as Hd.
    + subst. rewrite Hs0. intros [= <-]. destruct (H3 _ _ Hs0) as [Hn [S1 S2 S3]]. split; [done|].
      split; [done|done|]. simpl. intros i [->%elem_of_singleton|Hi]%elem_of_union; [done|]. by apply S3.
    + intros Hs. by apply H3.
  - intros p s Hs. rewrite lookup_alter.
    case_decide; [subst; rewrite Hs; eexists; by split|]. by exists s.
Qed.

Lemma chunk_store_sessions c st :
  pu_heap (chunk_store c st).1 = pu_heap st ∧ pu_sessions (chunk_store c st).1 = pu_sessions st.
Proof. unfold chunk_store. destruct (HasChunk _ _); [done|]. by destruct (PutChunk _ _ _ _). Qed.

(** The outcome of a completion request, and what a success guarantees. *)
Lemma batch_complete_cases cid st st' status :
  batch_complete cid st = (st', status) →
  (status = PushStatusOK ∧ ∃ ptr s, pu_sessions st !! cid = Some ptr ∧ pu_heap st !! ptr = Some s ∧
     pd_ExpectedChunks s ⊆ pd_CommittedChunks s ∧
     st' = {| pu_fs := (PutManifestBytes cid (pd_ManifestBytes s) (pu_fs st)).1; pu_heap := pu_heap st;
              pu_sessions := delete cid (pu_sessions st); pu_next := pu_next st |}) ∨
  (status ≠ PushStatusOK ∧ ∃ fs', st' = set_fs fs' st ∧
     (fs' = pu_fs st ∨ ∃ part, fs' = <[manifestPath cid := part]> (pu_fs st))).
Proof.
  assert (Hsame : ∃ fs', st = set_fs fs' st ∧
     (fs' = pu_fs st ∨ ∃ part, fs' = <[manifestPath cid := part]> (pu_fs st)))
    by (exists (pu_fs st); split; [by destruct st|by left]).
  unfold batch_complete. destruct (pu_sessions st !! cid) as [ptr|]; [|by intros [= <- <-]; right].
  destruct (pu_heap st !! ptr) as [s|] eqn:Hp; [|by intros [= <- <-]; right].
  destruct (bool_decide (pd_ExpectedChunks s ⊆ pd_CommittedChunks s)) eqn:Ha; simpl;
    [|by intros [= <- <-]; right].
  apply bool_decide_eq_true in Ha. case_bool_decide; [by intros [= <- <-]; right|].
  destruct (manifest_fault cid) as [e|].
  - intros [= <- <-]. right. split; [done|]. eexists. split; [done|]. destruct e; simpl; eauto.
  - intros [= <- <-]. left. split; [done|]. by exists ptr, s.
Qed.

(** Completion touches no chunk and no temporary file. *)
Lemma batch_complete_files cid st st' status id :
  batch_complete cid st = (st', status) → length id = 32%nat →
  GetChunk id (pu_fs st') = GetChunk id (pu_fs st) ∧ HasChunk id (pu_fs st') = HasChunk id (pu_fs st) ∧
  pu_fs st' !! tmp_of id = pu_fs st !! tmp_of id.
Proof.
  intros Hb Hl.
  assert (Ht : ∀ data, <[manifestPath cid := data]> (pu_fs st) !! tmp_of id = pu_fs st !! tmp_of id).
  { intros data. apply lookup_insert_ne. intros E.
    apply (manifest_not_under_chunk id cid ("." +:+ format_int pid +:+ ".tmp") Hl). symmetry. exact E. }
  destruct (batch_complete_cases _ _ _ _ Hb)
    as [(_ & ptr & s & _ & _ & _ & ->)|(_ & fs' & -> & [->|[part ->]])]; cbn -[GetChunk HasChunk tmp_of].
  - destruct (GetChunk_manifest id cid (pd_ManifestBytes s) (pu_fs st) Hl). by rewrite Ht.
  - done.
  - destruct (GetChunk_manifest id cid part (pu_fs st) Hl). by rewrite Ht.
Qed.

Lemma batch_complete_wf R cid st st' status :
  batch_complete cid st = (st', status) → push_wf R st → push_wf R st' ∧ grows st st'.
Proof using pid MC manifest_fault.
  intros Hb Hwf. pose proof (λ id, batch_complete_files _ _ _ _ id Hb) as Hf.
  assert (Hs : store_but R (pu_fs st')).
  { intros id Hl Hn. destruct (Hf id Hl) as (-> & -> & _). by apply Hwf. }
  assert (Hk : ∀ id, length id = 32%nat → HasChunk id (pu_fs st) = true → HasChunk id (pu_fs st') = true)
    by (intros id Hl; by destruct (Hf id Hl) as (_ & -> & _)).
  destruct (set_fs_wf R R (pu_fs st') st Hk Hs Hwf) as [[W1 W2 W3] [G1 G2]]. simpl in *.
  apply batch_complete_cases in Hb as [(_ & ptr & s & _ & _ & _ & ->)|(_ & fs' & -> & _)].
  - split; split; simpl in *; [done| |done|done|done]. intros cid' p [_ Hp']%lookup_delete_Some. by apply W2.
  - by split.
Qed.

(** *** The uploads in flight *)

Lemma tmp_of_inj a b : length a = 32%nat → length b = 32%nat → tmp_of a = tmp_of b → a = b.
Proof.
  clear put_fault manifest_fault. intros Ha Hb H.
  unfold tmp_of, tmp_path in H. apply string_app_inj_r in H. by apply pathForChunk_inj.
Qed.

Lemma upload_length st u id : upload_ok st u → holder u = Some id → length id = 32%nat.
Proof.
  destruct u; simpl; intros Hu [= <-]; [apply Hu|apply Hu|done].
Qed.

Lemma file_ok_ext fs fs' u id :
  holder u = Some id → fs' !! tmp_of id = fs !! tmp_of id → file_ok fs u → file_ok fs' u.
Proof. destruct u; simpl; intros [= <-] E; by rewrite ?E. Qed.

Lemma held_relink f fl : held (relink f <$> fl) = held fl.
Proof. unfold held. induction fl as [|u fl IH]; [done|]. destruct u; first [exact IH|exact (f_equal (cons _) IH)]. Qed.

Lemma held_elem u id fl : u ∈ fl → holder u = Some id → id ∈ held fl.
Proof. intros Hu Hh. apply list_elem_of_omap. eauto. Qed.

Lemma single_mono (R R' : gset (list byte)) l :
  R ⊆ R' → NoDup (filter (.∉ R) l) → NoDup (filter (.∉ R') l).
Proof.
  intros HR. induction l as [|id l IH]; [done|]. rewrite !filter_cons.
  destruct (decide (id ∉ R)) as [H1|H1], (decide (id ∉ R')) as [H2|H2].
  - intros [Hn Hd]%NoDup_cons. constructor; [|by apply IH]. intros [_ Hi]%list_elem_of_filter.
    apply Hn. by apply list_elem_of_filter.
  - intros [_ Hd]%NoDup_cons. by apply IH.
  - exfalso. apply H1. intros Hi. by apply H2, HR.
  - apply IH.
Qed.

Lemma streams_perm st fl fl' R : fl ≡ₚ fl' → streams_wf (st, fl, R) → streams_wf (st, fl', R).
Proof.
  intros Hp [H1 H2 H3 H4]. simpl in *. assert (Hh : held fl ≡ₚ held fl') by (unfold held; by rewrite Hp).
  split; simpl; [done|by rewrite <- Hp| |by rewrite <- Hh]. intros u id Hu. apply H3. by rewrite Hp.
Qed.

(** One upload apart from the others. *)
Lemma streams_cons st u fl R :
  streams_wf (st, u :: fl, R) ↔
  upload_ok st u ∧ streams_wf (st, fl, R) ∧
  (∀ id, holder u = Some id → id ∉ R → file_ok (pu_fs st) u ∧ id ∉ held fl).
Proof.
  split.
  - intros [H1 H2 H3 H4]. simpl in *. apply Forall_cons in H2 as [Hu H2]. split_and!; [done| |].
    + split; simpl; [done|done| |]. { intros v id Hv. apply H3. by right. }
      unfold held in H4. simpl in H4. destruct (holder u) as [id|]; [|done].
      rewrite filter_cons in H4. destruct (decide _); [by apply NoDup_cons in H4 as []|done].
    + intros id Hid Hn. split; [apply (H3 u id); [left|done|done]|]. unfold held in *. simpl in H4.
      rewrite Hid, filter_cons_True in H4 by done. apply NoDup_cons in H4 as [H4 _]. intros Hi.
      apply H4, list_elem_of_filter. by split.
  - intros (Hu & [H1 H2 H3 H4] & Hf). simpl in *. split; simpl; [done|by constructor| |].
    + intros v id [->|Hv]%elem_of_cons Hid Hn; [by destruct (Hf id)|by eapply H3].
    + unfold held in *. simpl. destruct (holder u) as [id|]; [|done]. rewrite filter_cons.
      destruct (decide _) as [Hn|]; [|done]. constructor; [|done].
      intros [_ Hi]%list_elem_of_filter. by destruct (Hf id eq_refl Hn).
Qed.

(** A change of the sessions that keeps the temporary files. *)
Lemma streams_state st st' fl R :
  push_wf R st' → grows st st' → (∀ id, length id = 32%nat → pu_fs st' !! tmp_of id = pu_fs st !! tmp_of id) →
  streams_wf (st, fl, R) → streams_wf (st', fl, R).
Proof.
  intros Hwf Hg Ht [H1 H2 H3 H4]. simpl in *. split; simpl; [done|by eapply uploads_grow| |done].
  intros u id Hu Hid Hn. eapply file_ok_ext; [done| |by eapply H3]. apply Ht.
  rewrite Forall_forall in H2. eapply upload_length; [by apply H2|done].
Qed.

(** The names an upload holds survive a change of the files of another chunk. *)
Lemma relink_ok st fs' f id u :
  grows st (set_fs fs' st) → length id = 32%nat → own_name id (f (tmp_of id)) → own_name id (f (pathForChunk id)) →
  (∀ p, p ≠ tmp_of id → p ≠ pathForChunk id → f p = Some p) →
  upload_ok st u → upload_ok (set_fs fs' st) (relink f u).
Proof.
  intros Hg Hl Ht Hp Hf Hu%(upload_ok_grows _ _ _ Hg). revert Hu.
  generalize (set_fs fs' st). clear Hg. intros st' Hu.
  destruct u as [ptr c|ptr c|ptr c [name off] todo|ptr c|c|ptr i]; try done.
  simpl in *. destruct Hu as [Hd Hn]. split; [done|]. pose proof (ht_id _ (du_typed _ _ _ Hd)) as Hc.
  fold (chunk_id c) in Hc. destruct Hn as [->|Hn]; [by left|].
  destruct (decide (chunk_id c = id)) as [<-|Hne].
  - by destruct Hn as [->| ->]; simpl.
  - assert (tmp_of (chunk_id c) ≠ tmp_of id) by (intros E; by apply Hne, tmp_of_inj).
    assert (pathForChunk (chunk_id c) ≠ pathForChunk id) by (intros E; by apply Hne, pathForChunk_inj).
    destruct Hn as [->| ->]; simpl.
    + rewrite Hf; [by right; left|done|by apply tmp_path_not_chunk].
    + rewrite Hf; [by right; right| |done]. intros E. by apply (tmp_path_not_chunk pid id (chunk_id c)).
Qed.

Lemma relink_file fs f id u :
  (∀ p, p ≠ tmp_of id → p ≠ pathForChunk id → f p = Some p) → holder u ≠ Some id →
  (∀ i, holder u = Some i → length i = 32%nat) → length id = 32%nat →
  file_ok fs u → file_ok fs (relink f u).
Proof.
  intros Hf Hh Hl Hid. destruct u as [| |ptr c [name off] todo| | |]; try done. simpl.
  intros [-> Hw]. split; [|done]. simpl. specialize (Hl _ eq_refl).
  apply Hf; [|by apply tmp_path_not_chunk]. intros E. apply Hh. simpl. f_equal. by apply tmp_of_inj.
Qed.

(** A step of an upload of [id] that changes only the files of [id]. *)
Lemma streams_touch st fs' f id fl R R' :
  streams_wf (st, fl, R) → length id = 32%nat → R ⊆ R' → (id ∉ R' → id ∉ held fl) →
  (∀ p, p ≠ tmp_of id → p ≠ pathForChunk id → fs' !! p = pu_fs st !! p) →
  (∀ p, p ≠ tmp_of id → p ≠ pathForChunk id → f p = Some p) →
  own_name id (f (tmp_of id)) → own_name id (f (pathForChunk id)) →
  (HasChunk id (pu_fs st) = true → HasChunk id fs' = true) →
  (id ∉ R' → HasChunk id fs' = true → ∃ c, GetChunk id fs' = Ok c ∧ sha256 (ck_Data c) = id) →
  streams_wf (set_fs fs' st, relink f <$> fl, R') ∧ grows st (set_fs fs' st).
Proof.
  clear put_fault manifest_fault.
  intros [H1 H2 H3 H4] Hl HR Hheld Hfs Hf Ht Hp Hhas Hgood. simpl in *.
  assert (Hother : ∀ i, length i = 32%nat → i ≠ id →
    GetChunk i fs' = GetChunk i (pu_fs st) ∧ HasChunk i fs' = HasChunk i (pu_fs st)).
  { intros i Hi Hne. apply GetChunk_ext, Hfs.
    - intros E. by apply (tmp_path_not_chunk pid id i).
    - intros E. by apply Hne, pathForChunk_inj. }
  destruct (set_fs_wf R R' fs' st) as [Hwf Hg]; [| |done|].
  { intros i Hi. destruct (decide (i = id)) as [->|Hne]; [done|]. by destruct (Hother i Hi Hne) as [_ ->]. }
  { intros i Hi Hn. destruct (decide (i = id)) as [->|Hne]; [by apply Hgood|].
    destruct (Hother i Hi Hne) as [-> ->]. apply (pw_store _ _ H1); [done|set_solver]. }
  split; [|done]. rewrite Forall_forall in H2.
  split; simpl; [done| | |by rewrite held_relink; eapply single_mono].
  - apply Forall_fmap, Forall_forall. intros u Hu. simpl. eapply relink_ok; eauto.
  - intros v i (u & -> & Hu)%list_elem_of_fmap Hi Hn.
    assert (Hi' : holder u = Some i) by (by destruct u).
    assert (Hli : ∀ j, holder u = Some j → length j = 32%nat) by (intros j; eapply upload_length; eauto).
    assert (Hne : i ≠ id) by (intros ->; apply (Hheld Hn); by eapply held_elem).
    eapply relink_file; [done|congruence|done|done|].
    eapply file_ok_ext; [done| |eapply H3; [done|done|set_solver]].
    apply Hfs; [intros E; by apply Hne, tmp_of_inj; eauto|by apply tmp_path_not_chunk; eauto].
Qed.
(** *** The steps *)

Lemma relink_same (fl : list upload) : relink Some <$> fl = fl.
Proof.
  induction fl as [|u fl IH]; [done|]. rewrite fmap_cons, IH. f_equal.
  by destruct u as [| |ptr c [[name|] off] todo| | |].
Qed.

Lemma own_tmp id : own_name id (Some (tmp_of id)).
Proof. right. by left. Qed.
Lemma own_path id : own_name id (Some (pathForChunk id)).
Proof. right. by right. Qed.

(** A step of an upload of [id] that changes only its temporary file. *)
Lemma streams_tmp st fs' f id fl R R' :
  streams_wf (st, fl, R) → length id = 32%nat → R ⊆ R' → (id ∉ R' → id ∉ held fl) →
  (∀ p, p ≠ tmp_of id → fs' !! p = pu_fs st !! p) →
  (∀ p, p ≠ tmp_of id → f p = Some p) → own_name id (f (tmp_of id)) →
  streams_wf (set_fs fs' st, relink f <$> fl, R') ∧ grows st (set_fs fs' st).
Proof.
  intros Hwf Hl HR Hheld Hfs Hf Ht.
  assert (Hp : pathForChunk id ≠ tmp_of id) by (intros E; by apply (tmp_path_not_chunk pid id id)).
  destruct (GetChunk_ext id (pu_fs st) fs' (Hfs _ Hp)) as [Eg Eh].
  apply (streams_touch st fs' f id fl R R'); try done; [auto..|rewrite Hf by done; apply own_path|by rewrite Eh|].
  rewrite Eg, Eh. intros Hn. apply (pw_store _ _ (sw_state _ Hwf)); [done|]. intros Hi. by apply Hn, HR.
Qed.

Lemma due_length st ptr c : chunk_due st ptr c → length (chunk_id c) = 32%nat.
Proof. intros H. apply (ht_id _ (du_typed _ _ _ H)). Qed.

Lemma create_wf ptr c st fl R :
  streams_wf (st, Absent ptr c :: fl, R) →
  streams_wf (set_fs (<[tmp_of (chunk_id c) := []]> (pu_fs st)) st,
    Writing ptr c {| h_name := Some (tmp_of (chunk_id c)); h_off := 0 |} (file_of c) :: fl,
    raced_by (chunk_id c) fl ∪ R).
Proof.
  intros (Hu & Hwf & _)%streams_cons. simpl in Hu. pose proof (due_length _ _ _ Hu) as Hl.
  set (id := chunk_id c) in *. set (R' := raced_by id fl ∪ R).
  assert (Hheld : id ∉ R' → id ∉ held fl).
  { intros Hn Hi. apply Hn, elem_of_union. left. unfold raced_by. rewrite decide_True by done.
    by apply elem_of_singleton. }
  destruct (streams_tmp st (<[tmp_of id := []]> (pu_fs st)) Some id fl R R') as [Hwf' Hg]; try done.
  { by apply union_subseteq_r. }
  { intros p Hp. by rewrite lookup_insert_ne. }
  { apply own_tmp. }
  rewrite relink_same in Hwf'. apply streams_cons. split_and!; [|done|].
  - split; [by eapply chunk_due_grows|apply own_tmp].
  - intros i [= <-] Hn. split; [|by apply Hheld]. split; [done|]. exists []. simpl.
    by rewrite lookup_insert_eq.
Qed.

Lemma write_append off bs file : off = length file → write_at off bs file = file ++ bs.
Proof.
  intros ->. unfold write_at. rewrite take_ge, Nat.sub_diag, drop_ge by lia. by rewrite app_nil_r.
Qed.

Lemma write_file_lookup h bs fs p :
  write_file h bs fs !! p = if decide (h_name h = Some p) then write_at (h_off h) bs <$> fs !! p else fs !! p.
Proof.
  unfold write_file. destruct (h_name h) as [q|]; [|by rewrite decide_False].
  rewrite lookup_alter. destruct (decide (q = p)) as [->|Hne]; [by rewrite decide_True|].
  rewrite decide_False; [done|]. by intros [= ->].
Qed.

Lemma write_wf ptr c h bs todo st fl R :
  streams_wf (st, Writing ptr c h (bs ++ todo) :: fl, R) →
  streams_wf (set_fs (write_file h bs (pu_fs st)) st,
    Writing ptr c {| h_name := h_name h; h_off := h_off h + length bs |} todo :: fl, R).
Proof.
  intros ((Hu & Hn) & Hwf & Hf)%streams_cons. pose proof (due_length _ _ _ Hu) as Hl.
  specialize (Hf _ eq_refl). set (id := chunk_id c) in *.
  assert (Hp : pathForChunk id ≠ tmp_of id) by (intros E; by apply (tmp_path_not_chunk pid id id)).
  destruct (streams_touch st (write_file h bs (pu_fs st)) Some id fl R R) as [Hwf' Hg]; try done.
  { intros Hr. by apply Hf. }
  { intros p H1 H2. rewrite write_file_lookup. rewrite decide_False; [done|].
    intros E. rewrite E in Hn. destruct Hn as [|[|]]; simplify_eq. }
  { apply own_tmp. } { apply own_path. }
  { unfold HasChunk. rewrite !bool_decide_eq_true, write_file_lookup.
    intros [x Hx]. rewrite Hx. case_decide; eauto. }
  { intros Hr. destruct (Hf Hr) as [[Hname _] _].
    destruct (GetChunk_ext id (pu_fs st) (write_file h bs (pu_fs st))) as [-> ->].
    - rewrite write_file_lookup, decide_False; [done|]. rewrite Hname. intros [= E]. by apply Hp.
    - by apply (pw_store _ _ (sw_state _ Hwf)). }
  rewrite relink_same in Hwf'. apply streams_cons. split_and!; [|done|].
  - split; [by eapply chunk_due_grows|done].
  - intros i [= <-] Hr. destruct (Hf Hr) as [(Hname & w & Hw & Ho & He) Hh]. split; [|done].
    split; [done|]. exists (w ++ bs). simpl. rewrite write_file_lookup, decide_True by done.
    rewrite Hw. simpl. rewrite write_append, length_app, <- app_assoc by done. by rewrite Ho.
Qed.

Lemma sync_wf ptr c h st fl R :
  streams_wf (st, Writing ptr c h [] :: fl, R) → streams_wf (st, Synced ptr c :: fl, R).
Proof.
  intros ((Hu & Hn) & Hwf & Hf)%streams_cons. apply streams_cons. split_and!; [done|done|].
  intros i Hi Hr. destruct (Hf i Hi Hr) as [(Hname & w & Hw & Ho & He) Hh]. split; [|done].
  rewrite app_nil_r in He. simpl. by rewrite Hw, He.
Qed.

Lemma fault_wf ptr c h todo st fl R :
  streams_wf (st, Writing ptr c h todo :: fl, R) → streams_wf (st, Failing c :: fl, R).
Proof.
  intros ((Hu & Hn) & Hwf & Hf)%streams_cons. apply streams_cons.
  split_and!; [by eapply due_length|done|]. intros i Hi Hr. by destruct (Hf i Hi Hr).
Qed.

Lemma remove_wf c st fl R :
  streams_wf (st, Failing c :: fl, R) →
  streams_wf (set_fs (delete (tmp_of (chunk_id c)) (pu_fs st)) st,
    relink (removed (tmp_of (chunk_id c))) <$> fl, R).
Proof.
  intros (Hl & Hwf & Hf)%streams_cons. simpl in Hl. eapply streams_tmp; [done|done|done| | | |].
  - intros Hr. by apply (Hf _ eq_refl).
  - intros p Hp. by rewrite lookup_delete_ne.
  - intros p Hp. unfold removed. by rewrite decide_False.
  - unfold removed. rewrite decide_True by done. by left.
Qed.

Lemma rename_wf ptr c file st fl R :
  streams_wf (st, Synced ptr c :: fl, R) → pu_fs st !! tmp_of (chunk_id c) = Some file →
  streams_wf (set_fs (<[pathForChunk (chunk_id c) := file]> (delete (tmp_of (chunk_id c)) (pu_fs st))) st,
    Stored ptr (chunk_id c) ::
      (relink (renamed (tmp_of (chunk_id c)) (pathForChunk (chunk_id c))) <$> fl), R).
Proof.
  intros (Hu & Hwf & Hf)%streams_cons Hfile. simpl in Hu. pose proof (due_length _ _ _ Hu) as Hl.
  specialize (Hf _ eq_refl). set (id := chunk_id c) in *.
  assert (Hp : pathForChunk id ≠ tmp_of id) by (intros E; by apply (tmp_path_not_chunk pid id id)).
  set (fs' := <[_ := _]> _).
  assert (Hhas : HasChunk id fs' = true)
    by (apply bool_decide_eq_true; unfold fs'; rewrite lookup_insert_eq; eauto).
  destruct (streams_touch st fs' (renamed (tmp_of id) (pathForChunk id)) id fl R R) as [Hwf' Hg]; try done.
  { intros Hr. by apply Hf. }
  { intros p H1 H2. unfold fs'. by rewrite lookup_insert_ne, lookup_delete_ne. }
  { intros p H1 H2. unfold renamed. by rewrite !decide_False. }
  { unfold renamed. rewrite decide_True by done. apply own_path. }
  { unfold renamed. rewrite decide_False, decide_True by done. by left. }
  { intros Hr _. destruct (Hf Hr) as [Hw _]. simpl in Hw. fold id in Hw. exists c.
    split; [|apply Hu]. unfold GetChunk, fs'. rewrite lookup_insert_eq.
    replace file with (file_of c) by congruence. unfold file_of.
    rewrite decode_encode_header by apply Hu. by destruct c. }
  apply streams_cons. split_and!; [|done|done]. split_and!; [done|done|]. apply Hu.
Qed.

Lemma push_step_wf x y : push_step x y → streams_wf x → streams_wf y.
Proof.
  intros Hxy Hwf. pose proof (sw_state _ Hwf) as Hst.
  destruct Hxy; simpl in Hst; try apply (streams_perm _ _ _ _ H) in Hwf.
  - destruct (open_session_wf R cid m data assigned st) as [? ?]; [done..|]. by eapply streams_state.
  - apply streams_cons. split_and!; [|done|done].
    apply chunk_check_ok in H0 as (Hs & s & _ & Hp & He & Hm). split; [done|done|]. by exists s.
  - apply streams_cons in Hwf as (Hu & Hwf & _). apply streams_cons.
    destruct has; (split_and!; [|done|done]); [|done]. destruct Hu as [Ht Hs Hl].
    split_and!; [apply Ht|by apply H0|done].
  - by apply create_wf.
  - by eapply write_wf.
  - by eapply sync_wf.
  - by eapply fault_wf.
  - by apply remove_wf.
  - by eapply rename_wf.
  - by apply streams_cons in Hwf as (_ & Hwf & _).
  - apply streams_cons in Hwf as (Hu & Hwf & _).
    destruct (commit_wf R ptr id st Hu Hst) as [? ?]. by eapply streams_state.
  - destruct (batch_complete_wf R cid st st' status H Hst) as [? ?]. eapply streams_state; [done|done| |done].
    intros id Hl. by apply (batch_complete_files _ _ _ _ id H).
Qed.

Definition push_init (fs : FS) : PushState :=
  {| pu_fs := fs; pu_heap := ∅; pu_sessions := ∅; pu_next := 0 |}.

Lemma push_init_wf fs : store_but ∅ fs → push_wf ∅ (push_init fs).
Proof. intros H. split; simpl; [done|by intros ?? ?%lookup_empty_Some..]. Qed.

Lemma push_reachable fs x : store_but ∅ fs → rtc push_step (push_init fs, [], ∅) x → streams_wf x.
Proof.
  intros H. apply rtc_invariant; [apply push_step_wf|]. split; [by apply push_init_wf|done| |constructor].
  by intros u id ?%elem_of_nil.
Qed.

(** C25: However the streams of a provider interleave, down to the system calls of
    its store, a batch is acknowledged as complete only when every assigned
    chunk is listed in the manifest and has a file in the store, which holds
    data that hash to the chunk's identifier unless two streams have had the
    chunk's temporary file open at once; the manifest, which names the content
    it is stored under, is then readable and the session is gone, so that
    completing again is refused.  A refused completion changes no session and
    no chunk. *)
Theorem push_complete_safe fs0 st fl raced cid st' status :
  store_but ∅ fs0 → rtc push_step (push_init fs0, [], ∅) (st, fl, raced) →
  batch_complete cid st = (st', status) →
  (status = PushStatusOK →
   ∃ ptr s, pu_sessions st !! cid = Some ptr ∧ pu_heap st !! ptr = Some s ∧
     GetManifestBytes cid (pu_fs st') = Ok (pd_ManifestBytes s) ∧
     Deserialize (pd_ManifestBytes s) = Ok (pd_Manifest s) ∧ cd_ID (mf_Descriptor (pd_Manifest s)) = cid ∧
     (∀ id, id ∈ pd_ExpectedChunks s →
        id ∈ mf_ChunkIDs (pd_Manifest s) ∧ HasChunk id (pu_fs st') = true ∧
        (id ∉ raced → ∃ c, GetChunk id (pu_fs st') = Ok c ∧ sha256 (ck_Data c) = id)) ∧
     batch_complete cid st' = (st', PushStatusIncomplete)) ∧
  (status ≠ PushStatusOK → pu_sessions st' = pu_sessions st ∧ pu_heap st' = pu_heap st ∧
     ∀ id, length id = 32%nat → GetChunk id (pu_fs st') = GetChunk id (pu_fs st)).
Proof.
  intros Hok Hr E. apply push_reachable in Hr as [[H1 H2 H3] _ _ _]; [|done]. simpl in *.
  pose proof (λ id, batch_complete_files _ _ _ _ id E) as Hfiles.
  destruct (batch_complete_cases _ _ _ _ E) as [(-> & ptr & s & Hp & Hs & Hc & ->)|(Hn & fs' & -> & _)].
  2:{ split; [done|]. intros _. split_and!; [done|done|]. intros id Hl. by apply Hfiles. }
  split; [|done]. intros _. exists ptr, s. destruct (H2 _ _ Hp) as (s' & Hs' & Hcid).
  rewrite Hs in Hs'. injection Hs' as <-. destruct (H3 _ _ Hs) as [_ [S1 S2 S3]].
  split_and!; [done|done| |done|congruence| |].
  - cbn [pu_fs]. rewrite GetManifestBytes_Put. by rewrite decide_True.
  - intros id Hid%Hc. destruct (S3 id Hid) as (Hl & Hhas & _ & Hm).
    destruct (Hfiles id Hl) as (-> & -> & _). split_and!; [done|done|]. intros Hn. by apply H1.
  - unfold batch_complete. cbn [pu_sessions]. by rewrite lookup_delete_eq.
Qed.

(** A stream that stores a chunk while no other stream stores one takes the
    steps whose outcome [chunk_store] is. *)
Lemma chunk_store_steps ptr c st st' ok R :
  chunk_store c st = (st', ok) →
  rtc push_step (st, [Checked ptr c], R) (st', if ok then [Stored ptr (chunk_id c)] else [], R).
Proof.
  unfold chunk_store. change (hd_ID (ck_Header c)) with (chunk_id c).
  destruct (HasChunk (chunk_id c) (pu_fs st)) eqn:Eh.
  { intros [= <- <-]. apply rtc_once. by apply (step_stat ptr c true). }
  assert (H0 : rtc push_step (st, [Checked ptr c], R) (st, [Absent ptr c], R))
    by (apply rtc_once; by apply (step_stat ptr c false)).
  set (tmp := tmp_of (chunk_id c)). set (h n := {| h_name := Some tmp; h_off := n |}).
  assert (H1 : rtc push_step (st, [Checked ptr c], R)
    (set_fs (<[tmp := []]> (pu_fs st)) st, [Writing ptr c (h 0%nat) (file_of c)], R)).
  { eapply rtc_r; [exact H0|]. replace R with (raced_by (chunk_id c) [] ∪ R) at 2
      by (unfold raced_by; rewrite decide_False by (by apply not_elem_of_nil); apply union_empty_l_L).
    by apply step_create. }
  assert (H2 : rtc push_step (st, [Checked ptr c], R)
    (set_fs (<[tmp := file_of c]> (pu_fs st)) st, [Synced ptr c], R)).
  { eapply rtc_r; [eapply rtc_r; [exact H1|]|by apply (step_sync ptr c (h (0 + length (file_of c))%nat))].
    replace (<[tmp := file_of c]> (pu_fs st))
      with (write_file (h 0%nat) (file_of c) (<[tmp := []]> (pu_fs st))).
    - refine (step_write ptr c (h 0%nat) (file_of c) [] (set_fs (<[tmp := []]> (pu_fs st)) st) _ [] R _).
      by rewrite app_nil_r.
    - unfold write_file. simpl. rewrite alter_insert_eq, write_append by done. done. }
  assert (H3 : rtc push_step (st, [Checked ptr c], R) (set_fs (delete tmp (pu_fs st)) st, [], R)).
  { eapply rtc_r; [eapply rtc_r; [exact H1|by eapply (step_fault ptr c)]|].
    rewrite <- (delete_insert_eq (pu_fs st) tmp []). by refine (step_remove c (set_fs (<[tmp := []]> (pu_fs st)) st) _ [] R _). }
  destruct (PutChunk _ _ _ _) as [fs' r] eqn:Ep. intros [= <- <-]. unfold PutChunk in Ep.
  fold (file_of c) in Ep. change (tmp_path _ _) with tmp in Ep.
  assert (Hsame : set_fs (pu_fs st) st = st) by (by destruct st).
  destruct (put_fault (chunk_id c)) as [[[] e]|]; injection Ep as <- <-; cbn [is_ok].
  1,2: rewrite Hsame; eapply rtc_r; [exact H0|]; eapply step_refuse; [done|by left].
  1-3: exact H3.
  - eapply rtc_r; [exact H2|]. eapply step_refuse; [done|by right].
  - eapply rtc_r; [exact H2|]. rewrite <- (delete_insert_eq (pu_fs st) tmp (file_of c)).
    refine (step_rename ptr c (file_of c) (set_fs (<[tmp := file_of c]> (pu_fs st)) st) _ [] R _ _); [done|]. simpl. by rewrite lookup_insert_eq.
Qed.

(** A stream that is not authorized is told so and touches nothing. *)
Lemma push_unauthorized policy peer st :
  pp_allowPush policy = false ∨
    (pp_authPolicy policy = AuthPolicyAllowlist ∧ peer ∉ pp_allowedPublishers policy) →
  ∃ m, handleStream policy peer st = Send m (λ _, Ret (st, false)) ∧ p_Type m = MsgPushError.
Proof.
  unfold handleStream. intros [->|Hd]; [by eexists|]. destruct (pp_allowPush policy); [|by eexists].
  simpl. rewrite decide_True by done. by eexists.
Qed.
End handler.

(** ** Messages on the stream *)

Definition pwritable (m : PushMessage) : result () :=
  match WritePushMessage m with Ok _ => Ok tt | Err e => Err e end.
Definition preceive (m : PushMessage) : result PushMessage :=
  match WritePushMessage m with Ok bs => (ReadPushMessage bs).2 | Err e => Err e end.

Lemma zlen_push_envelope msg : zlen (push_envelope msg) = 3 + zlen (p_Payload msg).
Proof. unfold push_envelope, zlen. rewrite !length_app, length_le16. simpl length. lia. Qed.

Definition push_fits (m : PushMessage) : Prop :=
  is_u16 (p_Version m) ∧ is_u8 (p_Type m) ∧ 3 + zlen (p_Payload m) <= MaxMessageSize.

(** A message within the limit is written and read back exactly, whatever
    follows it on the stream. *)
Lemma ReadPush_WritePush m rest :
  push_fits m → ∃ bs, WritePushMessage m = Ok bs ∧ ReadPushMessage (bs ++ rest) = (rest, Ok m).
Proof.
  intros (Hv & Ht & Hl). unfold MaxMessageSize in Hl. pose proof (zlen_nonneg (p_Payload m)).
  pose proof (zlen_push_envelope m) as He. unfold WritePushMessage.
  rewrite u32_id by (unfold is_u32; lia). rewrite decide_False by (unfold MaxMessageSize; lia).
  eexists. split; [done|]. unfold ReadPushMessage, rd_bind. rewrite <- app_assoc.
  rewrite rd_full_app by apply length_le32. rewrite le_val_le32 by (unfold is_u32; lia).
  rewrite !decide_False by (unfold MaxMessageSize; lia).
  rewrite rd_full_app by (unfold zlen; lia). f_equal. unfold push_envelope.
  rewrite ReadFull_app by apply length_le16. cbn [rbind]. rewrite ReadFull_app by done. cbn [rbind].
  rewrite le_val_le16, le_val_byte by done. by destruct m.
Qed.

Lemma push_transfer m : push_fits m → pwritable m = Ok tt ∧ preceive m = Ok m.
Proof.
  intros Hm. destruct (ReadPush_WritePush m [] Hm) as (bs & Hw & Hr). rewrite app_nil_r in Hr.
  unfold pwritable, preceive. by rewrite Hw, Hr.
Qed.

Lemma split_ids_concat ids rest :
  Forall (λ i, length i = 32%nat) ids →
  split_ids (length ids) (concat ids ++ rest) = ids ∧
  drop (32 * length ids) (concat ids ++ rest) = rest ∧ length (concat ids) = (32 * length ids)%nat.
Proof.
  induction 1 as [|i ids Hi Hall IH]; [done|]. destruct IH as (IH1 & IH2 & IH3).
  cbn [concat length split_ids]. rewrite <- app_assoc. split_and!.
  - rewrite take_app_length', drop_app_length' by done. by rewrite IH1.
  - rewrite Nat.mul_succ_r, Nat.add_comm, <- drop_drop, drop_app_length' by done. done.
  - rewrite length_app, Hi, IH3. lia.
Qed.

(** The payloads round-trip. *)
Lemma ParsePushManifest_Build cid ids data :
  length cid = 32%nat → Forall (λ i, length i = 32%nat) ids → is_u32 (zlen ids) →
  ParsePushManifest (p_Payload (BuildPushManifest cid ids data)) = Ok (cid, ids, data).
Proof.
  intros Hc Hi Hn. destruct (split_ids_concat ids data Hi) as (E1 & E2 & E3).
  unfold ParsePushManifest. cbn [BuildPushManifest push_message p_Payload].
  assert (Hlen : zlen (cid ++ le32 (u32 (zlen ids)) ++ concat ids ++ data) =
    36 + 32 * zlen ids + zlen data).
  { rewrite !zlen_app. unfold zlen. rewrite Hc, length_le32, E3. lia. }
  pose proof (zlen_nonneg ids). pose proof (zlen_nonneg data). rewrite Hlen.
  rewrite decide_False by lia.
  rewrite drop_app_length', (take_app_length' (le32 _)) by (try done; by rewrite length_le32).
  rewrite u32_id, le_val_le32 by done. rewrite decide_False by lia.
  rewrite take_app_length' by done.
  assert (H36 : drop 36 (cid ++ le32 (zlen ids) ++ concat ids ++ data) = concat ids ++ data)
    by (rewrite app_assoc, drop_app_length' by (by rewrite length_app, length_le32, Hc); done).
  replace (Z.to_nat (36 + zlen ids * 32)) with (36 + 32 * length ids)%nat by (unfold zlen; lia).
  rewrite <- drop_drop, H36, E2. unfold zlen. by rewrite Nat2Z.id, E1.
Qed.

Lemma ParsePushChunk_Build cid c :
  length cid = 32%nat → header_typed (ck_Header c) →
  ParsePushChunk (p_Payload (BuildPushChunk cid c)) = Ok (cid, c).
Proof.
  intros Hc Hh. unfold ParsePushChunk. cbn [BuildPushChunk push_message p_Payload].
  rewrite decide_False.
  - rewrite drop_app_length', take_app_length' by done. rewrite decode_encode_header by done.
    simpl. by destruct c.
  - rewrite !zlen_app. unfold zlen. rewrite Hc, length_encode_header by done. lia.
Qed.

Lemma parse_ack_ok what id : length id = 32%nat → parse_ack what (id ++ [byte_of_Z 0]) = Ok (id, 0).
Proof.
  intros H. unfold parse_ack. rewrite decide_False by (rewrite zlen_app; unfold zlen; rewrite H; simpl; lia).
  by rewrite take_app_length', drop_app_length'.
Qed.

Lemma ack_response_ok what ackType parse id mm rj ack :
  p_Type ack = ackType → ackType ≠ MsgPushError → parse (p_Payload ack) = Ok (id, PushStatusOK) →
  ack_response what ackType parse id mm rj (Ok ack) = Ret (Ok tt).
Proof.
  intros <- Hne Hp. unfold ack_response. rewrite Hp, decide_False by done.
  rewrite !decide_False by (intros H; by apply H). done.
Qed.

(** ** One request and its acknowledgement *)

Section exchange.
Context {MC : ManifestCodec} (pid : Z) (put_fault : list byte → option (put_call * error)).
Context (manifest_fault : list byte → option manifest_failure).
Abbreviation loop := (push_loop pid put_fault manifest_fault).
Abbreviation step := (session_step pwritable preceive loop).
Abbreviation idle p st := {| c_client := p; c_server := loop st; c_up := []; c_down := [] |}.

(** How the loop answers an incoming request of the current version. *)
Definition answer (st : PushState) (req : PushMessage) : pproto (PushState * bool) :=
  match loop st with Recv k => k (Ok req) | p => p end.

Lemma exchange_run {B} (p p' : pproto B) k k2 req ack st st' :
  p = Send req k → k (Ok tt) = Recv k2 → k2 (Ok ack) = p' → push_fits req → push_fits ack →
  answer st req = Send ack (λ _, Ret (st', true)) →
  rtc step (idle p st) (idle p' st').
Proof.
  intros -> Hk <- [Wr Rr]%push_transfer [Wa Ra]%push_transfer Ha.
  eapply rtc_l; [apply client_send|]. unfold push; rewrite Wr; cbn [is_ok app]. rewrite Hk.
  eapply rtc_l; [apply server_recv|]. rewrite Rr. unfold answer, push_loop in Ha. rewrite Ha.
  eapply rtc_l; [apply server_send|]. unfold push; rewrite Wa; cbn [is_ok app].
  eapply rtc_l; [apply client_recv|]. rewrite Ra.
  eapply rtc_l; [apply server_loop|]. done.
Qed.

(** The acknowledgements of a provider in the three steps of an upload. *)
Lemma answer_manifest cid ids data m st :
  length cid = 32%nat → Forall (λ i, length i = 32%nat) ids → is_u32 (zlen ids) →
  Deserialize data = Ok m → cd_ID (mf_Descriptor m) = cid →
  answer st (BuildPushManifest cid ids data) =
  Send (BuildPushManifestAck cid PushStatusOK) (λ _, Ret (open_session cid m data ids st, true)).
Proof.
  intros Hc Hi Hn Hd Hm. unfold answer, push_loop.
  rewrite decide_False by (intros H; by apply H). rewrite decide_True by done.
  unfold handlePushManifest. rewrite ParsePushManifest_Build, Hd by done.
  rewrite decide_False by (intros H; by apply H). done.
Qed.

Lemma answer_chunk cid c ptr st st' :
  length cid = 32%nat → header_typed (ck_Header c) →
  chunk_check cid c st = inr ptr → chunk_store pid put_fault c st = (st', true) →
  answer st (BuildPushChunk cid c) =
  Send (BuildPushChunkAck (hd_ID (ck_Header c)) PushStatusOK)
    (λ _, Ret (chunk_commit ptr (hd_ID (ck_Header c)) st', true)).
Proof.
  intros Hc Hh Hck Hst. unfold answer, push_loop.
  rewrite decide_False by (intros H; by apply H). rewrite decide_False by done.
  rewrite decide_True by done. unfold handlePushChunk. by rewrite ParsePushChunk_Build, Hck, Hst by done.
Qed.

Lemma answer_complete cid st st' status :
  length cid = 32%nat → batch_complete manifest_fault cid st = (st', status) →
  answer st (BuildPushBatchComplete cid) =
  Send (BuildPushBatchCompleteAck cid status) (λ _, Ret (st', true)).
Proof.
  intros Hc Hb. unfold answer, push_loop.
  rewrite decide_False by (intros H; by apply H). do 2 rewrite decide_False by done.
  rewrite decide_True by done. unfold handlePushBatchComplete, ParsePushBatchComplete.
  cbn [BuildPushBatchComplete push_message p_Payload].
  rewrite decide_False by (unfold zlen; lia). by rewrite Hb.
Qed.
End exchange.

(** ** Witnesses *)

Definition wp_cid : list byte := replicate 32 x05.
Definition wp_chunk : Chunk :=
  {| ck_Header := {| hd_Version := 1; hd_ID := sha256 [x61]; hd_Index := 0; hd_Offset := 0;
       hd_PlainSize := 1; hd_CipherSize := 1; hd_Nonce := replicate 12 x00 |}; ck_Data := [x61] |}.
Definition wp_manifest : Manifest :=
  {| mf_Version := 1; mf_Descriptor := {| cd_ID := wp_cid; cd_Type := "file"; cd_Size := 1 |};
     mf_ChunkIDs := [sha256 [x61]]; mf_MerkleRoot := []; mf_WholeHash := [];
     mf_Crypto := {| cy_Algorithm := ""; cy_Version := 1; cy_ChunkNonceSize := 12; cy_KeyID := "" |} |}.
Definition wp_bytes : list byte := Serialize wp_manifest.

Lemma wp_decodes : Deserialize wp_bytes = Ok wp_manifest.
Proof.
  apply Deserialize_Serialize. split; [done|]. apply Forall_singleton, length_sha256.
Qed.

Lemma wp_header_typed : header_typed (ck_Header wp_chunk).
Proof. split; cbn; try (by split); try done. Qed.

Lemma empty_store_ok : store_but ∅ ∅.
Proof. intros id _ _ H. discriminate H. Qed.

Definition wp_open : PushState :=
  open_session wp_cid wp_manifest wp_bytes [sha256 [x61]] (push_init ∅).

Abbreviation wp_step := (push_step 1 (λ _, None)).

Lemma wp_checked fs fl R :
  wp_step (set_fs fs wp_open, fl, R) (set_fs fs wp_open, Checked 0 wp_chunk :: fl, R).
Proof.
  apply (step_check _ _ wp_cid); [apply wp_header_typed|].
  unfold chunk_check. cbn [wp_open set_fs open_session pu_sessions pu_heap pu_next push_init].
  rewrite !lookup_insert_eq.
  cbn [pd_ExpectedChunks pd_Manifest mf_ChunkIDs wp_manifest wp_chunk ck_Header hd_ID ck_Data].
  rewrite decide_False by set_solver. rewrite decide_False by set_solver.
  rewrite decide_False by (intros H; by apply H). done.
Qed.

Lemma wp_opened : wp_step (push_init ∅, [], ∅) (set_fs ∅ wp_open, [], ∅).
Proof.
  apply (step_manifest _ _ wp_cid wp_manifest wp_bytes [sha256 [x61]]); [apply wp_decodes|done|done].
Qed.

Lemma push_complete_safe_witness :
  ∃ st', batch_complete (λ _, None) wp_cid
           (chunk_commit 0 (sha256 [x61]) (chunk_store 1 (λ _, None) wp_chunk wp_open).1) = (st', PushStatusOK) ∧
         is_ok (GetChunk (sha256 [x61]) (pu_fs st')) = true.
Proof.
  set (st1 := (chunk_store 1 (λ _, None) wp_chunk wp_open).1).
  set (st2 := chunk_commit 0 (sha256 [x61]) st1).
  assert (Hr : rtc wp_step (push_init ∅, [], ∅) (st2, [], ∅)).
  { eapply rtc_l; [apply wp_opened|]. eapply rtc_l; [apply wp_checked|].
    eapply rtc_r; [apply (chunk_store_steps 1 (λ _, None) (λ _, None) 0 wp_chunk wp_open st1 true)|].
    { apply injective_projections; [reflexivity|cbn [snd]; vm_compute; reflexivity]. }
    by apply (step_commit _ _ 0%nat (sha256 [x61])). }
  destruct (chunk_store_sessions 1 (λ _, None) wp_chunk wp_open) as [Hheap Hsess]. fold st1 in Hheap, Hsess.
  assert (Hp : pu_sessions st2 !! wp_cid = Some 0%nat).
  { cbn [st2 chunk_commit pu_sessions]. rewrite Hsess. apply lookup_insert_eq. }
  assert (Hs : pd_ExpectedChunks <$> pu_heap st2 !! 0%nat = Some (list_to_set [sha256 [x61]])).
  { cbn [st2 chunk_commit pu_heap]. rewrite Hheap, lookup_alter_eq.
    cbn [wp_open open_session pu_heap push_init pu_next]. by rewrite lookup_insert_eq. }
  destruct (batch_complete (λ _, None) wp_cid st2) as [st' status] eqn:E.
  assert (Hok : status = PushStatusOK).
  { apply (f_equal snd) in E. cbn [snd] in E. rewrite <- E. vm_compute. reflexivity. }
  subst status.
  destruct (push_complete_safe 1 (λ _, None) ∅ st2 [] ∅ wp_cid st' PushStatusOK empty_store_ok Hr E) as [H _].
  destruct (H eq_refl) as (ptr & s & Hp' & Hs' & _ & _ & _ & Hc & _). exists st'. split; [done|].
  rewrite Hp in Hp'. injection Hp' as <-. rewrite Hs' in Hs. apply (inj Some) in Hs.
  destruct (Hc (sha256 [x61])) as (_ & _ & Hg).
  - rewrite Hs. apply elem_of_list_to_set. by left.
  - by destruct (Hg (not_elem_of_empty _)) as (c & -> & _).
Defined.

(** Two streams that push the same chunk at once: the second truncates the
    temporary file of the first just before the first renames it, and its own
    write then fails.  The batch is acknowledged with an empty file in place of
    the chunk, which [HasChunk] from then on takes for the chunk. *)
Lemma racing_streams_tear :
  ∃ st st' R, rtc wp_step (push_init ∅, [], ∅) (st, [], R) ∧
    batch_complete (λ _, None) wp_cid st = (st', PushStatusOK) ∧
    HasChunk (sha256 [x61]) (pu_fs st') = true ∧ is_ok (GetChunk (sha256 [x61]) (pu_fs st')) = false.
Proof.
  set (id := sha256 [x61]). set (tmp := tmp_of 1 id). set (bytes := file_of wp_chunk).
  set (h n := {| h_name := Some tmp; h_off := n |}).
  set (h' := {| h_name := Some tmp ≫= renamed tmp (pathForChunk id); h_off := 0 |}).
  set (A := Absent 0 wp_chunk). set (W fs := set_fs fs wp_open).
  set (fs2 := write_file (h 0%nat) bytes (<[tmp := []]> ∅)). set (fs3 := <[tmp := []]> fs2).
  set (fs4 := delete tmp fs3). set (fs5 := <[pathForChunk id := []]> fs4).
  set (R := raced_by id [Synced 0 wp_chunk] ∪ (raced_by id [A] ∪ ∅)).
  set (st := set_fs (delete tmp fs5) (chunk_commit 0 id (W fs5))).
  exists st, (batch_complete (λ _, None) wp_cid st).1, R. split.
  - eapply rtc_l; [apply wp_opened|]. do 2 (eapply rtc_l; [apply wp_checked|]).
    do 2 (eapply rtc_l; [apply (step_stat _ _ 0%nat wp_chunk false); [|done];
                         first [reflexivity|apply Permutation_swap]|]).
    eapply rtc_l; [refine (step_create _ _ 0%nat wp_chunk _ _ [A] _ _); reflexivity|].
    eapply rtc_l; [refine (step_write _ _ 0%nat wp_chunk (h 0%nat) bytes [] (W (<[tmp := []]> ∅)) _ [A] _ _);
                   by rewrite app_nil_r|].
    eapply rtc_l; [refine (step_sync _ _ 0%nat wp_chunk _ (W fs2) _ [A] _ _); reflexivity|].
    eapply rtc_l; [refine (step_create _ _ 0%nat wp_chunk (W fs2) _ [Synced 0 wp_chunk] _ _);
                   apply Permutation_swap|].
    eapply rtc_l; [refine (step_rename _ _ 0%nat wp_chunk [] (W fs3) _ [Writing 0 wp_chunk (h 0%nat) bytes] _ _ _);
                   [apply Permutation_swap|apply lookup_insert_eq]|].
    eapply rtc_l; [refine (step_commit _ _ 0%nat id (W fs5) _ _ _ _); reflexivity|].
    eapply rtc_l; [refine (step_fault _ _ 0%nat wp_chunk h' bytes (chunk_commit 0 id (W fs5)) _ [] _ _);
                   exact (Permutation_refl [Writing 0 wp_chunk h' bytes])|].
    eapply rtc_l; [refine (step_remove _ _ wp_chunk (chunk_commit 0 id (W fs5)) _ [] _ _); reflexivity|].
    reflexivity.
  - split; [|split; vm_compute; reflexivity]. apply injective_projections; [reflexivity|]. vm_compute. reflexivity.
Qed.
