(* ===== verification/Distribution.v ===== *)
(** * Distribution of a file to providers

    network/distribution: planner.go (which provider gets which chunk),
    tracker.go (the replicas committed so far) and uploader.go (uploading over
    push sessions, with failover).  Providers are identified by their peer
    identifier, chunks by their hash. *)

From S2P Require Import Prelude Sha256 Content ChunkProtocol Session Push.

Abbreviation ChunkID := (list byte).
Abbreviation PeerID := string.

(** ** planner.go *)

Record PlacementPlan := {
  pl_ContentID : list byte;
  pl_Manifest : Manifest;
  pl_Assignments : gmap ChunkID (list PeerID);
  pl_ProviderChunks : gmap PeerID (list ChunkID);
  pl_Replication : Z;
}.

(** [m[k] = append(m[k], v)] *)
Definition append_at `{Countable K} {A} (k : K) (v : A) (m : gmap K (list A)) : gmap K (list A) :=
  <[k := default [] (m !! k) ++ [v]]> m.

Abbreviation placement := (gmap ChunkID (list PeerID) * gmap PeerID (list ChunkID))%type.

Definition place_one (providers : list PeerID) (i : nat) (chunkID : ChunkID) (acc : placement) (r : nat)
    : placement :=
  let targetIndex := ((i + r) mod length providers)%nat in
  match providers !! targetIndex with
  | Some p => (append_at chunkID p acc.1, append_at p chunkID acc.2)
  | None => acc
  end.

Definition place_chunk (providers : list PeerID) (replication : nat) (acc : placement)
    (x : nat * ChunkID) : placement :=
  let '(i, chunkID) := x in
  foldl (place_one providers i chunkID) (<[chunkID := []]> acc.1, acc.2) (seq 0 replication).

Definition PlanPlacement (m : Manifest) (providers : list PeerID) (replication : Z)
    : result PlacementPlan :=
  if decide (zlen providers = 0) then Err (New "no providers provided for placement")
  else if decide (replication <= 0) then
    Err (New ("replication factor must be greater than zero, got " +:+ format_int replication))
  else if decide (replication > zlen providers) then
    Err (New "replication factor cannot exceed provider count")
  else if decide (zlen (mf_ChunkIDs m) = 0) then Err (New "manifest contains zero chunks")
  else
    let pc0 := foldl (λ pc p, <[p := []]> pc) ∅ providers in
    let '(a, pc) := foldl (place_chunk providers (Z.to_nat replication)) (∅, pc0)
                      (imap pair (mf_ChunkIDs m)) in
    Ok {| pl_ContentID := cd_ID (mf_Descriptor m); pl_Manifest := m; pl_Assignments := a;
          pl_ProviderChunks := pc; pl_Replication := replication |}.

(** ** tracker.go *)

Inductive ReplicaState := ReplicaPending | ReplicaUploading | ReplicaCommitted | ReplicaFailed.
#[global] Instance ReplicaState_eq_dec : EqDecision ReplicaState.
Proof. solve_decision. Defined.

Record GlobalReplicaTracker := {
  gt_state : gmap ChunkID (gmap PeerID ReplicaState);
  gt_requiredR : Z;
}.

Definition NewGlobalReplicaTracker (requiredR : Z) : GlobalReplicaTracker :=
  {| gt_state := ∅; gt_requiredR := requiredR |}.

Definition SetStatus (chunkID : ChunkID) (p : PeerID) (status : ReplicaState)
    (t : GlobalReplicaTracker) : GlobalReplicaTracker :=
  {| gt_state := <[chunkID := <[p := status]> (default ∅ (gt_state t !! chunkID))]> (gt_state t);
     gt_requiredR := gt_requiredR t |}.

(** [t.state[chunkID][p]]; a missing entry reads as the zero value. *)
Definition status_of (t : GlobalReplicaTracker) (chunkID : ChunkID) (p : PeerID) : option ReplicaState :=
  gt_state t !! chunkID ≫= lookup p.

Definition CommittedCount (chunkID : ChunkID) (t : GlobalReplicaTracker) : Z :=
  zlen (filter (λ x, x.2 = ReplicaCommitted) (map_to_list (default ∅ (gt_state t !! chunkID)))).

Definition IsChunkSatisfied (chunkID : ChunkID) (t : GlobalReplicaTracker) : bool :=
  bool_decide (CommittedCount chunkID t >= gt_requiredR t).

Fixpoint IsComplete (chunkIDs : list ChunkID) (t : GlobalReplicaTracker) : bool :=
  match chunkIDs with
  | [] => true
  | id :: rest =>
      if decide (CommittedCount id t < gt_requiredR t) then false else IsComplete rest t
  end.

Definition GetSummary (chunkIDs : list ChunkID) (t : GlobalReplicaTracker) : Z * Z :=
  (zlen (filter (λ id, CommittedCount id t >= gt_requiredR t) chunkIDs), zlen chunkIDs).

(** ** uploader.go *)

Record UploaderConfig := { uc_MaxRetriesPerChunk : nat; uc_FailoverRounds : nat }.

(** The status updates of one upload, in order, for its target peer. *)
Abbreviation event := (ChunkID * ReplicaState)%type.

(** The retry loop: no attempt leaves [sendErr] nil. *)
Fixpoint send_attempts (attempts : nat) (contentID : list byte) (chunk : Chunk) : pproto (result ()) :=
  match attempts with
  | O => Ret (Ok tt)
  | S n =>
      do! r := SendChunk contentID chunk in
      match r, n with
      | Err _, S _ => send_attempts n contentID chunk
      | _, _ => Ret r
      end
  end.

(** The chunk loop: [ev] are the updates made so far, [n] is [committedInBatch]. *)
Fixpoint upload_chunks (fs : FS) (maxRetries : nat) (contentID : list byte) (chunks : list ChunkID)
    (ev : list event) (n : nat) : pproto (list event * nat) :=
  match chunks with
  | [] => Ret (ev, n)
  | chunkID :: rest =>
      match GetChunk chunkID fs with
      | Err _ => upload_chunks fs maxRetries contentID rest (ev ++ [(chunkID, ReplicaFailed)]) n
      | Ok chunkData =>
          let ev := ev ++ [(chunkID, ReplicaUploading)] in
          do! sendErr := send_attempts maxRetries contentID chunkData in
          match sendErr with
          | Err _ => upload_chunks fs maxRetries contentID rest (ev ++ [(chunkID, ReplicaFailed)]) n
          | Ok _ => upload_chunks fs maxRetries contentID rest (ev ++ [(chunkID, ReplicaCommitted)]) (S n)
          end
      end
  end.

(** [uploadToProvider] on an open stream: its updates, and whether the batch
    was completed (only logged by the code). *)
Definition uploadToProvider (fs : FS) (maxRetries : nat) (contentID : list byte)
    (chunks : list ChunkID) (manifestBytes : list byte) : pproto (list event * bool) :=
  do! r := SendManifest contentID chunks manifestBytes in
  match r with
  | Err _ => Ret ((λ cid, (cid, ReplicaFailed)) <$> chunks, false)
  | Ok _ =>
      do! (ev, committedInBatch) := upload_chunks fs maxRetries contentID chunks [] 0 in
      if decide (committedInBatch = length chunks) then
        do! c := SendBatchComplete contentID in Ret (ev, is_ok c)
      else Ret (ev, false)
  end.

(** The updates when the stream cannot be opened. *)
Definition upload_unreachable (chunks : list ChunkID) : list event :=
  (λ cid, (cid, ReplicaFailed)) <$> chunks.

(** The goroutine for one peer: the stream does not open, or the upload runs
    against what the peer does.  The push client sets deadlines, so a peer that
    stays silent is a failing read.  The updates, and the messages exchanged. *)
Definition upload_with (peer : result (Transcript PushMessage)) (fs : FS) (maxRetries : nat)
    (contentID manifestBytes : list byte) (chunks : list ChunkID) : list event * list (io PushMessage) :=
  match peer with
  | Err _ => (upload_unreachable chunks, [])
  | Ok tr =>
      let '(r, t, _) := replay (uploadToProvider fs maxRetries contentID chunks manifestBytes) tr in (r.1, t)
  end.

Definition apply_events (p : PeerID) (ev : list event) (t : GlobalReplicaTracker) : GlobalReplicaTracker :=
  foldl (λ t e, SetStatus e.1 p e.2 t) t ev.

(** One parallel phase: [upload p chunks] are the updates of the goroutine
    for peer [p].  The goroutines are run one after the other here;
    [uploads_commute] shows that their interleaving does not matter. *)
Definition run_uploads (upload : PeerID → list ChunkID → list event)
    (work : list (PeerID * list ChunkID)) (t : GlobalReplicaTracker) : GlobalReplicaTracker :=
  foldl (λ t x, if decide (x.2 = []) then t else apply_events x.1 (upload x.1 x.2) t) t work.

(** The search for providers that take over a chunk in a failover round. *)
Fixpoint reassign (cid : ChunkID) (needed : Z) (active : list PeerID)
    (acc : gmap PeerID (list ChunkID) * GlobalReplicaTracker)
    : gmap PeerID (list ChunkID) * GlobalReplicaTracker :=
  match active with
  | [] => acc
  | p :: active' =>
      if decide (needed <= 0) then acc
      else
        let status := default ReplicaPending (status_of acc.2 cid p) in
        if decide (status ≠ ReplicaCommitted ∧ status ≠ ReplicaUploading) then
          reassign cid (needed - 1) active' (append_at p cid acc.1, SetStatus cid p ReplicaPending acc.2)
        else reassign cid needed active' acc
  end.

Definition plan_round (replication : Z) (allChunks : list ChunkID) (active : list PeerID)
    (t : GlobalReplicaTracker) : gmap PeerID (list ChunkID) * GlobalReplicaTracker :=
  foldl (λ acc cid,
    let needed := replication - CommittedCount cid acc.2 in
    if decide (needed <= 0) then acc else reassign cid needed active acc) (∅, t) allChunks.

Fixpoint failover (rounds : nat) (upload : nat → PeerID → list ChunkID → list event)
    (replication : Z) (allChunks : list ChunkID) (active : list PeerID) (t : GlobalReplicaTracker)
    : GlobalReplicaTracker :=
  match rounds with
  | O => t
  | S n =>
      if IsComplete allChunks t then t
      else
        let '(reassignments, t1) := plan_round replication allChunks active t in
        if decide (reassignments = ∅) then t1
        else failover n upload replication allChunks active
               (run_uploads (upload n) (map_to_list reassignments) t1)
  end.

(** [Distribute].  [upload k] are the uploads of the phase with [k] rounds to
    go; the manifest bytes were read from the local store. *)
Definition Distribute (manifestBytes : result (list byte)) (plan : PlacementPlan) (cfg : UploaderConfig)
    (upload : nat → PeerID → list ChunkID → list event) (tracker : GlobalReplicaTracker)
    : GlobalReplicaTracker * result () :=
  match manifestBytes with
  | Err e => (tracker, Err (Wrap "failed to get manifest bytes" e))
  | Ok _ =>
      let allChunks := mf_ChunkIDs (pl_Manifest plan) in
      let t0 := foldl (λ t x, foldl (λ t p, SetStatus x.1 p ReplicaPending t) t x.2) tracker
                  (map_to_list (pl_Assignments plan)) in
      let work := map_to_list (pl_ProviderChunks plan) in
      let active := fst <$> filter (λ x, x.2 ≠ []) work in
      let t1 := run_uploads (upload (S (uc_FailoverRounds cfg))) work t0 in
      if IsComplete allChunks t1 then (t1, Ok tt)
      else
        let t2 := failover (uc_FailoverRounds cfg) upload (pl_Replication plan) allChunks active t1 in
        if IsComplete allChunks t2 then (t2, Ok tt)
        else (t2, Err (New "replication invariant violation"))
  end.

(** ** Placement *)

(** The providers of the chunk at position [i], for the replica numbers [rs]. *)
Definition targets (providers : list PeerID) (i : nat) (rs : list nat) : list PeerID :=
  omap (λ r, providers !! ((i + r) mod length providers)%nat) rs.

Lemma append_at_eq `{Countable K} {A} (k : K) (v : A) m :
  default [] (append_at k v m !! k) = default [] (m !! k) ++ [v].
Proof. unfold append_at. by rewrite lookup_insert_eq. Qed.
Lemma append_at_ne `{Countable K} {A} (k k' : K) (v : A) m :
  k ≠ k' → append_at k v m !! k' = m !! k'.
Proof. intros. unfold append_at. by rewrite lookup_insert_ne. Qed.

Lemma place_replicas_spec providers i c rs a pc :
  let '(a', pc') := foldl (place_one providers i c) (a, pc) rs in
  default [] (a' !! c) = default [] (a !! c) ++ targets providers i rs ∧
  (∀ c', c' ≠ c → a' !! c' = a !! c') ∧
  ∀ p x, x ∈ default [] (pc' !! p) ↔
         x ∈ default [] (pc !! p) ∨ (x = c ∧ p ∈ targets providers i rs).
Proof.
  revert a pc. induction rs as [|r rs IH]; intros a pc; cbn [foldl].
  - split_and!; [by rewrite app_nil_r|done|]. intros p x. unfold targets. simpl.
    rewrite elem_of_nil. tauto.
  - unfold place_one at 2. unfold targets. cbn [omap list_omap]. fold (targets providers i rs).
    destruct (providers !! ((i + r) mod length providers)%nat) as [q|]; cbn [fst snd]; [|apply IH].
    specialize (IH (append_at c q a) (append_at q c pc)).
    destruct (foldl _ _ rs) as [a' pc']. destruct IH as (H1 & H2 & H3). split_and!.
    + rewrite H1, append_at_eq, <- app_assoc. done.
    + intros c' Hc. rewrite H2 by done. by apply append_at_ne.
    + intros p x. rewrite H3. destruct (decide (p = q)) as [->|Hp].
      * rewrite append_at_eq, elem_of_app, list_elem_of_singleton, elem_of_cons. tauto.
      * rewrite append_at_ne, elem_of_cons by done. tauto.
Qed.

(** The chunks of [l] are placed, everything else is as before. *)
Lemma place_chunks_spec providers R l a pc :
  NoDup l.*2 →
  let '(a', pc') := foldl (place_chunk providers R) (a, pc) l in
  (∀ i c, (i, c) ∈ l → default [] (a' !! c) = targets providers i (seq 0 R)) ∧
  (∀ c, c ∉ l.*2 → a' !! c = a !! c) ∧
  ∀ p x, x ∈ default [] (pc' !! p) ↔
         x ∈ default [] (pc !! p) ∨ ∃ i, (i, x) ∈ l ∧ p ∈ targets providers i (seq 0 R).
Proof.
  revert a pc. induction l as [|[i c] l IH]; intros a pc Hn; cbn [foldl].
  - split_and!; [set_solver|done|]. set_solver.
  - rewrite fmap_cons in Hn. apply NoDup_cons in Hn as [Hc Hn]. cbn [snd] in Hc.
    unfold place_chunk at 2. cbn [fst snd].
    pose proof (place_replicas_spec providers i c (seq 0 R) (<[c := []]> a) pc) as Hr.
    destruct (foldl (place_one _ _ _) _ _) as [a1 pc1]. destruct Hr as (R1 & R2 & R3).
    rewrite lookup_insert_eq in R1. simpl in R1.
    specialize (IH a1 pc1 Hn). destruct (foldl _ _ l) as [a' pc']. destruct IH as (H1 & H2 & H3).
    split_and!.
    + intros i' c' [E|Hin]%elem_of_cons; [|by apply H1]. injection E as -> ->. by rewrite H2, R1.
    + intros c' Hc'. rewrite fmap_cons, not_elem_of_cons in Hc'. destruct Hc' as [Hne Hc'].
      simpl in Hne. rewrite H2, R2, lookup_insert_ne by done. done.
    + intros p x. rewrite H3, R3. setoid_rewrite elem_of_cons. set_solver.
Qed.

Lemma targets_index (n i r r' : nat) :
  (r < n)%nat → (r' < n)%nat → ((i + r) mod n = (i + r') mod n)%nat → r = r'.
Proof.
  intros Hr Hr' H. assert (Hn : n ≠ 0%nat) by lia.
  pose proof (Nat.div_mod (i + r) n Hn). pose proof (Nat.div_mod (i + r') n Hn).
  pose proof (Nat.mod_upper_bound (i + r') n Hn).
  set (q := ((i + r) / n)%nat) in *. set (q' := ((i + r') / n)%nat) in *.
  destruct (Nat.lt_trichotomy q q') as [?|[?|?]]; nia.
Qed.

Lemma elem_of_targets providers i R p :
  p ∈ targets providers i (seq 0 R) ↔
  ∃ r, (r < R)%nat ∧ providers !! ((i + r) mod length providers)%nat = Some p.
Proof.
  unfold targets. rewrite list_elem_of_omap. setoid_rewrite elem_of_seq.
  split; intros (r & Hr & Hp); exists r; (split; [lia|done]).
Qed.

(** A chunk gets as many providers as requested, all different. *)
Lemma targets_spec providers i R :
  NoDup providers → (R <= length providers)%nat →
  length (targets providers i (seq 0 R)) = R ∧ NoDup (targets providers i (seq 0 R)).
Proof.
  intros Hn. induction R as [|R IH]; intros HR; [split; [done|constructor]|].
  destruct IH as [IH1 IH2]; [lia|]. rewrite seq_S. unfold targets in *. rewrite omap_app.
  destruct (lookup_lt_is_Some_2 providers ((i + R) mod length providers)%nat) as [p Hp];
    [apply Nat.mod_upper_bound; lia|].
  cbn [omap list_omap]. rewrite Nat.add_0_l, Hp. split.
  - rewrite length_app, IH1. simpl. lia.
  - apply NoDup_snoc; [done|]. intros (r & Hr & Hq)%elem_of_targets.
    pose proof (NoDup_lookup _ _ _ _ Hn Hq Hp) as E. apply targets_index in E; lia.
Qed.

Lemma imap_pair_lookup {A} (l : list A) i c : (i, c) ∈ imap pair l ↔ l !! i = Some c.
Proof.
  split.
  - intros (k & x & E & Hx)%elem_of_lookup_imap. by injection E as -> ->.
  - intros H. apply elem_of_lookup_imap. eauto.
Qed.

Lemma imap_pair_snd {A} (l : list A) : (imap pair l).*2 = l.
Proof. rewrite fmap_imap. apply imap_const || (apply list_eq; intros i; rewrite list_lookup_imap; by destruct (l !! i)). Qed.

Lemma initial_providers (providers : list PeerID) (pc : gmap PeerID (list ChunkID)) p x :
  (∀ q, default [] (pc !! q) = []) →
  x ∉ default [] (foldl (λ pc p, <[p := []]> pc) pc providers !! p).
Proof.
  revert pc. induction providers as [|q l IH]; intros pc Hpc; cbn [foldl].
  - rewrite Hpc. apply not_elem_of_nil.
  - apply IH. intros q'. destruct (decide (q = q')) as [->|]; [by rewrite lookup_insert_eq|].
    by rewrite lookup_insert_ne.
Qed.

(** A placement plan exists exactly for a non-empty manifest and a
    replication factor between one and the number of providers; the chunk at
    position [i] is then assigned to the [R] different providers at positions
    [i, i+1, ..., i+R-1] around the ring, and a provider is given exactly the
    chunks that are assigned to it. *)
Theorem PlanPlacement_correct m providers R :
  NoDup providers → NoDup (mf_ChunkIDs m) →
  (is_ok (PlanPlacement m providers R) = true ↔
     0 < R <= zlen providers ∧ mf_ChunkIDs m ≠ []) ∧
  ∀ plan, PlanPlacement m providers R = Ok plan →
    (∀ i c, mf_ChunkIDs m !! i = Some c → ∃ ps, pl_Assignments plan !! c = Some ps ∧
       zlen ps = R ∧ NoDup ps ∧
       ∀ p, p ∈ ps ↔ ∃ r, Z.of_nat r < R ∧ providers !! ((i + r) mod length providers)%nat = Some p) ∧
    (∀ p c, c ∈ default [] (pl_ProviderChunks plan !! p) ↔
       c ∈ mf_ChunkIDs m ∧ p ∈ default [] (pl_Assignments plan !! c)).
Proof.
  intros Hp Hc. unfold PlanPlacement. case_decide as H0; [split; [split; [done|lia]|done]|].
  case_decide as H1; [split; [split; [done|lia]|done]|].
  case_decide as H2; [split; [split; [done|lia]|done]|].
  case_decide as Hm; rewrite zlen_nil in Hm; [split; [split; [done|tauto]|done]|].
  set (pc0 := foldl _ ∅ providers).
  pose proof (place_chunks_spec providers (Z.to_nat R) (imap pair (mf_ChunkIDs m)) ∅ pc0) as Hpl.
  destruct (foldl (place_chunk providers (Z.to_nat R)) (∅, pc0) (imap pair (mf_ChunkIDs m))) as [a pc].
  rewrite imap_pair_snd in Hpl.
  destruct (Hpl Hc) as (A1 & A2 & A3). split; [split; [|done]; intros _; split; [lia|done]|].
  intros plan [= <-]. cbn [pl_Assignments pl_ProviderChunks].
  assert (HR : (Z.to_nat R <= length providers)%nat) by (unfold zlen in H2; lia).
  split.
  - intros i c Hi. apply imap_pair_lookup, A1 in Hi.
    destruct (targets_spec providers i (Z.to_nat R) Hp HR) as [L N].
    destruct (a !! c) as [ps|]; simpl in Hi; [|rewrite <- Hi in L; simpl in L; lia].
    exists ps. subst ps. split_and!; [done|unfold zlen; lia|done|]. intros p. rewrite elem_of_targets.
    split; intros (r & Hr & Hpr); exists r; (split; [lia|done]).
  - intros p c. rewrite A3. split.
    + intros [Hin|(i & Hin & Ht)]; [exfalso; revert Hin; apply initial_providers; intros q; by rewrite lookup_empty|].
      split; [apply imap_pair_lookup in Hin; by eapply list_elem_of_lookup_2|]. by rewrite (A1 _ _ Hin).
    + intros [(i & Hi)%list_elem_of_lookup Ht]. right. exists i. apply imap_pair_lookup in Hi.
      split; [done|]. by rewrite (A1 _ _ Hi) in Ht.
Qed.

Definition wit_plan_manifest : Manifest :=
  {| mf_Version := 1; mf_Descriptor := {| cd_ID := []; cd_Type := "file"; cd_Size := 3 |};
     mf_ChunkIDs := [[x01]; [x02]; [x03]]; mf_MerkleRoot := []; mf_WholeHash := [];
     mf_Crypto := {| cy_Algorithm := ""; cy_Version := 1; cy_ChunkNonceSize := 12; cy_KeyID := "" |} |}.
Lemma PlanPlacement_correct_witness :
  is_ok (PlanPlacement wit_plan_manifest ["p"; "q"; "r"] 2) = true ∧
  zlen (mf_ChunkIDs wit_plan_manifest) = 3.
Proof.
  split; [|reflexivity].
  apply (PlanPlacement_correct wit_plan_manifest ["p"; "q"; "r"] 2).
  - by apply (bool_decide_unpack (NoDup _)).
  - by apply (bool_decide_unpack (NoDup _)).
  - split; [done|discriminate].
Defined.

(** ** The tracker *)

Definition committed_peers (t : GlobalReplicaTracker) (c : ChunkID) : gset PeerID :=
  list_to_set (fst <$> filter (λ x, x.2 = ReplicaCommitted) (map_to_list (default ∅ (gt_state t !! c)))).

Lemma elem_of_committed t c p : p ∈ committed_peers t c ↔ status_of t c p = Some ReplicaCommitted.
Proof.
  unfold committed_peers, status_of. rewrite elem_of_list_to_set, list_elem_of_fmap. split.
  - intros ((q & s) & -> & [Hs Hin]%list_elem_of_filter). simpl in *. subst s.
    apply elem_of_map_to_list in Hin. by destruct (gt_state t !! c).
  - intros H. exists (p, ReplicaCommitted). split; [done|]. apply list_elem_of_filter. split; [done|].
    apply elem_of_map_to_list. by destruct (gt_state t !! c).
Qed.

Lemma CommittedCount_size t c : CommittedCount c t = Z.of_nat (size (committed_peers t c)).
Proof.
  unfold CommittedCount, committed_peers, zlen. rewrite size_list_to_set.
  - by rewrite length_fmap.
  - eapply sublist_NoDup; [apply (NoDup_fst_map_to_list (default ∅ (gt_state t !! c)))|].
    apply fmap_sublist, sublist_filter.
Qed.

Lemma IsComplete_iff ids t :
  IsComplete ids t = true ↔ ∀ c, c ∈ ids → gt_requiredR t <= Z.of_nat (size (committed_peers t c)).
Proof.
  induction ids as [|id ids IH]; cbn [IsComplete]; [split; [set_solver|done]|].
  rewrite CommittedCount_size. case_decide as H.
  - split; [done|]. intros Ha. specialize (Ha id ltac:(left)). lia.
  - rewrite IH. split.
    + intros Ha c [->|Hc]%elem_of_cons; [lia|by apply Ha].
    + intros Ha c Hc. apply Ha. by right.
Qed.

Lemma status_SetStatus t c p s c' p' :
  status_of (SetStatus c p s t) c' p' =
  if decide (c' = c ∧ p' = p) then Some s else status_of t c' p'.
Proof.
  unfold status_of, SetStatus. cbn [gt_state].
  destruct (decide (c' = c)) as [->|Hc].
  - rewrite lookup_insert_eq. simpl. destruct (decide (p' = p)) as [->|Hp].
    + rewrite lookup_insert_eq. by rewrite decide_True.
    + rewrite lookup_insert_ne by done. rewrite decide_False by tauto.
      by destruct (gt_state t !! c).
  - rewrite lookup_insert_ne by done. by rewrite decide_False by tauto.
Qed.

Lemma known_SetStatus t c p s c' :
  is_Some (gt_state (SetStatus c p s t) !! c') ↔ c' = c ∨ is_Some (gt_state t !! c').
Proof.
  unfold SetStatus. cbn [gt_state]. rewrite lookup_insert_is_Some'. naive_solver.
Qed.

(** Two trackers that answer alike are the same. *)
Lemma tracker_ext t t' :
  gt_requiredR t = gt_requiredR t' →
  (∀ c, is_Some (gt_state t !! c) ↔ is_Some (gt_state t' !! c)) →
  (∀ c p, status_of t c p = status_of t' c p) → t = t'.
Proof.
  intros HR Hk Hs. destruct t as [m R], t' as [m' R']. simpl in *. subst R'. f_equal.
  apply map_eq. intros c. specialize (Hk c). unfold status_of in Hs. simpl in Hs.
  destruct (m !! c) as [x|] eqn:E1, (m' !! c) as [y|] eqn:E2; simpl in *.
  - f_equal. apply map_eq. intros p. specialize (Hs c p). by rewrite E1, E2 in Hs.
  - destruct Hk as [Hk _]. by destruct (Hk ltac:(eauto)).
  - destruct Hk as [_ Hk]. by destruct (Hk ltac:(eauto)).
  - done.
Qed.

(** Updates of several uploads, each tagged with its peer. *)
Definition apply_tagged (es : list (PeerID * event)) (t : GlobalReplicaTracker) : GlobalReplicaTracker :=
  foldl (λ t x, SetStatus x.2.1 x.1 x.2.2 t) t es.

(** The last update of a chunk at a peer. *)
Definition last_status (c : ChunkID) (p : PeerID) (es : list (PeerID * event)) : option ReplicaState :=
  last (omap (λ x, if decide (x.1 = p ∧ x.2.1 = c) then Some x.2.2 else None) es).

Lemma apply_tagged_status es t c p :
  status_of (apply_tagged es t) c p =
  match last_status c p es with Some s => Some s | None => status_of t c p end.
Proof.
  unfold apply_tagged, last_status. induction es as [|[q [d s]] es IH] using rev_ind; [done|].
  rewrite foldl_app, omap_app. cbn [foldl omap list_omap fst snd]. rewrite status_SetStatus.
  destruct (decide (q = p ∧ d = c)) as [[-> ->]|Hd].
  - rewrite decide_True by done. by rewrite last_snoc.
  - rewrite decide_False by naive_solver. by rewrite app_nil_r.
Qed.

Lemma apply_tagged_known es t c :
  is_Some (gt_state (apply_tagged es t) !! c) ↔ c ∈ (λ x, x.2.1) <$> es ∨ is_Some (gt_state t !! c).
Proof.
  unfold apply_tagged. induction es as [|[q [d s]] es IH] using rev_ind; [set_solver|].
  rewrite foldl_app, fmap_app. cbn [foldl fst snd]. rewrite known_SetStatus, IH. set_solver.
Qed.

Lemma apply_tagged_R es t : gt_requiredR (apply_tagged es t) = gt_requiredR t.
Proof. revert t. induction es as [|e es IH]; intros t; [done|]. apply (IH (SetStatus _ _ _ _)). Qed.

(** What the updates do depends on each peer's own sequence only. *)
Lemma last_status_filter c p es :
  last_status c p es = last_status c p (filter (λ x, x.1 = p) es).
Proof.
  unfold last_status. f_equal. induction es as [|x es IH]; [done|].
  rewrite filter_cons. cbn [omap list_omap]. destruct (decide (x.1 = p)) as [Hx|Hx].
  - cbn [omap list_omap]. by destruct (decide (x.1 = p ∧ x.2.1 = c)); rewrite IH.
  - rewrite decide_False by tauto. done.
Qed.

(** Parallel uploads do not race on the tracker: any two interleavings of the
    uploads' status updates, which keep the order of each upload's own updates,
    leave the tracker in exactly the same state. *)
Theorem uploads_commute es es' t :
  (∀ p, filter (λ x, x.1 = p) es = filter (λ x, x.1 = p) es') →
  apply_tagged es t = apply_tagged es' t.
Proof.
  intros H. apply tracker_ext.
  - by rewrite !apply_tagged_R.
  - intros c. rewrite !apply_tagged_known.
    assert (Hsub : ∀ l l' : list (PeerID * event), (∀ p, filter (λ x, x.1 = p) l = filter (λ x, x.1 = p) l') →
              c ∈ (λ x, x.2.1) <$> l → c ∈ (λ x, x.2.1) <$> l').
    { intros l l' Hf (x & -> & Hx)%list_elem_of_fmap. apply list_elem_of_fmap. exists x. split; [done|].
      assert (Hin : x ∈ filter (λ y, y.1 = x.1) l) by (by apply list_elem_of_filter).
      rewrite Hf in Hin. by apply list_elem_of_filter in Hin as [_ ?]. }
    split; (intros [Hc|?]; [left|by right]); eapply Hsub; [|done| |done]; done.
  - intros c p. by rewrite !apply_tagged_status, (last_status_filter c p es), H, <- last_status_filter.
Qed.

Lemma uploads_commute_witness :
  let a := ("p", ([x01], ReplicaCommitted)) in let b := ("q", ([x01], ReplicaFailed)) in
  apply_tagged [a; b] (NewGlobalReplicaTracker 1) = apply_tagged [b; a] (NewGlobalReplicaTracker 1).
Proof.
  intros a b. apply uploads_commute. intros p. rewrite !filter_cons, !filter_nil. simpl.
  repeat case_decide; congruence.
Defined.

(** ** Distribution *)

(** A replica counts as committed only after an upload reported it. *)
Definition reported (upload : nat → PeerID → list ChunkID → list event) (req : Z)
    (t : GlobalReplicaTracker) : Prop :=
  gt_requiredR t = req ∧
  ∀ c p, status_of t c p = Some ReplicaCommitted → ∃ k l, (c, ReplicaCommitted) ∈ upload k p l.

Lemma apply_events_tagged p ev t : apply_events p ev t = apply_tagged (pair p <$> ev) t.
Proof. unfold apply_events, apply_tagged. revert t. induction ev as [|e ev IH]; intros t; [done|]. apply IH. Qed.

Lemma SetStatus_reported upload req c p s t :
  (s = ReplicaCommitted → ∃ k l, (c, ReplicaCommitted) ∈ upload k p l) →
  reported upload req t → reported upload req (SetStatus c p s t).
Proof.
  intros Hs [HR Ht]. split; [done|]. intros c' p'. rewrite status_SetStatus.
  destruct (decide (c' = c ∧ p' = p)) as [[-> ->]|]; [|apply Ht]. intros [= ->]. by apply Hs.
Qed.

Lemma apply_events_reported upload req k p l ev t :
  (∀ e, e ∈ ev → e ∈ upload k p l) → reported upload req t → reported upload req (apply_events p ev t).
Proof.
  unfold apply_events. revert t. induction ev as [|[c s] ev IH]; intros t Hev Ht; [done|].
  cbn [foldl fst snd]. apply IH; [intros e He; apply Hev; by right|].
  apply SetStatus_reported; [|done]. intros ->. exists k, l. apply Hev. left.
Qed.

Lemma foldl_reported {A} upload req (f : GlobalReplicaTracker → A → GlobalReplicaTracker) l t :
  (∀ t x, reported upload req t → reported upload req (f t x)) →
  reported upload req t → reported upload req (foldl f t l).
Proof. intros Hf. revert t. induction l as [|x l IH]; intros t Ht; [done|]. cbn. apply IH, Hf, Ht. Qed.

Lemma run_uploads_reported upload req k work t :
  reported upload req t → reported upload req (run_uploads (upload k) work t).
Proof.
  apply foldl_reported. intros t' [p l] Ht. cbn [fst snd]. case_decide; [done|].
  by apply (apply_events_reported upload req k p l).
Qed.

Lemma reassign_reported upload req cid needed active acc :
  reported upload req acc.2 → reported upload req (reassign cid needed active acc).2.
Proof.
  revert needed acc. induction active as [|p active IH]; intros needed acc Ht; [done|]. cbn [reassign].
  destruct (decide (needed <= 0)); [done|]. case_match; [|by apply IH].
  apply IH. simpl. by apply SetStatus_reported.
Qed.

Lemma plan_round_reported upload req R all active t :
  reported upload req t → reported upload req (plan_round R all active t).2.
Proof.
  unfold plan_round. intros Ht. assert (H0 : reported upload req (∅ : gmap PeerID (list ChunkID), t).2) by done.
  revert H0. generalize (∅ : gmap PeerID (list ChunkID), t). induction all as [|c all IH]; intros acc Ha; [done|].
  cbn [foldl]. apply IH. case_decide; [done|]. by apply reassign_reported.
Qed.

Lemma failover_reported rounds upload req R all active t :
  reported upload req t → reported upload req (failover rounds upload R all active t).
Proof.
  revert t. induction rounds as [|n IH]; intros t Ht; [done|]. cbn [failover].
  destruct (IsComplete all t); [done|].
  pose proof (plan_round_reported upload req R all active t Ht) as Hp.
  destruct (plan_round R all active t) as [re t1]. case_decide; [done|].
  by apply IH, run_uploads_reported.
Qed.

(** Distribution reports success only when it is true: on a fresh tracker, if
    [Distribute] returns nil then every chunk of the manifest has at least the
    required number of different providers, each of which reported that chunk
    as committed in one of its uploads; if it returns an error, some chunk has
    too few. *)
Theorem Distribute_sound mb plan cfg upload R t' r :
  Distribute mb plan cfg upload (NewGlobalReplicaTracker R) = (t', r) →
  (r = Ok tt →
   ∀ c, c ∈ mf_ChunkIDs (pl_Manifest plan) →
     R <= Z.of_nat (size (committed_peers t' c)) ∧
     ∀ p, p ∈ committed_peers t' c → ∃ k l, (c, ReplicaCommitted) ∈ upload k p l) ∧
  (is_ok mb = true → r ≠ Ok tt →
   ∃ c, c ∈ mf_ChunkIDs (pl_Manifest plan) ∧ Z.of_nat (size (committed_peers t' c)) < R).
Proof.
  unfold Distribute. destruct mb as [d|e]; [|by intros [= <- <-]].
  set (t0 := foldl _ _ _). set (t1 := run_uploads _ _ _). set (t2 := failover _ _ _ _ _ _).
  set (all := mf_ChunkIDs (pl_Manifest plan)).
  assert (H0 : reported upload R t0).
  { apply foldl_reported; [|split; [done|intros c p; discriminate]]. intros t x Ht.
    apply foldl_reported; [|done]. intros t3 p Ht3. by apply SetStatus_reported. }
  assert (H1 : reported upload R t1) by (by apply run_uploads_reported).
  assert (H2 : reported upload R t2) by (by apply failover_reported).
  assert (Hgood : ∀ t, reported upload R t → IsComplete all t = true →
    ∀ c, c ∈ all → R <= Z.of_nat (size (committed_peers t c)) ∧
      ∀ p, p ∈ committed_peers t c → ∃ k l, (c, ReplicaCommitted) ∈ upload k p l).
  { intros t Ht Hc c Hin. destruct Ht as [HR Ht]. rewrite <- HR. split; [by apply (IsComplete_iff all)|].
    intros p Hp%elem_of_committed. by apply Ht. }
  destruct (IsComplete all t1) eqn:E1; [intros [= <- <-]; split; [intros _; by apply Hgood|done]|].
  destruct (IsComplete all t2) eqn:E2; [intros [= <- <-]; split; [intros _; by apply Hgood|done]|].
  intros [= <- <-]. split; [done|]. intros _ _. destruct H2 as [HR _]. rewrite <- HR. clear -E2.
  induction all as [|c all IH]; [done|]. cbn [IsComplete] in E2. rewrite CommittedCount_size in E2.
  case_decide; [exists c; split; [left|done]|]. destruct (IH E2) as (c' & Hc' & Hlt).
  exists c'. split; [by right|done].
Qed.

(** ** What a committed replica rests on *)

(** In [t] the chunk that the store holds for [c] was sent, and the next message
    acknowledged it with status OK. *)
Definition acknowledged (fs : FS) (contentID : list byte) (c : ChunkID) (t : list (io PushMessage)) : Prop :=
  ∃ chunk ack before after, GetChunk c fs = Ok chunk ∧
    p_Type ack = MsgPushChunkAck ∧ ParsePushChunkAck (p_Payload ack) = Ok (hd_ID (ck_Header chunk), PushStatusOK) ∧
    t = before ++ [Wrote (BuildPushChunk contentID chunk); Got ack] ++ after.

Lemma acknowledged_app fs contentID c t1 t t2 :
  acknowledged fs contentID c t → acknowledged fs contentID c (t1 ++ t ++ t2).
Proof.
  intros (chunk & ack & b & a & H1 & H2 & H3 & ->). exists chunk, ack, (t1 ++ b), (a ++ t2).
  split_and!; try done. by rewrite <- !app_assoc.
Qed.

Lemma request_ack_acknowledged what req ackType parse id mm rj tr t tr' :
  ackType ≠ MsgPushError →
  replay (request_ack what req ackType parse id mm rj) tr = (Ok tt, t, tr') →
  ∃ ack, t = [Wrote req; Got ack] ∧ p_Type ack = ackType ∧ parse (p_Payload ack) = Ok (id, PushStatusOK).
Proof.
  intros Hne. unfold request_ack. cbn [replay]. destruct (next (tr_writes tr)) as [[[]|e] ws]; [|done]. cbn [replay].
  destruct (next _) as [[ack|e] rs]; [|done]. unfold ack_response. case_decide as H1.
  { destruct (push_parse_error _). done. }
  destruct (decide (p_Type ack ≠ ackType)) as [|H2]; [done|]. destruct (parse (p_Payload ack)) as [[i st]|] eqn:E; [|done].
  case_decide as H3; [done|]. case_decide as H4; [done|]. cbn [replay]. intros [= <- <-].
  exists ack. split_and!; [done|by destruct (decide (p_Type ack = ackType))|].
  rewrite E. f_equal. f_equal; [by destruct (decide (i = id))|]. by destruct (decide (st = PushStatusOK)).
Qed.

Lemma send_attempts_acknowledged n contentID chunk fs c tr t tr' :
  GetChunk c fs = Ok chunk →
  replay (send_attempts (S n) contentID chunk) tr = (Ok tt, t, tr') → acknowledged fs contentID c t.
Proof.
  intros Hg. revert tr t. induction n as [|n IH]; intros tr t; cbn [send_attempts];
    destruct (replay (SendChunk contentID chunk) tr) as [[r t1] tr1] eqn:E1; intros H.
  - erewrite replay_bind in H; [|exact E1|cbn; by destruct r]. rewrite app_nil_r in H.
    assert (r = Ok tt ∧ t1 = t) as [-> ->] by (by destruct r as [[]|]; simplify_eq).
    apply request_ack_acknowledged in E1 as (ack & -> & H1 & H2); [|done]. by exists chunk, ack, [], [].
  - destruct r as [[]|e].
    + erewrite replay_bind in H; [|exact E1|reflexivity]. rewrite app_nil_r in H. injection H as <- <-.
      apply request_ack_acknowledged in E1 as (ack & -> & H1 & H2); [|done]. by exists chunk, ack, [], [].
    + destruct (replay (send_attempts (S n) contentID chunk) tr1) as [[r2 t2] tr2] eqn:E2.
      erewrite replay_bind in H; [|exact E1|exact E2]. injection H as -> <- <-.
      rewrite <- (app_nil_r t2). by apply acknowledged_app, (IH tr1).
Qed.

Lemma upload_chunks_acknowledged fs r contentID chunks ev n tr ev' n' t tr' c :
  replay (upload_chunks fs (S r) contentID chunks ev n) tr = (ev', n', t, tr') →
  (c, ReplicaCommitted) ∈ ev' → (c, ReplicaCommitted) ∈ ev ∨ acknowledged fs contentID c t.
Proof.
  revert ev n tr t. induction chunks as [|id chunks IH]; intros ev n tr t H Hin.
  { injection H as <- <- <- <-. by left. }
  cbn [upload_chunks] in H. destruct (GetChunk id fs) as [chunk|] eqn:Hg.
  2: { destruct (IH _ _ _ _ H Hin) as [Hi|]; [left|by right].
       apply elem_of_app in Hi as [|Hi]; [done|]. by apply list_elem_of_singleton in Hi. }
  destruct (replay (send_attempts (S r) contentID chunk) tr) as [[res t1] tr1] eqn:E1.
  set (K := λ sendErr : result (), match sendErr with
    | Err _ => upload_chunks fs (S r) contentID chunks ((ev ++ [(id, ReplicaUploading)]) ++ [(id, ReplicaFailed)]) n
    | Ok _ => upload_chunks fs (S r) contentID chunks ((ev ++ [(id, ReplicaUploading)]) ++ [(id, ReplicaCommitted)]) (S n)
    end).
  destruct (replay (K res) tr1) as [[[ev2 n2] t2] tr2] eqn:E2.
  pose proof (replay_bind _ K _ _ _ _ _ _ _ E1 E2) as HR. fold K in H.
  change (pbind (send_attempts (S r) contentID chunk) _) with (pbind (send_attempts (S r) contentID chunk) K) in H.
  rewrite HR in H. injection H as -> -> <- ->.
  assert (Hacc : acknowledged fs contentID c t2 → acknowledged fs contentID c (t1 ++ t2))
    by (intros Ha; rewrite <- (app_nil_r t2); by apply acknowledged_app).
  unfold K in E2. destruct res as [[]|e].
  - destruct (IH _ _ _ _ E2 Hin) as [Hi|]; [|by right; auto].
    rewrite !elem_of_app, !list_elem_of_singleton in Hi. destruct Hi as [[Hi|[=]]|[= ->]]; [by left|right].
    change (t1 ++ t2) with ([] ++ t1 ++ t2). by eapply acknowledged_app, send_attempts_acknowledged.
  - destruct (IH _ _ _ _ E2 Hin) as [Hi|]; [|by right; auto].
    rewrite !elem_of_app, !list_elem_of_singleton in Hi. destruct Hi as [[Hi|[=]]|[=]]. by left.
Qed.

(** A chunk that an upload reports as committed was sent to the peer and
    acknowledged by it. *)
Lemma upload_with_acknowledged peer fs r contentID mb chunks c :
  (c, ReplicaCommitted) ∈ (upload_with peer fs (S r) contentID mb chunks).1 →
  acknowledged fs contentID c (upload_with peer fs (S r) contentID mb chunks).2.
Proof.
  assert (Hfail : (c, ReplicaCommitted) ∉ upload_unreachable chunks)
    by (intros (id & [=] & _)%list_elem_of_fmap).
  unfold upload_with. destruct peer as [tr|e]; [|done]. unfold uploadToProvider.
  destruct (replay (SendManifest contentID chunks mb) tr) as [[res t1] tr1] eqn:E1. destruct res as [[]|e].
  2: { erewrite replay_bind; [|exact E1|reflexivity]. done. }
  destruct (replay (upload_chunks fs (S r) contentID chunks [] 0) tr1) as [[[ev n] t2] tr2] eqn:E2.
  set (last := if decide (n = length chunks) then (do! c := SendBatchComplete contentID in Ret (ev, is_ok c)) else Ret (ev, false)).
  assert (Hlast : ∃ b t3 tr3, replay last tr2 = ((ev, b), t3, tr3)).
  { unfold last. case_decide; [|by eexists _, _, _].
    destruct (replay (SendBatchComplete contentID) tr2) as [[c3 t3] tr3] eqn:E3.
    erewrite replay_bind; [|exact E3|reflexivity]. by eexists _, _, _. }
  destruct Hlast as (b & t3 & tr3 & E3).
  erewrite replay_bind; [|exact E1|]; [|by eapply replay_bind; [exact E2|exact E3]]. cbn [fst snd].
  intros Hin. destruct (upload_chunks_acknowledged _ _ _ _ _ _ _ _ _ _ _ c E2 Hin) as [[]%elem_of_nil|Ha].
  by apply acknowledged_app.
Qed.

(** ** An upload and its provider together *)

Section upload.
Context {MC : ManifestCodec} (pid : Z) (put_fault : list byte → option (put_call * error)).
Context (manifest_fault : list byte → option manifest_failure).
(** The publisher's store and the content it uploads. *)
Context (pub : FS) (cid : list byte) (m : Manifest) (data : list byte) (all : list ChunkID).

Abbreviation loop := (push_loop pid put_fault manifest_fault).
Abbreviation step := (session_step pwritable preceive loop).
Abbreviation idle p st := {| c_client := p; c_server := loop st; c_up := []; c_down := [] |}.

(** A chunk the publisher can upload and the provider can store. *)
Record uploadable (id : ChunkID) (c : Chunk) : Prop := {
  up_stored : GetChunk id pub = Ok c;
  up_id : hd_ID (ck_Header c) = id;
  up_hash : sha256 (ck_Data c) = id;
  up_fits : 3 + (32 + (Z.of_nat headerSize + zlen (ck_Data c))) <= MaxMessageSize;
  up_store : put_fault id = None;
}.

(** Every chunk of a store was in [old] or is the publisher's. *)
Definition taken_from (old fs : FS) : Prop :=
  ∀ id c, length id = 32%nat → GetChunk id fs = Ok c → GetChunk id old = Ok c ∨ id ∈ all ∧ GetChunk id pub = Ok c.

(** A provider in the middle of this upload, which started from the store [old],
    with the chunks of [done] committed. *)
Record ready (old : FS) (st : PushState) (done : list ChunkID) : Prop := {
  rd_wf : push_wf ∅ st;
  rd_store : taken_from old (pu_fs st);
  rd_session : ∃ ptr s, pu_sessions st !! cid = Some ptr ∧ pu_heap st !! ptr = Some s ∧
    pd_ExpectedChunks s = list_to_set all ∧ pd_Manifest s = m ∧ pd_ManifestBytes s = data ∧
    ∀ id, id ∈ done → id ∈ pd_CommittedChunks s;
}.

Hypothesis Hcid : length cid = 32%nat.
Hypothesis Hlisted : ∀ id, id ∈ all → id ∈ mf_ChunkIDs m.

Lemma length_sha_id id c : uploadable id c → length id = 32%nat.
Proof. intros H. rewrite <- (up_hash _ _ H). apply length_sha256. Qed.

(** The provider's side of one chunk. *)
Lemma provider_takes old st done id c :
  ready old st done → id ∈ all → uploadable id c →
  ∃ ptr st1, chunk_check cid c st = inr ptr ∧ chunk_store pid put_fault c st = (st1, true) ∧
    ready old (chunk_commit ptr id st1) (id :: done).
Proof using All.
  intros [Hwf Hold (ptr & s & Hp & Hs & He & Hm & Hb & Hd)] Hin [Hg Hi Hh Hf Hpf].
  assert (Hl : length id = 32%nat) by (rewrite <- Hh; apply length_sha256).
  exists ptr. destruct (chunk_store pid put_fault c st) as [st1 ok] eqn:E.
  assert (Hok : ok = true).
  { unfold chunk_store in E. rewrite Hi in E. destruct (HasChunk id (pu_fs st)); [by simplify_eq|].
    pose proof (PutChunk_reads pid (put_fault id) c (pu_fs st) id (GetChunk_typed _ _ _ Hg) Hl) as Hr.
    destruct (PutChunk pid (put_fault id) c (pu_fs st)) as [fs' r]. destruct Hr as [Hr _].
    injection E as <- <-. by apply Hr. }
  subst ok. exists st1. split_and!; [|done|].
  - unfold chunk_check. rewrite Hp, Hs, Hi, He, Hm.
    rewrite decide_False by (rewrite elem_of_list_to_set; tauto).
    rewrite decide_False by (intros Hn; by apply Hn, Hlisted).
    rewrite decide_False by (intros Hn; by apply Hn). done.
  - assert (Hsh : sha256 (ck_Data c) = hd_ID (ck_Header c)) by congruence.
    pose proof (GetChunk_typed _ _ _ Hg) as Hht.
    destruct (chunk_store_wf pid put_fault ∅ c st st1 true Hht Hsh Hwf E) as (Hwf1 & Hgr & Hhas).
    destruct (chunk_store_spec pid put_fault ∅ c st st1 true Hht Hsh (pw_store _ _ Hwf) E) as (_ & Est & _).
    assert (Hs1 : pu_heap st1 !! ptr = Some s) by (by rewrite Est).
    split.
    + apply (commit_wf pid); [|done]. simpl. split_and!; [done|rewrite <- Hi; by apply Hhas|].
      exists s. rewrite He, Hm. split_and!; [done|by rewrite elem_of_list_to_set|by apply Hlisted].
    + intros i ci Hli. cbn [chunk_commit pu_fs]. unfold chunk_store in E. rewrite Hi in E.
      destruct (HasChunk id (pu_fs st)); [injection E as <-; by apply Hold|].
      pose proof (PutChunk_reads pid (put_fault id) c (pu_fs st) i Hht Hli) as Hr.
      destruct (PutChunk _ _ _ _) as [fs' r]. injection E as <- _. cbn [set_fs pu_fs]. destruct Hr as (_ & -> & _).
      case_decide as Hc; [|by apply Hold]. destruct Hc as [_ ->]. rewrite Hi. intros [= ->]. by right.
    + exists ptr, (commit_chunk id s). simpl. rewrite lookup_alter_eq, Hs1.
      split_and!; [by rewrite Est|done..|]. intros i [->|Hi']%elem_of_cons; [set_solver|].
      apply elem_of_union. right. by apply Hd.
Qed.

Lemma fits_chunk id c : uploadable id c → push_fits (BuildPushChunk cid c).
Proof using Hcid.
  intros [Hg Hi Hh Hf Hpf]. split_and!; [done|done|]. cbn [BuildPushChunk push_message p_Payload].
  rewrite !zlen_app. unfold zlen at 1 2. rewrite Hcid, length_encode_header by (by eapply GetChunk_typed).
  exact Hf.
Qed.

Lemma fits_ack t id : is_u8 t → length id = 32%nat → push_fits (push_message t (id ++ [byte_of_Z 0])).
Proof. intros Ht Hl. split_and!; [done|done|]. simpl. rewrite zlen_app. unfold zlen. rewrite Hl. done. Qed.

(** The updates of an upload in which every chunk is accepted. *)
Definition all_committed (ids : list ChunkID) : list event :=
  mjoin ((λ id, [(id, ReplicaUploading); (id, ReplicaCommitted)]) <$> ids).

Lemma upload_chunks_run {B} old ids st done ev n r (K : list event * nat → pproto B) :
  ready old st done → (∀ id, id ∈ ids → id ∈ all ∧ ∃ c, uploadable id c) →
  ∃ st' done', ready old st' done' ∧ (∀ id, id ∈ ids ∨ id ∈ done → id ∈ done') ∧
    rtc step (idle (pbind (upload_chunks pub (S r) cid ids ev n) K) st)
             (idle (K (ev ++ all_committed ids, n + length ids)%nat) st').
Proof using All.
  revert st done ev n. induction ids as [|id ids IH]; intros st done ev n Hr Hids.
  { exists st, done. split_and!; [done|set_solver|]. simpl. by rewrite app_nil_r, Nat.add_0_r. }
  destruct (Hids id) as [Hin (c & Hc)]; [left|].
  destruct (provider_takes old st done id c Hr Hin Hc) as (ptr & st1 & Hck & Hst & Hr1).
  destruct (IH _ _ ((ev ++ [(id, ReplicaUploading)]) ++ [(id, ReplicaCommitted)]) (S n) Hr1)
    as (st' & done' & Hr' & Hd' & Hrun); [intros i Hi; apply Hids; by right|].
  exists st', done'. split_and!; [done| |].
  { intros i [[->|Hi]%elem_of_cons|Hi]; apply Hd'; set_solver. }
  cbn [upload_chunks]. rewrite (up_stored _ _ Hc). cbn [send_attempts].
  pose proof (length_sha_id _ _ Hc) as Hl.
  etrans; [|replace (ev ++ all_committed (id :: ids)) with
    (((ev ++ [(id, ReplicaUploading)]) ++ [(id, ReplicaCommitted)]) ++ all_committed ids)
    by (unfold all_committed; cbn; by rewrite <- !app_assoc);
    replace (n + length (id :: ids))%nat with (S n + length ids)%nat by (simpl; lia); exact Hrun].
  eapply exchange_run; [reflexivity|reflexivity| |by eapply fits_chunk| |].
  - cbv beta. unfold ParsePushChunkAck.
    rewrite (ack_response_ok _ MsgPushChunkAck _ _ _ _ (BuildPushChunkAck id PushStatusOK));
      [|done|done|rewrite (up_id _ _ Hc); by apply parse_ack_ok]. reflexivity.
  - by apply fits_ack.
  - erewrite answer_chunk; [|done|eapply GetChunk_typed, Hc|done|done]. by rewrite (up_id _ _ Hc).
Qed.

(** The provider's session right after the manifest. *)
Lemma ready_open st :
  push_wf ∅ st → Deserialize data = Ok m → cd_ID (mf_Descriptor m) = cid →
  ready (pu_fs st) (open_session cid m data all st) [].
Proof using All.
  intros Hwf Hd Hm. split; [by eapply open_session_wf|by left|].
  eexists (pu_next st), _. simpl. rewrite !lookup_insert_eq. split_and!; try done. set_solver.
Qed.

(** When everything is committed the batch completes. *)
Lemma ready_completes old st done :
  ready old st done → (∀ id, id ∈ all → id ∈ done) → manifest_fault cid = None →
  ∃ st', batch_complete manifest_fault cid st = (st', PushStatusOK) ∧
    GetManifestBytes cid (pu_fs st') = Ok data ∧ taken_from old (pu_fs st') ∧
    ∀ id, id ∈ all → ∃ c, GetChunk id (pu_fs st') = Ok c ∧ sha256 (ck_Data c) = id.
Proof using All.
  intros [Hwf Hold (ptr & s & Hp & Hs & He & Hm & Hb & Hd)] Hall Hf.
  assert (Hsub : pd_ExpectedChunks s ⊆ pd_CommittedChunks s)
    by (rewrite He; intros id Hid%elem_of_list_to_set; by apply Hd, Hall).
  eexists. split; [|split; [|split]].
  - unfold batch_complete. rewrite Hp, Hs, bool_decide_eq_true_2 by done. cbn [negb orb].
    rewrite bool_decide_eq_false_2 by (apply subseteq_size in Hsub; lia). by rewrite Hf.
  - cbn [pu_fs]. rewrite GetManifestBytes_Put, decide_True by done. by rewrite Hb.
  - intros id c Hl. cbn [pu_fs]. rewrite GetChunk_PutManifest by done. by apply Hold.
  - intros id Hid. cbn [pu_fs].
    destruct (pw_heap _ _ Hwf ptr s Hs) as [_ [_ _ Hcm]].
    destruct (Hcm id) as (Hl & Hhas & _); [by apply Hd, Hall|].
    rewrite GetChunk_PutManifest by done. by apply (pw_store _ _ Hwf).
Qed.

(** An upload to an honest provider succeeds under every schedule: if the
    provider admits the publisher, both stores work and every assigned chunk
    is stored by the publisher under the hash of its data and listed in the
    manifest, then every interleaving ends with all chunks reported committed
    and the batch completed, and the provider's store holds the manifest and
    every chunk with its proper content.  Whatever chunk the provider did not
    hold before, it now holds exactly as the publisher does. *)
Theorem upload_session policy peer st r :
  push_wf ∅ st → pp_allowPush policy = true →
  (pp_authPolicy policy = AuthPolicyAllowlist → peer ∈ pp_allowedPublishers policy) →
  Deserialize data = Ok m → cd_ID (mf_Descriptor m) = cid → manifest_fault cid = None →
  (∀ id, id ∈ all → ∃ c, uploadable id c) →
  39 + 32 * zlen all + zlen data <= MaxMessageSize →
  ∃ st',
    always_ends pwritable preceive loop
      {| c_client := uploadToProvider pub (S r) cid all data;
         c_server := handleStream policy peer st; c_up := []; c_down := [] |}
      (finished (all_committed all, true) st' []) ∧
    GetManifestBytes cid (pu_fs st') = Ok data ∧ taken_from (pu_fs st) (pu_fs st') ∧
    ∀ id, id ∈ all → ∃ c, GetChunk id (pu_fs st') = Ok c ∧ sha256 (ck_Data c) = id.
Proof using All.
  intros Hwf Hallow Hauth Hd Hm Hf Hup Hsize.
  assert (Hall32 : Forall (λ i, length i = 32%nat) all)
    by (apply Forall_forall; intros i Hi; destruct (Hup i Hi) as [c Hc]; by eapply length_sha_id).
  pose proof (zlen_nonneg all). pose proof (zlen_nonneg data).
  assert (Hn : is_u32 (zlen all)) by (unfold is_u32, MaxMessageSize in *; lia).
  assert (Hfit : push_fits (BuildPushManifest cid all data)).
  { split_and!; [done|done|]. cbn [BuildPushManifest push_message p_Payload]. rewrite !zlen_app.
    destruct (split_ids_concat all data Hall32) as (_ & _ & Hc).
    unfold zlen in *. rewrite Hcid, length_le32, Hc. lia. }
  set (K := λ x : list event * nat, let '(ev, n) := x in
    if decide (n = length all) then (do! c := SendBatchComplete cid in Ret (ev, is_ok c)) else Ret (ev, false)).
  destruct (upload_chunks_run (B := list event * bool) (pu_fs st) all _ [] [] 0%nat r K (ready_open st Hwf Hd Hm))
    as (st1 & done1 & Hr1 & Hd1 & Hrun1); [by auto|].
  destruct (ready_completes _ st1 done1 Hr1 (λ id Hid, Hd1 id (or_introl Hid)) Hf) as (st' & Hbc & Hman & Htk & Hch).
  exists st'. split_and!; [|done|done|done]. apply session_confluent.
  unfold handleStream. rewrite Hallow. simpl negb. cbv iota. rewrite decide_False by tauto.
  eapply rtc_l; [apply server_loop|].
  etrans; [eapply exchange_run; [reflexivity|reflexivity| |exact Hfit| |]|].
  - cbv beta. unfold ParsePushManifestAck.
    rewrite (ack_response_ok _ MsgPushManifestAck _ _ _ _ (BuildPushManifestAck cid PushStatusOK));
      [reflexivity|done|done|by apply parse_ack_ok].
  - by apply fits_ack.
  - by apply answer_manifest.
  - cbn [pbind]. etrans; [exact Hrun1|]. unfold K. cbn [app Nat.add]. rewrite decide_True by done.
    etrans; [eapply exchange_run; [reflexivity|reflexivity| | | |]|].
    + cbv beta. unfold ParsePushBatchCompleteAck.
      rewrite (ack_response_ok _ MsgPushBatchCompleteAck _ _ _ _ (BuildPushBatchCompleteAck cid PushStatusOK));
        [reflexivity|done|done|by apply parse_ack_ok].
    + split_and!; [done|done|]. simpl. unfold zlen. by rewrite Hcid.
    + by apply fits_ack.
    + by apply answer_complete.
    + cbn [pbind is_ok]. eapply rtc_l; [apply server_eof|]. done.
Qed.
End upload.

(** Retrying zero times counts as a success: the chunk is reported committed
    although nothing was sent. *)
Lemma zero_retries_commits fs cid id c :
  GetChunk id fs = Ok c →
  upload_chunks fs 0 cid [id] [] 0 = Ret ([(id, ReplicaUploading); (id, ReplicaCommitted)], 1%nat).
Proof. intros H. cbn [upload_chunks]. by rewrite H. Qed.

(** ** Witnesses *)

Definition wd_upload (k : nat) (p : PeerID) (l : list ChunkID) : list event := all_committed l.

Lemma Distribute_sound_witness :
  ∃ plan t', PlanPlacement wit_plan_manifest ["p"; "q"; "r"] 2 = Ok plan ∧
    Distribute (Ok []) plan {| uc_MaxRetriesPerChunk := 3; uc_FailoverRounds := 2 |} wd_upload
      (NewGlobalReplicaTracker 2) = (t', Ok tt) ∧
    2 <= Z.of_nat (size (committed_peers t' [x02])).
Proof.
  destruct (PlanPlacement wit_plan_manifest ["p"; "q"; "r"] 2) as [plan|e] eqn:Ep;
    [|exfalso; apply (f_equal is_ok) in Ep; vm_compute in Ep; discriminate Ep].
  exists plan.
  assert (Hm : bool_decide ([x02] ∈ mf_ChunkIDs (pl_Manifest plan)) = true ∧
    is_ok (Distribute (Ok []) plan {| uc_MaxRetriesPerChunk := 3; uc_FailoverRounds := 2 |} wd_upload
             (NewGlobalReplicaTracker 2)).2 = true).
  { injection Ep as <-. split; vm_compute; reflexivity. }
  destruct Hm as [Hm Hok]. apply bool_decide_eq_true in Hm.
  destruct (Distribute _ _ _ _ _) as [t' [[]|e]] eqn:E; [|discriminate Hok].
  exists t'. split_and!; [done|done|].
  apply (proj1 (Distribute_sound (Ok []) plan _ wd_upload 2 t' (Ok tt) E) eq_refl [x02] Hm).
Defined.

Lemma upload_session_witness :
  let pub := (PutChunk 1 None wp_chunk ∅).1 in
  ∃ st', always_ends pwritable preceive (push_loop 1 (λ _, None) (λ _, None))
    {| c_client := uploadToProvider pub 3 wp_cid [sha256 [x61]] wp_bytes;
       c_server := handleStream {| pp_allowPush := true; pp_authPolicy := "open"; pp_allowedPublishers := ∅ |}
                     "publisher" (push_init ∅); c_up := []; c_down := [] |}
    (finished (all_committed [sha256 [x61]], true) st' []).
Proof.
  intros pub.
  destruct (upload_session 1 (λ _, None) (λ _, None) pub wp_cid wp_manifest wp_bytes [sha256 [x61]]
    eq_refl ltac:(intros id Hid; exact Hid)
    {| pp_allowPush := true; pp_authPolicy := "open"; pp_allowedPublishers := ∅ |} "publisher" (push_init ∅) 2)
    as (st' & H & _).
  - apply push_init_wf, empty_store_ok.
  - reflexivity.
  - intros H. discriminate H.
  - apply wp_decodes.
  - reflexivity.
  - reflexivity.
  - intros id ->%list_elem_of_singleton. exists wp_chunk.
    split; [|reflexivity|reflexivity|unfold MaxMessageSize, headerSize, zlen; simpl; lia|reflexivity].
    unfold pub. pose proof (PutChunk_reads 1 None wp_chunk ∅ (sha256 [x61]) wp_header_typed (length_sha256 _)) as Hr.
    destruct (PutChunk 1 None wp_chunk ∅) as [fs r]. destruct Hr as (_ & Hr & _). cbn [fst].
    rewrite Hr, decide_True; [reflexivity|]. exact (conj eq_refl eq_refl).
  - apply Z.leb_le. vm_compute. reflexivity.
  - exists st'. exact H.
Defined.
