(* ===== verification/Transfer.v ===== *)
(** * Parallel downloads

    network/transfer: scheduler/queue.go, worker.go and scheduler.go (a pool of
    workers, one per source, that share a queue of chunk tasks), manager/
    retry.go, session.go and transfer.go (resumable download sessions), and
    network/retrieval/resolver.go (fetching a manifest from some provider).

    A run of the scheduler is a step relation: workers and the main loop
    interleave freely, the results channel blocks when full, and each fetch
    waits for an arbitrary peer, which may never answer.  [PutChunk] takes a
    while: two workers that store the same chunk at once share its temporary
    file, and what then becomes of that chunk is left open.  Durations,
    throughput counters, [TestThrottle] and console output are left out. *)

From S2P Require Import Prelude Sha256 Content Tickets ChunkProtocol Session ChunkSession Push.

(** ** queue.go *)

Record ChunkTask := {
  tk_Index : nat;
  tk_ChunkID : list byte;
  tk_Attempts : Z;
  tk_MissedPeers : gset string;   (* the keys of the map, all set to true *)
}.

Abbreviation ChunkQueue := (list ChunkTask).
Definition Next (q : ChunkQueue) : option (ChunkTask * ChunkQueue) :=
  match q with [] => None | t :: q' => Some (t, q') end.
Definition Push (t : ChunkTask) (q : ChunkQueue) : ChunkQueue := q ++ [t].

(** ** worker.go *)

Record WorkerResult := {
  wr_Task : ChunkTask;
  wr_Error : option error;
  wr_PeerID : string;
  wr_Bytes : Z;
}.

(** Where a worker is in its loop. *)
Inductive worker :=
| Ready                          (* about to take a task *)
| Requeueing (t : ChunkTask)     (* its peer misses the task: [queue.Push] is next *)
| Yielding                       (* waiting for [ctx.Done()] or the timer *)
| Fetching (t : ChunkTask)       (* in [FetchChunk]: waiting for its peer, without a deadline *)
| Storing (t : ChunkTask) (c : Chunk)   (* in [PutChunk] *)
| Reporting (r : WorkerResult)   (* sending on the results channel *)
| Leaving                     (* the queue was empty: sending worker_done *)
| Gone.

Definition no_task : ChunkTask :=
  {| tk_Index := 0; tk_ChunkID := replicate 32 x00; tk_Attempts := 0; tk_MissedPeers := ∅ |}.
Definition worker_done : WorkerResult :=
  {| wr_Task := no_task; wr_Error := Some (New "worker_done"); wr_PeerID := ""; wr_Bytes := 0 |}.
Definition report (p : string) (t : ChunkTask) (e : option error) (bytes : Z) : WorkerResult :=
  {| wr_Task := t; wr_Error := e; wr_PeerID := p; wr_Bytes := bytes |}.

(** ** scheduler.go *)

Record Run := {
  rn_queue : ChunkQueue;
  rn_workers : list (string * worker);
  rn_results : list WorkerResult;       (* the buffered channel *)
  rn_completions : list WorkerResult;
  rn_pending : nat;
  rn_active : nat;
  rn_cancelled : bool;                  (* ctx.Done() *)
  rn_returned : option (result ());
  rn_fs : FS;
  (* Recorded for the theorems only: the chunks two workers were storing at once. *)
  rn_raced : gset (list byte);
}.

Definition set_worker (i : nat) (p : string) (w : worker) (s : Run) : Run :=
  {| rn_queue := rn_queue s; rn_workers := <[i := (p, w)]> (rn_workers s);
     rn_results := rn_results s; rn_completions := rn_completions s;
     rn_pending := rn_pending s; rn_active := rn_active s; rn_cancelled := rn_cancelled s;
     rn_returned := rn_returned s; rn_fs := rn_fs s; rn_raced := rn_raced s |}.
Definition set_queue (q : ChunkQueue) (s : Run) : Run :=
  {| rn_queue := q; rn_workers := rn_workers s; rn_results := rn_results s;
     rn_completions := rn_completions s; rn_pending := rn_pending s; rn_active := rn_active s;
     rn_cancelled := rn_cancelled s; rn_returned := rn_returned s; rn_fs := rn_fs s; rn_raced := rn_raced s |}.
Definition set_results (r : list WorkerResult) (s : Run) : Run :=
  {| rn_queue := rn_queue s; rn_workers := rn_workers s; rn_results := r;
     rn_completions := rn_completions s; rn_pending := rn_pending s; rn_active := rn_active s;
     rn_cancelled := rn_cancelled s; rn_returned := rn_returned s; rn_fs := rn_fs s; rn_raced := rn_raced s |}.
Definition set_store (fs : FS) (s : Run) : Run :=
  {| rn_queue := rn_queue s; rn_workers := rn_workers s; rn_results := rn_results s;
     rn_completions := rn_completions s; rn_pending := rn_pending s; rn_active := rn_active s;
     rn_cancelled := rn_cancelled s; rn_returned := rn_returned s; rn_fs := fs; rn_raced := rn_raced s |}.
Definition set_raced (R : gset (list byte)) (s : Run) : Run :=
  {| rn_queue := rn_queue s; rn_workers := rn_workers s; rn_results := rn_results s;
     rn_completions := rn_completions s; rn_pending := rn_pending s; rn_active := rn_active s;
     rn_cancelled := rn_cancelled s; rn_returned := rn_returned s; rn_fs := rn_fs s; rn_raced := R |}.
Definition set_returned (r : result ()) (s : Run) : Run :=
  {| rn_queue := rn_queue s; rn_workers := rn_workers s; rn_results := rn_results s;
     rn_completions := rn_completions s; rn_pending := rn_pending s; rn_active := rn_active s;
     rn_cancelled := rn_cancelled s; rn_returned := Some r; rn_fs := rn_fs s; rn_raced := rn_raced s |}.
Definition cancel (s : Run) : Run :=
  {| rn_queue := rn_queue s; rn_workers := rn_workers s; rn_results := rn_results s;
     rn_completions := rn_completions s; rn_pending := rn_pending s; rn_active := rn_active s;
     rn_cancelled := true; rn_returned := rn_returned s; rn_fs := rn_fs s; rn_raced := rn_raced s |}.
Definition set_active (n : nat) (s : Run) : Run :=
  {| rn_queue := rn_queue s; rn_workers := rn_workers s; rn_results := rn_results s;
     rn_completions := rn_completions s; rn_pending := rn_pending s; rn_active := n;
     rn_cancelled := rn_cancelled s; rn_returned := rn_returned s; rn_fs := rn_fs s; rn_raced := rn_raced s |}.
Definition complete (r : WorkerResult) (s : Run) : Run :=
  {| rn_queue := rn_queue s; rn_workers := rn_workers s; rn_results := rn_results s;
     rn_completions := rn_completions s ++ [r]; rn_pending := pred (rn_pending s);
     rn_active := rn_active s; rn_cancelled := rn_cancelled s; rn_returned := rn_returned s;
     rn_fs := rn_fs s; rn_raced := rn_raced s |}.

Definition missed_by (p : string) (t : ChunkTask) : ChunkTask :=
  {| tk_Index := tk_Index t; tk_ChunkID := tk_ChunkID t; tk_Attempts := tk_Attempts t;
     tk_MissedPeers := {[ p ]} ∪ tk_MissedPeers t |}.
Definition attempted (t : ChunkTask) : ChunkTask :=
  {| tk_Index := tk_Index t; tk_ChunkID := tk_ChunkID t; tk_Attempts := tk_Attempts t + 1;
     tk_MissedPeers := tk_MissedPeers t |}.

(** The [case res := <-results] branch of the main loop. *)
Definition on_result (maxAttempts : Z) (sources : nat) (res : WorkerResult) (s : Run) : Run :=
  match wr_Error res with
  | Some e =>
      if decide (Error e = "worker_done"%string) then
        set_active (pred (rn_active s)) s
      else if errors_Is e ErrRemoteChunkNotFound then
        let task := missed_by (wr_PeerID res) (wr_Task res) in
        if decide (size (tk_MissedPeers task) < sources)%nat then set_queue (Push task (rn_queue s)) s
        else set_returned (Err (New ("chunk " +:+ EncodeToString (tk_ChunkID task) +:+
               " not found across any candidate providers (" +:+
               format_int (Z.of_nat (size (tk_MissedPeers task))) +:+ "/" +:+
               format_int (Z.of_nat sources) +:+ " checked)"))) s
      else
        let task := attempted (wr_Task res) in
        if decide (tk_Attempts task < maxAttempts) then set_queue (Push task (rn_queue s)) s
        else set_returned (Err (Wrap ("chunk " +:+ EncodeToString (tk_ChunkID task) +:+
               " failed after " +:+ format_int maxAttempts +:+ " attempts") e)) s
  | None => complete res s
  end.

(** The start of [Run]: one worker per source that could be connected. *)
Definition start_run (tasks : list ChunkTask) (connected : list string) (fs : FS) : Run :=
  {| rn_queue := tasks; rn_workers := (λ p, (p, Ready)) <$> connected; rn_results := [];
     rn_completions := []; rn_pending := length tasks; rn_active := length connected;
     rn_cancelled := false;
     rn_returned := if decide (length connected = 0%nat)
                    then Some (Err (New "no active workers could be started")) else None;
     rn_fs := fs; rn_raced := ∅ |}.

Section run.
Context {TC : TicketCodec} {TG : Type}.
Context (ticketGenerator : option (list byte → TG → TG * result SignedTicket)).
(** [len(sources)] and the parameters of the scheduler and the store. *)
Context (sources : nat) (maxAttempts : Z).
Context (pid : Z) (fault : list byte → option (put_call * error)).
(** The chunks the connected peers may send for an identifier; [λ _ _, True]
    for peers nothing is known of. *)
Context (sends : list byte → Chunk → Prop).

(** The chunks some worker is storing. *)
Definition storing (ws : list (string * worker)) : list (list byte) :=
  ws ≫= λ x, match x.2 with Storing t _ => [tk_ChunkID t] | _ => [] end.

(** [fs'] differs from [fs] at most in the files of the chunk [id]. *)
Definition touches (id : list byte) (fs fs' : FS) : Prop :=
  ∀ p, p ≠ pathForChunk id → p ≠ tmp_path pid (pathForChunk id) → fs' !! p = fs !! p.

(** What the worker reports of a [PutChunk]. *)
Definition put_error (r : result ()) : option error := match r with Ok _ => None | Err e => Some e end.
Definition put_bytes (c : Chunk) (r : result ()) : Z := match r with Ok _ => zlen (ck_Data c) | Err _ => 0 end.

(** A step of the scheduler or of a worker of its own, one for which a peer has
    to answer, or one of the endless loop of a worker whose peer misses the
    tasks in the queue. *)
Inductive label := Work | Answer | Poll.

(** Worker steps continue after the main loop has returned.  [FetchChunk] may
    return whatever its code allows for what the peers may send. *)
Inductive run_step : label → Run → Run → Prop :=
| w_empty i p s :
    rn_workers s !! i = Some (p, Ready) → Next (rn_queue s) = None →
    run_step Work s (set_worker i p Leaving s)
| w_missed i p t q s :
    rn_workers s !! i = Some (p, Ready) → Next (rn_queue s) = Some (t, q) → p ∈ tk_MissedPeers t →
    run_step Poll s (set_worker i p (Requeueing t) (set_queue q s))
| w_requeue i p t s :
    rn_workers s !! i = Some (p, Requeueing t) →
    run_step Poll s (set_worker i p Yielding (set_queue (Push t (rn_queue s)) s))
| w_yielded i p s :
    rn_workers s !! i = Some (p, Yielding) → run_step Poll s (set_worker i p Ready s)
| w_yield_cancelled i p s :
    rn_workers s !! i = Some (p, Yielding) → rn_cancelled s = true →
    run_step Work s (set_worker i p Leaving s)
| w_take i p t q s :
    rn_workers s !! i = Some (p, Ready) → Next (rn_queue s) = Some (t, q) → p ∉ tk_MissedPeers t →
    run_step Work s (set_worker i p (Fetching t) (set_queue q s))
| w_fetch_failed i p t g g' e s :
    rn_workers s !! i = Some (p, Fetching t) →
    may_return (FetchChunk ticketGenerator (tk_ChunkID t) g) (g', Err e) →
    run_step Answer s (set_worker i p (Reporting (report p t (Some e) 0)) s)
| w_fetched i p t g g' c s :
    rn_workers s !! i = Some (p, Fetching t) →
    may_return (FetchChunk ticketGenerator (tk_ChunkID t) g) (g', Ok c) → sends (tk_ChunkID t) c →
    run_step Answer s
      (set_worker i p (Storing t c)
        (set_raced ((if decide (tk_ChunkID t ∈ storing (rn_workers s)) then {[ tk_ChunkID t ]} else ∅)
                    ∪ rn_raced s) s))
| w_stored i p t c fs' r s :
    rn_workers s !! i = Some (p, Storing t c) → tk_ChunkID t ∉ rn_raced s →
    PutChunk pid (fault (tk_ChunkID t)) c (rn_fs s) = (fs', r) →
    run_step Work s (set_worker i p (Reporting (report p t (put_error r) (put_bytes c r))) (set_store fs' s))
| w_stored_raced i p t c fs' r s :
    rn_workers s !! i = Some (p, Storing t c) → tk_ChunkID t ∈ rn_raced s →
    touches (tk_ChunkID t) (rn_fs s) fs' →
    run_step Work s (set_worker i p (Reporting (report p t (put_error r) (put_bytes c r))) (set_store fs' s))
| w_report i p r s :
    rn_workers s !! i = Some (p, Reporting r) → (length (rn_results s) < sources * 2)%nat →
    run_step Work s (set_worker i p Ready (set_results (rn_results s ++ [r]) s))
| w_leave i p s :
    rn_workers s !! i = Some (p, Leaving) → (length (rn_results s) < sources * 2)%nat →
    run_step Work s (set_worker i p Gone (set_results (rn_results s ++ [worker_done]) s))
| m_result r rest s :
    rn_returned s = None → (0 < rn_pending s)%nat → (0 < rn_active s)%nat → rn_results s = r :: rest →
    run_step Work s (on_result maxAttempts sources r (set_results rest s))
| m_cancelled e s :
    rn_returned s = None → (0 < rn_pending s)%nat → (0 < rn_active s)%nat → rn_cancelled s = true →
    run_step Work s (set_returned (Err e) s)
| m_end s :
    rn_returned s = None → (rn_pending s = 0 ∨ rn_active s = 0)%nat →
    run_step Work s (set_returned (if decide (0 < rn_pending s)%nat
      then Err (New ("all workers died, " +:+ format_int (Z.of_nat (rn_pending s)) +:+ " chunks remaining"))
      else Ok tt) s)
| ctx_done s : rn_cancelled s = false → run_step Work s (cancel s).

(** [runs n s s']: a run from [s] to [s'] of which [n] steps are not polls. *)
Definition counted (b : label) : nat := match b with Poll => 0 | _ => 1 end.
Inductive runs : nat → Run → Run → Prop :=
| runs_nil s : runs 0 s s
| runs_cons n b s s1 s' : run_step b s s1 → runs n s1 s' → runs (counted b + n) s s'.

(** ** What holds in every run *)

Definition key (t : ChunkTask) : nat * list byte := (tk_Index t, tk_ChunkID t).

Definition is_done (r : WorkerResult) : bool :=
  match wr_Error r with Some e => bool_decide (Error e = "worker_done"%string) | None => false end.
(** The task a result carries, if the main loop will look at it. *)
Definition carried (r : WorkerResult) : list ChunkTask := if is_done r then [] else [wr_Task r].
Definition held (x : string * worker) : list ChunkTask :=
  match x.2 with
  | Requeueing t | Fetching t | Storing t _ => [t]
  | Reporting r => carried r
  | _ => []
  end.
Definition in_flight (s : Run) : list ChunkTask :=
  rn_queue s ++ (rn_workers s ≫= held) ++ (rn_results s ≫= carried).

(** The store is content-addressed but for the chunks of [R]. *)
Definition valid_but (R : gset (list byte)) (fs : FS) : Prop :=
  ∀ id c, length id = 32%nat → id ∉ R → GetChunk id fs = Ok c → sha256 (ck_Data c) = id ∧ hd_ID (ck_Header c) = id.
Definition readable (R : gset (list byte)) (id : list byte) (fs : FS) : Prop :=
  id ∈ R ∨ is_ok (GetChunk id fs) = true.
(** What is read from [fs] can be read from [fs'] later. *)
Definition keeps (R : gset (list byte)) (fs fs' : FS) : Prop :=
  ∀ id, length id = 32%nat → id ∉ R → is_ok (GetChunk id fs) = true → is_ok (GetChunk id fs') = true.

(** What a result promises: a success is in the store, a miss is a first one. *)
Definition result_ok (R : gset (list byte)) (fs : FS) (r : WorkerResult) : Prop :=
  (wr_Error r = None → length (tk_ChunkID (wr_Task r)) = 32%nat ∧ readable R (tk_ChunkID (wr_Task r)) fs) ∧
  (is_done r = false → wr_PeerID r ∉ tk_MissedPeers (wr_Task r)).
Definition worker_ok (R : gset (list byte)) (fs : FS) (x : string * worker) : Prop :=
  match x.2 with
  | Fetching t => x.1 ∉ tk_MissedPeers t
  | Storing t c => x.1 ∉ tk_MissedPeers t ∧ length (tk_ChunkID t) = 32%nat ∧ sends (tk_ChunkID t) c ∧
      sha256 (ck_Data c) = tk_ChunkID t ∧ hd_ID (ck_Header c) = tk_ChunkID t ∧ header_typed (ck_Header c)
  | Reporting r => result_ok R fs r
  | _ => True
  end.

Definition alive (x : string * worker) : nat := match x.2 with Gone => 0 | _ => 1 end.
Definition done_mark (r : WorkerResult) : nat := if is_done r then 1 else 0.

Record run_ok (tasks : list ChunkTask) (s : Run) : Prop := {
  ro_pending : (rn_pending s + length (rn_completions s) = length tasks)%nat;
  ro_tasks : key <$> (in_flight s ++ (wr_Task <$> rn_completions s)) ⊆+ key <$> tasks;
  ro_store : valid_but (rn_raced s) (rn_fs s);
  ro_workers : Forall (worker_ok (rn_raced s) (rn_fs s)) (rn_workers s);
  ro_results : Forall (result_ok (rn_raced s) (rn_fs s)) (rn_results s ++ rn_completions s);
  ro_completions : Forall (λ r, wr_Error r = None) (rn_completions s);
  ro_active : (rn_active s <= sum_list_with alive (rn_workers s) +
                              sum_list_with done_mark (rn_results s))%nat;
  ro_returned : rn_returned s = Some (Ok tt) → rn_pending s = 0%nat;
  ro_raced : NoDup (tk_ChunkID <$> tasks) → rn_raced s = ∅;
}.

(** *** Storing a chunk *)

(** What a [PutChunk] of a verified chunk does to what can be read, whether the
    worker had the chunk's files to itself or not. *)
Lemma store_put R c fs fs' r id :
  header_typed (ck_Header c) → hd_ID (ck_Header c) = id → length id = 32%nat → sha256 (ck_Data c) = id →
  PutChunk pid (fault id) c fs = (fs', r) →
  (valid_but R fs → valid_but R fs') ∧ keeps R fs fs' ∧ (r = Ok tt → readable R id fs').
Proof.
  intros Hh Hc Hl Hs E.
  assert (Hk : ∀ i, length i = 32%nat →
    GetChunk i fs' = if decide (fault id = None ∧ i = id) then Ok c else GetChunk i fs).
  { intros i Hi. pose proof (PutChunk_reads pid (fault id) c fs i Hh Hi) as H.
    rewrite E, Hc in H. apply H. }
  split_and!.
  - intros Hv i x Hi Hn. rewrite Hk by done. destruct (decide _) as [[_ ->]|]; [by intros [= <-]|by apply Hv].
  - intros i Hi _ H. rewrite Hk by done. by destruct (decide _).
  - intros ->. right. rewrite Hk by done. rewrite decide_True; [done|]. split; [|done].
    pose proof (PutChunk_reads pid (fault id) c fs _ Hh Hl) as H. rewrite E in H. by apply H.
Qed.

Lemma store_raced R fs fs' id :
  length id = 32%nat → id ∈ R → touches id fs fs' → (valid_but R fs → valid_but R fs') ∧ keeps R fs fs'.
Proof.
  intros Hl Hr Ht.
  assert (Hk : ∀ i, length i = 32%nat → i ∉ R → GetChunk i fs' = GetChunk i fs).
  { intros i Hi Hn. unfold GetChunk. rewrite Ht; [done| |].
    - intros Hp%pathForChunk_inj; [|done..]. by subst.
    - intros Hp. by apply (tmp_path_not_chunk pid id i). }
  split.
  - intros Hv i x Hi Hn. rewrite Hk by done. by apply Hv.
  - intros i Hi Hn. by rewrite Hk.
Qed.

Lemma keeps_refl R fs : keeps R fs fs.
Proof. by intros id. Qed.

Lemma result_ok_mono R R' fs fs' r :
  R ⊆ R' → keeps R fs fs' → result_ok R fs r → result_ok R' fs' r.
Proof.
  intros HR Hm [H1 H2]. split; [|done]. intros He. destruct (H1 He) as [Hl Hr]. split; [done|].
  destruct (decide (tk_ChunkID (wr_Task r) ∈ R)) as [Hi|Hi]; [left; by apply HR|].
  destruct Hr as [|Hg]; [done|]. right. by apply Hm.
Qed.

Lemma worker_ok_mono R R' fs fs' x : R ⊆ R' → keeps R fs fs' → worker_ok R fs x → worker_ok R' fs' x.
Proof. intros HR Hm. destruct x as [p []]; try done. by apply result_ok_mono. Qed.

Lemma workers_split {A} (ws : list A) i x :
  ws !! i = Some x → ∃ l1 l2, ws = l1 ++ x :: l2 ∧ ∀ y, <[i := y]> ws = l1 ++ y :: l2.
Proof.
  intros H. exists (take i ws), (drop (S i) ws). split; [by rewrite take_drop_middle|].
  intros y. apply insert_take_drop. by eapply lookup_lt_Some.
Qed.

Lemma in_flight_length tasks s t :
  Forall (λ t, length (tk_ChunkID t) = 32%nat) tasks → run_ok tasks s →
  t ∈ in_flight s → length (tk_ChunkID t) = 32%nat.
Proof.
  intros Ht Hok Hin. assert (Hk : key t ∈ key <$> tasks).
  { apply (elem_of_submseteq _ _ _ (list_elem_of_fmap_2 key _ t
      (proj2 (elem_of_app _ _ _) (or_introl Hin))) (ro_tasks _ _ Hok)). }
  apply list_elem_of_fmap in Hk as (t' & [= _ ->] & Ht').
  by apply (proj1 (Forall_forall _ _) Ht).
Qed.

(** Normalise the lists of a run and discharge a goal about the tasks in it. *)
Ltac flight := unfold in_flight, Push, alive in *;
  cbn [set_worker set_queue set_results set_store set_raced set_returned cancel set_active complete
    rn_queue rn_workers rn_results rn_completions rn_pending rn_active rn_cancelled rn_returned rn_fs rn_raced
    sum_list_with held fst snd] in *;
  rewrite ?bind_app, ?bind_cons, ?fmap_app, ?fmap_cons, ?fmap_nil, ?app_nil_r, <- ?app_assoc,
    ?sum_list_with_app in *;
  cbn [sum_list_with mbind list_bind held app fst snd] in *;
  rewrite ?fmap_app, ?fmap_cons, ?fmap_nil, ?app_nil_r, <- ?app_assoc in *.

Lemma Next_Some q t q' : Next q = Some (t, q') → q = t :: q'.
Proof. destruct q; intros [=]. by subst. Qed.

Lemma on_result_ok tasks r rest s :
  run_ok tasks s → rn_returned s = None → (0 < rn_pending s)%nat → rn_results s = r :: rest →
  run_ok tasks (on_result maxAttempts sources r (set_results rest s)).
Proof.
  intros [] Hr Hp E. rewrite E in *. unfold on_result.
  apply Forall_cons in ro_results0 as [Hrok Hrest].
  destruct (wr_Error r) as [e|] eqn:Er.
  - assert (Hd : is_done r = bool_decide (Error e = "worker_done"%string)) by (unfold is_done; by rewrite Er).
    destruct (decide (Error e = "worker_done"%string)) as [He|He].
    { rewrite bool_decide_true in Hd by done. split; try done; flight.
      - rewrite E in ro_tasks0. flight. etrans; [|exact ro_tasks0]. solve_submseteq.
      - revert ro_active0. unfold done_mark at 1. rewrite Hd. lia. }
    rewrite bool_decide_false in Hd by done.
    assert (Hk : ∀ k, k = key (wr_Task r) → (key <$> rn_queue s) ++ [k] ++ (key <$> (rn_workers s ≫= held)) ++
      (key <$> (rest ≫= carried)) ++ (key <$> (wr_Task <$> rn_completions s)) ⊆+ key <$> tasks).
    { intros k ->. etrans; [|exact ro_tasks0]. flight. rewrite E. flight.
      unfold carried at 2. rewrite Hd. flight. solve_submseteq. }
    assert (Ha : (rn_active s <= sum_list_with alive (rn_workers s) + sum_list_with done_mark rest)%nat).
    { revert ro_active0. cbn. unfold done_mark at 1. rewrite Hd. lia. }
    assert (Hsub : (key <$> rn_queue s) ++ (key <$> (rn_workers s ≫= held)) ++
      (key <$> (rest ≫= carried)) ++ (key <$> (wr_Task <$> rn_completions s)) ⊆+ key <$> tasks).
    { etrans; [|exact (Hk _ eq_refl)]. solve_submseteq. }
    destruct (errors_Is e _); case_decide; split; try done; flight; rewrite <- ?app_assoc;
      first [done | exact (Hk _ eq_refl)].
  - assert (Hd : is_done r = false) by (unfold is_done; by rewrite Er).
    split; flight; try done.
    + rewrite length_app. cbn. lia.
    + etrans; [|exact ro_tasks0]. rewrite E. flight. unfold carried at 2. rewrite Hd. flight. solve_submseteq.
    + rewrite app_assoc. apply Forall_app. split; [done|]. by apply Forall_singleton.
    + apply Forall_app. split; [done|]. by apply Forall_singleton.
    + revert ro_active0. unfold done_mark at 1. rewrite Hd. lia.
    + by rewrite Hr.
Qed.

(** A step of one worker: the tasks only move between the places they can be in. *)
Lemma worker_step_ok tasks i p w w' q rs fs' R' s :
  run_ok tasks s → rn_workers s !! i = Some (p, w) →
  key <$> (q ++ held (p, w') ++ (rs ≫= carried)) ⊆+
    key <$> (rn_queue s ++ held (p, w) ++ (rn_results s ≫= carried)) →
  rn_raced s ⊆ R' → (NoDup (tk_ChunkID <$> tasks) → R' = ∅) →
  valid_but R' fs' → keeps (rn_raced s) (rn_fs s) fs' →
  worker_ok R' fs' (p, w') → Forall (result_ok R' fs') rs →
  (alive (p, w) + sum_list_with done_mark (rn_results s) <=
     alive (p, w') + sum_list_with done_mark rs)%nat →
  run_ok tasks (set_worker i p w' (set_queue q (set_results rs (set_store fs' (set_raced R' s))))).
Proof.
  intros [] Hi Hk HR Hnd Hv Hm Hw Hrs Ha. destruct (workers_split _ _ _ Hi) as (l1 & l2 & El & Hins).
  split; flight; rewrite ?Hins, El in *; flight; try done.
  - etrans; [|exact ro_tasks0].
    assert (Hk2 := submseteq_app _ _ ((key <$> (l1 ≫= held)) ++ (key <$> (l2 ≫= held)) ++
      (key <$> (wr_Task <$> rn_completions s))) _ Hk (reflexivity _)).
    etrans; [|etrans; [exact Hk2|]]; solve_submseteq.
  - rewrite ?Forall_app, ?Forall_cons in *. destruct ro_workers0 as (H1 & _ & H2).
    split_and!; [|done|]; (eapply Forall_impl; [eassumption|]; intros x; by apply worker_ok_mono).
  - rewrite Forall_app in *. split; [done|]. eapply Forall_impl; [apply ro_results0|].
    intros r. by apply result_ok_mono.
  - lia.
Qed.

(** A step that leaves the store as it is. *)
Lemma worker_move_ok tasks i p w w' q s :
  run_ok tasks s → rn_workers s !! i = Some (p, w) →
  key <$> (q ++ held (p, w')) ⊆+ key <$> (rn_queue s ++ held (p, w)) →
  worker_ok (rn_raced s) (rn_fs s) (p, w') → (alive (p, w) <= alive (p, w'))%nat →
  run_ok tasks (set_worker i p w' (set_queue q s)).
Proof.
  intros Hok Hi Hk Hw Ha. assert (Hres := ro_results _ _ Hok). apply Forall_app in Hres as [Hres _].
  refine (worker_step_ok tasks i p w w' q (rn_results s) (rn_fs s) (rn_raced s) s Hok Hi _ _
    (ro_raced _ _ Hok) (ro_store _ _ Hok) (keeps_refl _ _) Hw Hres _); [|done|lia].
  rewrite !app_assoc, !(fmap_app key (_ ++ _)). by apply submseteq_app.
Qed.

Lemma held_in_flight i p w t s :
  rn_workers s !! i = Some (p, w) → held (p, w) = [t] → t ∈ in_flight s.
Proof.
  intros Hi Hh. destruct (workers_split _ _ _ Hi) as (l1 & l2 & El & _).
  unfold in_flight. rewrite El, bind_app, bind_cons, Hh. set_solver.
Qed.

Lemma storing_held ws id : id ∈ storing ws → id ∈ tk_ChunkID <$> (ws ≫= held).
Proof.
  induction ws as [|[p w] ws IH]; [done|]. unfold storing in *. rewrite !bind_cons, fmap_app, !elem_of_app.
  intros [H|H]; [left|right; by apply IH]. by destruct w; try by apply not_elem_of_nil in H.
Qed.

(** Two workers never store the same chunk at once when no two tasks name the
    same chunk. *)
Lemma storing_apart tasks i p t s :
  run_ok tasks s → rn_workers s !! i = Some (p, Fetching t) → NoDup (tk_ChunkID <$> tasks) →
  tk_ChunkID t ∉ storing (rn_workers s).
Proof.
  intros Hok Hi Hnd. destruct (workers_split _ _ _ Hi) as (l1 & l2 & El & _).
  pose proof (fmap_submseteq snd _ _ (ro_tasks _ _ Hok)) as Hsub.
  rewrite <- !list_fmap_compose in Hsub. change (snd ∘ key) with tk_ChunkID in Hsub.
  apply submseteq_Permutation in Hsub as [k Hk]. rewrite Hk, NoDup_app in Hnd. destruct Hnd as [Hd _].
  clear Hk. unfold in_flight in Hd. rewrite El in *.
  rewrite !bind_app, !bind_cons in Hd. cbn [held snd] in Hd. rewrite !fmap_app in Hd.
  rewrite !NoDup_app in Hd. intros Hs. unfold storing in Hs. rewrite bind_app, bind_cons, elem_of_app in Hs.
  cbn [snd] in Hs. rewrite app_nil_l in Hs. destruct Hs as [Hs|Hs]; apply storing_held in Hs; set_solver.
Qed.

Lemma store_step_ok tasks i p t c fs' r s :
  run_ok tasks s → rn_workers s !! i = Some (p, Storing t c) →
  valid_but (rn_raced s) fs' → keeps (rn_raced s) (rn_fs s) fs' →
  (r = Ok tt → readable (rn_raced s) (tk_ChunkID t) fs') →
  run_ok tasks (set_worker i p (Reporting (report p t (put_error r) (put_bytes c r))) (set_store fs' s)).
Proof.
  intros Hok Hi Hv Hk Hr. assert (Hres := ro_results _ _ Hok). apply Forall_app in Hres as [Hres _].
  destruct (Forall_lookup_1 _ _ _ _ (ro_workers _ _ Hok) Hi) as (Hw1 & Hl & _).
  refine (worker_step_ok tasks i p (Storing t c) (Reporting _) (rn_queue s) (rn_results s) fs' (rn_raced s) s Hok Hi _
    (reflexivity _) (ro_raced _ _ Hok) Hv Hk _ _ _).
  - flight. unfold carried at 1. destruct (is_done _); flight; solve_submseteq.
  - split; [|by intros _]. intros He. split; [done|]. apply Hr. by destruct r as [[]|].
  - eapply Forall_impl; [done|]. intros x. by apply result_ok_mono.
  - done.
Qed.

Lemma run_step_ok tasks b s s' :
  Forall (λ t, length (tk_ChunkID t) = 32%nat) tasks → run_step b s s' → run_ok tasks s → run_ok tasks s'.
Proof.
  intros Ht Hs Hok. pose proof (λ t, in_flight_length tasks s t Ht Hok) as Hlen.
  assert (Hres : Forall (result_ok (rn_raced s) (rn_fs s)) (rn_results s))
    by (pose proof (ro_results _ _ Hok) as H; by apply Forall_app in H as [? _]).
  assert (Hwk : ∀ i x, rn_workers s !! i = Some x → worker_ok (rn_raced s) (rn_fs s) x)
    by (intros i x; apply (Forall_lookup_1 _ _ _ _ (ro_workers _ _ Hok))).
  pose proof (ro_store _ _ Hok) as Hst. pose proof (ro_raced _ _ Hok) as Hrc.
  destruct Hs as [i p s Hi Hq|i p t q s Hi Hq Hm|i p t s Hi|i p s Hi|i p s Hi Hc|i p t q s Hi Hq Hm
    |i p t g g' e s Hi Hf|i p t g g' c s Hi Hf Hsd|i p t c fs' r s Hi Hn Hp|i p t c fs' r s Hi Hn Hp
    |i p r s Hi Hcap|i p s Hi Hcap|r rest s Hr Hp Hac E|e s Hr Hp Hac Hc|s Hr Hp|s Hc].
  13: { by apply on_result_ok. }
  all: try (apply Next_Some in Hq as Hq').
  - by apply (worker_move_ok tasks i p Ready Leaving (rn_queue s) s).
  - apply (worker_move_ok tasks i p Ready (Requeueing t) q s); try done. rewrite Hq'. flight. solve_submseteq.
  - apply (worker_move_ok tasks i p (Requeueing t) Yielding (Push t (rn_queue s)) s); try done. flight. done.
  - by apply (worker_move_ok tasks i p Yielding Ready (rn_queue s) s).
  - by apply (worker_move_ok tasks i p Yielding Leaving (rn_queue s) s).
  - apply (worker_move_ok tasks i p Ready (Fetching t) q s); try done. rewrite Hq'. flight. solve_submseteq.
  - apply (worker_move_ok tasks i p (Fetching t) (Reporting (report p t (Some e) 0)) (rn_queue s) s); try done.
    + flight. unfold carried. destruct (is_done _); flight; solve_submseteq.
    + split; [done|]. intros _. by apply (Hwk _ _ Hi).
  - assert (Hl : length (tk_ChunkID t) = 32%nat) by (by apply Hlen, (held_in_flight i p (Fetching t))).
    destruct (FetchChunk_returns _ _ _ _ _ Hl Hf) as (H1 & H2 & H3).
    set (R' := _ ∪ rn_raced s). assert (HR : rn_raced s ⊆ R') by apply union_subseteq_r.
    apply (worker_step_ok tasks i p (Fetching t) (Storing t c) (rn_queue s) (rn_results s) (rn_fs s) R' s);
      try done; try apply keeps_refl.
    + intros Hnd. unfold R'. rewrite decide_False by (by eapply storing_apart). rewrite Hrc by done. set_solver.
    + intros id x Hid Hn. apply Hst; [done|]. intros Hx. by apply Hn, HR.
    + split_and!; try done. by apply (Hwk _ _ Hi).
    + eapply Forall_impl; [done|]. intros x. apply result_ok_mono; [done|apply keeps_refl].
  - destruct (Hwk _ _ Hi) as (Hw1 & Hl & _ & H1 & H2 & H3).
    destruct (store_put (rn_raced s) c (rn_fs s) fs' r _ H3 H2 Hl H1 Hp) as (Hv & Hk & Hr).
    apply (store_step_ok tasks i p t c fs' r s); auto.
  - destruct (Hwk _ _ Hi) as (Hw1 & Hl & _). destruct (store_raced (rn_raced s) (rn_fs s) fs' _ Hl Hn Hp) as [Hv Hk].
    apply (store_step_ok tasks i p t c fs' r s); auto. intros _. by left.
  - apply (worker_step_ok tasks i p (Reporting r) Ready (rn_queue s) (rn_results s ++ [r]) (rn_fs s) (rn_raced s) s);
      try done; try apply keeps_refl.
    + flight. solve_submseteq.
    + apply Forall_app. split; [done|]. apply Forall_singleton. by apply (Hwk _ _ Hi).
    + flight. lia.
  - apply (worker_step_ok tasks i p Leaving Gone (rn_queue s) (rn_results s ++ [worker_done]) (rn_fs s) (rn_raced s) s);
      try done; try apply keeps_refl.
    + flight. solve_submseteq.
    + apply Forall_app. split; [done|]. by apply Forall_singleton.
    + assert (done_mark worker_done = 1%nat) by reflexivity. flight. lia.
  - by destruct Hok.
  - destruct Hok. split; try done. flight. case_decide; [done|]. intros _. lia.
  - by destruct Hok.
Qed.

(** The store only grows, and a run that has returned stays so. *)
Lemma run_step_grows tasks b s s' :
  run_step b s s' → run_ok tasks s →
  keeps (rn_raced s) (rn_fs s) (rn_fs s') ∧ (∀ r, rn_returned s = Some r → rn_returned s' = Some r).
Proof.
  intros Hs Hok.
  assert (Hwk : ∀ i x, rn_workers s !! i = Some x → worker_ok (rn_raced s) (rn_fs s) x)
    by (intros i x; apply (Forall_lookup_1 _ _ _ _ (ro_workers _ _ Hok))).
  destruct Hs as [| | | | | | | |i p t c fs' r s Hi Hn Hp|i p t c fs' r s Hi Hn Hp| | |r rest s Hr| | |].
  9: { destruct (Hwk _ _ Hi) as (Hw1 & Hl & _ & H1 & H2 & H3). split; [|done].
       by apply (store_put (rn_raced s) c (rn_fs s) fs' r (tk_ChunkID t)). }
  9: { destruct (Hwk _ _ Hi) as (Hw1 & Hl & _). split; [|done]. by apply (store_raced _ _ _ (tk_ChunkID t)). }
  11: { unfold on_result. repeat case_match; split; cbn in *; (done || congruence). }
  all: split; cbn in *; (done || congruence).
Qed.

Lemma start_run_ok tasks connected fs : store_valid fs → run_ok tasks (start_run tasks connected fs).
Proof.
  intros Hv. split; unfold start_run; flight; try done.
  - enough (((λ p, (p, Ready)) <$> connected) ≫= held = []) as -> by (rewrite app_nil_r; done).
    by induction connected.
  - intros id c Hl _. by apply Hv.
  - by apply Forall_fmap, Forall_true.
  - induction connected; cbn; lia.
  - by destruct (decide _).
Qed.

Lemma runs_ok tasks n s s' :
  Forall (λ t, length (tk_ChunkID t) = 32%nat) tasks → runs n s s' → run_ok tasks s → run_ok tasks s'.
Proof. intros Ht Hr Hok. induction Hr; [done|]. eauto using run_step_ok. Qed.

(** ** Bounded work *)

(** The fetches a task may still need. *)
Definition budget (t : ChunkTask) : nat :=
  (1 + Z.to_nat (maxAttempts - tk_Attempts t) + (sources - size (tk_MissedPeers t)))%nat.
Definition w_result (r : WorkerResult) : nat := if is_done r then 1%nat else (5 * budget (wr_Task r) - 4)%nat.
Definition w_worker (x : string * worker) : nat :=
  (match x.2 with
  | Ready | Yielding => 3
  | Requeueing t => 3 + 5 * budget t
  | Fetching t => 3 + (5 * budget t - 1)
  | Storing t _ => 3 + (5 * budget t - 2)
  | Reporting r => 3 + S (w_result r)
  | Leaving => 2
  | Gone => 0
  end)%nat.
(** How many steps that are not polls a run can still take. *)
Definition work (s : Run) : nat :=
  (sum_list_with (λ t, 5 * budget t)%nat (rn_queue s) + sum_list_with w_worker (rn_workers s) +
  sum_list_with w_result (rn_results s) +
  (if rn_returned s then 0 else 1) + (if rn_cancelled s then 0 else 1))%nat.

Lemma budget_missed p t :
  p ∉ tk_MissedPeers t → (size (tk_MissedPeers (missed_by p t)) < sources)%nat →
  (budget (missed_by p t) < budget t)%nat.
Proof.
  intros Hp Hs. unfold budget, missed_by in *. cbn in *.
  rewrite size_union in * by set_solver. rewrite size_singleton in *. lia.
Qed.

Lemma budget_attempted t :
  tk_Attempts (attempted t) < maxAttempts → (budget (attempted t) < budget t)%nat.
Proof. unfold budget, attempted. cbn. lia. Qed.

Lemma on_result_work r rest s R fs :
  rn_returned s = None → rn_results s = r :: rest → result_ok R fs r →
  (work (on_result maxAttempts sources r (set_results rest s)) < work s)%nat.
Proof.
  intros Hr E [_ Hm]. unfold on_result, work. rewrite E, Hr. cbn [sum_list_with].
  assert (Hw : w_result r = if is_done r then 1%nat else (5 * budget (wr_Task r) - 4)%nat) by done.
  destruct (wr_Error r) as [e|] eqn:Er.
  - assert (Hd : is_done r = bool_decide (Error e = "worker_done"%string)) by (unfold is_done; by rewrite Er).
    destruct (decide (Error e = _)) as [He|He].
    { rewrite Hd, bool_decide_true in Hw by done. flight. rewrite Hr, Hw. lia. }
    rewrite bool_decide_false in Hd by done. rewrite Hd in Hw. specialize (Hm Hd). rewrite Hw.
    destruct (errors_Is e _); case_decide as Hlt; flight; rewrite ?Hr; [|lia| |lia].
    + pose proof (budget_missed _ _ Hm Hlt). lia.
    + pose proof (budget_attempted _ Hlt). lia.
  - assert (Hd : is_done r = false) by (unfold is_done; by rewrite Er).
    rewrite Hd in Hw. flight. rewrite Hr, Hw. unfold budget. lia.
Qed.

Lemma run_step_work tasks b s s' :
  run_ok tasks s → run_step b s s' → (work s' + counted b <= work s)%nat.
Proof.
  intros Hok Hs.
  destruct Hs as [i p s Hi Hq|i p t q s Hi Hq Hm|i p t s Hi|i p s Hi|i p s Hi Hc|i p t q s Hi Hq Hm
    |i p t g g' e s Hi Hf|i p t g g' c s Hi Hf Hsd|i p t c fs' r s Hi Hn Hp|i p t c fs' r s Hi Hn Hp
    |i p r s Hi Hcap|i p s Hi Hcap|r rest s Hr Hp Hac E|e s Hr Hp Hac Hc|s Hr Hp|s Hc].
  13: { pose proof (ro_results _ _ Hok) as Hres. rewrite E in Hres. apply Forall_cons in Hres as [Hres _].
        pose proof (on_result_work r rest s _ (rn_fs s) Hr E Hres). cbn [counted]. lia. }
  all: try (apply Next_Some in Hq as Hq').
  all: try (destruct (workers_split _ _ _ Hi) as (l1 & l2 & El & Hins)).
  all: try (assert (Hb : (1 <= budget t)%nat) by (unfold budget; lia)).
  all: unfold work; flight; rewrite ?Hins, ?El, ?Hq', ?Hr, ?Hc; flight;
    unfold w_worker, w_result; flight; cbn [counted].
  all: try lia.
  all: repeat match goal with |- context [is_done ?r] => destruct (is_done r) eqn:? end.
  all: cbn [report wr_Task]; first [lia | discriminate].
Qed.

Lemma runs_work tasks n s s' :
  Forall (λ t, length (tk_ChunkID t) = 32%nat) tasks → run_ok tasks s → runs n s s' → (work s' + n <= work s)%nat.
Proof.
  intros Ht Hok Hr. induction Hr as [s|n b s s1 s' Hs Hr IH]; [lia|].
  pose proof (run_step_work _ _ _ _ Hok Hs). specialize (IH (run_step_ok _ _ _ _ Ht Hs Hok)). lia.
Qed.

(** ** Main results *)

(** When [Run] has returned nil. *)
Lemma run_ok_done tasks s :
  run_ok tasks s → rn_returned s = Some (Ok tt) →
  key <$> (wr_Task <$> rn_completions s) ≡ₚ key <$> tasks ∧
  ∀ t, t ∈ tasks → length (tk_ChunkID t) = 32%nat ∧ readable (rn_raced s) (tk_ChunkID t) (rn_fs s).
Proof.
  intros [] Hret. specialize (ro_returned0 Hret).
  assert (Hp : key <$> (wr_Task <$> rn_completions s) ≡ₚ key <$> tasks).
  { apply submseteq_length_Permutation; [|rewrite !length_fmap; lia].
    etrans; [|exact ro_tasks0]. rewrite fmap_app. by apply submseteq_inserts_l. }
  split; [done|]. intros t Hin.
  assert (Hk : key t ∈ key <$> (wr_Task <$> rn_completions s))
    by (rewrite Hp; by apply list_elem_of_fmap_2).
  apply list_elem_of_fmap in Hk as (t' & [= _ Hid] & (r & -> & Hrin)%list_elem_of_fmap).
  apply Forall_app in ro_results0 as [_ Hres].
  destruct (proj1 (Forall_forall _ _) Hres r Hrin) as [Hok _]. rewrite Hid.
  exact (Hok (proj1 (Forall_forall _ _) ro_completions0 r Hrin)).
Qed.

(** ** Where chunks come from *)

(** Every chunk of [fs'] was in [fs] or was sent by a peer. *)
Definition from_peers (fs fs' : FS) : Prop :=
  ∀ id c, length id = 32%nat → GetChunk id fs' = Ok c → GetChunk id fs = Ok c ∨ sends id c.
#[global] Instance from_peers_preorder : PreOrder from_peers.
Proof.
  split; [intros fs id c; by left|]. intros a b c H1 H2 id x Hid Hx.
  destruct (H2 id x Hid Hx) as [Hb|]; [by apply H1|by right].
Qed.

Lemma run_step_from_peers tasks b s s' :
  run_ok tasks s → rn_raced s = ∅ → run_step b s s' → from_peers (rn_fs s) (rn_fs s').
Proof.
  intros Hok Hrc Hs.
  assert (Hwk : ∀ i x, rn_workers s !! i = Some x → worker_ok (rn_raced s) (rn_fs s) x)
    by (intros i x; apply (Forall_lookup_1 _ _ _ _ (ro_workers _ _ Hok))).
  destruct Hs as [| | | | | | | |i p t c fs' r s Hi Hn Hp|i p t c fs' r s Hi Hn Hp| | |r rest s Hr| | |];
    try reflexivity.
  - destruct (Hwk _ _ Hi) as (_ & Hl & Hsd & _ & Hc & Hh). intros id x Hid. cbn [set_worker set_store rn_fs].
    pose proof (PutChunk_reads pid (fault (tk_ChunkID t)) c (rn_fs s) id Hh Hid) as H. rewrite Hp, Hc in H.
    rewrite (proj1 (proj2 H)). case_decide as Hd; [|by left]. intros [= <-]. right. by rewrite (proj2 Hd).
  - rewrite Hrc in Hn. by apply not_elem_of_empty in Hn.
  - unfold on_result. repeat case_match; reflexivity.
Qed.

(** C29: However workers and main loop interleave, and whatever the peers answer,
    the local store stays content-addressed and no task is reported completed
    twice; and if [Run] returns nil, exactly the tasks it was given were
    reported completed, and each of their chunks is in the store with data that
    hashes to its identifier.  Of the store this holds but for chunks that two
    workers were storing at once, of which there are none when no two tasks
    name the same chunk. *)
Theorem run_complete tasks connected fs n s :
  Forall (λ t, length (tk_ChunkID t) = 32%nat) tasks → store_valid fs →
  runs n (start_run tasks connected fs) s →
  (NoDup (tk_ChunkID <$> tasks) → rn_raced s = ∅) ∧
  valid_but (rn_raced s) (rn_fs s) ∧ key <$> (wr_Task <$> rn_completions s) ⊆+ key <$> tasks ∧
  (rn_returned s = Some (Ok tt) →
    key <$> (wr_Task <$> rn_completions s) ≡ₚ key <$> tasks ∧
    ∀ t, t ∈ tasks → tk_ChunkID t ∉ rn_raced s →
      ∃ c, GetChunk (tk_ChunkID t) (rn_fs s) = Ok c ∧ sha256 (ck_Data c) = tk_ChunkID t).
Proof.
  intros Ht Hv Hr. pose proof (runs_ok _ _ _ _ Ht Hr (start_run_ok _ connected _ Hv)) as Hok.
  split_and!; [apply Hok|apply Hok| |].
  { etrans; [|apply (ro_tasks _ _ Hok)]. rewrite fmap_app. by apply submseteq_inserts_l. }
  intros Hret. destruct (run_ok_done _ _ Hok Hret) as [Hp Hg]. split; [done|]. intros t Hin Hn.
  destruct (Hg t Hin) as [Hl [|Ho]]; [done|]. destruct (GetChunk _ _) as [c|e] eqn:E; [|done].
  exists c. split; [done|]. by apply (ro_store _ _ Hok _ _ Hl Hn E).
Qed.

(** A task as [TransferManager.Download] makes it. *)
Definition fresh_task (t : ChunkTask) : Prop :=
  length (tk_ChunkID t) = 32%nat ∧ tk_Attempts t = 0 ∧ tk_MissedPeers t = ∅.

(** C30: A scheduler run does a bounded amount of work: apart from workers polling
    a queue whose tasks they have missed, it takes at most a number of steps
    linear in tasks times retries and sources, in every interleaving, the
    answers of the peers included. *)
Theorem run_bounded tasks connected fs n s :
  Forall fresh_task tasks → store_valid fs → runs n (start_run tasks connected fs) s →
  (n <= 5 * length tasks * (1 + Z.to_nat maxAttempts + sources) + 3 * length connected + 2)%nat.
Proof.
  intros Hf Hv Hr.
  assert (Ht : Forall (λ t, length (tk_ChunkID t) = 32%nat) tasks)
    by (eapply Forall_impl; [exact Hf|]; by intros t []).
  pose proof (runs_work _ _ _ _ Ht (start_run_ok _ connected _ Hv) Hr) as Hw.
  assert (Hq : (sum_list_with (λ t, 5 * budget t) tasks =
                5 * length tasks * (1 + Z.to_nat maxAttempts + sources))%nat).
  { clear -Hf. induction Hf as [|t ts (_ & Ha & Hm) _ IH]; [done|]. cbn [sum_list_with length].
    rewrite IH. unfold budget. rewrite Ha, Hm, size_empty, Z.sub_0_r, Nat.sub_0_r. lia. }
  assert (Hws : sum_list_with w_worker ((λ p, (p, Ready)) <$> connected) = (3 * length connected)%nat).
  { clear. induction connected as [|p ps IH]; [done|]. cbn [fmap list_fmap sum_list_with length].
    cbn in *. lia. }
  assert (Hs : work (start_run tasks connected fs) = (sum_list_with (λ t, 5 * budget t) tasks +
    sum_list_with w_worker ((λ p, (p, Ready)) <$> connected) + 0 +
    (if rn_returned (start_run tasks connected fs) then 0 else 1) + 1)%nat) by done.
  rewrite Hs, Hq, Hws in Hw. destruct (rn_returned _); lia.
Qed.

Lemma all_gone ws : sum_list_with alive ws ≠ 0%nat → ∃ i p w, ws !! i = Some (p, w) ∧ w ≠ Gone.
Proof.
  induction ws as [|[p w] ws IH]; cbn; [done|]. intros H. destruct (decide (sum_list_with alive ws = 0%nat)) as [E|E].
  - exists 0%nat, p, w. split; [done|]. intros ->. cbn in H. lia.
  - destruct (IH E) as (i & p' & w' & Hi & Hw). by exists (S i), p', w'.
Qed.

(** *** Progress *)

(** In the loop of a worker whose peer misses the tasks it finds. *)
Definition polling (w : worker) : Prop :=
  match w with Ready | Requeueing _ | Yielding => True | _ => False end.

#[global] Instance polling_dec w : Decision (polling w).
Proof. destruct w; apply _. Defined.
#[global] Instance gone_dec w : Decision (w = Gone).
Proof. destruct w; (by left) || (by right). Defined.
#[global] Instance ready_dec w : Decision (w = Ready).
Proof. destruct w; (by left) || (by right). Defined.

(** Everything left to do has been missed by every worker that is left. *)
Record spinning (s : Run) : Prop := {
  sp_results : rn_results s = [];
  sp_tasks : in_flight s ≠ [];
  sp_workers : ∀ i p w, rn_workers s !! i = Some (p, w) →
    w = Gone ∨ polling w ∧ ∀ t, t ∈ in_flight s → p ∈ tk_MissedPeers t;
}.

(** After some polls, a worker or the main loop can go on by itself. *)
Definition can_go_on (s : Run) : Prop :=
  ∃ s1 s2, rtc (run_step Poll) s s1 ∧ run_step Work s1 s2 ∧ rn_cancelled s2 = rn_cancelled s.

Lemma can_go_on_polls s s1 :
  rtc (run_step Poll) s s1 → rn_cancelled s1 = rn_cancelled s → can_go_on s1 → can_go_on s.
Proof. intros Hp Hc (s2 & s3 & H2 & H3 & E). exists s2, s3. split_and!; [by etrans|done|congruence]. Qed.

(** A worker that is neither gone nor polling and does not wait for its peer. *)
Lemma busy_goes_on i p w s :
  rn_results s = [] → (0 < sources)%nat → rn_workers s !! i = Some (p, w) →
  w = Gone ∨ polling w ∨ (∃ t, w = Fetching t) ∨ can_go_on s.
Proof.
  intros Er Hsrc Hi. destruct w as [|t| |t|t c|r| |]; cbn; auto; [by eauto| | |].
  - do 3 right. destruct (decide (tk_ChunkID t ∈ rn_raced s)) as [Hr|Hr].
    + eexists s, _. split_and!; [done|by eapply (w_stored_raced i p t c (rn_fs s) (Ok tt))|done].
    + destruct (PutChunk pid (fault (tk_ChunkID t)) c (rn_fs s)) as [fs' r] eqn:Ep.
      eexists s, _. split_and!; [done|by eapply w_stored|done].
  - do 3 right. eexists s, _. split_and!; [done|eapply w_report; [done|rewrite Er; cbn; lia]|done].
  - do 3 right. eexists s, _. split_and!; [done|eapply w_leave; [done|rewrite Er; cbn; lia]|done].
Qed.

(** *** The workers that poll come back to the queue *)

Definition unsettled (x : string * worker) : nat :=
  match x.2 with Requeueing _ => 2 | Yielding => 1 | _ => 0 end.
Definition quiet (x : string * worker) : Prop := x.2 = Gone ∨ polling x.2.
#[global] Instance quiet_dec x : Decision (quiet x).
Proof. apply _. Defined.
Definition calm (x : string * worker) : Prop := x.2 = Gone ∨ x.2 = Ready.
Definition station (x : string * worker) : string * bool := (x.1, match x.2 with Gone => true | _ => false end).

Record settled (s s1 : Run) : Prop := {
  sd_polls : rtc (run_step Poll) s s1;
  sd_results : rn_results s1 = rn_results s;
  sd_cancelled : rn_cancelled s1 = rn_cancelled s;
  sd_tasks : in_flight s1 ≡ₚ in_flight s;
  sd_workers : station <$> rn_workers s1 = station <$> rn_workers s;
}.

Lemma settled_step i p w w1 q s s1 :
  rn_workers s !! i = Some (p, w) → polling w → polling w1 →
  q ++ held (p, w1) ≡ₚ rn_queue s ++ held (p, w) →
  run_step Poll s (set_worker i p w1 (set_queue q s)) →
  settled (set_worker i p w1 (set_queue q s)) s1 → settled s s1.
Proof.
  intros Hi Hw Hw1 Hq Hs [H1 H2 H3 H4 H5]. destruct (workers_split _ _ _ Hi) as (l1 & l2 & El & Hins).
  split; [by eapply rtc_l|done|done| |].
  - rewrite H4. unfold in_flight. cbn [set_worker set_queue rn_queue rn_workers rn_results].
    rewrite Hins, El, !bind_app, !bind_cons.
    transitivity ((q ++ held (p, w1)) ++ (l1 ≫= held) ++ (l2 ≫= held) ++ (rn_results s ≫= carried));
      [solve_Permutation|]. rewrite Hq. solve_Permutation.
  - rewrite H5. cbn [set_worker set_queue rn_workers]. rewrite Hins, El, !fmap_app, !fmap_cons.
    do 2 f_equal. by destruct w, w1.
Qed.

Lemma settle s :
  Forall quiet (rn_workers s) → ∃ s1, settled s s1 ∧ Forall calm (rn_workers s1).
Proof.
  remember (sum_list_with unsettled (rn_workers s)) as n eqn:En. revert s En.
  induction (lt_wf n) as [n _ IH]. intros s En Hq.
  destruct (decide (Exists (λ x, unsettled x ≠ 0%nat) (rn_workers s))) as [He|He].
  - apply Exists_exists in He as ([p w] & (i & Hi)%list_elem_of_lookup & Hu).
    destruct (workers_split _ _ _ Hi) as (l1 & l2 & El & Hins).
    rewrite El, sum_list_with_app in En. cbn [sum_list_with] in En.
    assert (Hgo : ∀ w1 q, polling w → polling w1 → (unsettled (p, w1) < unsettled (p, w))%nat →
      q ++ held (p, w1) ≡ₚ rn_queue s ++ held (p, w) → run_step Poll s (set_worker i p w1 (set_queue q s)) →
      ∃ s1, settled s s1 ∧ Forall calm (rn_workers s1)).
    { intros w1 q Hw Hw1 Hlt Hk Hs. set (s0 := set_worker i p w1 (set_queue q s)).
      destruct (IH (sum_list_with unsettled (rn_workers s0))) with (s := s0) as (s1 & Hs1 & Hc); [|done| |].
      - cbn [s0 set_worker set_queue rn_workers]. rewrite Hins, sum_list_with_app. cbn [sum_list_with]. lia.
      - apply (Forall_insert _ _ i (p, w1) Hq). by right.
      - exists s1. split; [|exact Hc]. by eapply settled_step. }
    destruct w as [|t| |t|t c|r| |]; try (by destruct Hu).
    + apply (Hgo Yielding (Push t (rn_queue s))); [done..|cbn; lia| |by eapply w_requeue].
      unfold Push. cbn [held snd]. by rewrite app_nil_r.
    + apply (Hgo Ready (rn_queue s)); [done..|cbn; lia|done|]. replace (set_queue (rn_queue s) s) with s by (by destruct s).
      by eapply w_yielded.
  - exists s. split; [done|]. apply Forall_forall. intros [p w] Hx. rewrite Forall_forall in Hq.
    destruct (Hq _ Hx) as [|Hp]; [by left|]. right.
    assert (Hu : unsettled (p, w) = 0%nat).
    { destruct (decide (unsettled (p, w) = 0%nat)); [done|]. destruct He. apply Exists_exists. by eexists. }
    by destruct w.
Qed.

Lemma calm_in_flight s :
  Forall calm (rn_workers s) → rn_results s = [] → in_flight s = rn_queue s.
Proof.
  intros Hc Hr. unfold in_flight. rewrite Hr. replace (rn_workers s ≫= held) with (@nil ChunkTask).
  - by rewrite app_nil_r.
  - induction Hc as [|[p w] ws [Hw|Hw] _ IH]; [done|..]; rewrite bind_cons, <- IH; cbn in Hw; by subst.
Qed.

(** A worker that is ready turns the queue until it finds a task its peer is
    not known to miss. *)
Lemma rotate pre t post i p s :
  rn_workers s !! i = Some (p, Ready) → rn_queue s = pre ++ t :: post → p ∉ tk_MissedPeers t → can_go_on s.
Proof.
  revert post s. induction pre as [|h pre IH]; intros post s Hi Hq Ht.
  { eexists s, _. split_and!; [done| |]; [eapply w_take; [done|by rewrite Hq|done]|done]. }
  destruct (decide (p ∈ tk_MissedPeers h)) as [Hm|Hm].
  2: { eexists s, _. split_and!; [done| |]; [eapply w_take; [done|by rewrite Hq|done]|done]. }
  set (s1 := set_worker i p (Requeueing h) (set_queue (pre ++ t :: post) s)).
  set (s2 := set_worker i p Yielding (set_queue (Push h (pre ++ t :: post)) s1)).
  set (s3 := set_worker i p Ready s2).
  assert (Hl : (i < length (rn_workers s))%nat) by (by eapply lookup_lt_Some).
  assert (H1 : rn_workers s1 !! i = Some (p, Requeueing h)) by (by apply list_lookup_insert_eq).
  assert (H2 : rn_workers s2 !! i = Some (p, Yielding))
    by (apply list_lookup_insert_eq; cbn; by rewrite length_insert).
  assert (H3 : rn_workers s3 !! i = Some (p, Ready))
    by (apply list_lookup_insert_eq; cbn; by rewrite !length_insert).
  apply (can_go_on_polls s s3); [|done|].
  - eapply rtc_l; [by eapply (w_missed i p h (pre ++ t :: post)); [..|done]; rewrite ?Hq|].
    eapply rtc_l; [by apply (w_requeue i p h s1)|]. apply rtc_once. by apply w_yielded.
  - apply (IH (post ++ [h]) s3); [done| |done]. cbn. unfold Push. by rewrite <- app_assoc.
Qed.

Lemma quiet_progress s :
  rn_results s = [] → Forall quiet (rn_workers s) →
  (∃ i p w, rn_workers s !! i = Some (p, w) ∧ w ≠ Gone) → can_go_on s ∨ spinning s.
Proof.
  intros Hr Hq (i & p & w & Hi & Hw). destruct (settle s Hq) as (s1 & [H1 H2 H3 H4 H5] & Hc).
  rewrite Hr in H2. pose proof (calm_in_flight s1 Hc H2) as Ef.
  assert (Hst : ∀ j x, rn_workers s !! j = Some x → x.2 ≠ Gone → rn_workers s1 !! j = Some (x.1, Ready)).
  { intros j x Hj Hx. apply (f_equal (.!! j)) in H5. rewrite !list_lookup_fmap, Hj in H5.
    destruct (rn_workers s1 !! j) as [y|] eqn:Ey; [|done]. cbn in H5. unfold station in H5. simplify_eq.
    destruct (Forall_lookup_1 _ _ _ _ Hc Ey) as [Hy|Hy]; destruct y as [py wy]; cbn in *; subst; [|congruence].
    by destruct x as [? []]. }
  assert (Hgo : can_go_on s1 → can_go_on s) by (by apply can_go_on_polls).
  destruct (rn_queue s1) as [|t0 q0] eqn:Eq.
  { left. apply Hgo. eexists s1, _. split_and!; [done|eapply (w_empty i p); [by apply (Hst i (p, w))|by rewrite Eq]|done]. }
  rewrite <- Eq in Ef.
  destruct (decide (Exists (λ x, x.2 = Ready ∧ Exists (λ t, x.1 ∉ tk_MissedPeers t) (rn_queue s1)) (rn_workers s1)))
    as [He|He].
  { left. apply Hgo. apply Exists_exists in He as ([p' w'] & (j & Hj)%list_elem_of_lookup & Hw' & Ht).
    cbn in *. subst. apply Exists_exists in Ht as (t & (pre & post & Eqt)%list_elem_of_split & Hm). by eapply rotate. }
  right. rewrite Forall_forall in Hq. split; [done| |].
  - intros E. rewrite E, Ef, Eq in H4. by apply Permutation_nil_r in H4.
  - intros j p' w' Hj. destruct (Hq _ (list_elem_of_lookup_2 _ _ _ Hj)) as [|Hp]; [by left|]. right.
    split; [done|]. intros t Ht. rewrite <- H4, Ef in Ht.
    destruct (decide (p' ∈ tk_MissedPeers t)) as [|Hm]; [done|]. destruct He. apply Exists_exists.
    exists (p', Ready). split; [|split; [done|]; apply Exists_exists; by exists t].
    apply list_elem_of_lookup. exists j. apply (Hst j (p', w') Hj). by destruct w'.
Qed.

(** C31: While [Run] has not returned, it can always go on, after some polling at
    most, without the context being cancelled, except in two situations: a
    worker waits for the answer of its peer, for which there is no deadline; or
    every worker that is left keeps polling tasks each of which its own peer is
    known to miss. *)
Theorem run_progress tasks connected fs n s :
  Forall (λ t, length (tk_ChunkID t) = 32%nat) tasks → store_valid fs → (0 < sources)%nat →
  runs n (start_run tasks connected fs) s → rn_returned s = None →
  can_go_on s ∨ (∃ i p t, rn_workers s !! i = Some (p, Fetching t)) ∨ spinning s.
Proof.
  intros Ht Hv Hsrc Hr Hret. pose proof (ro_active _ _ (runs_ok _ _ _ _ Ht Hr (start_run_ok _ connected _ Hv))) as Ha.
  destruct (decide (rn_pending s = 0 ∨ rn_active s = 0)%nat) as [H0|H0].
  { left. eexists s, _. split_and!; [done|by apply m_end|done]. }
  destruct (rn_results s) as [|r rest] eqn:Eres.
  2: { left. eexists s, _. split_and!; [done|eapply m_result; [done|lia|lia|exact Eres]|].
       unfold on_result. repeat case_match; done. }
  pose proof (all_gone (rn_workers s) ltac:(cbn in Ha; lia)) as Halive.
  destruct (decide (Exists (λ x, ¬ quiet x) (rn_workers s))) as [He|He].
  - apply Exists_exists in He as ([p w] & (i & Hi)%list_elem_of_lookup & Hq).
    destruct (busy_goes_on i p w s Eres Hsrc Hi) as [->|[Hp|[[t ->]|Hg]]]; [| | |by left].
    + destruct Hq. by left.
    + destruct Hq. by right.
    + right. left. by exists i, p, t.
  - destruct (quiet_progress s Eres) as [|]; [|done|by left|by right; right].
    apply Forall_forall. intros x Hx. destruct (decide (quiet x)) as [|Hq]; [done|].
    destruct He. apply Exists_exists. by exists x.
Qed.

End run.

(** ** Three ways a run can go wrong *)

Lemma fetch_write_error {TC : TicketCodec} {TG : Type}
    (tg : option (list byte → TG → TG * result SignedTicket)) id (g : TG) e :
  may_return (FetchChunk tg id g) (g, Err (Wrap "failed to send REQUEST_CHUNK" e)).
Proof. by eapply (mr_send _ _ (Err e)), mr_ret. Qed.

(** A worker leaves as soon as it finds the queue empty, even while the main
    loop is about to put a task back for a retry.  With one source, one failed
    fetch and retries left, [Run] can therefore give up with the task queued
    and no worker to take it. *)
Theorem retry_lost {TC : TicketCodec} {TG : Type}
    (tg : option (list byte → TG → TG * result SignedTicket)) (g : TG) maxAttempts pid fault sends t p fs :
  fresh_task t → 1 < maxAttempts →
  ∃ n s, runs tg 1 maxAttempts pid fault sends n (start_run [t] [p] fs) s ∧
    rn_returned s = Some (Err (New "all workers died, 1 chunks remaining")) ∧
    rn_queue s = [attempted t].
Proof.
  intros (_ & Ha & Hm) Hmax. eexists _, _. split.
  - eapply runs_cons; [eapply (w_take _ _ _ _ _ _ 0%nat p t []); [done|done|by rewrite Hm]|].
    eapply runs_cons; [eapply (w_fetch_failed _ _ _ _ _ _ 0%nat p t); [done|by apply (fetch_write_error _ _ g EOF)]|].
    eapply runs_cons; [eapply (w_report _ _ _ _ _ _ 0%nat p); [done|cbn; lia]|].
    eapply runs_cons; [eapply (w_empty _ _ _ _ _ _ 0%nat p); done|].
    eapply runs_cons; [eapply (w_leave _ _ _ _ _ _ 0%nat p); [done|cbn; lia]|].
    eapply runs_cons; [eapply m_result; [done|cbn; lia|cbn; lia|done]|].
    unfold on_result at 1. cbn [wr_Error report]. rewrite decide_False by (by vm_compute).
    replace (errors_Is _ _) with false by reflexivity. cbn [wr_Task report].
    rewrite decide_True by (unfold attempted; cbn; rewrite Ha; lia).
    eapply runs_cons; [eapply m_result; [done|cbn; lia|cbn; lia|done]|].
    eapply runs_cons; [eapply m_end; [done|by right]|]. apply runs_nil.
  - done.
Qed.

(** The steps taken while the context is not cancelled. *)
Definition uncancelled {TC : TicketCodec} {TG : Type}
    (tg : option (list byte → TG → TG * result SignedTicket)) sources maxAttempts pid fault sends (s s' : Run) : Prop :=
  (∃ b, run_step tg sources maxAttempts pid fault sends b s s') ∧ rn_cancelled s' = false.

(** One worker that polls one task its peer misses. *)
Record polls_alone (p : string) (t : ChunkTask) (s : Run) : Prop := {
  pa_returned : rn_returned s = None;
  pa_results : rn_results s = [];
  pa_counts : rn_pending s = 1%nat ∧ rn_active s = 1%nat;
  pa_cancelled : rn_cancelled s = false;
  pa_place : (rn_workers s = [(p, Ready)] ∧ rn_queue s = [t]) ∨
             (rn_workers s = [(p, Requeueing t)] ∧ rn_queue s = []) ∨
             (rn_workers s = [(p, Yielding)] ∧ rn_queue s = [t]);
}.

Lemma polls_alone_step {TC : TicketCodec} {TG : Type}
    (tg : option (list byte → TG → TG * result SignedTicket)) sources maxAttempts pid fault sends p t s s' :
  p ∈ tk_MissedPeers t → uncancelled tg sources maxAttempts pid fault sends s s' → polls_alone p t s → polls_alone p t s'.
Proof.
  intros Hm [[b Hs] Hc] [H1 H2 [H3 H3'] H4 Hp].
  destruct Hp as [[Hw Hq]|[[Hw Hq]|[Hw Hq]]]; inversion Hs; subst; cbn in *; rewrite ?Hw, ?Hq in *;
    repeat match goal with H : [_] !! ?i = Some _ |- _ => destruct i; [|done]; injection H as ? end; subst;
    simplify_eq/=; try done; try congruence; try lia; (split; cbn; rewrite ?Hw; auto).
Qed.

(** The number of misses is compared with the number of sources, connected or
    not.  When one of two sources could not be connected and the other does
    not have the chunk, the remaining worker polls for ever: unless it is
    cancelled, [Run] never returns. *)
Theorem miss_spins {TC : TicketCodec} {TG : Type}
    (tg : option (list byte → TG → TG * result SignedTicket)) (g : TG) maxAttempts pid fault sends t p fs :
  fresh_task t →
  ∃ n s, runs tg 2 maxAttempts pid fault sends n (start_run [t] [p] fs) s ∧ spinning s ∧
    ∀ s', rtc (uncancelled tg 2 maxAttempts pid fault sends) s s' → rn_returned s' = None.
Proof.
  intros (_ & Ha & Hm). eexists _, _. split.
  - eapply runs_cons; [eapply (w_take _ _ _ _ _ _ 0%nat p t []); [done|done|by rewrite Hm]|].
    eapply runs_cons.
    { eapply (w_fetch_failed _ _ _ _ _ _ 0%nat p t g g ErrRemoteChunkNotFound); [done|].
      eapply (mr_send _ _ (Ok tt)), (mr_recv _ (Ok (BuildError ErrChunkNotFound ""))).
      unfold fetch_response, parse_error. cbn -[sha256]. constructor. }
    eapply runs_cons; [eapply (w_report _ _ _ _ _ _ 0%nat p); [done|cbn; lia]|].
    eapply runs_cons; [eapply m_result; [done|cbn; lia|cbn; lia|done]|].
    unfold on_result at 1. cbn [wr_Error report]. rewrite decide_False by (by vm_compute).
    replace (errors_Is _ _) with true by reflexivity. cbn [wr_Task wr_PeerID report].
    rewrite decide_True; [apply runs_nil|]. unfold missed_by. cbn [tk_MissedPeers]. rewrite Hm.
    rewrite union_empty_r_L, size_singleton. lia.
  - assert (Hp : p ∈ tk_MissedPeers (missed_by p t)) by (cbn; set_solver). split.
    + split; [done|done|]. intros [|i] p' w Hi; [|done]. cbn in Hi. simplify_eq. right. split; [done|].
      intros t' Ht. cbn in Ht. apply list_elem_of_singleton in Ht as ->. done.
    + intros s' Hr. eapply (pa_returned p (missed_by p t)). revert Hr. apply rtc_invariant.
      * intros x y. by apply polls_alone_step.
      * split; cbn; auto.
Qed.

(** [FetchChunk] has no deadline and does not look at its context: while the
    peer of the only worker does not answer nothing happens, and even when the
    context is cancelled the worker stays. *)
Theorem silent_peer_blocks {TC : TicketCodec} {TG : Type}
    (tg : option (list byte → TG → TG * result SignedTicket)) maxAttempts pid fault sends t p fs :
  fresh_task t →
  ∃ n s, runs tg 1 maxAttempts pid fault sends n (start_run [t] [p] fs) s ∧ rn_returned s = None ∧
    (∀ b s', run_step tg 1 maxAttempts pid fault sends b s s' → b = Answer ∨ s' = cancel s) ∧
    ∀ b s', run_step tg 1 maxAttempts pid fault sends b (cancel s) s' → b = Answer ∨ rn_workers s' = rn_workers s.
Proof.
  intros (_ & Ha & Hm). eexists _, _. split_and!.
  - eapply runs_cons; [eapply (w_take _ _ _ _ _ _ 0%nat p t []); [done|done|by rewrite Hm]|]. apply runs_nil.
  - done.
  - intros b s' Hs. inversion Hs; subst; cbn in *; auto.
    all: repeat match goal with H : [_] !! ?i = Some _ |- _ => destruct i; [|done]; injection H as ? end; subst.
    all: try done; try lia.
  - intros b s' Hs. inversion Hs; subst; cbn in *; auto.
    all: repeat match goal with H : [_] !! ?i = Some _ |- _ => destruct i; [|done]; injection H as ? end; subst.
    all: try done; try lia.
Qed.

(** ** Witnesses *)

Definition task_for (id : list byte) : ChunkTask :=
  {| tk_Index := 0; tk_ChunkID := id; tk_Attempts := 0; tk_MissedPeers := ∅ |}.
Definition wt_task : ChunkTask := task_for (ws_id x61).

Lemma task_for_fresh id : length id = 32%nat → fresh_task (task_for id).
Proof. intros H. split_and!; [exact H|done|done]. Qed.
Lemma wt_fresh : fresh_task wt_task.
Proof. apply task_for_fresh, length_ws_id. Qed.

Lemma empty_store_valid : store_valid ∅.
Proof. intros id c _ H. discriminate H. Qed.

(** One worker fetches and stores the chunk, then [Run] returns nil. *)
Lemma one_fetch_run {TC : TicketCodec} {TG : Type}
    (tg : option (list byte → TG → TG * result SignedTicket)) maxAttempts pid fault (sends : list byte → Chunk → Prop)
    t p fs fs' (g g' : TG) c :
  p ∉ tk_MissedPeers t → may_return (FetchChunk tg (tk_ChunkID t) g) (g', Ok c) → sends (tk_ChunkID t) c →
  PutChunk pid (fault (tk_ChunkID t)) c fs = (fs', Ok tt) →
  ∃ n s, runs tg 1 maxAttempts pid fault sends n (start_run [t] [p] fs) s ∧ rn_returned s = Some (Ok tt).
Proof.
  intros Hp Hf Hsd Ep. eexists _, _. split.
  - eapply runs_cons; [eapply (w_take _ _ _ _ _ _ 0%nat p t []); done|].
    eapply runs_cons; [eapply (w_fetched _ _ _ _ _ _ 0%nat p t); [done|exact Hf|exact Hsd]|].
    eapply runs_cons; [eapply (w_stored _ _ _ _ _ _ 0%nat p t); [done| |exact Ep]|].
    { cbn -[elem_of]. rewrite decide_False by apply not_elem_of_nil. set_solver. }
    eapply runs_cons; [eapply (w_report _ _ _ _ _ _ 0%nat p); [done|cbn; lia]|].
    eapply runs_cons; [eapply m_result; [done|cbn; lia|cbn; lia|done]|].
    eapply runs_cons; [eapply m_end; [done|by left]|]. apply runs_nil.
  - done.
Qed.

(** A run that fetches one chunk from a provider that serves it. *)
Lemma one_chunk_run provider id c (sends : list byte → Chunk → Prop) :
  serves (λ _, false) provider id c → sends id (set_chunk_id id c) → ∃ n s,
  runs (TC := OneTicketCodec) (TG := ()) None 1 3 1 (λ _, None) sends n (start_run [task_for id] ["p"] ∅) s ∧
  rn_returned s = Some (Ok tt).
Proof.
  intros Hc Hs. destruct (PutChunk 1 None (set_chunk_id id c) ∅) as [fs' r] eqn:E.
  assert (r = Ok tt) as -> by (apply (f_equal snd) in E; symmetry; exact E).
  eapply (one_fetch_run None 3 1 (λ _, None) sends (task_for id) "p" ∅ fs' tt tt); [apply not_elem_of_empty| |exact Hs|exact E].
  eapply (mr_send _ _ (Ok tt)), (mr_recv _ (Ok (BuildChunk c))).
  change (tk_ChunkID (task_for id)) with id. rewrite (client_on_chunk (λ _, false) None provider) by exact Hc.
  eapply (mr_send _ _ (Ok tt)), mr_ret.
Qed.

Lemma wt_run : ∃ n s,
  runs (TC := OneTicketCodec) (TG := ()) None 1 3 1 (λ _, None) (λ _ _, True) n (start_run [wt_task] ["p"] ∅) s ∧
  rn_returned s = Some (Ok tt).
Proof. eapply one_chunk_run; [apply ws_serves; by left|exact I]. Qed.

Lemma run_complete_witness : ∃ (fs : FS) c, GetChunk (ws_id x61) fs = Ok c ∧ sha256 (ck_Data c) = ws_id x61.
Proof.
  destruct wt_run as (n & s & Hr & Hret). exists (rn_fs s).
  destruct (run_complete (TC := OneTicketCodec) (TG := ()) None 1 3 1 (λ _, None) (λ _ _, True) [wt_task] ["p"%string] ∅ n s)
    as (Hnd & _ & _ & H); [apply Forall_singleton, wt_fresh|exact empty_store_valid|exact Hr|].
  apply (proj2 (H Hret) wt_task); [by left|]. rewrite Hnd; [apply not_elem_of_empty|apply NoDup_singleton].
Defined.

Lemma run_bounded_witness : ∃ n s,
  runs (TC := OneTicketCodec) (TG := ()) None 1 3 1 (λ _, None) (λ _ _, True) n (start_run [wt_task] ["p"] ∅) s ∧
  rn_returned s = Some (Ok tt) ∧ (n <= 30)%nat.
Proof.
  destruct wt_run as (n & s & Hr & Hret). exists n, s. split_and!; [exact Hr|exact Hret|].
  exact (run_bounded (TC := OneTicketCodec) (TG := ()) None 1 3 1 (λ _, None) (λ _ _, True) [wt_task] ["p"%string] ∅ n s
    (proj2 (Forall_singleton _ _) wt_fresh) empty_store_valid Hr).
Defined.

(** Right after the start the worker can take the task. *)
Lemma run_progress_witness :
  can_go_on (TC := OneTicketCodec) (TG := ()) None 1 3 1 (λ _, None) (λ _ _, True) (start_run [wt_task] ["p"%string] ∅).
Proof.
  destruct (run_progress (TC := OneTicketCodec) (TG := ()) None 1 3 1 (λ _, None) (λ _ _, True) [wt_task] ["p"%string] ∅ 0
    (start_run [wt_task] ["p"%string] ∅)) as [H|[(i & p & t & Hi)|[_ _ H]]].
  - apply Forall_singleton, wt_fresh.
  - exact empty_store_valid.
  - lia.
  - apply runs_nil.
  - done.
  - exact H.
  - destruct i; discriminate Hi.
  - destruct (H 0%nat "p"%string Ready eq_refl) as [|[_ Hm]]; [done|].
    specialize (Hm wt_task ltac:(by left)). by apply not_elem_of_empty in Hm.
Defined.
