(* ===== verification/Manager.v ===== *)
(** * Resumable downloads

    network/transfer/manager: retry.go ([ExecuteWithRetry]), session.go (the
    session files behind the [SessionManager] interface) and transfer.go
    ([TransferManager.Download]), on top of the scheduler of Transfer.v; and
    network/retrieval/resolver.go ([ResolveManifest]).

    The [StartedAt] and [UpdatedAt] times of a session, which nothing reads,
    and the metrics table are left out. *)

From S2P Require Import Prelude Sha256 Content Tickets ChunkProtocol Session ChunkSession Push Transfer.

(** ** retry.go *)

Record RetryPolicy := { rp_MaxRetries : Z }.
Definition DefaultRetryPolicy : RetryPolicy := {| rp_MaxRetries := 3 |}.

Section retry.
Context {S : Type}.
(** [cancelled]: what each look at the context finds, in order (none left:
    it is not cancelled); [op] works on the state [S]. *)
Context (op : S → S * result ()).

Definition look (ctx : list (option error)) : option error * list (option error) :=
  match ctx with [] => (None, []) | e :: rest => (e, rest) end.

(** The loop with [n] retries left. *)
Fixpoint retry_loop (n : nat) (ctx : list (option error)) (s : S) : S * result () :=
  match look ctx with
  | (Some e, _) => (s, Err e)
  | (None, ctx1) =>
      match op s with
      | (s', Ok _) => (s', Ok tt)
      | (s', Err lastErr) =>
          match n with
          | O => (s', Err lastErr)
          | Datatypes.S n' =>
              match look ctx1 with          (* the wait before the next attempt *)
              | (Some e, _) => (s', Err e)
              | (None, ctx2) => retry_loop n' ctx2 s'
              end
          end
      end
  end.

(** With a negative [MaxRetries] the loop body never runs and [lastErr] is nil. *)
Definition ExecuteWithRetry (policy : RetryPolicy) (ctx : list (option error)) (s : S)
    : S * result () :=
  if decide (rp_MaxRetries policy < 0) then (s, Ok tt)
  else retry_loop (Z.to_nat (rp_MaxRetries policy)) ctx s.

(** The state after [n] calls of the operation. *)
Fixpoint op_iter (n : nat) (s : S) : S :=
  match n with O => s | Datatypes.S n' => op_iter n' (op s).1 end.
End retry.

(** ** session.go *)

Definition StatusInProgress : string := "IN_PROGRESS".
Definition StatusPaused : string := "PAUSED".
Definition StatusCompleted : string := "COMPLETED".
Definition StatusFailed : string := "FAILED".

Record TransferSession := {
  ts_ContentID : list byte;
  ts_TargetPeer : string;
  ts_Completed : list bool;
  ts_TotalChunks : Z;
  ts_Status : string;
}.

Definition CompletedCount (s : TransferSession) : nat := count_occ Bool.bool_dec (ts_Completed s) true.

Definition set_status (st : string) (s : TransferSession) : TransferSession :=
  {| ts_ContentID := ts_ContentID s; ts_TargetPeer := ts_TargetPeer s; ts_Completed := ts_Completed s;
     ts_TotalChunks := ts_TotalChunks s; ts_Status := st |}.
Definition set_completed (c : list bool) (s : TransferSession) : TransferSession :=
  {| ts_ContentID := ts_ContentID s; ts_TargetPeer := ts_TargetPeer s; ts_Completed := c;
     ts_TotalChunks := ts_TotalChunks s; ts_Status := ts_Status s |}.

(** What the manager relies on: a successful [Save] is what [Open] then finds,
    a failed one changes nothing, and no other session is touched. *)
Class SessionManager (SM : Type) := {
  sm_Open : list byte → SM → result (option TransferSession);
  sm_Save : TransferSession → SM → SM → result () → Prop;
  sm_Save_ok : ∀ s m m' id,
    length (ts_ContentID s) = 32%nat → length id = 32%nat → sm_Save s m m' (Ok tt) →
    sm_Open id m' = if decide (id = ts_ContentID s) then Ok (Some s) else sm_Open id m;
  sm_Save_err : ∀ s m m' e id,
    length (ts_ContentID s) = 32%nat → length id = 32%nat → sm_Save s m m' (Err e) →
    sm_Open id m' = sm_Open id m;
}.

(** encoding/json on sessions. *)
Class SessionCodec := {
  session_Marshal : TransferSession → result (list byte);
  session_Unmarshal : list byte → result TransferSession;
  session_Unmarshal_Marshal : ∀ s d, session_Marshal s = Ok d → session_Unmarshal d = Ok s;
}.

(** *** FileSessionManager: one file per session in a directory *)

Definition getPath (id : list byte) : string := EncodeToString id +:+ ".json".

Section files.
Context {SC : SessionCodec}.

(** [io e] is an error of the read other than that the file does not exist. *)
Definition Open (id : list byte) (io : option error) (dir : FS) : result (option TransferSession) :=
  match dir !! getPath id with
  | None => Ok None
  | Some b =>
      match io with
      | Some e => Err e
      | None => let! s := session_Unmarshal b in Ok (Some s)
      end
  end.

(** A failed write leaves part of the data in the temporary file. *)
Inductive save_fault := WriteTmp (part : list byte) (e : error) | RenameFails (e : error).

Definition Save (fault : option save_fault) (session : TransferSession) (dir : FS) : FS * result () :=
  match session_Marshal session with
  | Err e => (dir, Err e)
  | Ok b =>
      let path := getPath (ts_ContentID session) in
      let tmpPath := path +:+ ".tmp" in
      match fault with
      | Some (WriteTmp part e) => (<[tmpPath := part]> dir, Err e)
      | Some (RenameFails e) => (<[tmpPath := b]> dir, Err e)
      | None => (<[path := b]> (delete tmpPath dir), Ok tt)
      end
  end.

Definition Close (id : list byte) (dir : FS) : FS * result () := (dir, Ok tt).

Definition Delete (id : list byte) (io : option error) (dir : FS) : FS * result () :=
  match dir !! getPath id, io with
  | Some _, Some e => (dir, Err e)
  | _, _ => (delete (getPath id) dir, Ok tt)
  end.

(** [List], in some order: the sessions of the [.json] files that can be read. *)
Definition listed (io : string → option error) (entry : string * list byte) : option TransferSession :=
  let '(name, b) := entry in
  let n := slen name in
  if decide (5 <= n ∧ slice (n - 5) n name = ".json"%string) then
    match io name, session_Unmarshal b with
    | None, Ok s => Some s
    | _, _ => None
    end
  else None.
Definition List (io : string → option error) (dir : FS) : list TransferSession :=
  omap (listed io) (map_to_list dir).

Lemma getPath_inj a b : getPath a = getPath b → a = b.
Proof. intros H%string_app_inj_r. by apply EncodeToString_inj. Qed.

Lemma tmp_not_session a b :
  length a = 32%nat → length b = 32%nat → getPath a +:+ ".tmp" ≠ getPath b.
Proof.
  intros Ha Hb H. apply (f_equal slen) in H. unfold getPath in H.
  rewrite !slen_app, !length_EncodeToString in H. unfold zlen in H. rewrite Ha, Hb in H. done.
Qed.

(** Saving a session is atomic whichever call fails: a successful [Save] is
    what [Open] returns for that content from then on, a failed one leaves
    every session as it was, and no other session is ever touched. *)
Lemma Save_Open fault s dir id :
  length (ts_ContentID s) = 32%nat → length id = 32%nat →
  let '(dir', r) := Save fault s dir in
  Open id None dir' =
    if decide (is_ok r = true ∧ id = ts_ContentID s) then Ok (Some s) else Open id None dir.
Proof.
  intros Hs Hid. unfold Save. destruct (session_Marshal s) as [b|e] eqn:Em.
  2: { rewrite decide_False; [done|]. by intros [? _]. }
  assert (Ht : getPath (ts_ContentID s) +:+ ".tmp" ≠ getPath id) by (by apply tmp_not_session).
  unfold Open. destruct fault as [[part e|e]|].
  1,2: rewrite decide_False by (by intros [? _]); by rewrite lookup_insert_ne.
  destruct (decide (id = ts_ContentID s)) as [->|Hne].
  - rewrite decide_True, lookup_insert_eq by done. by rewrite (session_Unmarshal_Marshal _ _ Em).
  - rewrite decide_False by (by intros [_ ?]).
    rewrite lookup_insert_ne, lookup_delete_ne; [done|done|]. intros H. apply Hne. symmetry.
    by apply getPath_inj.
Qed.

Lemma Delete_Open id id' dir :
  Open id' None (Delete id None dir).1 = if decide (id' = id) then Ok None else Open id' None dir.
Proof.
  unfold Delete, Open. assert (E : (match dir !! getPath id with Some _ | None =>
    (delete (getPath id) dir, Ok (A := ()) tt) end).1 = delete (getPath id) dir) by (by destruct (dir !! _)).
  rewrite E. case_decide as Hd.
  - subst. by rewrite lookup_delete_eq.
  - rewrite lookup_delete_ne; [done|]. intros H. apply Hd. symmetry. by apply getPath_inj.
Qed.
End files.

(** The session files implement the interface. *)
#[export, program] Instance FileSessionManager {SC : SessionCodec} : SessionManager FS := {|
  sm_Open id dir := Open id None dir;
  sm_Save s dir dir' r := ∃ fault, Save fault s dir = (dir', r);
|}.
Next Obligation.
  intros SC s m m' id Hs Hid [fault E]. pose proof (Save_Open fault s m id Hs Hid) as H.
  rewrite E in H. cbv beta. rewrite H. apply decide_ext. by split; [intros []|].
Qed.
Next Obligation.
  intros SC s m m' e id Hs Hid [fault E]. pose proof (Save_Open fault s m id Hs Hid) as H.
  rewrite E in H. cbv beta. rewrite H. apply decide_False. by intros [? _].
Qed.

(** ** What [ExecuteWithRetry] does *)

Section retry_spec.
Context {S : Type} (op : S → S * result ()).

Lemma retry_loop_spec n s :
  (∀ k, (k <= n)%nat → (∀ j, (j < k)%nat → is_ok (op (op_iter op j s)).2 = false) →
     is_ok (op (op_iter op k s)).2 = true → retry_loop op n [] s = (op_iter op (Datatypes.S k) s, Ok tt)) ∧
  ((∀ j, (j <= n)%nat → is_ok (op (op_iter op j s)).2 = false) →
     ∃ e, (op (op_iter op n s)).2 = Err e ∧ retry_loop op n [] s = (op_iter op (Datatypes.S n) s, Err e)).
Proof.
  revert s. induction n as [|n IH]; intros s; split.
  - intros k Hk Hb Hok. assert (k = 0%nat) as -> by lia. cbn in *. by destruct (op s) as [s' [[]|e]].
  - intros Hb. specialize (Hb 0%nat ltac:(lia)). cbn in *. destruct (op s) as [s' [[]|e]]; [done|]. by exists e.
  - intros k Hk Hb Hok. cbn. destruct k as [|k].
    + cbn in *. by destruct (op s) as [s' [[]|e]].
    + pose proof (Hb 0%nat ltac:(lia)) as H0. cbn in H0, Hok. destruct (op s) as [s' [[]|e]] eqn:E; [done|].
      apply (proj1 (IH s')); [lia| |done]. intros j Hj. specialize (Hb (Datatypes.S j) ltac:(lia)).
      cbn in Hb. by rewrite E in Hb.
  - intros Hb. cbn. pose proof (Hb 0%nat ltac:(lia)) as H0. cbn in H0.
    destruct (op s) as [s' [[]|e]] eqn:E; [done|].
    apply (proj2 (IH s')). intros j Hj. specialize (Hb (Datatypes.S j) ltac:(lia)).
    cbn in Hb. by rewrite E in Hb.
Qed.
End retry_spec.

(** ** transfer.go *)

Definition new_task (i : nat) (id : list byte) : ChunkTask :=
  {| tk_Index := i; tk_ChunkID := id; tk_Attempts := 0; tk_MissedPeers := ∅ |}.

(** The loop that sets up the tasks; [None] when [sess.Completed[i] = true]
    is out of range. *)
Fixpoint setup_tasks (i : nat) (chunkIDs : list (list byte)) (completed : list bool) (fs : FS)
    : option (list bool * list ChunkTask) :=
  match chunkIDs with
  | [] => Some (completed, [])
  | chunkID :: rest =>
      if decide (completed !! i = Some true) then setup_tasks (Datatypes.S i) rest completed fs
      else if HasChunk chunkID fs then
        if decide (i < length completed)%nat
        then setup_tasks (Datatypes.S i) rest (<[i := true]> completed) fs
        else None
      else
        match setup_tasks (Datatypes.S i) rest completed fs with
        | Some (completed', tasks) => Some (completed', new_task i chunkID :: tasks)
        | None => None
        end
  end.

(** The session to start from, given the one that was found. *)
Definition setup_session (contentID : list byte) (chunkIDs : list (list byte)) (peer : string)
    (found : option TransferSession) : TransferSession :=
  match found with
  | None =>
      {| ts_ContentID := contentID; ts_TargetPeer := peer; ts_Completed := replicate (length chunkIDs) false;
         ts_TotalChunks := zlen chunkIDs; ts_Status := StatusInProgress |}
  | Some sess =>
      set_status StatusInProgress
        (if decide (length (ts_Completed sess) = 0%nat) then
           {| ts_ContentID := ts_ContentID sess; ts_TargetPeer := ts_TargetPeer sess;
              ts_Completed := replicate (length chunkIDs) false;
              ts_TotalChunks := zlen chunkIDs; ts_Status := ts_Status sess |}
         else sess)
  end.

(** [if res.Task.Index < len(sess.Completed) { sess.Completed[res.Task.Index] = true }] *)
Definition mark_completed (i : nat) (sess : TransferSession) : TransferSession :=
  set_completed (<[i := true]> (ts_Completed sess)) sess.

Section download.
Context `{!SessionManager SM} {TC : TicketCodec} {TG : Type}.
Context (ticketGenerator : option (list byte → TG → TG * result SignedTicket)).
Context (pid : Z) (fault : list byte → option (put_call * error)) (sends : list byte → Chunk → Prop).
Context (contentID : list byte) (chunkIDs : list (list byte)) (peers : list string).

Definition MaxAttempts : Z := 3.

(** How far [Download] gets before the scheduler runs. *)
Inductive setup :=
| Panicked
| Returned (r : result ())
| Started (sess : TransferSession) (tasks : list ChunkTask).

Definition save_error (found : option TransferSession) : string :=
  match found with None => "failed to save new session" | Some _ => "failed to save resumed session" end.

Inductive begin_download (fs : FS) : SM → SM → setup → Prop :=
| begin_no_peers m :
    peers = [] → begin_download fs m m (Returned (Err (New "no peers provided")))
| begin_open_failed p ps m e :
    peers = p :: ps → sm_Open contentID m = Err e →
    begin_download fs m m (Returned (Err (Wrap "failed to open session" e)))
| begin_save_failed p ps m found m' e :
    peers = p :: ps → sm_Open contentID m = Ok found →
    sm_Save (setup_session contentID chunkIDs p found) m m' (Err e) →
    begin_download fs m m' (Returned (Err (Wrap (save_error found) e)))
| begin_panic p ps m found m' :
    peers = p :: ps → sm_Open contentID m = Ok found →
    let sess := setup_session contentID chunkIDs p found in
    sm_Save sess m m' (Ok tt) → setup_tasks 0 chunkIDs (ts_Completed sess) fs = None →
    begin_download fs m m' Panicked
| begin_nothing_left p ps m found m1 m2 r2 m3 r3 completed :
    peers = p :: ps → sm_Open contentID m = Ok found →
    let sess := setup_session contentID chunkIDs p found in
    sm_Save sess m m1 (Ok tt) → setup_tasks 0 chunkIDs (ts_Completed sess) fs = Some (completed, []) →
    sm_Save (set_completed completed sess) m1 m2 r2 →
    sm_Save (set_status StatusCompleted (set_completed completed sess)) m2 m3 r3 →
    begin_download fs m m3 (Returned (Ok tt))
| begin_tasks p ps m found m1 m2 r2 completed task tasks :
    peers = p :: ps → sm_Open contentID m = Ok found →
    let sess := setup_session contentID chunkIDs p found in
    sm_Save sess m m1 (Ok tt) →
    setup_tasks 0 chunkIDs (ts_Completed sess) fs = Some (completed, task :: tasks) →
    sm_Save (set_completed completed sess) m1 m2 r2 →
    begin_download fs m m2 (Started (set_completed completed sess) (task :: tasks)).

(** The scheduler runs in its own goroutine while [Download] takes its
    completions and saves the session after each. *)
Record Download := {
  dl_run : Run;
  dl_sess : TransferSession;
  dl_sm : SM;
  dl_handled : nat;                 (* completions taken so far *)
  dl_result : option (result ());
}.

Definition start_download (sess : TransferSession) (tasks : list ChunkTask) (connected : list string)
    (m : SM) (fs : FS) : Download :=
  {| dl_run := start_run tasks connected fs; dl_sess := sess; dl_sm := m; dl_handled := 0;
     dl_result := None |}.

Inductive download_step : Download → Download → Prop :=
| dl_scheduler b run' d :
    run_step ticketGenerator (length peers) MaxAttempts pid fault sends b (dl_run d) run' →
    download_step d {| dl_run := run'; dl_sess := dl_sess d; dl_sm := dl_sm d;
                       dl_handled := dl_handled d; dl_result := dl_result d |}
| dl_progress res m' r d :
    dl_result d = None → rn_completions (dl_run d) !! dl_handled d = Some res →
    let sess := mark_completed (tk_Index (wr_Task res)) (dl_sess d) in
    sm_Save sess (dl_sm d) m' r →
    download_step d {| dl_run := dl_run d; dl_sess := sess; dl_sm := m';
                       dl_handled := Datatypes.S (dl_handled d); dl_result := None |}
| dl_return schedErr m' r d :
    dl_result d = None → rn_returned (dl_run d) = Some schedErr →
    dl_handled d = length (rn_completions (dl_run d)) →
    let sess := set_status (if schedErr then StatusCompleted else StatusFailed) (dl_sess d) in
    sm_Save sess (dl_sm d) m' r →
    download_step d {| dl_run := dl_run d; dl_sess := sess; dl_sm := m'; dl_handled := dl_handled d;
      dl_result := Some (match schedErr with Ok _ => Ok tt | Err e => Err (Wrap "transfer failed" e) end) |}.

(** [download_reaches m fs m' fs' r]: started with sessions [m] and store
    [fs], a download can get to a point with sessions [m'], store [fs'] and
    result [r] ([None]: not yet returned). *)
Inductive download_reaches (m : SM) (fs : FS) : SM → FS → option (result ()) → Prop :=
| reaches_panic m' : begin_download fs m m' Panicked → download_reaches m fs m' fs None
| reaches_return m' r : begin_download fs m m' (Returned r) → download_reaches m fs m' fs (Some r)
| reaches_run m1 sess tasks connected d :
    begin_download fs m m1 (Started sess tasks) → connected `sublist_of` peers →
    rtc download_step (start_download sess tasks connected m1 fs) d →
    download_reaches m fs (dl_sm d) (rn_fs (dl_run d)) (dl_result d).

(** [download_hangs m fs]: started with [m] and [fs], a download can go on for
    ever without returning, by steps without end or because it waits for the
    answer of a peer. *)
Definition waits (d : Download) : Prop :=
  ∃ i p t, rn_workers (dl_run d) !! i = Some (p, Fetching t).
Definition download_hangs (m : SM) (fs : FS) : Prop :=
  ∃ m1 sess tasks connected (d : nat → Download),
    begin_download fs m m1 (Started sess tasks) ∧ connected `sublist_of` peers ∧
    d 0%nat = start_download sess tasks connected m1 fs ∧
    ∀ n, dl_result (d n) = None ∧
      (download_step (d n) (d (Datatypes.S n)) ∨ d (Datatypes.S n) = d n ∧ waits (d n)).

(** ** Sessions tell the truth *)

(** Every chunk marked completed is in the store. *)
Definition honest (fs : FS) (sess : TransferSession) : Prop :=
  ts_ContentID sess = contentID ∧
  ∀ i id, ts_Completed sess !! i = Some true → chunkIDs !! i = Some id → is_ok (GetChunk id fs) = true.
Definition honest_store (fs : FS) (m : SM) : Prop :=
  ∀ sess, sm_Open contentID m = Ok (Some sess) → honest fs sess.
(** Chunk files are whole: a file that exists can be read. *)
Definition store_whole (fs : FS) : Prop :=
  ∀ id, length id = 32%nat → HasChunk id fs = true → is_ok (GetChunk id fs) = true.

Lemma setup_tasks_keeps i ids completed fs completed' tasks j :
  setup_tasks i ids completed fs = Some (completed', tasks) →
  completed !! j = Some true → completed' !! j = Some true.
Proof.
  clear. revert i completed completed' tasks. induction ids as [|id ids IH]; intros i c c' ts; cbn.
  { by intros [= <- _]. }
  destruct (decide _); [apply IH|]. destruct (HasChunk id fs).
  - destruct (decide _) as [Hi|Hi]; [|done]. intros H Hj. eapply IH; [done|].
    destruct (decide (i = j)) as [->|]; [by rewrite list_lookup_insert_eq|by rewrite list_lookup_insert_ne].
  - destruct (setup_tasks _ _ _ _) as [[c1 ts1]|] eqn:E; [|done]. intros [= -> <-]. by eapply IH.
Qed.

(** A chunk is marked completed because it was before or is in the store;
    every other chunk becomes a task. *)
Lemma setup_tasks_spec i ids completed fs completed' tasks :
  setup_tasks i ids completed fs = Some (completed', tasks) →
  (∀ j, completed' !! j = Some true → completed !! j = Some true ∨
     ∃ k id, j = (i + k)%nat ∧ ids !! k = Some id ∧ HasChunk id fs = true) ∧
  (∀ k id, ids !! k = Some id → completed' !! (i + k)%nat = Some true ∨ new_task (i + k) id ∈ tasks) ∧
  (∀ t, t ∈ tasks → ∃ k id, ids !! k = Some id ∧ t = new_task (i + k) id).
Proof.
  clear. revert i completed completed' tasks. induction ids as [|id ids IH]; intros i c c' ts; cbn.
  { intros [= <- <-]. split_and!; [by left|done|set_solver]. }
  assert (Hsh : ∀ c1 ts1, setup_tasks (Datatypes.S i) ids c1 fs = Some (c', ts1) →
    (∀ j, c' !! j = Some true → c1 !! j = Some true ∨
       ∃ k id', j = (i + k)%nat ∧ (id :: ids) !! k = Some id' ∧ HasChunk id' fs = true) ∧
    (∀ k id', ids !! k = Some id' →
       c' !! (i + Datatypes.S k)%nat = Some true ∨ new_task (i + Datatypes.S k) id' ∈ ts1) ∧
    (∀ t, t ∈ ts1 → ∃ k id', (id :: ids) !! k = Some id' ∧ t = new_task (i + k) id')).
  { intros c1 ts1 (H1 & H2 & H3)%IH. split_and!.
    - intros j Hj. destruct (H1 j Hj) as [|(k & id' & -> & ? & ?)]; [by left|]. right.
      exists (Datatypes.S k), id'. split_and!; [lia|done|done].
    - intros k id' Hk. rewrite Nat.add_succ_r. apply (H2 k id' Hk).
    - intros t Ht. destruct (H3 t Ht) as (k & id' & ? & ->). exists (Datatypes.S k), id'.
      by rewrite Nat.add_succ_r. }
  destruct (decide _) as [Hd|Hd]; [|destruct (HasChunk id fs) eqn:Eh].
  - intros E. destruct (Hsh _ _ E) as (H1 & H2 & H3). split_and!; [done| |done].
    intros [|k] id' Hk; [left; rewrite Nat.add_0_r; by eapply setup_tasks_keeps|by apply H2].
  - destruct (decide _) as [Hi|Hi]; [|done]. intros E. destruct (Hsh _ _ E) as (H1 & H2 & H3).
    split_and!; [| |done].
    + intros j Hj. destruct (H1 j Hj) as [Hj1|]; [|by right].
      destruct (decide (i = j)) as [<-|]; [|rewrite list_lookup_insert_ne in Hj1 by done; by left].
      right. exists 0%nat, id. split_and!; [lia|done|done].
    + intros [|k] id' Hk; [|by apply H2]. left. rewrite Nat.add_0_r. eapply setup_tasks_keeps; [done|].
      by rewrite list_lookup_insert_eq.
  - destruct (setup_tasks _ _ _ _) as [[c1 ts1]|] eqn:E; [|done]. intros [= -> <-].
    destruct (Hsh _ _ E) as (H1 & H2 & H3). split_and!; [done| |].
    + intros [|k] id' Hk; [simplify_eq/=; right; rewrite Nat.add_0_r; by left|].
      destruct (H2 k id' Hk); [by left|right; by right].
    + intros t [->|Ht]%elem_of_cons; [|by apply H3]. exists 0%nat, id. by rewrite Nat.add_0_r.
Qed.

(** The tasks are for different chunks when the list of chunks is without
    repetition. *)
Lemma setup_tasks_sublist i ids completed fs completed' tasks :
  setup_tasks i ids completed fs = Some (completed', tasks) → tk_ChunkID <$> tasks `sublist_of` ids.
Proof.
  clear. revert i completed completed' tasks. induction ids as [|id ids IH]; intros i c c' ts; cbn.
  { by intros [= _ <-]. }
  destruct (decide _); [intros H; constructor; by eapply IH|]. destruct (HasChunk id fs).
  - destruct (decide _); [|done]. intros H. constructor. by eapply IH.
  - destruct (setup_tasks _ _ _ _) as [[c1 ts1]|] eqn:E; [|done]. intros [= _ <-]. constructor. by eapply IH.
Qed.

Context (Hcid : length contentID = 32%nat) (Hids : Forall (λ id, length id = 32%nat) chunkIDs).
Context (Hnd : NoDup chunkIDs).

Lemma save_honest fs sess m m' r :
  honest fs sess → honest_store fs m → sm_Save sess m m' r → honest_store fs m'.
Proof using Hcid.
  intros Hs Hm Hsave s. assert (length (ts_ContentID sess) = 32%nat) by (by rewrite (proj1 Hs)).
  destruct r as [[]|e].
  - rewrite (sm_Save_ok _ _ _ _ ltac:(done) Hcid Hsave). case_decide; [by intros [= <-]|apply Hm].
  - rewrite (sm_Save_err _ _ _ _ _ ltac:(done) Hcid Hsave). apply Hm.
Qed.

Lemma honest_status fs st sess : honest fs sess → honest fs (set_status st sess).
Proof. done. Qed.

Lemma setup_session_honest fs p m found :
  honest_store fs m → sm_Open contentID m = Ok found → honest fs (setup_session contentID chunkIDs p found).
Proof.
  intros Hm Ho. assert (Hnone : ∀ i, replicate (length chunkIDs) false !! i = Some true → False)
    by (intros i [? _]%lookup_replicate; done).
  destruct found as [sess|]; unfold setup_session.
  - destruct (Hm _ Ho) as [H1 H2]. apply honest_status. case_decide; [|done].
    split; [done|]. intros i id Hi. by apply Hnone in Hi.
  - split; [done|]. intros i id Hi. by apply Hnone in Hi.
Qed.

Lemma setup_tasks_honest fs sess completed tasks :
  store_whole fs → honest fs sess → setup_tasks 0 chunkIDs (ts_Completed sess) fs = Some (completed, tasks) →
  honest fs (set_completed completed sess).
Proof using Hcid Hids.
  intros Hw [H1 H2] (Hc & _ & _)%setup_tasks_spec. split; [done|]. intros i id Hi Hid.
  destruct (Hc i Hi) as [Ho|(k & id' & -> & Hk & Hh)]; [by eapply H2|].
  cbn in Hid. simplify_eq. apply Hw; [|done]. by apply (Forall_lookup_1 _ _ _ _ Hids Hid).
Qed.

(** *** Before the scheduler runs *)

Definition tasks_cover (fs : FS) (tasks : list ChunkTask) : Prop :=
  (∀ i id, chunkIDs !! i = Some id → is_ok (GetChunk id fs) = true ∨ new_task i id ∈ tasks) ∧
  (∀ t, t ∈ tasks → ∃ i id, chunkIDs !! i = Some id ∧ t = new_task i id).

Lemma setup_tasks_cover fs sess completed tasks :
  store_whole fs → honest fs sess → setup_tasks 0 chunkIDs (ts_Completed sess) fs = Some (completed, tasks) →
  tasks_cover fs tasks.
Proof using Hcid Hids.
  intros Hw Hh E. destruct (setup_tasks_honest _ _ _ _ Hw Hh E) as [_ Hc].
  apply setup_tasks_spec in E as (_ & H2 & H3). split; [|done]. intros i id Hi.
  destruct (H2 i id Hi) as [Hd|]; [left; by eapply Hc|by right].
Qed.

Lemma begin_honest fs m m' out :
  store_whole fs → honest_store fs m → begin_download fs m m' out →
  honest_store fs m' ∧
  match out with
  | Panicked => True
  | Returned r => r = Ok tt → ∀ id, id ∈ chunkIDs → is_ok (GetChunk id fs) = true
  | Started sess tasks => honest fs sess ∧ tasks_cover fs tasks ∧ NoDup (tk_ChunkID <$> tasks)
  end.
Proof using Hcid Hids Hnd.
  intros Hw Hm Hb.
  assert (Hs : ∀ p found m1 r, sm_Open contentID m = Ok found →
    sm_Save (setup_session contentID chunkIDs p found) m m1 r →
    honest fs (setup_session contentID chunkIDs p found) ∧ honest_store fs m1).
  { intros p found m1 r Ho Hsv. assert (Hh := setup_session_honest fs p m found Hm Ho).
    split; [done|]. by eapply save_honest. }
  destruct Hb as [m|p ps m e Hp Ho|p ps m found m' e Hp Ho Hsv|p ps m found m' Hp Ho sess Hsv Ht
    |p ps m found m1 m2 r2 m3 r3 c Hp Ho sess Hsv Ht Hs2 Hs3|p ps m found m1 m2 r2 c t ts Hp Ho sess Hsv Ht Hs2].
  - done.
  - done.
  - split; [|done]. by eapply Hs.
  - split; [|done]. by eapply Hs.
  - destruct (Hs _ _ _ _ Ho Hsv) as [Hh Hm1]. pose proof (setup_tasks_honest _ _ _ _ Hw Hh Ht) as Hh2.
    assert (Hm2 : honest_store fs m2) by (by eapply save_honest).
    split; [by refine (save_honest _ _ _ _ _ _ Hm2 Hs3)|].
    intros _ id (i & Hi)%list_elem_of_lookup.
    destruct (proj1 (setup_tasks_cover _ _ _ _ Hw Hh Ht) i id Hi) as [|[]%not_elem_of_nil]; done.
  - destruct (Hs _ _ _ _ Ho Hsv) as [Hh Hm1]. pose proof (setup_tasks_honest _ _ _ _ Hw Hh Ht) as Hh2.
    split_and!; [exact (save_honest _ _ _ _ _ Hh2 Hm1 Hs2)|exact Hh2|exact (setup_tasks_cover _ _ _ _ Hw Hh Ht)|].
    eapply sublist_NoDup; [exact Hnd|]. by eapply setup_tasks_sublist.
Qed.

(** *** While it runs *)

Record download_ok (tasks : list ChunkTask) (d : Download) : Prop := {
  do_run : run_ok sends tasks (dl_run d);
  do_apart : NoDup (tk_ChunkID <$> tasks);
  do_cover : tasks_cover (rn_fs (dl_run d)) tasks;
  do_sess : honest (rn_fs (dl_run d)) (dl_sess d);
  do_store : honest_store (rn_fs (dl_run d)) (dl_sm d);
  do_result : dl_result d = Some (Ok tt) → rn_returned (dl_run d) = Some (Ok tt);
}.

Lemma tasks_cover_length fs tasks : tasks_cover fs tasks → Forall (λ t, length (tk_ChunkID t) = 32%nat) tasks.
Proof using Hids.
  clear Hcid. intros [_ H]. apply Forall_forall. intros t (i & id & Hi & ->)%H. exact (Forall_lookup_1 _ _ _ _ Hids Hi).
Qed.

(** A completed task's chunk is in the store. *)
Lemma completion_stored tasks s fs r :
  run_ok sends tasks s → rn_raced s = ∅ → tasks_cover fs tasks → r ∈ rn_completions s →
  ∃ id, chunkIDs !! tk_Index (wr_Task r) = Some id ∧ is_ok (GetChunk id (rn_fs s)) = true.
Proof.
  clear. intros [] Hrc [_ Hc] Hr.
  assert (Hk : key (wr_Task r) ∈ key <$> tasks).
  { apply (elem_of_submseteq _ _ _ (list_elem_of_fmap_2 key _ _ (proj2 (elem_of_app _ _ _)
      (or_intror (list_elem_of_fmap_2 wr_Task _ r Hr)))) ro_tasks). }
  apply list_elem_of_fmap in Hk as (t & Ht & (i & id & Hi & ->)%Hc). unfold key in Ht. injection Ht as -> Hid.
  exists id. split; [done|]. apply Forall_app in ro_results as [_ Hres].
  destruct (proj1 (Forall_forall _ _) Hres r Hr) as [Hok _].
  destruct (Hok (proj1 (Forall_forall _ _) ro_completions r Hr)) as [_ Hg]. cbn in Hid. rewrite Hid, Hrc in Hg.
  by destruct Hg as [[]%not_elem_of_empty|].
Qed.

Lemma honest_grows fs fs' sess :
  (∀ id, length id = 32%nat → is_ok (GetChunk id fs) = true → is_ok (GetChunk id fs') = true) →
  honest fs sess → honest fs' sess.
Proof using Hids.
  clear Hcid. intros Hg [H1 H2]. split; [done|]. intros i id Hi Hid.
  apply Hg; [exact (Forall_lookup_1 _ _ _ _ Hids Hid)|by eapply H2].
Qed.

Lemma honest_mark fs r i id sess :
  i = tk_Index (wr_Task r) → chunkIDs !! i = Some id → is_ok (GetChunk id fs) = true →
  honest fs sess → honest fs (mark_completed i sess).
Proof.
  clear. intros _ Hid Hg [H1 H2]. split; [done|]. intros j id' Hj Hid'. cbn in Hj.
  destruct (decide (i = j)) as [<-|]; [by simplify_eq|]. rewrite list_lookup_insert_ne in Hj by done.
  by eapply H2.
Qed.

Lemma keeps_all R fs fs' :
  R = ∅ → keeps R fs fs' →
  ∀ id, length id = 32%nat → is_ok (GetChunk id fs) = true → is_ok (GetChunk id fs') = true.
Proof. intros -> Hk id Hl. apply Hk; [done|apply not_elem_of_empty]. Qed.

Lemma download_step_ok tasks d d' : download_step d d' → download_ok tasks d → download_ok tasks d'.
Proof using Hcid Hids.
  intros Hs [H1 Ha H2 H3 H4 H5]. pose proof (tasks_cover_length _ _ H2) as Ht.
  pose proof (ro_raced _ _ _ H1 Ha) as Hrc.
  destruct Hs as [b run' d Hr|res m' r d Hn Hc sess Hsv|se m' r d Hn Hret Hl sess Hsv].
  - destruct (run_step_grows _ _ _ _ _ _ _ _ _ _ Hr H1) as [Hk Hret].
    pose proof (keeps_all _ _ _ Hrc Hk) as Hg. split; cbn.
    + by eapply run_step_ok.
    + done.
    + split; [|apply H2]. intros i id Hi. destruct (proj1 H2 i id Hi); [left|by right].
      apply Hg; [exact (Forall_lookup_1 _ _ _ _ Hids Hi)|done].
    + by eapply honest_grows.
    + intros s Ho. eapply honest_grows; [done|]. by apply H4.
    + intros Hd. by apply Hret, H5.
  - destruct (completion_stored _ _ _ _ H1 Hrc H2 (list_elem_of_lookup_2 _ _ _ Hc)) as (id & Hid & Hok).
    assert (Hh : honest (rn_fs (dl_run d)) sess) by (by eapply honest_mark).
    split; cbn; [done|done|done|done| |done]. by eapply save_honest.
  - assert (Hh : honest (rn_fs (dl_run d)) sess) by (by apply honest_status).
    split; cbn; [done|done|done|done| |]; [by eapply save_honest|]. destruct se as [[]|e]; [done|]. intros [=].
Qed.

Lemma downloads_ok tasks d d' : rtc download_step d d' → download_ok tasks d → download_ok tasks d'.
Proof using Hcid Hids. induction 1; eauto using download_step_ok. Qed.

Lemma downloads_from_peers tasks d d' :
  rtc download_step d d' → download_ok tasks d → from_peers sends (rn_fs (dl_run d)) (rn_fs (dl_run d')).
Proof using Hcid Hids.
  induction 1 as [|x y z Hs _ IH]; intros Hok; [reflexivity|].
  etransitivity; [|by apply IH; eapply download_step_ok]. clear IH. destruct Hs as [b run' d Hr| | ]; try reflexivity.
  destruct Hok as [H1 Ha _ _ _ _]. eapply run_step_from_peers; [done|by apply (ro_raced _ _ _ H1)|done].
Qed.

Lemma download_outcome m fs m' fs' r :
  store_valid fs → store_whole fs → honest_store fs m → download_reaches m fs m' fs' r →
  honest_store fs' m' ∧ store_valid fs' ∧ from_peers sends fs fs' ∧
  (r = Some (Ok tt) → ∀ id, id ∈ chunkIDs → ∃ c, GetChunk id fs' = Ok c ∧ sha256 (ck_Data c) = id).
Proof using Hcid Hids Hnd.
  intros Hv Hw Hm Hr.
  assert (Hread : ∀ f id, store_valid f → id ∈ chunkIDs → is_ok (GetChunk id f) = true →
    ∃ c, GetChunk id f = Ok c ∧ sha256 (ck_Data c) = id).
  { intros f id Hf Hid Ho. destruct (GetChunk id f) as [c|] eqn:E; [|done]. exists c. split; [done|].
    apply (Hf id c); [|done]. by apply (proj1 (Forall_forall _ _) Hids). }
  destruct Hr as [m' Hb|m' r Hb|m1 sess tasks connected d Hb _ Hd].
  - by destruct (begin_honest _ _ _ _ Hw Hm Hb).
  - destruct (begin_honest _ _ _ _ Hw Hm Hb) as [H1 H2]. split_and!; [done|done|done|].
    intros [= ->] id Hid. auto.
  - destruct (begin_honest _ _ _ _ Hw Hm Hb) as (H1 & H2 & H3 & H4).
    assert (Hs : download_ok tasks (start_download sess tasks connected m1 fs))
      by (split; try done; by apply start_run_ok).
    destruct (downloads_ok _ _ _ Hd Hs) as [Ho _ Hc _ Hst Hres].
    pose proof (ro_raced _ _ _ Ho H4) as Hrc. pose proof (ro_store _ _ _ Ho) as Hvd. rewrite Hrc in Hvd.
    assert (Hv' : store_valid (rn_fs (dl_run d)))
      by (intros x y Hl; apply Hvd; [done|apply not_elem_of_empty]).
    split_and!; [done|done|exact (downloads_from_peers _ _ _ Hd Hs)|].
    intros Hret id Hid. apply Hread; [done|done|].
    apply list_elem_of_lookup in Hid as (i & Hi). destruct (proj1 Hc i id Hi) as [|Hin]; [done|].
    apply Hres in Hret. destruct (proj2 (run_ok_done _ _ _ Ho Hret) _ Hin) as [_ Hg]. rewrite Hrc in Hg.
    by destruct Hg as [[]%not_elem_of_empty|].
Qed.

(** C28: At every point of a download of different chunks, so also if the process
    dies there, the session on disk tells the truth: a chunk it marks completed
    is in the store.  A later download can therefore resume from it; and a download that
    returns nil, resumed or not, leaves every requested chunk in the store
    with data that hashes to its identifier. *)
Theorem Download_resumable m fs m' fs' r :
  store_valid fs → store_whole fs → honest_store fs m → download_reaches m fs m' fs' r →
  honest_store fs' m' ∧ store_valid fs' ∧
  (r = Some (Ok tt) → ∀ id, id ∈ chunkIDs → ∃ c, GetChunk id fs' = Ok c ∧ sha256 (ck_Data c) = id).
Proof using Hcid Hids Hnd.
  intros Hv Hw Hm Hr. destruct (download_outcome _ _ _ _ _ Hv Hw Hm Hr) as (H1 & H2 & _ & H3). done.
Qed.

End download.

(** *** A session of another length

    The code says that it ensures the completed array matches the manifest,
    but only an empty array is replaced: a session with a shorter one makes
    [Download] index out of range when a chunk past its end is in the store. *)
Theorem short_session_panics `{!SessionManager SM} contentID id1 id2 p ps fs m m' sess :
  sm_Open contentID m = Ok (Some sess) → ts_Completed sess = [true] → HasChunk id2 fs = true →
  sm_Save (set_status StatusInProgress sess) m m' (Ok tt) →
  begin_download contentID [id1; id2] (p :: ps) fs m m' Panicked.
Proof.
  intros Ho Hc Hh Hs.
  assert (E : setup_session contentID [id1; id2] p (Some sess) = set_status StatusInProgress sess)
    by (unfold setup_session; by rewrite decide_False by (by rewrite Hc)).
  eapply (begin_panic _ _ _ _ p ps m (Some sess)); [done|done| |]; rewrite E; [done|].
  cbn [set_status ts_Completed]. rewrite Hc. cbn. by rewrite Hh.
Qed.

(** *** A peer that does not answer

    The download of a chunk from a single peer waits for the peer's answer, for
    which neither the worker nor the manager sets a limit. *)
Theorem silent_peer_hangs `{!SessionManager SM} {TC : TicketCodec} {TG : Type}
    (tg : option (list byte → TG → TG * result SignedTicket)) pid fault sends contentID chunkIDs p fs m m1 sess t :
  begin_download contentID chunkIDs [p] fs m m1 (Started sess [t]) → p ∉ tk_MissedPeers t →
  download_hangs tg pid fault sends contentID chunkIDs [p] m fs.
Proof.
  intros Hb Hp. pose (s1 := set_worker 0 p (Transfer.Fetching t) (set_queue [] (start_run [t] [p] fs))).
  exists m1, sess, [t], [p], (λ n, match n with
    | O => start_download sess [t] [p] m1 fs
    | _ => {| dl_run := s1; dl_sess := sess; dl_sm := m1; dl_handled := 0; dl_result := None |}
    end).
  split_and!; [done|done|done|]. intros [|n]; (split; [done|]).
  - left. apply (dl_scheduler _ _ _ _ _ Work s1 (start_download sess [t] [p] m1 fs)). by eapply w_take.
  - right. split; [done|]. by exists 0%nat, p, t.
Qed.

(** ** ExecuteWithRetry *)

(** While the context is not cancelled, [ExecuteWithRetry] calls the
    operation until its first success and returns nil, or, if all
    [MaxRetries + 1] calls fail, returns the error of the last one; it never
    calls it more often. *)
Theorem ExecuteWithRetry_spec {S} (op : S → S * result ()) policy s :
  0 <= rp_MaxRetries policy →
  let n := Z.to_nat (rp_MaxRetries policy) in
  (∃ k, (k <= n)%nat ∧ (∀ j, (j < k)%nat → is_ok (op (op_iter op j s)).2 = false) ∧
     is_ok (op (op_iter op k s)).2 = true ∧
     ExecuteWithRetry op policy [] s = (op_iter op (Datatypes.S k) s, Ok tt)) ∨
  ((∀ j, (j <= n)%nat → is_ok (op (op_iter op j s)).2 = false) ∧
     ∃ e, (op (op_iter op n s)).2 = Err e ∧
     ExecuteWithRetry op policy [] s = (op_iter op (Datatypes.S n) s, Err e)).
Proof.
  intros Hp n. unfold ExecuteWithRetry. rewrite decide_False by lia. fold n.
  destruct (retry_loop_spec op n s) as [H1 H2].
  assert (Hd : (∀ j, (j <= n)%nat → is_ok (op (op_iter op j s)).2 = false) ∨
    ∃ k, (k <= n)%nat ∧ (∀ j, (j < k)%nat → is_ok (op (op_iter op j s)).2 = false) ∧
         is_ok (op (op_iter op k s)).2 = true).
  { clear. induction n as [|n IH].
    - destruct (is_ok (op (op_iter op 0 s)).2) eqn:E; [right; exists 0%nat; split_and!; [lia|lia|done]|].
      left. intros j Hj. by replace j with 0%nat by lia.
    - destruct IH as [IH|(k & ? & ? & ?)]; [|right; exists k; split_and!; [lia|done|done]].
      destruct (is_ok (op (op_iter op (Datatypes.S n) s)).2) eqn:E.
      + right. exists (Datatypes.S n). split_and!; [lia| |done]. intros j Hj. apply IH. lia.
      + left. intros j Hj. destruct (decide (j = Datatypes.S n)) as [->|]; [done|]. apply IH. lia. }
  destruct Hd as [Hd|(k & Hk & Hb & Hok)]; [right|left].
  - split; [done|]. by apply H2.
  - exists k. split_and!; try done. by apply H1.
Qed.

(** ** resolver.go *)

Section resolver.
Context {MC : ManifestCodec}.

(** What becomes of one provider: [NewClient] fails, or [Resolve] returns. *)
Definition resolve_one (answer : result (result (list byte))) : result Manifest :=
  match answer with
  | Err e => Err e
  | Ok (Err e) => Err e
  | Ok (Ok manifestData) => Deserialize manifestData
  end.

(** [%!w(<nil>)] is how Go prints the missing error when there is no provider. *)
Definition no_provider : error := New "failed to resolve manifest from all providers: %!w(<nil>)".

Fixpoint resolve_loop (lastErr : option error) (answers : list (result (result (list byte))))
    : result Manifest :=
  match answers with
  | [] =>
      Err (match lastErr with
           | Some e => Wrap "failed to resolve manifest from all providers" e
           | None => no_provider
           end)
  | a :: rest =>
      match resolve_one a with Ok m => Ok m | Err e => resolve_loop (Some e) rest end
  end.

(** [answers]: one per provider, in order. *)
Definition ResolveManifest (answers : list (result (result (list byte)))) : result Manifest :=
  resolve_loop None answers.

Lemma resolve_loop_first e answers m :
  resolve_loop e answers = Ok m ↔
  ∃ pre d post, answers = pre ++ Ok (Ok d) :: post ∧ Deserialize d = Ok m ∧
    Forall (λ a, is_ok (resolve_one a) = false) pre.
Proof.
  revert e. induction answers as [|a answers IH]; intros e; cbn.
  { split; [by destruct e|]. by intros ([] & ? & ? & ? & _). }
  destruct (resolve_one a) as [m'|e'] eqn:Ea.
  - split.
    + intros [= ->]. destruct a as [[d|]|]; [|done|done]. by exists [], d, answers.
    + intros ([|a' pre] & d & post & [= -> ->] & Hd & Hp); cbn in Ea; [congruence|].
      apply Forall_cons in Hp as [Hp _]. by rewrite Ea in Hp.
  - rewrite IH. split.
    + intros (pre & d & post & -> & Hd & Hp). exists (a :: pre), d, post. split_and!; [done|done|].
      apply Forall_cons. by rewrite Ea.
    + intros ([|a' pre] & d & post & [= -> ->] & Hd & Hp); cbn in Ea; [congruence|].
      apply Forall_cons in Hp as [_ Hp]. by exists pre, d, post.
Qed.

(** Nothing ties the manifest to the content that was asked for: any peer
    can have any manifest [m] accepted for any identifier. *)
Theorem ResolveManifest_unchecked id m :
  length id = 32%nat → manifest_typed m →
  ∃ answer, may_return (Resolve id) answer ∧ ResolveManifest [Ok answer] = Ok m.
Proof.
  intros Hid Hm. exists (Ok (Serialize m)). split.
  - eapply (mr_send _ _ (Ok tt)), (mr_recv _ (Ok (BuildManifest id (Serialize m)))).
    cbn [BuildManifest message m_Payload m_Type]. unfold ParseManifest.
    rewrite decide_False by done. rewrite decide_False by (intros H; by apply H).
    rewrite decide_False by (rewrite zlen_app; pose proof (zlen_nonneg (Serialize m)); unfold zlen in *; lia).
    rewrite take_app_length', drop_app_length' by done. rewrite decide_False by (intros H; by apply H).
    apply mr_ret.
  - unfold ResolveManifest. cbn. by rewrite Deserialize_Serialize.
Qed.
End resolver.

(** ** Witnesses *)

Definition session_tuple (s : TransferSession) : list byte * string * list bool * Z * string :=
  (ts_ContentID s, ts_TargetPeer s, ts_Completed s, ts_TotalChunks s, ts_Status s).
Definition tuple_session (x : list byte * string * list bool * Z * string) : TransferSession :=
  let '(c, p, d, n, st) := x in
  {| ts_ContentID := c; ts_TargetPeer := p; ts_Completed := d; ts_TotalChunks := n; ts_Status := st |}.

Definition toy_session (d : list byte) : result TransferSession :=
  match decode (bits_pos d) with Some x => Ok (tuple_session x) | None => Err (New "invalid session") end.
#[local, program] Instance ToySessionCodec : SessionCodec := {|
  session_Marshal s := Ok (pos_bits (encode (session_tuple s))); session_Unmarshal := toy_session |}.
Next Obligation.
  intros s d. cbv beta. intros [= <-]. unfold toy_session. rewrite bits_pos_bits, decode_encode.
  by destruct s.
Qed.

Lemma scheduler_runs `{!SessionManager SM} {TC : TicketCodec} {TG : Type}
    (tg : option (list byte → TG → TG * result SignedTicket)) pid fault sends peers n s s' sess m k :
  runs tg (length peers) MaxAttempts pid fault sends n s s' →
  rtc (download_step tg pid fault sends peers)
    {| dl_run := s; dl_sess := sess; dl_sm := m; dl_handled := k; dl_result := None |}
    {| dl_run := s'; dl_sess := sess; dl_sm := m; dl_handled := k; dl_result := None |}.
Proof.
  induction 1 as [|n b s s1 s' Hs Hr IH]; [done|]. eapply rtc_l; [|exact IH].
  eapply (dl_scheduler _ _ _ _ _ b s1 {| dl_run := s; dl_sess := sess; dl_sm := m; dl_handled := k;
    dl_result := None |}). exact Hs.
Qed.

Lemma save_succeeds s (dir : FS) : ∃ dir', sm_Save s dir dir' (Ok tt).
Proof. by eexists _, None. Qed.

(** A download of one chunk into an empty store, from one provider. *)
Lemma one_download cid provider id c (sends : list byte → Chunk → Prop) :
  length id = 32%nat → serves (λ _, false) provider id c → sends id (set_chunk_id id c) → ∃ dir fs,
  download_reaches (SM := FS) (TC := OneTicketCodec) (TG := ()) None 1 (λ _, None) sends cid [id] ["p"]
    ∅ ∅ dir fs (Some (Ok tt)).
Proof.
  intros Hl Hc Hs. destruct (one_chunk_run provider id c sends Hc Hs) as (n & s & Hr & Hret).
  assert (Hok : run_ok sends [task_for id] s).
  { eapply runs_ok; [by apply Forall_singleton, task_for_fresh|exact Hr|]. apply start_run_ok, empty_store_valid. }
  destruct (run_ok_done _ _ _ Hok Hret) as [Hp _]. apply Permutation_length in Hp.
  rewrite !length_fmap in Hp. destruct (rn_completions s) as [|res [|]] eqn:Ec; try discriminate Hp.
  pose (sess := setup_session cid [id] "p" None).
  destruct (save_succeeds sess ∅) as [d1 H1].
  destruct (save_succeeds (set_completed [false] sess) d1) as [d2 H2].
  destruct (save_succeeds (mark_completed (tk_Index (wr_Task res)) (set_completed [false] sess)) d2)
    as [d3 H3].
  destruct (save_succeeds (set_status StatusCompleted (mark_completed (tk_Index (wr_Task res))
    (set_completed [false] sess))) d3) as [d4 H4].
  pose (dl := {| dl_run := s; dl_sess := set_status StatusCompleted (mark_completed (tk_Index (wr_Task res))
    (set_completed [false] sess)); dl_sm := d4; dl_handled := 1; dl_result := Some (Ok tt) |}).
  exists (dl_sm dl), (rn_fs (dl_run dl)). change (Some (Ok tt)) with (dl_result dl).
  eapply (reaches_run _ _ _ _ _ _ _ _ _ d2 (set_completed [false] sess) [task_for id] ["p"%string]); [|done|].
  - eapply (begin_tasks _ _ _ _ "p"%string [] _ None d1 d2 (Ok tt) [false]); [done|done|exact H1| |exact H2].
    unfold sess, setup_session. cbn [ts_Completed length replicate]. unfold setup_tasks.
    rewrite decide_False by done. done.
  - etrans; [exact (scheduler_runs None 1 (λ _, None) sends ["p"%string] n _ s (set_completed [false] sess) d2 0 Hr)|].
    eapply rtc_l; [eapply dl_progress; [done|cbn; by rewrite Ec|exact H3]|].
    eapply rtc_once. eapply (dl_return _ _ _ _ _ (Ok tt)); [done|exact Hret|cbn; by rewrite Ec|exact H4].
Qed.

Lemma Download_resumable_witness : ∃ (fs : FS) c,
  GetChunk (ws_id x61) fs = Ok c ∧ sha256 (ck_Data c) = ws_id x61.
Proof.
  destruct (one_download wp_cid ws_provider (ws_id x61) (ws_chunk x61) (λ _ _, True) (length_ws_id _)
    (ws_serves x61 ltac:(by left)) I) as (dir & fs & Hd). exists fs.
  refine (proj2 (proj2 (Download_resumable (TC := OneTicketCodec) (TG := ()) None 1 (λ _, None) (λ _ _, True) wp_cid
    [ws_id x61] ["p"%string] eq_refl _ _ ∅ ∅ dir fs _ empty_store_valid _ _ Hd)) eq_refl (ws_id x61) _).
  - apply Forall_singleton, length_ws_id.
  - apply NoDup_singleton.
  - intros id _ H. discriminate H.
  - intros sess H. discriminate H.
  - by left.
Defined.

Lemma ExecuteWithRetry_spec_witness :
  let op := λ n : nat, (Datatypes.S n, if decide (n < 2)%nat then Err (New "busy") else Ok tt) in
  ExecuteWithRetry op DefaultRetryPolicy [] 0%nat = (3%nat, Ok tt).
Proof.
  intros op. destruct (ExecuteWithRetry_spec op DefaultRetryPolicy 0%nat) as [(k & _ & _ & _ & H)|[_ (e & H & _)]].
  - vm_compute. discriminate.
  - clear H. reflexivity.
  - discriminate H.
Defined.
