(* ===== verification/AvailWire.v ===== *)
(** * Availability challenges on the wire

    integration/availability/protocol.go: the framed envelopes of
    [/cipher/availability/1.0.0], the provider's stream handler and the
    publisher's client.  Each stream carries one request: the handler reads one
    envelope, answers it at most once and closes.  Deadlines on the stream are
    reads and writes that fail. *)

From S2P Require Import Prelude Sha256 Crypto AvailTypes Verification Merkle Content ProofEngine Payment Tickets ChunkProtocol Session.

(** ** Envelopes *)

Definition MaxAvailabilityMessageSize : Z := 64 * 1024.

Definition MsgChallengeRequest : Z := 0x20.
Definition MsgChallengeResponse : Z := 0x21.
Definition MsgPaymentVoucher : Z := 0x22.
Definition MsgChallengeError : Z := 0x23.

Record WireEnvelope := { we_Type : Z; (* byte *) we_Payload : list byte }.

(** The bytes [WriteEnvelope] sends, or its error. *)
Definition WriteEnvelope (env : WireEnvelope) : result (list byte) :=
  let totalLen := u32 (1 + zlen (we_Payload env)) in
  if decide (totalLen > MaxAvailabilityMessageSize) then
    Err (New ("envelope size " +:+ format_int totalLen +:+ " exceeds limit "
              +:+ format_int MaxAvailabilityMessageSize))
  else Ok (le32 totalLen ++ [byte_of_Z (we_Type env)] ++ we_Payload env).

Definition ReadEnvelope : reader WireEnvelope :=
  read! bs := rd_full 4 in
  let totalLen := le_val bs in
  if decide (totalLen > MaxAvailabilityMessageSize) then
    rd_err (New ("message size " +:+ format_int totalLen +:+ " exceeds limit "
                 +:+ format_int MaxAvailabilityMessageSize))
  else if decide (totalLen < 1) then rd_err (New "empty envelope frame")
  else
    read! data := rd_full (Z.to_nat totalLen) in
    rd_ret {| we_Type := le_val (take 1 data); we_Payload := drop 1 data |}.

(** ** JSON *)

(** encoding/json on the three payloads.  It replaces bytes that are not
    UTF-8 and refuses times outside the years 0 to 9999, so the round trip
    holds for values without either ([_json]). *)
Class AvailCodec := {
  challenge_Marshal : Challenge → result (list byte);
  challenge_Unmarshal : list byte → result Challenge;
  challenge_json : Challenge → Prop;
  challenge_roundtrip : ∀ c d,
    challenge_json c → challenge_Marshal c = Ok d → challenge_Unmarshal d = Ok c;
  response_Marshal : ChallengeResponse → result (list byte);
  response_Unmarshal : list byte → result ChallengeResponse;
  response_json : ChallengeResponse → Prop;
  response_roundtrip : ∀ r d,
    response_json r → response_Marshal r = Ok d → response_Unmarshal d = Ok r;
  voucher_Marshal : PaymentState → result (list byte);
  voucher_Unmarshal : list byte → result PaymentState;
  voucher_json : PaymentState → Prop;
  voucher_roundtrip : ∀ v d,
    voucher_json v → voucher_Marshal v = Ok d → voucher_Unmarshal d = Ok v;
}.

Abbreviation wproto := (prog WireEnvelope).

Definition envelope (t : Z) (payload : list byte) : WireEnvelope :=
  {| we_Type := t; we_Payload := payload |}.

(** The payload of an error answer, written by hand in the source. *)
Definition error_payload (what : string) (e : error) : list byte :=
  bytes_of "{" ++ [x22] ++ bytes_of "error" ++ [x22] ++
  bytes_of ":" ++ [x22] ++ bytes_of (what +:+ ": " +:+ Error e) ++ [x22] ++ bytes_of "}".

(** ** The provider's handler *)

Record AvailabilityStreamHandler (V : Type) := {
  ah_proofEngine : ProviderProofEngine;
  ah_vouchers : list PaymentState;
  ah_seen : V;                  (* what the [onVoucher] callback acts on *)
}.
Arguments ah_proofEngine {V}. Arguments ah_vouchers {V}. Arguments ah_seen {V}.

Definition set_engine {V} (e : ProviderProofEngine) (h : AvailabilityStreamHandler V)
    : AvailabilityStreamHandler V :=
  {| ah_proofEngine := e; ah_vouchers := ah_vouchers h; ah_seen := ah_seen h |}.

Section handler.
Context {ED : Ed25519} {MC : ManifestCodec} {AC : AvailCodec} {V : Type}.
Context (onVoucher : option (PaymentState → V → V)).
(** The provider's clock when it answers. *)
Context (now : Z).

Definition NewAvailabilityStreamHandler (e : ProviderProofEngine) (v : V)
    : AvailabilityStreamHandler V :=
  {| ah_proofEngine := e; ah_vouchers := []; ah_seen := v |}.

Definition answer_challenge (payload : list byte) (h : AvailabilityStreamHandler V)
    : wproto (AvailabilityStreamHandler V * bool) :=
  match challenge_Unmarshal payload with
  | Err e => send! (envelope MsgChallengeError (error_payload "bad json" e)) in Ret (h, false)
  | Ok challenge =>
      match HandleChallenge challenge now (ah_proofEngine h) with
      | (e', Err er) =>
          send! (envelope MsgChallengeError (error_payload "proof failed" er)) in
          Ret (set_engine e' h, false)
      | (e', Ok resp) =>
          match response_Marshal resp with
          | Err _ => Ret (set_engine e' h, false)
          | Ok payloadBytes =>
              send! (envelope MsgChallengeResponse payloadBytes) in Ret (set_engine e' h, false)
          end
      end
  end.

Definition take_voucher (payload : list byte) (h : AvailabilityStreamHandler V)
    : AvailabilityStreamHandler V :=
  match voucher_Unmarshal payload with
  | Err _ => h
  | Ok v =>
      {| ah_proofEngine := ah_proofEngine h; ah_vouchers := ah_vouchers h ++ [v];
         ah_seen := match onVoucher with Some f => f v (ah_seen h) | None => ah_seen h end |}
  end.

Definition HandleStream (h : AvailabilityStreamHandler V)
    : wproto (AvailabilityStreamHandler V * bool) :=
  Recv (λ r,
    match r with
    | Err _ => Ret (h, false)
    | Ok env =>
        if decide (we_Type env = MsgChallengeRequest) then answer_challenge (we_Payload env) h
        else if decide (we_Type env = MsgPaymentVoucher) then
          Ret (take_voucher (we_Payload env) h, false)
        else Ret (h, false)
    end).

Definition Vouchers (h : AvailabilityStreamHandler V) : list PaymentState := ah_vouchers h.

(** ** The publisher's client *)

(** The part of [ChallengeProvider] after the answer was read. *)
Definition challenge_answer (r : result WireEnvelope) : result ChallengeResponse :=
  match r with
  | Err e => Err (Wrap "read response envelope" e)
  | Ok env =>
      if decide (we_Type env = MsgChallengeError) then
        Err (New ("provider returned error: " +:+ string_of (we_Payload env)))
      else if decide (we_Type env ≠ MsgChallengeResponse) then
        Err (New ("unexpected envelope type 0x" +:+ EncodeToString [byte_of_Z (we_Type env)]))
      else
        match response_Unmarshal (we_Payload env) with
        | Err e => Err (Wrap "unmarshal challenge response" e)
        | Ok resp => Ok resp
        end
  end.

(** [opened]: the result of opening the stream. *)
Definition ChallengeProvider (opened : result ()) (challenge : Challenge)
    : wproto (result ChallengeResponse) :=
  match opened with
  | Err e => Ret (Err (Wrap "open availability stream" e))
  | Ok _ =>
      match challenge_Marshal challenge with
      | Err e => Ret (Err (Wrap "marshal challenge" e))
      | Ok payload =>
          Send (envelope MsgChallengeRequest payload) (λ w,
            match w with
            | Err e => Ret (Err (Wrap "send challenge" e))
            | Ok _ => Recv (λ r, Ret (challenge_answer r))
            end)
      end
  end.

Definition SendPaymentVoucher (opened : result ()) (voucher : PaymentState) : wproto (result ()) :=
  match opened with
  | Err e => Ret (Err (Wrap "open stream for voucher" e))
  | Ok _ =>
      match voucher_Marshal voucher with
      | Err e => Ret (Err (Wrap "marshal voucher" e))
      | Ok payload => Send (envelope MsgPaymentVoucher payload) (λ w, Ret w)
      end
  end.

End handler.

(** ** The wire format *)

Definition env_typed (env : WireEnvelope) : Prop := is_u8 (we_Type env).
Definition env_fits (env : WireEnvelope) : Prop :=
  1 + zlen (we_Payload env) <= MaxAvailabilityMessageSize.

Lemma ReadEnvelope_Write env rest :
  env_typed env → env_fits env →
  ∃ bs, WriteEnvelope env = Ok bs ∧ ReadEnvelope (bs ++ rest) = (rest, Ok env).
Proof.
  intros Ht Hf. unfold env_fits, MaxAvailabilityMessageSize in Hf.
  pose proof (zlen_nonneg (we_Payload env)) as Hn. unfold WriteEnvelope.
  rewrite u32_id by (unfold is_u32; lia). rewrite decide_False by (unfold MaxAvailabilityMessageSize; lia).
  eexists. split; [done|]. unfold ReadEnvelope, rd_bind. rewrite <- app_assoc.
  rewrite rd_full_app by apply length_le32. rewrite le_val_le32 by (unfold is_u32; lia).
  rewrite !decide_False by (unfold MaxAvailabilityMessageSize; lia).
  rewrite rd_full_app by (rewrite length_app; cbn [length]; unfold zlen in *; lia).
  cbn [app take drop]. unfold rd_ret. rewrite le_val_byte by done. by destruct env.
Qed.

(** The envelope reader accepts exactly the encodings of envelopes within the
    64 KB limit: it returns an envelope if and only if the input starts with
    the bytes [WriteEnvelope] produces for it, and it leaves the rest unread. *)
Theorem ReadEnvelope_exact input rest env :
  ReadEnvelope input = (rest, Ok env) ↔
  env_typed env ∧ env_fits env ∧ ∃ bs, WriteEnvelope env = Ok bs ∧ input = bs ++ rest.
Proof.
  split.
  2: { intros (Ht & Hf & bs & Hw & ->). destruct (ReadEnvelope_Write env rest Ht Hf) as (bs' & Hw' & Hr).
       rewrite Hw in Hw'. by injection Hw' as <-. }
  unfold ReadEnvelope, rd_bind, rd_full. destruct (ReadFull 4 input) as [[hd r1]|] eqn:E1; [|done].
  apply ReadFull_ok in E1 as [-> H4].
  destruct (decide (le_val hd > MaxAvailabilityMessageSize)) as [|Hmax]; [done|].
  destruct (decide (le_val hd < 1)) as [|Hmin]; [done|].
  destruct (ReadFull _ r1) as [[data r2]|] eqn:E2; [|done]. apply ReadFull_ok in E2 as [-> Hl].
  destruct data as [|b payload]; [cbn in Hl; lia|]. unfold rd_ret.
  change (drop 1 (b :: payload)) with payload. change (take 1 (b :: payload)) with [b].
  intros [= <- <-]. cbn in Hl.
  pose proof (le_val_range hd) as Hr. unfold zlen in Hr. rewrite H4 in Hr.
  assert (Hz : 1 + zlen payload = le_val hd) by (unfold zlen; lia).
  split_and!; [apply (le_val_range [b])|change (1 + zlen payload <= MaxAvailabilityMessageSize); lia|].
  unfold WriteEnvelope. cbn [we_Payload we_Type]. rewrite Hz, u32_id by apply Hr.
  rewrite decide_False by done. eexists. split; [done|]. unfold le32. rewrite le_bytes_of_length by done.
  rewrite <- !app_assoc. cbn [app le_val]. do 2 f_equal.
  by rewrite Z.mul_0_r, Z.add_0_r, byte_of_to.
Qed.

(** A payload of 2^32 - 1 bytes or more slips past the limit, because the
    length is truncated to 32 bits before it is compared: the frame that is
    written announces fewer bytes than follow. *)
Lemma WriteEnvelope_wraps t payload n :
  0 <= n < MaxAvailabilityMessageSize → zlen payload = 2 ^ 32 + n - 1 →
  WriteEnvelope (envelope t payload) = Ok (le32 n ++ [byte_of_Z t] ++ payload).
Proof.
  intros Hn Hl. unfold WriteEnvelope, MaxAvailabilityMessageSize in *. cbn [envelope we_Payload we_Type].
  assert (Hu : u32 (1 + zlen payload) = n).
  { rewrite Hl. unfold u32. replace (1 + (2 ^ 32 + n - 1)) with (n + 1 * 2 ^ 32) by lia.
    rewrite Z.mod_add by lia. apply Z.mod_small. lia. }
  rewrite Hu. by rewrite decide_False by lia.
Qed.

(** ** Client and handler together *)

Definition wwritable (env : WireEnvelope) : result () :=
  match WriteEnvelope env with Ok _ => Ok tt | Err e => Err e end.
Definition wreceive (env : WireEnvelope) : result WireEnvelope :=
  match WriteEnvelope env with Ok bs => (ReadEnvelope bs).2 | Err e => Err e end.

Lemma wire_transfer env : env_typed env → env_fits env → wwritable env = Ok tt ∧ wreceive env = Ok env.
Proof.
  intros Ht Hf. destruct (ReadEnvelope_Write env [] Ht Hf) as (bs & Hw & Hr). rewrite app_nil_r in Hr.
  unfold wwritable, wreceive. by rewrite Hw, Hr.
Qed.

Section joint.
Context {ED : Ed25519} {MC : ManifestCodec} {AC : AvailCodec} {V : Type}.
Context (onVoucher : option (PaymentState → V → V)) (now : Z).
Abbreviation serve := (HandleStream onVoucher now).
Abbreviation step := (session_step wwritable wreceive serve).
Implicit Types h : AvailabilityStreamHandler V.

(** A value fits on the wire when its JSON does. *)
Definition fits (d : list byte) : Prop := 1 + zlen d <= MaxAvailabilityMessageSize.

(** One envelope each way. *)
Lemma wire_exchange {A} h h' req ans (p : result () → wproto A) (k : result WireEnvelope → A) :
  env_typed req → env_fits req → env_typed ans → env_fits ans →
  p (Ok tt) = Recv (λ r, Ret (k r)) →
  (∀ r, serve h = Recv r → r (Ok req) = Send ans (λ _, Ret (h', false))) →
  rtc step (session serve (Send req p) h) (finished (k (Ok ans)) h' []).
Proof.
  intros Hrt Hrf Hat Haf Hp Hs. destruct (wire_transfer req Hrt Hrf) as [Hw Hr].
  destruct (wire_transfer ans Hat Haf) as [Hw' Hr']. unfold session.
  eapply rtc_l; [apply client_send|]. rewrite Hw, Hp. unfold push. rewrite Hw. cbn [is_ok app].
  unfold HandleStream at 2. eapply rtc_l; [apply server_recv|]. rewrite Hr.
  rewrite (Hs _ eq_refl). eapply rtc_l; [apply server_send|]. unfold push. rewrite Hw'. cbn [is_ok app].
  eapply rtc_l; [apply client_recv|]. rewrite Hr'. apply rtc_refl.
Qed.

(** C17: A challenge is answered under every schedule: if the provider holds or
    can load the Merkle tree of the challenged file and the messages fit the
    64 KB limit, every interleaving of client and handler ends with the client
    holding a response that passes [VerifyChallengeResponse] against the root
    of that tree and the provider's key. *)
Theorem challenge_session h ch timeout leaves t e' r dc dr :
  provider_tree (ah_proofEngine h) (ch_FileID ch) = Some t → NewMerkleTree leaves = Ok t →
  ed_valid (pe_privKey (ah_proofEngine h)) →
  pe_pubKey (ah_proofEngine h) = ed_public (pe_privKey (ah_proofEngine h)) →
  ch_ChallengeID ch ≠ ""%string → ch_ProviderID ch = pe_providerID (ah_proofEngine h) →
  0 <= ch_ChunkID ch < zlen leaves → (0 < timeout → now <= ch_CreatedAt ch + timeout) →
  HandleChallenge ch now (ah_proofEngine h) = (e', Ok r) →
  challenge_json ch → challenge_Marshal ch = Ok dc → fits dc →
  response_json r → response_Marshal r = Ok dr → fits dr →
  VerifyChallengeResponse ch r (Root t) (pe_pubKey (ah_proofEngine h)) timeout = Ok tt ∧
  always_ends wwritable wreceive serve
    (session serve (ChallengeProvider (Ok tt) ch) h) (finished (Ok r) (set_engine e' h) []).
Proof.
  intros Htree Hn Hk Hpk Hid Hprov Hc Htime HE Hjc Hdc Hfc Hjr Hdr Hfr. split.
  { destruct (honest_accepted _ ch now timeout leaves t Htree Hn Hk Hpk Hid Hprov Hc Htime)
      as (e1 & r1 & H1 & H2). rewrite HE in H1. by simplify_eq. }
  apply session_confluent.
  replace (Ok r) with (challenge_answer (Ok (envelope MsgChallengeResponse dr))).
  2: { unfold challenge_answer. cbn [envelope we_Type we_Payload]. rewrite decide_False by done.
       rewrite decide_False by (intros HX; by apply HX). by rewrite (response_roundtrip r). }
  unfold ChallengeProvider. rewrite Hdc.
  eapply (wire_exchange h _ (envelope MsgChallengeRequest dc)); try done.
  - intros k [= <-]. cbn [envelope we_Type we_Payload]. rewrite decide_True by done.
    unfold answer_challenge. rewrite (challenge_roundtrip ch) by done. by rewrite HE, Hdr.
Qed.

(** A challenge the provider cannot answer is reported back with the reason. *)
Lemma challenge_refused h ch e' er dc :
  HandleChallenge ch now (ah_proofEngine h) = (e', Err er) →
  challenge_json ch → challenge_Marshal ch = Ok dc → fits dc → fits (error_payload "proof failed" er) →
  always_ends wwritable wreceive serve (session serve (ChallengeProvider (Ok tt) ch) h)
    (finished (Err (New ("provider returned error: " +:+ string_of (error_payload "proof failed" er))))
       (set_engine e' h) []).
Proof.
  intros HE Hjc Hdc Hfc Hfe. apply session_confluent. unfold ChallengeProvider. rewrite Hdc.
  apply (wire_exchange h (set_engine e' h) (envelope MsgChallengeRequest dc)
    (envelope MsgChallengeError (error_payload "proof failed" er)) _ challenge_answer); try done.
  intros k [= <-]. cbn [envelope we_Type we_Payload]. rewrite decide_True by done.
  unfold answer_challenge. rewrite (challenge_roundtrip ch) by done. by rewrite HE.
Qed.

(** A voucher that fits on the wire is delivered under every schedule: the
    client returns nil, and the provider appends exactly that voucher to the
    ones it holds. *)
Lemma voucher_delivered h v d :
  voucher_json v → voucher_Marshal v = Ok d → fits d →
  always_ends wwritable wreceive serve (session serve (SendPaymentVoucher (Ok tt) v) h)
    (finished (Ok tt) (take_voucher onVoucher d h) []) ∧
  Vouchers (take_voucher onVoucher d h) = Vouchers h ++ [v].
Proof.
  intros Hj Hd Hf. split; [|unfold Vouchers, take_voucher; by rewrite (voucher_roundtrip v)].
  apply session_confluent. unfold SendPaymentVoucher, session. rewrite Hd.
  destruct (wire_transfer (envelope MsgPaymentVoucher d)) as [Hw Hr]; [done|done|].
  eapply rtc_l; [apply client_send|]. unfold push. rewrite Hw. cbn [is_ok app].
  unfold HandleStream at 2. eapply rtc_l; [apply server_recv|]. rewrite Hr.
  cbn [envelope we_Type we_Payload]. rewrite decide_False, decide_True by done. apply rtc_refl.
Qed.

(** Whatever a peer sends, the handler ends, keeps the vouchers it has and its
    identity, and takes at most one more voucher. *)
Lemma HandleStream_any_peer h h' b :
  may_return (serve h) (h', b) →
  b = false ∧ pe_privKey (ah_proofEngine h') = pe_privKey (ah_proofEngine h) ∧
  (Vouchers h' = Vouchers h ∨ ∃ v, Vouchers h' = Vouchers h ++ [v]).
Proof.
  unfold HandleStream. intros H. returns_inv; simplify_eq/=; try (split_and!; by auto).
  - unfold answer_challenge in H.
    assert (Hk : ∀ ch e' x, HandleChallenge ch now (ah_proofEngine h) = (e', x) →
              pe_privKey e' = pe_privKey (ah_proofEngine h))
      by (intros ch e' x [-> _]%generateResponse_keeps; done).
    returns_inv; simplify_eq/=; split_and!; eauto.
  - unfold Vouchers, take_voucher. destruct (voucher_Unmarshal _); cbn; split_and!; eauto.
Qed.

End joint.

(** ** Witnesses *)

(** A codec for one value of each kind. *)
#[program] Definition OneCodec (c : Challenge) (r : ChallengeResponse) (v : PaymentState) : AvailCodec := {|
  challenge_Marshal _ := Ok [x01]; challenge_Unmarshal _ := Ok c; challenge_json x := x = c;
  response_Marshal _ := Ok [x02]; response_Unmarshal _ := Ok r; response_json x := x = r;
  voucher_Marshal _ := Ok [x03]; voucher_Unmarshal _ := Ok v; voucher_json x := x = v |}.
Next Obligation. by intros c r v x d ->. Qed.
Next Obligation. by intros c r v x d ->. Qed.
Next Obligation. by intros c r v x d ->. Qed.

Lemma fits_small d : (length d <= 1)%nat → fits d.
Proof. unfold fits, MaxAvailabilityMessageSize, zlen. lia. Qed.

Definition wit_handler (t : MerkleTree) : AvailabilityStreamHandler () :=
  NewAvailabilityStreamHandler (wit_engine t) tt.

Lemma challenge_session_witness : ∃ t e' r,
  let AC := OneCodec (wit_ask "f1") r zero_payment in
  VerifyChallengeResponse (wit_ask "f1") r (Root t) (pe_pubKey (wit_engine t)) 60 = Ok tt ∧
  always_ends wwritable wreceive (HandleStream None 150)
    (session (HandleStream None 150) (ChallengeProvider (Ok tt) (wit_ask "f1")) (wit_handler t))
    (finished (Ok r) (set_engine e' (wit_handler t)) []).
Proof.
  destruct (NewMerkleTree_ok wit_leaves ltac:(discriminate) wit_leaves_32) as (ls & rt & Hn & _).
  set (t := {| mt_leaves := wit_leaves; mt_levels := ls; mt_root := rt |}) in *.
  destruct (honest_accepted (wit_engine t) (wit_ask "f1") 150 60 wit_leaves t) as (e' & r & HE & _);
    [reflexivity|exact Hn|reflexivity|reflexivity|discriminate|reflexivity|vm_compute; split; congruence
    |simpl; lia|].
  exists t, e', r. intros AC.
  apply (challenge_session (AC := AC) None 150 (wit_handler t) (wit_ask "f1") 60 wit_leaves t e' r [x01] [x02]);
    [reflexivity|exact Hn|reflexivity|reflexivity|discriminate|reflexivity|vm_compute; split; congruence
    |simpl; lia|exact HE|reflexivity|reflexivity|apply fits_small; reflexivity|reflexivity|reflexivity
    |apply fits_small; reflexivity].
Defined.

Definition no_response : ChallengeResponse :=
  {| rs_ChallengeID := ""; rs_ContractID := ""; rs_ProviderID := ""; rs_FileID := ""; rs_ChunkID := 0;
     rs_ChunkHash := []; rs_MerkleProof := []; rs_Signature := []; rs_RespondedAt := 0 |}.
