(* ===== verification/Bridge.v ===== *)
(** * Coordinator bridge

    integration/availability/coordinator_bridge.go: the publisher's payment
    side in one object, wired to the node's Ed25519 identity, and the check a
    provider can run on a voucher it receives.

    The bridge's coordinator and the one its dispatcher holds are the same
    pointer; here it is the coordinator inside the dispatcher. *)

From S2P Require Import Prelude Sha256 Crypto AvailTypes Verification Merkle Content ProofEngine Bindings Payment Coordinator Dispatcher Tickets ChunkProtocol Session AvailWire.

(** ** go-ethereum's package common *)

Class GethCommon := {
  (** [Address.Hex()]: [0x] and 40 hexadecimal digits, in mixed case *)
  AddressHex : list byte → string;
  (** [Hash.Hex()] *)
  HashHex : list byte → string;
  (** [HexToAddress(s)], [HexToHash(s)]: total, cropping and padding *)
  HexToAddress : string → list byte;
  HexToHash : string → list byte;
  AddressHex_digits : ∀ a, length a = 20%nat →
    ∃ h, AddressHex a = ("0x" +:+ h)%string ∧ slen h = 40 ∧ DecodeString h = Some a;
  HashHex_lower : ∀ h, length h = 32%nat → HashHex h = hex_String h;
  length_HexToAddress : ∀ s, length (HexToAddress s) = 20%nat;
  length_HexToHash : ∀ s, length (HexToHash s) = 32%nat;
  HexToAddress_hex : ∀ a, length a = 20%nat → HexToAddress (hex_String a) = a;
  HexToHash_hex : ∀ h, length h = 32%nat → HexToHash (hex_String h) = h;
}.

(** ** The bridge *)

Definition NoopEscrowSubmitter {W} : EscrowCall W := λ _ _ w, (w, Ok tt).

Record CoordinatorBridgeConfig (W : Type) := {
  bc_PublisherPeerID : string;
  bc_PublisherEthKey : option (list byte);
  bc_PublisherEdKey : list byte;
  bc_EscrowSubmitter : option (EscrowCall W);
  bc_FailureThreshold : Z;   (* uint32 *)
}.
Arguments bc_PublisherPeerID {W}. Arguments bc_PublisherEthKey {W}. Arguments bc_PublisherEdKey {W}.
Arguments bc_EscrowSubmitter {W}. Arguments bc_FailureThreshold {W}.

Record CoordinatorBridge (W : Type) := {
  cb_publisherID : string;
  cb_publisherEthKey : option (list byte);
  cb_publisherEdKey : list byte;
  cb_dispatcher : Dispatcher W;
  cb_submitter : EscrowCall W;
}.
Arguments cb_publisherID {W}. Arguments cb_publisherEthKey {W}. Arguments cb_publisherEdKey {W}.
Arguments cb_dispatcher {W}. Arguments cb_submitter {W}.

Definition with_dispatcher {W} (d : Dispatcher W) (b : CoordinatorBridge W) : CoordinatorBridge W :=
  {| cb_publisherID := cb_publisherID b; cb_publisherEthKey := cb_publisherEthKey b;
     cb_publisherEdKey := cb_publisherEdKey b; cb_dispatcher := d; cb_submitter := cb_submitter b |}.

Section bridge.
Context {W : Type} {ED : Ed25519} {GC : GethCommon}.
Implicit Types b : CoordinatorBridge W.

(** [payment.Ed25519Signer{PrivateKey: cfg.PublisherEdKey}] *)
Abbreviation bridge_signer key := (Ed25519Signer key).

Definition NewCoordinatorBridge (cfg : CoordinatorBridgeConfig W) : result (CoordinatorBridge W) :=
  if decide (bc_PublisherPeerID cfg = ""%string) then Err (New "publisher peer ID is required")
  else if decide (zlen (bc_PublisherEdKey cfg) ≠ PrivateKeySize) then
    Err (New "valid publisher Ed25519 private key is required")
  else
    let submitter := default NoopEscrowSubmitter (bc_EscrowSubmitter cfg) in
    match NewPublisherCoordinator (bc_PublisherPeerID cfg) (Some submitter) with
    | Err e => Err (Wrap "create publisher coordinator" e)
    | Ok pubCoord =>
        let threshold := if decide (bc_FailureThreshold cfg = 0) then DefaultFailureThreshold
                         else bc_FailureThreshold cfg in
        match NewAvailabilityPaymentDispatcher (Some pubCoord) (bc_PublisherEdKey cfg) [threshold] with
        | Err e => Err (Wrap "create payment dispatcher" e)
        | Ok disp =>
            Ok {| cb_publisherID := bc_PublisherPeerID cfg; cb_publisherEthKey := bc_PublisherEthKey cfg;
                  cb_publisherEdKey := bc_PublisherEdKey cfg; cb_dispatcher := disp;
                  cb_submitter := submitter |}
        end
    end.

Definition RegisterProvider (peerID : string) (ethAddr : list byte) b : CoordinatorBridge W * result () :=
  match ParseEthereumAddress (AddressHex ethAddr) with
  | Err e => (b, Err (Wrap "parse provider ethereum address" e))
  | Ok ethBinding =>
      let '(c, r) := Coordinator.RegisterProvider peerID ethBinding (ds_coordinator (cb_dispatcher b)) in
      (with_dispatcher (with_coordinator c (cb_dispatcher b)) b, r)
  end.

Definition RegisterContractSchedule (contractID : string) (escrowAgreementID : list byte)
    (paymentPerPass maxPayment : Z) b : CoordinatorBridge W * result () :=
  match ParseEscrowContractID (HashHex escrowAgreementID) with
  | Err e => (b, Err (Wrap "parse escrow contract ID" e))
  | Ok escrowBinding =>
      let '(d, r) := Dispatcher.RegisterContractSchedule contractID escrowBinding paymentPerPass
                       maxPayment (cb_dispatcher b) in
      (with_dispatcher d b, r)
  end.

Definition DispatchAvailabilityResult (res : AvailabilityResult) (now : Z) b
    : CoordinatorBridge W * result DispatchResult :=
  let '(d, r) := Dispatcher.DispatchAvailabilityResult (SG := bridge_signer (cb_publisherEdKey b))
                   res now (cb_dispatcher b) in
  (with_dispatcher d b, r).

End bridge.

Section verify.
Context {ED : Ed25519} {GE : GoEthereum}.

Definition VerifyPaymentVoucher (voucher : PaymentState) (pubEdKey pubEthAddr : list byte) : bool :=
  if decide (zlen (ps_PublisherSignature voucher) = 0) then false
  else if bool_decide (zlen pubEdKey = PublicKeySize) && VerifyPaymentState voucher pubEdKey then true
  else if decide (pubEthAddr ≠ zero_bytes 20 ∧ zlen (ps_PublisherSignature voucher) = 65) then
    match ec_Recover (Keccak256Hash (bytes_of (ps_ContractID voucher))) (ps_PublisherSignature voucher) with
    | Err _ => false
    | Ok recoveredAddr => bool_decide (recoveredAddr = pubEthAddr)
    end
  else false.
End verify.

(** ** Registration through the bridge *)

Section bridge_spec.
Context {W : Type} {ED : Ed25519} {GC : GethCommon} {GE : GoEthereum}.
Implicit Types b : CoordinatorBridge W.

Lemma parse_AddressHex a : length a = 20%nat → ParseEthereumAddress (AddressHex a) = Ok a.
Proof.
  intros Ha. destruct (AddressHex_digits a Ha) as (h & -> & Hl & Hd).
  unfold ParseEthereumAddress, parse_fixed. rewrite decide_True.
  - change 2 with (slen "0x") at 1. rewrite slice_suffix, Hd. rewrite decide_False; [done|].
    unfold zlen. lia.
  - split; [rewrite slen_app, Hl; reflexivity|apply (slice_prefix "0x")].
Qed.

Lemma parse_HashHex h : length h = 32%nat → ParseEscrowContractID (HashHex h) = Ok h.
Proof. intros Hh. rewrite HashHex_lower by done. by apply parse_String_roundtrip. Qed.

(** The text forms in between never get in the way: for values of the right
    size, the bridge registers exactly what it was given. *)
Lemma RegisterProvider_direct peerID a b :
  length a = 20%nat →
  RegisterProvider peerID a b =
    let '(c, r) := Coordinator.RegisterProvider peerID a (ds_coordinator (cb_dispatcher b)) in
    (with_dispatcher (with_coordinator c (cb_dispatcher b)) b, r).
Proof. intros Ha. unfold RegisterProvider. by rewrite parse_AddressHex. Qed.

Lemma RegisterContractSchedule_direct cid h ppp maxp b :
  length h = 32%nat →
  RegisterContractSchedule cid h ppp maxp b =
    let '(d, r) := Dispatcher.RegisterContractSchedule cid h ppp maxp (cb_dispatcher b) in
    (with_dispatcher d b, r).
Proof. intros Hh. unfold RegisterContractSchedule. by rewrite parse_HashHex. Qed.

(** ** The bridge refines the dispatcher *)

(** Bridges that [NewCoordinatorBridge] and the bridge's methods produce. *)
Inductive bridge_reach : CoordinatorBridge W → Prop :=
| br_new cfg b : is_u32 (bc_FailureThreshold cfg) → NewCoordinatorBridge cfg = Ok b → bridge_reach b
| br_provider p a b : bridge_reach b → length a = 20%nat → bridge_reach (RegisterProvider p a b).1
| br_schedule cid h ppp maxp b :
    bridge_reach b → length h = 32%nat → bridge_reach (RegisterContractSchedule cid h ppp maxp b).1
| br_dispatch res now b : bridge_reach b → bridge_reach (DispatchAvailabilityResult res now b).1.

(** Contract [cid] was registered and then [h] were the accepted results of it. *)
Inductive bridge_history (cid : string) (escrow : list byte) (ppp maxp : Z)
    : list AvailabilityResult → CoordinatorBridge W → Prop :=
| bh_register b b' :
    bridge_reach b → is_u64 ppp → is_u64 maxp → length escrow = 32%nat →
    RegisterContractSchedule cid escrow ppp maxp b = (b', Ok tt) →
    bridge_history cid escrow ppp maxp [] b'
| bh_dispatch h b res now b' r :
    bridge_history cid escrow ppp maxp h b → DispatchAvailabilityResult res now b = (b', r) →
    bridge_history cid escrow ppp maxp
      (if is_ok r && bool_decide (ar_ContractID res = cid) then h ++ [res] else h) b'
| bh_schedule h b id e p m :
    bridge_history cid escrow ppp maxp h b → length e = 32%nat →
    bridge_history cid escrow ppp maxp h (RegisterContractSchedule id e p m b).1
| bh_provider h b p a :
    bridge_history cid escrow ppp maxp h b → length a = 20%nat →
    bridge_history cid escrow ppp maxp h (RegisterProvider p a b).1.

Lemma NewCoordinatorBridge_Ok cfg b :
  NewCoordinatorBridge cfg = Ok b →
  ds_failureThreshold (cb_dispatcher b) =
    (if decide (bc_FailureThreshold cfg = 0) then DefaultFailureThreshold else bc_FailureThreshold cfg).
Proof.
  unfold NewCoordinatorBridge, NewPublisherCoordinator, NewAvailabilityPaymentDispatcher, WithFailureThreshold.
  case_decide; [done|]. case_decide; [done|]. cbn [foldl rbind].
  destruct (decide (bc_FailureThreshold cfg = 0)); rewrite decide_False by done; by intros [= <-].
Qed.

Lemma dispatch_threshold res now b :
  ds_failureThreshold (cb_dispatcher (DispatchAvailabilityResult res now b).1) =
  ds_failureThreshold (cb_dispatcher b).
Proof.
  unfold DispatchAvailabilityResult.
  destruct (Dispatcher.DispatchAvailabilityResult _ _ _) as [d [out|e]] eqn:E.
  - apply Dispatch_Ok in E as (s & _ & _ & _ & [(_ & ? & ? & ? & _ & _ & -> & _)|(_ & ? & ? & ? & _ & _ & _ & -> & _)]); done.
  - by apply Dispatch_Err in E as ->.
Qed.

Lemma bridge_threshold b : bridge_reach b → 1 <= ds_failureThreshold (cb_dispatcher b) <= MaxUint32.
Proof.
  induction 1 as [cfg b Hu Hn|p a b _ IH Ha|cid h ppp maxp b _ IH Hh|res now b _ IH].
  - rewrite (NewCoordinatorBridge_Ok _ _ Hn). unfold is_u32, MaxUint32, DefaultFailureThreshold in *.
    case_decide; lia.
  - rewrite RegisterProvider_direct by done. by destruct (Coordinator.RegisterProvider _ _ _).
  - rewrite RegisterContractSchedule_direct by done.
    unfold Dispatcher.RegisterContractSchedule. by repeat case_match; simplify_eq/=.
  - by rewrite dispatch_threshold.
Qed.

Lemma bridge_key res now b : cb_publisherEdKey (DispatchAvailabilityResult res now b).1 = cb_publisherEdKey b.
Proof. unfold DispatchAvailabilityResult. by destruct (Dispatcher.DispatchAvailabilityResult _ _ _). Qed.

(** Every run of the bridge is a run of its dispatcher, with the Ed25519
    signer on the publisher's key. *)
Lemma bridge_refines cid escrow ppp maxp h b :
  bridge_history cid escrow ppp maxp h b →
  history (SG := Ed25519Signer (cb_publisherEdKey b)) cid escrow ppp maxp h (cb_dispatcher b).
Proof.
  induction 1 as [b b' Hb Hp Hm Hl E|h b res now b' r _ IH E|h b id e p m _ IH He|h b p a _ IH Ha].
  - rewrite RegisterContractSchedule_direct in E by done.
    destruct (Dispatcher.RegisterContractSchedule _ _ _ _ _) as [d x] eqn:Ed. injection E as <- ->.
    eapply hist_register; [done|done|by apply bridge_threshold|exact Ed].
  - unfold DispatchAvailabilityResult in E.
    destruct (Dispatcher.DispatchAvailabilityResult _ _ _) as [d x] eqn:Ed. injection E as <- <-.
    by eapply hist_dispatch.
  - rewrite RegisterContractSchedule_direct by done.
    pose proof (hist_schedule _ _ _ _ _ _ id e p m IH) as H.
    by destruct (Dispatcher.RegisterContractSchedule _ _ _ _ _).
  - rewrite RegisterProvider_direct by done.
    pose proof (hist_coord _ _ _ _ _ _ _ IH (co_provider p a _)) as H.
    by destruct (Coordinator.RegisterProvider _ _ _).
Qed.

(** A voucher the bridge returns is accepted by [VerifyPaymentVoucher]. *)
Lemma bridge_voucher_verifies res now b b' out v addr :
  ed_valid (cb_publisherEdKey b) → DispatchAvailabilityResult res now b = (b', Ok out) →
  dr_PaymentState out = Some v →
  VerifyPaymentVoucher v (ed_public (cb_publisherEdKey b)) addr = true.
Proof.
  intros Hk E Hv. unfold DispatchAvailabilityResult in E.
  destruct (Dispatcher.DispatchAvailabilityResult _ _ _) as [d x] eqn:Ed. injection E as <- ->.
  pose proof Ed as Ed'. unfold Dispatcher.DispatchAvailabilityResult in Ed'.
  assert (Hs : ∃ s0, SignPaymentState s0 (cb_publisherEdKey b) = Ok v).
  { repeat case_match; simplify_eq/=;
      by match goal with H : CreateAndSignPaymentState _ _ _ _ _ = _ |- _ => apply CreateAndSign_signed in H end. }
  destruct Hs as [s0 Hs]. pose proof (SignPaymentState_verifies _ _ _ Hk Hs) as Hver.
  unfold VerifyPaymentVoucher. rewrite Hver, bool_decide_true.
  - rewrite decide_False; [done|]. intros H0. unfold VerifyPaymentState in Hver.
    rewrite H0 in Hver. by rewrite andb_false_r in Hver.
  - unfold PublicKeySize, zlen. by rewrite ed_public_length.
Qed.

(** C8: A passed challenge is paid, exactly and verifiably: through a bridge
    built from the publisher's Ed25519 key, after any history of accepted
    results for the contract, the voucher of a PASS carries the contract's
    escrow identifier, the next sequence number and [min(max, price * passes)];
    sending it delivers it to the provider under every schedule; and
    [VerifyPaymentVoucher] accepts it there under the publisher's public key. *)
Theorem pass_paid {MC : ManifestCodec} {AC : AvailCodec} {V : Type} cid escrow ppp maxp h b res now b' out
    (onVoucher : option (PaymentState → V → V)) clock (hd : AvailabilityStreamHandler V) addr :
  bridge_history cid escrow ppp maxp h b → ed_valid (cb_publisherEdKey b) →
  DispatchAvailabilityResult res now b = (b', Ok out) →
  ar_ContractID res = cid → ar_Result res = AvailabilityPass →
  ∃ v, dr_PaymentState out = Some v ∧ ps_ContractID v = hex_String escrow ∧
    ps_Sequence v = zlen h + 1 ∧ ps_CumulativePayment v = Z.min maxp (ppp * (passed h + 1)) ∧
    VerifyPaymentVoucher v (ed_public (cb_publisherEdKey b)) addr = true ∧
    ∀ d, voucher_json v → voucher_Marshal v = Ok d → fits d →
      always_ends wwritable wreceive (HandleStream onVoucher clock)
        (session (HandleStream onVoucher clock) (SendPaymentVoucher (Ok tt) v) hd)
        (finished (Ok tt) (take_voucher onVoucher d hd) []) ∧
      Vouchers (take_voucher onVoucher d hd) = Vouchers hd ++ [v].
Proof.
  intros Hh Hk E Hc Hp. pose proof (bridge_refines _ _ _ _ _ _ Hh) as Hr.
  pose proof E as E'. unfold DispatchAvailabilityResult in E'.
  destruct (Dispatcher.DispatchAvailabilityResult _ _ _) as [d x] eqn:Ed. injection E' as _ ->.
  destruct (pass_voucher _ _ _ _ _ _ _ _ _ _ Hr Ed Hc Hp) as (v & Hv & _ & H1 & _ & H2 & H3 & _).
  exists v. split_and!; try done; [by eapply bridge_voucher_verifies|].
  intros dv Hj Hm Hf. by apply voucher_delivered.
Qed.
End bridge_spec.

(** ** The Ethereum branch

    The second check of [VerifyPaymentVoucher] recovers the signer of
    [keccak256(contractID)] only: one signature of the publisher on a contract
    identifier makes every voucher for that contract acceptable, whatever
    amount it claims. *)
Theorem eth_voucher_unbound {ED : Ed25519} {GE : GoEthereum} k cid :
  ec_valid k → PubkeyToAddress k ≠ zero_bytes 20 →
  ∃ sig, ∀ v, ps_ContractID v = cid → VerifyPaymentVoucher (set_sig sig v) [] (PubkeyToAddress k) = true.
Proof.
  intros Hk Hz.
  destruct (ec_Sign_valid (Keccak256Hash (bytes_of cid)) k Hk (length_Keccak256Hash _))
    as (rs & w & _ & Hl & _ & Hr).
  exists (rs ++ [w]). intros v Hv. unfold VerifyPaymentVoucher. cbn [set_sig ps_PublisherSignature ps_ContractID].
  assert (Hz65 : zlen (rs ++ [w]) = 65) by (unfold zlen; rewrite length_app, Hl; done).
  rewrite Hz65, Hv, Hr. rewrite decide_False by lia. cbn [andb bool_decide].
  rewrite bool_decide_false by done. cbn [andb]. rewrite decide_True by done. by apply bool_decide_true.
Qed.

(** ** Witnesses *)

Definition or_zero (n : nat) (r : result (list byte)) : list byte :=
  match r with Ok b => if decide (length b = n) then b else zero_bytes n | Err _ => zero_bytes n end.
Lemma length_or_zero n r : length (or_zero n r) = n.
Proof. unfold or_zero, zero_bytes. repeat case_match; try done; apply length_replicate. Qed.

#[global, program] Instance ToyGeth : GethCommon := {|
  AddressHex := hex_String; HashHex := hex_String;
  HexToAddress s := or_zero 20 (ParseEthereumAddress s);
  HexToHash s := or_zero 32 (ParseEscrowContractID s) |}.
Next Obligation.
  intros a Ha. cbv beta. exists (EncodeToString a). split_and!; [done| |apply DecodeString_EncodeToString].
  rewrite length_EncodeToString. unfold zlen. lia.
Qed.
Next Obligation. done. Qed.
Next Obligation. intros. apply length_or_zero. Qed.
Next Obligation. intros. apply length_or_zero. Qed.
Next Obligation.
  intros a Ha. cbv beta. rewrite (proj1 parse_String_roundtrip) by done. unfold or_zero. by rewrite decide_True.
Qed.
Next Obligation.
  intros a Ha. cbv beta. rewrite (proj1 (proj2 parse_String_roundtrip)) by done.
  unfold or_zero. by rewrite decide_True.
Qed.

Definition wb_config : CoordinatorBridgeConfig nat :=
  {| bc_PublisherPeerID := "pub"; bc_PublisherEthKey := None; bc_PublisherEdKey := toy_key 5;
     bc_EscrowSubmitter := None; bc_FailureThreshold := 0 |}.

Lemma pass_paid_witness :
  ∃ t (b b' : CoordinatorBridge nat) out v,
    let AC := OneCodec (wit_ask "f1") no_response v in
    DispatchAvailabilityResult (wit_res "c1" AvailabilityPass) 9 b = (b', Ok out) ∧
    dr_PaymentState out = Some v ∧ ps_CumulativePayment v = 30 ∧
    VerifyPaymentVoucher v (ed_public (toy_key 5)) [] = true ∧
    Vouchers (take_voucher None [x03] (wit_handler t)) = Vouchers (wit_handler t) ++ [v].
Proof.
  destruct (NewCoordinatorBridge wb_config) as [b0|e] eqn:E0; [|discriminate E0].
  pose (b1 := (RegisterProvider "prov" wit_addr b0).1).
  assert (Hb1 : bridge_reach b1)
    by (apply br_provider; [eapply (br_new wb_config); [split; done|exact E0]|done]).
  injection E0 as <-.
  pose (b2 := (RegisterContractSchedule "k1" wit_escrow 30 100 b1).1).
  assert (Hb2 : bridge_history "k1" wit_escrow 30 100 [] b2).
  { unfold b2. destruct (RegisterContractSchedule "k1" wit_escrow 30 100 b1) as [b [[]|e]] eqn:E2;
      [|refute_err E2].
    eapply (bh_register _ _ _ _ b1); [exact Hb1|split; done|split; done|done|exact E2]. }
  destruct (DispatchAvailabilityResult (wit_res "c1" AvailabilityPass) 9 b2) as [b3 [out|e]] eqn:E3;
    [|refute_err E3].
  set (AC := OneCodec (wit_ask "f1") no_response (default zero_payment (dr_PaymentState out))).
  destruct (NewMerkleTree_ok wit_leaves ltac:(discriminate) wit_leaves_32) as (ls & rt & _).
  set (t := {| mt_leaves := wit_leaves; mt_levels := ls; mt_root := rt |}) in *.
  destruct (pass_paid (MC := ToyManifestCodec) (AC := AC) _ _ _ _ _ _ _ _ _ _
    None 0 (wit_handler t) [] Hb2 eq_refl E3 eq_refl eq_refl) as (v & H1 & _ & _ & H2 & H3 & H4).
  destruct (H4 [x03]) as [_ H5]; [simpl; by rewrite H1|done|by apply fits_small|].
  exists t, b2, b3, out, v. cbv zeta. split; [exact E3|]. split; [exact H1|]. split; [exact H2|].
  split; [exact H3|]. unfold AC in H5. rewrite H1 in H5. exact H5.
Defined.
