(* ===== verification/EscrowContract.v ===== *)
(** * The escrow contract

    src/availability/escrow-payment/escrow: EscrowContract.sol with the types
    of contract_state.sol and the libraries settlement.sol and collateral.sol.
    It is the on-chain side of the Go adapter, and the place where the money
    is.

    A call is a function from the contract's state to a new state or a revert.
    [_sendValue] runs the recipient's code, which may call the contract again
    before it returns: a transaction ([tx]) is a tree that says, for every
    transfer, whether the recipient accepts it and which calls it makes
    meanwhile, and [exec] runs the tree.  An agreement that does not exist is
    an absent key (the [exists] flag). *)

From S2P Require Import Prelude Bindings Tickets.

(** ** contract_state.sol *)

Module EscrowTypes.

Inductive ContractState := Created | Funded | Active | Failed | Settled | Refunded | Terminated.
Inductive FailureReason := None | AvailabilityFailure | DeadlineMissed | PaymentStateInvalid | Other.

#[global] Instance ContractState_eq_dec : EqDecision ContractState.
Proof. solve_decision. Defined.
#[global] Instance FailureReason_eq_dec : EqDecision FailureReason.
Proof. solve_decision. Defined.

End EscrowTypes.
Import EscrowTypes(ContractState, FailureReason).

(** [EscrowTypes.PaymentState], which the adapter calls [solidityPaymentState]. *)
Record solidityPaymentState := {
  sp_ContractID : list byte;        (* bytes32 *)
  sp_Publisher : list byte;         (* address *)
  sp_Provider : list byte;          (* address *)
  sp_Sequence : Z;                  (* uint64 *)
  sp_Period : Z;                    (* uint64 *)
  sp_CumulativePayment : Z;         (* uint256 *)
  sp_LastChallengeID : list byte;   (* bytes32 *)
  sp_ValidUntil : Z;                (* uint64 *)
  sp_Status : Z;                    (* uint8 *)
  sp_Signature : list byte;
}.

Record EscrowAgreement := {
  ag_publisher : list byte;
  ag_provider : list byte;
  ag_fileID : list byte;
  ag_rulesHash : list byte;
  ag_reward : Z;                    (* uint256 *)
  ag_escrowBalance : Z;             (* uint256 *)
  ag_collateralRequired : Z;        (* uint256 *)
  ag_collateral : Z;                (* uint256 *)
  ag_periods : Z;                   (* uint64 *)
  ag_duration : Z;                  (* uint64 *)
  ag_activatedAt : Z;               (* uint64 *)
  ag_deadline : Z;                  (* uint64 *)
  ag_latestSequence : Z;            (* uint64 *)
  ag_latestCumulativePayment : Z;   (* uint256 *)
  ag_state : ContractState;
  ag_failureReason : FailureReason;
  ag_hasPaymentState : bool;
}.

(** Assignments to the fields of an agreement in storage. *)
Definition set_money (escrow collateral : Z) (st : ContractState) (a : EscrowAgreement) : EscrowAgreement :=
  {| ag_publisher := ag_publisher a; ag_provider := ag_provider a; ag_fileID := ag_fileID a;
     ag_rulesHash := ag_rulesHash a; ag_reward := ag_reward a; ag_escrowBalance := escrow;
     ag_collateralRequired := ag_collateralRequired a; ag_collateral := collateral;
     ag_periods := ag_periods a; ag_duration := ag_duration a; ag_activatedAt := ag_activatedAt a;
     ag_deadline := ag_deadline a; ag_latestSequence := ag_latestSequence a;
     ag_latestCumulativePayment := ag_latestCumulativePayment a; ag_state := st;
     ag_failureReason := ag_failureReason a; ag_hasPaymentState := ag_hasPaymentState a |}.

Definition set_escrow (z : Z) (st : ContractState) (a : EscrowAgreement) : EscrowAgreement :=
  set_money z (ag_collateral a) st a.
Definition set_collateral (z : Z) (a : EscrowAgreement) : EscrowAgreement :=
  set_money (ag_escrowBalance a) z (ag_state a) a.

Definition set_active (activatedAt deadline : Z) (a : EscrowAgreement) : EscrowAgreement :=
  {| ag_publisher := ag_publisher a; ag_provider := ag_provider a; ag_fileID := ag_fileID a;
     ag_rulesHash := ag_rulesHash a; ag_reward := ag_reward a; ag_escrowBalance := ag_escrowBalance a;
     ag_collateralRequired := ag_collateralRequired a; ag_collateral := ag_collateral a;
     ag_periods := ag_periods a; ag_duration := ag_duration a; ag_activatedAt := activatedAt;
     ag_deadline := deadline; ag_latestSequence := ag_latestSequence a;
     ag_latestCumulativePayment := ag_latestCumulativePayment a; ag_state := EscrowTypes.Active;
     ag_failureReason := ag_failureReason a; ag_hasPaymentState := ag_hasPaymentState a |}.

Definition set_failure (st : ContractState) (r : FailureReason) (a : EscrowAgreement) : EscrowAgreement :=
  {| ag_publisher := ag_publisher a; ag_provider := ag_provider a; ag_fileID := ag_fileID a;
     ag_rulesHash := ag_rulesHash a; ag_reward := ag_reward a; ag_escrowBalance := ag_escrowBalance a;
     ag_collateralRequired := ag_collateralRequired a; ag_collateral := ag_collateral a;
     ag_periods := ag_periods a; ag_duration := ag_duration a; ag_activatedAt := ag_activatedAt a;
     ag_deadline := ag_deadline a; ag_latestSequence := ag_latestSequence a;
     ag_latestCumulativePayment := ag_latestCumulativePayment a; ag_state := st;
     ag_failureReason := r; ag_hasPaymentState := ag_hasPaymentState a |}.

Definition set_latest (sequence cumulative : Z) (a : EscrowAgreement) : EscrowAgreement :=
  {| ag_publisher := ag_publisher a; ag_provider := ag_provider a; ag_fileID := ag_fileID a;
     ag_rulesHash := ag_rulesHash a; ag_reward := ag_reward a; ag_escrowBalance := ag_escrowBalance a;
     ag_collateralRequired := ag_collateralRequired a; ag_collateral := ag_collateral a;
     ag_periods := ag_periods a; ag_duration := ag_duration a; ag_activatedAt := ag_activatedAt a;
     ag_deadline := ag_deadline a; ag_latestSequence := sequence;
     ag_latestCumulativePayment := cumulative; ag_state := ag_state a;
     ag_failureReason := ag_failureReason a; ag_hasPaymentState := true |}.

(** ** Storage, balance and log *)

Inductive event :=
| ContractCreated (contractID publisher provider : list byte)
| EscrowFunded (contractID : list byte) (amount : Z)
| CollateralDeposited (contractID : list byte) (amount : Z)
| ContractActivated (contractID : list byte) (deadline : Z)
| PaymentStateAccepted (contractID : list byte) (sequence cumulativePayment : Z)
| ContractSettled (contractID : list byte) (providerPayment publisherRefund : Z)
| FailureMarked (contractID : list byte) (reason : FailureReason)
| CollateralSlashed (contractID : list byte) (penalty : Z)
| ContractTerminated (contractID : list byte)
| FailureDisputed (contractID : list byte) (sequence : Z).

(** [es_balance] is [address(this).balance]; [es_paid] lists the transfers
    made, last first. *)
Record Escrow := {
  es_agreements : gmap (list byte) EscrowAgreement;
  es_latestPaymentStates : gmap (list byte) solidityPaymentState;
  es_nextContractNonce : Z;         (* uint256 *)
  es_balance : Z;
  es_paid : list (list byte * Z);
  es_log : list event;
}.

Definition deployed : Escrow :=
  {| es_agreements := ∅; es_latestPaymentStates := ∅; es_nextContractNonce := 0; es_balance := 0;
     es_paid := []; es_log := [] |}.

Definition put (id : list byte) (a : EscrowAgreement) (s : Escrow) : Escrow :=
  {| es_agreements := <[id := a]> (es_agreements s); es_latestPaymentStates := es_latestPaymentStates s;
     es_nextContractNonce := es_nextContractNonce s; es_balance := es_balance s; es_paid := es_paid s;
     es_log := es_log s |}.
Definition put_latest (id : list byte) (p : solidityPaymentState) (s : Escrow) : Escrow :=
  {| es_agreements := es_agreements s; es_latestPaymentStates := <[id := p]> (es_latestPaymentStates s);
     es_nextContractNonce := es_nextContractNonce s; es_balance := es_balance s; es_paid := es_paid s;
     es_log := es_log s |}.
Definition bump_nonce (s : Escrow) : Escrow :=
  {| es_agreements := es_agreements s; es_latestPaymentStates := es_latestPaymentStates s;
     es_nextContractNonce := es_nextContractNonce s + 1; es_balance := es_balance s; es_paid := es_paid s;
     es_log := es_log s |}.
Definition credit (v : Z) (s : Escrow) : Escrow :=
  {| es_agreements := es_agreements s; es_latestPaymentStates := es_latestPaymentStates s;
     es_nextContractNonce := es_nextContractNonce s; es_balance := es_balance s + v; es_paid := es_paid s;
     es_log := es_log s |}.
Definition pay (recipient : list byte) (v : Z) (s : Escrow) : Escrow :=
  {| es_agreements := es_agreements s; es_latestPaymentStates := es_latestPaymentStates s;
     es_nextContractNonce := es_nextContractNonce s; es_balance := es_balance s - v;
     es_paid := (recipient, v) :: es_paid s; es_log := es_log s |}.
Definition emit (e : event) (s : Escrow) : Escrow :=
  {| es_agreements := es_agreements s; es_latestPaymentStates := es_latestPaymentStates s;
     es_nextContractNonce := es_nextContractNonce s; es_balance := es_balance s; es_paid := es_paid s;
     es_log := e :: es_log s |}.

(** ** The machine *)

(** Half the order of secp256k1, the largest [s] the contract accepts. *)
Definition half_order : Z := 0x7fffffffffffffffffffffffffffffff5d576e7357a4501ddfe92f46681b20a0.

(** The deployment and the [ecrecover] precompile.  The law is what
    [crypto.Sign] documents: a signature [R || S || V] with a low [S], from
    which the precompile recovers the signer. *)
Class Evm `{GoEthereum} := {
  this : list byte;      (* address(this) *)
  chainid : Z;           (* block.chainid *)
  ecrecover : list byte → Z → list byte → list byte → list byte;
  length_this : length this = 20%nat;
  chainid_range : 0 < chainid < 2 ^ 256;
  ecrecover_Sign : ∀ d k r s v, ec_valid k → length d = 32%nat → length r = 32%nat → length s = 32%nat →
    ec_Sign d k = Ok (r ++ s ++ [v]) →
    be_val s <= half_order ∧ ecrecover d (27 + byte_to_Z v) r s = PubkeyToAddress k;
}.

Definition UnknownContract : error := New "UnknownContract".
Definition Unauthorized : error := New "Unauthorized".
Definition InvalidState : error := New "InvalidState".
Definition InvalidInput : error := New "InvalidInput".
Definition InvalidPaymentState : error := New "InvalidPaymentState".
Definition InvalidSignature : error := New "InvalidSignature".
Definition TransferFailed : error := New "TransferFailed".
(** Checked arithmetic and the ABI decoder revert too. *)
Definition Panic : error := New "Panic(0x11)".
Definition BadCalldata : error := New "".

Definition SETTLEMENT_WINDOW : Z := 86400.

#[global] Instance is_u256_dec z : Decision (is_u256 z) := ltac:(unfold is_u256; apply _).
#[global] Instance is_u64_dec z : Decision (is_u64 z) := ltac:(unfold is_u64; apply _).
#[global] Instance is_u8_dec z : Decision (is_u8 z) := ltac:(unfold is_u8; apply _).

(** Checked [uint64] addition and [uint256] subtraction. *)
Definition add64 (a b : Z) : result Z := if decide (a + b < 2 ^ 64) then Ok (a + b) else Err Panic.
Definition sub256 (a b : Z) : result Z := if decide (b <= a) then Ok (a - b) else Err Panic.

(** [abi.encode] of static values: one 32-byte word each. *)
Definition address_word (a : list byte) : list byte := replicate 12 x00 ++ a.
Definition uint_word (z : Z) : list byte := be_bytes 32 z.
#[global] Arguments address_word : simpl never.
#[global] Arguments uint_word : simpl never.

Record Msg := { msg_sender : list byte; msg_value : Z; block_timestamp : Z }.

(** What the recipient of a transfer does to the contract before it returns:
    [None] when it reverts. *)
Definition receiver : Type := Escrow → option Escrow.

(** ** settlement.sol and collateral.sol *)

Definition isNextPaymentState (a : EscrowAgreement) (p : solidityPaymentState) : bool :=
  bool_decide (sp_Sequence p > ag_latestSequence a)
  && bool_decide (sp_CumulativePayment p >= ag_latestCumulativePayment a)
  && bool_decide (sp_CumulativePayment p <= ag_reward a).

Definition penaltyAmount (collateral requestedPenalty : Z) : Z :=
  if decide (requestedPenalty > collateral) then collateral else requestedPenalty.

(** ** EscrowContract.sol *)

Section contract.
Context `{Evm}.
Implicit Types (m : Msg) (s : Escrow).

Definition agreement (contractID : list byte) s : result EscrowAgreement :=
  match es_agreements s !! contractID with
  | Some a => Ok a
  | None => Err UnknownContract
  end.

Definition payment_digest (p : solidityPaymentState) : list byte :=
  Keccak256Hash (address_word this ++ uint_word chainid ++ sp_ContractID p
    ++ address_word (sp_Publisher p) ++ address_word (sp_Provider p) ++ uint_word (sp_Sequence p)
    ++ uint_word (sp_Period p) ++ uint_word (sp_CumulativePayment p) ++ sp_LastChallengeID p
    ++ uint_word (sp_ValidUntil p) ++ uint_word (sp_Status p)).

Definition eth_prefix : list byte := x19 :: bytes_of "Ethereum Signed Message:" ++ [x0a].

Definition recoverPaymentSigner (p : solidityPaymentState) : list byte :=
  if decide (zlen (sp_Signature p) ≠ 65) then zero_bytes 20
  else
    let messageHash := Keccak256Hash (eth_prefix ++ bytes_of "32" ++ payment_digest p) in
    let r := take 32 (sp_Signature p) in
    let sv := take 32 (drop 32 (sp_Signature p)) in
    let v := le_val (take 1 (drop 64 (sp_Signature p))) in
    let v := if decide (v < 27) then v + 27 else v in
    if decide ((v ≠ 27 ∧ v ≠ 28) ∨ be_val sv > half_order) then zero_bytes 20
    else ecrecover messageHash v r sv.

Definition sendValue (r : receiver) (recipient : list byte) (amount : Z) s : result Escrow :=
  if decide (amount = 0) then Ok s
  else if decide (es_balance s < amount) then Err TransferFailed
  else match r (pay recipient amount s) with
       | Some s' => Ok s'
       | None => Err TransferFailed
       end.

Definition contract_preimage (sender provider fileID : list byte) (nonce : Z) : list byte :=
  address_word this ++ uint_word chainid ++ address_word sender ++ address_word provider ++ fileID
  ++ uint_word nonce.

Definition new_agreement (sender provider fileID : list byte) (reward periods duration : Z)
    (rulesHash : list byte) (collateralRequired : Z) : EscrowAgreement :=
  {| ag_publisher := sender; ag_provider := provider; ag_fileID := fileID; ag_rulesHash := rulesHash;
     ag_reward := reward; ag_escrowBalance := 0; ag_collateralRequired := collateralRequired;
     ag_collateral := 0; ag_periods := periods; ag_duration := duration; ag_activatedAt := 0;
     ag_deadline := 0; ag_latestSequence := 0; ag_latestCumulativePayment := 0;
     ag_state := EscrowTypes.Created; ag_failureReason := EscrowTypes.None; ag_hasPaymentState := false |}.

Definition createContract (provider fileID : list byte) (reward periods duration : Z)
    (rulesHash : list byte) (collateralRequired : Z) m s : result (Escrow * list byte) :=
  if decide (provider = zero_bytes 20 ∨ fileID = zero_bytes 32 ∨ reward = 0 ∨ periods = 0 ∨ duration = 0)
  then Err InvalidInput
  else if decide (es_nextContractNonce s + 1 >= 2 ^ 256) then Err Panic
  else
    let contractID := Keccak256Hash (contract_preimage (msg_sender m) provider fileID
                                       (es_nextContractNonce s)) in
    Ok (emit (ContractCreated contractID (msg_sender m) provider)
          (put contractID
             (new_agreement (msg_sender m) provider fileID reward periods duration rulesHash collateralRequired)
             (bump_nonce s)), contractID).

Definition fundEscrow (contractID : list byte) m s : result Escrow :=
  let! a := agreement contractID s in
  if decide (msg_sender m ≠ ag_publisher a ∨ ag_state a ≠ EscrowTypes.Created
             ∨ msg_value m ≠ ag_reward a) then Err InvalidState
  else Ok (emit (EscrowFunded contractID (msg_value m))
             (put contractID (set_escrow (msg_value m) EscrowTypes.Funded a) s)).

Definition depositCollateral (contractID : list byte) m s : result Escrow :=
  let! a := agreement contractID s in
  if decide (msg_sender m ≠ ag_provider a ∨ ag_state a ≠ EscrowTypes.Funded) then Err InvalidState
  else if decide (ag_collateral a ≠ 0) then Err InvalidState
  else if decide (ag_collateralRequired a = 0 ∨ msg_value m ≠ ag_collateralRequired a) then Err InvalidInput
  else Ok (emit (CollateralDeposited contractID (msg_value m))
             (put contractID (set_collateral (msg_value m) a) s)).

Definition activateContract (contractID : list byte) m s : result Escrow :=
  let! a := agreement contractID s in
  if decide (msg_sender m ≠ ag_publisher a ∧ msg_sender m ≠ ag_provider a) then Err Unauthorized
  else if decide (ag_state a ≠ EscrowTypes.Funded ∨ ag_escrowBalance a ≠ ag_reward a) then Err InvalidState
  else if decide (ag_collateral a < ag_collateralRequired a) then Err InvalidState
  else
    let! deadline := add64 (u64 (block_timestamp m)) (ag_duration a) in
    Ok (emit (ContractActivated contractID deadline)
          (put contractID (set_active (u64 (block_timestamp m)) deadline a) s)).

(** The checks [submitPaymentState] and [disputeFailure] share. *)
Definition voucher_valid (contractID : list byte) (a : EscrowAgreement) (p : solidityPaymentState) m : bool :=
  bool_decide (sp_ContractID p = contractID) && bool_decide (sp_Publisher p = ag_publisher a)
  && bool_decide (sp_Provider p = ag_provider a) && bool_decide (block_timestamp m <= sp_ValidUntil p)
  && isNextPaymentState a p.

Definition submitPaymentState (contractID : list byte) (p : solidityPaymentState) m s : result Escrow :=
  let! a := agreement contractID s in
  if decide (ag_state a ≠ EscrowTypes.Active) then Err InvalidState
  else
    let! limit := add64 (ag_deadline a) SETTLEMENT_WINDOW in
    if decide (block_timestamp m > limit) then Err InvalidState
    else if negb (voucher_valid contractID a p m) then Err InvalidPaymentState
    else if decide (recoverPaymentSigner p ≠ ag_publisher a) then Err InvalidSignature
    else Ok (emit (PaymentStateAccepted contractID (sp_Sequence p) (sp_CumulativePayment p))
               (put_latest contractID p
                  (put contractID (set_latest (sp_Sequence p) (sp_CumulativePayment p) a) s))).

Definition settleContract (contractID : list byte) (p : solidityPaymentState) (r1 r2 : receiver) m s
    : result Escrow :=
  let! a := agreement contractID s in
  if decide (ag_state a ≠ EscrowTypes.Active ∨ ag_hasPaymentState a = false) then Err InvalidState
  else if decide (sp_Sequence p ≠ ag_latestSequence a
                  ∨ sp_CumulativePayment p ≠ ag_latestCumulativePayment a
                  ∨ sp_ContractID p ≠ contractID) then Err InvalidPaymentState
  else
    let providerPayment := ag_latestCumulativePayment a in
    let! publisherRefund := sub256 (ag_escrowBalance a) providerPayment in
    let s := put contractID (set_escrow 0 EscrowTypes.Settled a) s in
    let! s := sendValue r1 (ag_provider a) providerPayment s in
    let! s := sendValue r2 (ag_publisher a) publisherRefund s in
    Ok (emit (ContractSettled contractID providerPayment publisherRefund) s).

(** The automatic termination at the start of [refundPublisher]. *)
Definition auto_terminate (contractID : list byte) (a : EscrowAgreement) m s
    : result (EscrowAgreement * Escrow) :=
  if decide (ag_state a = EscrowTypes.Active) then
    let! limit := add64 (ag_deadline a) SETTLEMENT_WINDOW in
    if decide (block_timestamp m > limit ∧ ag_hasPaymentState a = false) then
      let a := set_escrow (ag_escrowBalance a) EscrowTypes.Terminated a in
      Ok (a, emit (ContractTerminated contractID) (put contractID a s))
    else Ok (a, s)
  else Ok (a, s).

Definition refundPublisher (contractID : list byte) (r : receiver) m s : result Escrow :=
  let! a := agreement contractID s in
  let! (a, s) := auto_terminate contractID a m s in
  if decide (msg_sender m ≠ ag_publisher a
             ∨ (ag_state a ≠ EscrowTypes.Failed ∧ ag_state a ≠ EscrowTypes.Terminated)) then
    Err InvalidState
  else
    let refund := ag_escrowBalance a in
    let s := put contractID (set_escrow 0 EscrowTypes.Refunded a) s in
    sendValue r (ag_publisher a) refund s.

Definition returnCollateral (contractID : list byte) (r : receiver) m s : result Escrow :=
  let! a := agreement contractID s in
  if decide ((ag_state a ≠ EscrowTypes.Settled ∧ ag_state a ≠ EscrowTypes.Terminated
              ∧ ag_state a ≠ EscrowTypes.Refunded) ∨ ag_collateral a = 0) then Err InvalidState
  else
    let collateral := ag_collateral a in
    let s := put contractID (set_collateral 0 a) s in
    sendValue r (ag_provider a) collateral s.

Definition markFailure (contractID : list byte) (reason : FailureReason) m s : result Escrow :=
  let! a := agreement contractID s in
  if decide (msg_sender m ≠ ag_publisher a ∨ ag_state a ≠ EscrowTypes.Active
             ∨ reason = EscrowTypes.None) then Err InvalidState
  else Ok (emit (FailureMarked contractID reason)
             (put contractID (set_failure EscrowTypes.Failed reason a) s)).

Definition disputeFailure (contractID : list byte) (p : solidityPaymentState) m s : result Escrow :=
  let! a := agreement contractID s in
  if decide (ag_state a ≠ EscrowTypes.Failed) then Err InvalidState
  else if decide (msg_sender m ≠ ag_provider a) then Err Unauthorized
  else if negb (voucher_valid contractID a p m) then Err InvalidPaymentState
  else if decide (recoverPaymentSigner p ≠ ag_publisher a) then Err InvalidSignature
  else Ok (emit (FailureDisputed contractID (sp_Sequence p))
             (put_latest contractID p
                (put contractID
                   (set_latest (sp_Sequence p) (sp_CumulativePayment p)
                      (set_failure EscrowTypes.Active EscrowTypes.None a)) s))).

Definition slashCollateral (contractID : list byte) (penalty : Z) (r : receiver) m s : result Escrow :=
  let! a := agreement contractID s in
  if decide (msg_sender m ≠ ag_publisher a ∨ ag_state a ≠ EscrowTypes.Failed ∨ penalty = 0) then
    Err InvalidState
  else
    let amount := penaltyAmount (ag_collateral a) penalty in
    let! rest := sub256 (ag_collateral a) amount in
    let s := put contractID (set_collateral rest a) s in
    let! s := sendValue r (ag_publisher a) amount s in
    Ok (emit (CollateralSlashed contractID amount) s).

Definition terminateExpiredContract (contractID : list byte) m s : result Escrow :=
  let! a := agreement contractID s in
  if decide (ag_state a ≠ EscrowTypes.Active) then Err InvalidState
  else
    let! limit := add64 (ag_deadline a) SETTLEMENT_WINDOW in
    if decide (block_timestamp m <= limit) then Err InvalidState
    else if ag_hasPaymentState a then Err InvalidState
    else Ok (emit (ContractTerminated contractID)
               (put contractID (set_escrow (ag_escrowBalance a) EscrowTypes.Terminated a) s)).

Definition getContractState (contractID : list byte) s : result ContractState :=
  let! a := agreement contractID s in Ok (ag_state a).
Definition getPaymentState (contractID : list byte) s : result (option solidityPaymentState) :=
  let! _ := agreement contractID s in Ok (es_latestPaymentStates s !! contractID).
Definition getEscrowBalance (contractID : list byte) s : result Z :=
  let! a := agreement contractID s in Ok (ag_escrowBalance a).
Definition getCollateral (contractID : list byte) s : result Z :=
  let! a := agreement contractID s in Ok (ag_collateral a).

(** ** Calls *)

(** The state-changing functions of the ABI with their arguments. *)
Inductive operation :=
| op_createContract (provider fileID : list byte) (reward periods duration : Z)
    (rulesHash : list byte) (collateralRequired : Z)
| op_fundEscrow (contractID : list byte)
| op_depositCollateral (contractID : list byte)
| op_activateContract (contractID : list byte)
| op_submitPaymentState (contractID : list byte) (paymentState : solidityPaymentState)
| op_settleContract (contractID : list byte) (paymentState : solidityPaymentState)
| op_refundPublisher (contractID : list byte)
| op_returnCollateral (contractID : list byte)
| op_terminateExpiredContract (contractID : list byte)
| op_markFailure (contractID : list byte) (reason : Z)
| op_disputeFailure (contractID : list byte) (paymentState : solidityPaymentState)
| op_slashCollateral (contractID : list byte) (penalty : Z).

(** [FailureReason(reason)]: the decoder reverts on other values. *)
Definition failure_reason (z : Z) : option FailureReason :=
  [EscrowTypes.None; EscrowTypes.AvailabilityFailure; EscrowTypes.DeadlineMissed;
   EscrowTypes.PaymentStateInvalid; EscrowTypes.Other] !! Z.to_nat z.

Record payment_decodes (p : solidityPaymentState) : Prop := {
  pd_contract : length (sp_ContractID p) = 32%nat;
  pd_publisher : length (sp_Publisher p) = 20%nat;
  pd_provider : length (sp_Provider p) = 20%nat;
  pd_challenge : length (sp_LastChallengeID p) = 32%nat;
  pd_sequence : is_u64 (sp_Sequence p);
  pd_period : is_u64 (sp_Period p);
  pd_cumulative : is_u256 (sp_CumulativePayment p);
  pd_until : is_u64 (sp_ValidUntil p);
  pd_status : is_u8 (sp_Status p);
}.
#[global] Instance payment_decodes_dec p : Decision (payment_decodes p).
Proof.
  refine (cast_if (decide (length (sp_ContractID p) = 32%nat ∧ length (sp_Publisher p) = 20%nat ∧
    length (sp_Provider p) = 20%nat ∧ length (sp_LastChallengeID p) = 32%nat ∧ is_u64 (sp_Sequence p) ∧
    is_u64 (sp_Period p) ∧ is_u256 (sp_CumulativePayment p) ∧ is_u64 (sp_ValidUntil p) ∧
    is_u8 (sp_Status p)))); abstract (destruct_and?; first [by split|intros []; tauto]).
Defined.

(** The values calldata can hold: the decoder reverts on anything else. *)
Definition abi_decodes (o : operation) : Prop :=
  match o with
  | op_createContract provider fileID reward periods duration rulesHash collateralRequired =>
      length provider = 20%nat ∧ length fileID = 32%nat ∧ is_u256 reward ∧ is_u64 periods
      ∧ is_u64 duration ∧ length rulesHash = 32%nat ∧ is_u256 collateralRequired
  | op_fundEscrow id | op_depositCollateral id | op_activateContract id | op_refundPublisher id
  | op_returnCollateral id | op_terminateExpiredContract id => length id = 32%nat
  | op_submitPaymentState id p | op_settleContract id p | op_disputeFailure id p =>
      length id = 32%nat ∧ payment_decodes p
  | op_markFailure id reason => length id = 32%nat ∧ 0 <= reason <= 4
  | op_slashCollateral id penalty => length id = 32%nat ∧ is_u256 penalty
  end.
#[global] Instance abi_decodes_dec o : Decision (abi_decodes o).
Proof. destruct o; simpl; apply _. Defined.

Definition payable (o : operation) : bool :=
  match o with op_fundEscrow _ | op_depositCollateral _ => true | _ => false end.

(** One call: [msg.value] is credited, the calldata decoded, a non-payable
    function refuses value, the function runs.  The [i]-th transfer goes to
    receiver [rs !! i]; one that is not given accepts. *)
Definition run (o : operation) (rs : list receiver) m s : result Escrow :=
  let r i := default Some (rs !! i) in
  if decide (¬ (is_u256 (msg_value m) ∧ abi_decodes o)) then Err BadCalldata
  else if negb (payable o) && bool_decide (msg_value m ≠ 0) then Err BadCalldata
  else
    let s := credit (msg_value m) s in
    match o with
    | op_createContract p f rw pe du rh co => let! (s', _) := createContract p f rw pe du rh co m s in Ok s'
    | op_fundEscrow id => fundEscrow id m s
    | op_depositCollateral id => depositCollateral id m s
    | op_activateContract id => activateContract id m s
    | op_submitPaymentState id p => submitPaymentState id p m s
    | op_settleContract id p => settleContract id p (r 0%nat) (r 1%nat) m s
    | op_refundPublisher id => refundPublisher id (r 0%nat) m s
    | op_returnCollateral id => returnCollateral id (r 0%nat) m s
    | op_terminateExpiredContract id => terminateExpiredContract id m s
    | op_markFailure id reason =>
        match failure_reason reason with Some x => markFailure id x m s | None => Err BadCalldata end
    | op_disputeFailure id p => disputeFailure id p m s
    | op_slashCollateral id penalty => slashCollateral id penalty (r 0%nat) m s
    end.

(** A transaction, and for each transfer it makes whether the recipient
    accepts it and the calls made meanwhile. *)
Inductive tx := Tx (sender : list byte) (value : Z) (op : operation) (transfers : list (bool * list tx)).

(** A call that reverts leaves the state as it was, whatever its caller does
    next. *)
Fixpoint exec (now : Z) (t : tx) (s : Escrow) {struct t} : result Escrow :=
  match t with
  | Tx sender value op transfers =>
      let rs := map (λ '(accepts, calls), λ s : Escrow,
        if accepts : bool then
          Some (foldl (λ s c, match exec now c s with Ok s' => s' | Err _ => s end) s calls)
        else None) transfers in
      run op rs {| msg_sender := sender; msg_value := value; block_timestamp := now |} s
  end.

(** ** Reasoning about trees of calls *)

Lemma tx_tree_ind (P : tx → Prop) :
  (∀ sender value op transfers, Forall (λ x, Forall P x.2) transfers → P (Tx sender value op transfers)) →
  ∀ t, P t.
Proof.
  intros HP. fix IH 1. intros [sender value op trs]. apply HP.
  induction trs as [|[b cs] trs IHl]; constructor; [simpl|exact IHl].
  induction cs as [|c cs IHc]; constructor; [apply IH|exact IHc].
Qed.

(** A preorder that every call respects when the receivers do is respected by
    every tree of calls. *)
Definition receiver_in (R : relation Escrow) (r : receiver) : Prop := ∀ a b, r a = Some b → R a b.

Lemma exec_rel (R : relation Escrow) `{!PreOrder R} :
  (∀ o rs m s s', (∀ i : nat, receiver_in R (default Some (rs !! i))) → run o rs m s = Ok s' → R s s') →
  ∀ now t s s', exec now t s = Ok s' → R s s'.
Proof.
  intros Hrun now t. induction t as [sender value op trs IH] using tx_tree_ind. intros s s' Hx. simpl in Hx.
  eapply Hrun; [|exact Hx]. intros i a b. rewrite list_lookup_fmap.
  destruct (trs !! i) as [[acc cs]|] eqn:Ei; [|intros [= ->]; reflexivity].
  rewrite Forall_lookup in IH. specialize (IH _ _ Ei). simpl in *. destruct acc; [|done]. intros [= <-].
  clear Ei. revert a. induction IH as [|c cs Hc _ IHcs]; intros a; [reflexivity|]. simpl.
  etransitivity; [|apply IHcs]. destruct (exec now c a) eqn:E; [by eapply Hc|reflexivity].
Qed.

(** ** The invariant *)

Definition held (a : EscrowAgreement) : Z := ag_escrowBalance a + ag_collateral a.
Definition total (ms : gmap (list byte) EscrowAgreement) : Z := map_fold (λ _ a n, held a + n) 0 ms.

(** The escrowed reward by state. *)
Definition escrow_due (a : EscrowAgreement) : Z :=
  match ag_state a with
  | EscrowTypes.Created | EscrowTypes.Settled | EscrowTypes.Refunded => 0
  | _ => ag_reward a
  end.

(** [p] is a voucher the agreement's publisher signed. *)
Record voucher_for (id : list byte) (a : EscrowAgreement) (p : solidityPaymentState) : Prop := {
  vf_contract : sp_ContractID p = id;
  vf_publisher : sp_Publisher p = ag_publisher a;
  vf_provider : sp_Provider p = ag_provider a;
  vf_sequence : sp_Sequence p = ag_latestSequence a;
  vf_cumulative : sp_CumulativePayment p = ag_latestCumulativePayment a;
  vf_signed : recoverPaymentSigner p = ag_publisher a;
}.

Definition latest_ok (latest : option solidityPaymentState) (id : list byte) (a : EscrowAgreement) : Prop :=
  if ag_hasPaymentState a then ∃ p, latest = Some p ∧ voucher_for id a p
  else ag_latestSequence a = 0 ∧ ag_latestCumulativePayment a = 0.

Record agreement_ok (latest : option solidityPaymentState) (id : list byte) (a : EscrowAgreement) : Prop := {
  ok_escrow : ag_escrowBalance a = escrow_due a;
  ok_reward : 0 < ag_reward a;
  ok_collateral : 0 <= ag_collateral a <= ag_collateralRequired a;
  ok_created : ag_state a = EscrowTypes.Created → ag_collateral a = 0;
  ok_early : ag_state a = EscrowTypes.Created ∨ ag_state a = EscrowTypes.Funded →
             ag_hasPaymentState a = false;
  ok_cumulative : 0 <= ag_latestCumulativePayment a <= ag_reward a;
  ok_latest : latest_ok latest id a;
}.

(** The contract's balance covers every agreement and [k] more. *)
Record escrow_inv (k : Z) (s : Escrow) : Prop := {
  ei_solvent : k + total (es_agreements s) <= es_balance s;
  ei_ok : ∀ id a, es_agreements s !! id = Some a → agreement_ok (es_latestPaymentStates s !! id) id a;
}.

Lemma total_delete ms id :
  total ms = from_option held 0 (ms !! id) + total (delete id ms).
Proof.
  destruct (ms !! id) as [a|] eqn:E; simpl; [|by rewrite delete_id].
  unfold total. rewrite <- (map_fold_delete_L (λ _ a n, held a + n) 0 id a ms); [done|intros; lia|done].
Qed.
Lemma total_insert ms id a : total (<[id := a]> ms) = held a + total (delete id ms).
Proof. rewrite (total_delete _ id), lookup_insert_eq, delete_insert_eq. done. Qed.

Lemma held_nonneg l id a : agreement_ok l id a → 0 <= held a.
Proof. intros [He Hr Hc _ _ _ _]. unfold held, escrow_due in *. destruct (ag_state a); lia. Qed.

(** The other assignments leave the latest voucher alone. *)
Lemma latest_ok_money l id a e c st : latest_ok l id a → latest_ok l id (set_money e c st a).
Proof. unfold latest_ok. simpl. destruct (ag_hasPaymentState a); [|done]. intros (p & -> & []). exists p. by split. Qed.
Lemma latest_ok_active l id a t d : latest_ok l id a → latest_ok l id (set_active t d a).
Proof. unfold latest_ok. simpl. destruct (ag_hasPaymentState a); [|done]. intros (p & -> & []). exists p. by split. Qed.
Lemma latest_ok_failure l id a st r : latest_ok l id a → latest_ok l id (set_failure st r a).
Proof. unfold latest_ok. simpl. destruct (ag_hasPaymentState a); [|done]. intros (p & -> & []). exists p. by split. Qed.

(** Updating one agreement moves only its own share. *)
Lemma inv_put k s id a a' :
  escrow_inv k s → es_agreements s !! id = Some a →
  agreement_ok (es_latestPaymentStates s !! id) id a' →
  escrow_inv (k + held a - held a') (put id a' s).
Proof.
  intros [Hs Ho] Ha Ha'. split; simpl.
  - rewrite total_insert. rewrite (total_delete _ id), Ha in Hs. simpl in Hs. lia.
  - intros id' x. destruct (decide (id' = id)) as [->|Hn].
    + rewrite lookup_insert_eq. by intros [= <-].
    + rewrite lookup_insert_ne by done. apply Ho.
Qed.

Lemma inv_put_latest k s id p :
  escrow_inv k s →
  (∀ a, es_agreements s !! id = Some a → agreement_ok (Some p) id a) →
  escrow_inv k (put_latest id p s).
Proof.
  intros [Hs Ho] Ha. split; [done|]. simpl. intros id' x Hx. destruct (decide (id' = id)) as [->|Hn].
  - rewrite lookup_insert_eq. by apply Ha.
  - rewrite lookup_insert_ne by done. by apply Ho.
Qed.

Lemma inv_emit k e s : escrow_inv k s → escrow_inv k (emit e s).
Proof. intros []. by split. Qed.
Lemma inv_credit k v s : escrow_inv k s → escrow_inv (k + v) (credit v s).
Proof. intros [Hs Ho]. split; [simpl; lia|done]. Qed.
Lemma inv_weaken k k' s : k' <= k → escrow_inv k s → escrow_inv k' s.
Proof. intros Hk [Hs Ho]. split; [lia|done]. Qed.

(** Money already set aside can be sent, and whatever the recipient does with
    the contract meanwhile cannot touch the rest. *)
Definition keeps_inv : relation Escrow := λ s s', ∀ k, 0 <= k → escrow_inv k s → escrow_inv k s'.
#[global] Instance keeps_inv_preorder : PreOrder keeps_inv.
Proof. split; [by intros s k|]. intros a b c Hab Hbc k Hk Ha. by apply Hbc, Hab. Qed.

Lemma inv_send k r x amount s s' :
  receiver_in keeps_inv r → 0 <= k → escrow_inv (k + amount) s → sendValue r x amount s = Ok s' →
  escrow_inv k s'.
Proof.
  intros Hr Hk [Hs Ho]. unfold sendValue. case_decide as Hz.
  { intros [= <-]. split; [lia|done]. }
  case_decide; [done|]. destruct (r _) as [s1|] eqn:E; [|done]. intros [= <-].
  apply (Hr _ _ E k Hk). split; [simpl; lia|done].
Qed.

(** ** Every function keeps the invariant *)

(** Look up the agreement a function acts on. *)
Ltac open_agreement Ha :=
  unfold agreement;
  match goal with |- context [es_agreements ?s !! ?id] =>
    destruct (es_agreements s !! id) as [a|] eqn:Ha; [cbn [rbind]|done] end.

Lemma createContract_inv p f rw pe du rh co m k s s' id :
  is_u256 rw → is_u256 co → createContract p f rw pe du rh co m s = Ok (s', id) →
  escrow_inv k s → escrow_inv k s'.
Proof.
  intros Hrw Hco. unfold createContract. case_decide as Hin; [done|]. case_decide; [done|].
  intros [= <- <-] [Hs Ho]. apply inv_emit. set (cid := Keccak256Hash _). unfold is_u256 in *. split; simpl.
  - rewrite total_insert. rewrite (total_delete _ cid) in Hs. unfold held at 1. simpl.
    destruct (es_agreements s !! cid) as [a|] eqn:Ea; simpl in Hs; [|lia].
    pose proof (held_nonneg _ _ _ (Ho _ _ Ea)). lia.
  - intros id' a. destruct (decide (id' = cid)) as [->|Hn].
    + rewrite lookup_insert_eq. intros [= <-]. split; simpl; try done; try lia.
    + rewrite lookup_insert_ne by done. apply Ho.
Qed.

Lemma fundEscrow_inv id m k s s' :
  fundEscrow id m s = Ok s' → escrow_inv (k + msg_value m) s → escrow_inv k s'.
Proof.
  unfold fundEscrow. open_agreement Ha. case_decide as Hg; [done|]. intros [= <-] Hi. apply inv_emit.
  pose proof (ei_ok _ _ Hi _ _ Ha) as [He Hr Hc Hcr Hea Hcu Hl].
  destruct (decide (ag_state a = EscrowTypes.Created)) as [Hst|]; [|tauto].
  destruct (decide (msg_value m = ag_reward a)) as [Hv|]; [|tauto].
  unfold escrow_due in He. rewrite Hst in He.
  eapply inv_weaken; [|eapply inv_put; [exact Hi|exact Ha|]].
  - unfold held. simpl. lia.
  - split; simpl; try done; [intros _; apply Hea; by left|by apply latest_ok_money].
Qed.

Lemma depositCollateral_inv id m k s s' :
  depositCollateral id m s = Ok s' → escrow_inv (k + msg_value m) s → escrow_inv k s'.
Proof.
  unfold depositCollateral. open_agreement Ha. case_decide as Hg; [done|].
  case_decide as Hc0; [done|]. case_decide as Hv; [done|]. intros [= <-] Hi. apply inv_emit.
  pose proof (ei_ok _ _ Hi _ _ Ha) as [He Hr Hc Hcr Hea Hcu Hl].
  destruct (decide (msg_value m = ag_collateralRequired a)) as [Hm|]; [|tauto].
  destruct (decide (ag_state a = EscrowTypes.Funded)) as [Hst|]; [|tauto].
  eapply inv_weaken; [|eapply inv_put; [exact Hi|exact Ha|]].
  - unfold held. simpl. lia.
  - split; simpl; try done; [lia|by rewrite Hst|by apply latest_ok_money].
Qed.

Lemma activateContract_inv id m k s s' :
  activateContract id m s = Ok s' → escrow_inv k s → escrow_inv k s'.
Proof.
  unfold activateContract. open_agreement Ha. case_decide; [done|]. case_decide as Hg; [done|].
  case_decide as Hc0; [done|]. destruct (add64 _ _) as [dl|]; [simpl|done]. intros [= <-] Hi. apply inv_emit.
  pose proof (ei_ok _ _ Hi _ _ Ha) as [He Hr Hc Hcr Hea Hcu Hl].
  destruct (decide (ag_state a = EscrowTypes.Funded)) as [Hst|]; [|tauto].
  unfold escrow_due in He. rewrite Hst in He.
  eapply inv_weaken; [|eapply inv_put; [exact Hi|exact Ha|]].
  - unfold held. simpl. lia.
  - split; simpl; try done; [by intros [|]|by apply latest_ok_active].
Qed.

(** A voucher that passed the checks becomes the latest one. *)
Lemma accept_inv id p m k s a st r :
  escrow_inv k s → es_agreements s !! id = Some a →
  st = EscrowTypes.Active → ag_escrowBalance a = ag_reward a →
  voucher_valid id a p m = true → recoverPaymentSigner p = ag_publisher a →
  escrow_inv k (put_latest id p
    (put id (set_latest (sp_Sequence p) (sp_CumulativePayment p) (set_failure st r a)) s)).
Proof.
  intros Hi Ha -> Hb Hv Hsig. pose proof (ei_ok _ _ Hi _ _ Ha) as [He Hr Hc Hcr Hea Hcu Hl].
  unfold voucher_valid, isNextPaymentState in Hv. rewrite !andb_true_iff, !bool_decide_eq_true in Hv.
  destruct Hv as ((((H1 & H2) & H3) & H4) & ((H5 & H6) & H7)).
  set (a' := set_latest _ _ _).
  assert (Hok : agreement_ok (Some p) id a').
  { split; simpl; try done; [by intros [|]|lia|]. exists p. split; [done|]. by split. }
  assert (Hh : held a' = held a) by done.
  destruct Hi as [Hs Ho]. split; simpl.
  - rewrite total_insert. rewrite (total_delete _ id), Ha in Hs. simpl in Hs. lia.
  - intros id' x. destruct (decide (id' = id)) as [->|Hn].
    + rewrite !lookup_insert_eq. by intros [= <-].
    + rewrite !lookup_insert_ne by done. apply Ho.
Qed.

Lemma submitPaymentState_inv id p m k s s' :
  submitPaymentState id p m s = Ok s' → escrow_inv k s → escrow_inv k s'.
Proof.
  unfold submitPaymentState. open_agreement Ha. case_decide as Hst; [done|].
  destruct (add64 _ _) as [lim|]; [simpl|done]. case_decide; [done|].
  destruct (voucher_valid _ _ _ _) eqn:Hv; [simpl|done]. case_decide as Hsig; [done|].
  intros [= <-] Hi. apply inv_emit.
  destruct (decide (ag_state a = EscrowTypes.Active)) as [Hac|]; [|tauto].
  pose proof (ok_escrow _ _ _ (ei_ok _ _ Hi _ _ Ha)) as He. unfold escrow_due in He. rewrite Hac in He.
  destruct (decide (recoverPaymentSigner p = ag_publisher a)); [|tauto].
  pose proof (accept_inv id p m k s a EscrowTypes.Active (ag_failureReason a) Hi Ha eq_refl He Hv) as HX.
  unfold set_failure, set_latest in *. simpl in *. rewrite Hac. by apply HX.
Qed.

Lemma disputeFailure_inv id p m k s s' :
  disputeFailure id p m s = Ok s' → escrow_inv k s → escrow_inv k s'.
Proof.
  unfold disputeFailure. open_agreement Ha. case_decide as Hst; [done|]. case_decide; [done|].
  destruct (voucher_valid _ _ _ _) eqn:Hv; [simpl|done]. case_decide as Hsig; [done|].
  intros [= <-] Hi. apply inv_emit.
  destruct (decide (ag_state a = EscrowTypes.Failed)) as [Hac|]; [|tauto].
  pose proof (ok_escrow _ _ _ (ei_ok _ _ Hi _ _ Ha)) as He. unfold escrow_due in He. rewrite Hac in He.
  destruct (decide (recoverPaymentSigner p = ag_publisher a)); [|tauto]. by eapply accept_inv.
Qed.

Lemma settleContract_inv id p r1 r2 m k s s' :
  receiver_in keeps_inv r1 → receiver_in keeps_inv r2 → 0 <= k →
  settleContract id p r1 r2 m s = Ok s' → escrow_inv k s → escrow_inv k s'.
Proof.
  intros Hr1 Hr2 Hk. unfold settleContract. open_agreement Ha. case_decide as Hg; [done|].
  case_decide; [done|]. unfold sub256. case_decide as Hsub; [cbn [rbind]|done].
  destruct (sendValue r1 _ _ _) as [s1|] eqn:E1; [cbn [rbind]|done].
  destruct (sendValue r2 _ _ _) as [s2|] eqn:E2; [cbn [rbind]|done]. intros [= <-] Hi. apply inv_emit.
  pose proof (ei_ok _ _ Hi _ _ Ha) as [He Hr Hc Hcr Hea Hcu Hl].
  eapply (inv_send k r2); [done|done| |exact E2].
  eapply (inv_send _ r1); [done|lia| |exact E1].
  eapply inv_weaken; [|eapply inv_put; [exact Hi|exact Ha|]].
  - unfold held. simpl. lia.
  - split; simpl; try done; [by intros [|]|by apply latest_ok_money].
Qed.

Lemma refundPublisher_inv id r m k s s' :
  receiver_in keeps_inv r → 0 <= k →
  refundPublisher id r m s = Ok s' → escrow_inv k s → escrow_inv k s'.
Proof.
  intros Hr Hk. unfold refundPublisher. open_agreement Ha.
  destruct (auto_terminate id a m s) as [[a1 s1]|] eqn:Et; [cbn [rbind]|done].
  case_decide as Hg; [done|]. intros E Hi.
  assert (escrow_inv k s1 ∧ es_agreements s1 !! id = Some a1) as [Hi1 Ha1].
  { unfold auto_terminate in Et. case_decide as Hst; [|by simplify_eq].
    destruct (add64 _ _) as [lim|]; [cbn [rbind] in Et|done]. case_decide; [|by simplify_eq].
    simplify_eq. split; [|apply lookup_insert_eq]. apply inv_emit.
    pose proof (ei_ok _ _ Hi _ _ Ha) as [He Hrw Hc Hcr Hea Hcu Hl]. unfold escrow_due in He. rewrite Hst in He.
    eapply inv_weaken; [|eapply inv_put; [exact Hi|exact Ha|]]; [unfold held; simpl; lia|].
    split; simpl; try done; [by intros [|]|by apply latest_ok_money]. }
  pose proof (ei_ok _ _ Hi1 _ _ Ha1) as [He Hrw Hc Hcr Hea Hcu Hl].
  eapply (inv_send k r); [done|done| |exact E].
  eapply inv_weaken; [|eapply inv_put; [exact Hi1|exact Ha1|]].
  - unfold held. simpl. lia.
  - split; simpl; try done; [by intros [|]|by apply latest_ok_money].
Qed.

(** Lowering the collateral to [z] frees the difference. *)
Lemma lower_collateral k s id a z :
  escrow_inv k s → es_agreements s !! id = Some a → ag_state a ≠ EscrowTypes.Created →
  0 <= z <= ag_collateral a →
  escrow_inv (k + (ag_collateral a - z)) (put id (set_collateral z a) s).
Proof.
  intros Hi Ha Hst Hz. pose proof (ei_ok _ _ Hi _ _ Ha) as [He Hr Hc Hcr Hea Hcu Hl].
  eapply inv_weaken; [|eapply inv_put; [exact Hi|exact Ha|]].
  - unfold held. simpl. lia.
  - split; simpl; try done; [lia|by apply latest_ok_money].
Qed.

Lemma returnCollateral_inv id r m k s s' :
  receiver_in keeps_inv r → 0 <= k →
  returnCollateral id r m s = Ok s' → escrow_inv k s → escrow_inv k s'.
Proof.
  intros Hr Hk. unfold returnCollateral. open_agreement Ha. case_decide as Hg; [done|]. intros E Hi.
  pose proof (ok_collateral _ _ _ (ei_ok _ _ Hi _ _ Ha)) as Hc.
  eapply (inv_send k r); [done|done| |exact E].
  eapply inv_weaken; [|eapply (lower_collateral k s id a 0); [exact Hi|exact Ha| |lia]]; [lia|].
  intros Hst. rewrite Hst in Hg. apply Hg. by left.
Qed.

Lemma slashCollateral_inv id pen r m k s s' :
  receiver_in keeps_inv r → 0 <= k → 0 <= pen →
  slashCollateral id pen r m s = Ok s' → escrow_inv k s → escrow_inv k s'.
Proof.
  intros Hr Hk Hp. unfold slashCollateral. open_agreement Ha. case_decide as Hg; [done|].
  unfold sub256. case_decide as Hsub; [cbn [rbind]|done].
  destruct (sendValue r _ _ _) as [s1|] eqn:E; [cbn [rbind]|done]. intros [= <-] Hi. apply inv_emit.
  pose proof (ok_collateral _ _ _ (ei_ok _ _ Hi _ _ Ha)) as Hc.
  assert (0 <= penaltyAmount (ag_collateral a) pen) by (unfold penaltyAmount; case_decide; lia).
  eapply (inv_send k r); [done|done| |exact E].
  eapply inv_weaken; [|eapply (lower_collateral k s id a); [exact Hi|exact Ha| |lia]]; [lia|].
  intros Hst. rewrite Hst in Hg. apply Hg. right. by left.
Qed.

Lemma markFailure_inv id x m k s s' : markFailure id x m s = Ok s' → escrow_inv k s → escrow_inv k s'.
Proof.
  unfold markFailure. open_agreement Ha. case_decide as Hg; [done|]. intros [= <-] Hi. apply inv_emit.
  pose proof (ei_ok _ _ Hi _ _ Ha) as [He Hr Hc Hcr Hea Hcu Hl].
  destruct (decide (ag_state a = EscrowTypes.Active)) as [Hst|]; [|tauto].
  unfold escrow_due in He. rewrite Hst in He.
  eapply inv_weaken; [|eapply inv_put; [exact Hi|exact Ha|]].
  - unfold held. simpl. lia.
  - split; simpl; try done; [by intros [|]|by apply latest_ok_failure].
Qed.

Lemma terminateExpired_inv id m k s s' :
  terminateExpiredContract id m s = Ok s' → escrow_inv k s → escrow_inv k s'.
Proof.
  unfold terminateExpiredContract. open_agreement Ha. case_decide as Hg; [done|].
  destruct (add64 _ _) as [lim|]; [cbn [rbind]|done]. case_decide; [done|].
  destruct (ag_hasPaymentState a) eqn:Hh; [done|]. intros [= <-] Hi. apply inv_emit.
  pose proof (ei_ok _ _ Hi _ _ Ha) as [He Hr Hc Hcr Hea Hcu Hl].
  destruct (decide (ag_state a = EscrowTypes.Active)) as [Hst|]; [|tauto].
  unfold escrow_due in He. rewrite Hst in He.
  eapply inv_weaken; [|eapply inv_put; [exact Hi|exact Ha|]].
  - unfold held. simpl. lia.
  - split; simpl; try done. by apply latest_ok_money.
Qed.

Lemma run_inv o rs m s s' :
  (∀ i : nat, receiver_in keeps_inv (default Some (rs !! i))) → run o rs m s = Ok s' → keeps_inv s s'.
Proof.
  intros Hr. unfold run. destruct (decide _) as [|Hd]; [done|].
  destruct (negb _ && _) eqn:Hp; [done|]. intros E k Hk Hi. apply dec_stable in Hd as [Hv Hd].
  assert (Hi' : escrow_inv (k + msg_value m) (credit (msg_value m) s)) by (by apply inv_credit).
  assert (Hn : payable o = false → escrow_inv k (credit (msg_value m) s)).
  { intros Hpay. rewrite Hpay in Hp. simpl in Hp. apply bool_decide_eq_false, dec_stable in Hp.
    rewrite Hp in *. eapply inv_weaken; [|exact Hi']. lia. }
  destruct o; simpl in *; try specialize (Hn eq_refl).
  - destruct (createContract _ _ _ _ _ _ _ _ _) as [[s1 id]|] eqn:Ec; [simpl in E|done].
    injection E as <-. destruct Hd as (_ & _ & Hrw & _ & _ & _ & Hco). 
    eapply createContract_inv; [exact Hrw|exact Hco|exact Ec|exact Hn].
  - by eapply fundEscrow_inv.
  - by eapply depositCollateral_inv.
  - by eapply activateContract_inv.
  - by eapply submitPaymentState_inv.
  - eapply settleContract_inv; [apply (Hr 0%nat)|apply (Hr 1%nat)|done|exact E|done].
  - eapply refundPublisher_inv; [apply (Hr 0%nat)|done|exact E|done].
  - eapply returnCollateral_inv; [apply (Hr 0%nat)|done|exact E|done].
  - by eapply terminateExpired_inv.
  - destruct (failure_reason reason); [|done]. by eapply markFailure_inv.
  - by eapply disputeFailure_inv.
  - destruct Hd as [_ Hpen]. eapply slashCollateral_inv; [apply (Hr 0%nat)|done|apply Hpen|exact E|done].
Qed.

Inductive chain_step : relation Escrow :=
| chain_tx now t s s' : exec now t s = Ok s' → chain_step s s'.

Lemma escrow_inv_reachable k s s' : 0 <= k → escrow_inv k s → rtc chain_step s s' → escrow_inv k s'.
Proof.
  intros Hk. apply rtc_invariant. intros x y [now t a b E].
  by apply (exec_rel keeps_inv run_inv now t).
Qed.

Lemma escrow_inv_deployed : escrow_inv 0 deployed.
Proof. split; [simpl; unfold total; rewrite map_fold_empty; lia|]. intros id a Ha. done. Qed.

(** ** The life of an agreement *)

(** The documented transitions. *)
Inductive contract_next : relation ContractState :=
| next_fund : contract_next EscrowTypes.Created EscrowTypes.Funded
| next_activate : contract_next EscrowTypes.Funded EscrowTypes.Active
| next_settle : contract_next EscrowTypes.Active EscrowTypes.Settled
| next_fail : contract_next EscrowTypes.Active EscrowTypes.Failed
| next_terminate : contract_next EscrowTypes.Active EscrowTypes.Terminated
| next_dispute : contract_next EscrowTypes.Failed EscrowTypes.Active
| next_refund_failed : contract_next EscrowTypes.Failed EscrowTypes.Refunded
| next_refund_terminated : contract_next EscrowTypes.Terminated EscrowTypes.Refunded.

(** [a'] is a later state of the agreement [a]. *)
Record later (a a' : EscrowAgreement) : Prop := {
  lt_publisher : ag_publisher a' = ag_publisher a;
  lt_provider : ag_provider a' = ag_provider a;
  lt_reward : ag_reward a' = ag_reward a;
  lt_required : ag_collateralRequired a' = ag_collateralRequired a;
  lt_has : ag_hasPaymentState a = true → ag_hasPaymentState a' = true;
  lt_cumulative : ag_latestCumulativePayment a <= ag_latestCumulativePayment a';
  lt_sequence : (ag_latestSequence a' = ag_latestSequence a ∧
                 ag_latestCumulativePayment a' = ag_latestCumulativePayment a)
                ∨ ag_latestSequence a < ag_latestSequence a';
  lt_state : rtc contract_next (ag_state a) (ag_state a');
}.
#[global] Instance later_preorder : PreOrder later.
Proof.
  split; [intros a; split; try done; by left|]. intros a b c [] []. split; try congruence; try tauto; try lia.
  by etransitivity.
Qed.

(** The identifiers of the agreements created so far, last first, as the log
    tells them, and what was hashed for each: the sender's data and a nonce. *)
Definition created (s : Escrow) : list (list byte) :=
  omap (λ e, match e with ContractCreated id _ _ => Some id | _ => None end) (es_log s).
Definition id_preimage (p : list byte * Z) : list byte := p.1 ++ uint_word p.2.

Record ids_from (s : Escrow) (pre : list (list byte * Z)) : Prop := {
  if_created : created s = (λ p, Keccak256Hash (id_preimage p)) <$> pre;
  if_used : Forall (λ n, 0 <= n < es_nextContractNonce s) (snd <$> pre);
  if_nonces : NoDup (snd <$> pre);
}.
Definition ids_ok (s : Escrow) : Prop :=
  is_u256 (es_nextContractNonce s) ∧ (∀ id a, es_agreements s !! id = Some a → id ∈ created s) ∧
  ∃ pre, ids_from s pre.

(** Identifiers are hashes of pairwise different inputs. *)
Lemma ids_ok_preimages s :
  ids_ok s → ∃ pre, NoDup pre ∧ created s = Keccak256Hash <$> pre.
Proof.
  intros ([_ Hn] & _ & pre & [Hc Hu Hd]). exists (id_preimage <$> pre). split; [|by rewrite <- list_fmap_compose].
  clear Hc. induction pre as [|[x n] pre IH]; [constructor|]. cbn in *.
  apply NoDup_cons in Hd as [Hd1 Hd2]. apply Forall_cons in Hu as [Hu1 Hu2].
  apply NoDup_cons. split; [|by apply IH]. intros ((y & m) & He & Hy)%list_elem_of_fmap.
  unfold id_preimage in He. cbn in He. apply app_inj_2 in He as [_ He]; [|by unfold uint_word; rewrite !length_be_bytes].
  rewrite Forall_forall in Hu2. assert (Hm : m ∈ snd <$> pre) by (apply list_elem_of_fmap; by exists (y, m)).
  pose proof (Hu2 m Hm). apply be_bytes_inj in He; change (256 ^ Z.of_nat 32) with (2 ^ 256); [|lia..].
  apply Hd1. by subst.
Qed.

Definition advances (s s' : Escrow) : Prop :=
  ∀ id a, es_agreements s !! id = Some a → ∃ a', es_agreements s' !! id = Some a' ∧ later a a'.

(** As long as no identifier was handed out twice, agreements only advance. *)
Definition evolves : relation Escrow := λ s s',
  ids_ok s → ids_ok s' ∧ created s `suffix_of` created s' ∧ (NoDup (created s') → advances s s').

#[global] Instance evolves_preorder : PreOrder evolves.
Proof.
  split.
  - intros s Hs. split; [done|]. split; [done|]. intros _ id a Ha. exists a. split; [done|reflexivity].
  - intros a b c Hab Hbc Ha. destruct (Hab Ha) as (Hb & S1 & H1). destruct (Hbc Hb) as (Hc & S2 & H2).
    split; [done|]. split; [by transitivity (created b)|]. intros Hnd id x Hx.
    assert (NoDup (created b)) as Hndb by (destruct S2 as [k Hk]; rewrite Hk in Hnd; by apply NoDup_app in Hnd as (_ & _ & ?)).
    destruct (H1 Hndb _ _ Hx) as (y & Hy & L1). destruct (H2 Hnd _ _ Hy) as (z & Hz & L2).
    exists z. split; [done|by transitivity y].
Qed.

Lemma ids_from_same s s' pre :
  created s' = created s → es_nextContractNonce s' = es_nextContractNonce s → ids_from s pre → ids_from s' pre.
Proof. intros H1 H2 []. split; [by rewrite H1|by rewrite H2|done]. Qed.

Lemma evolves_same s s' :
  es_agreements s' = es_agreements s → es_nextContractNonce s' = es_nextContractNonce s →
  created s' = created s → evolves s s'.
Proof.
  intros H1 H2 H3 (Hn & Hs & pre & Hp). split; [|split].
  - split; [by rewrite H2|]. split; [by rewrite H1, H3|]. exists pre. by apply (ids_from_same s).
  - by rewrite H3.
  - intros _ id a Ha. exists a. rewrite H1. split; [done|reflexivity].
Qed.

Lemma evolves_put s id a a' :
  es_agreements s !! id = Some a → later a a' → evolves s (put id a' s).
Proof.
  intros Ha Hl (Hn & Hs & pre & Hp). split; [|split; [done|]].
  - split; [done|]. split; [|exists pre; by apply (ids_from_same s)]. simpl. intros id' x.
    destruct (decide (id' = id)) as [->|]; [intros _; by eapply Hs|].
    rewrite lookup_insert_ne by done. apply Hs.
  - intros _ id' x Hx. simpl. destruct (decide (id' = id)) as [->|].
    + rewrite lookup_insert_eq. exists a'. simplify_eq. done.
    + rewrite lookup_insert_ne by done. exists x. split; [done|reflexivity].
Qed.

Lemma evolves_send r x v s s' : receiver_in evolves r → sendValue r x v s = Ok s' → evolves s s'.
Proof.
  intros Hr. unfold sendValue. case_decide; [intros [= <-]; reflexivity|]. case_decide; [done|].
  destruct (r _) as [s1|] eqn:E; [|done]. intros [= <-]. etransitivity; [|exact (Hr _ _ E)].
  by apply evolves_same.
Qed.

(** Creating an agreement under a new identifier leaves the others alone. *)
Lemma createContract_evolves p f rw pe du rh co m s s' id :
  createContract p f rw pe du rh co m s = Ok (s', id) → evolves s s'.
Proof.
  unfold createContract. case_decide; [done|]. case_decide as Hn; [done|].
  intros [= <- <-] ([Hn0 Hn1] & Hs & pre & [Hc Hu Hd]).
  set (x := address_word this ++ uint_word chainid ++ address_word (msg_sender m) ++ address_word p ++ f).
  replace (contract_preimage _ _ _ _) with (id_preimage (x, es_nextContractNonce s))
    by (unfold x, contract_preimage, id_preimage; cbn; by rewrite <- !app_assoc).
  set (cid := Keccak256Hash _). split; [split; [unfold is_u256; simpl; lia|split]|split].
  - intros id a. cbn [es_agreements put emit bump_nonce]. change (created _) with (cid :: created s).
    destruct (decide (id = cid)) as [->|]; [intros _; left|].
    rewrite lookup_insert_ne by done. intros Ha. right. by eapply Hs.
  - exists ((x, es_nextContractNonce s) :: pre). split.
    + change (cid :: created s = cid :: ((λ p, Keccak256Hash (id_preimage p)) <$> pre)). by rewrite Hc.
    + cbn. constructor; [lia|]. eapply Forall_impl; [exact Hu|]. cbn. lia.
    + cbn. apply NoDup_cons. split; [|done]. intros Hi. rewrite Forall_forall in Hu. specialize (Hu _ Hi). cbn in Hu. lia.
  - exists [cid]. done.
  - intros Hnd id a Ha. exists a. simpl. rewrite lookup_insert_ne; [split; [done|reflexivity]|].
    intros E. apply (NoDup_cons cid (created s)) in Hnd as [Hnd _]. apply Hnd. rewrite E. by eapply Hs.
Qed.

(** The transitions the functions make. *)
Lemma later_money a e c st : rtc contract_next (ag_state a) st → later a (set_money e c st a).
Proof. intros Hs. split; simpl; try done. by left. Qed.
Lemma later_failure a st r : rtc contract_next (ag_state a) st → later a (set_failure st r a).
Proof. intros Hs. split; simpl; try done. by left. Qed.
Lemma later_active a t d : ag_state a = EscrowTypes.Funded → later a (set_active t d a).
Proof. intros Hs. split; simpl; try done; [by left|]. rewrite Hs. apply rtc_once, next_activate. Qed.
Lemma later_latest id a p m :
  voucher_valid id a p m = true → later a (set_latest (sp_Sequence p) (sp_CumulativePayment p) a).
Proof.
  unfold voucher_valid, isNextPaymentState. rewrite !andb_true_iff, !bool_decide_eq_true.
  intros (_ & ((H5 & H6) & H7)). split; simpl; try done; [lia|right; lia].
Qed.

(** One update of an agreement, then things that leave the storage alone. *)
Lemma evolves_update s s' id a a' :
  es_agreements s !! id = Some a → later a a' →
  es_agreements s' = <[id := a']> (es_agreements s) →
  es_nextContractNonce s' = es_nextContractNonce s → created s' = created s → evolves s s'.
Proof. intros Ha Hl H1 H2 H3. etransitivity; [by eapply evolves_put|]. by apply evolves_same. Qed.

#[local] Hint Resolve rtc_once next_fund next_activate next_settle next_fail next_terminate next_dispute
  next_refund_failed next_refund_terminated later_money later_failure later_active later_latest : life.

(** [¬ (x ≠ st ∨ _)] pins the state. *)
Ltac state_is x st Hst := destruct (decide (x = st)) as [Hst|]; [|tauto].

Lemma settle_evolves id p r1 r2 m s s' :
  receiver_in evolves r1 → receiver_in evolves r2 → settleContract id p r1 r2 m s = Ok s' → evolves s s'.
Proof.
  intros Hr1 Hr2. unfold settleContract. open_agreement Ha. case_decide as Hg; [done|]. case_decide; [done|].
  destruct (sub256 _ _) as [rf|]; [cbn [rbind]|done].
  destruct (sendValue r1 _ _ _) as [s1|] eqn:E1; [cbn [rbind]|done].
  destruct (sendValue r2 _ _ _) as [s2|] eqn:E2; [cbn [rbind]|done]. intros [= <-].
  state_is (ag_state a) EscrowTypes.Active Hst.
  etransitivity; [eapply (evolves_put s id a (set_escrow 0 EscrowTypes.Settled a)); [done|]|].
  { apply later_money. rewrite Hst. auto with life. }
  etransitivity; [by eapply (evolves_send r1)|]. etransitivity; [by eapply (evolves_send r2)|].
  by apply evolves_same.
Qed.

Lemma refund_evolves id r m s s' :
  receiver_in evolves r → refundPublisher id r m s = Ok s' → evolves s s'.
Proof.
  intros Hr. unfold refundPublisher. open_agreement Ha.
  destruct (auto_terminate id a m s) as [[a1 s1]|] eqn:Et; [cbn [rbind]|done].
  case_decide as Hg; [done|]. intros E.
  assert (evolves s s1 ∧ es_agreements s1 !! id = Some a1) as [Hi1 Ha1].
  { unfold auto_terminate in Et. case_decide as Hst; [|by simplify_eq].
    destruct (add64 _ _) as [lim|]; [cbn [rbind] in Et|done]. case_decide; [|by simplify_eq].
    simplify_eq. split; [|apply lookup_insert_eq].
    eapply evolves_update; [done| |done|done|done]. apply later_money. rewrite Hst. auto with life. }
  etransitivity; [exact Hi1|]. etransitivity; [|by eapply (evolves_send r)].
  eapply evolves_put; [done|]. apply later_money.
  destruct (decide (ag_state a1 = EscrowTypes.Failed)) as [->|]; [auto with life|].
  destruct (decide (ag_state a1 = EscrowTypes.Terminated)) as [->|]; [auto with life|tauto].
Qed.

Lemma submit_evolves id p m s s' : submitPaymentState id p m s = Ok s' → evolves s s'.
Proof.
  unfold submitPaymentState. open_agreement Ha. case_decide; [done|]. destruct (add64 _ _); [|done].
  cbn [rbind]. case_decide; [done|]. destruct (voucher_valid _ _ _ _) eqn:Hv; [|done]. cbn [negb].
  case_decide; [done|]. intros [= <-]. eapply evolves_update; [done|by eapply later_latest|done|done|done].
Qed.

Lemma dispute_evolves id p m s s' : disputeFailure id p m s = Ok s' → evolves s s'.
Proof.
  unfold disputeFailure. open_agreement Ha. do 2 (case_decide; [done|]).
  destruct (voucher_valid _ _ _ _) eqn:Hv; [|done]. cbn [negb]. case_decide; [done|]. intros [= <-].
  state_is (ag_state a) EscrowTypes.Failed Hst. eapply evolves_update; [done| |done|done|done].
  transitivity (set_failure EscrowTypes.Active EscrowTypes.None a); [|by eapply later_latest].
  apply later_failure. rewrite Hst. auto with life.
Qed.

Lemma run_evolves o rs m s s' :
  (∀ i : nat, receiver_in evolves (default Some (rs !! i))) → run o rs m s = Ok s' → evolves s s'.
Proof.
  intros Hr. unfold run. destruct (decide _) as [|_]; [done|]. destruct (negb _ && _); [done|].
  intros E. etransitivity; [by apply (evolves_same s (credit (msg_value m) s))|].
  revert E. generalize (credit (msg_value m) s) as x. clear s. intros s. destruct o.
  - destruct (createContract _ _ _ _ _ _ _ _ _) as [[s1 id]|] eqn:Ec; [|done]. intros [= <-].
    by eapply createContract_evolves.
  - unfold fundEscrow. open_agreement Ha. case_decide; [done|]. intros [= <-].
    state_is (ag_state a) EscrowTypes.Created Hst.
    eapply evolves_update; [done| |done|done|done]. apply later_money. rewrite Hst. auto with life.
  - unfold depositCollateral. open_agreement Ha. do 3 (case_decide; [done|]). intros [= <-].
    eapply evolves_update; [done| |done|done|done]. by apply later_money.
  - unfold activateContract. open_agreement Ha. do 3 (case_decide; [done|]).
    destruct (add64 _ _); [|done]. intros [= <-]. state_is (ag_state a) EscrowTypes.Funded Hst.
    eapply evolves_update; [done| |done|done|done]. by apply later_active.
  - apply submit_evolves.
  - by apply settle_evolves; [apply (Hr 0%nat)|apply (Hr 1%nat)].
  - by apply refund_evolves; apply (Hr 0%nat).
  - unfold returnCollateral. open_agreement Ha. case_decide; [done|]. intros E.
    etransitivity; [|eapply (evolves_send _ _ _ _ _ (Hr 0%nat) E)]. eapply evolves_put; [done|].
    by apply later_money.
  - unfold terminateExpiredContract. open_agreement Ha. case_decide; [done|]. destruct (add64 _ _); [|done].
    cbn [rbind]. case_decide; [done|]. destruct (ag_hasPaymentState a); [done|]. intros [= <-].
    state_is (ag_state a) EscrowTypes.Active Hst.
    eapply evolves_update; [done| |done|done|done]. apply later_money. rewrite Hst. auto with life.
  - destruct (failure_reason reason); [|done]. unfold markFailure. open_agreement Ha. case_decide; [done|].
    intros [= <-]. state_is (ag_state a) EscrowTypes.Active Hst.
    eapply evolves_update; [done| |done|done|done]. apply later_failure. rewrite Hst. auto with life.
  - apply dispute_evolves.
  - unfold slashCollateral. open_agreement Ha. case_decide; [done|]. destruct (sub256 _ _); [|done].
    cbn [rbind]. destruct (sendValue _ _ _ _) as [s1|] eqn:E; [|done]. intros [= <-].
    etransitivity; [eapply (evolves_put s contractID a); [done|by apply later_money]|].
    etransitivity; [eapply (evolves_send _ _ _ _ _ (Hr 0%nat) E)|]. by apply evolves_same.
Qed.

Lemma evolves_reachable s s' : rtc chain_step s s' → evolves s s'.
Proof.
  induction 1 as [|x y z [now t a b E] _ IH]; [reflexivity|]. etransitivity; [|exact IH].
  by apply (exec_rel evolves run_evolves now t).
Qed.

Lemma ids_ok_deployed : ids_ok deployed.
Proof. split; [by unfold is_u256|]. split; [done|]. exists []. by split; constructor. Qed.

(** ** Widths *)

(** The integers an agreement stores fit the types contract_state.sol gives
    them; the balances are covered by [agreement_ok]. *)
Record agreement_typed (a : EscrowAgreement) : Prop := {
  ty_reward : is_u256 (ag_reward a);
  ty_required : is_u256 (ag_collateralRequired a);
  ty_periods : is_u64 (ag_periods a);
  ty_duration : is_u64 (ag_duration a);
  ty_activated : is_u64 (ag_activatedAt a);
  ty_deadline : is_u64 (ag_deadline a);
  ty_sequence : is_u64 (ag_latestSequence a);
}.
Definition storage_typed (s : Escrow) : Prop := map_Forall (λ _, agreement_typed) (es_agreements s).
Definition keeps_typed : relation Escrow := λ s s', storage_typed s → storage_typed s'.
#[global] Instance keeps_typed_preorder : PreOrder keeps_typed.
Proof. split; unfold keeps_typed; [by intros s|intros a b c; auto]. Qed.

Lemma keeps_typed_update s s' id a a' :
  es_agreements s !! id = Some a → (agreement_typed a → agreement_typed a') →
  es_agreements s' = <[id := a']> (es_agreements s) → keeps_typed s s'.
Proof. intros Ha Ht He Hs. unfold storage_typed. rewrite He. apply map_Forall_insert_2; [|done]. by apply Ht, (Hs id). Qed.

Lemma keeps_typed_send r x v s s' : receiver_in keeps_typed r → sendValue r x v s = Ok s' → keeps_typed s s'.
Proof.
  intros Hr. unfold sendValue. case_decide; [by intros [= <-]|]. case_decide; [done|].
  destruct (r _) as [s1|] eqn:E; [|done]. intros [= <-]. exact (Hr _ _ E).
Qed.

(** The assignments that store no new number of these. *)
Lemma typed_money a e c st : agreement_typed a → agreement_typed (set_money e c st a).
Proof. by intros []. Qed.
Lemma typed_failure a st r : agreement_typed a → agreement_typed (set_failure st r a).
Proof. by intros []. Qed.
Lemma typed_latest a q c : is_u64 q → agreement_typed a → agreement_typed (set_latest q c a).
Proof. by intros Hq []. Qed.
#[local] Hint Resolve typed_money typed_failure typed_latest : typed.

(** A function that makes one update: whatever it checks, the stored agreement
    stays typed. *)
Ltac typed_step := repeat first
  [ case_decide; [done|] | case_decide
  | match goal with |- rbind ?r _ = _ → _ => destruct r eqn:?; [cbn [rbind]|done] end
  | match goal with |- (if ?b then _ else _) = _ → _ => destruct b; try done end ].
Ltac typed_done :=
  intros [= <-]; eapply keeps_typed_update; [eassumption| |reflexivity]; unfold set_escrow, set_collateral;
  auto with typed.

Lemma activate_typed id m s s' : activateContract id m s = Ok s' → keeps_typed s s'.
Proof.
  unfold activateContract. open_agreement Ha. typed_step. intros [= <-].
  eapply keeps_typed_update; [eassumption| |reflexivity]. intros []. split; try done; simpl.
  - apply u64_range.
  - unfold add64 in *. case_decide; simplify_eq. pose proof (u64_range (block_timestamp m)). unfold is_u64 in *. lia.
Qed.

Lemma settle_typed id p r1 r2 m s s' :
  receiver_in keeps_typed r1 → receiver_in keeps_typed r2 → settleContract id p r1 r2 m s = Ok s' → keeps_typed s s'.
Proof.
  intros Hr1 Hr2. unfold settleContract. open_agreement Ha. do 2 (case_decide; [done|]).
  destruct (sub256 _ _) as [rf|]; [cbn [rbind]|done].
  destruct (sendValue r1 _ _ _) as [s1|] eqn:E1; [cbn [rbind]|done].
  destruct (sendValue r2 _ _ _) as [s2|] eqn:E2; [cbn [rbind]|done]. intros [= <-]. change (keeps_typed s s2).
  etransitivity; [|exact (keeps_typed_send _ _ _ _ _ Hr2 E2)].
  etransitivity; [|exact (keeps_typed_send _ _ _ _ _ Hr1 E1)].
  eapply keeps_typed_update; [eassumption| |reflexivity]. unfold set_escrow. auto with typed.
Qed.

Lemma refund_typed id r m s s' : receiver_in keeps_typed r → refundPublisher id r m s = Ok s' → keeps_typed s s'.
Proof.
  intros Hr. unfold refundPublisher. open_agreement Ha.
  destruct (auto_terminate id a m s) as [[a1 s1]|] eqn:Et; [cbn [rbind]|done]. case_decide; [done|]. intros E.
  assert (keeps_typed s s1 ∧ es_agreements s1 !! id = Some a1) as [Hi1 Ha1].
  { revert Et. unfold auto_terminate. case_decide; [|by intros [= <- <-]].
    destruct (add64 _ _); [cbn [rbind]|done]. case_decide; intros [= <- <-]; [|by split].
    split; [|apply lookup_insert_eq]. eapply keeps_typed_update; [eassumption| |reflexivity].
    unfold set_escrow. auto with typed. }
  etransitivity; [exact Hi1|]. etransitivity; [|by eapply (keeps_typed_send r)].
  eapply keeps_typed_update; [eassumption| |reflexivity]. unfold set_escrow. auto with typed.
Qed.

Lemma run_typed o rs m s s' :
  (∀ i : nat, receiver_in keeps_typed (default Some (rs !! i))) → run o rs m s = Ok s' → keeps_typed s s'.
Proof.
  intros Hr. unfold run. destruct (decide _) as [|Hd]; [done|]. destruct (negb _ && _); [done|].
  assert (abi_decodes o) as Ho by (destruct (decide (is_u256 (msg_value m) ∧ abi_decodes o)); tauto). clear Hd.
  change (keeps_typed s) with (keeps_typed (credit (msg_value m) s)). generalize (credit (msg_value m) s) as x.
  clear s. intros s. destruct o; cbn [abi_decodes] in Ho.
  - destruct (createContract _ _ _ _ _ _ _ _ _) as [[s1 id]|] eqn:Ec; [|done]. intros [= <-] Hs. revert Ec.
    unfold createContract. do 2 (case_decide; [done|]). intros [= <- _]. apply map_Forall_insert_2; [|done].
    destruct Ho as (_ & _ & ? & ? & ? & _ & ?). split; simpl; try done; unfold is_u64; lia.
  - unfold fundEscrow. open_agreement Ha. typed_step. typed_done.
  - unfold depositCollateral. open_agreement Ha. typed_step. typed_done.
  - apply activate_typed.
  - unfold submitPaymentState. open_agreement Ha. destruct Ho as [_ [? ? ? ? ? ? ? ? ?]]. typed_step. typed_done.
  - by apply settle_typed; [apply (Hr 0%nat)|apply (Hr 1%nat)].
  - by apply refund_typed; apply (Hr 0%nat).
  - unfold returnCollateral. open_agreement Ha. typed_step. intros E.
    etransitivity; [|eapply (keeps_typed_send _ _ _ _ _ (Hr 0%nat) E)].
    eapply keeps_typed_update; [eassumption| |reflexivity]. unfold set_collateral. auto with typed.
  - unfold terminateExpiredContract. open_agreement Ha. typed_step. typed_done.
  - destruct (failure_reason reason); [|done]. unfold markFailure. open_agreement Ha. typed_step. typed_done.
  - unfold disputeFailure. open_agreement Ha. destruct Ho as [_ [? ? ? ? ? ? ? ? ?]]. typed_step. typed_done.
  - unfold slashCollateral. open_agreement Ha. case_decide; [done|]. destruct (sub256 _ _); [|done].
    cbn [rbind]. destruct (sendValue _ _ _ _) as [s1|] eqn:E; [|done]. intros [= <-]. change (keeps_typed s s1).
    etransitivity; [|exact (keeps_typed_send _ _ _ _ _ (Hr 0%nat) E)].
    eapply keeps_typed_update; [eassumption| |reflexivity]. unfold set_collateral. auto with typed.
Qed.

Lemma typed_reachable s : rtc chain_step deployed s → storage_typed s.
Proof.
  intros H1. assert (keeps_typed deployed s) as Hk; [|by apply Hk, map_Forall_empty].
  induction H1 as [|x y z [now t a b E] _ IH]; [done|]. etransitivity; [|exact IH].
  by apply (exec_rel keeps_typed run_typed now t).
Qed.

(** ** What the contract guarantees *)

(** C2: The escrow contract is solvent: after any transactions from anyone,
    whatever the recipients of its transfers do and however they call back into
    it, its balance covers the rewards and collateral of all agreements; each
    agreement holds exactly the money its state says, its accepted voucher is
    at most the reward and was signed by its publisher. *)
Theorem escrow_solvent s :
  rtc chain_step deployed s →
  total (es_agreements s) <= es_balance s ∧
  ∀ id a, es_agreements s !! id = Some a → agreement_ok (es_latestPaymentStates s !! id) id a.
Proof.
  intros Hs. destruct (escrow_inv_reachable 0 _ _ (Z.le_refl 0) escrow_inv_deployed Hs) as [H1 H2].
  split; [lia|done].
Qed.

(** What the contract stores fits its declared types: after any
    transactions, every stored amount is a uint256 and every stored count, time
    and sequence number a uint64, so that no assignment has truncated a value;
    the contract's counter of agreements is a uint256. *)
Theorem escrow_typed s :
  rtc chain_step deployed s →
  is_u256 (es_nextContractNonce s) ∧
  ∀ id a, es_agreements s !! id = Some a →
    agreement_typed a ∧ is_u256 (ag_escrowBalance a) ∧ is_u256 (ag_collateral a) ∧
    is_u256 (ag_latestCumulativePayment a).
Proof.
  intros Hs. destruct (evolves_reachable _ _ Hs ids_ok_deployed) as ((Hn & _) & _). split; [done|].
  intros id a Ha. pose proof (typed_reachable _ Hs id a Ha) as Ht. split; [done|]. destruct Ht as [Hr Hq _ _ _ _ _].
  destruct (escrow_inv_reachable 0 _ _ (Z.le_refl 0) escrow_inv_deployed Hs) as [_ H2].
  destruct (H2 _ _ Ha) as [He _ Hc _ _ Hcu _]. unfold is_u256 in *. rewrite He. unfold escrow_due.
  destruct (ag_state a); lia.
Qed.

(** C4: An agreement lives as documented: whatever transactions run after it was
    created, its parties and amounts stay fixed, its state follows the contract's
    transition graph (so Settled and Refunded are final), its accepted voucher is
    only ever replaced by one with a higher sequence number and no lower payment.
    This needs that the run has handed out no identifier twice; the identifiers
    are hashes of pairwise different inputs, so a repetition would be a
    collision of Keccak-256 that occurred in the run. *)
Theorem agreement_lifecycle s s' :
  rtc chain_step deployed s → rtc chain_step s s' →
  (∃ pre, NoDup pre ∧ created s' = Keccak256Hash <$> pre) ∧
  (NoDup (created s') →
   ∀ id a, es_agreements s !! id = Some a → ∃ a', es_agreements s' !! id = Some a' ∧ later a a').
Proof.
  intros H1 H2. destruct (evolves_reachable _ _ H1 ids_ok_deployed) as (Hi & _ & _).
  destruct (evolves_reachable _ _ H2 Hi) as (Hi' & _ & Hd). split; [by apply ids_ok_preimages|exact Hd].
Qed.

Definition transfer (x : list byte) (v : Z) (l : list (list byte * Z)) : list (list byte * Z) :=
  if decide (v = 0) then l else (x, v) :: l.

(** A transfer the contract can pay to a recipient that accepts it. *)
Lemma sendValue_accepted x v s :
  v <= es_balance s →
  ∃ s', sendValue Some x v s = Ok s' ∧ es_agreements s' = es_agreements s ∧
    es_balance s' = es_balance s - v ∧ es_paid s' = transfer x v (es_paid s) ∧ es_log s' = es_log s.
Proof.
  intros Hv. unfold sendValue, transfer. case_decide as Hz.
  - exists s. split_and!; [done|done|lia|done|done].
  - rewrite decide_False by lia. eexists. by split_and!.
Qed.

Lemma total_nonneg ms : (∀ id a, ms !! id = Some a → 0 <= held a) → 0 <= total ms.
Proof.
  induction ms as [|id a ms Hid IH] using map_ind; intros Hh.
  - unfold total. by rewrite map_fold_empty.
  - rewrite total_insert, delete_id by done.
    assert (0 <= held a) by (eapply (Hh id); apply lookup_insert_eq).
    assert (0 <= total ms); [|lia]. apply IH. intros id' a' Ha'.
    apply (Hh id'). rewrite lookup_insert_ne; [done|congruence].
Qed.

(** The money of one agreement is there. *)
Lemma held_covered k s id a :
  0 <= k → escrow_inv k s → es_agreements s !! id = Some a → held a <= es_balance s.
Proof.
  intros Hk [Hs Ho] Ha. rewrite (total_delete _ id), Ha in Hs. simpl in Hs.
  assert (0 <= total (delete id (es_agreements s))); [|lia]. apply total_nonneg.
  intros id' a' Ha'. apply lookup_delete_Some in Ha' as [_ Ha']. by eapply held_nonneg, Ho.
Qed.

(** Settlement splits the reward: the provider gets the accepted cumulative
    payment and the publisher the rest, whoever calls it. *)
Lemma settle_splits k id p m s a :
  0 <= k → escrow_inv k s → es_agreements s !! id = Some a → ag_state a = EscrowTypes.Active →
  ag_hasPaymentState a = true → sp_Sequence p = ag_latestSequence a →
  sp_CumulativePayment p = ag_latestCumulativePayment a → sp_ContractID p = id →
  ∃ s', settleContract id p Some Some m s = Ok s' ∧
    es_agreements s' = <[id := set_escrow 0 EscrowTypes.Settled a]> (es_agreements s) ∧
    es_balance s' = es_balance s - ag_reward a ∧
    es_paid s' = transfer (ag_publisher a) (ag_reward a - ag_latestCumulativePayment a)
                   (transfer (ag_provider a) (ag_latestCumulativePayment a) (es_paid s)).
Proof.
  intros Hk Hi Ha Hst Hh H1 H2 H3. pose proof (ei_ok _ _ Hi _ _ Ha) as [He Hr Hc _ _ Hcu _].
  pose proof (held_covered _ _ _ _ Hk Hi Ha) as Hcov. unfold escrow_due in He. rewrite Hst in He.
  unfold held in Hcov. unfold settleContract, agreement. rewrite Ha. cbn [rbind].
  rewrite decide_False by (rewrite Hst, Hh; intros [|]; done).
  rewrite decide_False by tauto. unfold sub256. rewrite decide_True by lia. cbn [rbind]. rewrite He.
  set (s0 := put id _ s).
  destruct (sendValue_accepted (ag_provider a) (ag_latestCumulativePayment a) s0)
    as (s1 & -> & A1 & B1 & P1 & _); [simpl; lia|]. cbn [rbind].
  destruct (sendValue_accepted (ag_publisher a) (ag_reward a - ag_latestCumulativePayment a) s1)
    as (s2 & -> & A2 & B2 & P2 & _); [rewrite B1; simpl; lia|]. cbn [rbind].
  eexists. split; [done|]. simpl. rewrite A2, A1, B2, B1, P2, P1. split_and!; [done|simpl; lia|done].
Qed.

(** The comment above [terminateExpiredContract] promises that once a voucher
    was accepted the provider receives it; [markFailure] and [refundPublisher]
    do not ask for one.  In every reachable state the publisher of an active
    agreement can take the whole reward back in two transactions. *)
Theorem accepted_voucher_refunded s id a now :
  rtc chain_step deployed s → es_agreements s !! id = Some a → length id = 32%nat →
  ag_state a = EscrowTypes.Active →
  ∃ s1 s2 a2, exec now (Tx (ag_publisher a) 0 (op_markFailure id 1) []) s = Ok s1 ∧
    exec now (Tx (ag_publisher a) 0 (op_refundPublisher id) []) s1 = Ok s2 ∧
    es_agreements s2 !! id = Some a2 ∧ ag_state a2 = EscrowTypes.Refunded ∧
    ag_hasPaymentState a2 = ag_hasPaymentState a ∧
    es_paid s2 = (ag_publisher a, ag_reward a) :: es_paid s.
Proof.
  intros Hs Ha Hid Hst.
  pose proof (escrow_inv_reachable 0 _ _ (Z.le_refl 0) escrow_inv_deployed Hs) as Hi.
  pose proof (ei_ok _ _ Hi _ _ Ha) as [He Hr Hc _ _ Hcu _].
  pose proof (held_covered 0 _ _ _ (Z.le_refl 0) Hi Ha) as Hcov. unfold escrow_due in He. rewrite Hst in He.
  unfold held in Hcov. unfold exec at 1. cbn [map]. unfold run at 1. cbn [msg_value].
  rewrite decide_False by (intros HX; apply HX; unfold is_u256; simpl; lia).
  cbn [payable negb andb]. rewrite bool_decide_false by tauto. unfold failure_reason. simpl.
  unfold markFailure, agreement. simpl. rewrite Ha. cbn [rbind].
  rewrite decide_False by (rewrite Hst; intros [|[|]]; done).
  do 2 eexists.
  exists (set_escrow 0 EscrowTypes.Refunded
            (set_failure EscrowTypes.Failed EscrowTypes.AvailabilityFailure a)).
  split; [reflexivity|]. unfold run. cbn [msg_value].
  rewrite decide_False by (intros HX; apply HX; unfold is_u256; simpl; lia).
  cbn [payable negb andb]. rewrite bool_decide_false by tauto. cbn [lookup list_lookup default].
  unfold refundPublisher, agreement. simpl. rewrite lookup_insert_eq. cbn [rbind].
  unfold auto_terminate. simpl. cbn [rbind]. rewrite decide_False by (intros [|[]]; done).
  unfold sendValue. simpl. rewrite He, decide_False by lia. rewrite decide_False by (simpl; lia).
  split; [reflexivity|]. simpl. rewrite lookup_insert_eq. by split_and!.
Qed.
End contract.

(** ** A concrete machine and a run *)

Lemma le_val_zeros l n : le_val (l ++ replicate n x00) = le_val l.
Proof.
  induction l as [|b l IH]; cbn [app le_val]; [|by rewrite IH].
  induction n as [|n IH]; [done|]. cbn [replicate le_val]. rewrite IH. done.
Qed.
Lemma be_val_zeros n l : be_val (replicate n x00 ++ l) = be_val l.
Proof. unfold be_val. rewrite reverse_app, reverse_replicate. apply le_val_zeros. Qed.

#[global, program] Instance ToyEvm : Evm (H := ToyEthereum) := {|
  this := replicate 20 xee; chainid := 1337;
  ecrecover d v r s := if decide (r = d ∧ v = 28) then drop 12 s else zero_bytes 20 |}.
Next Obligation. done. Qed.
Next Obligation. done. Qed.
Next Obligation.
  intros d k r s v Hk Hd Hr Hs E. cbn in Hk, E. unfold toy_ec_sign in E. injection E as E.
  apply app_inj_1 in E as [<- E]; [|congruence]. 
  change (replicate 12 x00 ++ take 20 k ++ [x01] = s ++ [v]) in E. rewrite app_assoc in E.
  assert (H20 : length (take 20 k) = 20%nat) by (rewrite length_take; lia).
  apply app_inj_1 in E as [<- E]; [|rewrite length_app, length_replicate, H20, Hs; done].
  injection E as <-. split.
  - rewrite be_val_zeros. pose proof (be_val_range (take 20 k)) as HX. unfold zlen in HX. rewrite H20 in HX.
    unfold half_order. change (256 ^ Z.of_nat 20) with (2 ^ 160) in HX. lia.
  - cbv beta. by rewrite decide_True.
Qed.

Definition w_pub : list byte := replicate 20 x07.
Definition w_prov : list byte := replicate 20 x11.
Definition w_file : list byte := replicate 32 x0f.
Definition w_create : tx := Tx w_pub 0 (op_createContract w_prov w_file 100 4 1000 w_file 50) [].
Definition run_all (now : Z) (ts : list tx) (s : Escrow) : Escrow :=
  foldl (λ s t, match exec now t s with Ok s' => s' | Err _ => s end) s ts.
Definition w_id : list byte :=
  Keccak256Hash (contract_preimage w_pub w_prov w_file 0).
(** Created, funded, secured and active; then failed and slashed, with a
    publisher that slashes again and withdraws during the transfer. *)
Definition w_active : Escrow :=
  run_all 10 [w_create; Tx w_pub 100 (op_fundEscrow w_id) []; Tx w_prov 50 (op_depositCollateral w_id) [];
              Tx w_prov 0 (op_activateContract w_id) []] deployed.
Definition w_slashed : Escrow :=
  run_all 20 [Tx w_pub 0 (op_markFailure w_id 1) [];
              Tx w_pub 0 (op_slashCollateral w_id 20)
                [(true, [Tx w_pub 0 (op_slashCollateral w_id 20) []; Tx w_pub 0 (op_refundPublisher w_id) []])]]
          w_active.

Lemma run_all_reachable now ts s : rtc chain_step s (run_all now ts s).
Proof.
  unfold run_all. revert s. induction ts as [|t ts IH]; intros s; [reflexivity|]. simpl.
  etransitivity; [|apply IH]. destruct (exec now t s) eqn:E; [|reflexivity]. by apply rtc_once, (chain_tx now t).
Qed.

Lemma escrow_solvent_witness :
  es_balance w_slashed = 10 ∧ total (es_agreements w_slashed) <= es_balance w_slashed.
Proof.
  split; [vm_compute; reflexivity|]. refine (proj1 (escrow_solvent w_slashed _)).
  exact (transitivity (R := rtc chain_step) (run_all_reachable 10 _ deployed) (run_all_reachable 20 _ w_active)).
Defined.

Lemma escrow_typed_witness :
  ∃ a, es_agreements w_active !! w_id = Some a ∧ ag_state a = EscrowTypes.Active ∧ agreement_typed a.
Proof.
  destruct (fmap_lookup_Some ag_state (es_agreements w_active) w_id EscrowTypes.Active) as (a & Ha & Hst);
    [vm_compute; reflexivity|].
  destruct (escrow_typed w_active (run_all_reachable 10 _ deployed)) as [_ H].
  exists a. split; [exact Ha|]. split; [exact Hst|]. exact (proj1 (H w_id a Ha)).
Defined.

Lemma agreement_lifecycle_witness :
  ∃ a a', es_agreements w_active !! w_id = Some a ∧ ag_state a = EscrowTypes.Active ∧
    es_agreements w_slashed !! w_id = Some a' ∧ later a a'.
Proof.
  destruct (fmap_lookup_Some ag_state (es_agreements w_active) w_id EscrowTypes.Active) as (a & Ha & Hst);
    [vm_compute; reflexivity|].
  destruct (agreement_lifecycle w_active w_slashed (run_all_reachable 10 _ deployed)
              (run_all_reachable 20 _ w_active)) as [_ H].
  assert (Hnd : NoDup (created w_slashed)) by (apply (bool_decide_unpack _); vm_compute; exact I).
  destruct (H Hnd w_id a Ha) as (a' & H1 & H2).
  exists a, a'. split; [exact Ha|]. split; [exact Hst|]. split; [exact H1|exact H2].
Defined.
