(* ===== verification/EthEscrow.v ===== *)
(** * Ethereum signer and escrow adapter

    escrow-payment/ethereum: signer.go signs payment states the way
    EscrowContract.sol checks them, escrow_adapter.go turns the interfaces
    [EscrowSubmitter], [EscrowSettler] and [EscrowFailureHandler] into
    transactions.

    go-ethereum is interfaces: [GethAbi] (ABI packing, [TextHash]), the bound
    contract ([BoundContract], transactions and calls on the client's view [W]
    of the chain) and the constructors of [EthClient].  [evm_contract] is the
    bound contract of a node of the chain of EscrowContract.sol: [Transact]
    estimates the gas and hands the transaction in, a later block executes it
    ([mine]).  The theorems at the end compose dispatcher, signer, adapter and
    contract. *)

From S2P Require Import Prelude Sha256 Crypto AvailTypes Bridge Bindings Payment Coordinator Dispatcher Tickets EscrowContract.

(** ** go-ethereum's packages accounts and abi *)

Inductive abi_value :=
| AbiAddress (a : list byte)
| AbiUint (bits : Z) (z : Z)
| AbiBytes32 (b : list byte).

Definition abi_value_ok (v : abi_value) : Prop :=
  match v with
  | AbiAddress a => length a = 20%nat
  | AbiUint bits z => 0 <= bits <= 256 ∧ 0 <= z < 2 ^ bits
  | AbiBytes32 b => length b = 32%nat
  end.
Definition abi_word (v : abi_value) : list byte :=
  match v with
  | AbiAddress a => address_word a
  | AbiUint _ z => uint_word z
  | AbiBytes32 b => b
  end.

Class GethAbi `{GoEthereum} := {
  (** [abi.Arguments.Pack] on static types: a word each, as the ABI says *)
  abi_Pack : list abi_value → result (list byte);
  (** [accounts.TextHash]: keccak256 of the EIP-191 prefix, the length and the data *)
  TextHash : list byte → list byte;
  abi_Pack_static : ∀ vs, Forall abi_value_ok vs → abi_Pack vs = Ok (concat (abi_word <$> vs));
  TextHash_eq : ∀ d, TextHash d = Keccak256Hash (eth_prefix ++ bytes_of (format_int (zlen d)) ++ d);
}.

(** ** signer.go *)

Definition statusCode (status : string) : Z := if decide (status = "PASS"%string) then 1 else 2.

Record Signer := {
  sg_privateKey : list byte;
  sg_escrowContract : list byte;
  sg_chainID : Z;
}.

Definition NewSigner (privateKey : option (list byte)) (escrowContract : list byte) (chainID : option Z)
    : result Signer :=
  match privateKey, chainID with
  | Some key, Some id =>
      if decide (escrowContract = zero_bytes 20 ∨ id <= 0) then
        Err (New "private key, escrow contract address, and positive chain ID are required")
      else Ok {| sg_privateKey := key; sg_escrowContract := escrowContract; sg_chainID := id |}
  | _, _ => Err (New "private key, escrow contract address, and positive chain ID are required")
  end.

Section signer.
Context {GE : GoEthereum} {GC : GethCommon} {AB : GethAbi}.

Definition eth_paymentStateDigest (escrowContract : list byte) (chainID : Z) (state : PaymentState)
    : result (list byte) :=
  let contractID := HexToHash (ps_ContractID state) in
  let publisher := HexToAddress (ps_Publisher state) in
  let provider := HexToAddress (ps_Provider state) in
  if decide (contractID = zero_bytes 32 ∨ publisher = zero_bytes 20 ∨ provider = zero_bytes 20) then
    Err (New "contract ID, publisher, and provider must be valid Ethereum values")
  else
    let! packed := abi_Pack
      [AbiAddress escrowContract; AbiUint 256 chainID; AbiBytes32 contractID; AbiAddress publisher;
       AbiAddress provider; AbiUint 64 (ps_Sequence state); AbiUint 64 (ps_Period state);
       AbiUint 256 (ps_CumulativePayment state);
       AbiBytes32 (Keccak256Hash (bytes_of (ps_LastChallengeID state)));
       AbiUint 64 (ps_ValidUntil state); AbiUint 8 (statusCode (ps_Status state))] in
    Ok (Keccak256Hash packed).

Definition eth_Sign (s : Signer) (state : PaymentState) : result PaymentState :=
  if decide (ps_ValidUntil state = 0) then
    Err (New "payment state valid-until timestamp is required for Ethereum signing")
  else
    let publisher := HexToAddress (ps_Publisher state) in
    if decide (publisher = zero_bytes 20 ∨ publisher ≠ PubkeyToAddress (sg_privateKey s)) then
      Err (New "payment-state publisher must match Ethereum signer")
    else
      let! digest := eth_paymentStateDigest (sg_escrowContract s) (sg_chainID s) state in
      let! signature := ec_Sign (TextHash digest) (sg_privateKey s) in
      Ok (set_sig (map_v (λ v, v + 27) signature) state).

(** ** escrow_adapter.go: the conversion *)

Definition convertPaymentStateToSolidity (parsedContractID : list byte) (state : PaymentState)
    : result solidityPaymentState :=
  let publisher := HexToAddress (ps_Publisher state) in
  let provider := HexToAddress (ps_Provider state) in
  if decide (parsedContractID = zero_bytes 32 ∨ publisher = zero_bytes 20 ∨ provider = zero_bytes 20
             ∨ zlen (ps_PublisherSignature state) ≠ 65 ∨ ps_ValidUntil state = 0) then
    Err (New "payment state is not Ethereum-compatible")
  else
    Ok {| sp_ContractID := parsedContractID; sp_Publisher := publisher; sp_Provider := provider;
          sp_Sequence := ps_Sequence state; sp_Period := ps_Period state;
          sp_CumulativePayment := ps_CumulativePayment state;
          sp_LastChallengeID := Keccak256Hash (bytes_of (ps_LastChallengeID state));
          sp_ValidUntil := ps_ValidUntil state; sp_Status := statusCode (ps_Status state);
          sp_Signature := ps_PublisherSignature state |}.
End signer.

(** ** go-ethereum's package bind *)

(** The fields of [TransactOpts] the adapter sets or reads. *)
Record TransactOpts := { to_From : list byte; to_Value : option Z }.

(** The functions the adapter reads with [Call]. *)
Inductive query :=
| q_createContract (provider fileID : list byte) (reward periods duration : Z)
    (rulesHash : list byte) (collateralRequired : Z)
| q_getContractState (contractID : list byte)
| q_getEscrowBalance (contractID : list byte)
| q_getCollateral (contractID : list byte).

(** A value of type [interface{}] in the result of a call. *)
Inductive call_value := CvBytes32 (b : list byte) | CvUint8 (z : Z) | CvBigInt (z : Z) | CvOther.

(** A transaction that was handed in and waits for its block. *)
Record Sent (Op : Type) := { sent_from : list byte; sent_value : Z; sent_op : Op }.
Arguments sent_from {Op}. Arguments sent_value {Op}. Arguments sent_op {Op}.

Record BoundContract (W : Type) := {
  Transact : TransactOpts → operation → W → W * result ();
  Call : option (list byte) → query → W → result (list call_value);
}.
Arguments Transact {W}. Arguments Call {W}.

Record EscrowAdapter (W : Type) := {
  ea_contract : option (BoundContract W);
  ea_auth : option TransactOpts;
}.
Arguments ea_contract {W}. Arguments ea_auth {W}.

Class EthClient (W : Type) := {
  client : Type;
  DialContext : string → result client;
  abi_JSON : result ();     (* abi.JSON on the constant escrowABI *)
  NewBoundContract : list byte → client → BoundContract W;
  NewKeyedTransactorWithChainID : list byte → Z → result TransactOpts;
}.

Section adapter.
Context {GE : GoEthereum} {GC : GethCommon} {W : Type}.
Implicit Types (a : option (EscrowAdapter W)) (w : W).

Definition dial_args : error :=
  New "RPC URL, contract address, sender key, and positive chain ID are required".

Definition DialEscrowAdapter {EC : EthClient W} (rpcURL : string) (contractAddress : list byte)
    (senderPrivateKey : option (list byte)) (chainID : option Z) : result (EscrowAdapter W) :=
  match senderPrivateKey, chainID with
  | Some key, Some id =>
      if decide (rpcURL = ""%string ∨ contractAddress = zero_bytes 20 ∨ id <= 0) then Err dial_args
      else
        let! c := DialContext rpcURL in
        let! _ := abi_JSON in
        let! auth := NewKeyedTransactorWithChainID key id in
        Ok {| ea_contract := Some (NewBoundContract contractAddress c); ea_auth := Some auth |}
  | _, _ => Err dial_args
  end.

(** [a == nil || a.contract == nil || a.auth == nil], and the two otherwise. *)
Definition ready a : option (BoundContract W * TransactOpts) :=
  a ← a; c ← ea_contract a; o ← ea_auth a; Some (c, o).

(** Send [op] with the adapter's options. *)
Definition transact (bad : error) (guard : bool) (value : option Z) (op : operation) a w : W * result () :=
  match ready a with
  | Some (c, o) =>
      if guard then
        Transact c {| to_From := to_From o; to_Value := match value with Some v => Some v | None => to_Value o end |}
                 op w
      else (w, Err bad)
  | None => (w, Err bad)
  end.

Definition bad_state : error := New "matching signed payment state and escrow adapter are required".

(** The body [SubmitPaymentState], [SettleContract] and [DisputeFailure] share. *)
Definition submit_state (op : list byte → solidityPaymentState → operation)
    a (contractID : string) (state : PaymentState) w : W * result () :=
  match ready a with
  | None => (w, Err bad_state)
  | Some _ =>
      if decide (contractID ≠ ps_ContractID state) then (w, Err bad_state)
      else
        let parsedContractID := HexToHash contractID in
        match convertPaymentStateToSolidity parsedContractID state with
        | Err e => (w, Err e)
        | Ok solidityState => transact bad_state true None (op parsedContractID solidityState) a w
        end
  end.

Definition adapter_SubmitPaymentState a : EscrowCall W := submit_state op_submitPaymentState a.
Definition DisputeFailure a : EscrowCall W := submit_state op_disputeFailure a.

Definition valid_id (contractID : string) : bool := bool_decide (HexToHash contractID ≠ zero_bytes 32).

Definition MarkFailureWithReason a (contractID : string) (reason : Z) w : W * result () :=
  transact (New "valid escrow adapter, contract ID, and positive failure reason are required")
    (valid_id contractID && bool_decide (reason ≠ 0)) None
    (op_markFailure (HexToHash contractID) reason) a w.

Definition MarkFailure a (contractID : string) w : W * result () := MarkFailureWithReason a contractID 1 w.

Definition SlashCollateral a (contractID : string) (penalty : Z) w : W * result () :=
  transact (New "valid escrow adapter, contract ID, and positive penalty are required")
    (valid_id contractID && bool_decide (penalty ≠ 0)) None
    (op_slashCollateral (HexToHash contractID) penalty) a w.

(** A positive [*big.Int]. *)
Definition positive (v : option Z) : bool := match v with Some z => bool_decide (0 < z) | None => false end.

Definition CreateContract a (provider fileID : list byte) (reward : option Z) (periods duration : Z)
    (rulesHash : list byte) (collateralRequired : option Z) w : W * result (list byte) :=
  match ready a with
  | None => (w, Err (New "valid escrow adapter is required"))
  | Some (c, o) =>
      if decide (provider = zero_bytes 20 ∨ fileID = zero_bytes 32 ∨ positive reward = false
                 ∨ periods = 0 ∨ duration = 0) then
        (w, Err (New "invalid contract creation parameters"))
      else
        let reward := default 0 reward in
        let collateralRequired := default 0 collateralRequired in
        match Call c (Some (to_From o))
                (q_createContract provider fileID reward periods duration rulesHash collateralRequired) w with
        | Err e => (w, Err (Wrap "simulate createContract" e))
        | Ok [] => (w, Err (New "createContract call produced no return value"))
        | Ok (CvBytes32 contractID :: _) =>
            match Transact c o
                    (op_createContract provider fileID reward periods duration rulesHash collateralRequired) w with
            | (w', Err e) => (w', Err (Wrap "transact createContract" e))
            | (w', Ok _) => (w', Ok contractID)
            end
        | Ok _ => (w, Err (New "failed to cast createContract result to [32]byte"))
        end
  end.

Definition bad_amount : error := New "valid escrow adapter, contract ID, and positive amount are required".
Definition bad_id : error := New "valid escrow adapter and contract ID are required".

Definition FundEscrow a (contractID : string) (amount : option Z) w : W * result () :=
  transact bad_amount (valid_id contractID && positive amount) amount
    (op_fundEscrow (HexToHash contractID)) a w.
Definition DepositCollateral a (contractID : string) (amount : option Z) w : W * result () :=
  transact bad_amount (valid_id contractID && positive amount) amount
    (op_depositCollateral (HexToHash contractID)) a w.
Definition ActivateContract a (contractID : string) w : W * result () :=
  transact bad_id (valid_id contractID) None (op_activateContract (HexToHash contractID)) a w.
Definition RefundPublisher a (contractID : string) w : W * result () :=
  transact bad_id (valid_id contractID) None (op_refundPublisher (HexToHash contractID)) a w.
Definition ReturnCollateral a (contractID : string) w : W * result () :=
  transact bad_id (valid_id contractID) None (op_returnCollateral (HexToHash contractID)) a w.
Definition TerminateExpiredContract a (contractID : string) w : W * result () :=
  transact bad_id (valid_id contractID) None (op_terminateExpiredContract (HexToHash contractID)) a w.

(** The queries need a contract but no key. *)
Definition query_first a (contractID : string) (q : list byte → query) (empty : string) w : result call_value :=
  match a ≫= ea_contract with
  | None => Err bad_id
  | Some c =>
      if negb (valid_id contractID) then Err bad_id
      else
        let! r := Call c None (q (HexToHash contractID)) w in
        match r with [] => Err (New empty) | v :: _ => Ok v end
  end.

Definition GetContractState a (contractID : string) w : result Z :=
  let! v := query_first a contractID q_getContractState "empty response for getContractState" w in
  match v with CvUint8 z => Ok z | _ => Err (New "failed to cast contract state to uint8") end.
Definition GetEscrowBalance a (contractID : string) w : result Z :=
  let! v := query_first a contractID q_getEscrowBalance "empty response for getEscrowBalance" w in
  match v with CvBigInt z => Ok z | _ => Err (New "failed to cast escrow balance to *big.Int") end.
Definition GetCollateral a (contractID : string) w : result Z :=
  let! v := query_first a contractID q_getCollateral "empty response for getCollateral" w in
  match v with CvBigInt z => Ok z | _ => Err (New "failed to cast collateral to *big.Int") end.
End adapter.

(** ** The adapter on the contract *)

(** The value of the enum, as the ABI returns it. *)
Definition state_code (st : EscrowTypes.ContractState) : Z :=
  match st with
  | EscrowTypes.Created => 0 | EscrowTypes.Funded => 1 | EscrowTypes.Active => 2 | EscrowTypes.Failed => 3
  | EscrowTypes.Settled => 4 | EscrowTypes.Refunded => 5 | EscrowTypes.Terminated => 6
  end.

Section compose.
Context {GE : GoEthereum} {GC : GethCommon} {AB : GethAbi} {EV : Evm}.

(** The chain, and the adapter's transactions that are not mined yet, in the
    order of their nonces. *)
Record Ledger := { lg_chain : Escrow; lg_pool : list (Sent operation) }.
Definition idle (s : Escrow) : Ledger := {| lg_chain := s; lg_pool := [] |}.
Definition submitted (t : Sent operation) (lg : Ledger) : Ledger :=
  {| lg_chain := lg_chain lg; lg_pool := lg_pool lg ++ [t] |}.

(** The transaction in a block, with what the accounts it pays do. *)
Definition sent_tx (t : Sent operation) (replies : list (bool * list tx)) : tx :=
  Tx (sent_from t) (sent_value t) (sent_op t) replies.
Definition mine (now : Z) (t : Sent operation) (replies : list (bool * list tx)) (s : Escrow) : Escrow :=
  match exec now (sent_tx t replies) s with Ok s' => s' | Err _ => s end.

(** The node the client talks to: the time it estimates with, whether it
    estimates on its pending block (after the transactions it knows of) or on
    the latest mined one, and what the paid accounts would do. *)
Record Node := { nd_now : Z; nd_pending : bool; nd_replies : operation → list (bool * list tx) }.
Definition plain (nd : Node) : Prop := ∀ op, nd_replies nd op = [].
Definition view (nd : Node) (lg : Ledger) : Escrow :=
  if nd_pending nd then
    foldl (λ s t, mine (nd_now nd) t (nd_replies nd (sent_op t)) s) (lg_chain lg) (lg_pool lg)
  else lg_chain lg.

(** [Transact] estimates the gas by running the transaction on the node's view,
    reports a revert as an error, and otherwise hands the transaction in.
    [Call] reads the latest mined state. *)
Definition evm_contract (nd : Node) : BoundContract Ledger := {|
  Transact o op lg :=
    let t := {| sent_from := to_From o; sent_value := default 0 (to_Value o); sent_op := op |} in
    match exec (nd_now nd) (sent_tx t (nd_replies nd op)) (view nd lg) with
    | Ok _ => (submitted t lg, Ok tt)
    | Err e => (lg, Err e)
    end;
  Call from q lg :=
    let s := lg_chain lg in
    match q with
    | q_createContract p f rw pe du rh co =>
        let! (_, id) := createContract p f rw pe du rh co
          {| msg_sender := default (zero_bytes 20) from; msg_value := 0; block_timestamp := nd_now nd |} s in
        Ok [CvBytes32 id]
    | q_getContractState id => let! st := getContractState id s in Ok [CvUint8 (state_code st)]
    | q_getEscrowBalance id => let! z := getEscrowBalance id s in Ok [CvBigInt z]
    | q_getCollateral id => let! z := getCollateral id s in Ok [CvBigInt z]
    end |}.

Definition evm_adapter (nd : Node) (from : list byte) : option (EscrowAdapter Ledger) :=
  Some {| ea_contract := Some (evm_contract nd);
          ea_auth := Some {| to_From := from; to_Value := None |} |}.

(** *** Signing *)

(** The fields the ABI packs hold values of their Go types. *)
Record eth_typed (s : PaymentState) : Prop := {
  et_seq : is_u64 (ps_Sequence s);
  et_period : is_u64 (ps_Period s);
  et_cum : is_u64 (ps_CumulativePayment s);
  et_valid : is_u64 (ps_ValidUntil s);
}.

Lemma statusCode_u8 s : is_u8 (statusCode s).
Proof. unfold statusCode, is_u8. case_decide; lia. Qed.

(** The signer's digest is the one the contract computes. *)
Lemma digest_agrees sg st p :
  eth_typed st → sg_escrowContract sg = this → sg_chainID sg = chainid →
  convertPaymentStateToSolidity (HexToHash (ps_ContractID st)) st = Ok p →
  eth_paymentStateDigest (sg_escrowContract sg) (sg_chainID sg) st = Ok (payment_digest p).
Proof.
  intros [Hs Hp Hc Hv] Ht Hi. unfold convertPaymentStateToSolidity, eth_paymentStateDigest.
  case_decide as Hg; [done|]. intros [= <-]. rewrite decide_False by tauto. rewrite Ht, Hi.
  rewrite abi_Pack_static.
  - cbn [rbind]. unfold payment_digest. cbn [fmap list_fmap concat abi_word sp_ContractID sp_Publisher sp_Provider
      sp_Sequence sp_Period sp_CumulativePayment sp_LastChallengeID sp_ValidUntil sp_Status].
    rewrite app_nil_r. done.
  - pose proof (statusCode_u8 (ps_Status st)) as Hst. pose proof chainid_range as Hch.
    unfold is_u64, is_u8 in *.
    repeat apply Forall_cons_2; try apply Forall_nil_2; unfold abi_value_ok;
      first [apply length_this|apply length_HexToHash|apply length_HexToAddress
            |apply length_Keccak256Hash|lia].
Qed.

Lemma map_v_snoc f rs v : length rs = 64%nat → map_v f (rs ++ [v]) = rs ++ [byte_of_Z (f (byte_to_Z v))].
Proof.
  intros Hl. unfold map_v. rewrite lookup_app_r, Hl by lia. simpl.
  rewrite insert_app_r_alt, Hl by lia. done.
Qed.

(** A state the signer signed is one the contract recovers its signer from. *)
Lemma signed_recovers sg st st' p :
  ec_valid (sg_privateKey sg) → eth_typed st → sg_escrowContract sg = this → sg_chainID sg = chainid →
  eth_Sign sg st = Ok st' → convertPaymentStateToSolidity (HexToHash (ps_ContractID st')) st' = Ok p →
  recoverPaymentSigner p = PubkeyToAddress (sg_privateKey sg).
Proof.
  intros Hk Ht He Hi Hsig Hcv. unfold eth_Sign in Hsig. case_decide; [done|]. case_decide as Hpub; [done|].
  destruct (eth_paymentStateDigest _ _ st) as [dg|] eqn:Ed; [cbn [rbind] in Hsig|done].
  destruct (ec_Sign (TextHash dg) _) as [sig|] eqn:Es; [cbn [rbind] in Hsig|done]. injection Hsig as <-.
  assert (Hty : eth_typed (set_sig (map_v (λ v, v + 27) sig) st)) by (by destruct Ht).
  pose proof (digest_agrees sg _ _ Hty He Hi Hcv) as Hd.
  assert (dg = payment_digest p) as ->
    by (unfold eth_paymentStateDigest in Hd, Ed; simpl in Hd; rewrite Hd in Ed; congruence).
  rewrite TextHash_eq in Es. assert (H32 : zlen (payment_digest p) = 32)
    by (unfold zlen, payment_digest; by rewrite length_Keccak256Hash). rewrite H32 in Es.
  set (mh := Keccak256Hash _) in Es.
  destruct (ec_Sign_valid mh (sg_privateKey sg) Hk) as (rs & v & Es' & Hl & Hv & _);
    [apply length_Keccak256Hash|].
  rewrite Es' in Es. injection Es as <-.
  assert (Hrs : rs = take 32 rs ++ drop 32 rs) by (by rewrite take_drop).
  destruct (ecrecover_Sign mh (sg_privateKey sg) (take 32 rs) (drop 32 rs) v) as [Hlow Hrec];
    [done|apply length_Keccak256Hash|rewrite length_take; lia|rewrite length_drop; lia
    |by rewrite app_assoc, <- Hrs|].
  assert (Hsg : sp_Signature p = rs ++ [byte_of_Z (byte_to_Z v + 27)]).
  { unfold convertPaymentStateToSolidity in Hcv. case_decide; [done|]. injection Hcv as <-. simpl.
    by apply map_v_snoc. }
  unfold recoverPaymentSigner. rewrite Hsg.
  rewrite decide_False by (unfold zlen; rewrite length_app, Hl; simpl; lia).
  rewrite (take_app_le rs), (drop_app_le rs _ 32), (drop_app_length' rs _ 64) by lia.
  rewrite take_app_length' by (rewrite length_drop; lia).
  assert (Hb : le_val (take 1 [byte_of_Z (byte_to_Z v + 27)]) = 27 + byte_to_Z v)
    by (destruct Hv as [-> | ->]; reflexivity).
  rewrite Hb. assert (Hvr : byte_to_Z v = 0 ∨ byte_to_Z v = 1) by (destruct Hv as [-> | ->]; auto).
  rewrite (decide_False (P := 27 + byte_to_Z v < 27)) by lia.
  rewrite decide_False by (intros [[]|]; lia). exact Hrec.
Qed.

(** What a successful signature and its conversion look like. *)
Lemma eth_Sign_Ok sg st st' :
  ec_valid (sg_privateKey sg) → eth_Sign sg st = Ok st' →
  ∃ sig p, st' = set_sig sig st ∧ length sig = 65%nat ∧
    HexToAddress (ps_Publisher st) = PubkeyToAddress (sg_privateKey sg) ∧
    convertPaymentStateToSolidity (HexToHash (ps_ContractID st)) st' = Ok p ∧
    p = {| sp_ContractID := HexToHash (ps_ContractID st); sp_Publisher := HexToAddress (ps_Publisher st);
           sp_Provider := HexToAddress (ps_Provider st); sp_Sequence := ps_Sequence st;
           sp_Period := ps_Period st; sp_CumulativePayment := ps_CumulativePayment st;
           sp_LastChallengeID := Keccak256Hash (bytes_of (ps_LastChallengeID st));
           sp_ValidUntil := ps_ValidUntil st; sp_Status := statusCode (ps_Status st); sp_Signature := sig |}.
Proof.
  intros Hk. unfold eth_Sign. case_decide as Hv; [done|]. case_decide as Hp; [done|].
  destruct (eth_paymentStateDigest _ _ st) as [dg|] eqn:Ed; [cbn [rbind]|done].
  destruct (ec_Sign_valid (TextHash dg) (sg_privateKey sg) Hk) as (rs & v & -> & Hl & _);
    [rewrite TextHash_eq; apply length_Keccak256Hash|]. cbn [rbind]. intros [= <-].
  assert (H65 : length (map_v (λ v, v + 27) (rs ++ [v])) = 65%nat)
    by (rewrite length_map_v, length_app, Hl; done).
  assert (Hg : ¬ (HexToHash (ps_ContractID st) = zero_bytes 32 ∨ HexToAddress (ps_Publisher st) = zero_bytes 20
                  ∨ HexToAddress (ps_Provider st) = zero_bytes 20)).
  { intros HX. unfold eth_paymentStateDigest in Ed. rewrite decide_True in Ed; done. }
  do 2 eexists. split; [done|]. split; [exact H65|]. split.
  { destruct (decide (HexToAddress (ps_Publisher st) = PubkeyToAddress (sg_privateKey sg))); tauto. }
  split; [|done]. unfold convertPaymentStateToSolidity. cbn [set_sig ps_Publisher ps_Provider
    ps_PublisherSignature ps_ValidUntil ps_Sequence ps_Period ps_CumulativePayment ps_LastChallengeID ps_Status].
  rewrite decide_False; [done|]. unfold zlen. rewrite H65. change (Z.of_nat 65) with 65. tauto.
Qed.

#[program] Definition EthSigner (sg : Signer) (Hk : ec_valid (sg_privateKey sg)) : StateSigner :=
  {| Sign := eth_Sign sg |}.
Next Obligation.
  intros sg Hk s s' Hs. destruct (eth_Sign_Ok _ _ _ Hk Hs) as (sig & _ & -> & Hl & _).
  exists sig. split; [|done]. intros ->. done.
Qed.

(** *** Transactions *)

Lemma credit_0 s : credit 0 s = s.
Proof. destruct s. unfold credit. simpl. by rewrite Z.add_0_r. Qed.

Lemma exec_submit now from id p trs s :
  length id = 32%nat → payment_decodes p →
  exec now (Tx from 0 (op_submitPaymentState id p) trs) s =
  submitPaymentState id p {| msg_sender := from; msg_value := 0; block_timestamp := now |} s.
Proof.
  intros Hid Hp. unfold exec, run. cbn [msg_value payable].
  rewrite decide_False by (intros HX; apply HX; split; [unfold is_u256; lia|by split]).
  by rewrite bool_decide_false, andb_false_r, credit_0 by tauto.
Qed.


Lemma converted_decodes st sig p :
  eth_typed st → convertPaymentStateToSolidity (HexToHash (ps_ContractID st)) (set_sig sig st) = Ok p →
  payment_decodes p.
Proof.
  intros [Hs Hp Hc Hv] Hcv. unfold convertPaymentStateToSolidity in Hcv. case_decide; [done|].
  injection Hcv as <-. split; simpl; auto using length_HexToHash, length_HexToAddress, length_Keccak256Hash,
    statusCode_u8. unfold is_u256. unfold is_u64 in Hc. lia.
Qed.

(** The agreement is active, within its settlement window, between the
    parties of the voucher, and the voucher is newer and within the reward. *)
Record voucher_due (now : Z) (a : EscrowAgreement) (st : PaymentState) : Prop := {
  vd_active : ag_state a = EscrowTypes.Active;
  vd_window : now <= ag_deadline a + SETTLEMENT_WINDOW < 2 ^ 64;
  vd_valid : now <= ps_ValidUntil st;
  vd_publisher : HexToAddress (ps_Publisher st) = ag_publisher a;
  vd_provider : HexToAddress (ps_Provider st) = ag_provider a;
  vd_sequence : ag_latestSequence a < ps_Sequence st;
  vd_cumulative : ag_latestCumulativePayment a <= ps_CumulativePayment st <= ag_reward a;
}.

(** The contract after it accepted [st] with signature bytes in [p]. *)
Definition accepted (id : list byte) (st : PaymentState) (p : solidityPaymentState) (a : EscrowAgreement)
    (s : Escrow) : Escrow :=
  emit (PaymentStateAccepted id (ps_Sequence st) (ps_CumulativePayment st))
    (put_latest id p (put id (set_latest (ps_Sequence st) (ps_CumulativePayment st) a) s)).

Lemma submit_exec sg st st' :
  ec_valid (sg_privateKey sg) → eth_typed st → sg_escrowContract sg = this → sg_chainID sg = chainid →
  eth_Sign sg st = Ok st' →
  ∃ p, convertPaymentStateToSolidity (HexToHash (ps_ContractID st)) st' = Ok p ∧ payment_decodes p ∧
    sp_Sequence p = ps_Sequence st ∧ sp_CumulativePayment p = ps_CumulativePayment st ∧
    sp_ContractID p = HexToHash (ps_ContractID st) ∧
    ∀ now from trs s a, es_agreements s !! HexToHash (ps_ContractID st) = Some a → voucher_due now a st →
    exec now (Tx from 0 (op_submitPaymentState (HexToHash (ps_ContractID st)) p) trs) s =
    Ok (accepted (HexToHash (ps_ContractID st)) st p a s).
Proof.
  intros Hk Hty He Hi Hsig.
  destruct (eth_Sign_Ok _ _ _ Hk Hsig) as (sig & p & -> & Hl & Hpk & Hcv & Hp).
  pose proof (signed_recovers sg st (set_sig sig st) p Hk Hty He Hi Hsig Hcv) as Hrec.
  pose proof (converted_decodes _ _ _ Hty Hcv) as Hdec. exists p. split; [done|]. split; [done|].
  split_and!; [by subst p..|]. intros now from trs s a Ha [Hst Hw Hv Hpu Hpr Hsq Hcu].
  rewrite exec_submit by (done || apply length_HexToHash).
  unfold submitPaymentState, agreement. rewrite Ha. cbn [rbind].
  rewrite decide_False by (rewrite Hst; tauto). unfold add64. rewrite decide_True by lia.
  cbn [rbind block_timestamp]. rewrite decide_False by lia.
  assert (Hvv : voucher_valid (HexToHash (ps_ContractID st)) a p
                  {| msg_sender := from; msg_value := 0; block_timestamp := now |} = true).
  { subst p. unfold voucher_valid, isNextPaymentState. simpl.
    rewrite !bool_decide_true by (done || lia). done. }
  rewrite Hvv. cbn [negb]. rewrite decide_False by (rewrite Hrec, <- Hpu, Hpk; tauto).
  by subst p.
Qed.

(** The adapter's call hands in that transaction. *)
Lemma submit_state_exec op nd from id st p lg :
  ps_ContractID st = id → convertPaymentStateToSolidity (HexToHash id) st = Ok p →
  let t := {| sent_from := from; sent_value := 0; sent_op := op (HexToHash id) p |} in
  submit_state op (evm_adapter nd from) id st lg =
  match exec (nd_now nd) (sent_tx t (nd_replies nd (sent_op t))) (view nd lg) with
  | Ok _ => (submitted t lg, Ok tt)
  | Err e => (lg, Err e)
  end.
Proof.
  intros Hid Hcv t. unfold submit_state, evm_adapter. cbn [ready mbind option_bind ea_contract ea_auth].
  rewrite decide_False by (rewrite Hid; tauto). by rewrite Hcv.
Qed.

(** C26: The signer and the contract agree: a payment state the Ethereum signer
    signs for this contract and chain, submitted through the adapter by anyone
    while the node sees the agreement active, its settlement window open and
    the state newer than the last one, not lower and within the reward, is
    handed in as one transaction; and whenever that transaction is mined, in
    any state in which these conditions hold, the contract accepts it and the
    state becomes the agreement's latest payment, moving no money. *)
Theorem signed_state_accepted sg st st' nd from lg a :
  ec_valid (sg_privateKey sg) → eth_typed st → sg_escrowContract sg = this → sg_chainID sg = chainid →
  eth_Sign sg st = Ok st' →
  es_agreements (view nd lg) !! HexToHash (ps_ContractID st) = Some a → voucher_due (nd_now nd) a st →
  ∃ t, adapter_SubmitPaymentState (evm_adapter nd from) (ps_ContractID st) st' lg = (submitted t lg, Ok tt) ∧
    ∀ now replies s a', es_agreements s !! HexToHash (ps_ContractID st) = Some a' → voucher_due now a' st →
    ∃ s', exec now (sent_tx t replies) s = Ok s' ∧
      es_agreements s' = <[HexToHash (ps_ContractID st) :=
        set_latest (ps_Sequence st) (ps_CumulativePayment st) a']> (es_agreements s) ∧
      es_balance s' = es_balance s ∧ es_paid s' = es_paid s.
Proof.
  intros Hk Hty He Hi Hsig Ha Hd.
  destruct (submit_exec sg st st' Hk Hty He Hi Hsig) as (p & Hcv & _ & _ & _ & _ & Hx).
  eexists. unfold adapter_SubmitPaymentState. split.
  - erewrite submit_state_exec; [|by destruct (eth_Sign_Ok _ _ _ Hk Hsig) as (? & ? & -> & _)|exact Hcv].
    unfold sent_tx. cbn [sent_from sent_value sent_op]. by erewrite Hx by done.
  - intros now replies s a' Ha' Hd'. unfold sent_tx. cbn [sent_from sent_value sent_op].
    erewrite Hx by done. eexists. split; [done|]. by split_and!.
Qed.

(** *** From a dispatched result to the money *)

Section settlement.
Context {ED : Ed25519} (sg : Signer) (Hk : ec_valid (sg_privateKey sg)).
#[local] Instance settlement_signer : StateSigner := EthSigner sg Hk.






End settlement.

(** *** Opening an agreement *)

(** A transfer-free call that the decoder accepts. *)
Lemma run_decoded op m s :
  is_u256 (msg_value m) → abi_decodes op → payable op = true ∨ msg_value m = 0 →
  run op [] m s =
  match op with
  | op_createContract p f rw pe du rh co =>
      let! (s', _) := createContract p f rw pe du rh co m (credit (msg_value m) s) in Ok s'
  | op_fundEscrow id => fundEscrow id m (credit (msg_value m) s)
  | op_depositCollateral id => depositCollateral id m (credit (msg_value m) s)
  | op_activateContract id => activateContract id m (credit (msg_value m) s)
  | _ => run op [] m s
  end.
Proof.
  intros Hv Hd Hp.
  destruct op; try done; unfold run; rewrite decide_False by (intros HX; apply HX; by split);
    try done; destruct Hp as [|Hp]; try done; rewrite bool_decide_false by tauto; done.
Qed.

(** A call of the adapter, and the block that mines what it handed in. *)
Definition then_mined {A} (block : Z) (x : Ledger * result A) : Ledger * result A :=
  (idle (foldl (λ s t, mine block t [] s) (lg_chain x.1) (lg_pool x.1)), x.2).

Lemma transact_mined nd block from v op s s1 s2 :
  plain nd → exec (nd_now nd) (Tx from v op []) s = Ok s1 → exec block (Tx from v op []) s = Ok s2 →
  ∀ o, to_From o = from → default 0 (to_Value o) = v →
  Transact (evm_contract nd) o op (idle s) =
    ({| lg_chain := s; lg_pool := [{| sent_from := from; sent_value := v; sent_op := op |}] |}, Ok tt) ∧
  mine block {| sent_from := from; sent_value := v; sent_op := op |} [] s = s2.
Proof.
  intros Hp H1 H2 o <- <-. cbn [Transact evm_contract]. rewrite Hp.
  assert (Hv : view nd (idle s) = s) by (unfold view; by destruct (nd_pending nd)). rewrite Hv.
  unfold mine, sent_tx in *. cbn [sent_from sent_value sent_op]. by rewrite H1, H2.
Qed.

(** What each adapter call does to the contract of an agreement [a], once it is
    mined. *)
Lemma evm_FundEscrow nd block pub id rw s a :
  plain nd → length id = 32%nat → id ≠ zero_bytes 32 → 0 < rw < 2 ^ 256 →
  es_agreements s !! id = Some a → ag_publisher a = pub → ag_state a = EscrowTypes.Created → ag_reward a = rw →
  then_mined block (FundEscrow (evm_adapter nd pub) (hex_String id) (Some rw) (idle s)) =
  (idle (emit (EscrowFunded id rw) (put id (set_escrow rw EscrowTypes.Funded a) (credit rw s))), Ok tt).
Proof.
  intros Hpl Hl Hz Hrw Ha Hp Hs Hr.
  assert (Hx : ∀ t, exec t (Tx pub rw (op_fundEscrow id) []) s =
    Ok (emit (EscrowFunded id rw) (put id (set_escrow rw EscrowTypes.Funded a) (credit rw s)))).
  { intros t. unfold exec. cbn [map]. rewrite run_decoded; [|unfold is_u256; simpl; lia|done|by left]. cbn [msg_value].
    unfold fundEscrow, agreement. cbn [credit es_agreements]. rewrite Ha. cbn [rbind].
    rewrite decide_False by (cbn [msg_sender msg_value]; intros [?|[?|?]]; congruence). done. }
  unfold FundEscrow, transact, valid_id, evm_adapter.
  cbn [ready mbind option_bind ea_contract ea_auth positive]. rewrite HexToHash_hex by done.
  rewrite !bool_decide_true by (done || lia). cbn [andb to_From to_Value].
  edestruct (transact_mined nd block pub rw) as [-> Hm]; [done|apply Hx|apply (Hx block)|done|done|].
  unfold then_mined. cbn [fst snd lg_chain lg_pool foldl]. by rewrite Hm.
Qed.

Lemma evm_DepositCollateral nd block prov id co s a :
  plain nd → length id = 32%nat → id ≠ zero_bytes 32 → 0 < co < 2 ^ 256 →
  es_agreements s !! id = Some a → ag_provider a = prov → ag_state a = EscrowTypes.Funded →
  ag_collateral a = 0 → ag_collateralRequired a = co →
  then_mined block (DepositCollateral (evm_adapter nd prov) (hex_String id) (Some co) (idle s)) =
  (idle (emit (CollateralDeposited id co) (put id (set_collateral co a) (credit co s))), Ok tt).
Proof.
  intros Hpl Hl Hz Hco Ha Hp Hs H0 Hr.
  assert (Hx : ∀ t, exec t (Tx prov co (op_depositCollateral id) []) s =
    Ok (emit (CollateralDeposited id co) (put id (set_collateral co a) (credit co s)))).
  { intros t. unfold exec. cbn [map]. rewrite run_decoded; [|unfold is_u256; simpl; lia|done|by left]. cbn [msg_value].
    unfold depositCollateral, agreement. cbn [credit es_agreements]. rewrite Ha. cbn [rbind].
    rewrite decide_False by (cbn [msg_sender]; intros [?|?]; congruence). rewrite decide_False by lia.
    rewrite decide_False by (cbn [msg_value]; lia). done. }
  unfold DepositCollateral, transact, valid_id, evm_adapter.
  cbn [ready mbind option_bind ea_contract ea_auth positive]. rewrite HexToHash_hex by done.
  rewrite !bool_decide_true by (done || lia). cbn [andb to_From to_Value].
  edestruct (transact_mined nd block prov co) as [-> Hm]; [done|apply Hx|apply (Hx block)|done|done|].
  unfold then_mined. cbn [fst snd lg_chain lg_pool foldl]. by rewrite Hm.
Qed.

Lemma evm_ActivateContract nd block from id s a :
  plain nd → length id = 32%nat → id ≠ zero_bytes 32 → es_agreements s !! id = Some a → ag_publisher a = from →
  ag_state a = EscrowTypes.Funded → ag_escrowBalance a = ag_reward a → ag_collateralRequired a <= ag_collateral a →
  u64 (nd_now nd) + ag_duration a < 2 ^ 64 → u64 block + ag_duration a < 2 ^ 64 →
  then_mined block (ActivateContract (evm_adapter nd from) (hex_String id) (idle s)) =
  (idle (emit (ContractActivated id (u64 block + ag_duration a))
           (put id (set_active (u64 block) (u64 block + ag_duration a) a) s)), Ok tt).
Proof.
  intros Hpl Hl Hz Ha Hp Hs He Hc Hd1 Hd2.
  assert (Hx : ∀ t, u64 t + ag_duration a < 2 ^ 64 → exec t (Tx from 0 (op_activateContract id) []) s =
    Ok (emit (ContractActivated id (u64 t + ag_duration a)) (put id (set_active (u64 t) (u64 t + ag_duration a) a) s))).
  { intros t Hd. unfold exec. cbn [map]. rewrite run_decoded; [|unfold is_u256; simpl; lia|done|by right]. cbn [msg_value].
    rewrite credit_0. unfold activateContract, agreement. rewrite Ha. cbn [rbind].
    rewrite decide_False by (cbn [msg_sender]; intros [? ?]; congruence).
    rewrite decide_False by (intros [?|?]; congruence). rewrite decide_False by lia.
    unfold add64. cbn [block_timestamp]. rewrite decide_True by done. done. }
  unfold ActivateContract, transact, valid_id, evm_adapter.
  cbn [ready mbind option_bind ea_contract ea_auth]. rewrite HexToHash_hex by done.
  rewrite bool_decide_true by done. cbn [to_From to_Value].
  edestruct (transact_mined nd block from 0) as [-> Hm]; [done|by apply Hx|by apply (Hx block)|done|done|].
  unfold then_mined. cbn [fst snd lg_chain lg_pool foldl]. by rewrite Hm.
Qed.

Lemma evm_CreateContract nd block s pub prov fileID rw pe du rh co id :
  plain nd → length prov = 20%nat → length fileID = 32%nat → length rh = 32%nat →
  prov ≠ zero_bytes 20 → fileID ≠ zero_bytes 32 →
  0 < rw < 2 ^ 256 → 0 < pe < 2 ^ 64 → 0 < du < 2 ^ 64 → 0 < co < 2 ^ 256 →
  es_nextContractNonce s + 1 < 2 ^ 256 →
  id = Keccak256Hash (contract_preimage pub prov fileID (es_nextContractNonce s)) →
  then_mined block (CreateContract (evm_adapter nd pub) prov fileID (Some rw) pe du rh (Some co) (idle s)) =
  (idle (emit (ContractCreated id pub prov) (put id (new_agreement pub prov fileID rw pe du rh co) (bump_nonce s))), Ok id).
Proof.
  intros Hpl Hlp Hlf Hlr Hp Hf Hrw Hpe Hdu Hco Hn Hid.
  assert (Hcr : ∀ t, createContract prov fileID rw pe du rh co
      {| msg_sender := pub; msg_value := 0; block_timestamp := t |} s
    = Ok (emit (ContractCreated id pub prov) (put id (new_agreement pub prov fileID rw pe du rh co) (bump_nonce s)), id)).
  { intros t. unfold createContract. cbn [msg_sender]. rewrite <- Hid.
    rewrite decide_False by (intros [?|[?|[?|[?|?]]]]; done || lia). by rewrite decide_False by lia. }
  assert (Hx : ∀ t, exec t (Tx pub 0 (op_createContract prov fileID rw pe du rh co) []) s =
    Ok (emit (ContractCreated id pub prov) (put id (new_agreement pub prov fileID rw pe du rh co) (bump_nonce s)))).
  { intros t. unfold exec. cbn [map]. rewrite run_decoded; [|by unfold is_u256| |by right].
    - cbn [msg_value]. by rewrite credit_0, Hcr.
    - unfold abi_decodes, is_u256, is_u64. split_and!; done || lia. }
  unfold CreateContract, evm_adapter. cbn [ready mbind option_bind ea_contract ea_auth positive].
  rewrite bool_decide_true by lia. rewrite decide_False by (intros [?|[?|[?|[?|?]]]]; done || lia).
  cbn [from_option Datatypes.id evm_contract Call to_From to_Value lg_chain idle]. rewrite Hcr. cbn [rbind].
  edestruct (transact_mined nd block pub 0) as [-> Hm]; [done|apply Hx|apply (Hx block)|done|done|].
  unfold then_mined. cbn [fst snd lg_chain lg_pool foldl]. by rewrite Hm.
Qed.

(** The adapters of publisher and provider open an agreement as documented, one
    block after the other: CreateContract returns the identifier under which
    the contract stores the agreement, and funding with the reward, depositing
    the collateral and activating then succeed and leave it Active, with
    exactly the reward and the collateral in escrow. *)
Theorem adapter_opens s nd b1 b2 b3 b4 pub prov fileID rw pe du rh co id :
  plain nd → length prov = 20%nat → length fileID = 32%nat → length rh = 32%nat →
  prov ≠ zero_bytes 20 → fileID ≠ zero_bytes 32 →
  0 < rw < 2 ^ 256 → 0 < pe < 2 ^ 64 → 0 < du < 2 ^ 64 → 0 < co < 2 ^ 256 →
  u64 (nd_now nd) + du < 2 ^ 64 → u64 b4 + du < 2 ^ 64 → es_nextContractNonce s + 1 < 2 ^ 256 →
  id = Keccak256Hash (contract_preimage pub prov fileID (es_nextContractNonce s)) → id ≠ zero_bytes 32 →
  let a := evm_adapter nd in
  ∃ s1 s2 s3 s4,
    then_mined b1 (CreateContract (a pub) prov fileID (Some rw) pe du rh (Some co) (idle s)) = (idle s1, Ok id) ∧
    then_mined b2 (FundEscrow (a pub) (hex_String id) (Some rw) (idle s1)) = (idle s2, Ok tt) ∧
    then_mined b3 (DepositCollateral (a prov) (hex_String id) (Some co) (idle s2)) = (idle s3, Ok tt) ∧
    then_mined b4 (ActivateContract (a pub) (hex_String id) (idle s3)) = (idle s4, Ok tt) ∧
    GetContractState (a pub) (hex_String id) (idle s4) = Ok (state_code EscrowTypes.Active) ∧
    GetEscrowBalance (a pub) (hex_String id) (idle s4) = Ok rw ∧
    GetCollateral (a pub) (hex_String id) (idle s4) = Ok co ∧
    es_balance s4 = es_balance s + rw + co.
Proof.
  intros Hpl Hlp Hlf Hlr Hp Hf Hrw Hpe Hdu Hco Ht Ht4 Hn Hid Hz a.
  assert (Hl : length id = 32%nat) by (rewrite Hid; apply length_Keccak256Hash).
  assert (Hvid : valid_id (hex_String id) = true)
    by (unfold valid_id; rewrite HexToHash_hex by done; by apply bool_decide_true).
  unfold a. rewrite (evm_CreateContract nd b1 s pub prov fileID rw pe du rh co id) by done.
  do 4 eexists. split; [reflexivity|].
  rewrite (evm_FundEscrow nd b2 pub id rw _ (new_agreement pub prov fileID rw pe du rh co)) by
    (done || apply lookup_insert_eq). split; [reflexivity|].
  erewrite (evm_DepositCollateral nd b3 prov id co) by (done || apply lookup_insert_eq). split; [reflexivity|].
  erewrite (evm_ActivateContract nd b4 pub id) by (done || apply lookup_insert_eq || simpl; lia). split; [reflexivity|].
  unfold GetContractState, GetEscrowBalance, GetCollateral, query_first, evm_adapter.
  cbn [mbind option_bind ea_contract]. rewrite Hvid, HexToHash_hex by done.
  cbn [negb Call evm_contract lg_chain idle]. unfold getContractState, getEscrowBalance, getCollateral, agreement.
  cbn [put emit es_agreements]. rewrite lookup_insert_eq. cbn. split_and!; try done; lia.
Qed.

(** The bridge signs with the node's Ed25519 key, and what it signs can never
    be submitted: the conversion asks for the 65 bytes of an Ethereum
    signature. *)
Theorem ed25519_voucher_refused {ED : Ed25519} key st st' id :
  SignPaymentState st key = Ok st' → ∃ e, convertPaymentStateToSolidity id st' = Err e.
Proof.
  unfold SignPaymentState, PrivateKeySize. case_decide as Hk; [done|]. case_decide; [done|]. intros [= <-].
  unfold convertPaymentStateToSolidity. eexists. rewrite decide_True; [done|]. do 3 right. left. simpl.
  unfold zlen in *. rewrite ed_sign_length by lia. done.
Qed.
End compose.

(** ** Witnesses *)

#[global, program] Instance ToyAbi : GethAbi (H := ToyEthereum) := {|
  abi_Pack vs := Ok (concat (abi_word <$> vs));
  TextHash d := Keccak256Hash (eth_prefix ++ bytes_of (format_int (zlen d)) ++ d) |}.
Next Obligation. done. Qed.
Next Obligation. done. Qed.

Definition w_signer : Signer :=
  {| sg_privateKey := replicate 32 x07; sg_escrowContract := replicate 20 xee; sg_chainID := 1337 |}.
Definition w_state : PaymentState :=
  {| ps_ContractID := hex_String w_id; ps_Publisher := hex_String w_pub; ps_Provider := hex_String w_prov;
     ps_Sequence := 1; ps_Period := 1; ps_CumulativePayment := 30; ps_LastChallengeID := "c1";
     ps_ValidUntil := 500; ps_Status := AvailabilityPass; ps_PublisherSignature := [] |}.

Lemma w_active_agreement :
  ∃ a, es_agreements w_active !! w_id = Some a ∧
    (ag_state a, ag_deadline a, ag_publisher a, ag_provider a, ag_latestSequence a,
     ag_latestCumulativePayment a, ag_reward a) = (EscrowTypes.Active, 1010, w_pub, w_prov, 0, 0, 100).
Proof.
  apply (fmap_lookup_Some (λ a, (ag_state a, ag_deadline a, ag_publisher a, ag_provider a, ag_latestSequence a,
     ag_latestCumulativePayment a, ag_reward a))). vm_compute. reflexivity.
Qed.

(** A voucher of the publisher for the provider with sequence 1. *)
Lemma w_due_at now a st :
  now <= 1000 →
  (ag_state a, ag_deadline a, ag_publisher a, ag_provider a, ag_latestSequence a,
   ag_latestCumulativePayment a, ag_reward a) = (EscrowTypes.Active, 1010, w_pub, w_prov, 0, 0, 100) →
  now <= ps_ValidUntil st → HexToAddress (ps_Publisher st) = w_pub → HexToAddress (ps_Provider st) = w_prov →
  ps_Sequence st = 1 → ps_CumulativePayment st = 30 → voucher_due now a st.
Proof.
  intros Hn [= H1 H2 H3 H4 H5 H6 H7] ?????. split; rewrite ?H1, ?H2, ?H3, ?H4, ?H5, ?H6, ?H7;
    unfold SETTLEMENT_WINDOW; done || lia.
Qed.

Lemma w_due a st :
  (ag_state a, ag_deadline a, ag_publisher a, ag_provider a, ag_latestSequence a,
   ag_latestCumulativePayment a, ag_reward a) = (EscrowTypes.Active, 1010, w_pub, w_prov, 0, 0, 100) →
  20 <= ps_ValidUntil st → HexToAddress (ps_Publisher st) = w_pub → HexToAddress (ps_Provider st) = w_prov →
  ps_Sequence st = 1 → ps_CumulativePayment st = 30 → voucher_due 20 a st.
Proof. apply w_due_at. lia. Qed.

Definition w_node (pending : bool) (now : Z) : Node := {| nd_now := now; nd_pending := pending; nd_replies := λ _, [] |}.

Lemma signed_state_accepted_witness :
  ∃ st' t s', eth_Sign w_signer w_state = Ok st' ∧
    adapter_SubmitPaymentState (evm_adapter (w_node false 20) w_prov) (hex_String w_id) st' (idle w_active)
      = (submitted t (idle w_active), Ok tt) ∧
    exec 20 (sent_tx t []) w_active = Ok s' ∧ es_paid s' = es_paid w_active.
Proof.
  destruct (eth_Sign w_signer w_state) as [st'|e] eqn:E.
  2: { exfalso. apply (f_equal is_ok) in E. vm_compute in E. discriminate E. }
  destruct w_active_agreement as (a & Ha & Hf).
  assert (Hid : HexToHash (ps_ContractID w_state) = w_id) by (vm_compute; reflexivity).
  assert (Hd : voucher_due 20 a w_state)
    by (apply (w_due a w_state Hf); try reflexivity; [vm_compute; congruence|vm_compute; reflexivity..]).
  assert (Ha' : es_agreements w_active !! HexToHash (ps_ContractID w_state) = Some a) by (rewrite Hid; exact Ha).
  destruct (signed_state_accepted w_signer w_state st' (w_node false 20) w_prov (idle w_active) a) as (t & H1 & H2);
    [reflexivity|split; vm_compute; split; congruence|reflexivity|reflexivity|exact E|exact Ha'|exact Hd|].
  destruct (H2 20 [] w_active a Ha' Hd) as (s' & H3 & _ & _ & H4).
  exists st', t, s'. split; [reflexivity|]. split; [exact H1|]. split; [exact H3|exact H4].
Defined.



Lemma adapter_opens_witness :
  ∃ s4, then_mined 6 (ActivateContract (evm_adapter (w_node false 5) w_pub) (hex_String w_id) (idle s4.1)) = (idle s4.2, Ok tt) ∧
    GetContractState (evm_adapter (w_node false 5) w_pub) (hex_String w_id) (idle s4.2) = Ok 2 ∧ es_balance s4.2 = 150.
Proof.
  destruct (adapter_opens deployed (w_node false 5) 5 5 5 6 w_pub w_prov w_file 100 4 1000 w_file 50 w_id)
    as (s1 & s2 & s3 & s4 & _ & _ & _ & H1 & H2 & _ & _ & H3);
    [intros op; reflexivity|reflexivity|reflexivity|reflexivity|discriminate|discriminate|lia..|vm_compute; reflexivity
    |vm_compute; reflexivity|vm_compute; reflexivity|vm_compute; reflexivity
    |intros HX; vm_compute in HX; discriminate HX|].
  exists (s3, s4). split; [exact H1|]. split; [exact H2|]. exact H3.
Defined.
