(* ===== verification/Paths.v ===== *)
(** * Paths, trimming and files

    What the programs use of Go's path/filepath and strings (on Unix), and the
    files of a machine as a map from paths to contents. *)

From S2P Require Import Prelude.

(** ** strings.Split, strings.Join *)

(** [strings.Split(s, sep)] for a one-byte separator. *)
Fixpoint split_on (sep : byte) (l : list byte) : list (list byte) :=
  match l with
  | [] => [[]]
  | b :: l' =>
      if decide (b = sep) then [] :: split_on sep l'
      else match split_on sep l' with
           | c :: cs => (b :: c) :: cs
           | [] => [[b]]
           end
  end.

Fixpoint join_with (sep : byte) (cs : list (list byte)) : list byte :=
  match cs with
  | [] => []
  | [c] => c
  | c :: cs' => c ++ sep :: join_with sep cs'
  end.

Definition Split (s : string) (sep : byte) : list string := string_of <$> split_on sep (bytes_of s).

(** ** strings.TrimSpace *)

(** The UTF-8 encodings of the code points [unicode.IsSpace] accepts. *)
Definition spaces : list (list byte) :=
  [[x09]; [x0a]; [x0b]; [x0c]; [x0d]; [x20]; [xc2; x85]; [xc2; xa0]; [xe1; x9a; x80]; [xe2; x80; x80];
   [xe2; x80; x81]; [xe2; x80; x82]; [xe2; x80; x83]; [xe2; x80; x84]; [xe2; x80; x85]; [xe2; x80; x86];
   [xe2; x80; x87]; [xe2; x80; x88]; [xe2; x80; x89]; [xe2; x80; x8a]; [xe2; x80; xa8]; [xe2; x80; xa9];
   [xe2; x80; xaf]; [xe2; x81; x9f]; [xe3; x80; x80]].

(** Drop leading members of [seqs]; a round for every byte is enough. *)
Fixpoint trim_loop (seqs : list (list byte)) (fuel : nat) (l : list byte) : list byte :=
  match fuel with
  | O => l
  | S fuel' =>
      match list_find (λ s, s = take (length s) l) seqs with
      | Some (_, s) => trim_loop seqs fuel' (drop (length s) l)
      | None => l
      end
  end.
Definition trim_left (seqs : list (list byte)) (l : list byte) : list byte := trim_loop seqs (length l) l.

Definition TrimSpace (s : string) : string :=
  let l := trim_left spaces (bytes_of s) in
  string_of (reverse (trim_left (reverse <$> spaces) (reverse l))).

(** ** path/filepath *)

Definition sl : byte := x2f.
Definition dot : list byte := [x2e].
Definition dotdot : list byte := [x2e; x2e].

(** One path element; [st] holds the elements kept so far, last first. *)
Definition clean_step (rooted : bool) (st : list (list byte)) (c : list byte) : list (list byte) :=
  if decide (c = [] ∨ c = dot) then st
  else if decide (c = dotdot) then
    match st with
    | top :: rest => if decide (top = dotdot) then c :: st else rest
    | [] => if rooted then [] else [c]
    end
  else c :: st.

Definition Clean (p : list byte) : list byte :=
  match p with
  | [] => dot
  | b :: rest =>
      if decide (b = sl) then sl :: join_with sl (reverse (foldl (clean_step true) [] (split_on sl rest)))
      else match join_with sl (reverse (foldl (clean_step false) [] (split_on sl p))) with
           | [] => dot
           | out => out
           end
  end.

(** [filepath.Join]: empty elements are ignored. *)
Definition Join (elems : list (list byte)) : list byte :=
  match filter (λ e, e ≠ []) elems with
  | [] => []
  | es => Clean (join_with sl es)
  end.

Fixpoint drop_slashes (l : list byte) : list byte :=
  match l with b :: l' => if decide (b = sl) then drop_slashes l' else l | [] => [] end.
Fixpoint until_slash (l : list byte) : list byte :=
  match l with b :: l' => if decide (b = sl) then [] else b :: until_slash l' | [] => [] end.

(** [filepath.Base], working from the end. *)
Definition Base (p : list byte) : list byte :=
  match p with
  | [] => dot
  | _ => match reverse (until_slash (drop_slashes (reverse p))) with [] => [sl] | b => b end
  end.

(** ** Lemmas *)

Definition no_sep (sep : byte) (l : list byte) : Prop := sep ∉ l.

Lemma split_on_ne sep l : split_on sep l ≠ [].
Proof. destruct l as [|b l]; [done|]. simpl. case_decide; [done|]. by destruct (split_on sep l). Qed.

Lemma split_on_atom sep l : no_sep sep l → split_on sep l = [l].
Proof.
  unfold no_sep. induction l as [|b l IH]; [done|]. intros H%not_elem_of_cons. destruct H as [Hb Hl]. simpl.
  rewrite decide_False by congruence. by rewrite IH.
Qed.

Lemma split_on_app sep l k : no_sep sep l → split_on sep (l ++ sep :: k) = l :: split_on sep k.
Proof.
  unfold no_sep. induction l as [|b l IH]; intros H; simpl; [by rewrite decide_True|].
  apply not_elem_of_cons in H as [Hb Hl]. rewrite decide_False by congruence. by rewrite IH.
Qed.

Lemma join_split sep l : join_with sep (split_on sep l) = l.
Proof.
  induction l as [|b l IH]; [done|]. simpl. case_decide as Hb.
  - subst. rewrite <- IH at 2. pose proof (split_on_ne sep l). by destruct (split_on sep l).
  - destruct (split_on sep l) as [|c cs] eqn:E; [by destruct (split_on_ne sep l)|].
    rewrite <- IH. by destruct cs.
Qed.

(** An element that names an entry of its directory. *)
Definition plain_name (n : list byte) : Prop := n ≠ [] ∧ n ≠ dot ∧ n ≠ dotdot ∧ no_sep sl n.

(** Joining a directory and a plain name stays in the directory. *)
Lemma Join_plain d n :
  plain_name d → plain_name n → Join [d; n] = d ++ sl :: n.
Proof.
  intros (Hd & Hd1 & Hd2 & Hd3) (Hn & Hn1 & Hn2 & Hn3). unfold Join.
  rewrite !filter_cons_True, filter_nil by done. cbn [join_with].
  destruct d as [|b d]; [done|]. unfold Clean. cbn [app].
  rewrite decide_False by (intros ->; apply Hd3; left).
  change (b :: d ++ sl :: n) with ((b :: d) ++ sl :: n). rewrite split_on_app, split_on_atom by done.
  cbn [foldl]. unfold clean_step at 2. rewrite !decide_False by tauto.
  unfold clean_step. rewrite !decide_False by tauto. done.
Qed.

(** [..] leaves it. *)
Lemma Join_escape d n :
  plain_name d → plain_name n → Join [d; dotdot ++ sl :: n] = n.
Proof.
  intros (Hd & Hd1 & Hd2 & Hd3) (Hn & Hn1 & Hn2 & Hn3). unfold Join.
  rewrite !filter_cons_True, filter_nil by done. cbn [join_with].
  destruct d as [|b d]; [done|]. unfold Clean. cbn [app].
  rewrite decide_False by (intros ->; apply Hd3; left).
  change (b :: d ++ sl :: dotdot ++ sl :: n) with ((b :: d) ++ sl :: dotdot ++ sl :: n).
  rewrite split_on_app by done. rewrite split_on_app by (unfold no_sep; set_solver).
  rewrite split_on_atom by done. cbn [foldl]. unfold clean_step at 3. rewrite !decide_False by tauto.
  unfold clean_step at 2. rewrite decide_False by (intros [|]; done). rewrite decide_True by done.
  rewrite decide_False by tauto. unfold clean_step. rewrite !decide_False by tauto.
  change (join_with sl (reverse [n])) with n. by destruct n.
Qed.

Lemma until_slash_no_sep l : no_sep sl (until_slash l).
Proof.
  unfold no_sep. induction l as [|b l IH]; simpl; [set_solver|]. case_decide; set_solver.
Qed.

(** The last element of a path is a plain name, the root or a dot. *)
Lemma Base_plain p : plain_name (Base p) ∨ Base p = [sl] ∨ Base p = dot ∨ Base p = dotdot.
Proof.
  unfold Base. destruct p as [|b p]; [auto|]. set (u := until_slash _).
  pose proof (until_slash_no_sep (drop_slashes (reverse (b :: p)))) as Hu. fold u in Hu.
  destruct (reverse u) as [|x r] eqn:E; [auto|].
  destruct (decide ((x :: r) = dot)); [auto|]. destruct (decide ((x :: r) = dotdot)); [auto|].
  left. split_and!; try done. unfold no_sep in *. rewrite <- E. by rewrite elem_of_reverse.
Qed.
