(* ===== verification/Legacy.v ===== *)
(** * Direct file transfer

    network/transfer: header.go, sender.go and receiver.go, the protocol that
    sends one file over a stream.

    A writer accepts a number of bytes and then fails; a reader is the bytes
    it delivers before the end of the stream.  Progress reports and the
    summary are log output; the integrity verdict of the summary is a result
    of its own, since [Receive] returns nil with either. *)

From S2P Require Import Prelude Sha256 ChunkProtocol Paths.

(** ** header.go *)

Definition ProtocolVersion1 : Z := 1.
Definition MsgTypeFileTransfer : Z := 1.

Record Header := {
  lh_Version : Z;          (* byte *)
  lh_Type : Z;             (* byte *)
  lh_Filename : string;
  lh_FileSize : Z;         (* uint64 *)
  lh_Checksum : list byte; (* [32]byte *)
}.

(** An [io.Writer] that takes [wr_room] more bytes. *)
Record writer := { wr_out : list byte; wr_room : nat }.

Definition short_write : error := New "short write".

Definition write (b : list byte) (w : writer) : writer * result () :=
  if decide (length b <= wr_room w)%nat then
    ({| wr_out := wr_out w ++ b; wr_room := wr_room w - length b |}, Ok tt)
  else ({| wr_out := wr_out w ++ take (wr_room w) b; wr_room := 0 |}, Err short_write).

(** Write each piece in turn; an error is wrapped with what was being written. *)
Fixpoint write_all (ps : list (string * list byte)) (w : writer) : writer * result () :=
  match ps with
  | [] => (w, Ok tt)
  | (what, b) :: ps' =>
      match write b w with
      | (w', Err e) => (w', Err (Wrap ("failed to write " +:+ what) e))
      | (w', Ok _) => write_all ps' w'
      end
  end.

Definition header_pieces (h : Header) : list (string * list byte) :=
  let filenameBytes := bytes_of (lh_Filename h) in
  [("version", [byte_of_Z (lh_Version h)]); ("message type", [byte_of_Z (lh_Type h)]);
   ("filename length", be_bytes 2 (u16 (zlen filenameBytes))); ("filename", filenameBytes);
   ("file size", be_bytes 8 (lh_FileSize h)); ("checksum", lh_Checksum h)]%string.

Definition WriteTo (h : Header) (w : writer) : writer * result () := write_all (header_pieces h) w.

(** Read [n] bytes; an error is wrapped with what was being read. *)
Definition read_piece (what : string) (n : nat) : reader (list byte) :=
  rd_map_err (Wrap ("failed to read " +:+ what)) (rd_full n).

Definition ReadFrom : reader Header :=
  read! version := read_piece "version" 1 in
  read! type := read_piece "message type" 1 in
  read! len := read_piece "filename length" 2 in
  let filenameLen := be_val len in
  read! filenameBytes := read_piece "filename" (Z.to_nat filenameLen) in
  read! size := read_piece "file size" 8 in
  read! checksum := read_piece "checksum" 32 in
  rd_ret {| lh_Version := be_val version; lh_Type := be_val type; lh_Filename := string_of filenameBytes;
            lh_FileSize := be_val size; lh_Checksum := checksum |}.

(** ** sender.go *)

(** The file is read twice, for the checksum and for the data, and its size
    comes from [Stat]. *)
Record source := {
  sf_size : Z;             (* info.Size() *)
  sf_hashed : list byte;   (* what the first pass read *)
  sf_sent : list byte;     (* what the second pass read *)
}.

(** [file] is the error of opening, reading or rewinding the file. *)
Definition Send (file : result source) (filePath : list byte) (w : writer) : writer * result () :=
  match file with
  | Err e => (w, Err e)
  | Ok f =>
      let header :=
        {| lh_Version := ProtocolVersion1; lh_Type := MsgTypeFileTransfer;
           lh_Filename := string_of (Base filePath); lh_FileSize := u64 (sf_size f);
           lh_Checksum := sha256 (sf_hashed f) |} in
      match WriteTo header w with
      | (w', Err e) => (w', Err (Wrap "failed to write header" e))
      | (w', Ok _) =>
          match write (sf_sent f) w' with
          | (w'', Err e) => (w'', Err (Wrap "failed to send file data" e))
          | (w'', Ok _) => (w'', Ok tt)
          end
      end
  end.

(** ** receiver.go *)

Inductive Integrity := VERIFIED | FAILED.

Definition downloadsDir : list byte := bytes_of "downloads".

(** [mkdirErr] and [createErr] are the errors of the two system calls;
    [copyErr] interrupts the copy after a number of bytes (the stream is reset
    or the disk is full).  The file is created and written in place. *)
Definition Receive (mkdirErr createErr : option error) (copyErr : option (nat * error))
    (s : list byte) (fs : gmap (list byte) (list byte))
    : gmap (list byte) (list byte) * result Integrity :=
  match ReadFrom s with
  | (_, Err e) => (fs, Err (Wrap "failed to read header" e))
  | (rest, Ok header) =>
      if decide (lh_Version header ≠ ProtocolVersion1 ∨ lh_Type header ≠ MsgTypeFileTransfer) then
        (fs, Err (New "unsupported protocol version or message type"))
      else
        match mkdirErr with
        | Some e => (fs, Err (Wrap "failed to create downloads directory" e))
        | None =>
            let outPath := Join [downloadsDir; bytes_of (lh_Filename header)] in
            match createErr with
            | Some e => (fs, Err (Wrap "failed to create output file" e))
            | None =>
                (* io.LimitReader(s, int64(header.FileSize)) *)
                let data := take (Z.to_nat (i64 (lh_FileSize header))) rest in
                match copyErr with
                | Some (n, e) =>
                    if decide (n < length data)%nat then
                      (<[outPath := take n data]> fs, Err (Wrap "failed to receive file data" e))
                    else (<[outPath := data]> fs, Err (Wrap "failed to receive file data" e))
                | None =>
                    let fs := <[outPath := data]> fs in
                    if decide (u64 (zlen data) ≠ lh_FileSize header) then
                      (fs, Err (New "received size mismatch"))
                    else
                      (fs, Ok (if decide (sha256 data = lh_Checksum header) then VERIFIED else FAILED))
                end
            end
        end
  end.

(** ** The header *)

Definition header_bytes (h : Header) : list byte := concat (snd <$> header_pieces h).

Record header_typed (h : Header) : Prop := {
  ht_version : is_u8 (lh_Version h);
  ht_type : is_u8 (lh_Type h);
  ht_name : slen (lh_Filename h) < 2 ^ 16;
  ht_size : is_u64 (lh_FileSize h);
  ht_checksum : length (lh_Checksum h) = 32%nat;
}.

Lemma write_all_fits ps w :
  (length (concat (snd <$> ps)) <= wr_room w)%nat →
  write_all ps w = ({| wr_out := wr_out w ++ concat (snd <$> ps);
                       wr_room := wr_room w - length (concat (snd <$> ps)) |}, Ok tt).
Proof.
  revert w. induction ps as [|[what b] ps IH]; intros w Hr.
  - simpl. rewrite app_nil_r, Nat.sub_0_r. by destruct w.
  - rewrite fmap_cons in *. cbn [concat snd write_all] in *. rewrite length_app in *. unfold write.
    rewrite decide_True by lia. rewrite IH by (cbn [wr_room]; lia). cbn [wr_out wr_room].
    rewrite <- app_assoc. do 2 f_equal. lia.
Qed.

Lemma be_val_be_bytes n z : 0 <= z < 256 ^ Z.of_nat n → be_val (be_bytes n z) = z.
Proof. intros Hz. unfold be_val, be_bytes. rewrite reverse_involutive, le_val_le_bytes. by apply Z.mod_small. Qed.

Lemma read_piece_app what n a r : length a = n → read_piece what n (a ++ r) = (r, Ok a).
Proof. intros Hl. unfold read_piece, rd_map_err, rd_full. by rewrite ReadFull_app. Qed.

Lemma ReadFrom_header h r : header_typed h → ReadFrom (header_bytes h ++ r) = (r, Ok h).
Proof.
  intros [Hv Ht Hn Hs Hc]. unfold header_bytes, header_pieces. cbn [fmap list_fmap snd concat].
  rewrite app_nil_r, <- !app_assoc. unfold ReadFrom, rd_bind.
  rewrite read_piece_app by done. rewrite read_piece_app by done.
  rewrite read_piece_app by apply length_be_bytes.
  assert (Hl : be_val (be_bytes 2 (u16 (zlen (bytes_of (lh_Filename h))))) = slen (lh_Filename h)).
  { unfold u16. unfold slen in *. pose proof (zlen_nonneg (bytes_of (lh_Filename h))).
    rewrite Z.mod_small by lia. apply be_val_be_bytes. simpl. lia. }
  rewrite Hl. rewrite read_piece_app by (unfold slen, zlen; lia).
  rewrite read_piece_app by apply length_be_bytes. rewrite read_piece_app by done.
  unfold rd_ret. rewrite string_of_bytes_of. rewrite (be_val_be_bytes 8) by exact Hs.
  do 2 f_equal. destruct h; simpl in *. f_equal; unfold be_val; simpl; rewrite byte_to_of, Z.add_0_r;
    by apply Z.mod_small.
Qed.

(** ** The transfer *)

Lemma downloads_plain : plain_name downloadsDir.
Proof. split_and!; [done..|]. unfold no_sep. apply (bool_decide_unpack _). vm_compute. exact I. Qed.

(** What the receiver does with a well-formed header and its data. *)
Lemma Receive_header h data rest fs :
  header_typed h → lh_Version h = ProtocolVersion1 → lh_Type h = MsgTypeFileTransfer →
  lh_FileSize h = zlen data → zlen data < 2 ^ 63 →
  Receive None None None (header_bytes h ++ data ++ rest) fs =
  (<[Join [downloadsDir; bytes_of (lh_Filename h)] := data]> fs,
   Ok (if decide (sha256 data = lh_Checksum h) then VERIFIED else FAILED)).
Proof.
  intros Hty Hv Ht Hs Hlt. unfold Receive. rewrite ReadFrom_header by done.
  rewrite decide_False by (rewrite Hv, Ht; tauto).
  pose proof (zlen_nonneg data). rewrite Hs, i64_id by (unfold is_i64; lia).
  rewrite take_app_length' by (unfold zlen; lia).
  rewrite decide_False; [done|]. rewrite u64_id by (unfold is_u64; lia). tauto.
Qed.

(** Sending a file and receiving it is the identity: for an unchanged file
    with an ordinary name the sender succeeds, and the receiver of its bytes
    stores exactly the file's content under downloads/ and that name and reports
    it verified. *)
Theorem Receive_Send filePath content room rest fs :
  plain_name (Base filePath) → zlen (Base filePath) < 2 ^ 16 → zlen content < 2 ^ 63 →
  (44 + length (Base filePath) + length content <= room)%nat →
  ∃ w', Send (Ok {| sf_size := zlen content; sf_hashed := content; sf_sent := content |}) filePath
          {| wr_out := []; wr_room := room |} = (w', Ok tt) ∧
    Receive None None None (wr_out w' ++ rest) fs =
    (<[downloadsDir ++ sl :: Base filePath := content]> fs, Ok VERIFIED).
Proof.
  intros Hp Hn Hc Hroom. unfold Send. set (h := {| lh_Version := _ |}). pose proof (zlen_nonneg content).
  assert (Hty : header_typed h).
  { split; cbn [lh_Version lh_Type lh_Filename lh_FileSize lh_Checksum h];
      [by unfold is_u8|by unfold is_u8| |apply u64_range|apply length_sha256].
    unfold slen. by rewrite bytes_of_string_of. }
  assert (Hlen : length (header_bytes h) = (44 + length (Base filePath))%nat).
  { unfold header_bytes, header_pieces. cbn [fmap list_fmap snd concat lh_Filename lh_Checksum h].
    rewrite bytes_of_string_of, !length_app, !length_be_bytes, length_sha256. cbn [length]. lia. }
  unfold WriteTo. rewrite write_all_fits by (fold (header_bytes h); cbn [wr_room]; lia). fold (header_bytes h).
  cbn [wr_out wr_room app]. unfold write. rewrite decide_True by (cbn [wr_room sf_sent]; lia). eexists. split; [done|].
  cbn [wr_out sf_sent]. rewrite <- app_assoc.
  rewrite (Receive_header h content rest fs) by (done || (apply u64_id; unfold is_u64; lia)).
  cbn [lh_Filename lh_Checksum h]. rewrite bytes_of_string_of, Join_plain, decide_True by auto using downloads_plain.
  done.
Qed.

(** Whatever arrives and whatever fails, at most one file changes, and success
    means that it has the announced size; it is reported verified exactly when
    it hashes to the announced checksum. *)
Theorem Receive_one_file mkdirErr createErr copyErr s fs :
  let '(fs', r) := Receive mkdirErr createErr copyErr s fs in
  (∃ path, ∀ q, q ≠ path → fs' !! q = fs !! q) ∧
  ∀ i, r = Ok i → ∃ h rest data, ReadFrom s = (rest, Ok h) ∧
    fs' !! Join [downloadsDir; bytes_of (lh_Filename h)] = Some data ∧
    u64 (zlen data) = lh_FileSize h ∧ (i = VERIFIED ↔ sha256 data = lh_Checksum h).
Proof.
  unfold Receive. destruct (ReadFrom s) as [rest [h|e]]; [|by split; [exists []|]].
  case_decide; [by split; [exists []|]|]. destruct mkdirErr; [by split; [exists []|]|].
  destruct createErr; [by split; [exists []|]|]. set (p := Join _).
  destruct copyErr as [[n e]|].
  - case_decide; (split; [exists p; intros q Hq; by rewrite lookup_insert_ne|done]).
  - destruct (decide (u64 _ ≠ _)) as [|Hsz];
      (split; [exists p; intros q Hq; by rewrite lookup_insert_ne|]); [done|].
    intros i [= <-]. exists h, rest. eexists. split; [done|]. split; [apply lookup_insert_eq|].
    split; [by apply dec_stable in Hsz|]. case_decide; done.
Qed.

(** *** Two surprises *)

(** The name is joined to the directory without a check: a peer chooses the
    path with [..] and overwrites a file outside it. *)
Theorem Receive_escapes n content rest fs :
  plain_name n → zlen n < 2 ^ 16 - 3 → zlen content < 2 ^ 63 →
  ∃ s, Receive None None None (s ++ rest) fs = (<[n := content]> fs, Ok VERIFIED).
Proof.
  intros Hn Hl Hc. pose proof (zlen_nonneg content).
  set (h := {| lh_Version := ProtocolVersion1; lh_Type := MsgTypeFileTransfer;
     lh_Filename := string_of (dotdot ++ sl :: n); lh_FileSize := zlen content;
     lh_Checksum := sha256 content |}).
  exists (header_bytes h ++ content). rewrite <- app_assoc, Receive_header; [| |done|done|done|done].
  - cbn [lh_Filename lh_Checksum h].
    by rewrite bytes_of_string_of, decide_True, Join_escape by auto using downloads_plain.
  - split; cbn [lh_Version lh_Type lh_Filename lh_FileSize lh_Checksum h];
      [by unfold is_u8|by unfold is_u8| |unfold is_u64; lia|apply length_sha256].
    unfold slen. rewrite bytes_of_string_of, zlen_app. unfold zlen in *. cbn [length dotdot]. lia.
Qed.

(** A file that fails the checksum is kept, and the receiver returns nil. *)
Theorem Receive_keeps_corrupt n content rest fs :
  plain_name n → zlen n < 2 ^ 16 → zlen content < 2 ^ 63 →
  ∃ s, Receive None None None (s ++ rest) fs = (<[downloadsDir ++ sl :: n := content]> fs, Ok FAILED).
Proof.
  intros Hn Hl Hc. pose proof (zlen_nonneg content).
  assert (∃ c, length c = 32%nat ∧ sha256 content ≠ c) as (c & Hc32 & Hne).
  { destruct (decide (sha256 content = replicate 32 x00)) as [E|E].
    - exists (replicate 32 x01). split; [done|]. rewrite E. discriminate.
    - by exists (replicate 32 x00). }
  set (h := {| lh_Version := ProtocolVersion1; lh_Type := MsgTypeFileTransfer;
     lh_Filename := string_of n; lh_FileSize := zlen content; lh_Checksum := c |}).
  exists (header_bytes h ++ content). rewrite <- app_assoc, Receive_header; [| |done|done|done|done].
  - cbn [lh_Filename lh_Checksum h].
    by rewrite bytes_of_string_of, decide_False, Join_plain by auto using downloads_plain.
  - split; cbn [lh_Version lh_Type lh_Filename lh_FileSize lh_Checksum h];
      [by unfold is_u8|by unfold is_u8| |unfold is_u64; lia|done].
    unfold slen. by rewrite bytes_of_string_of.
Qed.

(** ** Witness *)

Lemma Receive_Send_witness :
  ∃ w', Send (Ok {| sf_size := 3; sf_hashed := [x01; x02; x03]; sf_sent := [x01; x02; x03] |})
          (bytes_of "/home/a/f.txt") {| wr_out := []; wr_room := 100 |} = (w', Ok tt) ∧
    Receive None None None (wr_out w' ++ []) ∅ =
    (<[downloadsDir ++ sl :: Base (bytes_of "/home/a/f.txt") := [x01; x02; x03]]> ∅, Ok VERIFIED).
Proof.
  apply (Receive_Send (bytes_of "/home/a/f.txt") [x01; x02; x03] 100 [] ∅);
    [|vm_compute; reflexivity|vm_compute; reflexivity|apply Nat.leb_le; vm_compute; reflexivity].
  split; [discriminate|]. split; [discriminate|]. split; [discriminate|].
  unfold no_sep. apply (bool_decide_unpack _). vm_compute. exact I.
Defined.
