(* ===== verification/Identity.v ===== *)
(** * Node identities

    network/identity: identity.go (the node's Ed25519 key) and ethereum.go
    (its Ethereum key).  Both load a key file or create it.  Key generation
    and serialisation are libp2p's and go-ethereum's: the interface
    [KeyCodec].  The environment, the random key and the faults of the file
    system are arguments. *)

From S2P Require Import Prelude Bindings Tickets Paths.

Class KeyCodec := {
  (** [crypto.PrivKey] of libp2p *)
  PrivKey : Type;
  MarshalPrivateKey : PrivKey → result (list byte);
  UnmarshalPrivateKey : list byte → result PrivKey;
  (** [crypto.FromECDSA], [crypto.HexToECDSA] of go-ethereum; an ECDSA key is
      its 32 bytes *)
  HexToECDSA : string → result (list byte);
  ec_key : list byte → Prop;     (* keys [crypto.GenerateKey] returns *)
  Unmarshal_Marshal : ∀ k b, MarshalPrivateKey k = Ok b → UnmarshalPrivateKey b = Ok k;
  ec_key_length : ∀ k, ec_key k → length k = 32%nat;
  HexToECDSA_hex : ∀ k, ec_key k → HexToECDSA (EncodeToString k) = Ok k;
}.

Abbreviation files := (gmap (list byte) (list byte)).

(** What the calls of [os] fail with.  [fl_write] leaves a prefix of the data
    behind: [os.WriteFile] truncates the file and then writes. *)
Record faults := {
  fl_stat : option error;            (* an error other than [os.ErrNotExist] *)
  fl_read : option error;
  fl_mkdir : option error;
  fl_write : option (nat * error);
}.
Definition no_faults : faults := {| fl_stat := None; fl_read := None; fl_mkdir := None; fl_write := None |}.

Definition WriteFile (f : faults) (path data : list byte) (fs : files) : files * result () :=
  match fl_write f with
  | None => (<[path := data]> fs, Ok tt)
  | Some (n, e) => (<[path := take n data]> fs, Err e)
  end.

Section identity.
Context {KC : KeyCodec}.

(** ** identity.go *)

(** [gen] is the outcome of [crypto.GenerateKeyPair]. *)
Definition LoadOrCreateFromPath (f : faults) (gen : result PrivKey) (keyPath : list byte) (fs : files)
    : files * result PrivKey :=
  match fl_stat f with
  | Some e => (fs, Err (Wrap "failed to stat key file" e))
  | None =>
      match fs !! keyPath with
      | Some keyBytes =>
          match fl_read f with
          | Some e => (fs, Err (Wrap "failed to read key file" e))
          | None => (fs, wrap "failed to unmarshal private key" (UnmarshalPrivateKey keyBytes))
          end
      | None =>
          match fl_mkdir f with
          | Some e => (fs, Err (Wrap "failed to create config directory" e))
          | None =>
              match gen with
              | Err e => (fs, Err (Wrap "failed to generate key pair" e))
              | Ok priv =>
                  match MarshalPrivateKey priv with
                  | Err e => (fs, Err (Wrap "failed to marshal private key" e))
                  | Ok keyBytes =>
                      match WriteFile f keyPath keyBytes fs with
                      | (fs', Err e) => (fs', Err (Wrap "failed to write key file" e))
                      | (fs', Ok _) => (fs', Ok priv)
                      end
                  end
              end
          end
      end
  end.

(** [env] is [os.Getenv("CIPHER_CONFIG_DIR")], [userDir] is [os.UserConfigDir()]. *)
Definition config_dir (env : list byte) (userDir : result (list byte)) : result (list byte) :=
  match env with [] => wrap "failed to get user config dir" userDir | _ => Ok env end.

Definition LoadOrCreate (f : faults) (gen : result PrivKey) (env : list byte) (userDir : result (list byte))
    (fs : files) : files * result PrivKey :=
  match config_dir env userDir with
  | Err e => (fs, Err e)
  | Ok configDir =>
      let appDir := Join [configDir; bytes_of "cipher"] in
      let keyPath := Join [appDir; bytes_of "identity.key"] in
      LoadOrCreateFromPath f gen keyPath fs
  end.

Definition GenerateEphemeral (gen : result PrivKey) : result PrivKey :=
  wrap "failed to generate ephemeral key pair" gen.

(** ** ethereum.go *)

(** [strings.HasPrefix(s, "0x") || strings.HasPrefix(s, "0X")], then [s[2:]]. *)
Definition strip_0x (s : string) : string :=
  match bytes_of s with
  | x30 :: x78 :: rest | x30 :: x58 :: rest => string_of rest
  | _ => s
  end.

Definition ParseEthereumKey (keyHex : string) : result (list byte) :=
  wrap "invalid ethereum private key hex" (HexToECDSA (strip_0x (TrimSpace keyHex))).

(** [gen] is the outcome of [crypto.GenerateKey]. *)
Definition LoadOrCreateEthereumKey (f : faults) (gen : result (list byte)) (env : list byte)
    (userDir : result (list byte)) (keyPath : list byte) (fs : files) : files * result (list byte) :=
  let path :=
    match keyPath with
    | [] => let! configDir := config_dir env userDir in
            Ok (Join [configDir; bytes_of "cipher"; bytes_of "ethereum.key"])
    | _ => Ok keyPath
    end in
  match path with
  | Err e => (fs, Err e)
  | Ok keyPath =>
      match fl_stat f with
      | Some e => (fs, Err (Wrap "failed to stat ethereum key file" e))
      | None =>
          match fs !! keyPath with
          | Some hexBytes =>
              match fl_read f with
              | Some e => (fs, Err (Wrap "failed to read ethereum key file" e))
              | None => (fs, ParseEthereumKey (TrimSpace (string_of hexBytes)))
              end
          | None =>
              match fl_mkdir f with
              | Some e => (fs, Err (Wrap "failed to create directory" e))
              | None =>
                  match gen with
                  | Err e => (fs, Err (Wrap "failed to generate ethereum key" e))
                  | Ok privKey =>
                      match WriteFile f keyPath (bytes_of (EncodeToString privKey) ++ [x0a]) fs with
                      | (fs', Err e) => (fs', Err (Wrap "failed to write ethereum key file" e))
                      | (fs', Ok _) => (fs', Ok privKey)
                      end
                  end
              end
          end
      end
  end.

Definition EthereumAddress {GE : GoEthereum} (privKey : option (list byte)) : list byte :=
  match privKey with None => zero_bytes 20 | Some k => PubkeyToAddress k end.

(** ** Trimming a key file *)

Definition is_hex (b : byte) : Prop := unhex_digit b ≠ None.

Lemma hex_encode_is_hex l : Forall is_hex (hex_encode_bytes l).
Proof.
  induction l as [|b l IH]; [constructor|]. cbn [hex_encode_bytes]. pose proof (byte_to_Z_range b).
  repeat constructor; [| |exact IH]; unfold is_hex; rewrite unhex_hex; try done;
    (split; [apply Z.div_pos || apply Z.mod_pos_bound|apply Z.div_lt_upper_bound || apply Z.mod_pos_bound]; lia).
Qed.

(** No space starts or ends with a hexadecimal digit. *)
Lemma spaces_not_hex b rest seqs :
  is_hex b → seqs = spaces ∨ seqs = reverse <$> spaces →
  list_find (λ s, s = take (length s) (b :: rest)) seqs = None.
Proof.
  intros Hb Hs. apply list_find_None. rewrite Forall_forall. intros s Hin Heq.
  assert (Hall : forallb (λ s, match s with c :: _ => bool_decide (unhex_digit c = None) | [] => false end)
            seqs = true) by (destruct Hs as [-> | ->]; reflexivity).
  rewrite forallb_forall in Hall. specialize (Hall s (proj1 (list_elem_of_In _ _) Hin)).
  destruct s as [|c t]; [done|]. cbn [length take] in Heq. injection Heq as -> _.
  unfold is_hex in Hb. destruct (unhex_digit b); done.
Qed.

Lemma trim_left_hex b rest seqs :
  is_hex b → seqs = spaces ∨ seqs = reverse <$> spaces → trim_left seqs (b :: rest) = b :: rest.
Proof. intros Hb Hs. unfold trim_left. cbn [length trim_loop]. by rewrite spaces_not_hex. Qed.

(** A line break after hexadecimal digits is what trimming removes. *)
Lemma TrimSpace_hex l nl :
  l ≠ [] → Forall is_hex l → nl = [] ∨ nl = [x0a] → TrimSpace (string_of (l ++ nl)) = string_of l.
Proof.
  intros Hne Hh Hnl. unfold TrimSpace. rewrite bytes_of_string_of.
  destruct l as [|b l]; [done|]. cbn [app]. rewrite trim_left_hex by first [by left|by inversion Hh].
  change (b :: l ++ nl) with ((b :: l) ++ nl). set (k := b :: l) in *.
  assert (Hk : trim_left (reverse <$> spaces) (reverse k) = reverse k).
  { destruct (reverse k) as [|c r] eqn:E; [done|]. apply trim_left_hex; [|by right].
    apply Forall_reverse in Hh. rewrite E in Hh. by inversion Hh. }
  f_equal. destruct Hnl as [-> | ->].
  - rewrite app_nil_r, Hk. apply reverse_involutive.
  - rewrite reverse_snoc. unfold trim_left. cbn [length trim_loop].
    change (list_find _ (reverse <$> spaces)) with
      (list_find (λ s : list byte, s = take (length s) (x0a :: reverse k)) (reverse <$> spaces)).
    assert (list_find (λ s : list byte, s = take (length s) (x0a :: reverse k)) (reverse <$> spaces)
            = Some (1%nat, [x0a])) as ->.
    { apply list_find_Some. split_and!; [done|done|]. intros j y Hj Hlt. assert (j = 0%nat) as -> by lia.
      injection Hj as <-. done. }
    change (drop (length [x0a]) (x0a :: reverse k)) with (reverse k).
    unfold trim_left in Hk. rewrite Hk. apply reverse_involutive.
Qed.

(** ** Loading what was created *)

Lemma wrap_Ok {A} c (r : result A) a : wrap c r = Ok a → r = Ok a.
Proof. destruct r; simpl; congruence. Qed.

Lemma ParseEthereumKey_hex k nl :
  ec_key k → nl = [] ∨ nl = [x0a] →
  ParseEthereumKey (TrimSpace (string_of (bytes_of (EncodeToString k) ++ nl))) = Ok k.
Proof.
  intros Hk Hnl. pose proof (ec_key_length _ Hk) as Hl. unfold EncodeToString at 1. rewrite bytes_of_string_of.
  assert (Hne : hex_encode_bytes k ≠ []).
  { intros E. apply (f_equal length) in E. rewrite length_hex_encode_bytes, Hl in E. done. }
  rewrite TrimSpace_hex by auto using hex_encode_is_hex. unfold ParseEthereumKey.
  rewrite <- (app_nil_r (hex_encode_bytes k)), TrimSpace_hex by auto using hex_encode_is_hex.
  assert (Hx : strip_0x (string_of (hex_encode_bytes k)) = EncodeToString k).
  { unfold strip_0x. rewrite bytes_of_string_of. pose proof (hex_encode_is_hex k) as Hh.
    unfold EncodeToString. destruct (hex_encode_bytes k) as [|b1 [|b2 r]]; [done|by destruct b1|].
    apply Forall_cons in Hh as [_ Hh]. apply Forall_cons in Hh as [Hb2 _].
    destruct b1; try done. destruct b2; try done; exfalso; by apply Hb2. }
  rewrite Hx, HexToECDSA_hex by done. done.
Qed.

(** C39: A node keeps its identity: once a call has returned a key, loaded or
    freshly created, every later call that meets no I/O fault and finds the key
    file as it was left returns the same key and changes nothing, for the
    Ed25519 node key and for the Ethereum key. *)
Theorem identity_stable :
  (∀ f gen path fs fs' k, LoadOrCreateFromPath f gen path fs = (fs', Ok k) →
     ∀ gen' fs2, fs2 !! path = fs' !! path → LoadOrCreateFromPath no_faults gen' path fs2 = (fs2, Ok k)) ∧
  (∀ f gen env user path fs fs' k, path ≠ [] → (∀ k', gen = Ok k' → ec_key k') →
     LoadOrCreateEthereumKey f gen env user path fs = (fs', Ok k) →
     ∀ gen' fs2, fs2 !! path = fs' !! path →
       LoadOrCreateEthereumKey no_faults gen' env user path fs2 = (fs2, Ok k)).
Proof.
  split.
  - intros f gen path fs fs' k E gen' fs2 Hfs. unfold LoadOrCreateFromPath in *. simpl. rewrite Hfs. clear Hfs.
    destruct (fl_stat f); [done|]. destruct (fs !! path) as [b|] eqn:Hp.
    + destruct (fl_read f); [done|]. injection E as <- E. by rewrite Hp, E.
    + destruct (fl_mkdir f); [done|]. destruct gen as [k0|]; [|done].
      destruct (MarshalPrivateKey k0) as [b|] eqn:Hm; [|done]. unfold WriteFile in E.
      destruct (fl_write f) as [[]|]; [done|]. injection E as <- <-.
      by rewrite lookup_insert_eq, (Unmarshal_Marshal _ _ Hm).
  - intros f gen env user path fs fs' k Hne Hgen E gen' fs2 Hfs. unfold LoadOrCreateEthereumKey in *.
    destruct path as [|c path]; [done|]. set (p := c :: path) in *. simpl. rewrite Hfs. clear Hfs.
    destruct (fl_stat f); [done|]. destruct (fs !! p) as [b|] eqn:Hp.
    + destruct (fl_read f); [done|]. injection E as <- E. by rewrite Hp, E.
    + destruct (fl_mkdir f); [done|]. destruct gen as [k0|]; [|done]. unfold WriteFile in E.
      destruct (fl_write f) as [[]|]; [done|]. injection E as <- <-.
      rewrite lookup_insert_eq, ParseEthereumKey_hex; auto.
Qed.

(** The key file is written in place: a write that fails halfway leaves a file
    that later calls find and cannot parse, so the node never gets a key
    again until the file is removed by hand. *)
Theorem partial_key_file n e k b path fs er :
  MarshalPrivateKey k = Ok b → UnmarshalPrivateKey (take n b) = Err er → fs !! path = None →
  ∃ fs', LoadOrCreateFromPath {| fl_stat := None; fl_read := None; fl_mkdir := None; fl_write := Some (n, e) |}
           (Ok k) path fs = (fs', Err (Wrap "failed to write key file" e)) ∧
    ∀ gen, LoadOrCreateFromPath no_faults gen path fs' =
      (fs', Err (Wrap "failed to unmarshal private key" er)).
Proof.
  intros Hm Hu Hp. unfold LoadOrCreateFromPath, WriteFile. simpl. rewrite Hp, Hm. eexists. split; [done|].
  intros gen. by rewrite lookup_insert_eq, Hu.
Qed.
End identity.

(** ** A concrete codec *)

#[global, program] Instance ToyKeyCodec : KeyCodec := {|
  PrivKey := list byte;
  MarshalPrivateKey k := Ok (k ++ [x00]);
  UnmarshalPrivateKey b := Ok (take (length b - 1) b);
  HexToECDSA s := match DecodeString s with
                  | Some k => if decide (length k = 32%nat) then Ok k else Err (New "length")
                  | None => Err (New "hex")
                  end;
  ec_key k := length k = 32%nat |}.
Next Obligation.
  intros k b [= <-]. rewrite length_app. cbn [length]. replace (length k + 1 - 1)%nat with (length k) by lia.
  by rewrite take_app_length.
Qed.
Next Obligation. done. Qed.
Next Obligation. intros k Hk. cbv beta in *. rewrite DecodeString_EncodeToString. cbv iota. by apply decide_True. Qed.

Lemma identity_stable_witness :
  let gen := Ok (replicate 32 x05) in
  ∃ fs, LoadOrCreateEthereumKey no_faults gen [] (Ok []) (bytes_of "eth.key") ∅ = (fs, gen) ∧
    LoadOrCreateEthereumKey no_faults (Err EOF) [] (Ok []) (bytes_of "eth.key") fs = (fs, gen).
Proof.
  intros gen.
  destruct (LoadOrCreateEthereumKey no_faults gen [] (Ok []) (bytes_of "eth.key") ∅) as [fs r] eqn:E.
  assert (r = gen) as -> by (apply (f_equal snd) in E; vm_compute in E; symmetry; exact E).
  exists fs. split; [reflexivity|].
  apply (proj2 identity_stable no_faults gen [] (Ok []) (bytes_of "eth.key") ∅ fs (replicate 32 x05));
    [discriminate|intros k' Ek; injection Ek as <-; reflexivity|exact E|reflexivity].
Defined.
