(* ===== verification/Discovery.v ===== *)
(** * Discovery

    network/discovery (cid.go, dht.go, provider.go), the connection loops of
    network/transport/stream.go and the peer selection of the publisher and
    consumer programs.

    The Kademlia DHT, multihashes and CIDs are the interface [Dht] on a
    network [D]; the libp2p host is a function that connects to a peer.  A
    peer identifier is a string. *)

From S2P Require Import Prelude Paths.

Record AddrInfo := { ai_ID : string; ai_Addrs : list string }.

Class Dht (D : Type) := {
  cid : Type;
  (** [multihash.Encode(id, SHA2_256)] followed by [cid.NewCidV1] *)
  mh_Encode : list byte → result (list byte);
  NewCidV1 : list byte → cid;
  (** [kdht.Provide], the peers [kdht.FindProvidersAsync] sends, [kdht.Bootstrap] *)
  dht_Provide : cid → D → D * result ();
  FindProvidersAsync : cid → Z → D → list AddrInfo;
  dht_Bootstrap : D → D * result ();
}.

Section discovery.
Context {D : Type} {DH : Dht D}.

(** ** cid.go and provider.go *)

Definition contentIDToCID (id : list byte) : result cid :=
  let! mh := mh_Encode id in Ok (NewCidV1 mh).

Definition StorageProviderNamespace : list byte := bytes_of "CIPHER_STORAGE_PROVIDER_SERVICE" ++ [x01].

Definition Provide (id : list byte) (d : D) : D * result () :=
  match contentIDToCID id with
  | Err e => (d, Err (Wrap "failed to convert ContentID to CID" e))
  | Ok c =>
      match dht_Provide c d with
      | (d', Err e) => (d', Err (Wrap "failed to provide content" e))
      | (d', Ok _) => (d', Ok tt)
      end
  end.

Definition RegisterStorageProvider (d : D) : D * result () := Provide StorageProviderNamespace d.

(** The loop over the channel, which stops at the limit. *)
Fixpoint collect (limit : Z) (ch providers : list AddrInfo) : list AddrInfo :=
  match ch with
  | [] => providers
  | p :: ch' =>
      let providers := providers ++ [p] in
      if decide (zlen providers >= limit) then providers else collect limit ch' providers
  end.

Definition FindProviders (id : list byte) (limit : Z) (d : D) : result (list AddrInfo) :=
  if decide (limit <= 0) then Err (New "provider limit must be greater than zero")
  else
    match contentIDToCID id with
    | Err e => Err (Wrap "failed to convert ContentID to CID" e)
    | Ok c => Ok (collect limit (FindProvidersAsync c limit d) [])
    end.

Definition FindStorageProviders (limit : Z) (d : D) : result (list AddrInfo) :=
  FindProviders StorageProviderNamespace limit d.

(** [manifests] is the outcome of [store.ListManifests]; failures are printed. *)
Definition republishAll (manifests : result (list (list byte))) (d : D) : D :=
  match manifests with
  | Err _ => d
  | Ok ids => foldl (λ d id, (Provide id d).1) d ids
  end.

(** The two background loops: one round at the start and one for every tick
    before the context is cancelled.  [lists] is what the store lists each time. *)
Definition StartRepublisher (lists : list (result (list (list byte)))) (d : D) : D :=
  foldl (λ d l, republishAll l d) d lists.
Definition StartStorageProviderHeartbeat (ticks : nat) (d : D) : D :=
  Nat.iter (S ticks) (λ d, (RegisterStorageProvider d).1) d.

(** ** dht.go *)

(** [connect] is [h.Connect]. *)
Fixpoint connect_seeds (self : string) (connect : AddrInfo → result ()) (seeds : list AddrInfo) (connected : Z) : Z :=
  match seeds with
  | [] => connected
  | seed :: seeds' =>
      if decide (ai_ID seed = self) then connect_seeds self connect seeds' connected
      else match connect seed with
           | Err _ => connect_seeds self connect seeds' connected
           | Ok _ => connect_seeds self connect seeds' (connected + 1)
           end
  end.

Definition Bootstrap (self : string) (connect : AddrInfo → result ()) (seeds : list AddrInfo) (d : D)
    : D * result () :=
  if decide (zlen seeds = 0) then (d, Err (New "no bootstrap seeds provided"))
  else if decide (connect_seeds self connect seeds 0 = 0) then
    (d, Err (New "failed to connect to any bootstrap seed"))
  else
    match dht_Bootstrap d with
    | (d', Err e) => (d', Err (Wrap "DHT bootstrap failed" e))
    | (d', Ok _) => (d', Ok tt)
    end.

(** ** stream.go *)

(** [NewMultiaddr] and [AddrInfoFromP2pAddr] are the parsers of libp2p. *)
Definition Connect {M : Type} (NewMultiaddr : string → result M) (AddrInfoFromP2pAddr : M → result AddrInfo)
    (connect : AddrInfo → result ()) (target : string) : result AddrInfo :=
  let! maddr := wrap "invalid multiaddress" (NewMultiaddr target) in
  let! addrInfo := wrap "failed to extract peer info" (AddrInfoFromP2pAddr maddr) in
  let! _ := wrap "h.Connect failed" (connect addrInfo) in
  Ok addrInfo.

Definition ConnectPeer (connect : AddrInfo → result ()) (addrInfo : AddrInfo) : result () :=
  wrap ("failed to connect to peer " +:+ ai_ID addrInfo) (connect addrInfo).

(** ** Choosing the peers: nodes/publisher/main.go, nodes/consumer/main.go *)

(** The peers of a comma-separated list, in order; [connect] is [t.Connect]. *)
Definition direct_peers (connect : string → result AddrInfo) (addrs : string) : list string :=
  omap (λ s, let s := TrimSpace s in
             if decide (s = ""%string) then None
             else match connect s with Ok a => Some (ai_ID a) | Err _ => None end)
       (Split addrs x2c).

(** One discovery attempt of the publisher: skip itself and known peers. *)
Definition add_discovered (self : string) (connect : AddrInfo → result ()) (targets : list string)
    (prov : AddrInfo) : list string :=
  if decide (ai_ID prov = self) then targets
  else if decide (ai_ID prov ∈ targets) then targets
  else match connect prov with Err _ => targets | Ok _ => targets ++ [ai_ID prov] end.

(** At most three attempts; [found] is what each of them finds. *)
Fixpoint discover_targets (self : string) (connect : AddrInfo → result ())
    (found : list (result (list AddrInfo))) (attempts : nat) (targets : list string) : list string :=
  match attempts, found with
  | S n, f :: found' =>
      let discovered := match f with Ok l => l | Err _ => [] end in
      let targets := foldl (add_discovered self connect) targets discovered in
      if decide (zlen targets > 0) then targets else discover_targets self connect found' n targets
  | _, _ => targets
  end.

(** [effectiveReplication]. *)
Definition effective_replication (replication : Z) (targets : list string) : Z :=
  if decide (replication > zlen targets) then zlen targets else replication.

(** ** Properties *)

Lemma collect_take limit ch providers :
  zlen providers < limit → collect limit ch providers = take (Z.to_nat limit) (providers ++ ch).
Proof.
  revert providers. induction ch as [|p ch IH]; intros providers Hl; simpl.
  - rewrite app_nil_r, take_ge; [done|]. unfold zlen in Hl. lia.
  - assert (Hz : zlen (providers ++ [p]) = zlen providers + 1) by (rewrite zlen_app; done).
    case_decide as Hc.
    + rewrite (cons_middle p providers ch), app_assoc, take_app_length'; [done|].
      unfold zlen in *. rewrite length_app in *. simpl in *. lia.
    + rewrite IH by lia. by rewrite <- app_assoc.
Qed.

(** A search returns the first peers of the channel, at most the limit. *)
Theorem FindProviders_prefix id limit d l :
  FindProviders id limit d = Ok l →
  ∃ c, contentIDToCID id = Ok c ∧ l = take (Z.to_nat limit) (FindProvidersAsync c limit d) ∧ zlen l <= limit.
Proof.
  unfold FindProviders. case_decide as Hl; [done|]. destruct (contentIDToCID id) as [c|]; [|done].
  intros [= <-]. exists c. rewrite collect_take by (unfold zlen; simpl; lia). split_and!; [done|done|].
  unfold zlen. rewrite length_take. lia.
Qed.

Lemma add_discovered_inv self connect targets prov :
  NoDup targets → self ∉ targets →
  NoDup (add_discovered self connect targets prov) ∧ self ∉ add_discovered self connect targets prov ∧
  (∀ t, t ∈ add_discovered self connect targets prov →
     t ∈ targets ∨ (t = ai_ID prov ∧ connect prov = Ok tt)).
Proof.
  intros Hn Hs. unfold add_discovered. case_decide as H1; [auto|]. case_decide as H2; [auto|].
  destruct (connect prov) as [[]|] eqn:Hc; [|auto]. split_and!.
  - by apply NoDup_snoc.
  - set_solver.
  - intros t. rewrite elem_of_app, list_elem_of_singleton. naive_solver.
Qed.

Lemma discover_round self connect targets discovered :
  NoDup targets → self ∉ targets →
  let out := foldl (add_discovered self connect) targets discovered in
  NoDup out ∧ self ∉ out ∧
  ∀ t, t ∈ out → t ∈ targets ∨ ∃ p, p ∈ discovered ∧ t = ai_ID p ∧ connect p = Ok tt.
Proof.
  revert targets. induction discovered as [|p ps IH]; intros targets Hn Hs; simpl; [auto|].
  destruct (add_discovered_inv self connect targets p Hn Hs) as (H1 & H2 & H3).
  destruct (IH _ H1 H2) as (H4 & H5 & H6). split_and!; [done|done|].
  intros t [Ht|(q & Hq & -> & ?)]%H6.
  - destruct (H3 _ Ht) as [|[-> Hc]]; [by left|right]. exists p. split_and!; [set_solver|done..].
  - right. exists q. split_and!; [set_solver|done..].
Qed.

(** Discovered targets are connected providers, each once, never the node
    itself; with a target the replication factor fits their number. *)
Theorem discover_targets_sound self connect found n r :
  let targets := discover_targets self connect found n [] in
  NoDup targets ∧ self ∉ targets ∧
  (∀ t, t ∈ targets → ∃ l p, Ok l ∈ found ∧ p ∈ l ∧ ai_ID p = t ∧ connect p = Ok tt) ∧
  (targets ≠ [] → 1 <= r → 1 <= effective_replication r targets <= zlen targets).
Proof.
  assert (H : ∀ n found targets, NoDup targets → self ∉ targets →
    let out := discover_targets self connect found n targets in
    NoDup out ∧ self ∉ out ∧
    ∀ t, t ∈ out → t ∈ targets ∨ ∃ l p, Ok l ∈ found ∧ p ∈ l ∧ ai_ID p = t ∧ connect p = Ok tt).
  { clear. intros n. induction n as [|n IH]; intros [|f found] targets Hn Hs;
      try (split; [done|split; [done|by left]]). cbn [discover_targets].
    set (ds := match f with Ok l => l | Err _ => [] end).
    destruct (discover_round self connect targets ds Hn Hs) as (H1 & H2 & H3).
    assert (Hds : ∀ p, p ∈ ds → ∃ l, f = Ok l ∧ p ∈ l) by (subst ds; destruct f; set_solver).
    cbv zeta. case_decide.
    - split_and!; [done|done|]. intros t [|(p & Hp & -> & Hc)]%H3; [by left|right].
      destruct (Hds p Hp) as (l & -> & Hl). exists l, p. split_and!; [set_solver|done..].
    - destruct (IH found _ H1 H2) as (H4 & H5 & H6). split_and!; [done|done|].
      intros t [Ht|(l & p & Hl & ?)]%H6; [|right; exists l, p; split; [set_solver|done]].
      destruct (H3 _ Ht) as [|(p & Hp & -> & Hc)]; [by left|right].
      destruct (Hds p Hp) as (l & -> & Hl). exists l, p. split_and!; [set_solver|done..]. }
  destruct (H n found [] (NoDup_nil_2) ltac:(set_solver)) as (H1 & H2 & H3). split_and!; [done|done| |].
  - intros t [|]%H3; [set_solver|done].
  - intros Hne Hr. unfold effective_replication.
    assert (0 < zlen (discover_targets self connect found n [])).
    { unfold zlen. destruct (discover_targets _ _ _ _ _); [done|]. simpl. lia. }
    case_decide; lia.
Qed.

(** Republishing goes on after a failure: every listed manifest is announced
    once, in order. *)
Lemma republishAll_app a b d :
  republishAll (Ok (a ++ b)) d = republishAll (Ok b) (republishAll (Ok a) d).
Proof. simpl. apply foldl_app. Qed.

Lemma connect_seeds_pos self connect seeds n :
  connect_seeds self connect seeds n ≠ n → ∃ x, x ∈ seeds ∧ ai_ID x ≠ self ∧ connect x = Ok tt.
Proof.
  revert n. induction seeds as [|x seeds IH]; intros n; simpl; [done|]. case_decide.
  - intros (y & Hy & H1)%IH. exists y. split; [set_solver|done].
  - destruct (connect x) as [[]|] eqn:E; intros Hc.
    + exists x. split; [set_solver|done].
    + destruct (IH _ Hc) as (y & Hy & H1). exists y. split; [set_solver|done].
Qed.

(** A bootstrap that succeeds has connected to a seed other than the node. *)
Theorem Bootstrap_Ok self connect seeds d d' :
  Bootstrap self connect seeds d = (d', Ok tt) →
  dht_Bootstrap d = (d', Ok tt) ∧ ∃ x, x ∈ seeds ∧ ai_ID x ≠ self ∧ connect x = Ok tt.
Proof.
  unfold Bootstrap. case_decide; [done|]. case_decide as Hc; [done|].
  destruct (dht_Bootstrap d) as [d1 [[]|]]; [|done]. intros [= <-]. split; [done|].
  by eapply connect_seeds_pos.
Qed.
End discovery.
