(* ===== verification/Retrieval.v ===== *)
(** * Publishing and retrieving a file

    What the programs do with the components: the publisher ingests a file and
    stores its manifest (nodes/publisher/main.go), the consumer and the peer
    find providers, resolve the manifest, download the chunks and reassemble
    the file (nodes/consumer/main.go, network/cmd/peer/main.go).

    [log.Fatalf] ends the program; it is an error here. *)

From S2P Require Import Prelude Sha256 Content ContentEngine Tickets ChunkProtocol Session ChunkSession Push Transfer Manager Paths Discovery.

Section retrieval.
Context {MC : ManifestCodec} {AE : AEAD} {SS : SliceSort}.

(** ** The publisher *)

(** [open] is the outcome of [os.Open]: the bytes the file delivers and the
    error it ends with, if any. *)
Definition ingest_content (pid : Z) (fault : Chunk → option (put_call * error)) (chunkSize : Z)
    (open : result (list byte * option error)) (rndID rndKey : result (list byte))
    (keys : LocalKeyProvider) (fs : FS) : option (LocalKeyProvider * FS * result Manifest) :=
  match open with
  | Err e => Some (keys, fs, Err (Wrap "Failed to open file for ingest" e))
  | Ok (data, rerr) =>
      '(keys, fs, r) ← Ingest (CS := FSChunkStore pid fault) chunkSize data rerr "file" rndID rndKey keys fs;
      Some match r with
           | Err e => (keys, fs, Err (Wrap "Failed to ingest file" e))
           | Ok m =>
               match PutManifestBytes (cd_ID (mf_Descriptor m)) (Serialize m) fs with
               | (fs, Err e) => (keys, fs, Err (Wrap "Failed to store manifest" e))
               | (fs, Ok _) => (keys, fs, Ok m)
               end
           end
  end.

(** [hex.DecodeString] of an identifier that must be 32 bytes long. *)
Definition decode32 (bad : string) (s : string) : result (list byte) :=
  match DecodeString s with
  | Some b => if decide (zlen b ≠ 32) then Err (New bad) else Ok b
  | None => Err (New bad)
  end.

(** [-challenge-cid]: the manifest of the local store, else one that a provider
    returns. *)
Definition audit_manifest (challengeCID : string) (answers : list (result (result (list byte)))) (fs : FS)
    : result Manifest :=
  let! cid := decode32 "Invalid -challenge-cid format (must be 32-byte hex)" challengeCID in
  let resolve := wrap ("Failed to resolve manifest for challenge-cid " +:+ EncodeToString cid)
                   (ResolveManifest answers) in
  match GetManifestBytes cid fs with
  | Ok mBytes => match Deserialize mBytes with Ok m => Ok m | Err _ => resolve end
  | Err _ => resolve
  end.

(** ** The consumer *)

Definition connect_providers (connect : AddrInfo → result ()) (providers : list AddrInfo) : list string :=
  omap (λ p, match ConnectPeer connect p with Ok _ => Some (ai_ID p) | Err _ => None end) providers.

Definition find_targets {D} `{!Dht D} (target : string) (dial : string → result AddrInfo)
    (connect : AddrInfo → result ()) (contentID : list byte) (limit : Z) (d : D) : result (list string) :=
  if decide (target ≠ ""%string) then
    match direct_peers dial target with
    | [] => Err (New "Fatal: Could not connect to any specified target providers")
    | ps => Ok ps
    end
  else
    let! providers := wrap "Provider discovery failed" (FindProviders contentID limit d) in
    match providers with
    | [] => Err (New ("No providers found for ContentID " +:+ EncodeToString contentID +:+ " on DHT"))
    | _ =>
        match connect_providers connect providers with
        | [] => Err (New "Found providers on DHT, but failed to establish data connection to any")
        | ps => Ok ps
        end
    end.

Definition install_key (contentID : list byte) (keyHex : string) (keys : LocalKeyProvider)
    : result LocalKeyProvider :=
  if decide (keyHex = ""%string) then Ok keys
  else let! key := decode32 "Invalid key format (must be 32-byte hex)" keyHex in
       Ok (key_Put contentID key keys).

Context `{!SessionManager SM} {TC : TicketCodec} {TG : Type}.
Context (ticketGenerator : option (list byte → TG → TG * result SignedTicket)).
Context (pid : Z) (fault : list byte → option (put_call * error)) (sends : list byte → Chunk → Prop).
Context (contentID : list byte) (peers : list string).

(** From the installed key to the file: [answers] is what the peers reply when
    asked for the manifest, [sends] which chunks they may send.  The outcome is
    the store and the bytes written to the output file. *)
Inductive consumer_run (answers : list (result (result (list byte)))) (keyHex : string)
    (keys : LocalKeyProvider) (sm : SM) (fs : FS) : FS → result (list byte) → Prop :=
| run_bad_key e :
    install_key contentID keyHex keys = Err e → consumer_run answers keyHex keys sm fs fs (Err e)
| run_unresolved keys' e :
    install_key contentID keyHex keys = Ok keys' → ResolveManifest answers = Err e →
    consumer_run answers keyHex keys sm fs fs (Err (Wrap "Failed to resolve manifest" e))
| run_failed keys' m sm' fs' e :
    install_key contentID keyHex keys = Ok keys' → ResolveManifest answers = Ok m →
    download_reaches ticketGenerator pid fault sends contentID (mf_ChunkIDs m) peers sm fs sm' fs'
      (Some (Err e)) →
    consumer_run answers keyHex keys sm fs fs' (Err (Wrap "Download failed" e))
| run_done keys' m sm' fs' :
    install_key contentID keyHex keys = Ok keys' → ResolveManifest answers = Ok m →
    download_reaches ticketGenerator pid fault sends contentID (mf_ChunkIDs m) peers sm fs sm' fs'
      (Some (Ok tt)) →
    consumer_run answers keyHex keys sm fs fs'
      (wrap "Reassembly failed" (Reassemble (CS := FSChunkStore pid (λ _, None)) m keys' fs')).
End retrieval.

(** The consumer starts only with peers it is connected to. *)
Lemma find_targets_connected {D} `{!Dht D} target dial connect contentID limit (d : D) ps :
  find_targets target dial connect contentID limit d = Ok ps →
  ps ≠ [] ∧ ∀ p, p ∈ ps →
    (∃ a info, dial a = Ok info ∧ ai_ID info = p) ∨ (∃ info, connect info = Ok tt ∧ ai_ID info = p).
Proof.
  unfold find_targets. case_decide.
  - destruct (direct_peers dial target) as [|p0 l] eqn:E; [done|]. intros [= <-]. split; [done|].
    intros p Hp. left. rewrite <- E in Hp. apply list_elem_of_omap in Hp as (a & _ & Ha). revert Ha. cbn zeta.
    case_decide; [done|]. destruct (dial (Paths.TrimSpace a)) as [info|] eqn:Ed; [|done]. intros [= <-]. eauto.
  - intros (provs & _ & Hf)%rbind_ok. destruct provs as [|x provs]; [done|].
    destruct (connect_providers _ _) as [|p0 l] eqn:E; [done|]. injection Hf as <-. split; [done|].
    intros p Hp. right. rewrite <- E in Hp. apply list_elem_of_omap in Hp as (info & _ & Hi).
    unfold ConnectPeer in Hi. destruct (connect info) as [[]|] eqn:Ec; [|done]. injection Hi as <-. eauto.
Qed.

(** ** Publish, then retrieve *)

Section roundtrip.
Context {MC : ManifestCodec} {AE : AEAD} {SS : SliceSort}.

(** Where the key for the consumer comes from: [DecodeString] undoes the
    printed key. *)
Lemma decode32_hex bad b : length b = 32%nat → decode32 bad (EncodeToString b) = Ok b.
Proof.
  intros H. unfold decode32. rewrite DecodeString_EncodeToString. rewrite decide_False; [done|].
  unfold zlen. lia.
Qed.

Lemma EncodeToString_nonempty b : length b = 32%nat → EncodeToString b ≠ ""%string.
Proof.
  intros H E. apply (f_equal DecodeString) in E. rewrite DecodeString_EncodeToString in E.
  injection E as ->. discriminate H.
Qed.
Lemma install_key_hex cid key keys :
  length key = 32%nat → install_key cid (EncodeToString key) keys = Ok (key_Put cid key keys).
Proof.
  intros H. unfold install_key. rewrite decide_False by by apply EncodeToString_nonempty. by rewrite decode32_hex.
Qed.

Lemma ingest_content_spec pid chunkSize data contentID key keys fs :
  0 < chunkSize <= 2 ^ 32 - 17 → zlen data < 2 ^ 32 * chunkSize → zlen data < 2 ^ 63 →
  length contentID = 32%nat → length key = 32%nat →
  ∃ fs' m cks,
    ingest_content pid (λ _, None) chunkSize (Ok (data, None)) (Ok contentID) (Ok key) keys fs =
      Some (key_Put contentID key keys, fs', Ok m) ∧
    ingested chunkSize key data cks m ∧ cd_ID (mf_Descriptor m) = contentID ∧ manifest_typed m ∧
    GetManifestBytes contentID fs' = Ok (Serialize m) ∧
    (NoDup (mf_ChunkIDs m) → Forall (λ c, GetChunk (stored_id key c) fs' = Ok (stored_chunk key c)) cks).
Proof.
  intros Hs H1 H2 Hc Hk.
  destruct (Ingest_spec (CS := FSChunkStore pid (λ _, None)) chunkSize data "file" contentID key keys fs)
    as (st & m & cks & Hi & Hg & Hid & _ & Hst); try done.
  { intros c s. by eexists. }
  exists (PutManifestBytes contentID (Serialize m) st).1, m, cks.
  split; [unfold ingest_content; rewrite Hi; cbn [mbind option_bind]; by rewrite Hid|].
  split; [done|]. split; [done|].
  assert (Ht : manifest_typed m).
  { split; [by rewrite Hid|]. rewrite (ig_ids _ _ _ _ _ Hg). apply Forall_fmap, Forall_forall. intros c _.
    apply length_sha256. }
  split; [done|]. split.
  - rewrite GetManifestBytes_Put. by rewrite decide_True.
  - intros Hnd. eapply Forall_impl; [by apply Hst|]. intros c E.
    by rewrite GetChunk_PutManifest by apply length_sha256.
Qed.

(** The stores of the providers and what their handlers answer from them:
    [Resolve_session] and [Download_session] (ChunkSession) show that a fetch
    from such a handler ends with exactly these answers. *)
Definition answered_by (contentID : list byte) (providers : list FS) (a : result (result (list byte))) : Prop :=
  ∀ d, a = Ok (Ok d) → ∃ prov, prov ∈ providers ∧ GetManifestBytes contentID prov = Ok d.
Definition sent_by (providers : list FS) (id : list byte) (c : Chunk) : Prop :=
  ∃ prov c0, prov ∈ providers ∧ GetChunk id prov = Ok c0 ∧ c = set_chunk_id id c0.

(** What [prov] holds of the file it holds as published. *)
Record replica (contentID : list byte) (m : Manifest) (pub prov : FS) : Prop := {
  rp_chunks : ∀ id c, id ∈ mf_ChunkIDs m → GetChunk id prov = Ok c → GetChunk id pub = Ok c;
  rp_manifest : ∀ d, GetManifestBytes contentID prov = Ok d → d = Serialize m;
}.

Context `{!SessionManager SM} {TC : TicketCodec} {TG : Type}.
Context (ticketGenerator : option (list byte → TG → TG * result SignedTicket)).

(** A manifest the providers return is the published one. *)
Lemma resolved_published contentID m pub providers answers m' :
  manifest_typed m → Forall (replica contentID m pub) providers →
  Forall (answered_by contentID providers) answers → ResolveManifest answers = Ok m' → m' = m.
Proof.
  intros Ht Hrep Hans (pre & d & post & -> & Hd & _)%resolve_loop_first. apply Forall_app in Hans as [_ Hans].
  apply Forall_cons in Hans as [Ha _]. destruct (Ha d eq_refl) as (prov & Hp & Hgm).
  pose proof (rp_manifest _ _ _ _ (proj1 (Forall_forall _ _) Hrep _ Hp) d Hgm) as ->.
  rewrite Deserialize_Serialize in Hd by done. by injection Hd.
Qed.

(** After a download that reports success, reassembly gives the file. *)
Lemma reassembled_file {size} pid' fault contentID key data cks m pub providers peers keys sm fs sm' fs' :
  length contentID = 32%nat → cd_ID (mf_Descriptor m) = contentID → manifest_typed m → NoDup (mf_ChunkIDs m) →
  ingested size key data cks m → Forall (λ c, GetChunk (stored_id key c) pub = Ok (stored_chunk key c)) cks → length key = 32%nat →
  Forall (replica contentID m pub) (fs :: providers) →
  store_valid fs → store_whole fs → honest_store contentID (mf_ChunkIDs m) fs sm →
  download_reaches ticketGenerator pid' fault (sent_by providers) contentID (mf_ChunkIDs m) peers sm fs sm' fs'
    (Some (Ok tt)) →
  Reassemble (CS := FSChunkStore pid' (λ _, None)) m (key_Put contentID key keys) fs' = Ok data.
Proof.
  intros Hc Hid Ht Hnd Hg Hst Hk [Hfs Hrep]%Forall_cons Hv Hw Hh Hd.
  destruct (download_outcome _ _ _ _ _ _ _ Hc (mt_chunks _ Ht) Hnd _ _ _ _ _ Hv Hw Hh Hd) as (_ & _ & Hfrom & Hall).
  rewrite (Reassemble_stored (CS := FSChunkStore pid' (λ _, None)) (size := size) m _ key data cks fs'); [done|done| |done|].
  { rewrite Hid. unfold key_Get, key_Put. by rewrite lookup_insert_eq. }
  apply Forall_forall. intros c Hin. cbn [cs_get FSChunkStore].
  assert (Hmem : stored_id key c ∈ mf_ChunkIDs m)
    by (rewrite (ig_ids _ _ _ _ _ Hg); by apply list_elem_of_fmap_2).
  pose proof (proj1 (Forall_forall _ _) Hst c Hin) as Hpub.
  destruct (Hall eq_refl _ Hmem) as (c' & Hc' & _). rewrite Hc'. f_equal.
  destruct (Hfrom _ c' (length_sha256 _) Hc') as [Hold|(prov & c0 & Hp & Hc0 & ->)].
  - apply (rp_chunks _ _ _ _ Hfs _ _ Hmem) in Hold. congruence.
  - apply (rp_chunks _ _ _ _ (proj1 (Forall_forall _ _) Hrep _ Hp) _ _ Hmem) in Hc0.
    rewrite Hpub in Hc0. by injection Hc0 as <-.
Qed.

(** A published file can be retrieved: ingesting it with a working store
    succeeds; and a consumer that is given the content identifier and the
    printed key, from providers that hold what was published, however their
    downloads interleave, fail or resume, ends with exactly the bytes of the
    file, unless no provider answers for the manifest or the download itself
    reports failure. *)
Theorem publish_retrieve pid pid' fault chunkSize data contentID key keysA fsA peers :
  0 < chunkSize <= 2 ^ 32 - 17 → zlen data < 2 ^ 32 * chunkSize → zlen data < 2 ^ 63 →
  length contentID = 32%nat → length key = 32%nat →
  ∃ pub m,
    ingest_content pid (λ _, None) chunkSize (Ok (data, None)) (Ok contentID) (Ok key) keysA fsA =
      Some (key_Put contentID key keysA, pub, Ok m) ∧
    (NoDup (mf_ChunkIDs m) →
     ∀ providers answers keys sm fs fs' r,
       Forall (replica contentID m pub) (fs :: providers) → Forall (answered_by contentID providers) answers →
       store_valid fs → store_whole fs → honest_store contentID (mf_ChunkIDs m) fs sm →
       consumer_run ticketGenerator pid' fault (sent_by providers) contentID peers answers
         (EncodeToString key) keys sm fs fs' r →
       r = Ok data ∨
       (∃ e, ResolveManifest answers = Err e ∧ r = Err (Wrap "Failed to resolve manifest" e)) ∨
       (∃ e, r = Err (Wrap "Download failed" e))).
Proof.
  intros Hs H1 H2 Hc Hk.
  destruct (ingest_content_spec pid chunkSize data contentID key keysA fsA)
    as (pub & m & cks & Hi & Hg & Hid & Ht & Hm & Hst); try done.
  exists pub, m. split; [exact Hi|]. intros Hnd providers answers keys sm fs fs' r Hrep Hans Hv Hw Hh Hrun.
  pose proof Hrep as [_ Hps]%Forall_cons.
  destruct Hrun as [e Hin|keys' e Hin Hrm|keys' m' sm' fs' e Hin Hrm Hd|keys' m' sm' fs' Hin Hrm Hd];
    rewrite install_key_hex in Hin by done; [done|by right; left; eexists|by right; right; eexists|].
  injection Hin as <-. apply (resolved_published _ _ _ _ _ _ Ht Hps Hans) in Hrm as ->. left.
  by erewrite reassembled_file; eauto.
Qed.
End roundtrip.

(** A peer can send a chunk under any number: [FetchChunk] checks the hash of
    the data only.  With [order_unprotected] this lets a single provider change
    the order of the pieces of a file the consumer writes. *)
Lemma FetchChunk_any_index {TC : TicketCodec} id c i :
  header_typed (ck_Header c) → is_u32 i → sha256 (ck_Data c) = id → hd_ID (ck_Header c) = id →
  may_return (FetchChunk (TG := ()) None id tt) (tt, Ok (set_index i c)).
Proof.
  intros [] Hi Hh Hid.
  eapply (mr_send _ _ (Ok tt)), (mr_recv _ (Ok (BuildChunk (set_index i c)))).
  unfold fetch_response. cbn [BuildChunk message m_Payload m_Type].
  rewrite decide_False by done. rewrite decide_False by (intros H; by apply H).
  rewrite ParseChunk_Build by (by split). rewrite decide_False by (intros H; by apply H).
  replace (set_chunk_id id (set_index i c)) with (set_index i c) by (unfold set_chunk_id; cbn; by rewrite <- Hid).
  eapply (mr_send _ _ (Ok tt)), mr_ret.
Qed.

(** ** Witnesses *)

#[local] Existing Instance ToySessionCodec.
Definition wr_data : list byte := bytes_of "hello".
Definition wr_id : list byte := replicate 32 x01.

(** A file of one chunk, downloaded from the store it was published in. *)
Lemma one_chunk_downloaded {AE : AEAD} {size} contentID key data cks m pub :
  ingested size key data cks m → length (mf_ChunkIDs m) = 1%nat → length key = 32%nat → zlen data < 1000 →
  (NoDup (mf_ChunkIDs m) → Forall (λ c, GetChunk (stored_id key c) pub = Ok (stored_chunk key c)) cks) →
  NoDup (mf_ChunkIDs m) ∧ ∃ dir fs',
    download_reaches (SM := FS) (TC := OneTicketCodec) (TG := ()) None 1 (λ _, None) (sent_by [pub]) contentID
      (mf_ChunkIDs m) ["p"] ∅ ∅ dir fs' (Some (Ok tt)).
Proof.
  intros Hg Hl Hk Hsz Hst. rewrite (ig_ids _ _ _ _ _ Hg), length_fmap in Hl. destruct cks as [|c [|]]; try discriminate Hl.
  pose proof (ig_ids _ _ _ _ _ Hg) as Hids. cbn [fmap list_fmap] in Hids.
  assert (Hnd : NoDup (mf_ChunkIDs m)) by (rewrite Hids; apply NoDup_singleton). split; [done|].
  apply Forall_singleton in Hst; [|exact Hnd].
  assert (Hd : ck_Data c = data).
  { destruct Hg as [Hp _]. apply pieces_concat in Hp. cbn [fmap list_fmap concat] in Hp.
    rewrite app_nil_r in Hp. exact Hp. }
  rewrite Hids. eapply (one_download contentID pub (stored_id key c) (stored_chunk key c)).
  - apply length_sha256.
  - split; [exact Hst|reflexivity|reflexivity|]. unfold stored_chunk. cbn [ck_Data]. unfold sealed. rewrite Hd.
    unfold zlen. rewrite aead_length by (done || apply generateNonce_length). unfold zlen in Hsz.
    unfold headerSize, MaxMessagePayloadSize, MaxFrameSize. lia.
  - exists pub, (stored_chunk key c). split; [by left|]. split; [exact Hst|reflexivity].
Qed.

Lemma publish_retrieve_witness :
  ∃ pub m fs', ingest_content 1 (λ _, None) 16 (Ok (wr_data, None)) (Ok wr_id) (Ok wit_key) ∅ ∅ =
      Some (key_Put wr_id wit_key ∅, pub, Ok m) ∧
    consumer_run (SM := FS) (TC := OneTicketCodec) (TG := ()) None 1 (λ _, None) (sent_by [pub]) wr_id ["p"]
      [Ok (Ok (Serialize m))] (EncodeToString wit_key) ∅ ∅ ∅ fs' (Ok wr_data).
Proof.
  destruct (publish_retrieve (SM := FS) (TC := OneTicketCodec) (TG := ()) None 1 1 (λ _, None) 16 wr_data wr_id
    wit_key ∅ ∅ ["p"%string]) as (pub & m & Hi & Hrun);
    [lia|reflexivity|reflexivity|reflexivity|reflexivity|].
  destruct (ingest_content_spec 1 16 wr_data wr_id wit_key ∅ ∅) as (pub' & m' & cks & Hi' & Hg & Hid & Ht & Hm & Hst);
    [lia|reflexivity|reflexivity|reflexivity|reflexivity|].
  rewrite Hi in Hi'. injection Hi' as <- <-.
  assert (Hl : length (mf_ChunkIDs m) = 1%nat).
  { assert (Hv : match ingest_content 1 (λ _, None) 16 (Ok (wr_data, None)) (Ok wr_id) (Ok wit_key) ∅ ∅ with
                 | Some (_, _, Ok m) => length (mf_ChunkIDs m) | _ => 0%nat end = 1%nat)
      by (vm_compute; reflexivity).
    rewrite Hi in Hv. exact Hv. }
  destruct (one_chunk_downloaded wr_id wit_key wr_data cks m pub Hg Hl) as (Hnd & dir & fs' & Hdl);
    [reflexivity|reflexivity|exact Hst|].
  assert (Hres : ResolveManifest [Ok (Ok (Serialize m))] = Ok m).
  { unfold ResolveManifest. cbn [resolve_loop resolve_one]. by rewrite (Deserialize_Serialize _ Ht). }
  pose proof (run_done (SM := FS) (TC := OneTicketCodec) (TG := ()) None 1 (λ _, None) (sent_by [pub]) wr_id
    ["p"%string] [Ok (Ok (Serialize m))] (EncodeToString wit_key) ∅ ∅ ∅ _ m dir fs'
    (install_key_hex wr_id wit_key ∅ eq_refl) Hres Hdl) as Hr.
  exists pub, m, fs'. split; [exact Hi|].
  assert (Hrep : Forall (replica wr_id m pub) [∅; pub]).
  { apply Forall_cons. split; [by split|]. apply Forall_singleton. split; [done|].
    intros d Hgm. rewrite Hm in Hgm. by injection Hgm as <-. }
  assert (Hans : Forall (answered_by wr_id [pub]) [Ok (Ok (Serialize m))]).
  { apply Forall_singleton. intros d [= <-]. exists pub. split; [by left|exact Hm]. }
  assert (Hw : store_whole ∅) by (intros id _ H; discriminate H).
  assert (Hh : honest_store (SM := FS) wr_id (mf_ChunkIDs m) ∅ ∅) by (intros sess H; discriminate H).
  destruct (Hrun Hnd [pub] _ _ _ _ _ _ Hrep Hans empty_store_valid Hw Hh Hr) as [E|[(e & E & _)|(e & E)]].
  - rewrite E in Hr. exact Hr.
  - rewrite Hres in E. discriminate E.
  - destruct (Reassemble _ _ _) in E; discriminate E.
Defined.
