(* ===== verification/Nodes.v ===== *)
(** * The node programs

    The logic of the three mains: the audit and payment loop of
    nodes/publisher/main.go, the startup registration and the ticket handler
    of nodes/provider/main.go, the ticket generator of nodes/consumer/main.go
    and the payment client of network/payments/client.go it signs with.
    Flags, logging and the start of hosts are left out; peer selection is in
    Discovery.

    The network a publisher audits is a pair of calls on a state [W]: send a
    challenge, send a voucher. *)

From S2P Require Import Prelude Sha256 Crypto AvailTypes Verification Merkle Content ProofEngine Bindings Payment Tickets Distribution ChunkProtocol Session AvailWire Bridge EscrowContract EthEscrow Paths Discovery Identity.

(** ** The publisher's audit loop *)

(** [client.ChallengeProvider] and [client.SendPaymentVoucher]. *)
Record net (W : Type) := {
  nt_challenge : PeerID → Challenge → W → W * result ChallengeResponse;
  nt_voucher : PeerID → PaymentState → W → W * result ();
}.
Arguments nt_challenge {W}. Arguments nt_voucher {W}.

(** 0.025 ETH in wei. *)
Definition challenge_price : Z := 25000000000000000.
Definition cumulative_pay (round : Z) : Z := u64 (u64 round * challenge_price).

(** The index of the chunk to ask for: the target's chunks in turn. *)
Definition chunk_index (m : Manifest) (plan : PlacementPlan) (target : PeerID) (round : Z) : Z :=
  match default [] (pl_ProviderChunks plan !! target) with
  | [] => 0
  | assigned =>
      match assigned !! Z.to_nat ((round - 1) mod zlen assigned) with
      | None => 0
      | Some id => match list_find (λ c, c = id) (mf_ChunkIDs m) with Some (i, _) => Z.of_nat i | None => 0 end
      end
  end.

Definition audit_challenge (m : Manifest) (plan : PlacementPlan) (target : PeerID) (round now : Z) : Challenge :=
  {| ch_ChallengeID := "challenge-pub-round-" +:+ format_int round +:+ "-" +:+ slice 0 8 target;
     ch_ContractID := "avail-pub-contract"; ch_ProviderID := target;
     ch_FileID := EncodeToString (cd_ID (mf_Descriptor m)); ch_EpochID := "";
     ch_ChunkID := chunk_index m plan target round;
     ch_Nonce := bytes_of ("pub-entropy-nonce-r" +:+ format_int round +:+ "-" +:+ format_int (UnixNano now));
     ch_ChallengeCounter := 0; ch_RoundNumber := 0; ch_TriggerStatus := false; ch_CreatedAt := now |}.

Definition audit_voucher (self target : PeerID) (challenge : Challenge) (round now : Z) : PaymentState :=
  {| ps_ContractID := "avail-pub-contract"; ps_Publisher := self; ps_Provider := target;
     ps_Sequence := u64 round; ps_Period := u64 round; ps_CumulativePayment := cumulative_pay round;
     ps_LastChallengeID := ch_ChallengeID challenge; ps_ValidUntil := u64 (Unix (now + 24 * Hour));
     ps_Status := AvailabilityPass; ps_PublisherSignature := bytes_of "publisher-signed-voucher-state" |}.

(** What the loop has done: for each target and round whose proof verified,
    the voucher and whether it was delivered. *)
Record audit_event := {
  ev_target : PeerID;
  ev_round : Z;
  ev_challenge : Challenge;
  ev_response : ChallengeResponse;
  ev_voucher : PaymentState;
  ev_sent : result ();
}.

Section audit.
Context {W : Type} (nt : net W) (self : PeerID) (m : Manifest) (plan : PlacementPlan) (root : list byte)
  (clock : Z → PeerID → Z).

Definition audit_one (round : Z) (s : W * list audit_event) (target : PeerID) : W * list audit_event :=
  let '(w, log) := s in
  let now := clock round target in
  let challenge := audit_challenge m plan target round now in
  match nt_challenge nt target challenge w with
  | (w', Err _) => (w', log)
  | (w', Ok resp) =>
      if VerifyMerkleProof (rs_ChunkHash resp) (ch_ChunkID challenge) (rs_MerkleProof resp) root then
        let voucher := audit_voucher self target challenge round now in
        let '(w'', sent) := nt_voucher nt target voucher w' in
        (w'', log ++ [{| ev_target := target; ev_round := round; ev_challenge := challenge;
                         ev_response := resp; ev_voucher := voucher; ev_sent := sent |}])
      else (w', log)
  end.

Definition audit_round (targets : list PeerID) (s : W * list audit_event) (round : Z) : W * list audit_event :=
  foldl (audit_one round) s targets.

(** Rounds [1] to [n]: the whole loop with [-challenge-rounds n], the first [n]
    rounds with [-challenge-loop]. *)
Definition audit (targets : list PeerID) (n : nat) (w : W) : W * list audit_event :=
  foldl (audit_round targets) (w, []) (seqZ 1 (Z.of_nat n)).
End audit.

(** The whole challenge phase: the publisher builds the tree of the manifest's
    chunk identifiers, and audits when that succeeds. *)
Definition challenge_phase {W} (nt : net W) (self : PeerID) (m : Manifest) (plan : PlacementPlan)
    (clock : Z → PeerID → Z) (targets : list PeerID) (n : nat) (w : W) : W * list audit_event :=
  match NewMerkleTree (map copy32 (mf_ChunkIDs m)) with
  | Err _ => (w, [])
  | Ok tree => audit nt self m plan (Root tree) clock targets n w
  end.

(** ** The provider's startup *)

Section provider.
Context {ED : Ed25519} {MC : ManifestCodec}.

Definition register_manifest (fs : FS) (e : ProviderProofEngine) (mid : list byte) : ProviderProofEngine :=
  match GetManifestBytes mid fs with
  | Err _ => e
  | Ok mData =>
      match Deserialize mData with
      | Err _ => e
      | Ok m =>
          let rawChunks := omap (λ cid, match GetChunk cid fs with
                                         | Ok ch => Some (ck_Data ch) | Err _ => None end) (mf_ChunkIDs m) in
          if decide (zlen rawChunks > 0) then
            (RegisterFileChunks (EncodeToString (cd_ID (mf_Descriptor m))) rawChunks e).1
          else e
      end
  end.

(** [rawPriv] is the outcome of [priv.Raw()], [seed_key] is [ed25519.NewKeyFromSeed]. *)
Definition start_engine (seed_key : list byte → list byte) (self : PeerID) (rawPriv : result (list byte)) (fs : FS)
    : option ProviderProofEngine :=
  match rawPriv with
  | Err _ => None
  | Ok raw =>
      let edPriv := if decide (zlen raw = 64) then raw else if decide (zlen raw = 32) then seed_key raw else [] in
      if decide (zlen edPriv = PrivateKeySize) then
        match NewProviderProofEngine self edPriv (Some (FSManifestStore fs)) with
        | Err _ => None
        | Ok e => Some (foldl (register_manifest fs) e (ListManifests fs))
        end
      else None
  end.
End provider.

(** ** The provider's ticket handler *)

(** [None] is a nil dereference while hashing the ticket. *)
Definition handle_ticket {GE : GoEthereum} (verifierSigner : TicketSigner) (ticket : SignedTicket)
    (storedTickets : list SignedTicket) : option (list SignedTicket * result ()) :=
  valid ← Verify verifierSigner (st_Ticket ticket) (st_Signature ticket) (rt_Sender (st_Ticket ticket));
  Some (if valid : bool then (storedTickets ++ [ticket], Ok tt)
        else (storedTickets, Err (New "invalid ticket signature"))).

(** ** The consumer's tickets *)

(** [chunkIdxMap[cid] = idx] over the manifest: the last index of a chunk. *)
Definition chunk_index_map (m : Manifest) : gmap ChunkID Z :=
  foldl (λ acc ic, <[ic.2 := Z.of_nat ic.1]> acc) ∅ (imap pair (mf_ChunkIDs m)).

(** [sig[i] ^= 0xFF] for every byte. *)
Definition flip_all (sig : list byte) : list byte :=
  (λ b, byte_of_Z (Z.lxor (byte_to_Z b) 255)) <$> sig.

Record ticket_terms := {
  tm_recipient : list byte;
  tm_roundID : Z;
  tm_faceValue : Z;
}.

Definition chunk_ticket (sender : list byte) (terms : ticket_terms) (idx : Z) : RoundTicket :=
  {| rt_Sender := sender; rt_Recipient := tm_recipient terms; rt_RoundID := Some (tm_roundID terms);
     rt_LocalIndex := Some idx; rt_FaceValue := Some (tm_faceValue terms);
     rt_WinProb := Some 100000000000000000; rt_SenderNonce := Some 12345 |}.

Definition generate_ticket {GE : GoEthereum} (signer : TicketSigner) (terms : ticket_terms)
    (idxs : gmap ChunkID Z) (simulateCheat : bool) (chunkID : ChunkID) : option (result SignedTicket) :=
  match idxs !! chunkID with
  | None => Some (Err (New "chunk not in manifest"))
  | Some idx =>
      let ticket := chunk_ticket (ts_Address signer) terms idx in
      r ← SignTicket signer ticket;
      Some match r with
           | Err e => Err (Wrap "failed to sign ticket for chunk index" e)
           | Ok sig => Ok {| st_Ticket := ticket;
                             st_Signature := if simulateCheat then flip_all sig else sig |}
           end
  end.

(** ** What an audit does *)

(** Every voucher of an audit follows a verified proof: it was sent in one of
    the rounds to one of the targets, after that target's answer to that
    round's challenge led to the publisher's root.  Its amount is the round
    number times the price in 64 bits, whatever happened in the rounds before. *)
Theorem audit_sound {W} (nt : net W) self m plan root clock targets n w ev :
  ev ∈ (audit nt self m plan root clock targets n w).2 →
  1 <= ev_round ev <= Z.of_nat n ∧ ev_target ev ∈ targets ∧
  let now := clock (ev_round ev) (ev_target ev) in
  ev_challenge ev = audit_challenge m plan (ev_target ev) (ev_round ev) now ∧
  VerifyMerkleProof (rs_ChunkHash (ev_response ev)) (ch_ChunkID (ev_challenge ev))
    (rs_MerkleProof (ev_response ev)) root = true ∧
  ev_voucher ev = audit_voucher self (ev_target ev) (ev_challenge ev) (ev_round ev) now ∧
  ps_CumulativePayment (ev_voucher ev) = cumulative_pay (ev_round ev).
Proof.
  set (good ev := ev_challenge ev = audit_challenge m plan (ev_target ev) (ev_round ev)
      (clock (ev_round ev) (ev_target ev)) ∧
    VerifyMerkleProof (rs_ChunkHash (ev_response ev)) (ch_ChunkID (ev_challenge ev))
      (rs_MerkleProof (ev_response ev)) root = true ∧
    ev_voucher ev = audit_voucher self (ev_target ev) (ev_challenge ev) (ev_round ev)
      (clock (ev_round ev) (ev_target ev))).
  assert (H1 : ∀ r s u ev, ev ∈ (audit_one nt self m plan root clock r s u).2 →
    ev ∈ s.2 ∨ (ev_round ev = r ∧ ev_target ev = u ∧ good ev)).
  { intros r [w0 log] u e. unfold audit_one. destruct (nt_challenge _ _ _ _) as [w1 [resp|e1]]; [|by left].
    destruct (VerifyMerkleProof _ _ _ _) eqn:Hv; [|by left]. destruct (nt_voucher _ _ _ _) as [w2 sent]. simpl.
    rewrite elem_of_app, list_elem_of_singleton. intros [| ->]; [by left|right]. done. }
  assert (H2 : ∀ r us s ev, ev ∈ (audit_round nt self m plan root clock us s r).2 →
    ev ∈ s.2 ∨ (ev_round ev = r ∧ ev_target ev ∈ us ∧ good ev)).
  { intros r us. unfold audit_round. induction us as [|u us IH]; intros s e; simpl; [by left|].
    intros [ [|(? & -> & ?)]%H1|(? & ? & ?)]%IH; [by left|right|right]; set_solver. }
  assert (H3 : ∀ rs s ev, ev ∈ (foldl (audit_round nt self m plan root clock targets) s rs).2 →
    ev ∈ s.2 ∨ (ev_round ev ∈ rs ∧ ev_target ev ∈ targets ∧ good ev)).
  { intros rs. induction rs as [|r rs IH]; intros s e; simpl; [by left|].
    intros [ [|(<- & ? & ?)]%H2|(? & ? & ?)]%IH; [by left|right|right]; set_solver. }
  intros [|(Hr & Ht & Hc & Hv & Hvo)]%H3; [set_solver|]. apply elem_of_seqZ in Hr. split; [lia|].
  split; [done|]. cbv zeta. split_and!; try done. by rewrite Hvo.
Qed.

(** *** Honest providers are paid *)

Section honest.
Context {ED : Ed25519} {MC : ManifestCodec} (self : PeerID) (m : Manifest) (plan : PlacementPlan)
  (clock : Z → PeerID → Z) (t : PeerID) (tree : MerkleTree).
Hypothesis Htree : NewMerkleTree (mf_ChunkIDs m) = Ok tree.

Definition voucher_of (r : Z) : PaymentState :=
  audit_voucher self t (audit_challenge m plan t r (clock r t)) r (clock r t).
Definition holds_tree (h : AvailabilityStreamHandler ()) : Prop :=
  provider_tree (ah_proofEngine h) (EncodeToString (cd_ID (mf_Descriptor m))) = Some tree.

(** What anyone's calls may do to a handler: its trees stay, its vouchers only
    grow. *)
Definition evolves (h h' : AvailabilityStreamHandler ()) : Prop :=
  (holds_tree h → holds_tree h') ∧ ∃ more, ah_vouchers h' = ah_vouchers h ++ more.

Definition add_voucher (v : PaymentState) (h : AvailabilityStreamHandler ()) : AvailabilityStreamHandler () :=
  {| ah_proofEngine := ah_proofEngine h; ah_vouchers := ah_vouchers h ++ [v]; ah_seen := ah_seen h |}.

(** In the network [nt] the target [t], whose handler is [peer w], is honest and
    reachable: its calls end as [AvailWire.challenge_session] and
    [voucher_delivered] show for the stream handler, at some time, with other
    calls to the handler before and after.  Nothing is said of the answers of
    the other peers, and what they do meanwhile may reach the handler too. *)
Record honest_peer {W} (nt : net W) (peer : W → AvailabilityStreamHandler ()) : Prop := {
  hp_challenge ch w w' r : nt_challenge nt t ch w = (w', r) →
    ∃ h now e', evolves (peer w) h ∧ HandleChallenge ch now (ah_proofEngine h) = (e', r) ∧
                evolves (set_engine e' h) (peer w');
  hp_voucher v w w' r : nt_voucher nt t v w = (w', r) →
    r = Ok tt ∧ ∃ h, evolves (peer w) h ∧ evolves (add_voucher v h) (peer w');
  hp_others u : u ≠ t →
    (∀ ch w, evolves (peer w) (peer (nt_challenge nt u ch w).1)) ∧
    (∀ v w, evolves (peer w) (peer (nt_voucher nt u v w).1));
}.

#[global] Instance evolves_po : PreOrder evolves.
Proof.
  split; [intros h; split; [done|exists []; by rewrite app_nil_r]|].
  intros x y z [H1 [a Ha]] [H2 [b Hb]]. split; [auto|]. exists (a ++ b). by rewrite Hb, Ha, app_assoc.
Qed.

Lemma chunk_index_range r : 0 <= chunk_index m plan t r < zlen (mf_ChunkIDs m).
Proof using Htree.
  destruct (NewMerkleTree_Ok_inv _ _ Htree) as (Hne & _).
  assert (0 < zlen (mf_ChunkIDs m)) by (unfold zlen; destruct (mf_ChunkIDs m); [done|simpl; lia]).
  unfold chunk_index. destruct (default [] _) as [|c cs]; [lia|]. destruct (_ !! _) as [id|]; [|lia].
  destruct (list_find _ _) as [[i c']|] eqn:E; [|lia]. apply list_find_Some in E as (Hi & _).
  apply lookup_lt_Some in Hi. unfold zlen. lia.
Qed.

(** A handler that holds the tree answers the challenge, and the proof verifies. *)
Lemma HandleChallenge_verifies r now h e' res :
  holds_tree h → HandleChallenge (audit_challenge m plan t r (clock r t)) now (ah_proofEngine h) = (e', res) →
  holds_tree (set_engine e' h) ∧ ∃ resp, res = Ok resp ∧
    VerifyMerkleProof (rs_ChunkHash resp) (chunk_index m plan t r) (rs_MerkleProof resp) (Root tree) = true.
Proof using Htree.
  intros Hh HE. pose proof (chunk_index_range r) as Hr.
  destruct (lookup_lt_is_Some_2 (mf_ChunkIDs m) (Z.to_nat (chunk_index m plan t r))) as [hash Hhash];
    [unfold zlen in Hr; lia|].
  destruct (generateResponse_spec (audit_challenge m plan t r (clock r t)) false false now (ah_proofEngine h)
    (mf_ChunkIDs m) tree (Z.to_nat (chunk_index m plan t r)) hash) as (e1 & proof & Hp & Hg);
    [done|done|done|simpl; lia|done|].
  destruct (GenerateProof_complete _ _ _ _ Htree Hhash) as (proof' & Hp' & Hv & _).
  rewrite Hp in Hp'. injection Hp' as <-. unfold HandleChallenge in HE. rewrite Hg in HE. injection HE as <- <-. split.
  - unfold holds_tree in *. simpl. by rewrite (generateResponse_trees _ _ _ _ _ _ _ _ Hg).
  - eexists. split; [done|]. cbn [rs_ChunkHash rs_MerkleProof]. rewrite Z2Nat.id in Hv by lia. exact Hv.
Qed.

Context {W : Type} (nt : net W) (peer : W → AvailabilityStreamHandler ()) (Hhonest : honest_peer nt peer).

(** The events of the audit that concern the target. *)
Definition of_target (log : list audit_event) : list audit_event := filter (λ e, ev_target e = t) log.
(** The rounds [rs] were paid, with a voucher each, delivered. *)
Definition paid_rounds (rs : list Z) (log : list audit_event) : Prop :=
  Forall2 (λ r e, ev_round e = r ∧ ev_voucher e = voucher_of r ∧ ev_sent e = Ok tt) rs (of_target log).

Lemma audit_one_honest r w log :
  holds_tree (peer w) →
  let s' := audit_one nt self m plan (Root tree) clock r (w, log) t in
  holds_tree (peer s'.1) ∧
  (∃ pre post, ah_vouchers (peer s'.1) = ah_vouchers (peer w) ++ pre ++ [voucher_of r] ++ post) ∧
  ∃ e, s'.2 = log ++ [e] ∧ ev_target e = t ∧ ev_round e = r ∧ ev_voucher e = voucher_of r ∧ ev_sent e = Ok tt.
Proof using Hhonest Htree.
  intros Hh. unfold audit_one. destruct (nt_challenge _ _ _ _) as [w1 res] eqn:E1.
  apply (hp_challenge _ _ Hhonest) in E1 as (h & now & e' & [Hev [p1 H1]] & HE & [Hev2 [p2 H2]]).
  destruct (HandleChallenge_verifies r now h e' res (Hev Hh) HE) as (Hset & resp & -> & Hv).
  change (ch_ChunkID (audit_challenge m plan t r (clock r t))) with (chunk_index m plan t r). rewrite Hv.
  destruct (nt_voucher _ _ _ _) as [w2 sent] eqn:E2.
  apply (hp_voucher _ _ Hhonest) in E2 as (-> & h2 & [Hev3 [p3 H3]] & [Hev4 [p4 H4]]). cbn [fst snd].
  split; [apply Hev4, Hev3, Hev2, Hset|]. split.
  - exists (p1 ++ p2 ++ p3), p4. rewrite H4. cbn [ah_vouchers add_voucher]. rewrite H3, H2. cbn [set_engine ah_vouchers].
    rewrite H1. by rewrite <- !app_assoc.
  - eexists. split; [done|]. done.
Qed.

(** The other targets cost it nothing. *)
Lemma audit_one_other r s u :
  u ≠ t → let s' := audit_one nt self m plan (Root tree) clock r s u in
  evolves (peer s.1) (peer s'.1) ∧ of_target s'.2 = of_target s.2.
Proof using Hhonest.
  intros Hu. destruct s as [w log]. destruct (hp_others _ _ Hhonest u Hu) as [Hc Hv]. unfold audit_one.
  specialize (Hc (audit_challenge m plan u r (clock r u)) w).
  destruct (nt_challenge _ _ _ _) as [w1 [resp|]]; cbn [fst] in Hc; [|by split].
  destruct (VerifyMerkleProof _ _ _ _); [|by split].
  specialize (Hv (audit_voucher self u (audit_challenge m plan u r (clock r u)) r (clock r u)) w1).
  destruct (nt_voucher _ _ _ _) as [w2 sent]. cbn [fst snd] in *. split; [by transitivity (peer w1)|].
  unfold of_target. rewrite filter_app, filter_cons_False by done. by rewrite filter_nil, app_nil_r.
Qed.

Lemma audit_round_honest targets r s :
  NoDup targets → t ∈ targets → holds_tree (peer s.1) →
  let s' := audit_round nt self m plan (Root tree) clock targets s r in
  holds_tree (peer s'.1) ∧
  (∃ pre post, ah_vouchers (peer s'.1) = ah_vouchers (peer s.1) ++ pre ++ [voucher_of r] ++ post) ∧
  ∃ e, of_target s'.2 = of_target s.2 ++ [e] ∧
       ev_round e = r ∧ ev_voucher e = voucher_of r ∧ ev_sent e = Ok tt.
Proof using Hhonest Htree.
  assert (Hskip : ∀ us s, t ∉ us →
    let s' := foldl (audit_one nt self m plan (Root tree) clock r) s us in
    evolves (peer s.1) (peer s'.1) ∧ of_target s'.2 = of_target s.2).
  { intros us. induction us as [|u us IH]; intros s0 Hn; [done|]. cbn [foldl]. apply not_elem_of_cons in Hn as [Hu Hn].
    destruct (IH (audit_one nt self m plan (Root tree) clock r s0 u) Hn) as [H1 H2].
    destruct (audit_one_other r s0 u) as [H3 H4]; [done|]. split; [by etransitivity|congruence]. }
  unfold audit_round. intros Hnd Hin. revert s. induction Hnd as [|u us Hu Hnd IH]; [set_solver|].
  intros s Hh. cbn [foldl]. destruct (decide (u = t)) as [->|Hne].
  - destruct s as [w log]. destruct (audit_one_honest r w log Hh) as (H1 & (pre & post & H2) & e & H3 & H4 & H5).
    destruct (Hskip us (audit_one nt self m plan (Root tree) clock r (w, log) t) Hu) as [[H6 [more H7]] H8].
    split; [auto|]. split; [exists pre, (post ++ more); rewrite H7, H2; by rewrite <- !app_assoc|].
    exists e. rewrite H8, H3. unfold of_target. rewrite filter_app, filter_cons_True by done. by rewrite filter_nil.
  - destruct (audit_one_other r s u Hne) as [[H1 [more H2]] H3].
    destruct (IH ltac:(set_solver) (audit_one nt self m plan (Root tree) clock r s u)) as (H4 & (pre & post & H5) & e & H6 & H7);
      [auto|]. split; [done|]. split; [exists (more ++ pre), post; rewrite H5, H2; by rewrite <- !app_assoc|].
    exists e. rewrite H6, H3. done.
Qed.

(** The 64-bit product wraps in round 738: an hour of auditing every five
    seconds, after which the claimed total starts again near zero. *)
Lemma cumulative_pay_exact r :
  cumulative_pay r = (r * challenge_price) mod 2 ^ 64 ∧ (0 <= r <= 737 → cumulative_pay r = r * challenge_price).
Proof.
  unfold cumulative_pay, challenge_price. split; [unfold u64; by rewrite Z.mul_mod_idemp_l|].
  intros Hr. rewrite (u64_id r) by (unfold is_u64; lia). apply u64_id. unfold is_u64. lia.
Qed.

(** C18: An honest provider gets its voucher in every round: if a target is
    reachable and can answer from the tree of the published manifest, then
    whatever the other targets answer, and whatever calls its handler gets
    from others in between, the publisher's audit of n rounds sends it exactly
    one voucher per round, in order, every one of them delivered, and the
    target has them all among the vouchers it received.  The voucher of round
    r claims r times the price of 0.025 ETH modulo 2^64, which is r times the
    price up to round 737 and starts again near zero in round 738.  (Its
    signature is a constant: [audit_voucher_worthless].) *)
Theorem audit_pays_honest targets n w :
  NoDup targets → t ∈ targets → hashes32 (mf_ChunkIDs m) → holds_tree (peer w) →
  let rounds := seqZ 1 (Z.of_nat n) in
  let s' := challenge_phase nt self m plan clock targets n w in
  paid_rounds rounds s'.2 ∧
  (∃ received, Vouchers (peer s'.1) = Vouchers (peer w) ++ received ∧ (voucher_of <$> rounds) `sublist_of` received) ∧
  ∀ r, ps_CumulativePayment (voucher_of r) = (r * challenge_price) mod 2 ^ 64 ∧
       (0 <= r <= 737 → ps_CumulativePayment (voucher_of r) = r * challenge_price).
Proof using Hhonest Htree.
  intros Hnd Hin Hm Hh rounds s'. unfold s', challenge_phase. rewrite map_copy32_id, Htree by done. unfold audit. fold rounds.
  assert (H : ∀ rs s, holds_tree (peer s.1) →
    let s' := foldl (audit_round nt self m plan (Root tree) clock targets) s rs in
    (∃ es, of_target s'.2 = of_target s.2 ++ es ∧
       Forall2 (λ r e, ev_round e = r ∧ ev_voucher e = voucher_of r ∧ ev_sent e = Ok tt) rs es) ∧
    ∃ received, ah_vouchers (peer s'.1) = ah_vouchers (peer s.1) ++ received ∧ (voucher_of <$> rs) `sublist_of` received).
  { intros rs. induction rs as [|r rs IH]; intros s Hs.
    { split; [exists []|exists []]; rewrite app_nil_r; split; done || constructor. }
    cbn [foldl]. destruct (audit_round_honest targets r s Hnd Hin Hs) as (H1 & (pre & post & H2) & e & H3 & H4).
    destruct (IH _ H1) as ((es & H5 & H6) & received & H7 & H8). split.
    - exists (e :: es). rewrite H5, H3, <- app_assoc. split; [done|by constructor].
    - exists (pre ++ [voucher_of r] ++ post ++ received). rewrite H7, H2, <- !app_assoc. split; [done|].
      apply sublist_inserts_l. cbn. constructor. by apply sublist_inserts_l. }
  destruct (H rounds (w, []) Hh) as ((es & He & Hes) & Hr). split_and!; [|exact Hr|intros r; apply cumulative_pay_exact].
  unfold paid_rounds. rewrite He. exact Hes.
Qed.
End honest.

(** *** What the vouchers are worth *)

(** The signature is a constant of 30 bytes: no key of either kind verifies an
    audit voucher, and the adapter refuses to submit it. *)
Theorem audit_voucher_worthless {ED : Ed25519} {GE : GoEthereum} {GC : GethCommon} self target ch r now :
  (∀ pk addr, VerifyPaymentVoucher (audit_voucher self target ch r now) pk addr = false) ∧
  ∀ id, ∃ e, convertPaymentStateToSolidity id (audit_voucher self target ch r now) = Err e.
Proof.
  split.
  - intros pk addr. unfold VerifyPaymentVoucher, VerifyPaymentState, SignatureSize.
    set (sig := ps_PublisherSignature _). assert (Hl : zlen sig = 30) by reflexivity. rewrite Hl.
    rewrite (bool_decide_false (30 = 64)) by lia. rewrite decide_False by lia.
    rewrite (decide_False (P := addr ≠ _ ∧ _)) by (intros [_ HX]; lia).
    by destruct (bool_decide (zlen pk = PublicKeySize)).
  - intros id. unfold convertPaymentStateToSolidity. rewrite decide_True; [eauto|].
    do 3 right. left. done.
Qed.

(** The claimed total starts again near zero in round 738. *)
Theorem cumulative_pay_wraps : cumulative_pay 737 = 18425000000000000000 ∧ cumulative_pay 738 = 3255926290448384.
Proof. split; reflexivity. Qed.

(** ** A restarted provider *)

Section restart.
Context {ED : Ed25519} {MC : ManifestCodec} (fs : FS).

(** Every manifest is stored under its own identifier. *)
Definition manifests_filed : Prop :=
  ∀ mid d m, GetManifestBytes mid fs = Ok d → Deserialize d = Ok m → cd_ID (mf_Descriptor m) = mid.

(** The chunks of [m] the store holds, in manifest order. *)
Definition held_chunks (m : Manifest) : list (list byte) :=
  omap (λ cid, match GetChunk cid fs with Ok ch => Some (ck_Data ch) | Err _ => None end) (mf_ChunkIDs m).

Lemma RegisterFileChunks_trees f chunks e g :
  f ≠ ""%string → chunks ≠ [] → 
  pe_trees (RegisterFileChunks f chunks e).1 !! g =
  if decide (g = f) then match NewMerkleTree (map sha256 chunks) with
                         | Ok t => Some t | Err _ => pe_trees e !! g end
  else pe_trees e !! g.
Proof.
  intros Hf Hc. unfold RegisterFileChunks, BuildMerkleTreeFromChunks.
  assert (zlen chunks ≠ 0) by (unfold zlen; destruct chunks; [done|simpl; lia]).
  rewrite !decide_False by done. destruct (NewMerkleTree _) as [t|]; simpl; [|by case_decide].
  case_decide as Hg; [subst; by rewrite lookup_insert_eq|by rewrite lookup_insert_ne].
Qed.

Lemma EncodeToString_ne id : length id = 32%nat → EncodeToString id ≠ ""%string.
Proof.
  intros Hl E. pose proof (length_EncodeToString id) as HX. rewrite E in HX. unfold zlen in HX.
  rewrite Hl in HX. done.
Qed.

(** What registering one manifest does to the tree of [id]. *)
Lemma register_manifest_trees e mid id :
  manifests_filed → length id = 32%nat →
  pe_trees (register_manifest fs e mid) !! EncodeToString id =
  if decide (mid = id) then
    match GetManifestBytes id fs with
    | Ok d => match Deserialize d with
              | Ok m => if decide (zlen (held_chunks m) > 0) then
                          match NewMerkleTree (map sha256 (held_chunks m)) with
                          | Ok t => Some t | Err _ => pe_trees e !! EncodeToString id end
                        else pe_trees e !! EncodeToString id
              | Err _ => pe_trees e !! EncodeToString id end
    | Err _ => pe_trees e !! EncodeToString id
    end
  else pe_trees e !! EncodeToString id.
Proof.
  intros Hf Hl. unfold register_manifest. destruct (GetManifestBytes mid fs) as [d|] eqn:Hg.
  2: { case_decide as Hm; [|done]. subst. by rewrite Hg. }
  destruct (Deserialize d) as [m|] eqn:Hd.
  2: { case_decide as Hm; [|done]. subst. by rewrite Hg, Hd. }
  pose proof (Hf _ _ _ Hg Hd) as Hid. pose proof (mt_content _ (Deserialize_typed _ _ Hd)) as Hml.
  rewrite Hid in *. fold (held_chunks m). destruct (decide (zlen (held_chunks m) > 0)) as [Hz|Hz].
  - rewrite RegisterFileChunks_trees;
      [|by apply EncodeToString_ne|intros E; rewrite E in Hz; unfold zlen in Hz; simpl in Hz; lia].
    destruct (decide (mid = id)) as [->|Hn].
    + rewrite decide_True, Hg, Hd by done. by rewrite decide_True.
    + rewrite decide_False; [done|]. intros E. by apply EncodeToString_inj in E.
  - case_decide as Hm; [|done]. subst. by rewrite Hg, Hd, decide_False.
Qed.

Lemma register_all_trees mids e id t m d :
  manifests_filed → length id = 32%nat → GetManifestBytes id fs = Ok d → Deserialize d = Ok m →
  held_chunks m ≠ [] → NewMerkleTree (map sha256 (held_chunks m)) = Ok t →
  id ∈ mids ∨ pe_trees e !! EncodeToString id = Some t →
  pe_trees (foldl (register_manifest fs) e mids) !! EncodeToString id = Some t.
Proof.
  intros Hf Hl Hg Hd Hh Ht. assert (Hz : zlen (held_chunks m) > 0)
    by (unfold zlen; destruct (held_chunks m); [done|simpl; lia]).
  revert e. induction mids as [|mid mids IH]; intros e Hin; simpl; [destruct Hin; [set_solver|done]|].
  apply IH. rewrite register_manifest_trees by done. case_decide as Hm.
  - right. rewrite Hg, Hd, decide_True, Ht by done. done.
  - destruct Hin as [Hin|Hin]; [|by right]. apply elem_of_cons in Hin as [|]; [congruence|by left].
Qed.

Lemma start_engine_trees seed self raw e id m d :
  manifests_filed → start_engine seed self raw fs = Some e → id ∈ ListManifests fs →
  GetManifestBytes id fs = Ok d → Deserialize d = Ok m → held_chunks m ≠ [] →
  ∃ t, NewMerkleTree (map sha256 (held_chunks m)) = Ok t ∧ pe_trees e !! EncodeToString id = Some t.
Proof.
  intros Hf Hs Hin Hg Hd Hh.
  assert (Hl : length id = 32%nat)
    by (rewrite <- (Hf _ _ _ Hg Hd); apply (mt_content _ (Deserialize_typed _ _ Hd))).
  destruct (NewMerkleTree_ok (map sha256 (held_chunks m))) as (ls & r & Ht & _).
  { by destruct (held_chunks m). }
  { apply Forall_forall. intros x (c & -> & _)%list_elem_of_fmap. apply length_sha256. }
  eexists. split; [exact Ht|]. unfold start_engine in Hs. destruct raw as [raw|]; [|done].
  case_decide; [|done]. destruct (NewProviderProofEngine _ _ _) as [e0|]; [|done]. injection Hs as <-.
  eapply register_all_trees; eauto.
Qed.

(** A restarted provider that holds a whole file can answer for it: the tree
    it registers at startup is the tree of the manifest's chunk identifiers,
    which is the one the publisher checks answers against. *)
Theorem restart_holds_tree seed self raw e id m d :
  manifests_filed → start_engine seed self raw fs = Some e → id ∈ ListManifests fs →
  GetManifestBytes id fs = Ok d → Deserialize d = Ok m → mf_ChunkIDs m ≠ [] →
  (∀ cid, cid ∈ mf_ChunkIDs m → ∃ ch, GetChunk cid fs = Ok ch ∧ sha256 (ck_Data ch) = cid) →
  ∃ t, NewMerkleTree (mf_ChunkIDs m) = Ok t ∧ provider_tree e (EncodeToString id) = Some t.
Proof.
  intros Hf Hs Hin Hg Hd Hne Hall.
  assert (Hheld : map sha256 (held_chunks m) = mf_ChunkIDs m).
  { unfold held_chunks. clear -Hall. induction (mf_ChunkIDs m) as [|c cs IH]; [done|]. cbn [omap list_omap].
    destruct (Hall c) as (ch & -> & Hc); [left|]. cbn [map]. rewrite Hc. f_equal. apply IH.
    intros cid Hcid. apply Hall. by right. }
  destruct (start_engine_trees seed self raw e id m d) as (t & Ht & He); try done.
  { intros E. rewrite E in Hheld. by symmetry in Hheld. }
  exists t. rewrite Hheld in Ht. split; [done|]. unfold provider_tree. by rewrite He.
Qed.

(** A restarted provider that holds some of the chunks registers a tree of
    those alone: it refuses every challenge whose index in the manifest is not
    below the number of chunks it holds, although it has the chunk. *)
Theorem partial_replica_fails seed self raw e id m d ch now :
  manifests_filed → start_engine seed self raw fs = Some e → id ∈ ListManifests fs →
  GetManifestBytes id fs = Ok d → Deserialize d = Ok m → held_chunks m ≠ [] →
  ch_FileID ch = EncodeToString id → zlen (held_chunks m) <= ch_ChunkID ch →
  ∃ er, HandleChallenge ch now e = (e, Err er).
Proof.
  intros Hf Hs Hin Hg Hd Hh Hfile Hidx.
  destruct (start_engine_trees seed self raw e id m d) as (t & Ht & He); try done.
  unfold HandleChallenge, generateResponse. rewrite Hfile, He. case_decide; [eauto|].
  destruct (NewMerkleTree_Ok_inv _ _ Ht) as (_ & _ & Hlv & _). rewrite decide_True; [eauto|].
  right. unfold LeafCount. rewrite Hlv. unfold zlen in *. rewrite length_map. lia.
Qed.
End restart.

(** ** Tickets *)

Lemma chunk_index_map_lookup m cid i :
  chunk_index_map m !! cid = Some i →
  0 <= i < zlen (mf_ChunkIDs m) ∧ mf_ChunkIDs m !! Z.to_nat i = Some cid.
Proof.
  unfold chunk_index_map. rewrite <- (take_drop (length (mf_ChunkIDs m)) (imap pair (mf_ChunkIDs m))).
  rewrite (drop_ge (imap pair _)) by (by rewrite length_imap). rewrite app_nil_r.
  assert (H : ∀ n, (n <= length (mf_ChunkIDs m))%nat →
    foldl (λ acc ic, <[ic.2 := Z.of_nat ic.1]> acc) (∅ : gmap ChunkID Z) (take n (imap pair (mf_ChunkIDs m))) !! cid
      = Some i → 0 <= i < zlen (mf_ChunkIDs m) ∧ mf_ChunkIDs m !! Z.to_nat i = Some cid).
  { intros n. induction n as [|n IH]; intros Hn Hi; [done|].
    destruct (lookup_lt_is_Some_2 (mf_ChunkIDs m) n) as [c Hc]; [lia|].
    rewrite (take_S_r _ _ (n, c)) in Hi by (by rewrite list_lookup_imap, Hc). rewrite foldl_snoc in Hi. simpl in Hi.
    apply lookup_insert_Some in Hi as [[-> <-]|[_ Hi]]; [|apply IH; [lia|done]].
    unfold zlen. rewrite Nat2Z.id. split; [lia|done]. }
  apply H. lia.
Qed.

Lemma chunk_index_map_total m cid : cid ∈ mf_ChunkIDs m → ∃ i, chunk_index_map m !! cid = Some i.
Proof.
  intros (n & Hn)%list_elem_of_lookup_1. unfold chunk_index_map.
  assert (Hin : (n, cid) ∈ imap pair (mf_ChunkIDs m))
    by (apply (list_elem_of_lookup_2 _ n); by rewrite list_lookup_imap, Hn).
  revert Hin. generalize (imap pair (mf_ChunkIDs m)) as l.
  assert (H : ∀ (l : list (nat * ChunkID)) (acc : gmap ChunkID Z), (n, cid) ∈ l ∨ (∃ i, acc !! cid = Some i) →
    ∃ i, foldl (λ acc ic, <[ic.2 := Z.of_nat ic.1]> acc) acc l !! cid = Some i).
  { intros l. induction l as [|[j c] l IH]; intros acc Hin; simpl; [destruct Hin; [set_solver|done]|].
    apply IH. destruct (decide (c = cid)) as [->|Hc]; [right; rewrite lookup_insert_eq; eauto|].
    rewrite lookup_insert_ne by done. destruct Hin as [Hin|Hin]; [|by right].
    apply elem_of_cons in Hin as [|]; [congruence|by left]. }
  intros l Hl. apply H. by left.
Qed.

(** C38: The consumer's tickets are good: for a chunk of the manifest the
    generator signs a ticket for one of its positions in the manifest, and the
    ticket handler of a provider on the same chain and contract accepts and
    keeps it; a chunk outside the manifest gets none. *)
Theorem generated_ticket_accepted {GE : GoEthereum} k chain vc terms m stored cid :
  ec_valid k → length (PubkeyToAddress k) = 20%nat → length (tm_recipient terms) = 20%nat →
  is_u256 (tm_roundID terms) → is_u256 (tm_faceValue terms) → zlen (mf_ChunkIDs m) < 2 ^ 64 →
  let signer := NewTicketSigner (Some k) chain vc in
  let idxs := chunk_index_map m in
  (cid ∉ mf_ChunkIDs m → ∃ e, generate_ticket signer terms idxs false cid = Some (Err e)) ∧
  (cid ∈ mf_ChunkIDs m → ∃ i tk, mf_ChunkIDs m !! Z.to_nat i = Some cid ∧
     generate_ticket signer terms idxs false cid = Some (Ok tk) ∧
     st_Ticket tk = chunk_ticket (PubkeyToAddress k) terms i ∧
     handle_ticket (NewTicketSigner None chain vc) tk stored = Some (stored ++ [tk], Ok tt)).
Proof.
  intros Hk Hlk Hlr Hr Hf Hm signer idxs. split.
  - intros Hn. unfold generate_ticket. destruct (idxs !! cid) as [i|] eqn:Hi; [|eauto].
    apply chunk_index_map_lookup in Hi as [_ Hi]. apply list_elem_of_lookup_2 in Hi. done.
  - intros Hin. destruct (chunk_index_map_total _ _ Hin) as [i Hi].
    pose proof (chunk_index_map_lookup _ _ _ Hi) as [Hb Hl].
    set (t := chunk_ticket (PubkeyToAddress k) terms i).
    assert (Hty : ticket_typed t).
    { split; [done|done|]. unfold some_u256.
      repeat apply Forall_cons_2; try apply Forall_nil_2; simpl; eexists; (split; [reflexivity|]);
        try done; unfold is_u256 in *; lia. }
    destruct (SignTicket_Verify k chain vc t (PubkeyToAddress k) Hk) as [H _].
    destruct (H Hty) as (sig & Hs & _ & _ & Hv). rewrite bool_decide_true in Hv by done.
    exists i, {| st_Ticket := t; st_Signature := sig |}. split; [done|].
    unfold generate_ticket. unfold idxs. rewrite Hi. change (ts_Address signer) with (PubkeyToAddress k).
    fold t. fold signer in Hs. rewrite Hs. split; [done|]. split; [done|].
    unfold handle_ticket. cbn [st_Ticket st_Signature]. change (rt_Sender t) with (PubkeyToAddress k).
    change (Verify (NewTicketSigner None chain vc)) with (Verify signer). fold signer in Hv. by rewrite Hv.
Qed.

(** Nothing stops a ticket from being shown twice: the handler keeps no record
    of what it has accepted, and looks neither at the recipient nor at the
    amount. *)
Theorem ticket_replayed {GE : GoEthereum} vs tk stored :
  handle_ticket vs tk stored = Some (stored ++ [tk], Ok tt) →
  handle_ticket vs tk (stored ++ [tk]) = Some (stored ++ [tk; tk], Ok tt).
Proof.
  unfold handle_ticket. destruct (Verify _ _ _ _) as [[]|]; simpl; try done.
  - by rewrite <- app_assoc.
Qed.

(** ** The payment client *)

(** The contracts a client is bound to are the handles [B] of the generated
    bindings; [bind] binds one at an address. *)
Record ContractAddresses := {
  ca_PaymentChannel : list byte;
  ca_SettlementEngine : list byte;
  ca_EntropySource : list byte;
  ca_ProviderRegistry : list byte;
}.

Record PaymentClient (B : Type) := {
  cl_ChainID : Z;
  cl_PrivateKey : option (list byte);
  cl_Address : list byte;
  cl_Signer : TicketSigner;
  cl_PaymentChannel : option B;
  cl_SettlementEngine : option B;
  cl_EntropySource : option B;
  cl_ProviderRegistry : option B;
}.
Arguments cl_ChainID {B}. Arguments cl_PrivateKey {B}. Arguments cl_Address {B}. Arguments cl_Signer {B}.
Arguments cl_PaymentChannel {B}. Arguments cl_SettlementEngine {B}. Arguments cl_EntropySource {B}.
Arguments cl_ProviderRegistry {B}.

Section client.
Context {GE : GoEthereum} {KC : KeyCodec} {B : Type} (bind : list byte → result B).

Definition bind_contract (what : string) (a : list byte) : result (option B) :=
  if decide (a = zero_bytes 20) then Ok None
  else let! b := wrap ("failed to bind " +:+ what) (bind a) in Ok (Some b).

(** [privKeyHex[:2] == "0x"] *)
Definition strip_prefix (s : string) : string :=
  match bytes_of s with x30 :: x78 :: rest => string_of rest | _ => s end.

(** [dial] and [chain] are the outcomes of [DialContext] and [client.ChainID]. *)
Definition NewPaymentClient (dial : result ()) (chain : result Z) (privKeyHex : string)
    (addrs : ContractAddresses) : result (PaymentClient B) :=
  let! _ := wrap "failed to dial ethereum rpc" dial in
  let! chainID := wrap "failed to retrieve chain id" chain in
  let! privKey :=
    (if decide (privKeyHex = ""%string) then Ok None
     else let! k := wrap "invalid private key hex" (HexToECDSA (strip_prefix privKeyHex)) in Ok (Some k)) in
  let signer := NewTicketSigner privKey chainID (ca_EntropySource addrs) in
  let! pc := bind_contract "PaymentChannel" (ca_PaymentChannel addrs) in
  let! se := bind_contract "SettlementEngine" (ca_SettlementEngine addrs) in
  let! es := bind_contract "CommitRevealEntropy" (ca_EntropySource addrs) in
  let! pr := bind_contract "ProviderRegistry" (ca_ProviderRegistry addrs) in
  Ok {| cl_ChainID := chainID; cl_PrivateKey := privKey;
        cl_Address := match privKey with Some k => PubkeyToAddress k | None => zero_bytes 20 end;
        cl_Signer := signer; cl_PaymentChannel := pc; cl_SettlementEngine := se; cl_EntropySource := es;
        cl_ProviderRegistry := pr |}.

(** The options of a transaction; [transactor] is [NewKeyedTransactorWithChainID],
    [gas] the outcome of [SuggestGasPrice], which is used when it succeeds. *)
Definition GetTransactor (transactor : list byte → Z → result TransactOpts) (gas : result Z) (value : option Z)
    (c : PaymentClient B) : result (TransactOpts * option Z) :=
  match cl_PrivateKey c with
  | None => Err (New "cannot create transactor: private key is nil")
  | Some k =>
      let! auth := wrap "failed to create transactor" (transactor k (cl_ChainID c)) in
      Ok ({| to_From := to_From auth; to_Value := match value with Some v => Some v | None => to_Value auth end |},
          match gas with Ok g => Some g | Err _ => None end)
  end.

Definition GetChannelBalance (ChannelBalance : B → list byte → list byte → result Z)
    (sender recipient : list byte) (c : PaymentClient B) : result Z :=
  match cl_PaymentChannel c with
  | None => Err (New "PaymentChannel contract not bound")
  | Some pc => wrap "failed to query channel balance" (ChannelBalance pc sender recipient)
  end.

Definition GetProviderStake (Stake : B → list byte → result Z) (provider : list byte) (c : PaymentClient B)
    : result Z :=
  match cl_ProviderRegistry c with
  | None => Err (New "ProviderRegistry contract not bound")
  | Some pr => wrap "failed to query provider" (Stake pr provider)
  end.

Definition SettleRound {T} (transactor : list byte → Z → result TransactOpts) (gas : result Z)
    (settleRound : B → TransactOpts * option Z → RoundTicket → list byte → list byte → result T)
    (ticket : RoundTicket) (senderSig secret : list byte) (c : PaymentClient B) : result T :=
  match cl_SettlementEngine c with
  | None => Err (New "SettlementEngine contract not bound")
  | Some se =>
      let! auth := GetTransactor transactor gas None c in
      wrap "failed to submit settleRound transaction" (settleRound se auth ticket senderSig secret)
  end.

(** A client signs tickets as the account it reports. *)
Lemma NewPaymentClient_signer dial chain key addrs c :
  NewPaymentClient dial chain key addrs = Ok c →
  cl_Signer c = NewTicketSigner (cl_PrivateKey c) (cl_ChainID c) (ca_EntropySource addrs) ∧
  cl_Address c = ts_Address (cl_Signer c).
Proof.
  unfold NewPaymentClient. intros H. destruct dial; [|done]. destruct chain as [ch|]; [|done]. simpl in H.
  destruct (if decide _ then _ else _) as [pk|]; [|done]. simpl in H.
  repeat (destruct (bind_contract _ _); [simpl in H|done]). injection H as <-. done.
Qed.
End client.

(** ** Witnesses *)

Definition wn_manifest : Manifest :=
  {| mf_Version := 1; mf_Descriptor := {| cd_ID := leaf_b; cd_Type := "file"; cd_Size := 1 |};
     mf_ChunkIDs := [leaf_a]; mf_MerkleRoot := leaf_a; mf_WholeHash := leaf_a;
     mf_Crypto := {| cy_Algorithm := ""; cy_Version := 1; cy_ChunkNonceSize := 12; cy_KeyID := "" |} |}.
Lemma wn_manifest_typed : manifest_typed wn_manifest.
Proof. split; [apply length_sha256|]. repeat constructor; apply length_sha256. Qed.

Definition wn_chunk : Chunk :=
  {| ck_Header := {| hd_Version := 1; hd_ID := leaf_a; hd_Index := 0; hd_Offset := 0; hd_PlainSize := 1;
                     hd_CipherSize := 1; hd_Nonce := replicate 12 x00 |}; ck_Data := bytes_of "a" |}.
Lemma wn_chunk_typed : Content.header_typed (ck_Header wn_chunk).
Proof. split; vm_compute; first [done|split; done]. Qed.
Definition wn_fs : FS :=
  (PutChunk 7 None wn_chunk (PutManifestBytes leaf_b (Serialize wn_manifest) ∅).1).1.

Lemma wn_fs_manifest mid :
  GetManifestBytes mid wn_fs = if decide (mid = leaf_b) then Ok (Serialize wn_manifest) else GetManifestBytes mid ∅.
Proof.
  unfold wn_fs. rewrite <- GetManifestBytes_Put.
  pose proof (PutChunk_reads 7 None wn_chunk (PutManifestBytes leaf_b (Serialize wn_manifest) ∅).1 leaf_a
    wn_chunk_typed (length_sha256 _)) as H.
  destruct (PutChunk _ _ _ _) as [fs' r]. destruct H as (_ & _ & H). apply H.
Qed.

Lemma wn_fs_chunk : GetChunk leaf_a wn_fs = Ok wn_chunk.
Proof.
  unfold wn_fs.
  pose proof (PutChunk_reads 7 None wn_chunk (PutManifestBytes leaf_b (Serialize wn_manifest) ∅).1 leaf_a
    wn_chunk_typed (length_sha256 _)) as H.
  destruct (PutChunk _ _ _ _) as [fs' r]. destruct H as (_ & H & _). cbn [fst]. rewrite H.
  destruct (decide _) as [_|n]; [reflexivity|]. exfalso. apply n. split; reflexivity.
Qed.

Lemma wn_fs_filed : manifests_filed wn_fs.
Proof.
  intros mid d m. rewrite wn_fs_manifest. destruct (decide (mid = leaf_b)) as [Hm|]; [|discriminate].
  intros Hs Hd. assert (Deserialize (Serialize wn_manifest) = Ok m) as Hd'.
  { clear -Hs Hd. revert Hs. generalize (Serialize wn_manifest). intros x Hs. congruence. }
  rewrite (Deserialize_Serialize _ wn_manifest_typed) in Hd'.
  assert (cd_ID (mf_Descriptor wn_manifest) = cd_ID (mf_Descriptor m)) as <-.
  { clear -Hd'. revert Hd'. generalize wn_manifest. intros x Hx. congruence. }
  rewrite Hm. reflexivity.
Qed.

Lemma restart_holds_tree_witness :
  ∃ e t, start_engine (λ s, s) "p1" (Ok (toy_key 5)) wn_fs = Some e ∧
    NewMerkleTree [leaf_a] = Ok t ∧ provider_tree e (EncodeToString leaf_b) = Some t.
Proof.
  eexists.
  destruct (restart_holds_tree wn_fs (λ s, s) "p1" (Ok (toy_key 5))
    (foldl (register_manifest wn_fs)
       {| pe_providerID := "p1"; pe_privKey := toy_key 5; pe_pubKey := ed_public (toy_key 5);
          pe_chunkSource := Some (FSManifestStore wn_fs); pe_trees := ∅; pe_chunkPayload := ∅ |}
       (ListManifests wn_fs)) leaf_b wn_manifest (Serialize wn_manifest)) as (t & H1 & H2).
  - exact wn_fs_filed.
  - reflexivity.
  - apply (bool_decide_unpack _). vm_compute. exact I.
  - rewrite wn_fs_manifest. destruct (decide _) as [_|n]; [reflexivity|]. exfalso. apply n. reflexivity.
  - apply Deserialize_Serialize, wn_manifest_typed.
  - discriminate.
  - intros cid Hc. apply list_elem_of_singleton in Hc as ->. exists wn_chunk. split; [apply wn_fs_chunk|reflexivity].
  - exists t. split; [reflexivity|]. split; [exact H1|exact H2].
Defined.

Definition wn_handler (t : MerkleTree) : AvailabilityStreamHandler () :=
  NewAvailabilityStreamHandler (set_trees {[EncodeToString leaf_b := t]} (wit_engine t)) tt.
Definition wn_plan : PlacementPlan :=
  {| pl_ContentID := leaf_b; pl_Manifest := wn_manifest; pl_Assignments := ∅; pl_ProviderChunks := ∅;
     pl_Replication := 1 |}.

(** A network of one honest handler; every other peer answers what it likes. *)
Definition one_honest_net (t : PeerID) (now : Z) (answers : PeerID → Challenge → result ChallengeResponse)
    : net (AvailabilityStreamHandler ()) := {|
  nt_challenge u ch h :=
    if decide (u = t) then let '(e', r) := HandleChallenge ch now (ah_proofEngine h) in (set_engine e' h, r)
    else (h, answers u ch);
  nt_voucher u v h := if decide (u = t) then (add_voucher v h, Ok tt) else (h, Ok tt) |}.
Lemma one_honest m t tree now answers : honest_peer m t tree (one_honest_net t now answers) id.
Proof.
  split.
  - intros ch h h' r. cbn [one_honest_net nt_challenge]. rewrite decide_True by done.
    destruct (HandleChallenge _ _ _) as [e' r'] eqn:E. intros [= <- <-].
    exists h, now, e'. split_and!; [reflexivity|done|reflexivity].
  - intros v h h' r. cbn [one_honest_net nt_voucher]. rewrite decide_True by done. intros [= <- <-].
    split; [done|]. exists h. split; reflexivity.
  - intros u Hu. split; intros; cbn [one_honest_net nt_challenge nt_voucher]; rewrite decide_False by done; reflexivity.
Qed.

Lemma audit_pays_honest_witness :
  ∃ t received,
    Vouchers (challenge_phase (one_honest_net "prov-001" 0 (λ _ _, Err EOF)) "pub" wn_manifest wn_plan (λ r _, r)
                ["prov-001"; "prov-002"] 3 (wn_handler t)).1 = received ∧
    [25000000000000000; 50000000000000000; 75000000000000000] `sublist_of` (ps_CumulativePayment <$> received).
Proof.
  destruct (NewMerkleTree_ok [leaf_a]) as (ls & rt & Hn & _); [discriminate|apply wn_manifest_typed|].
  set (t := {| mt_leaves := [leaf_a]; mt_levels := ls; mt_root := rt |}) in *. exists t.
  destruct (audit_pays_honest "pub" wn_manifest wn_plan (λ r _, r) "prov-001" t Hn
    (one_honest_net "prov-001" 0 (λ _ _, Err EOF)) id (one_honest wn_manifest "prov-001" t 0 (λ _ _, Err EOF))
    ["prov-001"; "prov-002"] 3 (wn_handler t)) as (_ & (received & H1 & H2) & _).
  - apply (bool_decide_unpack _). vm_compute. exact I.
  - left.
  - apply wn_manifest_typed.
  - unfold holds_tree, provider_tree. cbn [wn_handler NewAvailabilityStreamHandler ah_proofEngine set_trees pe_trees id].
    by rewrite lookup_singleton_eq.
  - exists received. split; [exact H1|]. exact (fmap_sublist ps_CumulativePayment _ _ H2).
Defined.

Lemma generated_ticket_accepted_witness :
  ∃ tk, handle_ticket (NewTicketSigner None 1 (replicate 20 x03)) tk [] = Some ([tk], Ok tt).
Proof.
  destruct (generated_ticket_accepted (replicate 32 x07) 1 (replicate 20 x03)
    {| tm_recipient := replicate 20 x02; tm_roundID := 1; tm_faceValue := 1000 |} wn_manifest [] leaf_a)
    as [_ H]; [reflexivity|reflexivity|reflexivity|split; [discriminate|reflexivity]
      |split; [discriminate|reflexivity]|reflexivity|].
  destruct H as (i & tk & _ & _ & _ & H); [left|]. exists tk. exact H.
Defined.
