(* ===== verification/Simulation.v ===== *)
(** * Availability simulation

    scripts/simulate_availability.go: the program that wires the coordinator
    bridge, three provider proof engines and the demand manager together and
    runs challenge epochs against two honest providers and one adversary.

    Everything random, and every reading of the clock, is an argument: keys,
    addresses and escrow identifiers ([ProviderSecrets]), and per epoch the
    chunk, the nonce, the order in which Go's map iteration visits the
    providers and the times of each visit ([EpochInput], [Timing]).  The
    terminal output is in Dashboard.v. *)

From S2P Require Import Prelude Sha256 Crypto AvailTypes Verification Merkle Content ProofEngine Bindings Payment Coordinator Dispatcher Request Demand Tickets ChunkProtocol Session AvailWire Bridge.

(** ** State *)

Record LogEvent := {
  le_Timestamp : Z; le_Category : string; le_Message : string; le_Level : string }.

Record SlashingEvent := {
  sl_Timestamp : Z; sl_ContractID : string; sl_ProviderID : string; sl_PenaltyWei : Z;
  sl_Reason : string; sl_TxHash : string; sl_BlockNumber : Z }.

(** The fields of a [SimProvider] that the epoch loop writes. *)
Record SimStats := {
  st_VoucherCount : Z; st_CumulativePay : Z; st_FailureStreak : Z; st_CollateralWei : Z;
  st_SlashedAmount : Z; st_State : string; st_LastResult : string; st_LastLatencyMs : Z;
  st_TotalPasses : Z; st_TotalFails : Z }.

Record SimProvider := {
  sp_ID : string; sp_ShortName : string; sp_EthAddress : list byte; sp_IsAdversarial : bool;
  sp_BehaviorNote : string; sp_EdPubKey : list byte; sp_EdPrivKey : list byte;
  sp_ContractID : string; sp_ProofEngine : ProviderProofEngine; sp_Store : FS;
  sp_stats : SimStats }.

(** The fields that only the terminal output reads and nothing writes (the file
    name and size, the escrow address, the locked total) are left out. *)
Record SimulationState := {
  ss_FileID : string; ss_ChunkCount : Z; ss_MerkleRoot : list byte;
  ss_TotalRequests : Z; ss_PoWDifficulty : Z; ss_CurrentDemand : Z; ss_RequiredReplicas : Z;
  ss_DemandHistory : list Z; ss_RecentPoWHash : string; ss_RecentPoWNonce : Z;
  ss_Providers : gmap string SimProvider;
  ss_CurrentEpoch : Z; ss_TotalEpochs : Z; ss_EpochActive : bool; ss_LastChallengeID : string;
  ss_LastNonceHex : string; ss_LastChunkID : Z;
  ss_TotalSlashed : Z; ss_SlashingEvents : list SlashingEvent; ss_TxCount : Z;
  ss_LatestTxHash : string;
  ss_EventLog : list LogEvent }.

Definition set_stats (x : SimStats) (p : SimProvider) : SimProvider :=
  {| sp_ID := sp_ID p; sp_ShortName := sp_ShortName p; sp_EthAddress := sp_EthAddress p;
     sp_IsAdversarial := sp_IsAdversarial p; sp_BehaviorNote := sp_BehaviorNote p;
     sp_EdPubKey := sp_EdPubKey p; sp_EdPrivKey := sp_EdPrivKey p; sp_ContractID := sp_ContractID p;
     sp_ProofEngine := sp_ProofEngine p; sp_Store := sp_Store p; sp_stats := x |}.
Definition set_engine (e : ProviderProofEngine) (p : SimProvider) : SimProvider :=
  {| sp_ID := sp_ID p; sp_ShortName := sp_ShortName p; sp_EthAddress := sp_EthAddress p;
     sp_IsAdversarial := sp_IsAdversarial p; sp_BehaviorNote := sp_BehaviorNote p;
     sp_EdPubKey := sp_EdPubKey p; sp_EdPrivKey := sp_EdPrivKey p; sp_ContractID := sp_ContractID p;
     sp_ProofEngine := e; sp_Store := sp_Store p; sp_stats := sp_stats p |}.

Section setters.
Implicit Types s : SimulationState.
Definition set_log (l : list LogEvent) s : SimulationState :=
  {| ss_FileID := ss_FileID s; ss_ChunkCount := ss_ChunkCount s; ss_MerkleRoot := ss_MerkleRoot s;
     ss_TotalRequests := ss_TotalRequests s; ss_PoWDifficulty := ss_PoWDifficulty s;
     ss_CurrentDemand := ss_CurrentDemand s; ss_RequiredReplicas := ss_RequiredReplicas s;
     ss_DemandHistory := ss_DemandHistory s; ss_RecentPoWHash := ss_RecentPoWHash s;
     ss_RecentPoWNonce := ss_RecentPoWNonce s; ss_Providers := ss_Providers s;
     ss_CurrentEpoch := ss_CurrentEpoch s; ss_TotalEpochs := ss_TotalEpochs s;
     ss_EpochActive := ss_EpochActive s; ss_LastChallengeID := ss_LastChallengeID s;
     ss_LastNonceHex := ss_LastNonceHex s; ss_LastChunkID := ss_LastChunkID s;
     ss_TotalSlashed := ss_TotalSlashed s; ss_SlashingEvents := ss_SlashingEvents s;
     ss_TxCount := ss_TxCount s; ss_LatestTxHash := ss_LatestTxHash s; ss_EventLog := l |}.
Definition set_providers (m : gmap string SimProvider) s : SimulationState :=
  {| ss_FileID := ss_FileID s; ss_ChunkCount := ss_ChunkCount s; ss_MerkleRoot := ss_MerkleRoot s;
     ss_TotalRequests := ss_TotalRequests s; ss_PoWDifficulty := ss_PoWDifficulty s;
     ss_CurrentDemand := ss_CurrentDemand s; ss_RequiredReplicas := ss_RequiredReplicas s;
     ss_DemandHistory := ss_DemandHistory s; ss_RecentPoWHash := ss_RecentPoWHash s;
     ss_RecentPoWNonce := ss_RecentPoWNonce s; ss_Providers := m;
     ss_CurrentEpoch := ss_CurrentEpoch s; ss_TotalEpochs := ss_TotalEpochs s;
     ss_EpochActive := ss_EpochActive s; ss_LastChallengeID := ss_LastChallengeID s;
     ss_LastNonceHex := ss_LastNonceHex s; ss_LastChunkID := ss_LastChunkID s;
     ss_TotalSlashed := ss_TotalSlashed s; ss_SlashingEvents := ss_SlashingEvents s;
     ss_TxCount := ss_TxCount s; ss_LatestTxHash := ss_LatestTxHash s; ss_EventLog := ss_EventLog s |}.
(** The demand fields. *)
Definition set_demand (total cur req : Z) (hist : list Z) (hash : string) (nonce : Z) s : SimulationState :=
  {| ss_FileID := ss_FileID s; ss_ChunkCount := ss_ChunkCount s; ss_MerkleRoot := ss_MerkleRoot s;
     ss_TotalRequests := total; ss_PoWDifficulty := ss_PoWDifficulty s;
     ss_CurrentDemand := cur; ss_RequiredReplicas := req;
     ss_DemandHistory := hist; ss_RecentPoWHash := hash;
     ss_RecentPoWNonce := nonce; ss_Providers := ss_Providers s;
     ss_CurrentEpoch := ss_CurrentEpoch s; ss_TotalEpochs := ss_TotalEpochs s;
     ss_EpochActive := ss_EpochActive s; ss_LastChallengeID := ss_LastChallengeID s;
     ss_LastNonceHex := ss_LastNonceHex s; ss_LastChunkID := ss_LastChunkID s;
     ss_TotalSlashed := ss_TotalSlashed s; ss_SlashingEvents := ss_SlashingEvents s;
     ss_TxCount := ss_TxCount s; ss_LatestTxHash := ss_LatestTxHash s; ss_EventLog := ss_EventLog s |}.
(** The epoch fields. *)
Definition set_epoch (epoch : Z) (active : bool) (id nonce : string) (chunk : Z) s : SimulationState :=
  {| ss_FileID := ss_FileID s; ss_ChunkCount := ss_ChunkCount s; ss_MerkleRoot := ss_MerkleRoot s;
     ss_TotalRequests := ss_TotalRequests s; ss_PoWDifficulty := ss_PoWDifficulty s;
     ss_CurrentDemand := ss_CurrentDemand s; ss_RequiredReplicas := ss_RequiredReplicas s;
     ss_DemandHistory := ss_DemandHistory s; ss_RecentPoWHash := ss_RecentPoWHash s;
     ss_RecentPoWNonce := ss_RecentPoWNonce s; ss_Providers := ss_Providers s;
     ss_CurrentEpoch := epoch; ss_TotalEpochs := ss_TotalEpochs s;
     ss_EpochActive := active; ss_LastChallengeID := id;
     ss_LastNonceHex := nonce; ss_LastChunkID := chunk;
     ss_TotalSlashed := ss_TotalSlashed s; ss_SlashingEvents := ss_SlashingEvents s;
     ss_TxCount := ss_TxCount s; ss_LatestTxHash := ss_LatestTxHash s; ss_EventLog := ss_EventLog s |}.
(** The ledger fields: the slashing of one provider. *)
Definition add_slashing (ev : SlashingEvent) s : SimulationState :=
  {| ss_FileID := ss_FileID s; ss_ChunkCount := ss_ChunkCount s; ss_MerkleRoot := ss_MerkleRoot s;
     ss_TotalRequests := ss_TotalRequests s; ss_PoWDifficulty := ss_PoWDifficulty s;
     ss_CurrentDemand := ss_CurrentDemand s; ss_RequiredReplicas := ss_RequiredReplicas s;
     ss_DemandHistory := ss_DemandHistory s; ss_RecentPoWHash := ss_RecentPoWHash s;
     ss_RecentPoWNonce := ss_RecentPoWNonce s; ss_Providers := ss_Providers s;
     ss_CurrentEpoch := ss_CurrentEpoch s; ss_TotalEpochs := ss_TotalEpochs s;
     ss_EpochActive := ss_EpochActive s; ss_LastChallengeID := ss_LastChallengeID s;
     ss_LastNonceHex := ss_LastNonceHex s; ss_LastChunkID := ss_LastChunkID s;
     ss_TotalSlashed := u64 (ss_TotalSlashed s + sl_PenaltyWei ev);
     ss_SlashingEvents := ss_SlashingEvents s ++ [ev]; ss_TxCount := i64 (ss_TxCount s + 1);
     ss_LatestTxHash := sl_TxHash ev; ss_EventLog := ss_EventLog s |}.
End setters.

(** The log keeps its last 30 events; [msg] is the formatted message. *)
Definition AddLog (category level msg : string) (now : Z) (s : SimulationState) : SimulationState :=
  let l := ss_EventLog s ++ [{| le_Timestamp := now; le_Category := category; le_Message := msg;
                                le_Level := level |}] in
  set_log (if decide (zlen l > 30) then last_n 30 l else l) s.

(** ** Inputs *)

Record Timing := {
  ti_created : Z; ti_responded : Z; ti_result : Z; ti_dispatch : Z; ti_log : Z; ti_slash : Z;
  ti_elapsedMs : Z }.

Record EpochInput := {
  ei_chunk : Z;                   (* rand.Int(rand.Reader, ChunkCount) *)
  ei_nonce : list byte;
  ei_start : Z;
  ei_order : list string;         (* order of [range state.Providers] *)
  ei_timing : string → Timing;
  ei_txHash : list byte }.

(** One client of the demand surge: the clock when its request is stamped, the
    time its proof of work takes, and the requests whose timers fire in the
    meantime. *)
Record ClientTiming := { ct_now : Z; ct_elapsed : Z; ct_fired : list nat }.

(** The readings of the clock outside the epochs: at the start, when the surge is
    announced, per client, when the surge is over and at the end. *)
Record SimTimes := {
  tm_init : Z; tm_surge : Z; tm_client : string → ClientTiming; tm_scaled : Z; tm_end : Z }.

Record ProviderSecrets := {
  se_EdPrivKey : list byte; se_EthAddress : list byte; se_EscrowID : list byte;
  se_annTime : Z; se_ingestTime : Z; se_logTime : Z }.

(** The program's state: its own, the bridge, and the demand manager (tracker
    and request pool). *)
Record Sim (W : Type) := {
  sm_state : SimulationState; sm_bridge : CoordinatorBridge W; sm_replicas : list Replica;
  sm_pool : Pool }.
Arguments sm_state {W}. Arguments sm_bridge {W}. Arguments sm_replicas {W}. Arguments sm_pool {W}.

Definition on_state {W} (f : SimulationState → SimulationState) (m : Sim W) : Sim W :=
  {| sm_state := f (sm_state m); sm_bridge := sm_bridge m; sm_replicas := sm_replicas m;
     sm_pool := sm_pool m |}.
Definition set_bridge {W} (b : CoordinatorBridge W) (m : Sim W) : Sim W :=
  {| sm_state := sm_state m; sm_bridge := b; sm_replicas := sm_replicas m; sm_pool := sm_pool m |}.
Definition put_provider {W} (id : string) (p : SimProvider) (m : Sim W) : Sim W :=
  on_state (λ s, set_providers (<[id := p]> (ss_Providers s)) s) m.

(** ** Phase 1: initialization *)

Definition rawChunks : list (list byte) := map bytes_of
  ["cipher-protocol-whitepaper-chunk-0-executive-summary-and-vision";
   "cipher-protocol-whitepaper-chunk-1-probabilistic-micropayments";
   "cipher-protocol-whitepaper-chunk-2-cryptographic-availability-proofs";
   "cipher-protocol-whitepaper-chunk-3-byzantine-slashing-and-settlement"]%string.

Record ProviderConfig := { pv_name : string; pv_isAdv : bool; pv_note : string; pv_startColl : Z }.
Definition providerConfigs : list ProviderConfig :=
  [{| pv_name := "Provider-1 (US-East)"; pv_isAdv := false;
      pv_note := "Honest CAS Provider (Dedicated NVMe)"; pv_startColl := 1000000 |};
   {| pv_name := "Provider-2 (EU-Central)"; pv_isAdv := false;
      pv_note := "Honest CAS Provider (High-Throughput)"; pv_startColl := 1000000 |};
   {| pv_name := "Provider-3 (Byzantine-Node)"; pv_isAdv := true;
      pv_note := "Adversary (Simulating Data Dropping & Forgery)"; pv_startColl := 1000000 |}].

Definition publisherID : string := "12D3KooWPubLiSherNode777AlphaX99".
Definition sim_escrow_text : string := "0x9fE46736679d2D9a65F0992F2272dE9f3c7fa6e0".

Definition provider_id (i : nat) (ethAddr : list byte) : string :=
  "12D3KooWProvider" +:+ format_int (Z.of_nat i + 1) +:+ "PeerIdentity" +:+ EncodeToString (take 4 ethAddr).
Definition contract_id (i : nat) : string := "avail-contract-p" +:+ format_int (Z.of_nat i + 1).

Definition no_announcement : SignedCacheAnnouncement :=
  {| sa_Announcement := {| ca_ProviderID := ""; ca_FileID := ""; ca_MerkleRoot := ""; ca_Version := 0;
                           ca_Expiry := zero_time |}; sa_Signature := [] |}.

Definition fresh_stats (coll : Z) : SimStats :=
  {| st_VoucherCount := 0; st_CumulativePay := 0; st_FailureStreak := 0; st_CollateralWei := coll;
     st_SlashedAmount := 0; st_State := "HEALTHY"; st_LastResult := "STANDBY"; st_LastLatencyMs := 0;
     st_TotalPasses := 0; st_TotalFails := 0 |}.

(** The manifest behind a provider's first announcement. *)
Definition sim_manifest (descID : list byte) : Manifest :=
  {| mf_Version := 1; mf_Descriptor := {| cd_ID := descID; cd_Type := "file"; cd_Size := 0 |};
     mf_ChunkIDs := []; mf_MerkleRoot := descID; mf_WholeHash := zero_bytes 32;
     mf_Crypto := {| cy_Algorithm := ""; cy_Version := 0; cy_ChunkNonceSize := 0; cy_KeyID := "" |} |}.

Section simulation.
Context {W : Type} {ED : Ed25519} {MC : ManifestCodec} {GC : GethCommon}.
Implicit Types (m : Sim W) (s : SimulationState) (b : CoordinatorBridge W).

(** One iteration of the loop over [providerConfigs].  A proof engine that is
    not created is a nil pointer, on which the next call panics. *)
Definition setup_provider (i : nat) (cfg : ProviderConfig) (sec : ProviderSecrets) m : result (Sim W) :=
  let pPub := ed_public (se_EdPrivKey sec) in
  let pID := provider_id i (se_EthAddress sec) in
  let! pEngine := NewProviderProofEngine pID (se_EdPrivKey sec) (Some (FSManifestStore ∅)) in
  let fileID := ss_FileID (sm_state m) in
  let pEngine := (RegisterFileChunks fileID rawChunks pEngine).1 in
  let cID := contract_id i in
  let b := (RegisterProvider pID (se_EthAddress sec) (sm_bridge m)).1 in
  let b := (RegisterContractSchedule cID (se_EscrowID sec) 250 1000 b).1 in
  let prov :=
    {| sp_ID := pID; sp_ShortName := pv_name cfg; sp_EthAddress := se_EthAddress sec;
       sp_IsAdversarial := pv_isAdv cfg; sp_BehaviorNote := pv_note cfg; sp_EdPubKey := pPub;
       sp_EdPrivKey := se_EdPrivKey sec; sp_ContractID := cID; sp_ProofEngine := pEngine;
       sp_Store := ∅; sp_stats := fresh_stats (pv_startColl cfg) |} in
  let signedAnn :=
    match CreateSignedCacheAnnouncement pID (se_EdPrivKey sec)
            (Some (sim_manifest (copy32 (ss_MerkleRoot (sm_state m))))) (24 * Hour) (se_annTime sec) with
    | Ok a => a
    | Err _ => no_announcement
    end in
  let replicas := (IngestAnnouncement signedAnn pPub (se_ingestTime sec) (sm_replicas m)).1 in
  Ok (on_state (AddLog "WIRE" "INFO"
        ("[" +:+ pv_name cfg +:+ "] Connected over /cipher/availability/1.0.0 (Eth: "
         +:+ slice 0 10 (AddressHex (se_EthAddress sec)) +:+ "...)") (se_logTime sec))
      (put_provider pID prov
        {| sm_state := sm_state m; sm_bridge := b; sm_replicas := replicas; sm_pool := sm_pool m |})).

Fixpoint setup_providers (i : nat) (l : list (ProviderConfig * ProviderSecrets)) m : result (Sim W) :=
  match l with
  | [] => Ok m
  | (cfg, sec) :: l' => let! m' := setup_provider i cfg sec m in setup_providers (S i) l' m'
  end.

Definition initial_state (epochs : Z) : SimulationState :=
  {| ss_FileID := ""; ss_ChunkCount := 4; ss_MerkleRoot := []; ss_TotalRequests := 0;
     ss_PoWDifficulty := 1; ss_CurrentDemand := 0; ss_RequiredReplicas := 2; ss_DemandHistory := [];
     ss_RecentPoWHash := ""; ss_RecentPoWNonce := 0; ss_Providers := ∅; ss_CurrentEpoch := 0;
     ss_TotalEpochs := epochs; ss_EpochActive := false; ss_LastChallengeID := ""; ss_LastNonceHex := "";
     ss_LastChunkID := 0; ss_TotalSlashed := 0; ss_SlashingEvents := []; ss_TxCount := 0;
     ss_LatestTxHash := ""; ss_EventLog := [] |}.

Definition set_file (root : list byte) s : SimulationState :=
  {| ss_FileID := EncodeToString (copy32 root); ss_ChunkCount := ss_ChunkCount s;
     ss_MerkleRoot := root; ss_TotalRequests := ss_TotalRequests s;
     ss_PoWDifficulty := ss_PoWDifficulty s; ss_CurrentDemand := ss_CurrentDemand s;
     ss_RequiredReplicas := ss_RequiredReplicas s; ss_DemandHistory := ss_DemandHistory s;
     ss_RecentPoWHash := ss_RecentPoWHash s; ss_RecentPoWNonce := ss_RecentPoWNonce s;
     ss_Providers := ss_Providers s; ss_CurrentEpoch := ss_CurrentEpoch s;
     ss_TotalEpochs := ss_TotalEpochs s; ss_EpochActive := ss_EpochActive s;
     ss_LastChallengeID := ss_LastChallengeID s; ss_LastNonceHex := ss_LastNonceHex s;
     ss_LastChunkID := ss_LastChunkID s; ss_TotalSlashed := ss_TotalSlashed s;
     ss_SlashingEvents := ss_SlashingEvents s; ss_TxCount := ss_TxCount s;
     ss_LatestTxHash := ss_LatestTxHash s; ss_EventLog := ss_EventLog s |}.

(** [epochs] and [k] are the flags; [ethKey] and [edKey] the publisher's keys,
    [now] the time of the first log entries. *)
Definition initialize (epochs k : Z) (ethKey edKey : list byte) (secrets : list ProviderSecrets) (now : Z)
    : result (Sim W) :=
  let s := AddLog "EVM" "SUCCESS"
             ("EscrowContract deployed at " +:+ AddressHex (HexToAddress sim_escrow_text)
              +:+ " (Settlement Window: 1 days)") now
             (AddLog "EVM" "INFO" "Initializing local Anvil Ethereum EVM on 127.0.0.1:8545" now
                (initial_state epochs)) in
  let! coordBridge := NewCoordinatorBridge
    {| bc_PublisherPeerID := publisherID; bc_PublisherEthKey := Some ethKey;
       bc_PublisherEdKey := edKey; bc_EscrowSubmitter := None; bc_FailureThreshold := u32 k |} in
  let! mTree := BuildMerkleTreeFromChunks rawChunks in
  let s := set_file (Root mTree) s in
  let s := AddLog "INGEST" "SUCCESS"
             ("Ingested cipher_whitepaper_v2.enc (4 Chunks, 32 KB each) -> Merkle Root: "
              +:+ slice 0 16 (EncodeToString (ss_MerkleRoot s)) +:+ "...") now s in
  setup_providers 0 (zip providerConfigs secrets)
    {| sm_state := s; sm_bridge := coordBridge; sm_replicas := []; sm_pool := empty_pool now |}.

(** ** Phase 2: the demand surge *)

Definition consumerClients : list string :=
  ["client-0x892a"; "client-0x4bf1"; "client-0xcd19"; "client-0x77aa"; "client-0x12bb"]%string.

(** The request pool after the proof of work: the clock has moved on, and timers
    may have fired. *)
Definition elapse (t : ClientTiming) (pool : Pool) : Pool :=
  foldl (λ pool p, fire_step p pool) (tick (ct_elapsed t) pool) (ct_fired t).

(** One client: [None] when [fuel] does not reach a nonce. *)
Definition client_request (fuel : nat) (t : ClientTiming) (clientID : string) m : option (Sim W) :=
  let s := sm_state m in
  let req := {| rq_FileID := ss_FileID s; rq_ClientID := clientID; rq_Timestamp := Unix (ct_now t);
                rq_Status := Pending |} in
  pow ← GeneratePoW fuel req (ss_PoWDifficulty s);
  let '(pool, r) := ValidateAndTrackRequest req pow (600 * Second) (elapse t (sm_pool m)) in
  Some {| sm_state :=
            match r with
            | Err _ => s
            | Ok _ =>
                set_demand (i64 (ss_TotalRequests s + 12)) (ss_CurrentDemand s) (ss_RequiredReplicas s)
                  (ss_DemandHistory s)
                  (EncodeToString (sha256 (bytes_of (pow_input req (pw_Nonce pow)))))
                  (pw_Nonce pow) s
            end;
          sm_bridge := sm_bridge m; sm_replicas := sm_replicas m; sm_pool := pool |}.

Fixpoint client_requests (fuel : nat) (times : string → ClientTiming) (clients : list string) m
    : option (Sim W) :=
  match clients with
  | [] => Some m
  | c :: clients' => m' ← client_request fuel (times c) c m; client_requests fuel times clients' m'
  end.

Definition demand_phase (fuel : nat) (times : SimTimes) m : option (Sim W) :=
  let m := on_state (AddLog "DEMAND" "WARN"
    "Consumer traffic surge detected! Initiating Proof-of-Request Hashcash PoW..." (tm_surge times)) m in
  m ← client_requests fuel (tm_client times) consumerClients m;
  Some (on_state (λ s,
    AddLog "DEMAND" "SUCCESS"
      "Validated 5 Hashcash PoW consumer proofs. Dynamic demand reached 68 req/s -> Replicas scaled to R=4"
      (tm_scaled times) (set_demand (ss_TotalRequests s) 68 4 (ss_DemandHistory s ++ [68]) (ss_RecentPoWHash s)
             (ss_RecentPoWNonce s) s)) m).

(** ** Phase 3: the epochs *)

Definition challenge_id (epoch : Z) (nonce : list byte) : string :=
  "epoch-" +:+ format_int epoch +:+ "-rnd-" +:+ EncodeToString (take 4 nonce).

Definition sim_challenge (epoch : Z) (inp : EpochInput) s (prov : SimProvider) (t : Timing) : Challenge :=
  {| ch_ChallengeID := challenge_id epoch (ei_nonce inp); ch_ContractID := sp_ContractID prov;
     ch_ProviderID := sp_ID prov; ch_FileID := ss_FileID s; ch_EpochID := "";
     ch_ChunkID := ei_chunk inp; ch_Nonce := ei_nonce inp; ch_ChallengeCounter := 0;
     ch_RoundNumber := 0; ch_TriggerStatus := false; ch_CreatedAt := ti_created t |}.

Definition sim_result (epoch : Z) (inp : EpochInput) (prov : SimProvider) (t : Timing) (st : string)
    : AvailabilityResult :=
  {| ar_ContractID := sp_ContractID prov; ar_ProviderID := sp_ID prov; ar_Period := u64 epoch;
     ar_ChallengeID := challenge_id epoch (ei_nonce inp); ar_Result := st; ar_Timestamp := ti_result t |}.

(** A call of the bridge whose error is dropped: the result is then the zero
    value of [DispatchResult], of which the program reads the voucher's
    sequence and amount and the slash flag. *)
Definition sim_dispatch (res : AvailabilityResult) (t : Timing) m : Sim W * (PaymentState * bool) :=
  let '(b, r) := DispatchAvailabilityResult res (ti_dispatch t) (sm_bridge m) in
  (set_bridge b m,
   match r with
   | Ok d => (default zero_payment (dr_PaymentState d), dr_SlashEligible d)
   | Err _ => (zero_payment, false)
   end).

Definition honest_path (epoch : Z) (inp : EpochInput) (id : string) (prov : SimProvider) (t : Timing) m
    : Sim W :=
  let x := sp_stats prov in
  let challenge := sim_challenge epoch inp (sm_state m) prov t in
  match HandleChallenge challenge (ti_responded t) (sp_ProofEngine prov) with
  | (e, Err err) =>
      put_provider id (set_stats
        {| st_VoucherCount := st_VoucherCount x; st_CumulativePay := st_CumulativePay x;
           st_FailureStreak := st_FailureStreak x; st_CollateralWei := st_CollateralWei x;
           st_SlashedAmount := st_SlashedAmount x; st_State := st_State x;
           st_LastResult := "FAIL (" +:+ Error err +:+ ")"; st_LastLatencyMs := ti_elapsedMs t;
           st_TotalPasses := st_TotalPasses x; st_TotalFails := st_TotalFails x |}
        (set_engine e prov)) m
  | (e, Ok resp) =>
      let prov := set_engine e prov in
      let latency := i64 (ti_elapsedMs t + (15 + epoch * 3)) in
      match VerifyChallengeResponse challenge resp (ss_MerkleRoot (sm_state m)) (sp_EdPubKey prov)
              (5 * Second) with
      | Err _ =>
          put_provider id (set_stats
            {| st_VoucherCount := st_VoucherCount x; st_CumulativePay := st_CumulativePay x;
               st_FailureStreak := st_FailureStreak x; st_CollateralWei := st_CollateralWei x;
               st_SlashedAmount := st_SlashedAmount x; st_State := st_State x;
               st_LastResult := st_LastResult x; st_LastLatencyMs := latency;
               st_TotalPasses := st_TotalPasses x; st_TotalFails := st_TotalFails x |} prov) m
      | Ok _ =>
          let '(m, (voucher, _)) := sim_dispatch (sim_result epoch inp prov t AvailabilityPass) t m in
          let cum := ps_CumulativePayment voucher in
          on_state (AddLog "VOUCHER" "SUCCESS"
              ("[" +:+ sp_ShortName prov +:+ "] Valid Merkle proof verified in " +:+ format_int latency
               +:+ "ms -> Issued signed PaymentState Voucher (Seq: " +:+ format_int (ps_Sequence voucher)
               +:+ ", Cumulative: " +:+ format_int cum +:+ " wei)") (ti_log t))
            (put_provider id (set_stats
              {| st_VoucherCount := i64 (st_VoucherCount x + 1); st_CumulativePay := cum;
                 st_FailureStreak := 0; st_CollateralWei := st_CollateralWei x;
                 st_SlashedAmount := st_SlashedAmount x; st_State := "HEALTHY";
                 st_LastResult := "PASS (Valid Merkle Proof)"; st_LastLatencyMs := latency;
                 st_TotalPasses := i64 (st_TotalPasses x + 1); st_TotalFails := st_TotalFails x |} prov) m)
      end
  end.

Definition zero_response : ChallengeResponse :=
  {| rs_ChallengeID := ""; rs_ContractID := ""; rs_ProviderID := ""; rs_FileID := ""; rs_ChunkID := 0;
     rs_ChunkHash := []; rs_MerkleProof := []; rs_Signature := []; rs_RespondedAt := zero_time |}.

Definition tamper_hash (r : ChallengeResponse) : ChallengeResponse :=
  {| rs_ChallengeID := rs_ChallengeID r; rs_ContractID := rs_ContractID r;
     rs_ProviderID := rs_ProviderID r; rs_FileID := rs_FileID r; rs_ChunkID := rs_ChunkID r;
     rs_ChunkHash := bytes_of "corrupt-tampered-data-payload-hash"; rs_MerkleProof := rs_MerkleProof r;
     rs_Signature := rs_Signature r; rs_RespondedAt := rs_RespondedAt r |}.
Definition replay_signature (r : ChallengeResponse) : ChallengeResponse :=
  {| rs_ChallengeID := rs_ChallengeID r; rs_ContractID := rs_ContractID r;
     rs_ProviderID := rs_ProviderID r; rs_FileID := rs_FileID r; rs_ChunkID := rs_ChunkID r;
     rs_ChunkHash := rs_ChunkHash r; rs_MerkleProof := rs_MerkleProof r;
     rs_Signature := bytes_of "replayed-stale-signature-from-epoch-0"; rs_RespondedAt := rs_RespondedAt r |}.

Definition count_fail (st note : string) (latency : Z) (x : SimStats) : SimStats :=
  {| st_VoucherCount := st_VoucherCount x; st_CumulativePay := st_CumulativePay x;
     st_FailureStreak := i64 (st_FailureStreak x + 1); st_CollateralWei := st_CollateralWei x;
     st_SlashedAmount := st_SlashedAmount x; st_State := st; st_LastResult := note;
     st_LastLatencyMs := latency; st_TotalPasses := st_TotalPasses x;
     st_TotalFails := i64 (st_TotalFails x + 1) |}.
Definition set_latency (latency : Z) (x : SimStats) : SimStats :=
  {| st_VoucherCount := st_VoucherCount x; st_CumulativePay := st_CumulativePay x;
     st_FailureStreak := st_FailureStreak x; st_CollateralWei := st_CollateralWei x;
     st_SlashedAmount := st_SlashedAmount x; st_State := st_State x; st_LastResult := st_LastResult x;
     st_LastLatencyMs := latency; st_TotalPasses := st_TotalPasses x; st_TotalFails := st_TotalFails x |}.

(** Rounds 1 and 2: a forged response; [note] and [msg] are the round's texts. *)
Definition forged_round (k epoch : Z) (inp : EpochInput) (id : string) (prov : SimProvider) (t : Timing)
    (forge : ChallengeResponse → ChallengeResponse) (note msg : string) m : Sim W :=
  let challenge := sim_challenge epoch inp (sm_state m) prov t in
  let '(e, r) := HandleChallenge challenge (ti_responded t) (sp_ProofEngine prov) in
  let prov := set_engine e prov in
  let resp := forge (match r with Ok resp => resp | Err _ => zero_response end) in
  match VerifyChallengeResponse challenge resp (ss_MerkleRoot (sm_state m)) (sp_EdPubKey prov)
          (5 * Second) with
  | Ok _ => put_provider id prov m
  | Err _ =>
      let prov := set_stats (count_fail "WARNING" note (st_LastLatencyMs (sp_stats prov)) (sp_stats prov)) prov in
      let '(m, _) := sim_dispatch (sim_result epoch inp prov t AvailabilityFail) t m in
      on_state (AddLog "PROOFS" "DANGER"
          ("[" +:+ sp_ShortName prov +:+ "] " +:+ msg +:+ " (Streak: "
           +:+ format_int (st_FailureStreak (sp_stats prov)) +:+ "/" +:+ format_int k +:+ ")") (ti_log t))
        (put_provider id prov m)
  end.

Definition penaltyWei : Z := 500000.

(** Slashing an eligible provider, once. *)
Definition slash_provider (epoch : Z) (inp : EpochInput) (id : string) (prov : SimProvider) (t : Timing) m
    : Sim W :=
  let x := sp_stats prov in
  let coll := if decide (st_CollateralWei x >= penaltyWei) then st_CollateralWei x - penaltyWei else 0 in
  let prov := set_stats
    {| st_VoucherCount := st_VoucherCount x; st_CumulativePay := st_CumulativePay x;
       st_FailureStreak := st_FailureStreak x; st_CollateralWei := coll;
       st_SlashedAmount := u64 (st_SlashedAmount x + penaltyWei); st_State := "SLASHED";
       st_LastResult := st_LastResult x; st_LastLatencyMs := st_LastLatencyMs x;
       st_TotalPasses := st_TotalPasses x; st_TotalFails := st_TotalFails x |} prov in
  let event :=
    {| sl_Timestamp := ti_slash t; sl_ContractID := sp_ContractID prov; sl_ProviderID := sp_ID prov;
       sl_PenaltyWei := penaltyWei;
       sl_Reason := "EscrowTypes.FailureReason.NonPossession (K=3 Consecutive Proof Failures)";
       sl_TxHash := "0x" +:+ EncodeToString (ei_txHash inp); sl_BlockNumber := u64 (142050 + epoch) |} in
  on_state (λ s,
    AddLog "SLASH" "DANGER"
      ("⚡ ON-CHAIN ACTION: EscrowContract.slashCollateral(" +:+ sp_ContractID prov
       +:+ ", 500,000 wei) executed! Tx: " +:+ slice 0 18 (sl_TxHash event) +:+ "... (Block: #"
       +:+ format_int (sl_BlockNumber event) +:+ ")") (ti_slash t) (add_slashing event s))
    (put_provider id prov m).

Definition dropped_round (epoch : Z) (inp : EpochInput) (id : string) (prov : SimProvider) (t : Timing) m
    : Sim W :=
  let prov := set_stats (count_fail (st_State (sp_stats prov)) "FAIL (Missing Chunk / Dropped)"
                           (st_LastLatencyMs (sp_stats prov)) (sp_stats prov)) prov in
  let '(m, (_, SlashEligible)) := sim_dispatch (sim_result epoch inp prov t AvailabilityFail) t m in
  let m := on_state (AddLog "PROOFS" "DANGER"
    ("[" +:+ sp_ShortName prov +:+ "] Challenge dropped / timeout! Consecutive failures reached K="
     +:+ format_int (st_FailureStreak (sp_stats prov)) +:+ " (SlashEligible: "
     +:+ (if SlashEligible : bool then "true" else "false") +:+ ")") (ti_log t)) (put_provider id prov m) in
  if decide (SlashEligible = true ∧ st_State (sp_stats prov) ≠ "SLASHED"%string)
  then slash_provider epoch inp id prov t m else m.

Definition adversarial_path (k epoch : Z) (inp : EpochInput) (id : string) (prov : SimProvider)
    (t : Timing) m : Sim W :=
  let prov := set_stats (set_latency (i64 (ti_elapsedMs t + (35 + epoch * 10))) (sp_stats prov)) prov in
  if decide (epoch = 1) then
    forged_round k epoch inp id prov t tamper_hash "FAIL (Tampered Merkle Leaf)"
      "Adversarial attack detected! Merkle leaf hash mismatch" m
  else if decide (epoch = 2) then
    forged_round k epoch inp id prov t replay_signature "FAIL (Stale Nonce Replay)"
      "Adversarial replay detected! Nonce binding invalid" m
  else if decide (epoch >= 3) then dropped_round epoch inp id prov t m
  else put_provider id prov m.

Definition challenge_provider (k epoch : Z) (inp : EpochInput) m (id : string) : Sim W :=
  match ss_Providers (sm_state m) !! id with
  | None => m
  | Some prov =>
      if negb (sp_IsAdversarial prov) then honest_path epoch inp id prov (ei_timing inp id) m
      else adversarial_path k epoch inp id prov (ei_timing inp id) m
  end.

Definition run_epoch (k epoch : Z) (inp : EpochInput) m : Sim W :=
  let nonceHex := slice 0 16 (EncodeToString (ei_nonce inp)) in
  let challengeID := challenge_id epoch (ei_nonce inp) in
  let m := on_state (λ s, AddLog "WIRE" "INFO"
    ("─── [EPOCH " +:+ format_int epoch +:+ "/" +:+ format_int (ss_TotalEpochs s) +:+ "] Broadcast Challenge "
     +:+ challengeID +:+ " (Chunk #" +:+ format_int (ei_chunk inp) +:+ ", Nonce: " +:+ nonceHex +:+ "...) ───")
    (ei_start inp) (set_epoch epoch true challengeID nonceHex (ei_chunk inp) s)) m in
  let m := foldl (challenge_provider k epoch inp) m (ei_order inp) in
  on_state (λ s, set_epoch (ss_CurrentEpoch s) false (ss_LastChallengeID s) (ss_LastNonceHex s)
                   (ss_LastChunkID s) s) m.

(** [for epoch := 1; epoch <= TotalEpochs; epoch++], an input per epoch. *)
Fixpoint run_epochs (k epoch : Z) (inputs : list EpochInput) m : Sim W :=
  match inputs with
  | [] => m
  | inp :: inputs' => run_epochs k (epoch + 1) inputs' (run_epoch k epoch inp m)
  end.

(** ** Phase 4 *)

Definition final_status (now : Z) m (id : string) : Sim W :=
  match ss_Providers (sm_state m) !! id with
  | None => m
  | Some p =>
      let x := sp_stats p in
      on_state
        (if decide (st_State x = "SLASHED"%string) then
           AddLog "EVM" "WARN" ("[" +:+ sp_ShortName p
             +:+ "] Final Contract Status: SettlementWithheld (Collateral Slashed: "
             +:+ format_int (st_SlashedAmount x) +:+ " wei, Payout Withheld)") now
         else
           AddLog "EVM" "SUCCESS" ("[" +:+ sp_ShortName p
             +:+ "] Final Contract Status: SettlementCompleted (Total Earned: "
             +:+ format_int (st_CumulativePay x) +:+ " wei, 100% Collateral Safe)") now) m
  end.

Definition conclude (now : Z) (order : list string) m : Sim W :=
  foldl (final_status now) (on_state (AddLog "EVM" "SUCCESS" "═══ ALL CHALLENGE EPOCHS CONCLUDED ═══" now) m)
    order.

(** The whole program; [None] when the proof-of-work search runs out of fuel.
    The number of epochs is the number of their inputs. *)
Definition simulate (fuel : nat) (k : Z) (ethKey edKey : list byte) (secrets : list ProviderSecrets)
    (times : SimTimes) (inputs : list EpochInput) (finalOrder : list string) : option (result (Sim W)) :=
  match initialize (zlen inputs) k ethKey edKey secrets (tm_init times) with
  | Err e => Some (Err e)
  | Ok m =>
      m ← demand_phase fuel times m;
      Some (Ok (conclude (tm_end times) finalOrder (run_epochs k 1 inputs m)))
  end.

(** ** Dispatches that cannot fail *)

(** What the bridge holds for a contract whose accepted results are [h], when
    nothing stands in the way of the next one. *)
Record contract_ready (b : CoordinatorBridge W) (cid : string) (escrow : list byte) (ppp maxp : Z)
    (pid : string) (h : list AvailabilityResult) : Prop := {
  rd_history : bridge_history cid escrow ppp maxp h b;
  rd_provider : ∃ a, ProviderAddress pid (pc_bindings (ds_coordinator (cb_dispatcher b))) = Some a;
  rd_store : ∃ st, pc_stores (ds_coordinator (cb_dispatcher b)) !! hex_String escrow = Some st ∧
    (pst_HasState st = true →
     ps_ContractID (pst_Latest st) = hex_String escrow ∧ ps_Sequence (pst_Latest st) <= zlen h ∧
     ps_CumulativePayment (pst_Latest st) <= Z.min maxp (ppp * passed h));
  rd_ttl : 0 < pc_paymentStateTTL (ds_coordinator (cb_dispatcher b));
  rd_publisher : pc_publisherID (ds_coordinator (cb_dispatcher b)) ≠ ""%string;
  rd_key : zlen (cb_publisherEdKey b) = PrivateKeySize;
}.

Lemma CreateAndSign_live (key : list byte) res cum seq now (c : PublisherCoordinator W) escrow a st :
  zlen key = PrivateKeySize → ar_Result res = AvailabilityPass →
  ar_ContractID res ≠ ""%string → ar_ChallengeID res ≠ ""%string →
  0 < pc_paymentStateTTL c → pc_publisherID c ≠ ""%string →
  EscrowID (ar_ContractID res) (pc_bindings c) = Some escrow →
  ProviderAddress (ar_ProviderID res) (pc_bindings c) = Some a →
  pc_stores c !! hex_String escrow = Some st →
  (pst_HasState st = true → ps_ContractID (pst_Latest st) = hex_String escrow ∧
     ps_Sequence (pst_Latest st) < seq ∧ ps_CumulativePayment (pst_Latest st) <= cum) →
  ∃ c' v, CreateAndSignPaymentState (SG := Ed25519Signer key) res cum seq now c = (c', Ok v).
Proof.
  intros Hk Hp Hc Hch Ht Hpub He Ha Hs Hst. unfold CreateAndSignPaymentState.
  rewrite (decide_False (P := ar_Result res ≠ _)) by tauto. rewrite decide_False by lia.
  rewrite He, Ha, Hs. rewrite decide_False by (intros [Hh ?]; destruct (Hst Hh); lia).
  unfold CreatePaymentState. rewrite decide_False by (intros [?|[?|[?|?]]]; done).
  rewrite decide_False by (simpl; tauto). cbn [Sign Ed25519Signer]. unfold SignPaymentState.
  rewrite decide_False by lia. rewrite decide_False by (intros [?|[?|?]]; done).
  unfold StorePaymentState. cbn [set_sig set_target ps_ContractID ps_PublisherSignature ps_Sequence
    ps_CumulativePayment].
  rewrite decide_False.
  - rewrite decide_False by (intros [Hh [?|[?|?]]]; destruct (Hst Hh) as (? & ? & ?); [congruence|lia|lia]). eauto.
  - unfold zlen. rewrite ed_sign_length by (unfold zlen, PrivateKeySize in Hk; lia).
    intros [?|?]; [done|lia].
Qed.

Lemma ready_dispatch b cid escrow ppp maxp pid h res now :
  contract_ready b cid escrow ppp maxp pid h →
  cid ≠ ""%string → ar_ContractID res = cid → ar_ProviderID res = pid →
  ar_ChallengeID res ≠ ""%string → ar_ChallengeID res ∉ (ar_ChallengeID <$> h) →
  ar_Result res = AvailabilityPass ∨ ar_Result res = AvailabilityFail → zlen h < MaxUint64 →
  ∃ b' out, DispatchAvailabilityResult res now b = (b', Ok out) ∧
    contract_ready b' cid escrow ppp maxp pid (h ++ [res]).
Proof.
  intros [Hh [a Ha] (st & Hst & Hlast) Ht Hpub Hk] Hne Hc Hpid Hch Hfresh Hstat Hlen.
  pose proof (history_inv _ _ _ _ _ _ (bridge_refines _ _ _ _ _ _ Hh)) as [[Hterms Hm] HK Hb (s & Hs & Href)].
  pose proof Href as [Hppp Hmax Hesc Hseq Hsb Hcm Hids Hnd Hfl Hln Hsk].
  assert (Hlive : ∃ b' out, DispatchAvailabilityResult res now b = (b', Ok out)).
  { unfold DispatchAvailabilityResult, Dispatcher.DispatchAvailabilityResult, validateResult.
    rewrite Hc, !(decide_False (P := _ = ""%string)) by done. rewrite (decide_True (P := _ ∨ _)) by done.
    rewrite Hs. rewrite decide_False by (by rewrite Hids). rewrite decide_False by lia.
    destruct (decide (ar_Result res = AvailabilityPass)) as [Hp|Hp].
    - destruct (pass_refines (cb_dispatcher b) (ds_coordinator (cb_dispatcher b)) escrow ppp maxp h s res)
        as (Hcum & Hsq & _); try done; [lia|by rewrite Hids|lia|].
      rewrite Hcum, Hsq.
      destruct (CreateAndSign_live (cb_publisherEdKey b) res (Z.min maxp (ppp * passed (h ++ [res])))
        (zlen h + 1) now (ds_coordinator (cb_dispatcher b)) escrow a st) as (c' & v & E);
        try done; [by rewrite Hc|by rewrite Hc|by rewrite Hpid| |].
      { intros Hhas. destruct (Hlast Hhas) as (? & ? & ?). split_and!; [done|lia|].
        rewrite passed_snoc, decide_True by done. pose proof (passed_nonneg h). nia. }
      rewrite E. eauto.
    - destruct Hstat as [?|Hf]; [done|]. rewrite decide_True by done.
      unfold buildAndSignFailRecord, ProviderAddressFor. rewrite Hpid, Ha. cbn. eauto. }
  destruct Hlive as (b' & out & E). exists b', out. split; [done|].
  pose proof (bh_dispatch _ _ _ _ _ _ _ _ _ _ Hh E) as Hh'.
  rewrite bool_decide_true in Hh' by done. cbn [is_ok andb] in Hh'.
  pose proof (bridge_key res now b) as Hkey. rewrite E in Hkey. cbn [fst] in Hkey.
  pose proof E as Ed. unfold DispatchAvailabilityResult in Ed.
  destruct (Dispatcher.DispatchAvailabilityResult _ _ _) as [d x] eqn:E2. injection Ed as <- ->.
  destruct (decide (ar_Result res = AvailabilityPass)) as [Hp|Hp].
  - destruct (pass_stored _ _ _ _ _ _ _ _ _ _ (bridge_refines _ _ _ _ _ _ Hh) E2 Hc Hp)
      as (v & addr & _ & _ & Hsig & _ & _ & Hd).
    apply Sign_Ok in Hsig as (sig & _ & ->).
    cbn [with_dispatcher cb_dispatcher] in *.
    split; [done|..]; cbn [with_dispatcher cb_dispatcher]; try rewrite Hd; cbn; try done; [by eauto|].
    rewrite lookup_insert_eq. eexists. split; [done|]. cbn. intros _. rewrite zlen_app, passed_snoc.
    change (zlen [res]) with 1. rewrite decide_True by done. split; [done|]. split; lia.
  - apply Dispatch_Ok in E2 as (s' & _ & _ & _ & [(? & _)|(_ & rec & n & k & _ & _ & _ & -> & _)]); [done|].
    split; [done|by eauto| |done..]. cbn. exists st. split; [done|]. intros Hhas.
    destruct (Hlast Hhas) as (? & ? & ?). rewrite zlen_app, passed_snoc.
    change (zlen [res]) with 1. rewrite decide_False by done. split; [done|]. split; [lia|done].
Qed.

(** A dispatch for a contract with another escrow identifier. *)
Lemma ready_other b cid escrow ppp maxp pid h res now e' :
  contract_ready b cid escrow ppp maxp pid h → ar_ContractID res ≠ cid →
  EscrowID (ar_ContractID res) (pc_bindings (ds_coordinator (cb_dispatcher b))) = Some e' →
  e' ≠ escrow →
  contract_ready (DispatchAvailabilityResult res now b).1 cid escrow ppp maxp pid h.
Proof.
  intros [Hh [a Ha] (st & Hst & Hlast) Ht Hpub Hk] Hc He Hne.
  pose proof (bridge_key res now b) as Hkey.
  destruct (DispatchAvailabilityResult res now b) as [b' r] eqn:E. cbn [fst] in *.
  pose proof (bh_dispatch _ _ _ _ _ _ _ _ _ _ Hh E) as Hh'.
  rewrite bool_decide_false, andb_false_r in Hh' by done.
  unfold DispatchAvailabilityResult in E.
  destruct (Dispatcher.DispatchAvailabilityResult _ _ _) as [d x] eqn:E2. injection E as <- <-.
  destruct x as [out|e]; [|apply Dispatch_Err in E2 as ->; split; eauto].
  apply Dispatch_Ok in E2 as (s' & _ & _ & _ & [(_ & cum & c & sg & _ & Hsign & -> & _)|(_ & rec & n & k & _ & _ & _ & -> & _)]);
    [|split; eauto].
  apply CreateAndSign_Ok in Hsign as (e1 & a1 & sig & store & _ & He1 & _ & _ & _ & _ & _ & ->).
  rewrite He in He1. injection He1 as <-.
  split; [done|by eauto| |done..]. cbn. rewrite lookup_insert_ne by (by intros ?%hex_String_inj). eauto.
Qed.

(** The verdict on a failure, in terms of the history. *)
Lemma fail_eligible b cid escrow ppp maxp h res now b' out :
  bridge_history cid escrow ppp maxp h b → DispatchAvailabilityResult res now b = (b', Ok out) →
  ar_ContractID res = cid → ar_Result res = AvailabilityFail →
  dr_SlashEligible out = bool_decide (ds_failureThreshold (cb_dispatcher b) <= trailing h + 1).
Proof.
  intros Hh E Hc Hf. unfold DispatchAvailabilityResult in E.
  destruct (Dispatcher.DispatchAvailabilityResult _ _ _) as [d x] eqn:E2. injection E as _ ->.
  pose proof (history_inv _ _ _ _ _ _ (bridge_refines _ _ _ _ _ _ Hh)) as [_ HK _ (s & Hs & Href)].
  apply Dispatch_Ok in E2 as (s' & Hs' & _ & _ & [(Hp & _)|(_ & rec & n & k & _ & -> & _ & _ & _ & _ & _ & -> & _)]);
    [rewrite Hp in Hf; discriminate Hf|].
  rewrite Hc, Hs in Hs'. injection Hs' as <-. destruct Href as [_ _ _ _ _ _ _ _ -> _ _].
  pose proof (trailing_nonneg h). apply bool_decide_ext. case_decide; lia.
Qed.

Lemma trailing_all_fail h : Forall (λ a, ar_Result a = AvailabilityFail) h → trailing h = zlen h.
Proof.
  induction h as [|a h IH] using rev_ind; [done|]. intros [Hh Ha]%Forall_snoc.
  rewrite trailing_snoc, decide_True, IH, zlen_app by done. done.
Qed.
Lemma passed_all_pass h : Forall (λ a, ar_Result a = AvailabilityPass) h → passed h = zlen h.
Proof.
  induction h as [|a h IH] using rev_ind; [done|]. intros [Hh Ha]%Forall_snoc.
  rewrite passed_snoc, decide_True, IH, zlen_app by done. done.
Qed.

Lemma challenge_id_fresh e n h :
  1 <= e → Forall (λ a, ∃ e' n', 1 <= e' < e ∧ ar_ChallengeID a = challenge_id e' n') h →
  challenge_id e n ∉ (ar_ChallengeID <$> h).
Proof.
  intros He Hf Hin. apply list_elem_of_fmap in Hin as (a & Ha & Hin).
  rewrite Forall_forall in Hf. destruct (Hf a Hin) as (e' & n' & He' & Hid). rewrite Hid in Ha.
  unfold challenge_id in Ha. change ("epoch-" +:+ ?x) with (String "e" (String "p" (String "o"
    (String "c" (String "h" (String "-" x)))))) in Ha. injection Ha as Ha.
  apply format_int_dash_inj in Ha; lia.
Qed.

(** One provider as the run sees it: who it is, and its contract. *)
Record Role := { ro_id : string; ro_cid : string; ro_escrow : list byte; ro_adv : bool }.

(** The epoch in which the adversary is slashed. *)
Definition slash_epoch (K : Z) : Z := Z.max 3 K.

Definition honest_stats (c : Z) (x : SimStats) : Prop :=
  st_VoucherCount x = c ∧ st_TotalPasses x = c ∧ st_CumulativePay x = Z.min 1000 (250 * c) ∧
  st_FailureStreak x = 0 ∧ st_TotalFails x = 0 ∧ st_CollateralWei x = 1000000 ∧
  st_SlashedAmount x = 0 ∧ st_State x = "HEALTHY"%string.

Definition adversary_stats (K c : Z) (x : SimStats) : Prop :=
  st_VoucherCount x = 0 ∧ st_TotalPasses x = 0 ∧ st_CumulativePay x = 0 ∧
  st_FailureStreak x = c ∧ st_TotalFails x = c ∧
  if decide (slash_epoch K <= c)
  then st_CollateralWei x = 500000 ∧ st_SlashedAmount x = 500000 ∧ st_State x = "SLASHED"%string
  else st_CollateralWei x = 1000000 ∧ st_SlashedAmount x = 0 ∧ st_State x ≠ "SLASHED"%string.

(** The ledger after [c] visits of the adversary [id]. *)
Definition ledger (K c : Z) (id : string) s : Prop :=
  if decide (slash_epoch K <= c)
  then ∃ ev, ss_SlashingEvents s = [ev] ∧ sl_ProviderID ev = id ∧ sl_PenaltyWei ev = penaltyWei ∧
         sl_BlockNumber ev = 142050 + slash_epoch K ∧ ss_TotalSlashed s = penaltyWei ∧ ss_TxCount s = 1
  else ss_SlashingEvents s = [] ∧ ss_TotalSlashed s = 0 ∧ ss_TxCount s = 0.

Definition engine_inv (fileID : string) (t : MerkleTree) (p : SimProvider) : Prop :=
  provider_tree (sp_ProofEngine p) fileID = Some t ∧ ed_valid (pe_privKey (sp_ProofEngine p)) ∧
  pe_pubKey (sp_ProofEngine p) = ed_public (pe_privKey (sp_ProofEngine p)) ∧
  pe_providerID (sp_ProofEngine p) = sp_ID p ∧ sp_EdPubKey p = pe_pubKey (sp_ProofEngine p).

(** The provider of role [r] after it has been challenged [c] times. *)
Record role_inv (K : Z) (t : MerkleTree) (c : Z) (r : Role) m (p : SimProvider)
    (h : list AvailabilityResult) : Prop := {
  ri_lookup : ss_Providers (sm_state m) !! ro_id r = Some p;
  ri_id : sp_ID p = ro_id r;
  ri_cid : sp_ContractID p = ro_cid r;
  ri_adv : sp_IsAdversarial p = ro_adv r;
  ri_engine : engine_inv (ss_FileID (sm_state m)) t p;
  ri_ready : contract_ready (sm_bridge m) (ro_cid r) (ro_escrow r) 250 1000 (ro_id r) h;
  ri_length : zlen h = c;
  ri_challenges : Forall (λ a, ∃ e n, 1 <= e < c + 1 ∧ ar_ChallengeID a = challenge_id e n) h;
  ri_results : Forall (λ a, ar_Result a = if ro_adv r then AvailabilityFail else AvailabilityPass) h;
  ri_stats : if ro_adv r then adversary_stats K c (sp_stats p) else honest_stats c (sp_stats p);
}.

(** What a visit leaves alone. *)
Record visit_frame (r : Role) m m' : Prop := {
  vf_providers : ∃ p, ss_Providers (sm_state m') = <[ro_id r := p]> (ss_Providers (sm_state m));
  vf_bridge : ∃ res now, ar_ContractID res = ro_cid r ∧
    sm_bridge m' = (DispatchAvailabilityResult res now (sm_bridge m)).1;
  vf_file : ss_FileID (sm_state m') = ss_FileID (sm_state m);
  vf_root : ss_MerkleRoot (sm_state m') = ss_MerkleRoot (sm_state m);
}.

(** The results of a role, dispatched through the bridge. *)
Lemma role_dispatch K t c r m p h res now :
  role_inv K t c r m p h → ro_cid r ≠ ""%string → 0 <= c < 2 ^ 62 →
  ar_ContractID res = ro_cid r → ar_ProviderID res = ro_id r →
  (∃ n, ar_ChallengeID res = challenge_id (c + 1) n) →
  ar_Result res = (if ro_adv r then AvailabilityFail else AvailabilityPass) →
  ∃ b' out, DispatchAvailabilityResult res now (sm_bridge m) = (b', Ok out) ∧
    contract_ready b' (ro_cid r) (ro_escrow r) 250 1000 (ro_id r) (h ++ [res]) ∧
    zlen (h ++ [res]) = c + 1 ∧
    Forall (λ a, ∃ e n, 1 <= e < c + 1 + 1 ∧ ar_ChallengeID a = challenge_id e n) (h ++ [res]) ∧
    Forall (λ a, ar_Result a = if ro_adv r then AvailabilityFail else AvailabilityPass) (h ++ [res]).
Proof.
  intros [] Hne Hc Hcid Hpid [n Hn] Hres.
  destruct (ready_dispatch _ _ _ _ _ _ _ res now ri_ready0) as (b' & out & E & Hr); try done.
  - rewrite Hn. done.
  - rewrite Hn. apply challenge_id_fresh; [lia|]. done.
  - rewrite Hres. destruct (ro_adv r); auto.
  - rewrite ri_length0. unfold MaxUint64. lia.
  - exists b', out. split_and!; [done|done|rewrite zlen_app, ri_length0; done| |].
    + apply Forall_app. split; [|repeat constructor; exists (c + 1), n; split; [lia|done]].
      eapply Forall_impl; [exact ri_challenges0|]. simpl. intros a (e & n' & ? & ?). exists e, n'.
      split; [lia|done].
    + apply Forall_app. split; [done|]. by repeat constructor.
Qed.

(** A chunk of the file, and answers within the five seconds the publisher
    allows. *)
Definition input_ok (inp : EpochInput) : Prop :=
  0 <= ei_chunk inp < 4 ∧
  ∀ id, ti_responded (ei_timing inp id) <= ti_created (ei_timing inp id) + 5 * Second.

Definition same_ledger s s' : Prop :=
  ss_SlashingEvents s' = ss_SlashingEvents s ∧ ss_TotalSlashed s' = ss_TotalSlashed s ∧
  ss_TxCount s' = ss_TxCount s.

Lemma ledger_same K c id s s' : same_ledger s s' → ledger K c id s → ledger K c id s'.
Proof. unfold ledger. by intros (-> & -> & ->). Qed.

Lemma engine_inv_step f t p ch now e r :
  engine_inv f t p → HandleChallenge ch now (sp_ProofEngine p) = (e, r) → engine_inv f t (set_engine e p).
Proof.
  intros (H1 & H2 & H3 & H4 & H5) E. pose proof (generateResponse_trees _ _ _ _ _ _ _ f E) as Ht.
  apply generateResponse_keeps in E as [Hk _]. unfold engine_inv. cbn [set_engine sp_ProofEngine sp_ID sp_EdPubKey].
  rewrite Ht, Hk. done.
Qed.

Lemma engine_inv_stats f t p x : engine_inv f t p → engine_inv f t (set_stats x p).
Proof. done. Qed.

Lemma challenge_id_nonempty e n : challenge_id e n ≠ ""%string.
Proof. done. Qed.

(** Changes that touch neither the bridge nor the providers, file and ledger. *)
Record same_core m m' : Prop := {
  sc_bridge : sm_bridge m' = sm_bridge m;
  sc_providers : ss_Providers (sm_state m') = ss_Providers (sm_state m);
  sc_file : ss_FileID (sm_state m') = ss_FileID (sm_state m);
  sc_root : ss_MerkleRoot (sm_state m') = ss_MerkleRoot (sm_state m);
  sc_difficulty : ss_PoWDifficulty (sm_state m') = ss_PoWDifficulty (sm_state m);
  sc_ledger : same_ledger (sm_state m) (sm_state m');
}.

#[local] Instance same_core_po : PreOrder same_core.
Proof.
  split; [by split|]. intros x y z [H1 H2 H3 H4 H5 (H6 & H7 & H8)] [G1 G2 G3 G4 G5 (G6 & G7 & G8)].
  split; [..|split_and!]; congruence.
Qed.

Lemma same_core_state f m :
  ss_Providers (f (sm_state m)) = ss_Providers (sm_state m) → ss_FileID (f (sm_state m)) = ss_FileID (sm_state m) →
  ss_MerkleRoot (f (sm_state m)) = ss_MerkleRoot (sm_state m) →
  ss_PoWDifficulty (f (sm_state m)) = ss_PoWDifficulty (sm_state m) →
  same_ledger (sm_state m) (f (sm_state m)) → same_core m (on_state f m).
Proof. by split. Qed.

Section visits.
Context (K : Z) (t : MerkleTree) (leaves : list (list byte)).
Context (Htree : NewMerkleTree leaves = Ok t) (Hleaves : zlen leaves = 4).

Lemma honest_visit c r m p h inp :
  role_inv K t c r m p h → ro_adv r = false → ro_cid r ≠ ""%string → 0 <= c < 2 ^ 62 →
  ss_MerkleRoot (sm_state m) = Root t → input_ok inp →
  let m' := honest_path (c + 1) inp (ro_id r) p (ei_timing inp (ro_id r)) m in
  visit_frame r m m' ∧ same_ledger (sm_state m) (sm_state m') ∧ ∃ p' h', role_inv K t (c + 1) r m' p' h'.
Proof using Htree Hleaves.
  intros Hri Hadv Hne Hc Hroot [Hchunk Htime]. pose proof Hri as [Hlk Hid Hcid Hia Heng Hrd Hlen Hch Hres Hst].
  unfold honest_path. set (tm := ei_timing inp (ro_id r)) in *. pose proof Heng as (Ht & Hv & Hpk & Hpid & Hed).
  destruct (honest_accepted (sp_ProofEngine p) (sim_challenge (c + 1) inp (sm_state m) p tm)
    (ti_responded tm) (5 * Second) leaves t) as (e & resp & E1 & E2); try done.
  { cbn [sim_challenge ch_ChunkID]. by rewrite Hleaves. }
  { intros _. apply Htime. }
  rewrite E1. cbn [set_engine sp_EdPubKey]. rewrite Hroot, Hed, E2.
  unfold sim_dispatch. set (res := sim_result (c + 1) inp _ tm _).
  destruct (role_dispatch _ _ _ _ _ _ _ res (ti_dispatch tm) Hri Hne Hc) as (b' & out & Ed & Hr' & Hl' & Hc' & Hp');
    [done|done|by eexists|by rewrite Hadv|].
  rewrite Ed. cbv zeta iota beta.
  assert (Hcum : ps_CumulativePayment (default zero_payment (dr_PaymentState out)) = Z.min 1000 (250 * (c + 1))).
  { unfold DispatchAvailabilityResult in Ed.
    destruct (Dispatcher.DispatchAvailabilityResult _ _ _) as [d x] eqn:Ex. injection Ed as _ ->.
    destruct (pass_voucher _ _ _ _ _ _ _ _ _ _ (bridge_refines _ _ _ _ _ _ (rd_history _ _ _ _ _ _ _ Hrd)) Ex)
      as (v & -> & _ & _ & _ & _ & Hcv & _); [done|done|].
    rewrite passed_all_pass, Hlen in Hcv by (by rewrite Hadv in Hres). exact Hcv. }
  rewrite Hcum. split; [|split; [done|]].
  - split; [by eexists| |done|done]. exists res, (ti_dispatch tm). split; [done|]. by rewrite Ed.
  - eexists _, (h ++ [res]). split; [apply lookup_insert_eq|..]; try done.
    + apply engine_inv_stats. by eapply engine_inv_step.
    + rewrite Hadv in Hst |- *. destruct Hst as (H1 & H2 & H3 & H4 & H5 & H6 & H7 & H8). unfold honest_stats.
      cbn. rewrite H1, H2, H5, H6, H7. rewrite !i64_id by (unfold is_i64; lia). done.
Qed.

Lemma tampered_rejected ch r root pk timeout : VerifyChallengeResponse ch (tamper_hash r) root pk timeout ≠ Ok tt.
Proof. intros [_ _ _ _ _ _ _ _ Hm _]%VerifyChallengeResponse_spec. discriminate Hm. Qed.

Lemma replay_rejected ch r root pk timeout :
  length pk = 32%nat → VerifyChallengeResponse ch (replay_signature r) root pk timeout ≠ Ok tt.
Proof.
  intros Hpk [_ _ _ _ _ _ _ _ _ Hs]%VerifyChallengeResponse_spec.
  destruct Hs as (_ & Hs & _); [by destruct pk|]. discriminate Hs.
Qed.

Lemma sim_dispatch_eq res tm m b' out :
  DispatchAvailabilityResult res (ti_dispatch tm) (sm_bridge m) = (b', Ok out) →
  sim_dispatch res tm m = (set_bridge b' m, (default zero_payment (dr_PaymentState out), dr_SlashEligible out)).
Proof. unfold sim_dispatch. by intros ->. Qed.

Lemma adversary_count c x st note lat :
  adversary_stats K c x → 0 <= c < 2 ^ 62 → c + 1 < slash_epoch K → st ≠ "SLASHED"%string →
  adversary_stats K (c + 1) (count_fail st note lat x).
Proof.
  intros (H1 & H2 & H3 & H4 & H5 & H6) Hc Hs Hne. rewrite decide_False in H6 by lia. unfold adversary_stats.
  rewrite decide_False by lia. cbn. rewrite H4, H5, !i64_id by (unfold is_i64; lia). tauto.
Qed.

Lemma forged_visit k c r m p h inp forge note msg lat :
  role_inv K t c r m p h → ro_adv r = true → ro_cid r ≠ ""%string → 0 <= c < 2 ^ 62 →
  c + 1 < slash_epoch K → ledger K c (ro_id r) (sm_state m) →
  (∀ ch x root, VerifyChallengeResponse ch (forge x) root (sp_EdPubKey p) (5 * Second) ≠ Ok tt) →
  let m' := forged_round k (c + 1) inp (ro_id r) (set_stats (set_latency lat (sp_stats p)) p)
              (ei_timing inp (ro_id r)) forge note msg m in
  visit_frame r m m' ∧ ledger K (c + 1) (ro_id r) (sm_state m') ∧
  ∃ p' h', role_inv K t (c + 1) r m' p' h'.
Proof.
  intros Hri Hadv Hne Hc Hs Hled Hforge. pose proof Hri as [Hlk Hid Hcid Hia Heng Hrd Hlen Hch Hres Hst].
  unfold forged_round. set (tm := ei_timing inp (ro_id r)) in *.
  destruct (HandleChallenge _ _ _) as [e x] eqn:E1. cbn [set_engine set_stats sp_EdPubKey].
  destruct (VerifyChallengeResponse _ _ _ _ _) as [[]|er] eqn:E2; [by apply Hforge in E2|].
  set (res := sim_result (c + 1) inp _ tm _).
  destruct (role_dispatch _ _ _ _ _ _ _ res (ti_dispatch tm) Hri Hne Hc) as (b' & out & Ed & Hr' & Hl' & Hc' & Hp');
    [done|done|by eexists|by rewrite Hadv|].
  rewrite (sim_dispatch_eq _ _ _ _ _ Ed). cbv zeta iota beta. split; [|split].
  - split; [by eexists| |done|done]. exists res, (ti_dispatch tm). split; [done|]. by rewrite Ed.
  - revert Hled. unfold ledger. by rewrite !decide_False by lia.
  - eexists _, (h ++ [res]). split; [apply lookup_insert_eq|..]; try done.
    + apply engine_inv_stats. by eapply engine_inv_step; [apply engine_inv_stats|].
    + rewrite Hadv in Hst |- *. by apply adversary_count.
Qed.

Lemma dropped_visit c r m p h inp lat :
  role_inv K t c r m p h → ro_adv r = true → ro_cid r ≠ ""%string → 2 <= c < 2 ^ 62 →
  ds_failureThreshold (cb_dispatcher (sm_bridge m)) = K → ledger K c (ro_id r) (sm_state m) →
  let m' := dropped_round (c + 1) inp (ro_id r) (set_stats (set_latency lat (sp_stats p)) p)
              (ei_timing inp (ro_id r)) m in
  visit_frame r m m' ∧ ledger K (c + 1) (ro_id r) (sm_state m') ∧
  ∃ p' h', role_inv K t (c + 1) r m' p' h'.
Proof.
  intros Hri Hadv Hne Hc HK Hled. pose proof Hri as [Hlk Hid Hcid Hia Heng Hrd Hlen Hch Hres Hst].
  unfold dropped_round. set (tm := ei_timing inp (ro_id r)) in *. set (res := sim_result (c + 1) inp _ tm _).
  destruct (role_dispatch _ _ _ _ _ _ _ res (ti_dispatch tm) Hri Hne) as (b' & out & Ed & Hr' & Hl' & Hc' & Hp');
    [lia|done|done|by eexists|by rewrite Hadv|].
  rewrite (sim_dispatch_eq _ _ _ _ _ Ed). cbv zeta iota beta.
  pose proof (fail_eligible _ _ _ _ _ _ _ _ _ _ (rd_history _ _ _ _ _ _ _ Hrd) Ed Hcid eq_refl) as Hel.
  rewrite trailing_all_fail, Hlen, HK in Hel by (by rewrite Hadv in Hres).
  rewrite Hadv in Hst. pose proof Hst as (H1 & H2 & H3 & H4 & H5 & H6).
  assert (Hiff : slash_epoch K <= c + 1 ↔ dr_SlashEligible out = true)
    by (rewrite Hel, bool_decide_eq_true; unfold slash_epoch; lia).
  cbn [count_fail set_latency set_stats sp_stats st_State].
  destruct (decide (dr_SlashEligible out = true ∧ _)) as [Hslash|Hslash].
  - destruct Hslash as [He Hns]. apply Hiff in He.
    assert (Hs : ¬ slash_epoch K <= c) by (intros Hs; rewrite decide_True in H6 by done; tauto).
    rewrite decide_False in H6 by done. destruct H6 as (H6 & H7 & _).
    split; [|split].
    + split; [| |done|done].
      * cbn. rewrite insert_insert_eq. by eexists.
      * exists res, (ti_dispatch tm). split; [done|]. by rewrite Ed.
    + unfold ledger in *. rewrite decide_True by lia. rewrite decide_False in Hled by done.
      destruct Hled as (L1 & L2 & L3). cbn. rewrite L1, L2, L3. eexists. split; [done|]. cbn.
      rewrite (u64_id (142050 + (c + 1))) by (unfold is_u64; lia). split_and!; try done. lia.
    + eexists _, (h ++ [res]). split; [apply lookup_insert_eq|..]; try done.
      rewrite Hadv. unfold adversary_stats. rewrite (decide_True (P := slash_epoch K <= c + 1)) by lia. cbn.
      rewrite H4, H5, H6, H7, !i64_id by (unfold is_i64; lia). done.
  - assert (Hsame : slash_epoch K <= c + 1 ↔ slash_epoch K <= c).
    { split; [|lia]. intros Hs%Hiff. destruct (decide (slash_epoch K <= c)); [done|]. tauto. }
    split; [|split].
    + split; [by eexists| |done|done]. exists res, (ti_dispatch tm). split; [done|]. by rewrite Ed.
    + revert Hled. unfold ledger. by rewrite (decide_ext _ _ _ _ Hsame).
    + eexists _, (h ++ [res]). split; [apply lookup_insert_eq|..]; try done.
      rewrite Hadv. unfold adversary_stats. rewrite (decide_ext _ _ _ _ Hsame). cbn.
      rewrite H4, H5, !i64_id by (unfold is_i64; lia). done.
Qed.

(** The others see nothing of a visit. *)
Lemma visit_other c c' r r' m m' p h p' h' :
  role_inv K t c r m p h → role_inv K t c' r' m p' h' → visit_frame r' m m' →
  ro_id r ≠ ro_id r' → ro_cid r ≠ ro_cid r' → ro_escrow r ≠ ro_escrow r' →
  role_inv K t c r m' p h.
Proof.
  intros [] Hr' [[q Hq] (res & now & Hres & Hb) Hf Hroot] Hid Hcid Hesc. split; try done.
  - by rewrite Hq, lookup_insert_ne.
  - by rewrite Hf.
  - rewrite Hb. eapply (ready_other _ _ _ _ _ _ _ _ _ (ro_escrow r')); [done| | |done].
    + by rewrite Hres.
    + rewrite Hres. apply ri_ready, rd_history, bridge_refines, history_inv in Hr'. apply Hr'.
Qed.

(** ** Runs *)

Context (roles : list Role) (adv : string).

Record roles_ok : Prop := {
  ok_ids : NoDup (ro_id <$> roles);
  ok_cids : NoDup (ro_cid <$> roles);
  ok_escrows : NoDup (ro_escrow <$> roles);
  ok_nonempty : Forall (λ r, ro_cid r ≠ ""%string) roles;
  ok_adv : Forall (λ r, ro_adv r = true ↔ ro_id r = adv) roles;
}.

(** [cnt] tells how often each provider has been challenged. *)
Record sim_inv (cnt : string → Z) m : Prop := {
  si_roles : ∀ r, r ∈ roles → ∃ p h, role_inv K t (cnt (ro_id r)) r m p h;
  si_root : ss_MerkleRoot (sm_state m) = Root t;
  si_threshold : ds_failureThreshold (cb_dispatcher (sm_bridge m)) = K;
  si_ledger : ledger K (cnt adv) adv (sm_state m);
}.

Definition visited (id : string) (e : Z) (cnt : string → Z) : string → Z :=
  λ i, if decide (i = id) then e else cnt i.

Lemma sim_inv_ext cnt cnt' m :
  (∀ r, r ∈ roles → cnt' (ro_id r) = cnt (ro_id r)) → cnt' adv = cnt adv → sim_inv cnt m → sim_inv cnt' m.
Proof. intros Hr Ha []. split; [|done|done|by rewrite Ha]. intros r Hin. rewrite Hr by done. auto. Qed.

Lemma roles_distinct r r' :
  roles_ok → r ∈ roles → r' ∈ roles → ro_id r ≠ ro_id r' → ro_cid r ≠ ro_cid r' ∧ ro_escrow r ≠ ro_escrow r'.
Proof.
  intros [] Hr Hr' Hne. apply list_elem_of_lookup in Hr as [i Hi], Hr' as [j Hj].
  split; intros E; apply Hne; assert (i = j); try congruence.
  - apply (NoDup_lookup (ro_cid <$> roles) i j (ro_cid r)); [done|..]; rewrite list_lookup_fmap.
    + by rewrite Hi.
    + by rewrite Hj, E.
  - apply (NoDup_lookup (ro_escrow <$> roles) i j (ro_escrow r)); [done|..]; rewrite list_lookup_fmap.
    + by rewrite Hi.
    + by rewrite Hj, E.
Qed.

Lemma visit k e cnt m r inp :
  roles_ok → sim_inv cnt m → r ∈ roles → cnt (ro_id r) = e - 1 → 1 <= e < 2 ^ 62 → input_ok inp →
  sim_inv (visited (ro_id r) e cnt) (challenge_provider k e inp m (ro_id r)).
Proof using Htree Hleaves.
  intros Hok [Hroles Hroot HK Hled] Hr Hcnt He Hin.
  destruct (Hroles r Hr) as (p & h & Hri). rewrite Hcnt in Hri.
  pose proof Hok as [_ _ _ Hne Hadv]. rewrite Forall_forall in Hne, Hadv.
  specialize (Hne r Hr). specialize (Hadv r Hr).
  assert (Hstep : visit_frame r m (challenge_provider k e inp m (ro_id r)) ∧
    ledger K (visited (ro_id r) e cnt adv) adv (sm_state (challenge_provider k e inp m (ro_id r))) ∧
    ∃ p' h', role_inv K t e r (challenge_provider k e inp m (ro_id r)) p' h').
  { unfold challenge_provider. rewrite (ri_lookup _ _ _ _ _ _ _ Hri), (ri_adv _ _ _ _ _ _ _ Hri).
    unfold visited. replace e with (e - 1 + 1) by lia. destruct (ro_adv r) eqn:Ea; cbn [negb].
    - assert (adv = ro_id r) as -> by (symmetry; by apply Hadv). rewrite decide_True, Hcnt in * by done.
      unfold adversarial_path. set (lat := i64 _).
      destruct (decide (e - 1 + 1 = 1)) as [E1|E1]; [|destruct (decide (e - 1 + 1 = 2)) as [E2|E2];
        [|rewrite decide_True by lia]].
      + eapply forged_visit; try done; [lia|unfold slash_epoch; lia|]. intros. apply tampered_rejected.
      + eapply forged_visit; try done; [lia|unfold slash_epoch; lia|]. intros. apply replay_rejected.
        destruct (ri_engine _ _ _ _ _ _ _ Hri) as (_ & Hv & Hpk & _ & ->). rewrite Hpk. by apply ed_public_length.
      + eapply dropped_visit; try done. lia.
    - assert (adv ≠ ro_id r) by (intros E; destruct Hadv as [_ Ha]; by specialize (Ha (eq_sym E))).
      rewrite decide_False by done.
      destruct (honest_visit (e - 1) r m p h inp) as (H1 & H2 & H3); try done; [lia|].
      split_and!; [done|by eapply ledger_same|done]. }
  destruct Hstep as (Hf & Hl & p' & h' & Hr'). split; [|by rewrite (vf_root _ _ _ Hf)| |done].
  - intros r2 Hr2. unfold visited. case_decide as Hid.
    + assert (r2 = r) as ->; [|by eauto]. destruct (list_elem_of_lookup_1 _ _ Hr) as [i Hi].
      destruct (list_elem_of_lookup_1 _ _ Hr2) as [j Hj].
      assert (i = j); [|congruence]. apply (NoDup_lookup (ro_id <$> roles) i j (ro_id r)); [apply Hok|..];
        rewrite list_lookup_fmap; [by rewrite Hi|by rewrite Hj, <- Hid].
    + destruct (Hroles r2 Hr2) as (p2 & h2 & Hri2). exists p2, h2.
      destruct (roles_distinct r2 r) as [? ?]; try done.
      eapply visit_other; [exact Hri2|exact Hri|exact Hf|done..].
  - destruct (vf_bridge _ _ _ Hf) as (res & now & _ & ->). by rewrite dispatch_threshold.
Qed.

Lemma visits k e m inp order cnt :
  roles_ok → sim_inv cnt m → NoDup order → (∀ id, id ∈ order → id ∈ ro_id <$> roles) →
  (∀ id, id ∈ order → cnt id = e - 1) → 1 <= e < 2 ^ 62 → input_ok inp →
  sim_inv (λ i, if decide (i ∈ order) then e else cnt i) (foldl (challenge_provider k e inp) m order).
Proof using Htree Hleaves.
  intros Hok Hinv Hnd Hsub Hcnt He Hin. revert m cnt Hinv Hcnt.
  induction Hnd as [|id order Hnotin Hnd IH]; intros m cnt Hinv Hcnt.
  { eapply sim_inv_ext; [| |done]; intros; by rewrite decide_False by set_solver. }
  assert (Hid : id ∈ ro_id <$> roles) by set_solver.
  apply list_elem_of_fmap in Hid as (r & -> & Hr). cbn [foldl].
  assert (Hv : sim_inv (visited (ro_id r) e cnt) (challenge_provider k e inp m (ro_id r)))
    by (apply visit; try done; set_solver).
  apply IH in Hv; [|set_solver|].
  2:{ intros i Hi. unfold visited. rewrite decide_False by (intros ->; done). set_solver. }
  assert (Heq : ∀ i, (if decide (i ∈ ro_id r :: order) then e else cnt i) =
    (if decide (i ∈ order) then e else visited (ro_id r) e cnt i)).
  { intros i. unfold visited. destruct (decide (i = ro_id r)) as [->|].
    - rewrite decide_True by set_solver. by case_decide.
    - destruct (decide (i ∈ order)); [rewrite decide_True by set_solver|rewrite decide_False by set_solver]; done. }
  eapply sim_inv_ext; [| |done]; intros; by rewrite Heq.
Qed.

Lemma sim_inv_core cnt m m' : same_core m m' → sim_inv cnt m → sim_inv cnt m'.
Proof.
  intros [Hb Hp Hf Hm _ Hs] [Hr Hroot HK Hl]. split; [|by rewrite Hm|by rewrite Hb|by eapply ledger_same].
  intros r Hin. destruct (Hr r Hin) as (p & h & []). exists p, h. split; try done.
  - by rewrite Hp.
  - by rewrite Hf.
  - by rewrite Hb.
Qed.

Lemma epoch_inv k e m inp :
  roles_ok → adv ∈ ro_id <$> roles → sim_inv (λ _, e - 1) m → 1 <= e < 2 ^ 62 → input_ok inp →
  ei_order inp ≡ₚ ro_id <$> roles → sim_inv (λ _, e) (run_epoch k e inp m).
Proof using Htree Hleaves.
  intros Hok Hadv Hinv He Hin Hord. unfold run_epoch. eapply sim_inv_core; [by apply same_core_state|].
  set (m1 := on_state _ m).
  assert (H1 : sim_inv (λ _, e - 1) m1) by (eapply sim_inv_core; [by apply same_core_state|done]).
  apply (visits k e m1 inp (ei_order inp)) in H1; try done.
  - eapply sim_inv_ext; [| |exact H1]; cbv beta; [intros r Hr|]; rewrite decide_True; try done; rewrite Hord;
      [|done]. apply list_elem_of_fmap. eauto.
  - rewrite Hord. apply Hok.
  - intros id. by rewrite Hord.
Qed.

Lemma epochs_inv k inputs e m :
  roles_ok → adv ∈ ro_id <$> roles → sim_inv (λ _, e - 1) m → 1 <= e → e + zlen inputs <= 2 ^ 62 →
  Forall (λ inp, input_ok inp ∧ ei_order inp ≡ₚ ro_id <$> roles) inputs →
  sim_inv (λ _, e - 1 + zlen inputs) (run_epochs k e inputs m).
Proof using Htree Hleaves.
  intros Hok Hadv. revert e m. induction inputs as [|inp inputs IH]; intros e m Hinv He Hlen Hf.
  { cbn [run_epochs]. change (zlen []) with 0. by rewrite Z.add_0_r. }
  apply Forall_cons in Hf as [[Hin Hord] Hf]. cbn [run_epochs].
  rewrite zlen_cons in Hlen |- *. pose proof (zlen_nonneg inputs).
  replace (e - 1 + (1 + zlen inputs)) with (e + 1 - 1 + zlen inputs) by lia.
  apply IH; [|lia|lia|done]. replace (e + 1 - 1) with e by lia. apply epoch_inv; try done. lia.
Qed.
End visits.

(** ** Initialization *)

(** The coordinator after a provider and its contract have been registered. *)
Definition enrol (pid : string) (a : list byte) (cid : string) (escrow : list byte)
    (c : PublisherCoordinator W) : PublisherCoordinator W :=
  {| pc_publisherID := pc_publisherID c; pc_submitter := pc_submitter c;
     pc_paymentStateTTL := pc_paymentStateTTL c; pc_settler := pc_settler c;
     pc_bindings := {| rg_providers := <[pid := a]> (rg_providers (pc_bindings c));
                       rg_contracts := <[cid := escrow]> (rg_contracts (pc_bindings c)) |};
     pc_stores := match pc_stores c !! hex_String escrow with
                  | Some _ => pc_stores c
                  | None => <[hex_String escrow := empty_store]> (pc_stores c)
                  end |}.

Definition fresh_schedule (escrow : list byte) : PaymentSchedule :=
  {| sc_PaymentPerPass := 250; sc_MaxPayment := 1000; sc_CurrentCumulativePayment := 0; sc_Sequence := 0;
     sc_EscrowContractID := escrow; sc_ProcessedChallenges := ∅; sc_ConsecutiveFailures := 0;
     sc_FailStreak := [] |}.

Abbreviation bridge_coord b := (ds_coordinator (cb_dispatcher b)).

Lemma enrol_eq b pid a cid escrow :
  length a = 20%nat → a ≠ zero_bytes 20 → pid ≠ ""%string → rg_providers (pc_bindings (bridge_coord b)) !! pid = None →
  length escrow = 32%nat → escrow ≠ zero_bytes 32 → cid ≠ ""%string →
  rg_contracts (pc_bindings (bridge_coord b)) !! cid = None → ds_schedules (cb_dispatcher b) !! cid = None →
  RegisterContractSchedule cid escrow 250 1000 (RegisterProvider pid a b).1 =
    (with_dispatcher (with_schedule cid (fresh_schedule escrow)
       (with_coordinator (enrol pid a cid escrow (bridge_coord b)) (cb_dispatcher b))) b, Ok tt).
Proof.
  intros Ha Hz Hp Hnp He Hze Hc Hnc Hns. rewrite RegisterContractSchedule_direct, RegisterProvider_direct by done.
  unfold Coordinator.RegisterProvider, BindProvider. rewrite decide_False by tauto. rewrite Hnp.
  cbn [fst with_dispatcher cb_dispatcher].
  unfold Dispatcher.RegisterContractSchedule. rewrite (decide_False (P := cid = _ ∨ _)) by tauto.
  rewrite decide_False by lia. rewrite decide_False by lia. cbn [with_coordinator ds_schedules].
  rewrite Hns. unfold RegisterContract, BindContract. cbn [with_coordinator ds_coordinator with_bindings pc_bindings rg_contracts rg_providers].
  rewrite decide_False by tauto. rewrite Hnc. cbn [pc_stores with_bindings pc_bindings rg_providers rg_contracts].
  unfold enrol. by destruct (pc_stores (bridge_coord b) !! hex_String escrow).
Qed.

(** The bridge between the registrations: nothing is signed yet. *)
Record bridge_fresh b : Prop := {
  bf_reach : bridge_reach b;
  bf_stores : ∀ k st, pc_stores (bridge_coord b) !! k = Some st → pst_HasState st = false;
  bf_ttl : 0 < pc_paymentStateTTL (bridge_coord b);
  bf_publisher : pc_publisherID (bridge_coord b) ≠ ""%string;
  bf_key : zlen (cb_publisherEdKey b) = PrivateKeySize;
}.

Lemma enrol_ready b pid a cid escrow :
  length a = 20%nat → a ≠ zero_bytes 20 → pid ≠ ""%string → rg_providers (pc_bindings (bridge_coord b)) !! pid = None →
  length escrow = 32%nat → escrow ≠ zero_bytes 32 → cid ≠ ""%string →
  rg_contracts (pc_bindings (bridge_coord b)) !! cid = None → ds_schedules (cb_dispatcher b) !! cid = None →
  bridge_fresh b →
  let b' := (RegisterContractSchedule cid escrow 250 1000 (RegisterProvider pid a b).1).1 in
  bridge_fresh b' ∧ contract_ready b' cid escrow 250 1000 pid [] ∧
  ∀ cid' escrow' pid' h, contract_ready b cid' escrow' 250 1000 pid' h → pid' ≠ pid →
    contract_ready b' cid' escrow' 250 1000 pid' h.
Proof.
  intros Ha Hz Hp Hnp He Hze Hc Hnc Hns [Hr Hst Ht Hpub Hk].
  pose proof (enrol_eq b pid a cid escrow Ha Hz Hp Hnp He Hze Hc Hnc Hns) as E.
  assert (Hr1 : bridge_reach (RegisterProvider pid a b).1) by (by constructor).
  assert (Hstores : ∀ k st, pc_stores (enrol pid a cid escrow (bridge_coord b)) !! k = Some st → pst_HasState st = false).
  { intros k st. cbn. destruct (pc_stores (bridge_coord b) !! hex_String escrow) eqn:Hs; [apply Hst|].
    intros [[_ <-]|[_ Hk']]%lookup_insert_Some; [done|]. by eapply Hst. }
  assert (Hkeep : ∀ k st, pc_stores (bridge_coord b) !! k = Some st →
    pc_stores (enrol pid a cid escrow (bridge_coord b)) !! k = Some st).
  { intros k st Hks. cbn. destruct (pc_stores (bridge_coord b) !! hex_String escrow) eqn:Hs; [done|].
    rewrite lookup_insert_ne; [done|]. congruence. }
  rewrite E. cbn [fst]. split_and!.
  - split; try done. pose proof (br_schedule cid escrow 250 1000 _ Hr1 He) as H. by rewrite E in H.
  - assert (Hs : ∃ st, pc_stores (enrol pid a cid escrow (bridge_coord b)) !! hex_String escrow = Some st).
    { cbn. destruct (pc_stores (bridge_coord b) !! hex_String escrow) eqn:Hs; [by rewrite Hs; eauto|].
      rewrite lookup_insert_eq. eauto. }
    destruct Hs as [st Hs]. split; try done.
    + by eapply (bh_register _ _ _ _ (RegisterProvider pid a b).1).
    + exists a. cbn. apply lookup_insert_eq.
    + exists st. split; [done|]. rewrite (Hstores _ _ Hs). done.
  - intros cid' escrow' pid' h [H1 [a' H2] (st & H3 & H4) H5 H6 H7] Hne.
    split; try done.
    + pose proof (bh_schedule _ _ _ _ _ _ cid escrow 250 1000 (bh_provider _ _ _ _ _ _ pid a H1 Ha) He) as H.
      by rewrite E in H.
    + exists a'. cbn. unfold ProviderAddress. cbn. by rewrite lookup_insert_ne.
    + exists st. split; [by apply Hkeep|done].
Qed.

Definition role_of (i : nat) (cfg : ProviderConfig) (sec : ProviderSecrets) : Role :=
  {| ro_id := provider_id i (se_EthAddress sec); ro_cid := contract_id i; ro_escrow := se_EscrowID sec;
     ro_adv := pv_isAdv cfg |}.

Fixpoint roles_of (i : nat) (l : list (ProviderConfig * ProviderSecrets)) : list Role :=
  match l with [] => [] | (cfg, sec) :: l' => role_of i cfg sec :: roles_of (S i) l' end.

(** What [GenerateKey] and [rand.Read] give. *)
Record secret_ok (sec : ProviderSecrets) : Prop := {
  sk_key : ed_valid (se_EdPrivKey sec);
  sk_addr : length (se_EthAddress sec) = 20%nat;
  sk_addr0 : se_EthAddress sec ≠ zero_bytes 20;
  sk_escrow : length (se_EscrowID sec) = 32%nat;
  sk_escrow0 : se_EscrowID sec ≠ zero_bytes 32;
}.

Record setup_inv (K : Z) (t : MerkleTree) (enrolled : list Role) m : Prop := {
  su_bridge : bridge_fresh (sm_bridge m);
  su_threshold : ds_failureThreshold (cb_dispatcher (sm_bridge m)) = K;
  su_roles : ∀ r, r ∈ enrolled → ∃ p, role_inv K t 0 r m p [];
  su_contracts : ∀ cid, cid ∉ ro_cid <$> enrolled →
    ds_schedules (cb_dispatcher (sm_bridge m)) !! cid = None ∧
    rg_contracts (pc_bindings (bridge_coord (sm_bridge m))) !! cid = None;
  su_providers : ∀ pid, pid ∉ ro_id <$> enrolled →
    rg_providers (pc_bindings (bridge_coord (sm_bridge m))) !! pid = None;
  su_file : ss_FileID (sm_state m) = EncodeToString (Root t);
  su_root : ss_MerkleRoot (sm_state m) = Root t;
  su_ledger : ss_SlashingEvents (sm_state m) = [] ∧ ss_TotalSlashed (sm_state m) = 0 ∧ ss_TxCount (sm_state m) = 0;
}.

Lemma fileID_nonempty h : length h = 32%nat → EncodeToString h ≠ ""%string.
Proof. intros Hh E. pose proof (length_EncodeToString h) as Hl. unfold zlen in Hl. rewrite E, Hh in Hl. discriminate Hl. Qed.

Section setup.
Context (K : Z) (t : MerkleTree) (Htree : BuildMerkleTreeFromChunks rawChunks = Ok t).

Lemma tree_leaves : NewMerkleTree (map sha256 rawChunks) = Ok t.
Proof using Htree. exact Htree. Qed.

(** The engine a provider starts with answers for the file. *)
Lemma setup_engine pID key :
  pID ≠ ""%string → ed_valid key →
  ∃ e, NewProviderProofEngine pID key (Some (FSManifestStore ∅)) = Ok e ∧
    let e' := (RegisterFileChunks (EncodeToString (Root t)) rawChunks e).1 in
    provider_tree e' (EncodeToString (Root t)) = Some t ∧ pe_privKey e' = key ∧
    pe_pubKey e' = ed_public key ∧ pe_providerID e' = pID.
Proof using Htree.
  intros Hp Hk. unfold NewProviderProofEngine. rewrite decide_False by done.
  rewrite decide_False by (unfold zlen, PrivateKeySize; rewrite ed_valid_length by done; lia).
  eexists. split; [done|]. unfold RegisterFileChunks.
  rewrite decide_False by (eapply fileID_nonempty, length_Root, tree_leaves).
  rewrite decide_False by done. rewrite Htree. cbn [fst]. unfold provider_tree.
  cbn [set_payload set_trees pe_trees pe_privKey pe_pubKey pe_providerID]. rewrite lookup_insert_eq. done.
Qed.

Lemma setup_step enrolled m i cfg sec :
  setup_inv K t enrolled m → secret_ok sec → pv_startColl cfg = 1000000 →
  provider_id i (se_EthAddress sec) ∉ ro_id <$> enrolled → contract_id i ∉ ro_cid <$> enrolled →
  ∃ m', setup_provider i cfg sec m = Ok m' ∧ setup_inv K t (enrolled ++ [role_of i cfg sec]) m'.
Proof using Htree.
  intros [Hb HK Hroles Hcs Hps Hfile Hroot Hled] [Hkey Ha Ha0 He He0] Hcoll Hpid Hcid.
  destruct (setup_engine (provider_id i (se_EthAddress sec)) (se_EdPrivKey sec)) as (e & E & Ht & Hpk & Hpub & Hid);
    [done|done|].
  unfold setup_provider. rewrite E. cbn [rbind]. rewrite Hfile. eexists. split; [reflexivity|].
  destruct (Hcs _ Hcid) as [Hns Hnc]. pose proof (Hps _ Hpid) as Hnp.
  set (pid := provider_id i (se_EthAddress sec)) in *. set (cid := contract_id i) in *.
  destruct (enrol_ready (sm_bridge m) pid (se_EthAddress sec) cid (se_EscrowID sec)) as (Hf' & Hr' & Hkeep); try done.
  pose proof (enrol_eq (sm_bridge m) pid (se_EthAddress sec) cid (se_EscrowID sec) Ha Ha0 ltac:(done) Hnp He He0
    ltac:(done) Hnc Hns) as Heq.
  rewrite Heq in Hf', Hr', Hkeep |- *. cbn [fst] in Hf', Hr', Hkeep |- *.
  split; try done.
  - intros r [Hr| ->%list_elem_of_singleton]%elem_of_app.
    + destruct (Hroles r Hr) as [p Hri]. exists p. pose proof Hri as [].
      assert (Hne : ro_id r ≠ pid) by (intros <-; apply Hpid, list_elem_of_fmap; eauto).
      split; try done.
      * cbn. by rewrite lookup_insert_ne.
      * by apply Hkeep.
    + eexists. split; [apply lookup_insert_eq|..]; try done.
      * unfold engine_inv. cbn [sp_ProofEngine sp_ID sp_EdPubKey on_state put_provider sm_state AddLog set_log
          set_providers ss_FileID]. rewrite Hfile, Ht, Hpk, Hpub, Hid. done.
      * cbn [role_of ro_adv]. cbn. rewrite Hcoll. destruct (pv_isAdv cfg).
        -- unfold adversary_stats. rewrite decide_False by (unfold slash_epoch; lia). done.
        -- done.
  - intros c. rewrite fmap_app, not_elem_of_app. intros [Hc1 Hc2].
    assert (cid ≠ c) by (intros <-; apply Hc2; left). destruct (Hcs c Hc1). cbn. by rewrite !lookup_insert_ne.
  - intros c. rewrite fmap_app, not_elem_of_app. intros [Hc1 Hc2].
    assert (pid ≠ c) by (intros <-; apply Hc2; left). cbn. rewrite lookup_insert_ne by done. auto.
Qed.

Lemma setup_all l i enrolled m :
  setup_inv K t enrolled m → Forall (λ x, pv_startColl x.1 = 1000000 ∧ secret_ok x.2) l →
  NoDup (ro_id <$> enrolled ++ roles_of i l) → NoDup (ro_cid <$> enrolled ++ roles_of i l) →
  ∃ m', setup_providers i l m = Ok m' ∧ setup_inv K t (enrolled ++ roles_of i l) m'.
Proof using Htree.
  revert i enrolled m. induction l as [|[cfg sec] l IH]; intros i enrolled m Hinv Hf Hid Hcid.
  { exists m. cbn. by rewrite app_nil_r. }
  apply Forall_cons in Hf as [[Hcoll Hs] Hf]. cbn [roles_of] in *.
  destruct (setup_step enrolled m i cfg sec) as (m1 & E & H1); try done.
  - rewrite fmap_app in Hid. apply NoDup_app in Hid as (_ & Hid & _).
    intros Hin. apply (Hid _ Hin). left.
  - rewrite fmap_app in Hcid. apply NoDup_app in Hcid as (_ & Hcid & _).
    intros Hin. apply (Hcid _ Hin). left.
  - cbn [setup_providers]. rewrite E. cbn [rbind].
    change (role_of i cfg sec :: roles_of (S i) l) with ([role_of i cfg sec] ++ roles_of (S i) l) in *.
    rewrite (assoc_L (++)) in Hid, Hcid |- *. by apply IH.
Qed.
End setup.

(** ** The whole program *)

Definition sim_file : string :=
  match BuildMerkleTreeFromChunks rawChunks with Ok t => EncodeToString (copy32 (Root t)) | Err _ => "" end.
Definition sim_request (now : Z) (c : string) : Request :=
  {| rq_FileID := sim_file; rq_ClientID := c; rq_Timestamp := Unix now; rq_Status := Pending |}.

(** The puzzle of a client: its request, and whether a nonce of 64 bits solves it. *)
Definition sim_puzzle (times : SimTimes) (c : string) : Request := sim_request (ct_now (tm_client times c)) c.
Definition solves (req : Request) (nonce : Z) : Prop :=
  is_u64 nonce ∧ VerifyPoW req {| pw_Nonce := nonce; pw_Difficulty := 1 |} = true.

(** The threshold the bridge uses for the flag [-k]. *)
Definition threshold (k : Z) : Z := if decide (u32 k = 0) then DefaultFailureThreshold else u32 k.

Lemma rawChunks_tree : ∃ t, BuildMerkleTreeFromChunks rawChunks = Ok t.
Proof.
  destruct (NewMerkleTree_ok (map sha256 rawChunks)) as (ls & r & E & _); [done| |].
  - unfold rawChunks. repeat constructor; apply length_sha256.
  - eexists. exact E.
Qed.

Lemma setup_keeps l i m m' :
  setup_providers i l m = Ok m' →
  ss_PoWDifficulty (sm_state m') = ss_PoWDifficulty (sm_state m) ∧ ss_FileID (sm_state m') = ss_FileID (sm_state m).
Proof.
  revert i m. induction l as [|[cfg sec] l IH]; intros i m; [by intros [= ->]|]. cbn [setup_providers].
  intros (m1 & H1 & H2)%rbind_ok. apply IH in H2 as [-> ->]. unfold setup_provider in H1.
  apply rbind_ok in H1 as (e & _ & H1). by injection H1 as <-.
Qed.

Definition sim_bridge (k : Z) (ethKey edKey : list byte) : CoordinatorBridge W :=
  {| cb_publisherID := publisherID; cb_publisherEthKey := Some ethKey; cb_publisherEdKey := edKey;
     cb_dispatcher :=
       {| ds_coordinator :=
            {| pc_publisherID := publisherID; pc_submitter := NoopEscrowSubmitter;
               pc_paymentStateTTL := 24 * Hour; pc_settler := None; pc_bindings := NewRegistry;
               pc_stores := ∅ |};
          ds_schedules := ∅; ds_signerKey := edKey; ds_failureThreshold := threshold k |};
     cb_submitter := NoopEscrowSubmitter |}.

Lemma sim_bridge_eq k ethKey edKey :
  ed_valid edKey →
  NewCoordinatorBridge {| bc_PublisherPeerID := publisherID; bc_PublisherEthKey := Some ethKey;
    bc_PublisherEdKey := edKey; bc_EscrowSubmitter := None; bc_FailureThreshold := u32 k |}
  = Ok (sim_bridge k ethKey edKey).
Proof.
  intros Hk%ed_valid_length. unfold NewCoordinatorBridge, NewAvailabilityPaymentDispatcher, WithFailureThreshold, sim_bridge, threshold.
  cbn [bc_PublisherPeerID bc_PublisherEthKey bc_PublisherEdKey bc_EscrowSubmitter bc_FailureThreshold].
  rewrite decide_False by done. rewrite decide_False by (unfold zlen, PrivateKeySize; lia).
  cbn [default]. unfold NewPublisherCoordinator. rewrite decide_False by done. cbn [foldl rbind].
  rewrite decide_False by (unfold zlen, PrivateKeySize; lia).
  destruct (decide (u32 k = 0)); by rewrite decide_False by done.
Qed.

Lemma initialize_ok epochs k ethKey edKey secrets now :
  ed_valid edKey → Forall secret_ok secrets →
  let roles := roles_of 0 (zip providerConfigs secrets) in
  NoDup (ro_id <$> roles) → NoDup (ro_cid <$> roles) →
  ∃ t m, BuildMerkleTreeFromChunks rawChunks = Ok t ∧ initialize epochs k ethKey edKey secrets now = Ok m ∧
    ss_PoWDifficulty (sm_state m) = 1 ∧ ss_FileID (sm_state m) = sim_file ∧
    setup_inv (threshold k) t roles m.
Proof.
  intros Hk Hs roles Hid Hcid. destruct rawChunks_tree as [t Ht]. unfold initialize.
  pose proof (sim_bridge_eq k ethKey edKey Hk) as Eb. rewrite Eb. cbn [rbind]. rewrite Ht. cbn [rbind].
  set (m0 := {| sm_state := _ |}).
  assert (H0 : setup_inv (threshold k) t [] m0).
  { assert (Hr : bridge_reach (sim_bridge k ethKey edKey)) by (eapply br_new; [|exact Eb]; apply u32_range).
    split; try done.
    - split; try done. unfold zlen, PrivateKeySize. cbn. by rewrite ed_valid_length.
    - by intros r ?%elem_of_nil.
    - cbn [sm_state m0 AddLog set_log set_file ss_FileID]. rewrite copy32_id; [done|].
      eapply length_Root, tree_leaves, Ht. }
  destruct (setup_all (threshold k) t Ht (zip providerConfigs secrets) 0 [] m0 H0) as (m & Em & Hm); [|done|done|].
  - apply Forall_lookup. intros i [cfg sec] Hi. apply lookup_zip_Some in Hi as [Hi1 Hi2]. split.
    + do 3 (destruct i as [|i]; [cbn in Hi1; by injection Hi1 as <-|]). done.
    + rewrite Forall_lookup in Hs. eauto.
  - exists t, m. split; [done|]. split; [exact Em|]. destruct (setup_keeps _ _ _ _ Em) as [-> ->].
    split_and!; [done| |done]. cbn [sm_state m0 AddLog set_log set_file ss_FileID]. unfold sim_file. by rewrite Ht.
Qed.

Lemma client_request_puzzle fuel t c m :
  ss_PoWDifficulty (sm_state m) = 1 → ss_FileID (sm_state m) = sim_file →
  match GeneratePoW fuel (sim_request (ct_now t) c) 1 with
  | Some _ => ∃ m', client_request fuel t c m = Some m' ∧ same_core m m'
  | None => client_request fuel t c m = None
  end.
Proof.
  intros Hd Hf. unfold client_request. rewrite Hd, Hf. fold (sim_request (ct_now t) c).
  destruct (GeneratePoW _ _ _) as [pow|]; [cbn [mbind option_bind]|done].
  destruct (ValidateAndTrackRequest _ _ _ _) as [pool [r|e]]; eexists; (split; [reflexivity|]); by split.
Qed.

Lemma client_request_mono fuel fuel' t c m m' :
  (fuel <= fuel')%nat → client_request fuel t c m = Some m' → client_request fuel' t c m = Some m'.
Proof.
  intros Hle. unfold client_request. destruct (GeneratePoW fuel _ _) as [pow|] eqn:E; [|done].
  by rewrite (GeneratePoW_mono _ _ _ _ _ Hle E).
Qed.

Lemma client_requests_mono fuel fuel' times clients m m' :
  (fuel <= fuel')%nat → client_requests fuel times clients m = Some m' →
  client_requests fuel' times clients m = Some m'.
Proof.
  intros Hle. revert m. induction clients as [|c clients IH]; intros m; [done|]. cbn [client_requests].
  destruct (client_request fuel (times c) c m) as [m1|] eqn:E; [cbn [mbind option_bind]|done].
  rewrite (client_request_mono _ _ _ _ _ _ Hle E). cbn [mbind option_bind]. apply IH.
Qed.

(** One client after the other: either all puzzles are solved within the fuel and
    the phase goes on, or it is stuck. *)
Lemma client_requests_puzzles fuel times clients m :
  ss_PoWDifficulty (sm_state m) = 1 → ss_FileID (sm_state m) = sim_file →
  (Forall (λ c, is_Some (GeneratePoW fuel (sim_request (ct_now (times c)) c) 1)) clients →
   ∃ m', client_requests fuel times clients m = Some m' ∧ same_core m m') ∧
  (Exists (λ c, GeneratePoW fuel (sim_request (ct_now (times c)) c) 1 = None) clients →
   client_requests fuel times clients m = None).
Proof.
  revert m. induction clients as [|c clients IH]; intros m Hd Hf.
  { split; [intros _; exists m; split; [done|reflexivity]|intros He; by apply Exists_nil in He]. }
  cbn [client_requests]. pose proof (client_request_puzzle fuel (times c) c m Hd Hf) as Hc.
  destruct (GeneratePoW fuel (sim_request (ct_now (times c)) c) 1) as [pow|] eqn:E.
  - destruct Hc as (m1 & -> & H1). cbn [mbind option_bind].
    destruct (IH m1) as [IH1 IH2]; [by rewrite (sc_difficulty _ _ H1)|by rewrite (sc_file _ _ H1)|]. split.
    + intros [_ Hp]%Forall_cons. destruct (IH1 Hp) as (m2 & -> & H2). exists m2. split; [done|]. by transitivity m1.
    + intros [Hn|Hx]%Exists_cons; [congruence|auto].
  - rewrite Hc. split; [|done]. intros [[p Hp] _]%Forall_cons. congruence.
Qed.

(** The demand phase ends as soon as the fuel reaches a nonce for every client,
    and touches neither providers nor contracts; with a client whose puzzle no
    nonce solves it never ends. *)
Lemma demand_phase_core times m :
  ss_PoWDifficulty (sm_state m) = 1 → ss_FileID (sm_state m) = sim_file →
  (∃ c, c ∈ consumerClients ∧ (∀ n, ¬ solves (sim_puzzle times c) n) ∧ ∀ fuel, demand_phase fuel times m = None) ∨
  ((∀ c, c ∈ consumerClients → ∃ n, solves (sim_puzzle times c) n) ∧
   ∃ bound m', same_core m m' ∧ ∀ fuel, (bound <= fuel)%nat → demand_phase fuel times m = Some m').
Proof.
  intros Hd Hf. set (m1 := on_state (AddLog "DEMAND" "WARN"
    "Consumer traffic surge detected! Initiating Proof-of-Request Hashcash PoW..." (tm_surge times)) m).
  assert (H1 : same_core m m1) by (by apply same_core_state).
  pose proof (λ fuel, client_requests_puzzles fuel (tm_client times) consumerClients m1 Hd Hf) as Hrun.
  destruct (puzzles_dec (sim_puzzle times) consumerClients) as [(c & Hc & Hno)|[bound Hall]].
  - left. exists c. split; [done|]. split; [intros n [Hn Hv]; by rewrite (Hno n Hn) in Hv|].
    intros fuel. unfold demand_phase. fold m1. rewrite (proj2 (Hrun fuel)); [done|]. apply Exists_exists.
    exists c. split; [done|]. by apply GeneratePoW_never.
  - right. split.
    { intros c Hc. destruct (Hall bound (le_n _) c Hc) as [p Hp].
      destruct (pow_loop_sound bound (sim_puzzle times c) 1 0 p ltac:(unfold is_u64; lia) Hp) as (Hv & Hdp & Hn & _).
      exists (pw_Nonce p). split; [done|]. rewrite <- Hdp. by destruct p. }
    destruct (proj1 (Hrun bound)) as (m2 & E2 & H2); [apply Forall_forall; by apply Hall|].
    eexists bound, _. split; [|intros fuel Hle; unfold demand_phase; fold m1;
      rewrite (client_requests_mono _ _ _ _ _ _ Hle E2); reflexivity].
    transitivity m1; [done|]. transitivity m2; [done|]. by apply same_core_state.
Qed.

Lemma conclude_core now order m : same_core m (conclude now order m).
Proof.
  unfold conclude. set (m1 := on_state _ m).
  assert (H1 : same_core m m1) by (by apply same_core_state). revert H1. generalize m1. clear m1.
  induction order as [|id order IH]; intros m1 H1; [done|]. cbn [foldl]. apply IH.
  transitivity m1; [done|]. unfold final_status. destruct (_ !! id); [|reflexivity].
  apply same_core_state; by case_decide.
Qed.

Definition provider_ids (secrets : list ProviderSecrets) : list string :=
  imap (λ i sec, provider_id i (se_EthAddress sec)) secrets.

Lemma sim_roles_ok (s1 s2 s3 : ProviderSecrets) :
  NoDup (se_EscrowID <$> [s1; s2; s3]) →
  let roles := roles_of 0 (zip providerConfigs [s1; s2; s3]) in
  ro_id <$> roles = provider_ids [s1; s2; s3] ∧ roles_ok roles (provider_id 2 (se_EthAddress s3)).
Proof.
  intros Hesc roles. split; [done|]. split.
  - cbn. repeat constructor; rewrite ?elem_of_cons, ?elem_of_nil; intros H; by decompose [or] H.
  - cbn. repeat constructor; rewrite ?elem_of_cons, ?elem_of_nil; intros H; by decompose [or] H.
  - done.
  - cbn. repeat constructor; done.
  - cbn. repeat constructor; by intros.
Qed.

(** C20: The simulation does what it announces, for every number of epochs,
    every order in which the providers are visited, every choice of chunks,
    nonces, keys and thresholds, as long as the honest engines answer within
    the five seconds the publisher allows.  Either the puzzle of one of the
    five clients has no solution among the 64-bit nonces, and the program never
    gets past the demand surge; or every puzzle has one and the program ends,
    with the same result for every fuel from some bound on: each honest
    provider passes every epoch, holds one voucher per epoch and has earned
    [min(1000, 250 * epochs)] with its collateral intact; the adversary never
    passes and is slashed exactly once, in the first epoch that is both the
    third or later and at the threshold, for half of its collateral, and the
    ledger shows that one transaction and nothing else. *)
Theorem simulation_outcome k ethKey edKey (s1 s2 s3 : ProviderSecrets) times inputs order :
  ed_valid edKey → Forall secret_ok [s1; s2; s3] → NoDup (se_EscrowID <$> [s1; s2; s3]) →
  zlen inputs < 2 ^ 62 →
  Forall (λ inp, input_ok inp ∧ ei_order inp ≡ₚ provider_ids [s1; s2; s3]) inputs →
  let n := zlen inputs in
  let run fuel := simulate fuel k ethKey edKey [s1; s2; s3] times inputs order in
  let provider i (s : ProviderSecrets) m := ss_Providers (sm_state m) !! provider_id i (se_EthAddress s) in
  (∃ c, c ∈ consumerClients ∧ (∀ nonce, ¬ solves (sim_puzzle times c) nonce) ∧ ∀ fuel, run fuel = None) ∨
  ((∀ c, c ∈ consumerClients → ∃ nonce, solves (sim_puzzle times c) nonce) ∧
   ∃ bound m, (∀ fuel, (bound <= fuel)%nat → run fuel = Some (Ok m)) ∧
    (∃ p, provider 0%nat s1 m = Some p ∧ honest_stats n (sp_stats p)) ∧
    (∃ p, provider 1%nat s2 m = Some p ∧ honest_stats n (sp_stats p)) ∧
    (∃ p, provider 2%nat s3 m = Some p ∧ adversary_stats (threshold k) n (sp_stats p)) ∧
    ledger (threshold k) n (provider_id 2 (se_EthAddress s3)) (sm_state m)).
Proof.
  intros Hk Hs Hesc Hn Hin n run provider. destruct (sim_roles_ok s1 s2 s3 Hesc) as [Hids Hok].
  set (roles := roles_of 0 (zip providerConfigs [s1; s2; s3])) in *. pose proof Hok as [Hi Hc _ _ _].
  destruct (initialize_ok (zlen inputs) k ethKey edKey [s1; s2; s3] (tm_init times) Hk Hs Hi Hc)
    as (t & m0 & Ht & E0 & Hd & Hf & [Hb HK Hroles _ _ _ Hroot Hled]).
  destruct (demand_phase_core times m0 Hd Hf) as [(c & Hc' & Hno & Hnone)|(Hall & bound & m1 & H1 & E1)].
  { left. exists c. split; [done|]. split; [done|]. intros fuel. unfold run, simulate. by rewrite E0, Hnone. }
  right. split; [done|].
  set (adv := provider_id 2 (se_EthAddress s3)) in *.
  assert (Hinv0 : sim_inv (threshold k) t roles adv (λ _, 1 - 1) m0).
  { split; [|done|done|].
    - intros r Hr. destruct (Hroles r Hr) as [p Hp]. by exists p, [].
    - unfold ledger. by rewrite decide_False by (unfold slash_epoch; lia). }
  apply (sim_inv_core _ _ _ _ _ _ _ H1) in Hinv0.
  apply (epochs_inv _ _ _ (tree_leaves t Ht) eq_refl _ _ k inputs) in Hinv0; [|done| |lia|lia|].
  2:{ rewrite Hids. by do 2 right; left. }
  2:{ by rewrite Hids. }
  apply (sim_inv_core _ _ _ _ _ _ _ (conclude_core (tm_end times) order _)) in Hinv0.
  eexists bound, _. split; [intros fuel Hle; unfold run, simulate; rewrite E0, (E1 fuel Hle); reflexivity|].
  destruct Hinv0 as [Hr _ _ Hl]. rewrite Z.sub_diag, Z.add_0_l in *. fold n in Hl, Hr.
  assert (Hget : ∀ i r, roles !! i = Some r → ∃ p,
    ss_Providers (sm_state (conclude (tm_end times) order (run_epochs k 1 inputs m1))) !! ro_id r = Some p ∧
    if ro_adv r then adversary_stats (threshold k) n (sp_stats p) else honest_stats n (sp_stats p)).
  { intros i r Hri. destruct (Hr r) as (p & h & []); [by eapply list_elem_of_lookup_2|]. by exists p. }
  split_and!; [exact (Hget 0%nat _ eq_refl)|exact (Hget 1%nat _ eq_refl)|exact (Hget 2%nat _ eq_refl)|exact Hl].
Qed.

End simulation.

(** ** Witness *)

Definition wit_secrets (b : Z) : ProviderSecrets :=
  {| se_EdPrivKey := toy_key b; se_EthAddress := replicate 20 (byte_of_Z b);
     se_EscrowID := replicate 32 (byte_of_Z b); se_annTime := 0; se_ingestTime := 0; se_logTime := 0 |}.

Definition wit_timing : Timing :=
  {| ti_created := 0; ti_responded := 1; ti_result := 2; ti_dispatch := 3; ti_log := 4; ti_slash := 5;
     ti_elapsedMs := 0 |}.

Definition wit_epoch (chunk : Z) (order : list string) : EpochInput :=
  {| ei_chunk := chunk; ei_nonce := replicate 32 x07; ei_start := 0; ei_order := order;
     ei_timing := λ _, wit_timing; ei_txHash := replicate 32 x08 |}.

Definition wit_ids : list string := provider_ids (wit_secrets <$> [1; 2; 3]).
Definition wit_epochs : list EpochInput := [wit_epoch 2 wit_ids; wit_epoch 0 (reverse wit_ids); wit_epoch 3 wit_ids].

Definition wit_times : SimTimes :=
  {| tm_init := 0; tm_surge := 1; tm_client := λ _, {| ct_now := 0; ct_elapsed := 5; ct_fired := [] |};
     tm_scaled := 9; tm_end := 100 |}.

Lemma wit_puzzles c : c ∈ consumerClients → is_Some (GeneratePoW 100 (sim_puzzle wit_times c) 1).
Proof.
  revert c. rewrite <- Forall_forall. apply (bool_decide_unpack _). vm_compute. exact I.
Qed.

Lemma simulation_outcome_witness : ∃ m : Sim nat,
  (∃ fuel, simulate (MC := ToyManifestCodec) fuel 3 [x01] (toy_key 9) (wit_secrets <$> [1; 2; 3]) wit_times wit_epochs wit_ids = Some (Ok m)) ∧
  (∃ p, ss_Providers (sm_state m) !! provider_id 0 (replicate 20 x01) = Some p ∧
        st_CumulativePay (sp_stats p) = 750) ∧
  (∃ p, ss_Providers (sm_state m) !! provider_id 2 (replicate 20 x03) = Some p ∧
        st_State (sp_stats p) = "SLASHED"%string ∧ st_CollateralWei (sp_stats p) = 500000) ∧
  ss_TxCount (sm_state m) = 1.
Proof.
  assert (Hs : Forall secret_ok [wit_secrets 1; wit_secrets 2; wit_secrets 3])
    by (repeat constructor; discriminate).
  assert (Hn : NoDup (se_EscrowID <$> [wit_secrets 1; wit_secrets 2; wit_secrets 3]))
    by (apply (bool_decide_unpack _); vm_compute; exact I).
  assert (Hi : Forall (λ inp, input_ok inp ∧ ei_order inp ≡ₚ wit_ids) wit_epochs).
  { assert (Hok : ∀ c l, 0 <= c < 4 → input_ok (wit_epoch c l))
      by (intros c l Hc; split; [exact Hc|intros id; vm_compute; discriminate]).
    repeat constructor; try (apply Hok; lia); try reflexivity. apply reverse_Permutation. }
  destruct (simulation_outcome (W := nat) (ED := ToyEd25519) (MC := ToyManifestCodec) 3 [x01] (toy_key 9) (wit_secrets 1) (wit_secrets 2) (wit_secrets 3)
    wit_times wit_epochs wit_ids eq_refl Hs Hn ltac:(reflexivity) Hi)
    as [(c & Hc & Hno & _)|(_ & bound & m & E & (p1 & L1 & _ & _ & H1 & _) & _ & (p3 & L3 & H3) & Hl)].
  { exfalso. destruct (wit_puzzles c Hc) as [p Ep].
    destruct (pow_loop_sound 100 (sim_puzzle wit_times c) 1 0 p ltac:(unfold is_u64; lia) Ep) as (Hv & Hd & Hu & _).
    apply (Hno (pw_Nonce p)). split; [exact Hu|]. rewrite <- Hd. destruct p. exact Hv. }
  exists m. split; [exists bound; exact (E bound (le_n _))|]. split; [exists p1; split; [exact L1|exact H1]|].
  split; [exists p3; split; [exact L3|]|].
  - destruct H3 as (_ & _ & _ & _ & _ & H3).
    destruct (decide (slash_epoch (threshold 3) <= zlen wit_epochs)) as [_|Hx]; [|exfalso; apply Hx; vm_compute; discriminate].
    destruct H3 as (Hc & _ & Hst). split; [exact Hst|exact Hc].
  - unfold ledger in Hl.
    destruct (decide (slash_epoch (threshold 3) <= zlen wit_epochs)) as [_|Hx]; [|exfalso; apply Hx; vm_compute; discriminate].
    destruct Hl as (ev & _ & _ & _ & _ & _ & Ht). exact Ht.
Defined.
