(* ===== verification/Dashboard.v ===== *)
(** * The simulation's dashboard

    [renderDashboard] of scripts/simulate_availability.go: what it shows of the
    simulation's state.  The provider table with its order, badges and colours,
    the last events with their badges, colours and cut messages, and the
    shortened hashes are modelled; the frame around them, which is constant
    text, and the padding of the columns are not. *)

From S2P Require Import Prelude AvailTypes Simulation.
From Stdlib Require Import Sorting.Sorted.

(** ** Order of the provider table *)

(** [a > b] on Go strings. *)
Definition name_gt (p q : SimProvider) : bool := negb (String.leb (sp_ShortName p) (sp_ShortName q)).

(** The inner loop: [provList[i]] is exchanged with every later smaller one. *)
Fixpoint exchange (x : SimProvider) (l : list SimProvider) : SimProvider * list SimProvider :=
  match l with
  | [] => (x, [])
  | y :: l' =>
      if name_gt x y then let '(m, r) := exchange y l' in (m, x :: r)
      else let '(m, r) := exchange x l' in (m, y :: r)
  end.
Fixpoint exchange_sort (n : nat) (l : list SimProvider) : list SimProvider :=
  match n, l with
  | S n', x :: l' => let '(m, r) := exchange x l' in m :: exchange_sort n' r
  | _, _ => l
  end.
(** [order] is the order in which Go's map iteration visits the providers. *)
Definition table_order (order : list SimProvider) : list SimProvider := exchange_sort (length order) order.

(** ** Badges, colours and shortened texts *)

Inductive Badge := HealthyBadge | WarningBadge | SlashedBadge | StandbyBadge.
Definition state_badge (state : string) : Badge :=
  if decide (state = "HEALTHY"%string) then HealthyBadge
  else if decide (state = "WARNING"%string) then WarningBadge
  else if decide (state = "SLASHED"%string) then SlashedBadge else StandbyBadge.

Inductive Colour := BrightGreen | BrightYellow | BrightRed | White | NoColour.
Definition result_colour (result : string) : Colour := if String.prefix "FAIL" result then BrightRed else BrightGreen.
Definition level_colour (level : string) : Colour :=
  if decide (level = "SUCCESS"%string) then BrightGreen
  else if decide (level = "WARN"%string) then BrightYellow
  else if decide (level = "DANGER"%string) then BrightRed
  else if decide (level = "INFO"%string) then White else NoColour.

Definition merkle_short (root : list byte) : string :=
  if decide (8 <= length root)%nat then slice 0 16 (EncodeToString root) +:+ "..." else "".
Definition pow_short (hash : string) : string :=
  if decide (12 <= String.length hash)%nat then slice 0 12 hash +:+ "..." else "".
Definition tx_short (hash : string) : string :=
  if decide (hash ≠ ""%string ∧ (18 <= String.length hash)%nat) then slice 0 18 hash +:+ "..." else "None".
(** Messages of more than 82 bytes are cut. *)
Definition cut_message (msg : string) : string :=
  if decide (82 < String.length msg)%nat then slice 0 79 msg +:+ "..." else msg.

(** ** What is shown *)

Record Row := {
  rw_name : string; rw_badge : Badge; rw_collateral : Z; rw_vouchers : Z; rw_pay : Z; rw_colour : Colour;
  rw_result : string }.
Definition provider_row (p : SimProvider) : Row :=
  let x := sp_stats p in
  {| rw_name := sp_ShortName p; rw_badge := state_badge (st_State x); rw_collateral := st_CollateralWei x;
     rw_vouchers := st_VoucherCount x; rw_pay := st_CumulativePay x; rw_colour := result_colour (st_LastResult x);
     rw_result := st_LastResult x |}.

Record LogLine := { ll_time : Z; ll_category : string; ll_colour : Colour; ll_text : string }.
Definition log_line (e : LogEvent) : LogLine :=
  {| ll_time := le_Timestamp e; ll_category := le_Category e; ll_colour := level_colour (le_Level e);
     ll_text := cut_message (le_Message e) |}.
(** The last ten events; fewer are filled up with empty lines. *)
Definition log_window (l : list LogEvent) : list LogEvent := drop (length l - 10) l.

Record Dashboard := {
  db_merkle : string; db_demand : Z; db_replicas : Z; db_epoch : Z * Z; db_challenge : string; db_nonce : string;
  db_pow : string; db_rows : list Row; db_txs : Z; db_slashed : Z; db_tx : string; db_log : list LogLine;
  db_blank : nat }.
Definition renderDashboard (order : list SimProvider) (s : SimulationState) : Dashboard :=
  {| db_merkle := merkle_short (ss_MerkleRoot s); db_demand := ss_CurrentDemand s; db_replicas := ss_RequiredReplicas s;
     db_epoch := (ss_CurrentEpoch s, ss_TotalEpochs s); db_challenge := ss_LastChallengeID s;
     db_nonce := ss_LastNonceHex s +:+ "..."; db_pow := pow_short (ss_RecentPoWHash s);
     db_rows := provider_row <$> table_order order; db_txs := ss_TxCount s; db_slashed := ss_TotalSlashed s;
     db_tx := tx_short (ss_LatestTxHash s); db_log := log_line <$> log_window (ss_EventLog s);
     db_blank := 10 - length (log_window (ss_EventLog s)) |}.

(** ** The order is a sort *)

Definition name_le (p q : SimProvider) : Prop := String.leb (sp_ShortName p) (sp_ShortName q) = true.

Lemma leb_trans s t u : String.leb s t = true → String.leb t u = true → String.leb s u = true.
Proof.
  unfold String.leb. revert t u. induction s as [|a s IH]; intros [|b t] [|c u]; simpl; try done.
  unfold Ascii.compare. intros H1 H2.
  destruct (N.compare_spec (Ascii.N_of_ascii a) (Ascii.N_of_ascii b)) as [E1|L1|]; try done;
    destruct (N.compare_spec (Ascii.N_of_ascii b) (Ascii.N_of_ascii c)) as [E2|L2|]; try done;
    destruct (N.compare_spec (Ascii.N_of_ascii a) (Ascii.N_of_ascii c)); try done; try lia.
  by eapply IH.
Qed.
#[local] Instance name_le_trans : Transitive name_le.
Proof. intros p q r. apply leb_trans. Qed.
Lemma name_gt_spec p q : if name_gt p q then name_le q p else name_le p q.
Proof.
  unfold name_gt, name_le. destruct (String.leb (sp_ShortName p) (sp_ShortName q)) eqn:E; simpl; [done|].
  destruct (String.leb_total (sp_ShortName p) (sp_ShortName q)); congruence.
Qed.

Lemma exchange_spec x l m r :
  exchange x l = (m, r) → m :: r ≡ₚ x :: l ∧ name_le m x ∧ Forall (name_le m) r.
Proof.
  revert x m r. induction l as [|y l IH]; intros x m r; simpl.
  - intros [= <- <-]. split_and!; [done|unfold name_le|constructor].
    by destruct (String.leb_total (sp_ShortName x) (sp_ShortName x)).
  - pose proof (name_gt_spec x y) as Hxy. destruct (name_gt x y).
    + destruct (exchange y l) as [m' r'] eqn:E. intros [= <- <-]. apply IH in E as (Hp & Hm & Hr).
      split_and!; [by rewrite Permutation_swap, Hp|by transitivity y|].
      constructor; [by transitivity y|done].
    + destruct (exchange x l) as [m' r'] eqn:E. intros [= <- <-]. apply IH in E as (Hp & Hm & Hr).
      split_and!; [rewrite Permutation_swap, Hp; apply Permutation_swap|done|].
      constructor; [by transitivity x|done].
Qed.

Lemma exchange_sort_spec n l : (length l <= n)%nat → exchange_sort n l ≡ₚ l ∧ StronglySorted name_le (exchange_sort n l).
Proof.
  revert l. induction n as [|n IH]; intros [|x l] Hn; simpl in *; [by split; constructor|lia|by split; constructor|].
  destruct (exchange x l) as [m r] eqn:E. apply exchange_spec in E as (Hp & _ & Hr).
  assert (Hl : (length r <= n)%nat) by (apply Permutation_length in Hp; simpl in Hp; lia).
  destruct (IH r Hl) as [Hp' Hs]. split; [by rewrite Hp'|]. constructor; [done|]. by rewrite Hp'.
Qed.

Lemma sorted_unique l l' :
  l ≡ₚ l' → NoDup (sp_ShortName <$> l) → StronglySorted name_le l → StronglySorted name_le l' → l = l'.
Proof.
  revert l'. induction l as [|x l IH]; intros l' Hp Hn Hs Hs'.
  - by apply Permutation_nil_l in Hp.
  - destruct l' as [|y l']; [by apply Permutation_nil_r in Hp|]. inversion_clear Hs. inversion_clear Hs'.
    apply NoDup_cons in Hn as [Hx Hn].
    assert (x = y) as <-; [|f_equal; apply IH; try done; by apply Permutation_cons_inv in Hp].
    assert (Hy : y ∈ x :: l) by (rewrite Hp; left). apply elem_of_cons in Hy as [->|Hy]; [done|].
    assert (Hx' : x ∈ y :: l') by (rewrite <- Hp; left). apply elem_of_cons in Hx' as [->|Hx']; [done|].
    destruct Hx. rewrite Forall_forall in *. apply list_elem_of_fmap. exists y. split; [|done].
    apply String.leb_antisym; [by apply H0|by apply H2].
Qed.

(** The table lists every provider once, by name, and does not depend on the
    order of Go's map iteration: with distinct names any two orders of the
    same providers give the same dashboard. *)
Theorem dashboard_deterministic order order' s :
  order ≡ₚ order' → NoDup (sp_ShortName <$> order) →
  renderDashboard order s = renderDashboard order' s ∧
  table_order order ≡ₚ order ∧ StronglySorted name_le (table_order order).
Proof.
  intros Hp Hn. destruct (exchange_sort_spec (length order) order) as [H1 H2]; [done|].
  destruct (exchange_sort_spec (length order') order') as [H1' H2']; [done|]. split; [|done].
  unfold renderDashboard, table_order.
  rewrite (sorted_unique (exchange_sort (length order) order) (exchange_sort (length order') order')); try done.
  - by rewrite H1, H1'.
  - by rewrite H1.
Qed.
