(* ===== verification/Peer.v ===== *)
(** * The peer program

    network/cmd/peer/main.go: one program that ingests a file and serves it,
    or finds providers, downloads and reassembles, with two maintenance modes
    for the saved transfer sessions.  Starting the libp2p host, the relay
    reservation and the printing are left out; [log.Fatalf] is an error. *)

From S2P Require Import Prelude Sha256 Merkle Content ContentEngine Tickets ChunkProtocol Session ChunkSession Push Transfer Manager Paths Discovery Retrieval.

Record PeerFlags := {
  pf_target : string; pf_ingest : string; pf_fetch : string; pf_reassemble : string; pf_key : string;
  pf_resume : string; pf_transferStatus : bool; pf_cancel : string }.

(** The bytes [hex.DecodeString] returns beside its error: those before the
    first bad pair. *)
Fixpoint hex_decoded (l : list byte) : list byte :=
  match l with
  | a :: b :: l' =>
      match unhex_digit a, unhex_digit b with
      | Some x, Some y => byte_of_Z (16 * x + y) :: hex_decoded l'
      | _, _ => []
      end
  | _ => []
  end.

(** [core.EngineConfig{ChunkSize: 32 * 1024}]. *)
Definition peer_ChunkSize : Z := 32 * 1024.

(** ** Maintenance of the sessions *)

Section sessions.
Context {SC : SessionCodec}.

Definition session_row (s : TransferSession) : string :=
  " - ContentID: " +:+ EncodeToString (ts_ContentID s) +:+ " | Status: " +:+ ts_Status s +:+ " | Progress: "
  +:+ format_int (Z.of_nat (CompletedCount s)) +:+ "/" +:+ format_int (ts_TotalChunks s)
  +:+ " chunks | Target: " +:+ ts_TargetPeer s.

Definition transfer_status (io : string → option error) (dir : FS) : list string :=
  match List io dir with
  | [] => ["No active transfer sessions."%string]
  | sessions => "Transfer Sessions:"%string :: (session_row <$> sessions)
  end.

(** The identifier [-cancel] acts on; the decoding error is dropped. *)
Definition cancel_id (cancelID : string) : list byte := copy32 (hex_decoded (bytes_of cancelID)).

(** The session is reported as cancelled whatever [Delete] returns. *)
Definition cancel_session (io : option error) (cancelID : string) (dir : FS) : FS * string :=
  let cID := cancel_id cancelID in
  ((Delete cID io dir).1, "Session " +:+ EncodeToString cID +:+ " cancelled.").
End sessions.

(** ** Ingest and fetch *)

Section peer.
Context {MC : ManifestCodec} {AE : AEAD} {SS : SliceSort} {D : Type} {DH : Dht D}.

(** The identifier and key that the printed command line carries. *)
Record Printed := { pr_fetch : string; pr_key : string }.

Definition peer_ingest (pid : Z) (fault : Chunk → option (put_call * error))
    (open : result (list byte * option error)) (rndID rndKey : result (list byte))
    (keys : LocalKeyProvider) (fs : FS) (d : D) : option (LocalKeyProvider * FS * D * result Printed) :=
  match open with
  | Err e => Some (keys, fs, d, Err (Wrap "Failed to open ingest file" e))
  | Ok (data, rerr) =>
      '(keys, fs, r) ← Ingest (CS := FSChunkStore pid fault) peer_ChunkSize data rerr "file" rndID rndKey keys fs;
      Some match r with
           | Err e => (keys, fs, d, Err (Wrap "Failed to ingest" e))
           | Ok m =>
               let id := cd_ID (mf_Descriptor m) in
               let fs := (PutManifestBytes id (Serialize m) fs).1 in
               let d := (Provide id d).1 in
               let key := match key_Get id keys with Ok k => k | Err _ => [] end in
               (keys, fs, d, Ok {| pr_fetch := EncodeToString id; pr_key := EncodeToString key |})
           end
  end.

Definition peer_targets (target : string) (dial : string → result AddrInfo)
    (connect : AddrInfo → result ()) (contentID : list byte) (d : D) : result (list string) :=
  if decide (target ≠ ""%string) then
    match direct_peers dial target with
    | [] => Err (New "Fatal: Could not connect to any target peers")
    | ps => Ok ps
    end
  else
    let! providers := wrap "[DHT] Failed to find providers" (FindProviders contentID 3 d) in
    match providers with
    | [] => Err (New ("[DHT] No providers found for ContentID " +:+ EncodeToString contentID))
    | _ =>
        match connect_providers connect providers with
        | [] => Err (New "[DHT] Found providers, but could not connect to any of them")
        | ps => Ok ps
        end
    end.

(** [-fetch] goes before [-resume]. *)
Definition wanted (f : PeerFlags) : option string :=
  if decide (pf_fetch f ≠ ""%string) then Some (pf_fetch f)
  else if decide (pf_resume f ≠ ""%string) then Some (pf_resume f) else None.

Definition peer_key (contentID : list byte) (keyHex : string) (keys : LocalKeyProvider)
    : result LocalKeyProvider :=
  if decide (keyHex = ""%string) then Ok keys
  else let! k := decode32 "Invalid key hex format or length (must be 32 bytes)" keyHex in
       Ok (key_Put contentID k keys).

Context `{!SessionManager SM} {TC : TicketCodec}.
Context (pid : Z) (fault : list byte → option (put_call * error)) (sends : list byte → Chunk → Prop).

(** [-reassemble]: [create] is the outcome of [os.Create], the result the bytes
    written to the file. *)
Definition peer_output (f : PeerFlags) (create : result ()) (m : Manifest) (keys : LocalKeyProvider) (fs : FS)
    : result (option (list byte)) :=
  if decide (pf_reassemble f = ""%string) then Ok None
  else
    let! _ := wrap "Failed to create out file" create in
    let! out := wrap "Reassemble failed" (Reassemble (CS := FSChunkStore pid (λ _, None)) m keys fs) in
    Ok (Some out).

(** The fetch branch of [main]; the peers' manifest answers may depend on
    which peers were found. *)
Inductive peer_fetch (f : PeerFlags) (dial : string → result AddrInfo) (connect : AddrInfo → result ())
    (answers : list string → list (result (result (list byte)))) (create : result ())
    (keys : LocalKeyProvider) (sm : SM) (fs : FS) (d : D) : FS → result (option (list byte)) → Prop :=
| fetch_nothing : wanted f = None → peer_fetch f dial connect answers create keys sm fs d fs (Ok None)
| fetch_bad_id s e :
    wanted f = Some s → decode32 "Invalid ContentID hex" s = Err e →
    peer_fetch f dial connect answers create keys sm fs d fs (Err e)
| fetch_no_peers s id e :
    wanted f = Some s → decode32 "Invalid ContentID hex" s = Ok id →
    peer_targets (pf_target f) dial connect id d = Err e →
    peer_fetch f dial connect answers create keys sm fs d fs (Err e)
| fetch_bad_key s id ps e :
    wanted f = Some s → decode32 "Invalid ContentID hex" s = Ok id →
    peer_targets (pf_target f) dial connect id d = Ok ps → peer_key id (pf_key f) keys = Err e →
    peer_fetch f dial connect answers create keys sm fs d fs (Err e)
| fetch_unresolved s id ps keys' e :
    wanted f = Some s → decode32 "Invalid ContentID hex" s = Ok id →
    peer_targets (pf_target f) dial connect id d = Ok ps → peer_key id (pf_key f) keys = Ok keys' →
    ResolveManifest (answers ps) = Err e →
    peer_fetch f dial connect answers create keys sm fs d fs (Err (Wrap "Failed to resolve manifest" e))
| fetch_failed s id ps keys' m sm' fs' e :
    wanted f = Some s → decode32 "Invalid ContentID hex" s = Ok id →
    peer_targets (pf_target f) dial connect id d = Ok ps → peer_key id (pf_key f) keys = Ok keys' →
    ResolveManifest (answers ps) = Ok m →
    download_reaches (TG := ()) None pid fault sends id (mf_ChunkIDs m) ps sm fs sm' fs' (Some (Err e)) →
    peer_fetch f dial connect answers create keys sm fs d fs' (Err (Wrap "Download failed" e))
| fetch_done s id ps keys' m sm' fs' :
    wanted f = Some s → decode32 "Invalid ContentID hex" s = Ok id →
    peer_targets (pf_target f) dial connect id d = Ok ps → peer_key id (pf_key f) keys = Ok keys' →
    ResolveManifest (answers ps) = Ok m →
    download_reaches (TG := ()) None pid fault sends id (mf_ChunkIDs m) ps sm fs sm' fs' (Some (Ok tt)) →
    peer_fetch f dial connect answers create keys sm fs d fs' (peer_output f create m keys' fs').
End peer.

(** ** Cancelling *)

Lemma hex_decoded_all l b : hex_decode_bytes l = Some b → hex_decoded l = b.
Proof.
  revert l. induction b as [|c b IH]; intros [|x [|y l]]; cbn [hex_decode_bytes hex_decoded]; try done;
    destruct (unhex_digit x); try done; destruct (unhex_digit y); try done; cbn [mbind option_bind];
    destruct (hex_decode_bytes l) eqn:E; try done.
  cbn. intros [= <- ->]. by rewrite (IH _ E).
Qed.

Lemma cancel_id_hex id : length id = 32%nat → cancel_id (EncodeToString id) = id.
Proof.
  intros H. unfold cancel_id, EncodeToString. rewrite bytes_of_string_of.
  by rewrite (hex_decoded_all _ _ (hex_decode_encode_bytes id)), copy32_id.
Qed.

(** [-cancel] with the printed identifier of a session removes that session
    and leaves every other one as it was.  With anything else it still removes
    a session and says so: the identifier is what could be decoded, filled up
    with zeroes, and a failing [Delete] is reported as a cancellation too. *)
Theorem cancel_session_spec {SC : SessionCodec} id id' dir :
  length id = 32%nat →
  let '(dir', out) := cancel_session None (EncodeToString id) dir in
  Open id' None dir' = (if decide (id' = id) then Ok None else Open id' None dir) ∧
  out = ("Session " +:+ EncodeToString id +:+ " cancelled.") ∧
  (∀ s x y rest, bytes_of s = x :: y :: rest → unhex_digit x = None ∨ unhex_digit y = None →
     cancel_id s = replicate 32 x00) ∧
  (∀ e, dir !! getPath id = Some e →
     ∀ io, cancel_session (Some io) (EncodeToString id) dir = (dir, out)).
Proof.
  intros Hid. unfold cancel_session. rewrite cancel_id_hex by done. split; [apply Delete_Open|]. split; [done|]. split.
  - intros s x y rest Hs Hbad. unfold cancel_id. rewrite Hs. cbn [hex_decoded].
    destruct Hbad as [-> | ->]; [|destruct (unhex_digit x)]; reflexivity.
  - intros e He io. unfold Delete. by rewrite He.
Qed.

(** ** Serving and fetching *)

Section exchange.
Context {MC : ManifestCodec} {AE : AEAD} {SS : SliceSort} {D : Type} {DH : Dht D} `{!SessionManager SM} {TC : TicketCodec}.

(** The ingest of the peer is that of the publisher node when the store
    works: same chunks, keys and manifest, and the printed strings decode to
    its identifier and key. *)
Lemma peer_ingest_spec pid data contentID key keys fs (d : D) :
  zlen data < 2 ^ 32 * peer_ChunkSize → length contentID = 32%nat → length key = 32%nat →
  ∃ fs' m cks,
    peer_ingest pid (λ _, None) (Ok (data, None)) (Ok contentID) (Ok key) keys fs d =
      Some (key_Put contentID key keys, fs', (Provide contentID d).1,
            Ok {| pr_fetch := EncodeToString contentID; pr_key := EncodeToString key |}) ∧
    ingested peer_ChunkSize key data cks m ∧ cd_ID (mf_Descriptor m) = contentID ∧ manifest_typed m ∧
    GetManifestBytes contentID fs' = Ok (Serialize m) ∧
    (NoDup (mf_ChunkIDs m) → Forall (λ c, GetChunk (stored_id key c) fs' = Ok (stored_chunk key c)) cks).
Proof.
  intros H1 Hc Hk. destruct (ingest_content_spec pid peer_ChunkSize data contentID key keys fs)
    as (fs' & m & cks & E & Hg & Hid & Ht & Hm & Hst); try done; [unfold peer_ChunkSize in H1; lia|].
  exists fs', m, cks. split; [|done]. revert E. unfold ingest_content, peer_ingest.
  destruct (Ingest _ _ _ _ _ _ _ _) as [[[keys1 fs1] [m1|e]]|]; [| |done]; cbn [mbind option_bind].
  - destruct (PutManifestBytes (cd_ID (mf_Descriptor m1)) (Serialize m1) fs1) as [fs2 [[]|e]] eqn:Ep; [|done].
    intros [= -> -> ->]. rewrite Hid in *. cbn [fst]. unfold key_Get, key_Put. by rewrite lookup_insert_eq.
  - done.
Qed.

(** What one peer ingests, another retrieves with the command line the first
    one prints: from peers that hold what was published, whatever the order,
    failures and interruptions of the downloads, a fetch that succeeds has
    written exactly the file. *)
Theorem peer_exchange pid data contentID key keysA fsA (dA : D) :
  zlen data < 2 ^ 32 * peer_ChunkSize → length contentID = 32%nat → length key = 32%nat →
  ∃ pub m printed dA',
    peer_ingest pid (λ _, None) (Ok (data, None)) (Ok contentID) (Ok key) keysA fsA dA =
      Some (key_Put contentID key keysA, pub, dA', Ok printed) ∧
    GetManifestBytes contentID pub = Ok (Serialize m) ∧
    (NoDup (mf_ChunkIDs m) →
     ∀ pid' fault f dial connect providers answers create keys (sm : SM) fs (d : D) fs' out,
       pf_fetch f = pr_fetch printed → pf_key f = pr_key printed →
       Forall (replica contentID m pub) (fs :: providers) →
       (∀ ps, Forall (answered_by contentID providers) (answers ps)) →
       store_valid fs → store_whole fs → honest_store contentID (mf_ChunkIDs m) fs sm →
       peer_fetch pid' fault (sent_by providers) f dial connect answers create keys sm fs d fs' (Ok out) →
       out = if decide (pf_reassemble f = ""%string) then None else Some data).
Proof.
  intros H1 Hc Hk. destruct (peer_ingest_spec pid data contentID key keysA fsA dA)
    as (pub & m & cks & E & Hg & Hid & Ht & Hm & Hst); try done.
  eexists pub, m, _, _. split; [exact E|]. split; [done|].
  intros Hnd pid' fault f dial connect providers answers create keys sm fs d fs' out Hf Hkf Hrep Hans Hv Hw Hh Hrun.
  pose proof Hrep as [_ Hps]%Forall_cons. cbn [pr_fetch pr_key] in Hf, Hkf.
  pose proof EncodeToString_nonempty as Hne.
  assert (Hwant : wanted f = Some (EncodeToString contentID))
    by (unfold wanted; rewrite Hf, decide_True by auto; done).
  remember (Ok out) as r eqn:Er.
  destruct Hrun as [Hw0| | | | | |s id ps keys' m' sm' fs' Hws Hd Hpt Hpk Hrm Hdl];
    try discriminate Er; [congruence|].
  rewrite Hwant in Hws. injection Hws as <-. rewrite decode32_hex in Hd by done. injection Hd as <-.
  apply (resolved_published _ _ _ _ _ _ Ht Hps (Hans ps)) in Hrm as ->.
  unfold peer_key in Hpk. rewrite Hkf, decide_False, decode32_hex in Hpk by auto. cbn [rbind] in Hpk.
  injection Hpk as <-. unfold peer_output in Er. case_decide; [by injection Er|].
  destruct create; [|done]. cbn [wrap rbind] in Er. erewrite reassembled_file in Er; eauto. by injection Er.
Qed.
End exchange.
