(* ===== verification/Logger.v ===== *)
(** * Console logging

    shared/logger/logger.go: the loggers of the node programs.  Output is a
    sequence of texts and terminal codes ([piece]); [render] gives the bytes
    written.  The time of day and the formatted message are arguments. *)

From S2P Require Import Prelude.

(** ** Terminal codes *)

(** A code [ESC [ n m]; 0 switches every style off. *)
Inductive piece := Code (n : Z) | Text (s : string).
Definition ESC : string := string_of [x1b].
Definition render_piece (p : piece) : string :=
  match p with Code n => ESC +:+ "[" +:+ format_int n +:+ "m" | Text s => s end.
Definition render (l : list piece) : string := foldr (λ p s, render_piece p +:+ s) ""%string l.

Definition Reset := Code 0.
Definition Bold := Code 1.
Definition Dim := Code 2.
Definition Green := Code 32.
Definition Yellow := Code 33.
Definition Blue := Code 34.
Definition Magenta := Code 35.
Definition Cyan := Code 36.
Definition White := Code 37.
Definition HiRed := Code 91.
Definition HiGreen := Code 92.
Definition HiYellow := Code 93.
Definition HiMagenta := Code 95.
Definition HiCyan := Code 96.
Definition BgRed := Code 41.

Definition Colorize (colour : piece) (text : string) : list piece := [colour; Text text; Reset].

(** [strings.ToUpper] on ASCII letters. *)
Definition upper_byte (b : byte) : byte :=
  if decide (97 <= byte_to_Z b <= 122) then byte_of_Z (byte_to_Z b - 32) else b.
Definition ToUpper (s : string) : string := string_of (upper_byte <$> bytes_of s).

(** ** Loggers *)

Record Field := { fd_Key : string; fd_Value : string }.
(** The lock is held for a whole message, so messages never mix; [out] is the
    list of pieces a call writes. *)
Record Logger := { lg_role : string; lg_roleColor : piece; lg_subDomain : string }.

Definition role_color (role : string) : piece :=
  let r := ToUpper role in
  if decide (r = "PUBLISHER"%string) then Magenta
  else if decide (r = "PROVIDER"%string) then Green
  else if decide (r = "CONSUMER"%string ∨ r = "CLIENT"%string) then Blue
  else if decide (r = "BOOTSTRAP"%string) then Cyan
  else if decide (r = "RELAY"%string) then Yellow
  else if decide (r = "AVAILABILITY"%string) then HiMagenta
  else if decide (r = "PAYMENT"%string ∨ r = "PAYMENTS"%string) then HiYellow
  else Cyan.
Definition logger_New (role : string) : Logger :=
  {| lg_role := ToUpper role; lg_roleColor := role_color role; lg_subDomain := "" |}.
Definition Sub (domain : string) (l : Logger) : Logger :=
  {| lg_role := lg_role l; lg_roleColor := lg_roleColor l; lg_subDomain := ToUpper domain |}.

Definition domain_color (d : string) : piece :=
  if decide (d ∈ ["PAYMENT"; "PAYMENTS"; "SETTLEMENT"]%string) then Yellow
  else if decide (d ∈ ["AVAILABILITY"; "CHALLENGE"]%string) then Magenta
  else if decide (d ∈ ["DHT"; "DISCOVERY"]%string) then Cyan
  else if decide (d ∈ ["INGEST"; "STORAGE"; "CAS"]%string) then Blue
  else if decide (d ∈ ["TRANSFER"; "SWARM"]%string) then HiCyan
  else Cyan.

(** [strings.Join(parts, " ")]. *)
Fixpoint join_parts (parts : list (list piece)) : list piece :=
  match parts with
  | [] => []
  | [p] => p
  | p :: parts' => p ++ Text " " :: join_parts parts'
  end.
Definition formatPrefix (now levelTag : string) (levelColor : list piece) (l : Logger) : list piece :=
  join_parts ([[Dim; Text ("[" +:+ now +:+ "]"); Reset]]
    ++ (if decide (lg_role l = ""%string) then []
        else [[Bold; lg_roleColor l; Text ("[" +:+ lg_role l +:+ "]"); Reset]])
    ++ (if decide (lg_subDomain l = ""%string) then []
        else [[Bold; domain_color (lg_subDomain l); Text ("[" +:+ lg_subDomain l +:+ "]"); Reset]])
    ++ (if decide (levelTag = ""%string) then [] else [Bold :: levelColor ++ [Text levelTag; Reset]])).

(** [msg] is the format itself when there are no arguments. *)
Definition newline : string := string_of [x0a].
Definition logWithPrefix (now levelTag : string) (levelColor : list piece) (msg : string) (l : Logger) : list piece :=
  formatPrefix now levelTag levelColor l ++ [Text " "; Text msg; Text newline].

Definition Info (now msg : string) : Logger → list piece := logWithPrefix now "[INFO]" [Cyan] msg.
Definition Success (now msg : string) : Logger → list piece := logWithPrefix now "[✓]" [HiGreen] msg.
Definition Warn (now msg : string) : Logger → list piece := logWithPrefix now "[!]" [HiYellow] msg.
Definition log_Error (now msg : string) : Logger → list piece := logWithPrefix now "[✗]" [HiRed] msg.
(** The exit code follows the message. *)
Definition Fatal (now msg : string) (l : Logger) : list piece * Z :=
  (logWithPrefix now "[FATAL]" [BgRed; White] msg l, 1).

Definition border : string := "======================================================================".
Definition banner_field (f : Field) : list piece :=
  if decide (fd_Key f = ""%string ∧ fd_Value f = ""%string) then [Text newline]
  else if decide (fd_Key f = ""%string) then [Text (fd_Value f); Text newline]
  else [Text (fd_Key f); Text ": "; Text (fd_Value f); Text newline].
Definition Banner (title : string) (fields : list Field) (l : Logger) : list piece :=
  [Text newline; Bold; lg_roleColor l; Text border; Text newline]
  ++ [Text " "; Bold; Text title; Reset; Text newline]
  ++ [Bold; lg_roleColor l; Text border; Text newline]
  ++ concat (banner_field <$> fields)
  ++ [Bold; lg_roleColor l; Text border; Text newline; Text newline].

(** ** The state of the terminal *)

(** Whether a style is on after some output, from a state [on]. *)
Definition styled (on : bool) (l : list piece) : bool :=
  foldl (λ on p, match p with Code n => negb (bool_decide (n = 0)) | Text _ => on end) on l.

Lemma styled_app on l l' : styled on (l ++ l') = styled (styled on l) l'.
Proof. apply foldl_app. Qed.

Lemma join_parts_plain parts on :
  Forall (λ p, ∀ on, styled on p = false) parts → parts ≠ [] → styled on (join_parts parts) = false.
Proof.
  intros H. revert on. induction H as [|p parts Hp Hps IH]; intros on Hne; [done|].
  destruct parts as [|q parts]; [apply Hp|]. cbn [join_parts]. rewrite styled_app, Hp. by apply (IH false).
Qed.

(** Every log message leaves the terminal without a style, whatever was on
    before; a banner leaves the style of its border on, so that plain output
    after it is printed bold and in the colour of the role. *)
Theorem styles_after now tag colour msg l title fields on :
  styled on (logWithPrefix now tag colour msg l) = false ∧
  (∀ n, lg_roleColor l = Code n → n ≠ 0 → styled on (Banner title fields l) = true).
Proof.
  split.
  - unfold logWithPrefix, formatPrefix. rewrite styled_app, join_parts_plain; [done| |done].
    repeat apply Forall_app_2; repeat case_decide; repeat constructor; try done.
    intros on'. change (Bold :: colour ++ ?x) with ([Bold] ++ colour ++ x). by rewrite !styled_app.
  - intros n Hn Hz. unfold Banner. rewrite !styled_app. cbn. rewrite Hn. cbn. by rewrite bool_decide_false.
Qed.
Lemma role_color_on role : ∃ n, role_color role = Code n ∧ n ≠ 0.
Proof. unfold role_color. repeat case_decide; by eexists. Qed.
