(* ===== verification/Process.v ===== *)
(** * Programs as processes

    The main functions under src/nodes, src/network/cmd and src/scripts: a
    process changes a state and then returns, exits ([log.Fatalf] is
    [os.Exit(1)], which runs no deferred call), or hangs. *)

From S2P Require Import Prelude.

Inductive outcome (A : Type) :=
| Returns (a : A)
| Exits (code : Z)
| Hangs.
Arguments Returns {A}. Arguments Exits {A}. Arguments Hangs {A}.

Section process.
Context {W : Type}.

Definition proc (A : Type) : Type := W → outcome A * W.

Definition returns {A} (a : A) : proc A := λ w, (Returns a, w).
Definition pbindp {A B} (m : proc A) (k : A → proc B) : proc B :=
  λ w, match m w with
       | (Returns a, w') => k a w'
       | (Exits c, w') => (Exits c, w')
       | (Hangs, w') => (Hangs, w')
       end.
Definition exit {A} (code : Z) : proc A := λ w, (Exits code, w).
Definition fatal {A} : proc A := exit 1.
(** A loop that never ends. *)
Definition hangs {A} : proc A := λ w, (Hangs, w).
Definition modify (f : W → W) : proc () := λ w, (Returns tt, f w).
Definition state {A} (f : W → W * A) : proc A := λ w, let '(w', a) := f w in (Returns a, w').
Definition gets {A} (f : W → A) : proc A := λ w, (Returns (f w), w).
Definition when (b : bool) (m : proc ()) : proc () := if b then m else returns tt.
(** [if err != nil { log.Fatalf(...) }]. *)
Definition or_fatal {A} (r : result A) : proc A := match r with Ok a => returns a | Err _ => fatal end.
(** [defer f()] before the rest of a function. *)
Definition deferring {A} (f : W → W) (m : proc A) : proc A :=
  λ w, match m w with (Returns a, w') => (Returns a, f w') | r => r end.

(** The monad laws, state by state. *)
Lemma bind_returns {A B} (a : A) (k : A → proc B) w : pbindp (returns a) k w = k a w.
Proof. done. Qed.
Lemma bind_bind {A B C} (m : proc A) (f : A → proc B) (g : B → proc C) w :
  pbindp (pbindp m f) g w = pbindp m (λ a, pbindp (f a) g) w.
Proof. unfold pbindp. by destruct (m w) as [[] ?]. Qed.
Lemma bind_inv {A B} (m : proc A) (k : A → proc B) w b w' :
  pbindp m k w = (Returns b, w') → ∃ a w1, m w = (Returns a, w1) ∧ k a w1 = (Returns b, w').
Proof. unfold pbindp. destruct (m w) as [[a| |] w1]; [eauto|done|done]. Qed.
Lemma deferring_inv {A} f (m : proc A) w a w' :
  deferring f m w = (Returns a, w') → ∃ w1, m w = (Returns a, w1) ∧ w' = f w1.
Proof. unfold deferring. destruct (m w) as [[b| |] w1]; [|done|done]. intros [= -> <-]. eauto. Qed.
Lemma or_fatal_inv {A} (r : result A) w a w' : or_fatal r w = (Returns a, w') → r = Ok a ∧ w' = w.
Proof. destruct r; [|done]. by intros [= -> ->]. Qed.
(** Deferred calls run on return only. *)
Lemma exit_skips_defers {A} f (m : proc A) w c w' : m w = (Exits c, w') → deferring f m w = (Exits c, w').
Proof. unfold deferring. by intros ->. Qed.
(** For evaluation. *)
Definition returned {A} (o : outcome A) : bool := match o with Returns _ => true | _ => false end.
End process.
#[global] Arguments proc : clear implicits.

Declare Scope process_scope.
Delimit Scope process_scope with process.
Notation "'do!' x ← m 'in' k" := (pbindp m (λ x, k))
  (at level 200, x binder, m at level 99, k at level 200) : process_scope.
Notation "m ;;; k" := (pbindp m (λ _, k)) (at level 199, right associativity) : process_scope.
Notation "'defer!' f 'in' k" := (deferring f k) (at level 200, f at level 99, k at level 200) : process_scope.
