(* ===== verification/Host.v ===== *)
(** * The libp2p node

    network/transport/host.go and stream.go, discovery.NewDHT, and what the
    programs share when they start: the identity, the node, the bootstrap and
    the relay (the first steps of the main functions under src/nodes and
    src/network/cmd).

    libp2p is the record [Platform]: the outcomes of its calls.  A process
    records what it does as actions, latest first. *)

From S2P Require Import Prelude Sha256 Content ContentEngine Tickets Push ProofEngine Identity Paths Discovery Process.

(** ** Nodes *)

(** [libp2p.Option] as the code uses it. *)
Inductive node_option (K : Type) :=
| ListenAddrs (addrs : list string)
| EnableRelay
| WithIdentity (k : K)
| StaticRelays (relays : list AddrInfo)
| ForceReachabilityPrivate
| EnableHolePunching
| EnableNATService.
Arguments ListenAddrs {K}. Arguments EnableRelay {K}. Arguments WithIdentity {K}. Arguments StaticRelays {K}.
Arguments ForceReachabilityPrivate {K}. Arguments EnableHolePunching {K}. Arguments EnableNATService {K}.

(** What a host serves, and what runs in the background. *)
Inductive service :=
| ChunkService (tickets : option TicketSigner)
| PushService (policy : PushPolicy)
| AvailabilityService (engine : ProviderProofEngine)
| RelayService (dataLimit durationLimit maxReservations : Z).
(** With the intervals in nanoseconds. *)
Inductive task := Heartbeat (interval : Z) | Republisher (interval : Z).

Inductive action (K : Type) :=
| HostOpened (opts : list (node_option K))
| HostClosed
| DhtClosed
| Joined (seed : AddrInfo)
| Reserved (relay : AddrInfo)
| Protected (peer : string)
| Serves (s : service)
| Spawned (t : task).
Arguments HostOpened {K}. Arguments HostClosed {K}. Arguments DhtClosed {K}. Arguments Joined {K}.
Arguments Reserved {K}. Arguments Protected {K}. Arguments Serves {K}. Arguments Spawned {K}.

Section host.
Context {KC : KeyCodec} {D : Type} {DH : Dht D}.
#[local] Abbreviation action := (action PrivKey).
#[local] Abbreviation node_option := (node_option PrivKey).

Record Platform := {
  (** [libp2p.New]: the identifier of the new host; [dht.New] *)
  lp_New : list node_option → result string;
  lp_newDHT : result ();
  (** multiaddresses *)
  lp_NewMultiaddr : string → result string;
  lp_AddrInfoFromP2pAddr : string → result AddrInfo;
  lp_AddrInfoFromString : string → result AddrInfo;
  lp_Decode : string → result string;
  (** [h.Connect], [client.Reserve] *)
  lp_connect : AddrInfo → result ();
  lp_reserve : AddrInfo → result ();
  (** key generation and the file system under the key files *)
  lp_gen : result PrivKey;
  lp_faults : faults;
  lp_env : list byte;
  lp_userDir : result (list byte);
}.

(** The state of a process: the key files, the DHT, and what it has done. *)
Record Node := { nd_files : files; nd_dht : D; nd_acts : list action }.
Definition acts (a : action) (w : Node) : Node :=
  {| nd_files := nd_files w; nd_dht := nd_dht w; nd_acts := a :: nd_acts w |}.
Definition on_dht {A} (f : D → D * A) (w : Node) : Node * A :=
  let '(d, a) := f (nd_dht w) in ({| nd_files := nd_files w; nd_dht := d; nd_acts := nd_acts w |}, a).
Definition on_files {A} (f : files → files * A) (w : Node) : Node * A :=
  let '(fs, a) := f (nd_files w) in ({| nd_files := fs; nd_dht := nd_dht w; nd_acts := nd_acts w |}, a).

Context (lp : Platform).
#[local] Abbreviation proc := (proc Node).
#[local] Open Scope process_scope.

(** ** host.go *)

(** [fmt.Sprintf("/ip4/0.0.0.0/tcp/%d", port)]. *)
Definition tcp_addr (port : Z) : string := "/ip4/0.0.0.0/tcp/" +:+ format_int port.

(** The options of [NewNode]. *)
Definition node_options (listenPort wsPort : Z) (priv : option PrivKey) (relayAddr : string) (forceRelay : bool)
    : result (list node_option) :=
  let listenAddrs := [tcp_addr listenPort] ++ (if decide (wsPort > 0) then [tcp_addr wsPort +:+ "/ws"] else []) in
  let opts := [ListenAddrs listenAddrs; EnableRelay] ++ (match priv with Some k => [WithIdentity k] | None => [] end) in
  if decide (relayAddr = ""%string) then Ok opts
  else
    let! maddr := wrap "invalid relay address" (lp_NewMultiaddr lp relayAddr) in
    let! addrInfo := wrap "invalid relay peer info" (lp_AddrInfoFromP2pAddr lp maddr) in
    Ok (opts ++ [StaticRelays [addrInfo]; ForceReachabilityPrivate]
        ++ (if forceRelay then [] else [EnableHolePunching])).

(** [discovery.NewDHT]. *)
Definition NewDHT : result () := wrap "failed to create DHT" (lp_newDHT lp).

(** The host and its DHT; when the DHT fails the host is closed. *)
Definition NewNode (listenPort wsPort : Z) (priv : option PrivKey) (relayAddr : string) (forceRelay : bool)
    : proc (result string) :=
  match node_options listenPort wsPort priv relayAddr forceRelay with
  | Err e => returns (Err e)
  | Ok opts =>
      match lp_New lp opts with
      | Err e => returns (Err (Wrap "failed to create libp2p host" e))
      | Ok self =>
          modify (acts (HostOpened opts)) ;;;
          match NewDHT with
          | Err e => modify (acts HostClosed) ;;; returns (Err (Wrap "failed to create DHT" e))
          | Ok _ => returns (Ok self)
          end
      end
  end.

(** [Transport.OpenStream]: [newStream] is the outcome of [host.NewStream], which
    has 15 seconds. *)
Definition OpenStream {S} (newStream : result S) : result S := wrap "NewStream failed" newStream.

(** The label [logActiveConnections] prints for a connection: relayed when the
    remote address has a circuit part. *)
Definition conn_type (circuit : bool) : string := if circuit then "Relay" else "Direct".
Definition active_connections (conns : list (bool * string)) : list string :=
  imap (λ i c, format_int (Z.of_nat i + 1) +:+ ") " +:+ conn_type c.1 +:+ " [" +:+ c.2 +:+ "]") conns.

(** ** Starting a program *)

(** [-identity], or the default key file. *)
Definition load_identity (identityPath : string) : proc PrivKey :=
  do! r ← state (on_files (if decide (identityPath = ""%string)
                           then LoadOrCreate (lp_faults lp) (lp_gen lp) (lp_env lp) (lp_userDir lp)
                           else LoadOrCreateFromPath (lp_faults lp) (lp_gen lp) (bytes_of identityPath))) in
  or_fatal r.

(** [-bootstrap]. *)
Definition join_dht (self bootstrapAddr : string) : proc () :=
  if decide (bootstrapAddr = ""%string) then returns tt
  else
    do! info ← or_fatal (lp_AddrInfoFromString lp bootstrapAddr) in
    do! r ← state (on_dht (Bootstrap self (lp_connect lp) [info])) in
    or_fatal r ;;; modify (acts (Joined info)).

(** [-relay]: failures are not fatal here. *)
Definition use_relay (relayAddr : string) : proc () :=
  if decide (relayAddr = ""%string) then returns tt
  else match lp_AddrInfoFromString lp relayAddr with
       | Err _ => returns tt
       | Ok info =>
           match lp_connect lp info with
           | Err _ => returns tt
           | Ok _ =>
               match lp_reserve lp info with
               | Err _ => returns tt
               | Ok _ => modify (acts (Reserved info)) ;;; modify (acts (Protected (ai_ID info)))
               end
           end
       end.

(** [defer h.Close()] and [defer kdht.Close()], which run in the other order. *)
Definition close_node (w : Node) : Node := acts HostClosed (acts DhtClosed w).

(** Identity, node, bootstrap and relay, and the rest of the program with the
    node open. *)
Definition with_node {A} (port wsPort : Z) (identityPath bootstrapAddr relayAddr : string) (forceRelay : bool)
    (body : PrivKey → string → proc A) : proc A :=
  do! priv ← load_identity identityPath in
  do! r ← NewNode port wsPort (Some priv) relayAddr forceRelay in
  do! self ← or_fatal r in
  defer! close_node in
  join_dht self bootstrapAddr ;;; use_relay relayAddr ;;; body priv self.

(** ** What starting does *)

(** A process that only adds actions of a kind, and returns or exits with
    status 1. *)
Definition runs (P : action → Prop) {A} (m : proc A) : Prop :=
  ∀ w, (∃ new, nd_acts (m w).2 = new ++ nd_acts w ∧ Forall P new) ∧ ((∃ a, (m w).1 = Returns a) ∨ (m w).1 = Exits 1).

Lemma runs_returns P {A} (a : A) : runs P (returns a).
Proof. intros w. split; [by exists []|left; by eexists]. Qed.
Lemma runs_or_fatal P {A} (r : result A) : runs P (or_fatal r).
Proof. intros w. destruct r; (split; [by exists []|]); [left; by eexists|by right]. Qed.
Lemma runs_act (P : action → Prop) a : P a → runs P (modify (acts a)).
Proof. intros Ha w. split; [|left; by eexists]. exists [a]. split; [done|]. by constructor. Qed.
Lemma runs_bind P {A B} (m : proc A) (k : A → proc B) : runs P m → (∀ a, runs P (k a)) → runs P (pbindp m k).
Proof.
  intros Hm Hk w. destruct (Hm w) as [(n1 & E1 & F1) Ho]. unfold pbindp. destruct (m w) as [[a|c|] w1]; cbn in *.
  - destruct (Hk a w1) as [(n2 & E2 & F2) Ho2]. split; [|exact Ho2]. exists (n2 ++ n1).
    rewrite E2, E1, <- app_assoc. split; [done|]. by apply Forall_app.
  - destruct Ho as [[a Ha]|[= ->]]; [done|]. split; [by exists n1|by right].
  - destruct Ho as [[a Ha]|Ha]; done.
Qed.
Lemma runs_when P b (m : proc ()) : runs P m → runs P (when b m).
Proof. intros Hm. destruct b; [exact Hm|apply runs_returns]. Qed.
Lemma runs_dht (P : action → Prop) {A} (f : D → D * A) : runs P (state (on_dht f)).
Proof. intros w. unfold state, on_dht. destruct (f (nd_dht w)). split; [by exists []|left; by eexists]. Qed.
Lemma runs_files (P : action → Prop) {A} (f : files → files * A) : runs P (state (on_files f)).
Proof. intros w. unfold state, on_files. destruct (f (nd_files w)). split; [by exists []|left; by eexists]. Qed.
Lemma runs_weaken (P Q : action → Prop) {A} (m : proc A) : (∀ a, P a → Q a) → runs P m → runs Q m.
Proof.
  intros HPQ Hm w. destruct (Hm w) as [(new & E & F) Ho]. split; [|exact Ho]. exists new. split; [done|].
  eapply Forall_impl; [exact F|exact HPQ].
Qed.

(** The actions of joining a network, and of starting up. *)
Definition joining (a : action) : Prop :=
  match a with Joined _ | Reserved _ | Protected _ => True | _ => False end.
Definition starting (a : action) : Prop :=
  match a with HostOpened _ | HostClosed => True | _ => joining a end.

Lemma load_identity_runs P path : runs P (load_identity path).
Proof. unfold load_identity. apply runs_bind; [apply runs_files|intros r; apply runs_or_fatal]. Qed.
Lemma NewNode_runs port wsPort priv relayAddr forceRelay : runs starting (NewNode port wsPort priv relayAddr forceRelay).
Proof.
  unfold NewNode. destruct (node_options _ _ _ _ _); [|apply runs_returns].
  destruct (lp_New _ _); [|apply runs_returns]. apply runs_bind; [by apply runs_act|intros _].
  destruct NewDHT; [apply runs_returns|]. apply runs_bind; [by apply runs_act|intros _; apply runs_returns].
Qed.
Lemma join_dht_runs self addr : runs joining (join_dht self addr).
Proof.
  unfold join_dht. case_decide; [apply runs_returns|]. apply runs_bind; [apply runs_or_fatal|intros info].
  apply runs_bind; [apply runs_dht|intros r]. apply runs_bind; [apply runs_or_fatal|intros _]. by apply runs_act.
Qed.
Lemma use_relay_runs addr : runs joining (use_relay addr).
Proof.
  unfold use_relay. case_decide; [apply runs_returns|]. destruct (lp_AddrInfoFromString _ _) as [info|]; [|apply runs_returns].
  destruct (lp_connect _ _); [|apply runs_returns]. destruct (lp_reserve _ _); [|apply runs_returns].
  apply runs_bind; [by apply runs_act|intros _; by apply runs_act].
Qed.

Lemma NewNode_inv port wsPort priv relayAddr forceRelay w self w' :
  NewNode port wsPort priv relayAddr forceRelay w = (Returns (Ok self), w') →
  ∃ opts, node_options port wsPort priv relayAddr forceRelay = Ok opts ∧ lp_New lp opts = Ok self ∧
    w' = acts (HostOpened opts) w.
Proof.
  unfold NewNode. destruct (node_options _ _ _ _ _) as [opts|]; [|done]. intros H. exists opts. split; [done|].
  destruct (lp_New lp opts) as [s|]; [|done]. apply bind_inv in H as (u & wd & Hm & H). injection Hm as _ <-.
  destruct NewDHT; [|done]. by injection H as -> <-.
Qed.

(** A program that returns loaded its identity, opened a host with the options
    its flags ask for, joined, ran its body with the node open, and closed DHT
    and host. *)
Theorem with_node_returns {A} port wsPort identityPath bootstrapAddr relayAddr forceRelay
    (body : PrivKey → string → proc A) w a w' :
  with_node port wsPort identityPath bootstrapAddr relayAddr forceRelay body w = (Returns a, w') →
  ∃ priv opts self joined w1 w2,
    node_options port wsPort (Some priv) relayAddr forceRelay = Ok opts ∧ lp_New lp opts = Ok self ∧
    nd_acts w1 = joined ++ HostOpened opts :: nd_acts w ∧ Forall joining joined ∧
    body priv self w1 = (Returns a, w2) ∧ w' = close_node w2.
Proof.
  intros H. unfold with_node in H. apply bind_inv in H as (priv & wa & Hp & H).
  assert (Ea : nd_acts wa = nd_acts w).
  { unfold load_identity in Hp. apply bind_inv in Hp as (r & wb & Hs & [_ ->]%or_fatal_inv).
    unfold state, on_files in Hs. destruct (if decide _ then _ else _) as [fs0 a0]. by injection Hs as _ <-. }
  apply bind_inv in H as (r & wb & Hn & H). apply bind_inv in H as (self & wc & [-> ->]%or_fatal_inv & H).
  apply NewNode_inv in Hn as (opts & Ho & Hnew & Eb). apply (f_equal nd_acts) in Eb. cbn in Eb.
  apply deferring_inv in H as (w2 & H & ->). apply bind_inv in H as ([] & wd & Hj & H).
  apply bind_inv in H as ([] & we & Hu & H).
  destruct (join_dht_runs self bootstrapAddr wb) as [(n1 & E1 & F1) _]. rewrite Hj in E1. cbn in E1.
  destruct (use_relay_runs relayAddr wd) as [(n2 & E2 & F2) _]. rewrite Hu in E2. cbn in E2.
  exists priv, opts, self, (n2 ++ n1), we, w2. split_and!; try done; [|by apply Forall_app].
  by rewrite E2, E1, Eb, Ea, <- app_assoc.
Qed.

(** The identity the flags name. *)
Definition identity_of (identityPath : string) (fs : files) : files * result PrivKey :=
  if decide (identityPath = ""%string) then LoadOrCreate (lp_faults lp) (lp_gen lp) (lp_env lp) (lp_userDir lp) fs
  else LoadOrCreateFromPath (lp_faults lp) (lp_gen lp) (bytes_of identityPath) fs.

Lemma use_relay_returns relayAddr w : ∃ w', use_relay relayAddr w = (Returns tt, w').
Proof.
  unfold use_relay. case_decide; [by eexists|]. destruct (lp_AddrInfoFromString _ _) as [info|]; [|by eexists].
  destruct (lp_connect _ _); [|by eexists]. destruct (lp_reserve _ _); by eexists.
Qed.

(** With a usable identity, addresses that parse, a host, a DHT and a seed that
    answers, the program gets to its body; an unreachable relay does not stop
    it. *)
Theorem with_node_starts {A} port wsPort identityPath bootstrapAddr relayAddr forceRelay
    (body : PrivKey → string → proc A) w fs priv opts self :
  identity_of identityPath (nd_files w) = (fs, Ok priv) →
  node_options port wsPort (Some priv) relayAddr forceRelay = Ok opts → lp_New lp opts = Ok self →
  lp_newDHT lp = Ok tt →
  (bootstrapAddr ≠ ""%string → ∃ info d, lp_AddrInfoFromString lp bootstrapAddr = Ok info ∧
     Bootstrap self (lp_connect lp) [info] (nd_dht w) = (d, Ok tt)) →
  ∃ w1, with_node port wsPort identityPath bootstrapAddr relayAddr forceRelay body w
        = deferring close_node (body priv self) w1.
Proof.
  intros Hid Ho Hn Hd Hb.
  assert (Hrest : ∀ w0, nd_dht w0 = nd_dht w →
    ∃ w1, (join_dht self bootstrapAddr ;;; use_relay relayAddr ;;; body priv self) w0 = body priv self w1).
  { intros w0 E0. assert (∃ w2, join_dht self bootstrapAddr w0 = (Returns tt, w2)) as [w2 Hj].
    { unfold join_dht. case_decide as Hbs; [by eexists|]. destruct (Hb Hbs) as (info & d & Hi & Hj).
      unfold pbindp, state, on_dht. rewrite Hi. cbn [or_fatal returns]. rewrite E0, Hj. by eexists. }
    destruct (use_relay_returns relayAddr w2) as [w1 Hu]. exists w1. unfold pbindp. by rewrite Hj, Hu. }
  destruct (Hrest (acts (HostOpened opts) {| nd_files := fs; nd_dht := nd_dht w; nd_acts := nd_acts w |}) eq_refl)
    as [w1 Hw1].
  exists w1. unfold with_node, load_identity. unfold pbindp at 1 2, state at 1, on_files at 1.
  replace ((if decide (identityPath = ""%string) then _ else _) (nd_files w)) with (fs, @Ok PrivKey priv)
    by (rewrite <- Hid; unfold identity_of; by case_decide).
  cbn [or_fatal returns]. unfold pbindp at 1, NewNode, NewDHT. rewrite Ho, Hn, Hd.
  cbn [pbindp modify returns wrap or_fatal]. unfold deferring. by rewrite Hw1.
Qed.

(** A process that returns, or exits with status 1 after actions of a kind. *)
Definition exits_with (P : action → Prop) {A} (m : proc A) : Prop :=
  ∀ w, (∃ a, (m w).1 = Returns a) ∨
       ((m w).1 = Exits 1 ∧ ∃ new, nd_acts (m w).2 = new ++ nd_acts w ∧ Forall P new).
Lemma runs_exits P {A} (m : proc A) : runs P m → exits_with P m.
Proof. intros Hm w. destruct (Hm w) as [Hn [Ho|Ho]]; [by left|by right]. Qed.
Lemma exits_bind P {A B} (m : proc A) (k : A → proc B) :
  runs P m → (∀ a, exits_with P (k a)) → exits_with P (pbindp m k).
Proof.
  intros Hm Hk w. destruct (Hm w) as [(n1 & E1 & F1) Ho]. unfold pbindp. destruct (m w) as [[a|c|] w1]; cbn in *.
  - destruct (Hk a w1) as [Hr|(Hx & n2 & E2 & F2)]; [by left|right]. split; [done|]. exists (n2 ++ n1).
    rewrite E2, E1, <- app_assoc. split; [done|]. by apply Forall_app.
  - destruct Ho as [[a Ha]|[= ->]]; [done|]. right. split; [done|]. by exists n1.
  - destruct Ho as [[a Ha]|Ha]; done.
Qed.
Lemma exits_deferring P {A} f (m : proc A) : exits_with P m → exits_with P (deferring f m).
Proof.
  intros Hm w. unfold deferring. destruct (Hm w) as [[a Ha]|Hx]; destruct (m w) as [[] w1]; cbn in *; try done;
    [left; by eexists|by destruct Hx|by right|by destruct Hx].
Qed.

(** A program that does not return exits with status 1; the node it may have
    opened is then left to the system, unless it was the DHT that failed. *)
Theorem with_node_exits {A} (P : action → Prop) port wsPort identityPath bootstrapAddr relayAddr forceRelay
    (body : PrivKey → string → proc A) :
  (∀ a, starting a → P a) → (∀ priv self, exits_with P (body priv self)) →
  exits_with P (with_node port wsPort identityPath bootstrapAddr relayAddr forceRelay body).
Proof.
  intros HP Hb. unfold with_node.
  assert (HJ : ∀ a, joining a → P a) by (intros a Ha; apply HP; by destruct a).
  apply exits_bind; [apply load_identity_runs|intros priv].
  apply exits_bind; [eapply runs_weaken; [apply HP|apply NewNode_runs]|intros r].
  apply exits_bind; [apply runs_or_fatal|intros self]. apply exits_deferring.
  apply exits_bind; [eapply runs_weaken; [apply HJ|apply join_dht_runs]|intros _].
  apply exits_bind; [eapply runs_weaken; [apply HJ|apply use_relay_runs]|intros _; apply Hb].
Qed.
End host.

(** ** A small network *)

(** A network of one provider, which is found for what was announced. *)
#[global] Instance ToyDht : Dht (list (list byte)) := {|
  cid := list byte; mh_Encode := Ok; NewCidV1 c := c;
  dht_Provide c d := (c :: d, Ok tt);
  FindProvidersAsync c _ d := if decide (c ∈ d) then [{| ai_ID := "provider"; ai_Addrs := ["/ip4/10.0.0.1/tcp/4001"] |}] else [];
  dht_Bootstrap d := (d, Ok tt) |}.

Definition toy_info (s : string) : AddrInfo := {| ai_ID := s; ai_Addrs := [s] |}.
Definition toy_platform : Platform (KC := ToyKeyCodec) := {|
  lp_New _ := Ok "provider"%string; lp_newDHT := Ok tt; lp_NewMultiaddr := Ok;
  lp_AddrInfoFromP2pAddr s := Ok (toy_info s); lp_AddrInfoFromString s := Ok (toy_info s);
  lp_Decode s := if decide (s = ""%string) then Err (New "failed to parse peer ID") else Ok s;
  lp_connect _ := Ok tt; lp_reserve _ := Ok tt;
  lp_gen := Ok (replicate 64 x07); lp_faults := no_faults; lp_env := []; lp_userDir := Ok (bytes_of "/home/u/.config") |}.
Definition toy_node : Node (KC := ToyKeyCodec) (D := list (list byte)) := {| nd_files := ∅; nd_dht := []; nd_acts := [] |}.
