(* ===== verification/ProviderMain.v ===== *)
(** * The provider program

    nodes/provider/main.go: the whole main function as a process over the node
    of Host.v, with its flags.  The content store, the Ethereum node and the
    peer's key are arguments. *)

From S2P Require Import Prelude Sha256 Content Merkle ContentEngine ProofEngine Tickets Crypto AvailWire Session Push Bridge Paths Identity Discovery Nodes Process Host.

(** ** Flags *)

(** The probability of a corrupt chunk is in ten-thousandths. *)
Record ProviderFlags := {
  pf_port : Z; pf_wsPort : Z; pf_storePath : string; pf_bootstrapAddr : string; pf_relayAddr : string;
  pf_forceRelay : bool; pf_republishHours : Z; pf_corruptProb : Z; pf_identityPath : string;
  pf_allowPush : bool; pf_pushAuthPolicy : string; pf_pushAllowedPublishers : string;
  pf_ethRPC : string; pf_entropyAddr : string; pf_enableAvailability : bool; pf_roleName : string;
}.
Definition provider_defaults : ProviderFlags := {|
  pf_port := 4001; pf_wsPort := 4002; pf_storePath := "./provider_store"; pf_bootstrapAddr := ""; pf_relayAddr := "";
  pf_forceRelay := false; pf_republishHours := 12; pf_corruptProb := 0; pf_identityPath := "";
  pf_allowPush := true; pf_pushAuthPolicy := "open"; pf_pushAllowedPublishers := "";
  pf_ethRPC := ""; pf_entropyAddr := ""; pf_enableAvailability := true; pf_roleName := "Core Storage Provider" |}.

(** [time.Duration(h) * time.Hour]. *)
Definition Hour : Z := 3600 * 10 ^ 9.
Definition Minute : Z := 60 * 10 ^ 9.
Definition hours (h : Z) : Z := i64 (h * Hour).

Section provider_main.
Context {KC : KeyCodec} {ED : Ed25519} {MC : ManifestCodec} {GE : GoEthereum} {GC : GethCommon}.
Context {D : Type} {DH : Dht D} (lp : Platform (KC := KC)).
#[local] Abbreviation proc := (proc (Node (KC := KC) (D := D))).
#[local] Open Scope process_scope.

(** The outcomes of [os.MkdirAll], [ethclient.DialContext], [ChainID] and
    [priv.Raw], the store, and [ed25519.NewKeyFromSeed]. *)
Record ProviderEnv := {
  pe_mkdir : result ();
  pe_dial : string → result ();
  pe_chainID : result Z;
  pe_raw : PrivKey → result (list byte);
  pe_seed : list byte → list byte;
  pe_store : FS;
}.
Context (env : ProviderEnv).

(** Entries that do not decode are dropped. *)
Definition allowed_publishers (entries : string) : list string :=
  if decide (entries = ""%string) then []
  else omap (λ s, match lp_Decode lp (TrimSpace s) with Ok pid => Some pid | Err _ => None end) (Split entries x2c).

(** The push handler the flags ask for. *)
Definition push_policy (f : ProviderFlags) : PushPolicy :=
  push_NewStreamHandler (pf_allowPush f) (pf_pushAuthPolicy f) (allowed_publishers (pf_pushAllowedPublishers f)).

Definition wants_tickets (f : ProviderFlags) : bool :=
  bool_decide (pf_ethRPC f ≠ ""%string ∧ pf_entropyAddr f ≠ ""%string).
Definition ticket_signer (f : ProviderFlags) (chainID : Z) : TicketSigner :=
  NewTicketSigner None chainID (HexToAddress (pf_entropyAddr f)).

(** The chunk handler is registered without a ticket handler and gets one when
    the Ethereum node has answered. *)
Definition serve_chunks (f : ProviderFlags) : proc () :=
  modify (acts (Serves (ChunkService None))) ;;;
  when (wants_tickets f)
    (or_fatal (pe_dial env (pf_ethRPC f)) ;;;
     do! chainID ← or_fatal (pe_chainID env) in
     modify (acts (Serves (ChunkService (Some (ticket_signer f chainID)))))).

Definition serve_availability (f : ProviderFlags) (priv : PrivKey) (self : string) : proc () :=
  when (pf_enableAvailability f)
    match start_engine (pe_seed env) self (pe_raw env priv) (pe_store env) with
    | None => returns tt
    | Some engine => modify (acts (Serves (AvailabilityService engine)))
    end.

(** From the store to the signal that ends the program. *)
Definition provider_body (f : ProviderFlags) (priv : PrivKey) (self : string) : proc () :=
  or_fatal (pe_mkdir env) ;;;
  serve_chunks f ;;;
  modify (acts (Serves (PushService (push_policy f)))) ;;;
  when (pf_allowPush f) (modify (acts (Spawned (Heartbeat (10 * Minute))))) ;;;
  modify (acts (Spawned (Republisher (hours (pf_republishHours f))))) ;;;
  serve_availability f priv self.

Definition provider_main (f : ProviderFlags) : proc () :=
  with_node lp (pf_port f) (pf_wsPort f) (pf_identityPath f) (pf_bootstrapAddr f) (pf_relayAddr f) (pf_forceRelay f)
    (provider_body f).

(** ** What a running provider does *)

(** What the body adds when it returns, latest first. *)
Definition provider_acts (f : ProviderFlags) (priv : PrivKey) (self : string) : list (action PrivKey) :=
  (match start_engine (pe_seed env) self (pe_raw env priv) (pe_store env) with
   | Some engine => if pf_enableAvailability f then [Serves (AvailabilityService engine)] else []
   | None => []
   end) ++
  [Spawned (Republisher (hours (pf_republishHours f)))] ++
  (if pf_allowPush f then [Spawned (Heartbeat (10 * Minute))] else []) ++
  [Serves (PushService (push_policy f))] ++
  (match pe_chainID env with
   | Ok chainID => if wants_tickets f then [Serves (ChunkService (Some (ticket_signer f chainID)))] else []
   | Err _ => []
   end) ++
  [Serves (ChunkService None)].

Lemma provider_body_spec f priv self w :
  let '(o, w') := provider_body f priv self w in
  if bool_decide (pe_mkdir env = Ok tt ∧
       (wants_tickets f = true → pe_dial env (pf_ethRPC f) = Ok tt ∧ is_ok (pe_chainID env) = true))
  then o = Returns tt ∧ nd_acts w' = provider_acts f priv self ++ nd_acts w
  else o = Exits 1 ∧ (nd_acts w' = nd_acts w ∨ nd_acts w' = Serves (ChunkService None) :: nd_acts w).
Proof.
  unfold provider_body, serve_chunks, serve_availability, provider_acts, pbindp, modify, when, returns, or_fatal, fatal, exit.
  destruct (pe_mkdir env) as [[]|]; [|rewrite bool_decide_eq_false_2 by naive_solver; split; [done|by left]].
  destruct (wants_tickets f).
  - destruct (pe_dial env _) as [[]|]; [|rewrite bool_decide_eq_false_2 by naive_solver; split; [done|by right]].
    destruct (pe_chainID env) as [ch|]; [|rewrite bool_decide_eq_false_2 by naive_solver; split; [done|by right]].
    rewrite bool_decide_eq_true_2 by done.
    destruct (pf_allowPush f), (pf_enableAvailability f), (start_engine _ _ _ _); done.
  - rewrite bool_decide_eq_true_2 by done. destruct (pe_chainID env);
      destruct (pf_allowPush f), (pf_enableAvailability f), (start_engine _ _ _ _); done.
Qed.

Lemma provider_body_returns f priv self w w' :
  provider_body f priv self w = (Returns tt, w') → nd_acts w' = provider_acts f priv self ++ nd_acts w.
Proof.
  intros H. pose proof (provider_body_spec f priv self w) as Hs. rewrite H in Hs.
  destruct (bool_decide _); [by destruct Hs|]. by destruct Hs.
Qed.

(** Without a ticket verifier the chunk service delivers to everyone. *)
Definition unpaid (a : action PrivKey) : Prop :=
  match a with Serves (ChunkService None) => True | Serves _ | Spawned _ => False | _ => True end.

Lemma provider_body_exits f priv self : exits_with unpaid (provider_body f priv self).
Proof.
  intros w. pose proof (provider_body_spec f priv self w) as Hs. destruct (provider_body f priv self w) as [o w'].
  destruct (bool_decide _); destruct Hs as [-> Hs]; cbn [fst snd]; [left; by eexists|right]. split; [done|].
  destruct Hs as [Hs|Hs]; [exists []|eexists [_]]; (split; [exact Hs|]); by repeat constructor.
Qed.

(** C37: A provider that runs until it is stopped has opened one node with its
    identity and the addresses of its flags, then served chunks, pushes under
    exactly the policy of its flags and, when its key is usable, challenges with
    a proof engine over its store, announced itself only if it accepts pushes,
    and closed the node.  Tickets are checked exactly when both Ethereum flags
    are set.  The push service lets a peer in exactly when pushing is allowed
    and the policy is not [allowlist] or the peer is on the list. *)
Theorem provider_serves f w w' :
  provider_main f w = (Returns tt, w') →
  ∃ priv self opts joined,
    node_options lp (pf_port f) (pf_wsPort f) (Some priv) (pf_relayAddr f) (pf_forceRelay f) = Ok opts ∧
    lp_New lp opts = Ok self ∧ Forall joining joined ∧
    nd_acts w' = [HostClosed; DhtClosed] ++ provider_acts f priv self ++ joined ++ HostOpened opts :: nd_acts w ∧
    (wants_tickets f = true → ∃ chainID, pe_chainID env = Ok chainID ∧
       Serves (ChunkService (Some (ticket_signer f chainID))) ∈ nd_acts w') ∧
    (∀ peer st, handleStream (push_policy f) peer st = Ret (st, true) ↔
       pf_allowPush f = true ∧
       (pf_pushAuthPolicy f = "allowlist"%string → peer ∈ allowed_publishers (pf_pushAllowedPublishers f))).
Proof.
  intros H. pose proof H as H0. apply with_node_returns in H0 as (priv & opts & self & joined & w1 & w2 & Ho & Hn & E1 & Fj & Hb & ->).
  pose proof (provider_body_spec f priv self w1) as Hs. rewrite Hb in Hs.
  exists priv, self, opts, joined. split; [done|]. split; [done|]. split; [done|].
  assert (Ew : nd_acts (close_node w2) =
    [HostClosed; DhtClosed] ++ provider_acts f priv self ++ joined ++ HostOpened opts :: nd_acts w).
  { cbn [close_node acts nd_acts app]. by rewrite (provider_body_returns _ _ _ _ _ Hb), E1. }
  split; [exact Ew|]. split.
  - intros Hw. case_bool_decide as Hc; [|by destruct Hs]. destruct Hc as [_ Hc]. destruct (Hc Hw) as [_ Hid].
    unfold provider_acts in Ew. destruct (pe_chainID env) as [ch|]; [|done]. exists ch. split; [done|].
    rewrite Ew, Hw. set_solver.
  - clear Hs. intros peer st. unfold handleStream. cbn [push_policy push_NewStreamHandler pp_allowPush pp_authPolicy pp_allowedPublishers].
    destruct (pf_allowPush f); cbn [negb]; [|naive_solver]. unfold AuthPolicyAllowlist. case_decide as Hd.
    + split; [done|]. intros [_ Hin]. destruct Hd as [Hp Hd]. destruct Hd. apply elem_of_list_to_set. by apply Hin.
    + split; [|done]. intros _. split; [done|]. intros Hp.
      destruct (decide (peer ∈ allowed_publishers (pf_pushAllowedPublishers f))) as [|Hn']; [done|]. destruct Hd.
      split; [done|]. by rewrite elem_of_list_to_set.
Qed.

(** A provider that gives up, for whatever reason, exits with status 1; it never
    accepted a push, never answered a challenge and never announced itself, but
    it may have delivered chunks without asking for tickets. *)
Theorem provider_gives_up f w c w' :
  provider_main f w = (Exits c, w') →
  c = 1 ∧ ∃ new, nd_acts w' = new ++ nd_acts w ∧ Forall unpaid new.
Proof.
  intros H. assert (Hx : exits_with unpaid (provider_main f)).
  { apply with_node_exits; [by intros []|apply provider_body_exits]. }
  destruct (Hx w) as [[a Ha]|[Hc Hn]]; rewrite H in *; cbn in *; [done|]. by injection Hc as ->.
Qed.

(** A provider comes up whenever what it needs is there. *)
Theorem provider_starts f w fs priv opts self :
  identity_of lp (pf_identityPath f) (nd_files w) = (fs, Ok priv) →
  node_options lp (pf_port f) (pf_wsPort f) (Some priv) (pf_relayAddr f) (pf_forceRelay f) = Ok opts →
  lp_New lp opts = Ok self → lp_newDHT lp = Ok tt →
  (pf_bootstrapAddr f ≠ ""%string → ∃ info d, lp_AddrInfoFromString lp (pf_bootstrapAddr f) = Ok info ∧
     Bootstrap self (lp_connect lp) [info] (nd_dht w) = (d, Ok tt)) →
  pe_mkdir env = Ok tt →
  (wants_tickets f = true → pe_dial env (pf_ethRPC f) = Ok tt ∧ is_ok (pe_chainID env) = true) →
  ∃ w', provider_main f w = (Returns tt, w').
Proof.
  intros Hid Ho Hn Hd Hb Hm He. unfold provider_main.
  destruct (with_node_starts lp (pf_port f) (pf_wsPort f) (pf_identityPath f) (pf_bootstrapAddr f) (pf_relayAddr f)
    (pf_forceRelay f) (provider_body f) w fs priv opts self) as [w1 ->]; try done.
  pose proof (provider_body_spec f priv self w1) as Hs. unfold deferring.
  destruct (provider_body f priv self w1) as [o w2]. rewrite bool_decide_eq_true_2 in Hs by done.
  destruct Hs as [-> _]. by eexists.
Qed.
End provider_main.

(** A ticker needs a positive interval; [time.NewTicker] panics otherwise, in the
    goroutine of the republisher, which ends the provider.  An interval of zero
    hours, or of more than about 292 years, does that. *)
Theorem republish_interval h :
  (0 < h <= 2562047 → 0 < hours h) ∧ hours 0 = 0 ∧ hours 2562048 < 0.
Proof.
  split_and!; [|done|by vm_compute]. intros Hh. unfold hours, Hour. rewrite i64_id; [lia|]. unfold is_i64. lia.
Qed.

(** ** Witness *)

Definition toy_provider_env : ProviderEnv (KC := ToyKeyCodec) := {|
  pe_mkdir := Ok tt; pe_dial _ := Ok tt; pe_chainID := Ok 31337; pe_raw k := Ok k; pe_seed s := s; pe_store := ∅ |}.
Definition toy_provider_flags : ProviderFlags := {|
  pf_port := 4001; pf_wsPort := 0; pf_storePath := "./provider_store"; pf_bootstrapAddr := "/ip4/10.0.0.9/tcp/4003";
  pf_relayAddr := ""; pf_forceRelay := false; pf_republishHours := 12; pf_corruptProb := 0; pf_identityPath := "id.key";
  pf_allowPush := true; pf_pushAuthPolicy := "allowlist"; pf_pushAllowedPublishers := "alice, bob";
  pf_ethRPC := "http://127.0.0.1:8545"; pf_entropyAddr := "0x01"; pf_enableAvailability := true; pf_roleName := "p" |}.

Lemma provider_serves_witness :
  ∃ w', provider_main toy_platform toy_provider_env toy_provider_flags toy_node = (Returns tt, w') ∧
    (∀ st, handleStream (push_policy toy_platform toy_provider_flags) "bob" st = Ret (st, true)) ∧
    ∀ st, handleStream (push_policy toy_platform toy_provider_flags) "mallory" st ≠ Ret (st, true).
Proof.
  assert (∃ w', provider_main toy_platform toy_provider_env toy_provider_flags toy_node = (Returns tt, w')) as [w' Hw].
  { eapply provider_starts; [reflexivity|reflexivity|reflexivity|reflexivity| |reflexivity|by intros _].
    intros _. eexists _, _. split; reflexivity. }
  exists w'. split; [exact Hw|].
  destruct (provider_serves toy_platform toy_provider_env toy_provider_flags toy_node w' Hw)
    as (priv & self & opts & joined & _ & _ & _ & _ & _ & H).
  assert (E : allowed_publishers toy_platform (pf_pushAllowedPublishers toy_provider_flags) = ["alice"; "bob"]%string)
    by (vm_compute; reflexivity).
  split; intros st.
  - apply H. rewrite E. split; [done|]. intros _. by apply (bool_decide_unpack _).
  - rewrite H, E. intros [_ Hin]. by apply (bool_decide_pack _) in Hin.
Defined.
