(* ===== verification/PublisherMain.v ===== *)
(** * The publisher program

    nodes/publisher/main.go: the whole main function as a process.  What the
    network answers (manifests, uploads, challenges) and the file system are
    arguments; ingest, placement, distribution and the audit loop are those of
    Retrieval, Distribution and Nodes. *)

From S2P Require Import Prelude Sha256 Content Merkle ContentEngine Tickets Crypto ChunkProtocol AvailWire Session Push Distribution Bridge Paths Identity Discovery Manager Retrieval ProofEngine Nodes Process Host.

(** ** Flags *)

Record PublisherFlags := {
  pb_filePath : string; pb_port : Z; pb_wsPort : Z; pb_storePath : string; pb_bootstrapAddr : string;
  pb_relayAddr : string; pb_forceRelay : bool; pb_seed : bool; pb_identityPath : string; pb_chunkSizeKB : Z;
  pb_providersList : string; pb_replication : Z; pb_push : bool; pb_challengeProviders : bool;
  pb_challengeRounds : Z; pb_challengeLoop : bool; pb_challengeCID : string; pb_roleName : string;
}.
Definition publisher_defaults : PublisherFlags := {|
  pb_filePath := ""; pb_port := 4005; pb_wsPort := 4006; pb_storePath := "./store_publisher"; pb_bootstrapAddr := "";
  pb_relayAddr := ""; pb_forceRelay := false; pb_seed := true; pb_identityPath := ""; pb_chunkSizeKB := 32;
  pb_providersList := ""; pb_replication := 2; pb_push := false; pb_challengeProviders := false;
  pb_challengeRounds := 1; pb_challengeLoop := false; pb_challengeCID := "";
  pb_roleName := "Ingestion & Replication Engine" |}.

(** [uint32(chunkSizeKB * 1024)]; [int] has 64 bits. *)
Definition chunk_size (kb : Z) : Z := u32 (i64 (kb * 1024)).

Definition DefaultUploaderConfig : UploaderConfig := {| uc_MaxRetriesPerChunk := 3; uc_FailoverRounds := 2 |}.

(** ** The placement table *)

(** One line per target, also for a target that is listed twice. *)
Record Row := { row_peer : PeerID; row_chunks : Z; row_kb : Z; row_status : string }.
Record Table := { tb_rows : list Row; tb_replication : Z; tb_total : Z; tb_kb : Z; tb_invariant : string }.

Definition chunks_assigned (plan : PlacementPlan) (p : PeerID) : Z := zlen (default [] (pl_ProviderChunks plan !! p)).
Definition total_replicas (plan : PlacementPlan) (targets : list PeerID) : Z :=
  foldl (λ n p, n + chunks_assigned plan p) 0 targets.
Definition placement_table (plan : PlacementPlan) (targets : list PeerID) (replication : Z) : Table :=
  {| tb_rows := (λ p, {| row_peer := p; row_chunks := chunks_assigned plan p; row_kb := chunks_assigned plan p * 32;
                         row_status := "COMMITTED [✓]" |}) <$> targets;
     tb_replication := replication; tb_total := total_replicas plan targets;
     tb_kb := total_replicas plan targets * 32; tb_invariant := "SATISFIED [✓]" |}.

(** ** The total of the table *)

(** Replicas held by the providers of a list. *)
Definition held (pc : gmap PeerID (list ChunkID)) (ps : list PeerID) : Z :=
  foldr (λ p n, zlen (default [] (pc !! p)) + n) 0 ps.

Lemma held_append pc ps p c :
  NoDup ps → held (append_at p c pc) ps = held pc ps + (if decide (p ∈ ps) then 1 else 0).
Proof.
  induction 1 as [|q ps Hq Hn IH]; cbn [held foldr]; [rewrite decide_False by set_solver; lia|].
  fold (held (append_at p c pc) ps) (held pc ps). rewrite IH. destruct (decide (p = q)) as [->|Hne].
  - rewrite append_at_eq, zlen_app, zlen_cons. rewrite decide_False, decide_True by set_solver.
    change (zlen []) with 0. lia.
  - rewrite append_at_ne by done. destruct (decide (p ∈ ps)) as [Hp|Hp].
    + rewrite decide_True by set_solver. lia.
    + rewrite decide_False by set_solver. lia.
Qed.

Lemma place_chunk_held providers R a pc i c :
  NoDup providers → providers ≠ [] →
  held (place_chunk providers R (a, pc) (i, c)).2 providers = held pc providers + Z.of_nat R.
Proof.
  intros Hn Hne. unfold place_chunk. cbn [fst snd].
  assert (H : ∀ rs acc, held (foldl (place_one providers i c) acc rs).2 providers
    = held acc.2 providers + Z.of_nat (length rs)).
  { intros rs. induction rs as [|r rs IH]; intros acc; [cbn; lia|]. cbn [foldl length]. rewrite IH. unfold place_one.
    destruct (lookup_lt_is_Some_2 providers ((i + r) mod length providers)%nat) as [p Hp].
    { apply Nat.mod_upper_bound. by destruct providers. }
    rewrite Hp. cbn [snd]. rewrite held_append, decide_True by (done || by eapply list_elem_of_lookup_2). lia. }
  rewrite H, length_seq. done.
Qed.

Lemma place_all_held providers R l acc :
  NoDup providers → providers ≠ [] →
  held (foldl (place_chunk providers R) acc l).2 providers = held acc.2 providers + Z.of_nat R * zlen l.
Proof.
  intros Hn Hne. revert acc. induction l as [|[i c] l IH]; intros [a pc]; cbn [foldl]; [change (zlen []) with 0; lia|].
  rewrite IH, place_chunk_held, zlen_cons by done. cbn [snd]. lia.
Qed.

Lemma total_replicas_held plan ps : total_replicas plan ps = held (pl_ProviderChunks plan) ps.
Proof.
  unfold total_replicas, held, chunks_assigned.
  assert (H : ∀ n, foldl (λ n p, n + zlen (default [] (pl_ProviderChunks plan !! p))) n ps
    = n + foldr (λ p n, zlen (default [] (pl_ProviderChunks plan !! p)) + n) 0 ps).
  { induction ps as [|p ps IH]; intros n; cbn; [lia|]. rewrite IH. lia. }
  rewrite H. lia.
Qed.

(** Between different targets the lines of the table add up to every chunk times
    the replication factor: the last line is right to say 100 per cent. *)
Theorem placement_total m targets R plan :
  NoDup targets → PlanPlacement m targets R = Ok plan →
  total_replicas plan targets = zlen (mf_ChunkIDs m) * R.
Proof.
  intros Hn. unfold PlanPlacement. case_decide; [done|]. case_decide; [done|]. case_decide; [done|]. case_decide; [done|].
  set (pc0 := foldl _ ∅ targets).
  pose proof (place_all_held targets (Z.to_nat R) (imap pair (mf_ChunkIDs m)) (∅, pc0) Hn) as Hh.
  destruct (foldl (place_chunk _ _) _ _) as [a pc]. intros [= <-]. rewrite total_replicas_held. cbn [pl_ProviderChunks].
  cbn [snd] in Hh. rewrite Hh by (by destruct targets).
  assert (Hzero : held pc0 targets = 0).
  { assert (Hz : ∀ p, zlen (default [] (pc0 !! p)) = 0).
    { intros p. rewrite zlen_nil. destruct (default [] _) as [|x l] eqn:E; [done|]. exfalso.
      eapply (initial_providers targets ∅ p x); [intros q; by rewrite lookup_empty|]. fold pc0. rewrite E. left. }
    clear -Hz. clearbody pc0. unfold held. induction targets as [|t ts IH]; [done|]. cbn [foldr]. by rewrite Hz, IH. }
  rewrite Hzero. unfold zlen. rewrite length_imap. lia.
Qed.

Section publisher_main.
Context {KC : KeyCodec} {MC : ManifestCodec} {AE : AEAD} {SS : SliceSort} {D : Type} {DH : Dht D} (lp : Platform (KC := KC)).
#[local] Abbreviation proc := (proc (Node (KC := KC) (D := D))).
#[local] Open Scope process_scope.

(** The outcomes of [os.MkdirAll] and [os.Open], random bytes, write faults, the
    store; the replies to the manifest request, what each search for storage
    providers finds, what each peer does with the push stream of each phase of
    the distribution, the challenged network and the clock. *)
Record PublisherEnv (W : Type) := {
  pn_mkdir : result ();
  pn_open : result (list byte * option error);
  pn_rndID : result (list byte);
  pn_rndKey : result (list byte);
  pn_pid : Z;
  pn_fault : Chunk → option (put_call * error);
  pn_store : FS;
  pn_answers : list (result (result (list byte)));
  pn_found : list (result (list AddrInfo));
  pn_peer : nat → PeerID → result (Transcript PushMessage);
  pn_net : net W;
  pn_world : W;
  pn_clock : Z → PeerID → Z;
}.
#[local] Arguments pn_mkdir {W}. #[local] Arguments pn_open {W}. #[local] Arguments pn_rndID {W}.
#[local] Arguments pn_rndKey {W}. #[local] Arguments pn_pid {W}. #[local] Arguments pn_fault {W}.
#[local] Arguments pn_store {W}. #[local] Arguments pn_answers {W}. #[local] Arguments pn_found {W}.
#[local] Arguments pn_peer {W}. #[local] Arguments pn_net {W}. #[local] Arguments pn_world {W}.
#[local] Arguments pn_clock {W}.
Context {W : Type} (env : PublisherEnv W).

(** Step 5: the manifest, the keys and the store. *)
Definition content_of (f : PublisherFlags) : proc (Manifest * LocalKeyProvider * FS) :=
  if decide (pb_challengeCID f ≠ ""%string) then
    do! m ← or_fatal (audit_manifest (pb_challengeCID f) (pn_answers env) (pn_store env)) in
    returns (m, ∅, pn_store env)
  else
    match ingest_content (pn_pid env) (pn_fault env) (chunk_size (pb_chunkSizeKB f)) (pn_open env) (pn_rndID env)
            (pn_rndKey env) ∅ (pn_store env) with
    | None => hangs
    | Some (keys, fs, r) => do! m ← or_fatal r in returns (m, keys, fs)
    end.

Definition target_peers (f : PublisherFlags) (self : string) : list string :=
  if decide (pb_providersList f ≠ ""%string) then
    direct_peers (Connect (lp_NewMultiaddr lp) (lp_AddrInfoFromP2pAddr lp) (lp_connect lp)) (pb_providersList f)
  else discover_targets self (lp_connect lp) (pn_found env) 3 [].

(** What a push and an audit leave behind. *)
Record Dispersal := {
  dp_targets : list string;
  dp_replication : Z;
  dp_plan : PlacementPlan;
  dp_tracker : option GlobalReplicaTracker;
  dp_table : Table;
  dp_audit : list audit_event;
}.

(** [-challenge]: with [-challenge-loop] it never ends, unless there is no tree. *)
Definition audit_targets (f : PublisherFlags) (self : string) (m : Manifest) (plan : PlacementPlan)
    (targets : list string) : proc (list audit_event) :=
  if pb_challengeProviders f then
    if pb_challengeLoop f && is_ok (NewMerkleTree (map copy32 (mf_ChunkIDs m))) then hangs
    else returns (challenge_phase (pn_net env) self m plan (pn_clock env) targets (Z.to_nat (pb_challengeRounds f))
                    (pn_world env)).2
  else returns [].

(** The upload of some chunks to one peer, in one phase of the distribution, from
    the store the ingest left. *)
Definition push_to (fs : FS) (contentID : list byte) (phase : nat) (p : PeerID) (chunks : list ChunkID)
    : list Distribution.event * list (io PushMessage) :=
  upload_with (pn_peer env phase p) fs (uc_MaxRetriesPerChunk DefaultUploaderConfig) contentID
    (match GetManifestBytes contentID fs with Ok d => d | Err _ => [] end) chunks.

(** Step 6. *)
Definition disperse (f : PublisherFlags) (self : string) (m : Manifest) (fs : FS) : proc Dispersal :=
  let targets := target_peers f self in
  if decide (zlen targets = 0) then fatal
  else
    let R := effective_replication (pb_replication f) targets in
    do! plan ← or_fatal (PlanPlacement m targets R) in
    do! tracker ←
      (if pb_push f then
         let '(t, r) := Distribute (GetManifestBytes (pl_ContentID plan) fs) plan DefaultUploaderConfig
                          (λ k p l, (push_to fs (pl_ContentID plan) k p l).1) (NewGlobalReplicaTracker R) in
         or_fatal r ;;; returns (Some t)
       else returns None) in
    do! events ← audit_targets f self m plan targets in
    returns {| dp_targets := targets; dp_replication := R; dp_plan := plan; dp_tracker := tracker;
               dp_table := placement_table plan targets R; dp_audit := events |}.

(** What the publisher prints in the end, and its store. *)
Record Published := {
  pu_manifest : Manifest;
  pu_key : option (list byte);
  pu_dispersal : option Dispersal;
  pu_store : FS;
}.

Definition publisher_body (f : PublisherFlags) (priv : PrivKey) (self : string) : proc Published :=
  or_fatal (pn_mkdir env) ;;;
  modify (acts (Serves (ChunkService None))) ;;;
  do! '(m, keys, fs) ← content_of f in
  do! dispersal ←
    (if pb_push f || pb_challengeProviders f then do! d ← disperse f self m fs in returns (Some d)
     else do! _ ← state (on_dht (Provide (cd_ID (mf_Descriptor m)))) in returns None) in
  returns {| pu_manifest := m;
             pu_key := match key_Get (cd_ID (mf_Descriptor m)) keys with Ok k => Some k | Err _ => None end;
             pu_dispersal := dispersal; pu_store := fs |}.

Definition publisher_main (f : PublisherFlags) : proc Published :=
  if decide (pb_filePath f = ""%string ∧ pb_challengeCID f = ""%string) then fatal
  else with_node lp (pb_port f) (pb_wsPort f) (pb_identityPath f) (pb_bootstrapAddr f) (pb_relayAddr f)
         (pb_forceRelay f) (publisher_body f).

(** ** What a publisher that finishes has done *)

Lemma target_peers_connected f self t : t ∈ target_peers f self → ∃ info, lp_connect lp info = Ok tt ∧ ai_ID info = t.
Proof.
  unfold target_peers. case_decide.
  - unfold direct_peers. intros (s & _ & Hs)%list_elem_of_omap. case_decide; [done|].
    destruct (Connect _ _ _ _) as [a|] eqn:E; [|done]. injection Hs as <-. unfold Connect in E.
    destruct (wrap _ (lp_NewMultiaddr _ _)) as [ma|]; [|done]. cbn [rbind] in E.
    destruct (wrap _ (lp_AddrInfoFromP2pAddr _ _)) as [ai|]; [|done]. cbn [rbind] in E.
    destruct (lp_connect lp ai) as [[]|] eqn:Ec; [|done]. injection E as <-. by exists ai.
  - intros Ht. destruct (discover_targets_sound self (lp_connect lp) (pn_found env) 3 1) as (_ & _ & H3 & _).
    destruct (H3 t Ht) as (l & info & _ & _ & <- & Hc). by exists info.
Qed.

Lemma disperse_pushed f self m fs w d w' :
  disperse f self m fs w = (Returns d, w') → pb_push f = true →
  w' = w ∧ dp_targets d = target_peers f self ∧
  PlanPlacement m (dp_targets d) (dp_replication d) = Ok (dp_plan d) ∧
  dp_replication d = effective_replication (pb_replication f) (dp_targets d) ∧
  ∃ t, dp_tracker d = Some t ∧
    Distribute (GetManifestBytes (pl_ContentID (dp_plan d)) fs) (dp_plan d) DefaultUploaderConfig
      (λ k p l, (push_to fs (pl_ContentID (dp_plan d)) k p l).1)
      (NewGlobalReplicaTracker (dp_replication d)) = (t, Ok tt).
Proof.
  intros H Hp. unfold disperse in H. case_decide; [done|]. apply bind_inv in H as (plan & w1 & [Hpl ->]%or_fatal_inv & H).
  rewrite Hp in H. destruct (Distribute _ _ _ _ _) as [t r] eqn:Ed.
  apply bind_inv in H as (tr & w2 & Ht & H). apply bind_inv in Ht as ([] & w3 & [-> ->]%or_fatal_inv & [= <- <-]).
  apply bind_inv in H as (evs & w4 & Ha & [= <- <-]). cbn.
  assert (w4 = w) as ->.
  { unfold audit_targets in Ha. destruct (pb_challengeProviders f); [|by injection Ha].
    destruct (_ && _); [done|]. by injection Ha. }
  split_and!; try done. by exists t.
Qed.

(** What a publisher that returns went through: the ingest, then the dispersal
    or the announcement. *)
Lemma publisher_main_inv f w p w' :
  publisher_main f w = (Returns p, w') →
  ∃ self keys w1 w2 w3 w4,
    content_of f w1 = (Returns (pu_manifest p, keys, pu_store p), w2) ∧
    pu_key p = match key_Get (cd_ID (mf_Descriptor (pu_manifest p))) keys with Ok k => Some k | Err _ => None end ∧
    (if pb_push f || pb_challengeProviders f
     then ∃ d, disperse f self (pu_manifest p) (pu_store p) w3 = (Returns d, w4) ∧ pu_dispersal p = Some d
     else pu_dispersal p = None).
Proof.
  unfold publisher_main. destruct (decide _); [done|].
  intros (priv & opts & self & joined & w1 & w2 & _ & _ & _ & _ & H & _)%with_node_returns.
  unfold publisher_body in H. apply bind_inv in H as ([] & w3 & [Hm ->]%or_fatal_inv & H).
  apply bind_inv in H as ([] & w4 & _ & H). apply bind_inv in H as ([[m' keys] fs] & w5 & Hcon & H).
  apply bind_inv in H as (dd & w6 & Hd & [= <- <-]). exists self, keys, w4, w5.
  cbn [pu_manifest pu_key pu_store pu_dispersal].
  destruct (_ || _); apply bind_inv in Hd as (d & w7 & Hd & [= <- <-]); [|by exists w5, w7].
  exists w5, w7. split_and!; [done|done|]. by exists d.
Qed.

(** The content of a publisher that ingests a readable file into a working
    store. *)
Lemma content_of_ingested f w m keys fs w' data contentID key :
  content_of f w = (Returns (m, keys, fs), w') →
  pb_challengeCID f = ""%string → 0 < pb_chunkSizeKB f < 2 ^ 22 →
  pn_open env = Ok (data, None) → pn_rndID env = Ok contentID → pn_rndKey env = Ok key → pn_fault env = (λ _, None) →
  length contentID = 32%nat → length key = 32%nat →
  zlen data < 2 ^ 32 * (pb_chunkSizeKB f * 1024) → zlen data < 2 ^ 63 →
  keys = key_Put contentID key ∅ ∧ cd_ID (mf_Descriptor m) = contentID ∧ manifest_typed m ∧
  GetManifestBytes contentID fs = Ok (Serialize m) ∧
  ∃ cks, ingested (pb_chunkSizeKB f * 1024) key data cks m ∧
    (NoDup (mf_ChunkIDs m) → Forall (λ c, GetChunk (stored_id key c) fs = Ok (stored_chunk key c)) cks).
Proof.
  intros Hcon Hc Hkb Ho Hid Hk Hf Hlid Hlk Hs1 Hs2.
  unfold content_of in Hcon. rewrite decide_False in Hcon by (rewrite Hc; auto).
  assert (Hcs : chunk_size (pb_chunkSizeKB f) = pb_chunkSizeKB f * 1024).
  { unfold chunk_size. rewrite i64_id by (unfold is_i64; lia). apply u32_id. unfold is_u32. lia. }
  rewrite Hf, Ho, Hid, Hk, Hcs in Hcon.
  destruct (ingest_content_spec (pn_pid env) (pb_chunkSizeKB f * 1024) data contentID key ∅ (pn_store env))
    as (fs' & m0 & cks & Hi & Hg & Hcid & Ht & Hm & Hst); [lia|done|done|done|done|].
  rewrite Hi in Hcon. cbn in Hcon. injection Hcon as <- <- <- <-. split_and!; try done. by exists cks.
Qed.

(** C27: A publisher that was asked to push a file and returns has published it:
    it printed the key the file was encrypted with, its store holds the
    manifest, and every chunk is committed at no fewer different providers than
    asked for or than targets were found, whichever is less, and at least one.
    For each of them, whatever the peers answer, the publisher has in one of
    its uploads to that peer sent the chunk as its store holds it and read, as
    the next message, an acknowledgement of that chunk with status OK; and
    every target had been connected to. *)
Theorem publisher_publishes f w p w' data contentID key :
  publisher_main f w = (Returns p, w') →
  pb_push f = true → pb_challengeCID f = ""%string → 0 < pb_chunkSizeKB f < 2 ^ 22 →
  pn_open env = Ok (data, None) → pn_rndID env = Ok contentID → pn_rndKey env = Ok key → pn_fault env = (λ _, None) →
  length contentID = 32%nat → length key = 32%nat →
  zlen data < 2 ^ 32 * (pb_chunkSizeKB f * 1024) → zlen data < 2 ^ 63 →
  let m := pu_manifest p in
  pu_key p = Some key ∧ cd_ID (mf_Descriptor m) = contentID ∧
  GetManifestBytes contentID (pu_store p) = Ok (Serialize m) ∧
  ∃ d t, pu_dispersal p = Some d ∧ dp_tracker d = Some t ∧
    dp_replication d = Z.min (pb_replication f) (zlen (dp_targets d)) ∧ 1 <= dp_replication d ∧
    (∀ q, q ∈ dp_targets d → ∃ info, lp_connect lp info = Ok tt ∧ ai_ID info = q) ∧
    ∀ c, c ∈ mf_ChunkIDs m →
      dp_replication d <= Z.of_nat (size (committed_peers t c)) ∧
      ∀ q, q ∈ committed_peers t c →
        ∃ k l, acknowledged (pu_store p) contentID c (push_to (pu_store p) contentID k q l).2.
Proof.
  intros H Hp Hc Hkb Ho Hid Hk Hf Hlid Hlk Hs1 Hs2 m.
  apply publisher_main_inv in H as (self & keys & w1 & w2 & w3 & w4 & Hcon & Hkey & Hd).
  rewrite Hp in Hd. destruct Hd as (d & Hd & Hdd).
  eapply content_of_ingested in Hcon as (Hkeys & Hcid & _ & Hg & _); [|eassumption..].
  apply disperse_pushed in Hd as (_ & Htg & Hpl & HR & t & Ht & Hdist); [|done].
  split_and!.
  - rewrite Hkey, Hcid, Hkeys. unfold key_Get, key_Put. by rewrite lookup_insert_eq.
  - exact Hcid.
  - exact Hg.
  - exists d, t. split; [done|]. split; [done|].
    apply Distribute_sound in Hdist as [Hok _]. specialize (Hok eq_refl).
    assert (Hman : pl_Manifest (dp_plan d) = m ∧ pl_ContentID (dp_plan d) = contentID ∧ 1 <= dp_replication d).
    { unfold PlanPlacement in Hpl. case_decide; [done|]. case_decide; [done|]. case_decide; [done|]. case_decide; [done|].
      destruct (foldl _ _ _). injection Hpl as <-. split; [done|]. split; [exact Hcid|]. lia. }
    destruct Hman as (Hman & Hpc & HRb). rewrite Hman, Hpc in Hok. split.
    { rewrite HR. unfold effective_replication. case_decide; lia. }
    split; [done|]. split; [intros q Hq; rewrite Htg in Hq; by eapply target_peers_connected|].
    intros c Hc'. destruct (Hok c Hc') as [Hn Hall]. split; [done|]. intros q Hq.
    destruct (Hall q Hq) as (k & l & Hin). exists k, l. by apply upload_with_acknowledged.
Qed.

(** A chunk size of a multiple of 4 GiB is converted to zero, and the publisher
    never gets past the ingest. *)
Theorem publisher_hangs f w k data rerr contentID key :
  pb_challengeCID f = ""%string → pb_chunkSizeKB f = k * 2 ^ 22 → 0 <= k < 2 ^ 30 →
  pn_open env = Ok (data, rerr) → pn_rndID env = Ok contentID → pn_rndKey env = Ok key →
  content_of f w = (Hangs, w).
Proof.
  intros Hc Hkb Hk Ho Hid Hkey. unfold content_of. rewrite decide_False by (rewrite Hc; auto).
  assert (Hz : chunk_size (pb_chunkSizeKB f) = 0).
  { unfold chunk_size. rewrite Hkb, i64_id by (unfold is_i64; lia). unfold u32.
    replace (k * 2 ^ 22 * 1024) with (k * 2 ^ 32) by lia. by apply Z.mod_mul. }
  unfold ingest_content. rewrite Ho, Hz. unfold Ingest. rewrite Hid, Hkey. unfold ContentEngine.Split.
  change (Z.to_nat 0) with 0%nat. by rewrite Split_zero_diverges.
Qed.
End publisher_main.

(** ** Witness *)

(** A provider that takes the one chunk of the file. *)
Definition toy_peer : Transcript PushMessage := {|
  tr_writes := [Ok tt; Ok tt; Ok tt];
  tr_reads := [Ok (BuildPushManifestAck (replicate 32 x01) PushStatusOK);
               Ok (BuildPushChunkAck (stored_id (replicate 32 x02) (plain_chunk 0 0 (bytes_of "hello"))) PushStatusOK);
               Ok (BuildPushBatchCompleteAck (replicate 32 x01) PushStatusOK)] |}.
Definition toy_publisher_env : PublisherEnv () := {|
  pn_mkdir := Ok tt; pn_open := Ok (bytes_of "hello", None); pn_rndID := Ok (replicate 32 x01);
  pn_rndKey := Ok (replicate 32 x02); pn_pid := 7; pn_fault := (λ _, None); pn_store := ∅; pn_answers := [];
  pn_found := []; pn_peer _ p := if decide (p = "c"%string) then Err (New "dial") else Ok toy_peer;
  pn_net := {| nt_challenge _ _ w := (w, Err (New "unreachable")); nt_voucher _ _ w := (w, Ok tt) |};
  pn_world := (); pn_clock _ _ := 0 |}.
Definition toy_publisher_flags : PublisherFlags := {|
  pb_filePath := "hello.txt"; pb_port := 4005; pb_wsPort := 4006; pb_storePath := "./store_publisher";
  pb_bootstrapAddr := ""; pb_relayAddr := ""; pb_forceRelay := false; pb_seed := true; pb_identityPath := "id.key";
  pb_chunkSizeKB := 32; pb_providersList := "a, b, c"; pb_replication := 2; pb_push := true;
  pb_challengeProviders := false; pb_challengeRounds := 1; pb_challengeLoop := false; pb_challengeCID := "";
  pb_roleName := "p" |}.

Lemma publisher_publishes_witness :
  ∃ p w', publisher_main toy_platform toy_publisher_env toy_publisher_flags toy_node = (Returns p, w') ∧
    pu_key p = Some (replicate 32 x02) ∧
    ∃ d t, pu_dispersal p = Some d ∧ dp_tracker d = Some t ∧
      dp_replication d = Z.min 2 (zlen (dp_targets d)) ∧ 1 <= dp_replication d.
Proof.
  assert (Hret : returned (publisher_main toy_platform toy_publisher_env toy_publisher_flags toy_node).1 = true)
    by (vm_compute; reflexivity).
  destruct (publisher_main toy_platform toy_publisher_env toy_publisher_flags toy_node) as [[p|c|] w'] eqn:E;
    [|discriminate Hret|discriminate Hret].
  exists p, w'. split; [reflexivity|].
  destruct (publisher_publishes toy_platform toy_publisher_env toy_publisher_flags toy_node p w' (bytes_of "hello")
    (replicate 32 x01) (replicate 32 x02) E) as (H1 & _ & _ & d & t & H2 & H3 & H4 & H5 & _);
    try reflexivity; try (cbn; lia).
  split; [exact H1|]. exists d, t. split; [exact H2|]. split; [exact H3|]. split; [exact H4|exact H5].
Defined.
