(* ===== verification/ConsumerMain.v ===== *)
(** * The consumer program

    nodes/consumer/main.go: the whole main function.  Up to the download it is a
    process; the download itself is the step relation of Manager, so the program
    as a whole is a relation between its start and its outcomes.

    [file_delivered] puts the two programs together: what the publisher program
    published, the consumer program writes. *)

From S2P Require Import Prelude Sha256 Content Merkle ContentEngine Tickets Crypto ChunkProtocol AvailWire Session ChunkSession Push Distribution Transfer Manager Bridge Paths Identity Discovery Retrieval Peer ProofEngine Bindings Nodes Process Host PublisherMain.

(** ** Flags *)

Record ConsumerFlags := {
  cf_fetchID : string; cf_resumeID : string; cf_keyHex : string; cf_reassembleOut : string;
  cf_port : Z; cf_wsPort : Z; cf_storePath : string; cf_target : string; cf_bootstrapAddr : string;
  cf_relayAddr : string; cf_forceRelay : bool; cf_transferStatus : bool; cf_cancelID : string;
  cf_identityPath : string; cf_ethRPC : string; cf_ethKey : string; cf_entropyAddr : string;
  cf_providerEthAddr : string; cf_roundID : Z; cf_roundFaceValue : string; cf_simulateCheat : bool;
  cf_keepAlive : bool;
}.
Definition consumer_defaults : ConsumerFlags := {|
  cf_fetchID := ""; cf_resumeID := ""; cf_keyHex := ""; cf_reassembleOut := "";
  cf_port := 5001; cf_wsPort := 5002; cf_storePath := "./client_store"; cf_target := ""; cf_bootstrapAddr := "";
  cf_relayAddr := ""; cf_forceRelay := false; cf_transferStatus := false; cf_cancelID := "";
  cf_identityPath := ""; cf_ethRPC := ""; cf_ethKey := ""; cf_entropyAddr := "";
  cf_providerEthAddr := ""; cf_roundID := 1; cf_roundFaceValue := "1000000000000000000"; cf_simulateCheat := false;
  cf_keepAlive := false |}.

(** [new(big.Int).SetString(s, 10)]: an optional sign and at least one digit. *)
Definition digit (b : byte) : option Z :=
  let z := byte_to_Z b in if decide (48 <= z <= 57) then Some (z - 48) else None.
Fixpoint digits (acc : Z) (l : list byte) : option Z :=
  match l with
  | [] => Some acc
  | b :: l => d ← digit b; digits (10 * acc + d) l
  end.
Definition SetString10 (s : string) : option Z :=
  match bytes_of s with
  | [] => None
  | x2d :: [] | x2b :: [] => None
  | x2d :: l => Z.opp <$> digits 0 l
  | x2b :: l => digits 0 l
  | l => digits 0 l
  end.

(** ** Before the network *)

(** The identifier to fetch: [-fetch], else [-resume]. *)
Definition wanted_id (f : ConsumerFlags) : string :=
  if decide (cf_fetchID f = ""%string) then cf_resumeID f else cf_fetchID f.

Section maintenance.
Context {SC : SessionCodec}.

(** What [-status] prints and what [-cancel] leaves; both end the program. *)
Inductive maintained :=
| Listing (lines : list string)
| Cancelled (sessions : FS)
| Fetching (contentID : list byte).

Definition status_lines (sessions : list TransferSession) : list string :=
  match sessions with
  | [] => ["No active transfer sessions."%string]
  | _ => "Active Transfer Sessions:"%string :: (session_row <$> sessions)
  end.

(** [opened], [readdir], [read] and [io] are the outcomes of
    [NewFileSessionManager], [os.ReadDir], [os.ReadFile] and [os.Remove]. *)
Definition maintenance (f : ConsumerFlags) (opened readdir : result ()) (read : string → option error)
    (io : option error) (dir : FS) : result maintained :=
  let! _ := wrap "Failed to initialize session manager" opened in
  if cf_transferStatus f then
    let! _ := wrap "Failed to list sessions" readdir in Ok (Listing (status_lines (List read dir)))
  else if decide (cf_cancelID f ≠ ""%string) then
    let! cID := decode32 "Invalid ContentID for cancel (must be 32 bytes hex)" (cf_cancelID f) in
    Ok (Cancelled (Delete cID io dir).1)
  else if decide (wanted_id f = ""%string) then
    Err (New "Must specify -fetch <ContentID> or -resume <ContentID> (or use -status / -cancel)")
  else
    let! contentID := decode32 "Invalid ContentID hex (must be 32 bytes)" (wanted_id f) in Ok (Fetching contentID).
End maintenance.

Section consumer_main.
Context {KC : KeyCodec} {MC : ManifestCodec} {AE : AEAD} {SS : SliceSort} {GE : GoEthereum} {GC : GethCommon} {SC : SessionCodec}.
Context {D : Type} {DH : Dht D} (lp : Platform (KC := KC)) {B : Type}.
#[local] Abbreviation proc := (proc (Node (KC := KC) (D := D))).
#[local] Open Scope process_scope.

(** The outcomes of the calls on the session directory, of [os.MkdirAll] and [os.Create]; what the peers reply to the
    manifest request; the Ethereum node and the bindings. *)
Record ConsumerEnv := {
  cn_opened : result ();
  cn_readdir : result ();
  cn_read : string → option error;
  cn_delete : option error;
  cn_mkdir : result ();
  cn_create : result ();
  cn_answers : list (result (result (list byte)));
  cn_dial : result ();
  cn_chainID : result Z;
  cn_bind : list byte → result B;
}.
Context (env : ConsumerEnv).

(** The relay of the consumer: neither failure is reported, and the connection
    is not protected. *)
Definition try_relay (relayAddr : string) : proc () :=
  if decide (relayAddr = ""%string) then returns tt
  else match lp_AddrInfoFromString lp relayAddr with
       | Err _ => returns tt
       | Ok info =>
           match lp_connect lp info with
           | Err _ => returns tt
           | Ok _ => match lp_reserve lp info with Ok _ => modify (acts (Reserved info)) | Err _ => returns tt end
           end
       end.

(** ** Tickets *)

Definition wants_to_pay (f : ConsumerFlags) : bool :=
  bool_decide (cf_ethRPC f ≠ ""%string ∧ cf_ethKey f ≠ ""%string ∧ cf_entropyAddr f ≠ ""%string ∧
               cf_providerEthAddr f ≠ ""%string).

Abbreviation generator := (list byte → () → () * result SignedTicket).
Definition ticket_setup (f : ConsumerFlags) (m : Manifest) : result (option generator) :=
  if wants_to_pay f then
    let! payClient := wrap "Failed to initialize Ethereum payment client"
      (NewPaymentClient (cn_bind env) (cn_dial env) (cn_chainID env) (cf_ethKey f)
         {| ca_PaymentChannel := zero_bytes 20; ca_SettlementEngine := zero_bytes 20;
            ca_EntropySource := HexToAddress (cf_entropyAddr f); ca_ProviderRegistry := zero_bytes 20 |}) in
    match SetString10 (cf_roundFaceValue f) with
    | None => Err (New "Invalid round face value")
    | Some faceVal =>
        let terms := {| tm_recipient := HexToAddress (cf_providerEthAddr f); tm_roundID := cf_roundID f;
                        tm_faceValue := faceVal |} in
        let idxs := chunk_index_map m in
        Ok (Some (λ chunkID s, (s, default (Err (New "nil dereference"))
              (generate_ticket (cl_Signer payClient) terms idxs (cf_simulateCheat f) chunkID))))
    end
  else Ok None.

(** ** Up to the download *)

Record Ready := {
  rd_targets : list string;
  rd_keys : LocalKeyProvider;
  rd_manifest : Manifest;
  rd_tickets : option generator;
}.

Definition consumer_start (f : ConsumerFlags) (contentID : list byte) : proc Ready :=
  do! priv ← load_identity lp (cf_identityPath f) in
  do! r ← NewNode lp (cf_port f) (cf_wsPort f) (Some priv) (cf_relayAddr f) (cf_forceRelay f) in
  do! self ← or_fatal r in
  join_dht lp self (cf_bootstrapAddr f) ;;;
  try_relay (cf_relayAddr f) ;;;
  or_fatal (cn_mkdir env) ;;;
  do! d ← gets nd_dht in
  do! targets ← or_fatal (find_targets (cf_target f) (Connect (lp_NewMultiaddr lp) (lp_AddrInfoFromP2pAddr lp) (lp_connect lp))
                            (lp_connect lp) contentID 5 d) in
  do! keys ← or_fatal (install_key contentID (cf_keyHex f) ∅) in
  do! m ← or_fatal (ResolveManifest (cn_answers env)) in
  do! tickets ← or_fatal (ticket_setup f m) in
  returns {| rd_targets := targets; rd_keys := keys; rd_manifest := m; rd_tickets := tickets |}.

(** ** The program *)

Context `{!SessionManager SM} {TC : TicketCodec}.
Context (pid : Z) (fault : list byte → option (put_call * error)) (sends : list byte → Chunk → Prop).

(** What the program did: the lines of a listing, the sessions left by a
    cancellation, or the bytes written to the output file, if one was asked for,
    and whether it goes on to serve the chunks. *)
Inductive consumed :=
| Maintained (r : maintained)
| Fetched (out : option (list byte)) (seeding : bool).

Definition finish (f : ConsumerFlags) (r : Ready) (fs : FS) : outcome consumed :=
  if decide (cf_reassembleOut f = ""%string) then Returns (Fetched None (cf_keepAlive f))
  else match cn_create env with
       | Err _ => Exits 1
       | Ok _ =>
           match Reassemble (CS := FSChunkStore pid (λ _, None)) (rd_manifest r) (rd_keys r) fs with
           | Err _ => Exits 1
           | Ok data => Returns (Fetched (Some data) (cf_keepAlive f))
           end
       end.

(** [dir] is the directory of the sessions, [fs] the store.  A download that
    panics, over a session with too few marks, ends the program with status 2;
    one that never returns leaves it hanging. *)
Inductive consumer_main (f : ConsumerFlags) (w : Node) (dir : FS) (sm : SM) (fs : FS) : outcome consumed → Prop :=
| cm_refused e :
    maintenance f (cn_opened env) (cn_readdir env) (cn_read env) (cn_delete env) dir = Err e →
    consumer_main f w dir sm fs (Exits 1)
| cm_maintained r :
    maintenance f (cn_opened env) (cn_readdir env) (cn_read env) (cn_delete env) dir = Ok r → (∀ id, r ≠ Fetching id) →
    consumer_main f w dir sm fs (Returns (Maintained r))
| cm_unready contentID c w' :
    maintenance f (cn_opened env) (cn_readdir env) (cn_read env) (cn_delete env) dir = Ok (Fetching contentID) →
    consumer_start f contentID w = (Exits c, w') →
    consumer_main f w dir sm fs (Exits c)
| cm_failed contentID r w' sm' fs' e :
    maintenance f (cn_opened env) (cn_readdir env) (cn_read env) (cn_delete env) dir = Ok (Fetching contentID) →
    consumer_start f contentID w = (Returns r, w') →
    download_reaches (rd_tickets r) pid fault sends contentID (mf_ChunkIDs (rd_manifest r)) (rd_targets r) sm fs sm' fs'
      (Some (Err e)) →
    consumer_main f w dir sm fs (Exits 1)
| cm_panicked contentID r w' sm' :
    maintenance f (cn_opened env) (cn_readdir env) (cn_read env) (cn_delete env) dir = Ok (Fetching contentID) →
    consumer_start f contentID w = (Returns r, w') →
    begin_download contentID (mf_ChunkIDs (rd_manifest r)) (rd_targets r) fs sm sm' Panicked →
    consumer_main f w dir sm fs (Exits 2)
| cm_hangs contentID r w' :
    maintenance f (cn_opened env) (cn_readdir env) (cn_read env) (cn_delete env) dir = Ok (Fetching contentID) →
    consumer_start f contentID w = (Returns r, w') →
    download_hangs (rd_tickets r) pid fault sends contentID (mf_ChunkIDs (rd_manifest r)) (rd_targets r) sm fs →
    consumer_main f w dir sm fs Hangs
| cm_fetched contentID r w' sm' fs' :
    maintenance f (cn_opened env) (cn_readdir env) (cn_read env) (cn_delete env) dir = Ok (Fetching contentID) →
    consumer_start f contentID w = (Returns r, w') →
    download_reaches (rd_tickets r) pid fault sends contentID (mf_ChunkIDs (rd_manifest r)) (rd_targets r) sm fs sm' fs'
      (Some (Ok tt)) →
    consumer_main f w dir sm fs (finish f r fs').
End consumer_main.

(** ** The consumer *)

(** The generator never panics: no number of its tickets is missing. *)
Lemma generate_ticket_defined {GE : GoEthereum} signer terms idxs cheat chunkID :
  is_Some (generate_ticket signer terms idxs cheat chunkID).
Proof.
  unfold generate_ticket. destruct (idxs !! chunkID) as [i|]; [|by eexists].
  unfold SignTicket. destruct (ts_PrivateKey signer); by eexists.
Qed.

(** With [-fetch] alone, the session commands are passed over. *)
Lemma maintenance_fetches {SC : SessionCodec} f opened readdir read io dir id r :
  cf_transferStatus f = false → cf_cancelID f = ""%string → cf_fetchID f = EncodeToString id → length id = 32%nat →
  maintenance f opened readdir read io dir = Ok r ↔ opened = Ok tt ∧ r = Fetching id.
Proof.
  intros Hst Hcan Hfetch Hid. unfold maintenance, wanted_id. rewrite Hst, Hcan, Hfetch.
  assert (EncodeToString id ≠ ""%string) by by apply EncodeToString_nonempty.
  destruct opened as [[]|]; cbn [wrap rbind]; [|by split; [done|intros [? _]]].
  rewrite decide_False by auto. rewrite (decide_False (P := EncodeToString id = _)) by done.
  rewrite decide_False by done. rewrite decode32_hex by done. cbn. split; [by intros [= <-]|by intros [_ ->]].
Qed.

Section delivery.
Context {KC : KeyCodec} {MC : ManifestCodec} {AE : AEAD} {SS : SliceSort} {GE : GoEthereum} {GC : GethCommon} {SC : SessionCodec}.
Context {D : Type} {DH : Dht D} (lp : Platform (KC := KC)) {B : Type} (env : ConsumerEnv (B := B)).

(** A consumer that gets ready is connected to its targets, has the key it was
    given and a manifest one of its peers sent. *)
Lemma consumer_start_ready f contentID w r w' :
  consumer_start lp env f contentID w = (Returns r, w') →
  rd_targets r ≠ [] ∧ install_key contentID (cf_keyHex f) ∅ = Ok (rd_keys r) ∧
  ResolveManifest (cn_answers env) = Ok (rd_manifest r) ∧ ticket_setup env f (rd_manifest r) = Ok (rd_tickets r).
Proof.
  unfold consumer_start. intros H. do 4 apply bind_inv in H as (? & ? & _ & H).
  do 3 apply bind_inv in H as (? & ? & _ & H).
  apply bind_inv in H as (ts & wa & [Ht ->]%or_fatal_inv & H).
  apply bind_inv in H as (ks & wb & [Hk ->]%or_fatal_inv & H).
  apply bind_inv in H as (m & wc & [Hm ->]%or_fatal_inv & H).
  apply bind_inv in H as (tk & wd & [Htk ->]%or_fatal_inv & [= <- <-]). cbn.
  split_and!; try done. by apply find_targets_connected in Ht as [? _].
Qed.

(** Starting gives up with status 1 only. *)
Lemma consumer_start_exits f contentID w c w' :
  consumer_start lp env f contentID w = (Exits c, w') → c = 1.
Proof.
  intros H. assert (Hx : exits_with (λ _, True) (consumer_start lp env f contentID)).
  { unfold consumer_start.
    apply exits_bind; [apply load_identity_runs|intros priv].
    apply exits_bind; [by eapply runs_weaken, NewNode_runs|intros r].
    apply exits_bind; [apply runs_or_fatal|intros self].
    apply exits_bind; [by eapply runs_weaken, join_dht_runs|intros _].
    apply exits_bind; [|intros _].
    { unfold try_relay. case_decide; [apply runs_returns|]. destruct (lp_AddrInfoFromString _ _); [|apply runs_returns].
      destruct (lp_connect _ _); [|apply runs_returns]. destruct (lp_reserve _ _); [by apply runs_act|apply runs_returns]. }
    do 6 (apply exits_bind; [apply runs_or_fatal || (intros ?; split; [by exists []|left; by eexists])|intros ?]).
    apply runs_exits, runs_returns. }
  destruct (Hx w) as [[a Ha]|[Ha _]]; rewrite H in Ha; [done|by injection Ha].
Qed.

Context `{!SessionManager SM} {TC : TicketCodec} {W : Type} (envp : PublisherEnv W).

(** Published files are delivered.  A publisher program that returned has
    printed a content identifier and a key; a consumer program that is given
    both and an output file, over stores that hold what the publisher stored and
    whatever the network does in between, comes to one of three ends: it returns
    and the output file holds exactly the bytes the publisher read, it exits
    with a status other than zero, or its download never returns. *)
Theorem file_delivered lq fp wp p wp' data contentID key f w dir sm fs providers pid fault o :
  publisher_main lq envp fp wp = (Returns p, wp') →
  pb_challengeCID fp = ""%string → 0 < pb_chunkSizeKB fp < 2 ^ 22 →
  pn_open _ envp = Ok (data, None) → pn_rndID _ envp = Ok contentID → pn_rndKey _ envp = Ok key →
  pn_fault _ envp = (λ _, None) → length contentID = 32%nat → length key = 32%nat →
  zlen data < 2 ^ 32 * (pb_chunkSizeKB fp * 1024) → zlen data < 2 ^ 63 → NoDup (mf_ChunkIDs (pu_manifest p)) →
  cf_transferStatus f = false → cf_cancelID f = ""%string →
  cf_fetchID f = EncodeToString (cd_ID (mf_Descriptor (pu_manifest p))) →
  cf_keyHex f = EncodeToString (default [] (pu_key p)) → cf_reassembleOut f ≠ ""%string →
  Forall (replica contentID (pu_manifest p) (pu_store p)) (fs :: providers) →
  Forall (answered_by contentID providers) (cn_answers env) →
  store_valid fs → store_whole fs → honest_store contentID (mf_ChunkIDs (pu_manifest p)) fs sm →
  consumer_main lp env pid fault (sent_by providers) f w dir sm fs o →
  o = Returns (Fetched (Some data) (cf_keepAlive f)) ∨ (∃ c, o = Exits c ∧ c ≠ 0) ∨ o = Hangs.
Proof.
  intros Hpub Hc Hkb Ho Hrid Hrk Hf Hlid Hlk Hs1 Hs2 Hnd Hst Hcan Hfetch Hkh Hout Hrep Hans Hv Hw Hh Hrun.
  apply publisher_main_inv in Hpub as (self & keys & w1 & w2 & w3 & w4 & Hcon & Hkey & _).
  eapply content_of_ingested in Hcon as (Hkeys & Hcid & Ht & Hg & cks & Hing & Hall); [|eassumption..].
  rewrite Hcid, Hkeys in Hkey. unfold key_Get, key_Put in Hkey. rewrite lookup_insert_eq in Hkey.
  rewrite Hkey in Hkh. cbn [default from_option] in Hkh. rewrite Hcid in Hfetch. pose proof Hrep as [_ Hps]%Forall_cons.
  assert (Hm : ∀ r, maintenance f (cn_opened env) (cn_readdir env) (cn_read env) (cn_delete env) dir = Ok r → r = Fetching contentID)
    by (intros r; rewrite maintenance_fetches by done; by intros []).
  destruct Hrun as [e He|r Hr Hne|id c w' Hr Hx|id r w' sm' fs' e Hr Hx Hd|id r w' sm' Hr Hx Hd|id r w' Hr Hx Hd|id r w' sm' fs' Hr Hx Hd];
    try (by right; left; eexists); try (by right; right).
  - apply Hm in Hr. by destruct (Hne contentID).
  - apply consumer_start_exits in Hx as ->. by right; left; eexists.
  - apply Hm in Hr as [= ->]. apply consumer_start_ready in Hx as (_ & Hik & Hres & _).
    rewrite Hkh, install_key_hex in Hik by done. injection Hik as Hik.
    pose proof (resolved_published _ _ _ _ _ _ Ht Hps Hans Hres) as E. rewrite E in Hd.
    unfold finish. rewrite decide_False by done. destruct (cn_create env); [|by right; left; eexists].
    rewrite E, <- Hik. erewrite reassembled_file by eauto. by left.
Qed.
End delivery.

(** ** Witness *)

#[local] Existing Instance ToySessionCodec.
Definition toy_consumer_env (m : Manifest) : ConsumerEnv (B := ()) := {|
  cn_opened := Ok tt; cn_readdir := Ok tt; cn_read _ := None; cn_delete := None; cn_mkdir := Ok tt; cn_create := Ok tt;
  cn_answers := [Ok (Ok (Serialize m))]; cn_dial := Ok tt; cn_chainID := Ok 1; cn_bind _ := Ok tt |}.
Definition toy_consumer_flags (m : Manifest) (key : option (list byte)) : ConsumerFlags := {|
  cf_fetchID := EncodeToString (cd_ID (mf_Descriptor m)); cf_resumeID := "";
  cf_keyHex := EncodeToString (default [] key); cf_reassembleOut := "out"; cf_port := 5001; cf_wsPort := 5002;
  cf_storePath := "./client_store"; cf_target := "p"; cf_bootstrapAddr := ""; cf_relayAddr := "";
  cf_forceRelay := false; cf_transferStatus := false; cf_cancelID := ""; cf_identityPath := "id.key"; cf_ethRPC := "";
  cf_ethKey := ""; cf_entropyAddr := ""; cf_providerEthAddr := ""; cf_roundID := 1; cf_roundFaceValue := "1";
  cf_simulateCheat := false; cf_keepAlive := false |}.

(** The small consumer gets ready with what it was told. *)
Lemma toy_consumer_ready m key :
  manifest_typed m → length key = 32%nat →
  ∃ w', consumer_start toy_platform (toy_consumer_env m) (toy_consumer_flags m (Some key))
          (cd_ID (mf_Descriptor m)) toy_node =
        (Returns {| rd_targets := ["p"%string]; rd_keys := key_Put (cd_ID (mf_Descriptor m)) key ∅;
                    rd_manifest := m; rd_tickets := None |}, w').
Proof.
  intros Ht Hk. unfold consumer_start.
  assert (Hres : ResolveManifest (cn_answers (toy_consumer_env m)) = Ok m).
  { unfold ResolveManifest. cbn [cn_answers toy_consumer_env resolve_loop resolve_one]. by rewrite (Deserialize_Serialize _ Ht). }
  rewrite Hres. cbn [cf_keyHex toy_consumer_flags default from_option]. rewrite install_key_hex by done.
  assert (Hid : returned (load_identity toy_platform "id.key" toy_node).1 = true) by (vm_compute; reflexivity).
  unfold pbindp at 1. cbn [cf_identityPath toy_consumer_flags].
  destruct (load_identity toy_platform "id.key" toy_node) as [[priv|c|] w1]; [|discriminate Hid|discriminate Hid].
  eexists. cbn -[key_Put]. reflexivity.
Qed.

Lemma file_delivered_witness :
  ∃ p wp' o, publisher_main toy_platform toy_publisher_env toy_publisher_flags toy_node = (Returns p, wp') ∧
    consumer_main (SM := FS) (TC := OneTicketCodec) toy_platform (toy_consumer_env (pu_manifest p)) 1 (λ _, None)
      (sent_by [pu_store p]) (toy_consumer_flags (pu_manifest p) (pu_key p)) toy_node ∅ ∅ ∅ o ∧
    (o = Returns (Fetched (Some (bytes_of "hello")) false) ∨ (∃ c, o = Exits c ∧ c ≠ 0) ∨ o = Hangs).
Proof.
  assert (Hret : match (publisher_main toy_platform toy_publisher_env toy_publisher_flags toy_node).1 with
                 | Returns p => bool_decide (length (mf_ChunkIDs (pu_manifest p)) = 1%nat ∧
                                             pu_key p = Some (replicate 32 x02))
                 | _ => false end = true) by (vm_compute; reflexivity).
  destruct (publisher_main toy_platform toy_publisher_env toy_publisher_flags toy_node) as [[p|c|] wp'] eqn:E;
    [|discriminate Hret|discriminate Hret].
  cbn [fst] in Hret. apply bool_decide_eq_true in Hret as [Hl Hk].
  pose proof (publisher_main_inv _ _ _ _ _ _ E) as (self & keys & w1 & w2 & w3 & w4 & Hcon & _).
  destruct (content_of_ingested _ _ _ _ _ _ _ (bytes_of "hello") (replicate 32 x01) (replicate 32 x02) Hcon)
    as (_ & Hcid & Ht & Hg & cks & Hing & Hst); try reflexivity; try (cbn; lia).
  destruct (one_chunk_downloaded (replicate 32 x01) _ _ cks _ _ Hing Hl eq_refl eq_refl Hst)
    as (Hnd & dir & fs' & Hdl).
  destruct (toy_consumer_ready (pu_manifest p) (replicate 32 x02) Ht eq_refl) as [w' Hs].
  rewrite Hcid in Hs.
  assert (Hrun : consumer_main (SM := FS) (TC := OneTicketCodec) toy_platform (toy_consumer_env (pu_manifest p)) 1
    (λ _, None) (sent_by [pu_store p]) (toy_consumer_flags (pu_manifest p) (Some (replicate 32 x02))) toy_node ∅ ∅ ∅
    (finish (toy_consumer_env (pu_manifest p)) 1 (toy_consumer_flags (pu_manifest p) (Some (replicate 32 x02)))
       {| rd_targets := ["p"%string]; rd_keys := key_Put (replicate 32 x01) (replicate 32 x02) ∅;
          rd_manifest := pu_manifest p; rd_tickets := None |} fs')).
  { eapply cm_fetched; [|exact Hs|exact Hdl]. rewrite maintenance_fetches; [split; reflexivity|done|done| |done].
    cbn [cf_fetchID toy_consumer_flags]. by rewrite Hcid. }
  exists p, wp'. eexists. split; [reflexivity|]. rewrite Hk. split; [exact Hrun|].
  apply (file_delivered (SM := FS) (TC := OneTicketCodec) toy_platform (toy_consumer_env (pu_manifest p))
    toy_publisher_env toy_platform toy_publisher_flags toy_node p wp' (bytes_of "hello") (replicate 32 x01)
    (replicate 32 x02) (toy_consumer_flags (pu_manifest p) (Some (replicate 32 x02))) toy_node ∅ ∅ ∅ [pu_store p] 1
    (λ _, None) _ E); [reflexivity|cbn; lia|reflexivity|reflexivity|reflexivity|reflexivity|reflexivity|reflexivity|
    reflexivity|reflexivity|exact Hnd|reflexivity|reflexivity|reflexivity| |discriminate| | | | | |exact Hrun].
  - rewrite Hk. reflexivity.
  - apply Forall_cons. split; [by split|]. apply Forall_singleton. split; [done|].
    intros d Hgm. rewrite Hg in Hgm. by injection Hgm as <-.
  - apply Forall_singleton. intros d [= <-]. exists (pu_store p). split; [by left|exact Hg].
  - exact empty_store_valid.
  - intros id _ H. discriminate H.
  - intros sess H. discriminate H.
Defined.
