(* ===== verification/Delivery.v ===== *)
(** * From publisher to consumer

    The three programs together: the publisher stores a file, uploads run
    between its store and the push handlers of providers, and a consumer
    downloads from the stores they leave.

    An upload that starts at a provider without the file leaves a replica of
    what the publisher stored ([upload_replicates]); with [file_delivered] the
    consumer gets the file. *)

From S2P Require Import Prelude Sha256 Content Merkle ContentEngine Tickets Crypto ChunkProtocol AvailWire Session ChunkSession Push Distribution Transfer Manager Bridge Paths Identity Discovery Retrieval Peer ProofEngine Nodes Process Host PublisherMain ConsumerMain.

(** ** Uploads *)

(** One upload: the provider's process, faults, policy and state, the peer it
    takes the publisher for, the chunks assigned to it, and the retries. *)
Record Upload := {
  ul_pid : Z;
  ul_put_fault : list byte → option (put_call * error);
  ul_manifest_fault : list byte → option manifest_failure;
  ul_policy : PushPolicy;
  ul_peer : string;
  ul_state : PushState;
  ul_chunks : list ChunkID;
  ul_retries : nat;
}.

Section upload.
Context {MC : ManifestCodec}.

(** Every interleaving of the upload of [m] from the store [pub] with the
    provider's handler ends with everything committed and the provider in [st]. *)
Definition uploads (pub : FS) (m : Manifest) (u : Upload) (st : PushState) : Prop :=
  always_ends pwritable preceive (push_loop (ul_pid u) (ul_put_fault u) (ul_manifest_fault u))
    {| c_client := uploadToProvider pub (S (ul_retries u)) (cd_ID (mf_Descriptor m)) (ul_chunks u) (Serialize m);
       c_server := handleStream (ul_policy u) (ul_peer u) (ul_state u); c_up := []; c_down := [] |}
    (finished (all_committed (ul_chunks u), true) st []).

(** A provider that admits the publisher, whose writes work and which holds no
    chunk of the file yet. *)
Record willing (m : Manifest) (u : Upload) : Prop := {
  wl_wf : push_wf ∅ (ul_state u);
  wl_allow : pp_allowPush (ul_policy u) = true;
  wl_auth : pp_authPolicy (ul_policy u) = AuthPolicyAllowlist → ul_peer u ∈ pp_allowedPublishers (ul_policy u);
  wl_writes : ∀ id, id ∈ ul_chunks u → ul_put_fault u id = None;
  wl_manifest : ul_manifest_fault u (cd_ID (mf_Descriptor m)) = None;
  wl_listed : ∀ id, id ∈ ul_chunks u → id ∈ mf_ChunkIDs m;
  wl_fresh : ∀ id, id ∈ mf_ChunkIDs m → is_ok (GetChunk id (pu_fs (ul_state u))) = false;
  wl_fits : 39 + 32 * zlen (ul_chunks u) + zlen (Serialize m) <= MaxMessageSize;
}.

(** The stored chunks of a file that was cut into pieces that fit a push
    message. *)
Lemma stored_uploadable {AE : AEAD} {size} u pub key data cks m id :
  ingested size key data cks m → length key = 32%nat → size + 117 <= MaxMessageSize →
  Forall (λ c, GetChunk (stored_id key c) pub = Ok (stored_chunk key c)) cks →
  id ∈ mf_ChunkIDs m → ul_put_fault u id = None → ∃ c, uploadable (ul_put_fault u) pub id c.
Proof.
  intros [Hp Hids] Hk Hsz Hst Hin Hf. rewrite Hids in Hin. apply list_elem_of_fmap in Hin as (c & -> & Hc).
  exists (stored_chunk key c). split; [by apply (proj1 (Forall_forall _ _) Hst)|done|done| |done].
  apply pieces_sizes, Forall_forall with (x := c) in Hp; [|done].
  cbn [stored_chunk ck_Data]. unfold sealed. unfold zlen at 1. rewrite aead_length by (done || apply generateNonce_length).
  unfold zlen in Hp. unfold headerSize. lia.
Qed.

(** A provider that took its chunks of a file holds the manifest and those
    chunks as the publisher does, and is a replica. *)
Lemma upload_replicates {AE : AEAD} {size} pub key data cks m u :
  ingested size key data cks m → manifest_typed m → length key = 32%nat → size + 117 <= MaxMessageSize →
  Forall (λ c, GetChunk (stored_id key c) pub = Ok (stored_chunk key c)) cks → willing m u →
  ∃ st, uploads pub m u st ∧ replica (cd_ID (mf_Descriptor m)) m pub (pu_fs st) ∧
    GetManifestBytes (cd_ID (mf_Descriptor m)) (pu_fs st) = Ok (Serialize m) ∧
    ∀ id, id ∈ ul_chunks u → GetChunk id (pu_fs st) = GetChunk id pub.
Proof.
  intros Hg Ht Hk Hsz Hst [Hwf Hal Hau Hwr Hmf Hli Hfr Hfi].
  destruct (upload_session (ul_pid u) (ul_put_fault u) (ul_manifest_fault u) pub (cd_ID (mf_Descriptor m)) m (Serialize m)
    (ul_chunks u) (mt_content _ Ht) Hli (ul_policy u) (ul_peer u) (ul_state u) (ul_retries u))
    as (st & Hends & Hman & Htk & Hall); try done.
  { by apply Deserialize_Serialize. }
  { intros id Hid. eapply stored_uploadable; eauto. }
  assert (Hfrom : ∀ id c, id ∈ mf_ChunkIDs m → GetChunk id (pu_fs st) = Ok c → GetChunk id pub = Ok c).
  { intros id c Hid Hc. destruct (Htk id c) as [Ho|[_ Ho]]; [|done| |done].
    - by apply (proj1 (Forall_forall _ _) (mt_chunks _ Ht)).
    - specialize (Hfr id Hid). by rewrite Ho in Hfr. }
  exists st. split; [exact Hends|]. split; [|split; [done|]].
  - split; [exact Hfrom|]. intros d Hd. rewrite Hman in Hd. by injection Hd.
  - intros id Hid. destruct (Hall id Hid) as (c & Hc & _). rewrite Hc. symmetry. apply Hfrom; [by apply Hli|done].
Qed.
End upload.

(** ** The three programs *)

Section delivery.
Context {KC : KeyCodec} {MC : ManifestCodec} {AE : AEAD} {SS : SliceSort} {GE : GoEthereum} {GC : GethCommon} {SC : SessionCodec}.
Context {D : Type} {DH : Dht D} {B : Type} `{!SessionManager SM} {TC : TicketCodec} {W : Type} (envp : PublisherEnv W).

(** The uploads of a file to providers that take it leave replicas. *)
Lemma uploads_replicate {size} pub key data cks m us :
  ingested size key data cks m → manifest_typed m → length key = 32%nat → size + 117 <= MaxMessageSize →
  Forall (λ c, GetChunk (stored_id key c) pub = Ok (stored_chunk key c)) cks → Forall (willing m) us →
  ∃ sts, Forall2 (λ u st, uploads pub m u st ∧
      GetManifestBytes (cd_ID (mf_Descriptor m)) (pu_fs st) = Ok (Serialize m) ∧
      ∀ id, id ∈ ul_chunks u → GetChunk id (pu_fs st) = GetChunk id pub) us sts ∧
    Forall (replica (cd_ID (mf_Descriptor m)) m pub) (pu_fs <$> sts).
Proof.
  intros Hg Ht Hk Hsz Hst Hus. induction Hus as [|u us Hu _ (sts & H1 & H2)]; [by exists []; split; constructor|].
  destruct (upload_replicates pub key data cks m u Hg Ht Hk Hsz Hst Hu) as (st & Hup & Hrep & Hman & Hch).
  exists (st :: sts). split; [by constructor|]. by apply Forall_cons.
Qed.

(** C9: A file goes from the publisher through providers to the consumer.  Take a
    publisher program that returned, and uploads from its store to providers that
    admit it and do not have the file yet: every schedule of every upload ends
    with all assigned chunks committed, and the provider then holds the manifest
    and those chunks exactly as the publisher does.  A consumer program that is
    given the identifier and the key the publisher printed and an output file,
    and is answered from the stores of these providers, whatever the network does
    in between, returns with exactly the bytes the publisher read in the output
    file, or exits with a status other than zero, or hangs in a download that
    never returns: it never writes another file.  Chunks have to fit the
    protocol's messages, the file has less than 2^32 chunks and 2^63 bytes, and
    no two chunks have the same hash. *)
Theorem pushed_file_delivered (lq : Platform (KC := KC)) fp (wp : Node (D := D)) p wp' data contentID key us :
  publisher_main lq envp fp wp = (Returns p, wp') →
  pb_challengeCID fp = ""%string → 0 < pb_chunkSizeKB fp → pb_chunkSizeKB fp * 1024 + 117 <= MaxMessageSize →
  pn_open _ envp = Ok (data, None) → pn_rndID _ envp = Ok contentID → pn_rndKey _ envp = Ok key →
  pn_fault _ envp = (λ _, None) → length contentID = 32%nat → length key = 32%nat →
  zlen data < 2 ^ 32 * (pb_chunkSizeKB fp * 1024) → zlen data < 2 ^ 63 → NoDup (mf_ChunkIDs (pu_manifest p)) →
  Forall (willing (pu_manifest p)) us →
  ∃ sts,
    Forall2 (λ u st, uploads (pu_store p) (pu_manifest p) u st ∧
      GetManifestBytes contentID (pu_fs st) = Ok (Serialize (pu_manifest p)) ∧
      ∀ id, id ∈ ul_chunks u → GetChunk id (pu_fs st) = GetChunk id (pu_store p)) us sts ∧
    ∀ (lp : Platform (KC := KC)) (env : ConsumerEnv (B := B)) f (w : Node (D := D)) dir (sm : SM) fs pid fault o,
      cf_transferStatus f = false → cf_cancelID f = ""%string →
      cf_fetchID f = EncodeToString (cd_ID (mf_Descriptor (pu_manifest p))) →
      cf_keyHex f = EncodeToString (default [] (pu_key p)) → cf_reassembleOut f ≠ ""%string →
      replica contentID (pu_manifest p) (pu_store p) fs →
      Forall (answered_by contentID (pu_fs <$> sts)) (cn_answers env) →
      store_valid fs → store_whole fs → honest_store contentID (mf_ChunkIDs (pu_manifest p)) fs sm →
      consumer_main lp env pid fault (sent_by (pu_fs <$> sts)) f w dir sm fs o →
      o = Returns (Fetched (Some data) (cf_keepAlive f)) ∨ (∃ c, o = Exits c ∧ c ≠ 0) ∨ o = Hangs.
Proof.
  intros Hpub Hc Hkb Hfit Ho Hrid Hrk Hf Hlid Hlk Hs1 Hs2 Hnd Hus.
  assert (Hkb2 : 0 < pb_chunkSizeKB fp < 2 ^ 22) by (unfold MaxMessageSize in Hfit; lia).
  pose proof (publisher_main_inv _ _ _ _ _ _ Hpub) as (self & keys & w1 & w2 & w3 & w4 & Hcon & _).
  destruct (content_of_ingested _ _ _ _ _ _ _ data contentID key Hcon) as (_ & Hcid & Ht & _ & cks & Hing & Hall); try done.
  destruct (uploads_replicate _ _ _ _ _ us Hing Ht Hlk Hfit (Hall Hnd) Hus) as (sts & Hups & Hrep). rewrite Hcid in *.
  exists sts. split; [exact Hups|].
  intros lp env f w dir sm fs pid fault o H1 H2 H3 H4 H5 Hfs Hans Hv Hw Hh Hrun.
  eapply (file_delivered lp env envp lq fp wp p wp' data contentID key); eauto.
  - by rewrite Hcid.
Qed.
End delivery.

(** ** Witness *)

#[local] Existing Instance ToySessionCodec.
Definition toy_upload (m : Manifest) : Upload := {|
  ul_pid := 1; ul_put_fault _ := None; ul_manifest_fault _ := None;
  ul_policy := {| pp_allowPush := true; pp_authPolicy := "open"; pp_allowedPublishers := ∅ |};
  ul_peer := "publisher"; ul_state := push_init ∅; ul_chunks := mf_ChunkIDs m; ul_retries := 2 |}.

Lemma toy_willing m : length (mf_ChunkIDs m) = 1%nat → zlen (Serialize m) < 1000000 → willing m (toy_upload m).
Proof.
  intros Hl Hs. split; [apply push_init_wf, empty_store_ok|done|done|done|done|done|done|].
  cbn [ul_chunks toy_upload]. unfold zlen at 1. rewrite Hl. unfold MaxMessageSize. lia.
Qed.

Lemma pushed_file_delivered_witness :
  ∃ p wp' st o, publisher_main toy_platform toy_publisher_env toy_publisher_flags toy_node = (Returns p, wp') ∧
    uploads (pu_store p) (pu_manifest p) (toy_upload (pu_manifest p)) st ∧
    consumer_main (SM := FS) (TC := OneTicketCodec) toy_platform (toy_consumer_env (pu_manifest p)) 1 (λ _, None)
      (sent_by [pu_fs st]) (toy_consumer_flags (pu_manifest p) (pu_key p)) toy_node ∅ ∅ ∅ o ∧
    (o = Returns (Fetched (Some (bytes_of "hello")) false) ∨ (∃ c, o = Exits c ∧ c ≠ 0) ∨ o = Hangs).
Proof.
  assert (Hret : match (publisher_main toy_platform toy_publisher_env toy_publisher_flags toy_node).1 with
                 | Returns p => bool_decide (length (mf_ChunkIDs (pu_manifest p)) = 1%nat ∧
                     pu_key p = Some (replicate 32 x02) ∧ zlen (Serialize (pu_manifest p)) < 1000000)
                 | _ => false end = true) by (vm_compute; reflexivity).
  destruct (publisher_main toy_platform toy_publisher_env toy_publisher_flags toy_node) as [[p|c|] wp'] eqn:E;
    [|discriminate Hret|discriminate Hret].
  cbn [fst] in Hret. apply bool_decide_eq_true in Hret as (Hl & Hk & Hser).
  pose proof (publisher_main_inv _ _ _ _ _ _ E) as (self & keys & w1 & w2 & w3 & w4 & Hcon & _).
  destruct (content_of_ingested _ _ _ _ _ _ _ (bytes_of "hello") (replicate 32 x01) (replicate 32 x02) Hcon)
    as (_ & Hcid & Ht & Hg & cks & Hing & Hst); try reflexivity; try (cbn; lia).
  assert (Hnd : NoDup (mf_ChunkIDs (pu_manifest p)))
    by (destruct (mf_ChunkIDs (pu_manifest p)) as [|x [|]]; try discriminate Hl; apply NoDup_singleton).
  destruct (pushed_file_delivered (SM := FS) (TC := OneTicketCodec) (B := ()) toy_publisher_env toy_platform
    toy_publisher_flags toy_node p wp' (bytes_of "hello") (replicate 32 x01) (replicate 32 x02)
    [toy_upload (pu_manifest p)] E) as (sts & Hups & Hdel);
    [reflexivity|cbn; lia|cbn; unfold MaxMessageSize; lia|reflexivity|reflexivity|reflexivity|reflexivity|reflexivity|
     reflexivity|reflexivity|reflexivity|exact Hnd|by apply Forall_singleton, toy_willing|].
  apply Forall2_cons_inv_l in Hups as (st & sts' & (Hup & Hman & Hch) & ->%Forall2_nil_inv_l & ->).
  destruct (one_chunk_downloaded (replicate 32 x01) _ _ cks _ (pu_fs st) Hing Hl eq_refl eq_refl)
    as (_ & dir & fs' & Hdl).
  { intros _. eapply Forall_impl; [apply Forall_and; split; [exact (Hst Hnd)|apply (Forall_forall (λ c, c ∈ cks)); auto]|].
    intros c [Hc Hin]. rewrite Hch; [exact Hc|]. cbn [toy_upload ul_chunks]. rewrite (ig_ids _ _ _ _ _ Hing).
    by apply list_elem_of_fmap_2. }
  destruct (toy_consumer_ready (pu_manifest p) (replicate 32 x02) Ht eq_refl) as [w' Hs]. rewrite Hcid in Hs.
  exists p, wp', st. eexists. split; [reflexivity|]. split; [exact Hup|]. rewrite Hk.
  assert (Hrun : consumer_main (SM := FS) (TC := OneTicketCodec) toy_platform (toy_consumer_env (pu_manifest p)) 1
    (λ _, None) (sent_by [pu_fs st]) (toy_consumer_flags (pu_manifest p) (Some (replicate 32 x02))) toy_node ∅ ∅ ∅
    (finish (toy_consumer_env (pu_manifest p)) 1 (toy_consumer_flags (pu_manifest p) (Some (replicate 32 x02)))
       {| rd_targets := ["p"%string]; rd_keys := key_Put (replicate 32 x01) (replicate 32 x02) ∅;
          rd_manifest := pu_manifest p; rd_tickets := None |} fs')).
  { eapply cm_fetched; [|exact Hs|exact Hdl]. rewrite maintenance_fetches; [split; reflexivity|done|done| |done].
    cbn [cf_fetchID toy_consumer_flags]. by rewrite Hcid. }
  split; [exact Hrun|].
  apply (Hdel toy_platform (toy_consumer_env (pu_manifest p)) (toy_consumer_flags (pu_manifest p) (Some (replicate 32 x02)))
    toy_node ∅ ∅ ∅ 1 (λ _, None)); [reflexivity|reflexivity|reflexivity| |discriminate| | |exact empty_store_valid| | |exact Hrun].
  - rewrite Hk. reflexivity.
  - split; [done|]. intros d Hd. discriminate Hd.
  - apply Forall_singleton. intros d [= <-]. exists (pu_fs st). split; [by left|exact Hman].
  - intros id _ H. discriminate H.
  - intros sess H. discriminate H.
Defined.
