(* ===== verification/PeerMain.v ===== *)
(** * The peer program as a whole

    network/cmd/peer/main.go: starting up, the two session commands, ingest,
    fetch and shutting down, around the branches of Peer.v. *)

From S2P Require Import Prelude Sha256 Merkle Content ContentEngine Tickets ChunkProtocol Session ChunkSession Push Transfer Manager Paths Identity Discovery Retrieval Peer Process Host.

Record PeerOptions := {
  po_port : Z; po_wsPort : Z; po_relayAddr : string; po_forceRelay : bool; po_storePath : string;
  po_bootstrapAddr : string; po_identityPath : string; po_run : PeerFlags;
}.
Definition peer_defaults : PeerOptions := {|
  po_port := 4001; po_wsPort := 4002; po_relayAddr := ""; po_forceRelay := false; po_storePath := "./content_store";
  po_bootstrapAddr := ""; po_identityPath := "";
  po_run := {| pf_target := ""; pf_ingest := ""; pf_fetch := ""; pf_reassemble := ""; pf_key := ""; pf_resume := "";
               pf_transferStatus := false; pf_cancel := "" |} |}.

(** [12*time.Hour]. *)
Definition peer_republish : Z := 12 * (3600 * 10 ^ 9).

Section peer_main.
Context {KC : KeyCodec} {MC : ManifestCodec} {AE : AEAD} {SS : SliceSort} {SC : SessionCodec}.
Context {D : Type} {DH : Dht D} (lp : Platform (KC := KC)).
#[local] Abbreviation proc := (proc (Node (KC := KC) (D := D))).
#[local] Open Scope process_scope.

(** The outcomes of [os.MkdirAll], of the calls on the session directory, of
    [os.Open], [os.Create] and [h.Close]; random bytes and write faults; the
    peers' answers to the manifest request. *)
Record PeerEnv := {
  pv_mkdir : result ();
  pv_opened : result ();
  pv_readdir : result ();
  pv_read : string → option error;
  pv_delete : option error;
  pv_open : result (list byte * option error);
  pv_rndID : result (list byte);
  pv_rndKey : result (list byte);
  pv_fault : Chunk → option (put_call * error);
  pv_answers : list string → list (result (result (list byte)));
  pv_create : result ();
  pv_close : result ();
}.
Context (env : PeerEnv).

(** The session commands return, which closes the DHT and leaves the host;
    otherwise the program goes on. *)
Inductive peer_mode :=
| PeerListing (lines : list string)
| PeerCancelled (sessions : FS) (line : string)
| PeerReady.

Definition peer_start (o : PeerOptions) (dir : FS) : proc peer_mode :=
  do! priv ← load_identity lp (po_identityPath o) in
  do! r ← NewNode lp (po_port o) (po_wsPort o) (Some priv) (po_relayAddr o) (po_forceRelay o) in
  do! self ← or_fatal r in
  join_dht lp self (po_bootstrapAddr o) ;;;
  or_fatal (pv_mkdir env) ;;;
  modify (acts (Serves (ChunkService None))) ;;;
  or_fatal (pv_opened env) ;;;
  if pf_transferStatus (po_run o) then
    or_fatal (pv_readdir env) ;;;
    defer! acts DhtClosed in returns (PeerListing (transfer_status (pv_read env) dir))
  else if decide (pf_cancel (po_run o) ≠ ""%string) then
    let '(dir', line) := cancel_session (pv_delete env) (pf_cancel (po_run o)) dir in
    defer! acts DhtClosed in returns (PeerCancelled dir' line)
  else
    modify (acts (Serves (ChunkService None))) ;;;
    modify (acts (Spawned (Republisher peer_republish))) ;;;
    use_relay lp (po_relayAddr o) ;;;
    returns PeerReady.

(** [-ingest]. *)
Definition peer_publish (o : PeerOptions) (pid : Z) (fs : FS) : proc (LocalKeyProvider * FS * option Printed) :=
  if decide (pf_ingest (po_run o) = ""%string) then returns (∅, fs, None)
  else λ w,
    match peer_ingest pid (pv_fault env) (pv_open env) (pv_rndID env) (pv_rndKey env) ∅ fs (nd_dht w) with
    | None => (Hangs, w)
    | Some (keys, fs', d, r) =>
        (do! printed ← or_fatal r in returns (keys, fs', Some printed))
          {| nd_files := nd_files w; nd_dht := d; nd_acts := nd_acts w |}
    end.

(** After the signal: [h.Close()], then the deferred [kdht.Close()]. *)
Definition peer_stop : proc () :=
  defer! acts DhtClosed in or_fatal (pv_close env) ;;; modify (acts HostClosed).

Context `{!SessionManager SM} {TC : TicketCodec}.
Context (pid : Z) (fault : list byte → option (put_call * error)) (sends : list byte → Chunk → Prop).

(** What the program printed for an ingest and wrote for a fetch. *)
Inductive peer_done :=
| PeerMaintained (r : peer_mode)
| PeerServed (printed : option Printed) (out : option (list byte)).

(** [dir] is the directory of the sessions, [fs] the store at the start; the
    node and the store at the end are part of the outcome, for a program that
    hangs those at the start of what never returns. *)
Inductive peer_main (o : PeerOptions) (w : Node) (dir : FS) (sm : SM) (fs : FS) : outcome peer_done → Node → FS → Prop :=
| pm_unready c w' :
    peer_start o dir w = (Exits c, w') → peer_main o w dir sm fs (Exits c) w' fs
| pm_maintained r w' :
    peer_start o dir w = (Returns r, w') → r ≠ PeerReady → peer_main o w dir sm fs (Returns (PeerMaintained r)) w' fs
| pm_hangs w1 w2 :
    peer_start o dir w = (Returns PeerReady, w1) → peer_publish o pid fs w1 = (Hangs, w2) →
    peer_main o w dir sm fs Hangs w2 fs
| pm_unpublished w1 keys fs1 d e :
    peer_start o dir w = (Returns PeerReady, w1) → pf_ingest (po_run o) ≠ ""%string →
    peer_ingest pid (pv_fault env) (pv_open env) (pv_rndID env) (pv_rndKey env) ∅ fs (nd_dht w1) =
      Some (keys, fs1, d, Err e) →
    peer_main o w dir sm fs (Exits 1) {| nd_files := nd_files w1; nd_dht := d; nd_acts := nd_acts w1 |} fs1
| pm_unfetched w1 keys fs1 printed w2 fs2 e :
    peer_start o dir w = (Returns PeerReady, w1) → peer_publish o pid fs w1 = (Returns (keys, fs1, printed), w2) →
    peer_fetch pid fault sends (po_run o) (Connect (lp_NewMultiaddr lp) (lp_AddrInfoFromP2pAddr lp) (lp_connect lp))
      (lp_connect lp) (pv_answers env) (pv_create env) keys sm fs1 (nd_dht w2) fs2 (Err e) →
    peer_main o w dir sm fs (Exits 1) w2 fs2
| pm_panicked w1 keys fs1 printed w2 s id ps m sm' :
    peer_start o dir w = (Returns PeerReady, w1) → peer_publish o pid fs w1 = (Returns (keys, fs1, printed), w2) →
    wanted (po_run o) = Some s → decode32 "Invalid ContentID hex" s = Ok id →
    peer_targets (pf_target (po_run o)) (Connect (lp_NewMultiaddr lp) (lp_AddrInfoFromP2pAddr lp) (lp_connect lp))
      (lp_connect lp) id (nd_dht w2) = Ok ps →
    is_ok (peer_key id (pf_key (po_run o)) keys) = true → ResolveManifest (pv_answers env ps) = Ok m →
    begin_download id (mf_ChunkIDs m) ps fs1 sm sm' Panicked →
    peer_main o w dir sm fs (Exits 2) w2 fs1
| pm_waits w1 keys fs1 printed w2 s id ps m :
    peer_start o dir w = (Returns PeerReady, w1) → peer_publish o pid fs w1 = (Returns (keys, fs1, printed), w2) →
    wanted (po_run o) = Some s → decode32 "Invalid ContentID hex" s = Ok id →
    peer_targets (pf_target (po_run o)) (Connect (lp_NewMultiaddr lp) (lp_AddrInfoFromP2pAddr lp) (lp_connect lp))
      (lp_connect lp) id (nd_dht w2) = Ok ps →
    is_ok (peer_key id (pf_key (po_run o)) keys) = true → ResolveManifest (pv_answers env ps) = Ok m →
    download_hangs (TG := ()) None pid fault sends id (mf_ChunkIDs m) ps sm fs1 →
    peer_main o w dir sm fs Hangs w2 fs1
| pm_done w1 keys fs1 printed w2 fs2 out r w3 :
    peer_start o dir w = (Returns PeerReady, w1) → peer_publish o pid fs w1 = (Returns (keys, fs1, printed), w2) →
    peer_fetch pid fault sends (po_run o) (Connect (lp_NewMultiaddr lp) (lp_AddrInfoFromP2pAddr lp) (lp_connect lp))
      (lp_connect lp) (pv_answers env) (pv_create env) keys sm fs1 (nd_dht w2) fs2 (Ok out) →
    (peer_stop ;;; returns (PeerServed printed out)) w2 = (r, w3) →
    peer_main o w dir sm fs r w3 fs2.
End peer_main.

(** ** Two peers *)

Section sharing.
Context {KC : KeyCodec} {MC : ManifestCodec} {AE : AEAD} {SS : SliceSort} {SC : SessionCodec} {D : Type} {DH : Dht D}.
Context `{!SessionManager SM} {TC : TicketCodec}.

Lemma peer_start_exits (lp : Platform (KC := KC)) env o dir (w : Node (KC := KC) (D := D)) c w' :
  peer_start lp env o dir w = (Exits c, w') → c = 1.
Proof.
  intros H. assert (Hx : exits_with (λ _, True) (peer_start lp env o dir)).
  { unfold peer_start.
    apply exits_bind; [apply load_identity_runs|intros priv].
    apply exits_bind; [by eapply runs_weaken, NewNode_runs|intros r].
    apply exits_bind; [apply runs_or_fatal|intros self].
    apply exits_bind; [by eapply runs_weaken, join_dht_runs|intros _].
    do 3 (apply exits_bind; [apply runs_or_fatal || by apply runs_act|intros _]).
    destruct (pf_transferStatus _).
    { apply exits_bind; [apply runs_or_fatal|intros _]. apply exits_deferring, runs_exits, runs_returns. }
    case_decide.
    { destruct (cancel_session _ _ _). apply exits_deferring, runs_exits, runs_returns. }
    do 2 (apply exits_bind; [by apply runs_act|intros _]).
    apply exits_bind; [by eapply runs_weaken, use_relay_runs|intros _]. apply runs_exits, runs_returns. }
  destruct (Hx w) as [[a Ha]|[Ha _]]; rewrite H in Ha; [done|by injection Ha].
Qed.

(** A peer that was asked to ingest a file, and for nothing else, and returns,
    printed the command line of the ingest and left its store. *)
Lemma peer_main_ingested (lp : Platform (KC := KC)) env pid fault sends o w dir (sm : SM) fs printed out w' (pub : FS) :
  peer_main lp env pid fault sends o w dir sm fs (Returns (PeerServed (Some printed) out)) w' pub →
  wanted (po_run o) = None →
  ∃ w1 keys d, peer_ingest pid (pv_fault env) (pv_open env) (pv_rndID env) (pv_rndKey env) ∅ fs (nd_dht w1) =
    Some (keys, pub, d, Ok printed).
Proof.
  intros H Hw. remember (Returns (PeerServed (Some printed) out)) as r eqn:Er.
  destruct H as [| | | | | | |w1 keys fs1 pr w2 fs2 out' r w3 Hs Hp Hf Hstop]; try discriminate Er. subst r.
  exists w1, keys.
  assert (fs2 = fs1) as -> by (by destruct Hf; congruence).
  apply bind_inv in Hstop as ([] & w4 & _ & [= -> <- <-]).
  unfold peer_publish in Hp. case_decide; [done|].
  destruct (peer_ingest _ _ _ _ _ _ _ _) as [[[[keys' fs'] d] r']|]; [|done]. exists d.
  apply bind_inv in Hp as (pr & w5 & [-> _]%or_fatal_inv & [= -> -> ->]). done.
Qed.

(** Two runs of the program exchange a file: one ingests it and prints a command
    line; another one that is started with what was printed, over peers that hold
    what the first one stored, either writes exactly the file or exits with a
    status other than zero, or hangs in a download that never returns. *)
Theorem peers_share (lpA lpB : Platform (KC := KC)) envA envB pidA faultA sendsA oA wA dirA (smA : SM) fsA printed outA wA' pub
    data contentID key :
  peer_main lpA envA pidA faultA sendsA oA wA dirA smA fsA (Returns (PeerServed (Some printed) outA)) wA' pub →
  wanted (po_run oA) = None → pv_fault envA = (λ _, None) → pv_open envA = Ok (data, None) →
  pv_rndID envA = Ok contentID → pv_rndKey envA = Ok key →
  zlen data < 2 ^ 32 * peer_ChunkSize → length contentID = 32%nat → length key = 32%nat →
  ∃ m, GetManifestBytes contentID pub = Ok (Serialize m) ∧
    (NoDup (mf_ChunkIDs m) →
     ∀ oB wB dirB (smB : SM) fsB providers pidB faultB r wB' fsB',
       pf_ingest (po_run oB) = ""%string → pf_transferStatus (po_run oB) = false → pf_cancel (po_run oB) = ""%string →
       pf_fetch (po_run oB) = pr_fetch printed → pf_key (po_run oB) = pr_key printed →
       pf_reassemble (po_run oB) ≠ ""%string →
       Forall (replica contentID m pub) (fsB :: providers) →
       (∀ ps, Forall (answered_by contentID providers) (pv_answers envB ps)) →
       store_valid fsB → store_whole fsB → honest_store contentID (mf_ChunkIDs m) fsB smB →
       peer_main lpB envB pidB faultB (sent_by providers) oB wB dirB smB fsB r wB' fsB' →
       r = Returns (PeerServed None (Some data)) ∨ (∃ c, r = Exits c ∧ c ≠ 0) ∨ r = Hangs).
Proof.
  intros HA HwA Hfa Hoa Hid Hkey Hsz Hlid Hlk.
  apply peer_main_ingested in HA as (w1 & keys & d & Hi); [|done]. rewrite Hfa, Hoa, Hid, Hkey in Hi.
  destruct (peer_exchange (SM := SM) pidA data contentID key ∅ fsA (nd_dht w1))
    as (pub' & m & printed' & d' & Hi' & Hg & Hex); [done..|].
  rewrite Hi in Hi'. injection Hi' as -> -> -> ->. exists m. split; [done|].
  intros Hnd oB wB dirB smB fsB providers pidB faultB r wB' fsB' Hin Hst Hcan Hf Hk Hout Hrep Hans Hv Hw Hh HB.
  destruct HB as [c w' Hs|mode w' Hs Hr|w2 w3 Hs Hp|w2 ks fs1 d2 e Hs Hne Hp|w2 ks fs1 pr w3 fs2 e Hs Hp Hfe|
    w2 ks fs1 pr w3 s id ps m' sm' Hs Hp _ _ _ _ _ _|w2 ks fs1 pr w3 s id ps m' Hs Hp _ _ _ _ _ _|w2 ks fs1 pr w3 fs2 out r' w4 Hs Hp Hfe Hstop];
    try (right; left; eexists; split; [reflexivity|done]); try (by right; right).
  - apply peer_start_exits in Hs as ->. by right; left; eexists.
  - unfold peer_start in Hs. exfalso. do 7 apply bind_inv in Hs as (? & ? & _ & Hs). rewrite Hst, Hcan in Hs.
    rewrite decide_False in Hs by auto. do 3 apply bind_inv in Hs as (? & ? & _ & Hs). by injection Hs as <- _.
  - unfold peer_publish in Hp. rewrite decide_True in Hp by done. injection Hp as <- <- <- <-.
    pose proof (Hex Hnd pidB faultB (po_run oB) _ _ providers _ _ _ _ _ _ _ _ Hf Hk Hrep Hans Hv Hw Hh Hfe) as Hres.
    rewrite decide_False in Hres by done. subst out. unfold pbindp, peer_stop, deferring in Hstop.
    destruct (pv_close envB); cbn in Hstop; injection Hstop as <- _; [by left|by right; left; eexists].
Qed.
End sharing.
