(* ===== verification/Commands.v ===== *)
(** * The other commands

    network/cmd/bootstrap, network/cmd/relay and network/cmd/dht_inspect, and
    scripts/gen_keys.go, which writes the key files the first two load. *)

From S2P Require Import Prelude Bindings Content Tickets Paths Identity Discovery Retrieval Logger Process Host.

(** ** scripts/gen_keys.go *)

Section gen_keys.
Context {KC : KeyCodec} (IDFromPublicKey : PrivKey → result string) (f : faults).
#[local] Open Scope process_scope.

(** [IDFromPublicKey] is the peer identifier of the public half of a key. *)
Definition generateAndSave (gen : result PrivKey) (path : list byte) (fs : files) : files * result string :=
  match fl_mkdir f with
  | Some e => (fs, Err e)
  | None =>
      match gen with
      | Err e => (fs, Err e)
      | Ok priv =>
          match MarshalPrivateKey priv with
          | Err e => (fs, Err e)
          | Ok bytes =>
              match WriteFile f path bytes fs with
              | (fs', Err e) => (fs', Err e)
              | (fs', Ok _) => (fs', IDFromPublicKey priv)
              end
          end
      end
  end.

Definition bootstrap_key : string := "config/identity/bootstrap.key".
Definition relay_key : string := "config/identity/relay.key".

(** [panic(err)] ends the program with status 2. *)
Definition or_panic {W A} (r : result A) : proc W A := match r with Ok a => returns a | Err _ => exit 2 end.

Definition gen_keys_main (gen1 gen2 : result PrivKey) : proc files (string * string) :=
  do! r1 ← state (generateAndSave gen1 (bytes_of bootstrap_key)) in
  do! id1 ← or_panic r1 in
  do! r2 ← state (generateAndSave gen2 (bytes_of relay_key)) in
  do! id2 ← or_panic r2 in
  returns (id1, id2).

(** A call that reports an identifier has written its key. *)
Lemma generateAndSave_ok gen path fs fs' id :
  generateAndSave gen path fs = (fs', Ok id) →
  ∃ k b, gen = Ok k ∧ MarshalPrivateKey k = Ok b ∧ IDFromPublicKey k = Ok id ∧ fs' = <[path := b]> fs.
Proof.
  unfold generateAndSave, WriteFile. destruct (fl_mkdir f); [done|]. destruct gen as [k|]; [|done].
  destruct (MarshalPrivateKey k) as [b|] eqn:Hb; [|done]. destruct (fl_write f) as [[n e]|]; [done|].
  intros [= <- Hid]. by exists k, b.
Qed.
End gen_keys.

(** ** The bootstrap node and the relay *)

Section servers.
Context {KC : KeyCodec} {D : Type} {DH : Dht D} (lp : Platform (KC := KC)).
#[local] Abbreviation proc := (proc (Node (KC := KC) (D := D))).
#[local] Open Scope process_scope.

Record BootstrapFlags := { bf_port : Z; bf_wsPort : Z; bf_identityPath : string }.
Definition bootstrap_defaults : BootstrapFlags := {| bf_port := 4003; bf_wsPort := 0; bf_identityPath := bootstrap_key |}.

(** [addrs] are the addresses the host listens on. *)
Definition peer_addr (self addr : string) : string := addr +:+ "/p2p/" +:+ self.
Definition bootstrap_fields (f : BootstrapFlags) (self : string) (addrs : list string) : list Field :=
  [{| fd_Key := "Node Role"; fd_Value := "Kademlia DHT Bootstrap Coordinator" |};
   {| fd_Key := "Peer ID"; fd_Value := self |};
   {| fd_Key := "TCP Port"; fd_Value := format_int (bf_port f) |}] ++
  (if decide (bf_wsPort f > 0) then [{| fd_Key := "WebSocket Port"; fd_Value := format_int (bf_wsPort f) |}] else []) ++
  [{| fd_Key := ""; fd_Value := "Multiaddresses (copy for other nodes):" |}] ++
  ((λ a, {| fd_Key := ""; fd_Value := "  " +:+ peer_addr self a |}) <$> addrs).

(** Until the signal; the result is the banner. *)
Definition bootstrap_main (addrs : list string) (f : BootstrapFlags) : proc (list Field) :=
  do! priv ← load_identity lp (bf_identityPath f) in
  do! r ← NewNode lp (bf_port f) (bf_wsPort f) (Some priv) "" false in
  do! self ← or_fatal r in
  defer! close_node in returns (bootstrap_fields f self addrs).

Definition relay_options (priv : PrivKey) : list (node_option PrivKey) :=
  [ListenAddrs ["/ip4/0.0.0.0/tcp/4001"; "/ip4/0.0.0.0/udp/4002/quic-v1"; "/ip4/0.0.0.0/tcp/4004/ws"]%string;
   WithIdentity priv; EnableNATService].

(** 512 MB and 15 minutes for a connection, 100 reservations. *)
Definition relay_service : service := RelayService (512 * 1024 * 1024) (15 * (60 * 10 ^ 9)) 100.

Definition relay_fields (self : string) (addrs : list string) : list Field :=
  [{| fd_Key := "Node Role"; fd_Value := "Circuit Relay v2 Service" |};
   {| fd_Key := "Relay Peer ID"; fd_Value := self |};
   {| fd_Key := "Max Reservations"; fd_Value := "100" |};
   {| fd_Key := "Data Limit"; fd_Value := "512 MB / connection" |};
   {| fd_Key := ""; fd_Value := "Relay Multiaddresses (for other peers):" |}] ++
  ((λ a, {| fd_Key := ""; fd_Value := "  " +:+ peer_addr self a |}) <$> addrs).

(** [served] and [closed] are the outcomes of [relay.New] and [h.Close]. *)
Definition relay_main (addrs : list string) (served closed : result ()) (identityPath : string) : proc (list Field) :=
  do! priv ← load_identity lp identityPath in
  do! self ← or_fatal (lp_New lp (relay_options priv)) in
  modify (acts (HostOpened (relay_options priv))) ;;;
  or_fatal served ;;;
  modify (acts (Serves relay_service)) ;;;
  or_fatal closed ;;;
  modify (acts HostClosed) ;;;
  returns (relay_fields self addrs).
End servers.

(** ** The DHT inspector *)

Section inspector.
Context {KC : KeyCodec} {D : Type} {DH : Dht D} (lp : Platform (KC := KC)).
#[local] Abbreviation proc := (proc (Node (KC := KC) (D := D))).
#[local] Open Scope process_scope.

Record InspectFlags := {
  if_bootstrapAddr : string; if_findCID : string; if_listProviders : bool; if_trackDemand : bool; if_demandCount : Z;
}.
Definition inspect_defaults : InspectFlags :=
  {| if_bootstrapAddr := ""; if_findCID := ""; if_listProviders := true; if_trackDemand := false; if_demandCount := 3 |}.

(** The alert of [-track-demand]; the ratio is a numerator over a denominator. *)
Record Alert := { al_queries : Z; al_active : Z; al_offline : Z; al_ratio : Z * Z }.
Definition demand_alert (demandCount : Z) (contentProviders : list AddrInfo) : Alert :=
  let n := zlen contentProviders in
  {| al_queries := demandCount; al_active := n;
     al_offline := (let offlineCount := 4 - n in if decide (offlineCount < 0) then 0 else offlineCount);
     al_ratio := if decide (n > 0) then (demandCount, n) else (demandCount, 1) |}.

(** What the inspector prints: a failed query is a warning. *)
Record Inspection := {
  in_storage : option (result (list AddrInfo));
  in_content : option (result (list AddrInfo));
  in_alert : option Alert;
}.

Definition inspect (f : InspectFlags) : proc Inspection :=
  do! d ← gets nd_dht in
  let storage := if if_listProviders f then Some (FindStorageProviders 16 d) else None in
  if decide (if_findCID f = ""%string) then returns {| in_storage := storage; in_content := None; in_alert := None |}
  else
    do! cid ← or_fatal (decode32 "Invalid ContentID format (must be 32 bytes hex)" (if_findCID f)) in
    let content := FindProviders cid 16 d in
    returns {| in_storage := storage; in_content := Some content;
               in_alert := if if_trackDemand f
                           then Some (demand_alert (if_demandCount f) (match content with Ok ps => ps | Err _ => [] end))
                           else None |}.

Definition inspect_main (f : InspectFlags) : proc Inspection :=
  if decide (if_bootstrapAddr f = ""%string) then fatal
  else
    do! r ← NewNode lp 0 0 None "" false in
    do! self ← or_fatal r in
    defer! close_node in
    join_dht lp self (if_bootstrapAddr f) ;;; inspect f.
End inspector.

(** ** Generated keys are used *)

Section keys.
Context {KC : KeyCodec} {D : Type} {DH : Dht D} (lp : Platform (KC := KC)) (IDFromPublicKey : PrivKey → result string).

(** A key file that was written whole is the identity. *)
Lemma load_identity_stored path (w : Node (KC := KC) (D := D)) k b :
  path ≠ ""%string → fl_stat (lp_faults lp) = None → fl_read (lp_faults lp) = None →
  nd_files w !! bytes_of path = Some b → MarshalPrivateKey k = Ok b → load_identity lp path w = (Returns k, w).
Proof.
  intros Hp Hs Hr Hf Hk. unfold load_identity, pbindp, state, on_files. rewrite decide_False by done.
  unfold LoadOrCreateFromPath. rewrite Hs, Hf, Hr, (Unmarshal_Marshal _ _ Hk). by destruct w.
Qed.

(** The keys [gen_keys] writes are the identities of the bootstrap node and
    of the relay: when it returns, it printed the peer identifiers of two keys,
    and either program, started with its default key file, opens its host with
    its own one of them and leaves the key files alone. *)
Theorem generated_keys_used (f : faults) gen1 gen2 fs fs' ids (w : Node (KC := KC) (D := D)) addrs :
  gen_keys_main IDFromPublicKey f gen1 gen2 fs = (Returns ids, fs') →
  nd_files w = fs' → fl_stat (lp_faults lp) = None → fl_read (lp_faults lp) = None →
  ∃ k1 k2, gen1 = Ok k1 ∧ gen2 = Ok k2 ∧ IDFromPublicKey k1 = Ok ids.1 ∧ IDFromPublicKey k2 = Ok ids.2 ∧
    (∀ r w', bootstrap_main lp addrs bootstrap_defaults w = (Returns r, w') →
       nd_files w' = fs' ∧
       nd_acts w' = HostClosed :: DhtClosed ::
         HostOpened [ListenAddrs ["/ip4/0.0.0.0/tcp/4003"%string]; EnableRelay; WithIdentity k1] :: nd_acts w) ∧
    (∀ served closed r w', relay_main lp addrs served closed relay_key w = (Returns r, w') →
       nd_files w' = fs' ∧
       nd_acts w' = HostClosed :: Serves relay_service :: HostOpened (relay_options k2) :: nd_acts w).
Proof.
  intros H Hw Hs Hr. unfold gen_keys_main in H.
  apply bind_inv in H as (r1 & fs1 & H1 & H). apply bind_inv in H as (id1 & fs2 & Hp1 & H).
  apply bind_inv in H as (r2 & fs3 & H2 & H). apply bind_inv in H as (id2 & fs4 & Hp2 & [= <- <-]).
  unfold state in H1, H2. destruct (generateAndSave _ _ gen1 _ _) as [fsa ra] eqn:E1. injection H1 as -> ->.
  destruct r1; [|done]. injection Hp1 as -> ->.
  destruct (generateAndSave _ _ gen2 _ _) as [fsb rb] eqn:E2. injection H2 as -> ->.
  destruct r2; [|done]. injection Hp2 as -> ->.
  apply generateAndSave_ok in E1 as (k1 & b1 & -> & Hb1 & Hi1 & ->).
  apply generateAndSave_ok in E2 as (k2 & b2 & -> & Hb2 & Hi2 & ->).
  exists k1, k2. split_and!; [done..| |].
  - intros r w'. unfold bootstrap_main, pbindp at 1. cbn [bf_identityPath bootstrap_defaults].
    rewrite (load_identity_stored bootstrap_key w k1 b1); [|done|done|done| |done].
    2: { rewrite Hw, lookup_insert_ne by done. by rewrite lookup_insert_eq. }
    intros (r' & w1 & Hn & Hd)%bind_inv. apply bind_inv in Hd as (self & w2 & [-> ->]%or_fatal_inv & Hd).
    apply deferring_inv in Hd as (w3 & [= <- <-] & ->). apply NewNode_inv in Hn as (opts & Ho & _ & ->).
    change (node_options lp _ _ _ _ _) with
      (Ok [ListenAddrs ["/ip4/0.0.0.0/tcp/4003"%string]; EnableRelay; WithIdentity k1]) in Ho.
    by injection Ho as <-.
  - intros served closed r w'. unfold relay_main, pbindp at 1.
    rewrite (load_identity_stored relay_key w k2 b2); [|done|done|done| |done].
    2: { by rewrite Hw, lookup_insert_eq. }
    destruct (lp_New lp _); [|done]. destruct served; [|done]. destruct closed; [|done]. cbn. by intros [= <- <-].
Qed.
End keys.

(** ** The inspector only looks *)

(** The alert the inspector announces as published is not: beyond joining, the
    program opens and closes a node of its own and changes nothing in the DHT.
    The number of providers it calls offline is what four exceeds the found ones
    by, whatever the replication of the content. *)
Theorem inspector_publishes_nothing {KC : KeyCodec} {D} {DH : Dht D} (lp : Platform (KC := KC)) f
    (w : Node (KC := KC) (D := D)) r w' :
  inspect_main lp f w = (Returns r, w') →
  ∃ self info opts,
    nd_dht w' = (Bootstrap self (lp_connect lp) [info] (nd_dht w)).1 ∧
    nd_acts w' = HostClosed :: DhtClosed :: Joined info :: HostOpened opts :: nd_acts w ∧
    nd_files w' = nd_files w ∧
    (∀ a, in_alert r = Some a → 0 <= al_active a ∧ al_offline a = Z.max 0 (4 - al_active a) ∧
       al_ratio a = (if_demandCount f, Z.max 1 (al_active a))).
Proof.
  unfold inspect_main. case_decide; [done|]. intros (r0 & w1 & Hn & Hd)%bind_inv.
  apply bind_inv in Hd as (self & w2 & [-> ->]%or_fatal_inv & Hd).
  apply deferring_inv in Hd as (w3 & Hd & ->). apply bind_inv in Hd as ([] & w4 & Hj & Hi).
  apply NewNode_inv in Hn as (opts & _ & _ & ->).
  unfold join_dht in Hj. rewrite decide_False in Hj by done. apply bind_inv in Hj as (info & w5 & [_ ->]%or_fatal_inv & Hj).
  apply bind_inv in Hj as (b & w6 & Hb & Hj). apply bind_inv in Hj as ([] & w7 & [-> ->]%or_fatal_inv & [= <-]).
  unfold state, on_dht in Hb. destruct (Bootstrap _ _ _ _) as [d' rb] eqn:Eb. injection Hb as -> <-.
  exists self, info, opts.
  assert (w3 = acts (Joined info) {| nd_files := nd_files w; nd_dht := d'; nd_acts := HostOpened opts :: nd_acts w |} ∧
    (∀ a, in_alert r = Some a → ∃ l, a = demand_alert (if_demandCount f) l)) as [-> Ha].
  { unfold inspect in Hi. apply bind_inv in Hi as (d & w8 & [= <- <-] & Hi).
    case_decide; [by injection Hi as <- <-|]. apply bind_inv in Hi as (c & w9 & [_ ->]%or_fatal_inv & [= <- <-]).
    split; [done|]. cbn. destruct (if_trackDemand f); [|done]. intros a [= <-]. by eexists. }
  cbn. cbn in Eb. rewrite Eb. split_and!; [done..|]. intros a (l & ->)%Ha. cbn.
  assert (0 <= zlen l) by (unfold zlen; lia). repeat case_decide; split_and!; try lia; f_equal; lia.
Qed.

(** ** Witness *)

Definition toy_gen : result (PrivKey (KeyCodec := ToyKeyCodec)) := lp_gen toy_platform.

Lemma generated_keys_used_witness :
  ∃ ids fs' k, gen_keys_main (λ _, Ok "id"%string) no_faults toy_gen toy_gen ∅ = (Returns ids, fs') ∧ toy_gen = Ok k ∧
    let w : Node (D := list (list byte)) := {| nd_files := fs'; nd_dht := []; nd_acts := [] |} in
    (∀ r w', bootstrap_main toy_platform [] bootstrap_defaults w = (Returns r, w') →
       nd_acts w' = [HostClosed; DhtClosed;
         HostOpened [ListenAddrs ["/ip4/0.0.0.0/tcp/4003"%string]; EnableRelay; WithIdentity k]]) ∧
    returned (bootstrap_main toy_platform [] bootstrap_defaults w).1 = true.
Proof.
  destruct (gen_keys_main (λ _, Ok "id"%string) no_faults toy_gen toy_gen ∅) as [o fs'] eqn:E.
  assert (∃ ids, o = Returns ids) as [ids ->] by (injection E as <- _; eexists; reflexivity).
  destruct (generated_keys_used (D := list (list byte)) toy_platform (λ _, Ok "id"%string) no_faults toy_gen toy_gen ∅ fs' ids
    {| nd_files := fs'; nd_dht := []; nd_acts := [] |} [] E) as (k1 & k2 & Hk & _ & _ & _ & Hb & _);
    [reflexivity|reflexivity|reflexivity|].
  exists ids, fs', k1. split; [reflexivity|]. split; [exact Hk|]. split.
  - intros r w' H. exact (proj2 (Hb r w' H)).
  - injection E as _ <-. vm_compute. reflexivity.
Defined.
