(* ===== verification/Lottery.v ===== *)
(** * The lottery contracts

    payments/src: the on-chain side of the round tickets.  PaymentChannel.sol
    holds the consumers' deposits, SettlementEngine.sol runs the rounds,
    CommitRevealEntropy.sol and RaffleMath.sol draw the winner,
    ProviderRegistry.sol holds the providers' stakes and
    ChunkDisputeResolver.sol slashes them.

    The four contracts with state form one [World]; a call is a function from
    worlds to a new world or a revert.  Calls between the contracts are
    function calls; a transfer runs the code of its recipient, which may call
    any of the contracts again: [tx] and [exec] are as in EscrowContract.
    Storage mappings are keyed by hashes, as on chain, and an absent key holds
    the zero value. *)

From S2P Require Import Prelude Sha256 Bindings Tickets EscrowContract.

(** ** ProtocolConfig.sol: the constants the contracts read *)

Module ProtocolConfig.
Definition CONFIRMATION_DELAY : Z := 15.
Definition MAX_BLOCKHASH_WINDOW : Z := 256.
Definition MIN_PROVIDER_STAKE : Z := 10 ^ 18.
Definition UNBONDING_PERIOD : Z := 7200.
Definition CHANNEL_UNLOCK_PERIOD : Z := 7200.
Definition DISPUTE_RESPONSE_WINDOW : Z := 1200.
Definition ROUND_STALE_TIMEOUT : Z := 3600.
Definition MAX_ROUND_SIZE : Z := 10000.
Definition SLASH_BPS : Z := 2000.
End ProtocolConfig.
Import ProtocolConfig.

(** ** The deployment and the libraries *)

(** The addresses of the contracts, OpenZeppelin's [EIP712] of the entropy
    contract and [ECDSA.recover], with what their documentation states: the
    typed-data hash of EIP-712 for the contract's domain, and the signer of a
    signature [R || S || V] as [crypto.Sign] makes it with [V] in [{27, 28}].
    [otherResolver] is [isDisputePending] of a resolver contract other than
    ours, a view function. *)
Class Lottery `{GoEthereum} := {
  channelAddr : list byte;
  engineAddr : list byte;
  registryAddr : list byte;
  resolverAddr : list byte;
  entropyAddr : list byte;
  configAddr : list byte;
  lotteryChain : Z;
  hashTypedDataV4 : list byte → list byte;
  ECDSA_recover : list byte → list byte → result (list byte);
  otherResolver : list byte → list byte → list byte → Z → result bool;
  lottery_addresses : NoDup [channelAddr; engineAddr; registryAddr; resolverAddr; entropyAddr; zero_bytes 20];
  length_entropyAddr : length entropyAddr = 20%nat;
  lotteryChain_range : 0 < lotteryChain < 2 ^ 256;
  hashTypedDataV4_eip712 : ∀ h, hashTypedDataV4 h =
    Keccak256Hash ([x19; x01] ++
      Keccak256Hash (Keccak256Hash (bytes_of
          "EIP712Domain(string name,string version,uint256 chainId,address verifyingContract)")
        ++ Keccak256Hash (bytes_of "CIPHER Payment Protocol") ++ Keccak256Hash (bytes_of "1.0.0")
        ++ uint_word lotteryChain ++ address_word entropyAddr) ++ h);
  ECDSA_recover_Sign : ∀ d k rs v, ec_valid k → length d = 32%nat → length rs = 64%nat →
    (v = x00 ∨ v = x01) → ec_Sign d k = Ok (rs ++ [v]) →
    ECDSA_recover d (rs ++ [byte_of_Z (byte_to_Z v + 27)]) = Ok (PubkeyToAddress k);
}.

(** The machine: the block a call runs in; [blockhash] knows the last 256. *)
Record Block := { bl_number : Z; bl_hash : Z → list byte }.
Definition blockhash (b : Block) (n : Z) : list byte :=
  if decide (bl_number b - 256 <= n < bl_number b) then bl_hash b n else zero_bytes 32.

Record Call := { c_sender : list byte; c_value : Z; c_block : Block }.
Definition number (c : Call) : Z := bl_number (c_block c).

(** Checked addition of [uint256] values. *)
Definition add256 (a b : Z) : result Z := if decide (a + b < 2 ^ 256) then Ok (a + b) else Err Panic.

(** ** Storage *)

Record Channel := {
  ch_totalDeposited : Z; ch_settledAmount : Z; ch_withdrawnAmount : Z; ch_unlockBlock : Z }.
Definition no_channel : Channel :=
  {| ch_totalDeposited := 0; ch_settledAmount := 0; ch_withdrawnAmount := 0; ch_unlockBlock := 0 |}.

Inductive RoundStatus := Uncommitted | Open | Settled | PartialFallback | Voided.
#[global] Instance RoundStatus_eq_dec : EqDecision RoundStatus.
Proof. solve_decision. Defined.

Record Round := {
  rd_tau : Z; rd_faceValue : Z; rd_recipientRandHash : list byte; rd_commitBlock : Z; rd_status : RoundStatus }.
Definition no_round : Round :=
  {| rd_tau := 0; rd_faceValue := 0; rd_recipientRandHash := zero_bytes 32; rd_commitBlock := 0;
     rd_status := Uncommitted |}.
Definition set_round_status (s : RoundStatus) (r : Round) : Round :=
  {| rd_tau := rd_tau r; rd_faceValue := rd_faceValue r; rd_recipientRandHash := rd_recipientRandHash r;
     rd_commitBlock := rd_commitBlock r; rd_status := s |}.

Record Provider := {
  pv_stake : Z; pv_unstakeReleaseBlock : Z; pv_pendingUnstakeAmount : Z; pv_registered : bool }.
Definition no_provider : Provider :=
  {| pv_stake := 0; pv_unstakeReleaseBlock := 0; pv_pendingUnstakeAmount := 0; pv_registered := false |}.

Inductive DisputeStatus := DNone | DOpen | ResolvedHonest | ResolvedSlashed.
#[global] Instance DisputeStatus_eq_dec : EqDecision DisputeStatus.
Proof. solve_decision. Defined.

Record Dispute := {
  ds_status : DisputeStatus; ds_evidenceHash : list byte; ds_raisedBlock : Z; ds_deadlineBlock : Z }.
Definition no_dispute : Dispute :=
  {| ds_status := DNone; ds_evidenceHash := zero_bytes 32; ds_raisedBlock := 0; ds_deadlineBlock := 0 |}.
Definition set_ds_status (s : DisputeStatus) (d : Dispute) : Dispute :=
  {| ds_status := s; ds_evidenceHash := ds_evidenceHash d; ds_raisedBlock := ds_raisedBlock d;
     ds_deadlineBlock := ds_deadlineBlock d |}.

Inductive event :=
| ChannelOpened (sender recipient : list byte) (amount : Z)
| ChannelDeposited (sender recipient : list byte) (amount : Z)
| ChannelUnlockInitiated (sender recipient : list byte) (unlockBlock : Z)
| ChannelWithdrawn (sender recipient : list byte) (amount : Z)
| ChannelPayoutExecuted (sender recipient : list byte) (amount : Z)
| RoundCommitted (sender recipient : list byte) (roundId tau faceValue commitBlock : Z)
| RoundSettled (sender recipient : list byte) (roundId localIndex faceValue : Z)
| RoundMarkedPartial (sender recipient : list byte) (roundId : Z)
| FallbackTicketClaimed (sender recipient : list byte) (roundId localIndex faceValue : Z)
| RoundVoided (sender recipient : list byte) (roundId : Z) (reason : list byte)
| ProviderRegistered (provider : list byte) (totalStake : Z)
| ProviderUnstakeRequested (provider : list byte) (releaseBlock amount : Z)
| ProviderStakeWithdrawn (provider : list byte) (amount : Z)
| ProviderSlashed (provider : list byte) (amount : Z) (reasonId : list byte)
| DisputeRaised (sender recipient : list byte) (roundId localIndex deadline : Z)
| DisputeResolvedHonest (sender recipient : list byte) (roundId localIndex : Z)
| DisputeResolvedSlashed (sender recipient : list byte) (roundId localIndex slashed : Z)
| Paused (contract account : list byte)
| Unpaused (contract account : list byte)
| EIP712DomainChanged.

(** [ReentrancyGuard] is the flag [entered], [Pausable] the flag [paused]. *)
Record PaymentChannel := {
  pc_channels : gmap (list byte) Channel; pc_engines : gset (list byte); pc_owner : list byte;
  pc_paused : bool; pc_entered : bool; pc_balance : Z }.
Record SettlementEngine := {
  se_rounds : gmap (list byte) Round; se_used : gset (list byte); se_usedFallback : gset (list byte);
  se_resolver : list byte; se_owner : list byte; se_paused : bool; se_entered : bool }.
Record ProviderRegistry := {
  pr_providers : gmap (list byte) Provider; pr_slashers : gset (list byte); pr_owner : list byte;
  pr_entered : bool; pr_balance : Z }.
Record DisputeResolver := { dr_disputes : gmap (list byte) Dispute; dr_pending : gmap (list byte) Z }.

(** [w_paid] lists the transfers, last first. *)
Record World := {
  w_pc : PaymentChannel; w_se : SettlementEngine; w_pr : ProviderRegistry; w_dr : DisputeResolver;
  w_paid : list (list byte * Z); w_log : list event }.

Definition receiver : Type := World → option World.

Section setters.
Implicit Types w : World.
Definition on_pc (f : PaymentChannel → PaymentChannel) w : World :=
  {| w_pc := f (w_pc w); w_se := w_se w; w_pr := w_pr w; w_dr := w_dr w; w_paid := w_paid w; w_log := w_log w |}.
Definition on_se (f : SettlementEngine → SettlementEngine) w : World :=
  {| w_pc := w_pc w; w_se := f (w_se w); w_pr := w_pr w; w_dr := w_dr w; w_paid := w_paid w; w_log := w_log w |}.
Definition on_pr (f : ProviderRegistry → ProviderRegistry) w : World :=
  {| w_pc := w_pc w; w_se := w_se w; w_pr := f (w_pr w); w_dr := w_dr w; w_paid := w_paid w; w_log := w_log w |}.
Definition on_dr (f : DisputeResolver → DisputeResolver) w : World :=
  {| w_pc := w_pc w; w_se := w_se w; w_pr := w_pr w; w_dr := f (w_dr w); w_paid := w_paid w; w_log := w_log w |}.
Definition emit (e : event) w : World :=
  {| w_pc := w_pc w; w_se := w_se w; w_pr := w_pr w; w_dr := w_dr w; w_paid := w_paid w; w_log := e :: w_log w |}.
Definition record_paid (to : list byte) (v : Z) w : World :=
  {| w_pc := w_pc w; w_se := w_se w; w_pr := w_pr w; w_dr := w_dr w; w_paid := (to, v) :: w_paid w;
     w_log := w_log w |}.

Definition put_channel (k : list byte) (c : Channel) : World → World := on_pc (λ p,
  {| pc_channels := <[k := c]> (pc_channels p); pc_engines := pc_engines p; pc_owner := pc_owner p;
     pc_paused := pc_paused p; pc_entered := pc_entered p; pc_balance := pc_balance p |}).
Definition set_engines (e : gset (list byte)) : World → World := on_pc (λ p,
  {| pc_channels := pc_channels p; pc_engines := e; pc_owner := pc_owner p;
     pc_paused := pc_paused p; pc_entered := pc_entered p; pc_balance := pc_balance p |}).
Definition pc_flags (paused entered : bool) (p : PaymentChannel) : PaymentChannel :=
  {| pc_channels := pc_channels p; pc_engines := pc_engines p; pc_owner := pc_owner p;
     pc_paused := paused; pc_entered := entered; pc_balance := pc_balance p |}.
Definition pc_add (v : Z) : World → World := on_pc (λ p,
  {| pc_channels := pc_channels p; pc_engines := pc_engines p; pc_owner := pc_owner p;
     pc_paused := pc_paused p; pc_entered := pc_entered p; pc_balance := pc_balance p + v |}).
Definition pc_enter (b : bool) : World → World := on_pc (λ p, pc_flags (pc_paused p) b p).

Definition put_round (k : list byte) (r : Round) : World → World := on_se (λ s,
  {| se_rounds := <[k := r]> (se_rounds s); se_used := se_used s; se_usedFallback := se_usedFallback s;
     se_resolver := se_resolver s; se_owner := se_owner s; se_paused := se_paused s;
     se_entered := se_entered s |}).
Definition use_ticket (h : list byte) : World → World := on_se (λ s,
  {| se_rounds := se_rounds s; se_used := se_used s ∪ {[h]}; se_usedFallback := se_usedFallback s;
     se_resolver := se_resolver s; se_owner := se_owner s; se_paused := se_paused s;
     se_entered := se_entered s |}).
Definition use_fallback (h : list byte) : World → World := on_se (λ s,
  {| se_rounds := se_rounds s; se_used := se_used s; se_usedFallback := se_usedFallback s ∪ {[h]};
     se_resolver := se_resolver s; se_owner := se_owner s; se_paused := se_paused s;
     se_entered := se_entered s |}).
Definition set_resolver (a : list byte) : World → World := on_se (λ s,
  {| se_rounds := se_rounds s; se_used := se_used s; se_usedFallback := se_usedFallback s;
     se_resolver := a; se_owner := se_owner s; se_paused := se_paused s; se_entered := se_entered s |}).
Definition se_flags (paused entered : bool) (s : SettlementEngine) : SettlementEngine :=
  {| se_rounds := se_rounds s; se_used := se_used s; se_usedFallback := se_usedFallback s;
     se_resolver := se_resolver s; se_owner := se_owner s; se_paused := paused; se_entered := entered |}.
Definition se_enter (b : bool) : World → World := on_se (λ s, se_flags (se_paused s) b s).

Definition put_provider (a : list byte) (p : Provider) : World → World := on_pr (λ r,
  {| pr_providers := <[a := p]> (pr_providers r); pr_slashers := pr_slashers r; pr_owner := pr_owner r;
     pr_entered := pr_entered r; pr_balance := pr_balance r |}).
Definition set_slashers (s : gset (list byte)) : World → World := on_pr (λ r,
  {| pr_providers := pr_providers r; pr_slashers := s; pr_owner := pr_owner r;
     pr_entered := pr_entered r; pr_balance := pr_balance r |}).
Definition pr_add (v : Z) : World → World := on_pr (λ r,
  {| pr_providers := pr_providers r; pr_slashers := pr_slashers r; pr_owner := pr_owner r;
     pr_entered := pr_entered r; pr_balance := pr_balance r + v |}).
Definition pr_enter (b : bool) : World → World := on_pr (λ r,
  {| pr_providers := pr_providers r; pr_slashers := pr_slashers r; pr_owner := pr_owner r;
     pr_entered := b; pr_balance := pr_balance r |}).

Definition put_dispute (k : list byte) (d : Dispute) : World → World := on_dr (λ r,
  {| dr_disputes := <[k := d]> (dr_disputes r); dr_pending := dr_pending r |}).
Definition put_pending (k : list byte) (n : Z) : World → World := on_dr (λ r,
  {| dr_disputes := dr_disputes r; dr_pending := <[k := n]> (dr_pending r) |}).
End setters.

Definition channel_at (k : list byte) (w : World) : Channel := default no_channel (pc_channels (w_pc w) !! k).
Definition round_at (k : list byte) (w : World) : Round := default no_round (se_rounds (w_se w) !! k).
Definition provider_at (a : list byte) (w : World) : Provider := default no_provider (pr_providers (w_pr w) !! a).
Definition dispute_at (k : list byte) (w : World) : Dispute := default no_dispute (dr_disputes (w_dr w) !! k).
Definition pending_at (k : list byte) (w : World) : Z := default 0 (dr_pending (w_dr w) !! k).

(** After the constructors. *)
Definition deployed (owner : list byte) : World :=
  {| w_pc := {| pc_channels := ∅; pc_engines := ∅; pc_owner := owner; pc_paused := false; pc_entered := false;
                pc_balance := 0 |};
     w_se := {| se_rounds := ∅; se_used := ∅; se_usedFallback := ∅; se_resolver := zero_bytes 20;
                se_owner := owner; se_paused := false; se_entered := false |};
     w_pr := {| pr_providers := ∅; pr_slashers := ∅; pr_owner := owner; pr_entered := false; pr_balance := 0 |};
     w_dr := {| dr_disputes := ∅; dr_pending := ∅ |}; w_paid := []; w_log := [] |}.

(** ** Errors *)

Definition UnauthorizedCaller : error := New "UnauthorizedCaller".
Definition EnforcedPause : error := New "EnforcedPause".
Definition ExpectedPause : error := New "ExpectedPause".
Definition ReentrancyGuardReentrantCall : error := New "ReentrancyGuardReentrantCall".
Definition ZeroDeposit : error := New "ZeroDeposit".
Definition UnlockAlreadyInitiated : error := New "UnlockAlreadyInitiated".
Definition UnlockNotInitiated : error := New "UnlockNotInitiated".
Definition UnlockNotComplete : error := New "UnlockNotComplete".
Definition NothingToWithdraw : error := New "NothingToWithdraw".
Definition InsufficientChannelBalance : error := New "InsufficientChannelBalance".
Definition RoundNotYetDrawable : error := New "RoundNotYetDrawable".
Definition RoundDrawExpired : error := New "RoundDrawExpired".
Definition BlockhashUnavailable : error := New "BlockhashUnavailable".
Definition InvalidSecret : error := New "InvalidSecret".
Definition RoundAlreadyCommitted : error := New "RoundAlreadyCommitted".
Definition RoundNotCommitted : error := New "RoundNotCommitted".
Definition InvalidRoundParams : error := New "InvalidRoundParams".
Definition RoundNotOpen : error := New "RoundNotOpen".
Definition RoundIsVoided : error := New "RoundIsVoided".
Definition RoundDisputePending : error := New "RoundDisputePending".
Definition RoundNotPartial : error := New "RoundNotPartial".
Definition RoundNotStaleEnough : error := New "RoundNotStaleEnough".
Definition NotWinningIndex : error := New "NotWinningIndex".
Definition TicketAlreadyUsed : error := New "TicketAlreadyUsed".
Definition ArrayLengthMismatch : error := New "ArrayLengthMismatch".
Definition InsufficientStake : error := New "InsufficientStake".
Definition NotRegistered : error := New "NotRegistered".
Definition UnstakeAlreadyRequested : error := New "UnstakeAlreadyRequested".
Definition UnstakeNotRequested : error := New "UnstakeNotRequested".
Definition UnbondingNotComplete : error := New "UnbondingNotComplete".
Definition InvalidAmount : error := New "InvalidAmount".
Definition DisputeAlreadyOpen : error := New "DisputeAlreadyOpen".
Definition DisputeNotOpen : error := New "DisputeNotOpen".
Definition DisputeWindowElapsed : error := New "DisputeWindowElapsed".
Definition DisputeWindowNotElapsed : error := New "DisputeWindowNotElapsed".
Definition InvalidMerkleProof : error := New "InvalidMerkleProof".

(** [require(c) else revert e]. *)
Notation "'guard!' c 'else' e 'in' k" := (if decide c then k else Err e)
  (at level 200, c at level 99, e at level 99, k at level 200) : go_scope.

(** [IEntropySource.RoundTicket]. *)
Record SolTicket := {
  tk_sender : list byte; tk_recipient : list byte; tk_roundId : Z; tk_localIndex : Z; tk_faceValue : Z;
  tk_winProb : Z; tk_senderNonce : Z }.

Section contracts.
Context `{Lottery}.
Implicit Types (c : Call) (w : World).

(** ** PaymentChannel.sol *)

Definition getChannelKey (sender recipient : list byte) : list byte := Keccak256Hash (sender ++ recipient).

(** A transfer from the channel contract.  None of the contracts can receive
    plain ether, so a transfer to one of them fails. *)
Definition contracts : list (list byte) := [channelAddr; engineAddr; registryAddr; resolverAddr; entropyAddr].

Definition pc_send (r : receiver) (to : list byte) (amount : Z) w : result World :=
  guard! (to ∉ contracts ∧ amount <= pc_balance (w_pc w)) else TransferFailed in
  match r (record_paid to amount (pc_add (- amount) w)) with
  | Some w' => Ok w'
  | None => Err TransferFailed
  end.

Definition setPayoutEngine (engine : list byte) (authorized : bool) c w : result World :=
  guard! (c_sender c = pc_owner (w_pc w)) else UnauthorizedCaller in
  Ok (set_engines (if authorized then pc_engines (w_pc w) ∪ {[engine]} else pc_engines (w_pc w) ∖ {[engine]}) w).

Definition pc_pause c w : result World :=
  guard! (c_sender c = pc_owner (w_pc w)) else UnauthorizedCaller in
  guard! (pc_paused (w_pc w) = false) else EnforcedPause in
  Ok (emit (Paused channelAddr (c_sender c)) (on_pc (λ p, pc_flags true (pc_entered p) p) w)).
Definition pc_unpause c w : result World :=
  guard! (c_sender c = pc_owner (w_pc w)) else UnauthorizedCaller in
  guard! (pc_paused (w_pc w) = true) else ExpectedPause in
  Ok (emit (Unpaused channelAddr (c_sender c)) (on_pc (λ p, pc_flags false (pc_entered p) p) w)).

(** The body [openChannel] and [depositToChannel] share. *)
Definition add_deposit (ev : Z → event) (recipient : list byte) c w : result World :=
  guard! (pc_paused (w_pc w) = false) else EnforcedPause in
  guard! (c_value c ≠ 0) else ZeroDeposit in
  let key := getChannelKey (c_sender c) recipient in
  let ch := channel_at key w in
  let! total := add256 (ch_totalDeposited ch) (c_value c) in
  Ok (emit (ev (c_value c)) (put_channel key
    {| ch_totalDeposited := total; ch_settledAmount := ch_settledAmount ch;
       ch_withdrawnAmount := ch_withdrawnAmount ch; ch_unlockBlock := ch_unlockBlock ch |} w)).
Definition openChannel (recipient : list byte) c w : result World :=
  add_deposit (ChannelOpened (c_sender c) recipient) recipient c w.
Definition depositToChannel (recipient : list byte) c w : result World :=
  add_deposit (ChannelDeposited (c_sender c) recipient) recipient c w.

Definition initiateChannelUnlock (recipient : list byte) c w : result World :=
  guard! (pc_paused (w_pc w) = false) else EnforcedPause in
  let key := getChannelKey (c_sender c) recipient in
  let ch := channel_at key w in
  guard! (ch_unlockBlock ch = 0) else UnlockAlreadyInitiated in
  let! unlock := add256 (number c) CHANNEL_UNLOCK_PERIOD in
  Ok (emit (ChannelUnlockInitiated (c_sender c) recipient unlock) (put_channel key
    {| ch_totalDeposited := ch_totalDeposited ch; ch_settledAmount := ch_settledAmount ch;
       ch_withdrawnAmount := ch_withdrawnAmount ch; ch_unlockBlock := unlock |} w)).

(** [totalDeposited - settledAmount - withdrawnAmount], checked. *)
Definition available (ch : Channel) : result Z :=
  let! a := sub256 (ch_totalDeposited ch) (ch_settledAmount ch) in sub256 a (ch_withdrawnAmount ch).

Definition withdrawChannel (recipient : list byte) (r : receiver) c w : result World :=
  guard! (pc_entered (w_pc w) = false) else ReentrancyGuardReentrantCall in
  guard! (pc_paused (w_pc w) = false) else EnforcedPause in
  let key := getChannelKey (c_sender c) recipient in
  let ch := channel_at key w in
  guard! (ch_unlockBlock ch ≠ 0) else UnlockNotInitiated in
  guard! (ch_unlockBlock ch <= number c) else UnlockNotComplete in
  let! remaining := available ch in
  guard! (remaining ≠ 0) else NothingToWithdraw in
  let! withdrawn := add256 (ch_withdrawnAmount ch) remaining in
  let w := put_channel key
    {| ch_totalDeposited := ch_totalDeposited ch; ch_settledAmount := ch_settledAmount ch;
       ch_withdrawnAmount := withdrawn; ch_unlockBlock := ch_unlockBlock ch |} (pc_enter true w) in
  let! w := pc_send r (c_sender c) remaining w in
  Ok (pc_enter false (emit (ChannelWithdrawn (c_sender c) recipient remaining) w)).

Definition payoutProvider (sender recipient : list byte) (amount : Z) (r : receiver) (caller : list byte) w
    : result World :=
  guard! (caller ∈ pc_engines (w_pc w)) else UnauthorizedCaller in
  guard! (pc_entered (w_pc w) = false) else ReentrancyGuardReentrantCall in
  guard! (pc_paused (w_pc w) = false) else EnforcedPause in
  let key := getChannelKey sender recipient in
  let ch := channel_at key w in
  let! avail := available ch in
  guard! (amount <= avail) else InsufficientChannelBalance in
  let! settled := add256 (ch_settledAmount ch) amount in
  let w := put_channel key
    {| ch_totalDeposited := ch_totalDeposited ch; ch_settledAmount := settled;
       ch_withdrawnAmount := ch_withdrawnAmount ch; ch_unlockBlock := ch_unlockBlock ch |} (pc_enter true w) in
  let! w := pc_send r recipient amount w in
  Ok (pc_enter false (emit (ChannelPayoutExecuted sender recipient amount) w)).

Definition channelBalance (sender recipient : list byte) w : result Z :=
  available (channel_at (getChannelKey sender recipient) w).
Definition isUnlockInitiated (sender recipient : list byte) w : bool :=
  bool_decide (ch_unlockBlock (channel_at (getChannelKey sender recipient) w) ≠ 0).

(** ** RaffleMath.sol and CommitRevealEntropy.sol *)

Definition raffle_winner (bh secret : list byte) (roundId tau : Z) : result Z :=
  guard! (tau > 0) else New "RaffleMath: Tau must be positive" in
  Ok (be_val (Keccak256Hash (bh ++ secret ++ uint_word roundId)) mod tau).

(** [bytes32] values are ordered as numbers. *)
Definition merkle_step (computedHash proofElement : list byte) : list byte :=
  if decide (be_val computedHash <= be_val proofElement) then Keccak256Hash (computedHash ++ proofElement)
  else Keccak256Hash (proofElement ++ computedHash).
Definition chunk_leaf (chunk : list byte) (localIndex : Z) : list byte :=
  Keccak256Hash (Keccak256Hash (uint_word localIndex ++ chunk)).
Definition verifyMerkleProof (chunk : list byte) (localIndex : Z) (proof : list (list byte)) (root : list byte)
    : bool :=
  bool_decide (foldl merkle_step (chunk_leaf chunk localIndex) proof = root).

Definition isFallbackWinner (bh : list byte) (senderNonce : Z) (secret : list byte) (winProb : Z) : bool :=
  bool_decide (be_val (Keccak256Hash (bh ++ uint_word senderNonce ++ secret)) < winProb).

Definition computeWinnerIndex (commitBlock : Z) (secret : list byte) (roundId tau : Z) (b : Block)
    : result (Z * list byte) :=
  let! targetBlock := add256 commitBlock CONFIRMATION_DELAY in
  guard! (targetBlock <= bl_number b) else RoundNotYetDrawable in
  let! limit := add256 commitBlock MAX_BLOCKHASH_WINDOW in
  guard! (bl_number b <= limit) else RoundDrawExpired in
  let targetBlockhash := blockhash b targetBlock in
  guard! (targetBlockhash ≠ zero_bytes 32) else BlockhashUnavailable in
  let! winnerIndex := raffle_winner targetBlockhash secret roundId tau in
  Ok (winnerIndex, targetBlockhash).

Definition ROUND_TICKET_TYPEHASH : list byte := Keccak256Hash (bytes_of
  "RoundTicket(address sender,address recipient,uint256 roundId,uint256 localIndex,uint256 faceValue,uint256 winProb,uint256 senderNonce)").

Definition roundTicketHash (t : SolTicket) : list byte :=
  hashTypedDataV4 (Keccak256Hash (ROUND_TICKET_TYPEHASH ++ address_word (tk_sender t)
    ++ address_word (tk_recipient t) ++ uint_word (tk_roundId t) ++ uint_word (tk_localIndex t)
    ++ uint_word (tk_faceValue t) ++ uint_word (tk_winProb t) ++ uint_word (tk_senderNonce t))).

Definition recoverSigner (ticketHash sig : list byte) : result (list byte) := ECDSA_recover ticketHash sig.
Definition verifySecretCommitment (secret committedHash : list byte) : bool :=
  bool_decide (Keccak256Hash secret = committedHash).

(** ** ChunkDisputeResolver.sol: views *)

Definition disputeKey (sender recipient : list byte) (roundId localIndex : Z) : list byte :=
  Keccak256Hash (sender ++ recipient ++ uint_word roundId ++ uint_word localIndex).
Definition roundDisputeKey (sender recipient : list byte) (roundId : Z) : list byte :=
  Keccak256Hash (sender ++ recipient ++ uint_word roundId).

Definition isDisputePending (sender recipient : list byte) (roundId : Z) w : bool :=
  bool_decide (pending_at (roundDisputeKey sender recipient roundId) w > 0).
Definition getDisputeStatus (sender recipient : list byte) (roundId localIndex : Z) w : DisputeStatus :=
  ds_status (dispute_at (disputeKey sender recipient roundId localIndex) w).

(** ** SettlementEngine.sol *)

Definition roundKey (channelKey : list byte) (roundId : Z) : list byte :=
  Keccak256Hash (channelKey ++ uint_word roundId).
Definition round_key (sender recipient : list byte) (roundId : Z) : list byte :=
  roundKey (getChannelKey sender recipient) roundId.

Definition setDisputeResolver (a : list byte) c w : result World :=
  guard! (c_sender c = se_owner (w_se w)) else UnauthorizedCaller in Ok (set_resolver a w).
Definition se_pause c w : result World :=
  guard! (c_sender c = se_owner (w_se w)) else UnauthorizedCaller in
  guard! (se_paused (w_se w) = false) else EnforcedPause in
  Ok (emit (Paused engineAddr (c_sender c)) (on_se (λ s, se_flags true (se_entered s) s) w)).
Definition se_unpause c w : result World :=
  guard! (c_sender c = se_owner (w_se w)) else UnauthorizedCaller in
  guard! (se_paused (w_se w) = true) else ExpectedPause in
  Ok (emit (Unpaused engineAddr (c_sender c)) (on_se (λ s, se_flags false (se_entered s) s) w)).

Definition commitRoundSecret (sender : list byte) (roundId tau faceValue : Z) (recipientRandHash : list byte) c w
    : result World :=
  guard! (se_paused (w_se w) = false) else EnforcedPause in
  let recipient := c_sender c in
  guard! (tau ≠ 0 ∧ tau <= MAX_ROUND_SIZE ∧ faceValue ≠ 0) else InvalidRoundParams in
  let key := round_key sender recipient roundId in
  guard! (rd_status (round_at key w) = Uncommitted) else RoundAlreadyCommitted in
  Ok (emit (RoundCommitted sender recipient roundId tau faceValue (number c)) (put_round key
    {| rd_tau := tau; rd_faceValue := faceValue; rd_recipientRandHash := recipientRandHash;
       rd_commitBlock := number c; rd_status := Open |} w)).

(** [address(disputeResolver) != address(0) && disputeResolver.isDisputePending(...)]. *)
Definition dispute_blocks (sender recipient : list byte) (roundId : Z) w : result bool :=
  let a := se_resolver (w_se w) in
  if decide (a = zero_bytes 20) then Ok false
  else if decide (a = resolverAddr) then Ok (isDisputePending sender recipient roundId w)
  else otherResolver a sender recipient roundId.

(** The checks of a ticket and of the revealed secret, common to both kinds of claim. *)
Definition check_ticket (t : SolTicket) (senderSig secret : list byte) (round : Round)
    (used : gset (list byte)) : result (list byte) :=
  let tHash := roundTicketHash t in
  guard! (tHash ∉ used) else TicketAlreadyUsed in
  let! signer := recoverSigner tHash senderSig in
  guard! (tk_sender t = signer) else InvalidSignature in
  guard! (verifySecretCommitment secret (rd_recipientRandHash round) = true) else InvalidSecret in
  Ok tHash.

Definition settleRoundInternal (t : SolTicket) (senderSig secret : list byte) (r : receiver) c w : result World :=
  let key := round_key (tk_sender t) (tk_recipient t) (tk_roundId t) in
  let round := round_at key w in
  guard! (rd_status round ≠ Uncommitted) else RoundNotCommitted in
  guard! (rd_status round ≠ Voided) else RoundIsVoided in
  guard! (rd_status round = Open) else RoundNotOpen in
  let! blocked := dispute_blocks (tk_sender t) (tk_recipient t) (tk_roundId t) w in
  guard! (blocked = false) else RoundDisputePending in
  guard! (tk_faceValue t = rd_faceValue round ∧ tk_localIndex t < rd_tau round) else InvalidRoundParams in
  let! tHash := check_ticket t senderSig secret round (se_used (w_se w)) in
  let! (winnerIndex, _) := computeWinnerIndex (rd_commitBlock round) secret (tk_roundId t) (rd_tau round) (c_block c) in
  guard! (tk_localIndex t = winnerIndex) else NotWinningIndex in
  let w := put_round key (set_round_status Settled round) (use_ticket tHash w) in
  let! w := payoutProvider (tk_sender t) (tk_recipient t) (tk_faceValue t) r engineAddr w in
  Ok (emit (RoundSettled (tk_sender t) (tk_recipient t) (tk_roundId t) (tk_localIndex t) (tk_faceValue t)) w).

(** [nonReentrant whenNotPaused]. *)
Definition guarded (body : World → result World) w : result World :=
  guard! (se_entered (w_se w) = false) else ReentrancyGuardReentrantCall in
  guard! (se_paused (w_se w) = false) else EnforcedPause in
  let! w := body (se_enter true w) in Ok (se_enter false w).

Definition settleRound (t : SolTicket) (senderSig secret : list byte) (r : receiver) c w : result World :=
  guarded (settleRoundInternal t senderSig secret r c) w.

(** The loop of [settleRoundBatch]; the [i]-th ticket's transfer goes to [rs i]. *)
Fixpoint settle_batch (l : list (SolTicket * list byte * list byte)) (rs : nat → receiver) c w : result World :=
  match l with
  | [] => Ok w
  | (t, sig, secret) :: l' =>
      let! w := settleRoundInternal t sig secret (rs 0%nat) c w in settle_batch l' (λ i, rs (S i)) c w
  end.
Definition settleRoundBatch (tickets : list SolTicket) (senderSigs secrets : list (list byte))
    (rs : nat → receiver) c w : result World :=
  guarded (λ w,
    guard! (length tickets = length senderSigs ∧ length tickets = length secrets) else ArrayLengthMismatch in
    settle_batch (zip (zip tickets senderSigs) secrets) rs c w) w.

Definition markRoundPartial (sender : list byte) (roundId : Z) c w : result World :=
  guard! (se_paused (w_se w) = false) else EnforcedPause in
  let recipient := c_sender c in
  let key := round_key sender recipient roundId in
  let round := round_at key w in
  guard! (rd_status round = Open) else RoundNotOpen in
  let! stale := add256 (rd_commitBlock round) ROUND_STALE_TIMEOUT in
  guard! (isUnlockInitiated sender recipient w = true ∨ number c > stale) else RoundNotStaleEnough in
  Ok (emit (RoundMarkedPartial sender recipient roundId) (put_round key (set_round_status PartialFallback round) w)).

Definition claim_body (t : SolTicket) (senderSig secret : list byte) (r : receiver) c w : result World :=
  let key := round_key (tk_sender t) (tk_recipient t) (tk_roundId t) in
  let round := round_at key w in
  guard! (rd_status round = PartialFallback) else RoundNotPartial in
  let! tHash := check_ticket t senderSig secret round (se_usedFallback (w_se w)) in
  let! targetBlock := add256 (rd_commitBlock round) CONFIRMATION_DELAY in
  let bh := blockhash (c_block c) targetBlock in
  guard! (bh ≠ zero_bytes 32) else BlockhashUnavailable in
  guard! (isFallbackWinner bh (tk_senderNonce t) secret (tk_winProb t) = true) else NotWinningIndex in
  let! w := payoutProvider (tk_sender t) (tk_recipient t) (tk_faceValue t) r engineAddr (use_fallback tHash w) in
  Ok (emit (FallbackTicketClaimed (tk_sender t) (tk_recipient t) (tk_roundId t) (tk_localIndex t) (tk_faceValue t)) w).
Definition claimFallbackTicket (t : SolTicket) (senderSig secret : list byte) (r : receiver) c w : result World :=
  guarded (claim_body t senderSig secret r c) w.

(** [caller] is [msg.sender]. *)
Definition voidRound (sender recipient : list byte) (roundId : Z) (reason : list byte) (caller : list byte) w
    : result World :=
  guard! (se_resolver (w_se w) = zero_bytes 20 ∨ caller = se_resolver (w_se w)) else UnauthorizedCaller in
  let key := round_key sender recipient roundId in
  Ok (emit (RoundVoided sender recipient roundId reason)
        (put_round key (set_round_status Voided (round_at key w)) w)).

Definition getRoundStatus (sender recipient : list byte) (roundId : Z) w : RoundStatus :=
  rd_status (round_at (round_key sender recipient roundId) w).

Definition previewWinnerIndex (sender recipient : list byte) (roundId : Z) (secret : list byte) (b : Block) w
    : result Z :=
  let round := round_at (round_key sender recipient roundId) w in
  guard! (rd_status round ≠ Uncommitted) else RoundNotCommitted in
  guard! (verifySecretCommitment secret (rd_recipientRandHash round) = true) else InvalidSecret in
  let! (winnerIndex, _) := computeWinnerIndex (rd_commitBlock round) secret roundId (rd_tau round) b in
  Ok winnerIndex.

(** ** ProviderRegistry.sol *)

Definition setSlasher (slasher : list byte) (authorized : bool) c w : result World :=
  guard! (c_sender c = pr_owner (w_pr w)) else UnauthorizedCaller in
  Ok (set_slashers (if authorized then pr_slashers (w_pr w) ∪ {[slasher]} else pr_slashers (w_pr w) ∖ {[slasher]}) w).

Definition registerProvider c w : result World :=
  let p := provider_at (c_sender c) w in
  let! stake := add256 (pv_stake p) (c_value c) in
  guard! (MIN_PROVIDER_STAKE <= stake) else InsufficientStake in
  Ok (emit (ProviderRegistered (c_sender c) stake) (put_provider (c_sender c)
    {| pv_stake := stake; pv_unstakeReleaseBlock := pv_unstakeReleaseBlock p;
       pv_pendingUnstakeAmount := pv_pendingUnstakeAmount p; pv_registered := true |} w)).

(** The end of both unstake requests. *)
Definition start_unbonding (p : Provider) (amount : Z) c w : result World :=
  let! release := add256 (number c) UNBONDING_PERIOD in
  Ok (emit (ProviderUnstakeRequested (c_sender c) release amount) (put_provider (c_sender c)
    {| pv_stake := pv_stake p; pv_unstakeReleaseBlock := release; pv_pendingUnstakeAmount := amount;
       pv_registered := pv_registered p |} w)).
Definition requestUnstake c w : result World :=
  let p := provider_at (c_sender c) w in
  guard! (pv_registered p = true) else NotRegistered in
  guard! (pv_unstakeReleaseBlock p = 0) else UnstakeAlreadyRequested in
  start_unbonding p (pv_stake p) c w.
Definition requestPartialUnstake (amount : Z) c w : result World :=
  let p := provider_at (c_sender c) w in
  guard! (pv_registered p = true) else NotRegistered in
  guard! (pv_unstakeReleaseBlock p = 0) else UnstakeAlreadyRequested in
  guard! (amount ≠ 0 ∧ amount <= pv_stake p) else InvalidAmount in
  let! rest := sub256 (pv_stake p) amount in
  guard! (MIN_PROVIDER_STAKE <= rest) else InsufficientStake in
  start_unbonding p amount c w.

Definition pr_send (r : receiver) (to : list byte) (amount : Z) w : result World :=
  guard! (to ∉ contracts ∧ amount <= pr_balance (w_pr w)) else TransferFailed in
  match r (record_paid to amount (pr_add (- amount) w)) with
  | Some w' => Ok w'
  | None => Err TransferFailed
  end.

Definition withdrawStake (r : receiver) c w : result World :=
  guard! (pr_entered (w_pr w) = false) else ReentrancyGuardReentrantCall in
  let p := provider_at (c_sender c) w in
  guard! (pv_unstakeReleaseBlock p ≠ 0) else UnstakeNotRequested in
  guard! (pv_unstakeReleaseBlock p <= number c) else UnbondingNotComplete in
  let amount := pv_pendingUnstakeAmount p in
  guard! (amount ≠ 0 ∧ amount <= pv_stake p) else InsufficientStake in
  let! stake := sub256 (pv_stake p) amount in
  let w := put_provider (c_sender c)
    {| pv_stake := stake; pv_unstakeReleaseBlock := 0; pv_pendingUnstakeAmount := 0;
       pv_registered := if decide (stake < MIN_PROVIDER_STAKE) then false else pv_registered p |} (pr_enter true w) in
  let! w := pr_send r (c_sender c) amount w in
  Ok (pr_enter false (emit (ProviderStakeWithdrawn (c_sender c) amount) w)).

Definition slashProvider (provider : list byte) (amount : Z) (reasonId : list byte) (caller : list byte) w
    : result (World * Z) :=
  guard! (caller ∈ pr_slashers (w_pr w)) else UnauthorizedCaller in
  let p := provider_at provider w in
  if decide (pv_stake p = 0) then Ok (w, 0)
  else
    let slashed := if decide (amount > pv_stake p) then pv_stake p else amount in
    let! stake := sub256 (pv_stake p) slashed in
    Ok (emit (ProviderSlashed provider slashed reasonId) (put_provider provider
      {| pv_stake := stake; pv_unstakeReleaseBlock := pv_unstakeReleaseBlock p;
         pv_pendingUnstakeAmount := pv_pendingUnstakeAmount p;
         pv_registered := if decide (stake < MIN_PROVIDER_STAKE) then false else pv_registered p |} w), slashed).

Definition getProviderStake (provider : list byte) w : Z := pv_stake (provider_at provider w).
Definition isProviderActive (provider : list byte) w : bool :=
  let p := provider_at provider w in
  pv_registered p && bool_decide (MIN_PROVIDER_STAKE <= pv_stake p) && bool_decide (pv_unstakeReleaseBlock p = 0).

(** ** ChunkDisputeResolver.sol *)

Definition EXPIRED_DISPUTE_REASON : list byte := Keccak256Hash (bytes_of "EXPIRED_DISPUTE_SLASH").

Definition raiseChunkDispute (recipient : list byte) (roundId localIndex : Z) (evidenceHash : list byte) c w
    : result World :=
  let sender := c_sender c in
  let dKey := disputeKey sender recipient roundId localIndex in
  guard! (ds_status (dispute_at dKey w) = DNone) else DisputeAlreadyOpen in
  guard! (getRoundStatus sender recipient roundId w = Open) else UnauthorizedCaller in
  let! deadline := add256 (number c) DISPUTE_RESPONSE_WINDOW in
  let rdKey := roundDisputeKey sender recipient roundId in
  let! n := add256 (pending_at rdKey w) 1 in
  Ok (emit (DisputeRaised sender recipient roundId localIndex deadline) (put_pending rdKey n (put_dispute dKey
    {| ds_status := DOpen; ds_evidenceHash := evidenceHash; ds_raisedBlock := number c;
       ds_deadlineBlock := deadline |} w))).

(** [if (pendingDisputeCount[k] > 0) pendingDisputeCount[k] -= 1]. *)
Definition drop_pending (rdKey : list byte) w : World :=
  if decide (pending_at rdKey w > 0) then put_pending rdKey (pending_at rdKey w - 1) w else w.

Definition respondToDispute (sender : list byte) (roundId localIndex : Z) (chunk : list byte)
    (merkleProof : list (list byte)) (merkleRoot : list byte) c w : result World :=
  let recipient := c_sender c in
  let dKey := disputeKey sender recipient roundId localIndex in
  let dispute := dispute_at dKey w in
  guard! (ds_status dispute = DOpen) else DisputeNotOpen in
  guard! (number c <= ds_deadlineBlock dispute) else DisputeWindowElapsed in
  guard! (verifyMerkleProof chunk localIndex merkleProof merkleRoot = true) else InvalidMerkleProof in
  Ok (emit (DisputeResolvedHonest sender recipient roundId localIndex)
        (drop_pending (roundDisputeKey sender recipient roundId)
          (put_dispute dKey (set_ds_status ResolvedHonest dispute) w))).

Definition resolveExpiredDispute (sender recipient : list byte) (roundId localIndex : Z) c w : result World :=
  let dKey := disputeKey sender recipient roundId localIndex in
  let dispute := dispute_at dKey w in
  guard! (ds_status dispute = DOpen) else DisputeNotOpen in
  guard! (number c > ds_deadlineBlock dispute) else DisputeWindowNotElapsed in
  let w := drop_pending (roundDisputeKey sender recipient roundId)
             (put_dispute dKey (set_ds_status ResolvedSlashed dispute) w) in
  let stake := pv_stake (provider_at recipient w) in
  guard! (stake * SLASH_BPS < 2 ^ 256) else Panic in
  let slashAmount := stake * SLASH_BPS / 10000 in
  let! (w, slashed) := slashProvider recipient slashAmount EXPIRED_DISPUTE_REASON resolverAddr w in
  let! w := voidRound sender recipient roundId EXPIRED_DISPUTE_REASON resolverAddr w in
  Ok (emit (DisputeResolvedSlashed sender recipient roundId localIndex slashed) w).

(** ** Calls *)

(** The state-changing functions of the five ABIs. *)
Inductive operation :=
| op_openChannel (recipient : list byte)
| op_depositToChannel (recipient : list byte)
| op_initiateChannelUnlock (recipient : list byte)
| op_withdrawChannel (recipient : list byte)
| op_payoutProvider (sender recipient : list byte) (amount : Z)
| op_setPayoutEngine (engine : list byte) (authorized : bool)
| op_pc_pause | op_pc_unpause
| op_commitRoundSecret (sender : list byte) (roundId tau faceValue : Z) (recipientRandHash : list byte)
| op_settleRound (t : SolTicket) (senderSig secret : list byte)
| op_settleRoundBatch (tickets : list SolTicket) (senderSigs secrets : list (list byte))
| op_markRoundPartial (sender : list byte) (roundId : Z)
| op_claimFallbackTicket (t : SolTicket) (senderSig secret : list byte)
| op_voidRound (sender recipient : list byte) (roundId : Z) (reason : list byte)
| op_setDisputeResolver (a : list byte)
| op_se_pause | op_se_unpause
| op_registerProvider
| op_requestUnstake
| op_requestPartialUnstake (amount : Z)
| op_withdrawStake
| op_slashProvider (provider : list byte) (amount : Z) (reasonId : list byte)
| op_setSlasher (slasher : list byte) (authorized : bool)
| op_raiseChunkDispute (recipient : list byte) (roundId localIndex : Z) (evidenceHash : list byte)
| op_respondToDispute (sender : list byte) (roundId localIndex : Z) (chunk : list byte)
    (merkleProof : list (list byte)) (merkleRoot : list byte)
| op_resolveExpiredDispute (sender recipient : list byte) (roundId localIndex : Z).

Record ticket_decodes (t : SolTicket) : Prop := {
  td_sender : length (tk_sender t) = 20%nat;
  td_recipient : length (tk_recipient t) = 20%nat;
  td_round : is_u256 (tk_roundId t);
  td_index : is_u256 (tk_localIndex t);
  td_face : is_u256 (tk_faceValue t);
  td_prob : is_u256 (tk_winProb t);
  td_nonce : is_u256 (tk_senderNonce t);
}.
#[global] Instance ticket_decodes_dec t : Decision (ticket_decodes t).
Proof.
  refine (cast_if (decide (length (tk_sender t) = 20%nat ∧ length (tk_recipient t) = 20%nat ∧
    is_u256 (tk_roundId t) ∧ is_u256 (tk_localIndex t) ∧ is_u256 (tk_faceValue t) ∧ is_u256 (tk_winProb t) ∧
    is_u256 (tk_senderNonce t)))); abstract (destruct_and?; first [by split|intros []; tauto]).
Defined.

Abbreviation bytes32 b := (length b = 32%nat).
Abbreviation address b := (length b = 20%nat).

(** The values calldata can hold. *)
Definition abi_decodes (o : operation) : Prop :=
  match o with
  | op_openChannel a | op_depositToChannel a | op_initiateChannelUnlock a | op_withdrawChannel a
  | op_setDisputeResolver a | op_setPayoutEngine a _ | op_setSlasher a _ => address a
  | op_payoutProvider s r v => address s ∧ address r ∧ is_u256 v
  | op_commitRoundSecret s id tau v h => address s ∧ is_u256 id ∧ is_u256 tau ∧ is_u256 v ∧ bytes32 h
  | op_settleRound t _ secret | op_claimFallbackTicket t _ secret => ticket_decodes t ∧ bytes32 secret
  | op_settleRoundBatch ts _ secrets => Forall ticket_decodes ts ∧ Forall (λ b, bytes32 b) secrets
  | op_markRoundPartial s id => address s ∧ is_u256 id
  | op_voidRound s r id h => address s ∧ address r ∧ is_u256 id ∧ bytes32 h
  | op_requestPartialUnstake v => is_u256 v
  | op_slashProvider p v h => address p ∧ is_u256 v ∧ bytes32 h
  | op_raiseChunkDispute r id i h => address r ∧ is_u256 id ∧ is_u256 i ∧ bytes32 h
  | op_respondToDispute s id i _ proof h =>
      address s ∧ is_u256 id ∧ is_u256 i ∧ Forall (λ b, bytes32 b) proof ∧ bytes32 h
  | op_resolveExpiredDispute s r id i => address s ∧ address r ∧ is_u256 id ∧ is_u256 i
  | op_pc_pause | op_pc_unpause | op_se_pause | op_se_unpause | op_registerProvider | op_requestUnstake
  | op_withdrawStake => True
  end.
#[global] Instance abi_decodes_dec o : Decision (abi_decodes o).
Proof. destruct o; simpl; apply _. Defined.

(** Where the value of a payable call goes. *)
Definition credit (o : operation) (v : Z) w : World :=
  match o with
  | op_openChannel _ | op_depositToChannel _ => pc_add v w
  | op_registerProvider => pr_add v w
  | _ => w
  end.
Definition payable (o : operation) : bool :=
  match o with op_openChannel _ | op_depositToChannel _ | op_registerProvider => true | _ => false end.

(** One call from outside the contracts; the [i]-th transfer it makes goes to
    receiver [rs i]. *)
Definition run (o : operation) (rs : nat → receiver) c w : result World :=
  guard! (c_sender c ∉ contracts ∧ is_u256 (c_value c) ∧ abi_decodes o ∧ (payable o = true ∨ c_value c = 0))
  else BadCalldata in
  let w := credit o (c_value c) w in
  match o with
  | op_openChannel r => openChannel r c w
  | op_depositToChannel r => depositToChannel r c w
  | op_initiateChannelUnlock r => initiateChannelUnlock r c w
  | op_withdrawChannel r => withdrawChannel r (rs 0%nat) c w
  | op_payoutProvider s r v => payoutProvider s r v (rs 0%nat) (c_sender c) w
  | op_setPayoutEngine e b => setPayoutEngine e b c w
  | op_pc_pause => pc_pause c w
  | op_pc_unpause => pc_unpause c w
  | op_commitRoundSecret s id tau v h => commitRoundSecret s id tau v h c w
  | op_settleRound t sig secret => settleRound t sig secret (rs 0%nat) c w
  | op_settleRoundBatch ts sigs secrets => settleRoundBatch ts sigs secrets rs c w
  | op_markRoundPartial s id => markRoundPartial s id c w
  | op_claimFallbackTicket t sig secret => claimFallbackTicket t sig secret (rs 0%nat) c w
  | op_voidRound s r id h => voidRound s r id h (c_sender c) w
  | op_setDisputeResolver a => setDisputeResolver a c w
  | op_se_pause => se_pause c w
  | op_se_unpause => se_unpause c w
  | op_registerProvider => registerProvider c w
  | op_requestUnstake => requestUnstake c w
  | op_requestPartialUnstake v => requestPartialUnstake v c w
  | op_withdrawStake => withdrawStake (rs 0%nat) c w
  | op_slashProvider p v h => let! (w, _) := slashProvider p v h (c_sender c) w in Ok w
  | op_setSlasher a b => setSlasher a b c w
  | op_raiseChunkDispute r id i h => raiseChunkDispute r id i h c w
  | op_respondToDispute s id i chunk proof h => respondToDispute s id i chunk proof h c w
  | op_resolveExpiredDispute s r id i => resolveExpiredDispute s r id i c w
  end.

(** A call, and for each transfer it makes whether the recipient accepts it
    and the calls made meanwhile. *)
Inductive tx := Tx (sender : list byte) (value : Z) (op : operation) (transfers : list (bool * list tx)).

Fixpoint exec (b : Block) (t : tx) w {struct t} : result World :=
  match t with
  | Tx sender value op transfers =>
      let rs := map (λ '(accepts, calls), λ w : World,
        if accepts : bool then
          Some (foldl (λ w t', match exec b t' w with Ok w' => w' | Err _ => w end) w calls)
        else None) transfers in
      run op (λ i, default Some (rs !! i)) {| c_sender := sender; c_value := value; c_block := b |} w
  end.

(** ** Reasoning about trees of calls *)

Lemma lottery_tx_ind (P : tx → Prop) :
  (∀ sender value op transfers, Forall (λ x, Forall P x.2) transfers → P (Tx sender value op transfers)) →
  ∀ t, P t.
Proof.
  intros HP. fix IH 1. intros [sender value op trs]. apply HP.
  induction trs as [|[b cs] trs IHl]; constructor; [simpl|exact IHl].
  induction cs as [|c cs IHc]; constructor; [apply IH|exact IHc].
Qed.

Definition receiver_in (R : relation World) (r : receiver) : Prop := ∀ a b, r a = Some b → R a b.

(** A preorder that every call respects when the receivers do is respected by
    every tree of calls. *)
Lemma lottery_exec_rel (R : relation World) `{!PreOrder R} :
  (∀ o rs c w w', (∀ i : nat, receiver_in R (rs i)) → run o rs c w = Ok w' → R w w') →
  ∀ b t w w', exec b t w = Ok w' → R w w'.
Proof.
  intros Hrun b t. induction t as [sender value op trs IH] using lottery_tx_ind. intros w w' Hx. cbn [exec] in Hx.
  eapply Hrun; [|exact Hx]. intros i x y. cbv beta. rewrite list_lookup_fmap.
  destruct (trs !! i) as [[acc cs]|] eqn:Ei; [|intros [= ->]; reflexivity].
  rewrite Forall_lookup in IH. specialize (IH _ _ Ei). simpl in *. destruct acc; [|done]. intros [= <-].
  clear Ei. revert x. induction IH as [|c cs Hc _ IHcs]; intros x; [reflexivity|]. simpl.
  etransitivity; [|apply IHcs]. destruct (exec b c x) eqn:E; [by eapply Hc|reflexivity].
Qed.

(** A call that succeeded, with receivers that respect the preorder. *)
Lemma lottery_exec_run (R : relation World) `{!PreOrder R} :
  (∀ o rs c w w', (∀ i : nat, receiver_in R (rs i)) → run o rs c w = Ok w' → R w w') →
  ∀ b sender value op trs w w', exec b (Tx sender value op trs) w = Ok w' →
  ∃ rs, (∀ i : nat, receiver_in R (rs i)) ∧
        run op rs {| c_sender := sender; c_value := value; c_block := b |} w = Ok w'.
Proof.
  intros Hrun b sender value op trs w w' Hx. cbn [exec] in Hx. eexists. split; [|exact Hx].
  intros i x y. cbv beta. rewrite list_lookup_fmap.
  destruct (trs !! i) as [[acc cs]|]; [|intros [= ->]; reflexivity]. simpl. destruct acc; [|done]. intros [= <-].
  revert x. induction cs as [|c cs IHcs]; intros x; [reflexivity|]. simpl.
  etransitivity; [|apply IHcs]. destruct (exec b c x) eqn:E; [by eapply lottery_exec_rel|reflexivity].
Qed.

(** A guard that held. *)
Lemma guard_ok {A} (P : Prop) `{!Decision P} e (k : result A) a :
  (guard! P else e in k) = Ok a → P ∧ k = Ok a.
Proof. case_decide; [done|discriminate]. Qed.
End contracts.

(** ** A concrete deployment *)

#[global, program] Instance ToyLottery : Lottery (H := ToyEthereum) := {|
  channelAddr := replicate 20 xa1; engineAddr := replicate 20 xa2; registryAddr := replicate 20 xa3;
  resolverAddr := replicate 20 xa4; entropyAddr := replicate 20 xa5; configAddr := replicate 20 xa6;
  lotteryChain := 1337;
  hashTypedDataV4 h := sha256 ([x19; x01] ++
    sha256 (sha256 (bytes_of
        "EIP712Domain(string name,string version,uint256 chainId,address verifyingContract)")
      ++ sha256 (bytes_of "CIPHER Payment Protocol") ++ sha256 (bytes_of "1.0.0")
      ++ uint_word 1337 ++ address_word (replicate 20 xa5)) ++ h);
  ECDSA_recover := toy_ec_recover;
  otherResolver _ _ _ _ := Ok false |}.
Next Obligation. apply (bool_decide_unpack _). vm_compute. exact I. Qed.
Next Obligation. done. Qed.
Next Obligation. done. Qed.
Next Obligation. done. Qed.
Next Obligation.
  intros d k rs v Hk Hd Hl _ E. cbn in Hk, E. unfold toy_ec_sign in E. injection E as E.
  assert (H20 : length (take 20 k) = 20%nat) by (rewrite length_take; lia).
  change (d ++ replicate 12 x00 ++ take 20 k ++ [x01] = rs ++ [v]) in E. rewrite !app_assoc in E.
  apply app_inj_1 in E as [<- _]; [|rewrite !length_app, length_replicate, H20, Hd, Hl; done].
  unfold toy_ec_recover. rewrite <- !app_assoc, decide_True by (by rewrite take_app_length').
  rewrite app_assoc, drop_app_length' by (rewrite length_app, length_replicate, Hd; done).
  by rewrite take_app_length' by done.
Qed.

(** Blocks whose hashes are derived from their numbers. *)
Definition toy_block (n : Z) : Block := {| bl_number := n; bl_hash i := sha256 (be_bytes 8 i) |}.

Definition toy_owner : list byte := replicate 20 x0a.
Definition toy_consumer : list byte := replicate 20 x07.
Definition toy_provider : list byte := replicate 20 x11.
Definition toy_secret : list byte := replicate 32 x5e.

(** A channel of 5000 wei, a staked provider and a round of four tickets of
    1000 wei, committed in block 10. *)
Definition toy_opening : list tx :=
  [Tx toy_owner 0 (op_setPayoutEngine engineAddr true) [];
   Tx toy_consumer 5000 (op_openChannel toy_provider) [];
   Tx toy_provider (2 * 10 ^ 18) op_registerProvider [];
   Tx toy_provider 0 (op_commitRoundSecret toy_consumer 1 4 1000 (sha256 toy_secret)) []].

Definition exec_all (b : Block) (ts : list tx) (w : World) : World :=
  foldl (λ w t, match exec b t w with Ok w' => w' | Err _ => w end) w ts.

Definition toy_open : World := exec_all (toy_block 10) toy_opening (deployed toy_owner).
