(* ===== verification/LotterySafety.v ===== *)
(** * The lottery contracts: money, rounds and tickets

    What holds of the contracts of Lottery.v in every history of calls, with
    recipients of transfers that call back into them: the balances cover what
    is owed, a round is paid once, a ticket counts once; and how the Go client
    and its tickets get there. *)

From S2P Require Import Prelude Bindings Tickets EscrowContract Lottery.
Import ProtocolConfig.

(** ** Sums over maps *)

Definition msum {K A} `{Countable K} (f : A → Z) (m : gmap K A) : Z := map_fold (λ _ a n, f a + n) 0 m.

Lemma msum_delete {K A} `{Countable K} (f : A → Z) (m : gmap K A) k :
  msum f m = from_option f 0 (m !! k) + msum f (delete k m).
Proof.
  destruct (m !! k) as [a|] eqn:E; simpl; [|by rewrite delete_id].
  unfold msum. rewrite <- (map_fold_delete_L (λ _ a n, f a + n) 0 k a m); [done|intros; lia|done].
Qed.
Lemma msum_insert {K A} `{Countable K} (f : A → Z) (m : gmap K A) k a :
  msum f (<[k := a]> m) = msum f m - from_option f 0 (m !! k) + f a.
Proof.
  rewrite (msum_delete f (<[k := a]> m) k), lookup_insert_eq, delete_insert_eq, (msum_delete f m k). simpl. lia.
Qed.
Lemma msum_nonneg {K A} `{Countable K} (f : A → Z) (m : gmap K A) :
  (∀ k a, m !! k = Some a → 0 <= f a) → 0 <= msum f m.
Proof.
  unfold msum. induction m as [|k a m Hk _ IH] using map_first_key_ind; [done|]. intros Hf.
  rewrite map_fold_insert_L; [|intros; lia|done].
  assert (0 <= f a) by (eapply Hf; by rewrite lookup_insert_eq).
  assert (0 <= map_fold (λ _ a n, f a + n) 0 m); [|lia].
  apply IH. intros k' a' Hk'. apply (Hf k'). rewrite lookup_insert_ne; [done|]. congruence.
Qed.
Lemma msum_lookup {K A} `{Countable K} (f : A → Z) (m : gmap K A) k a :
  (∀ k a, m !! k = Some a → 0 <= f a) → m !! k = Some a → f a <= msum f m.
Proof.
  intros Hf Hk. rewrite (msum_delete f m k), Hk. simpl.
  assert (0 <= msum f (delete k m)); [|lia].
  apply msum_nonneg. intros k' a' Ha. apply lookup_delete_Some in Ha as [_ Ha]. eauto.
Qed.

(** Taking a successful call apart. *)
Ltac step_ok H :=
  cbv zeta in H;
  first [apply guard_ok in H; let G := fresh "G" in destruct H as [G H]
        |apply rbind_ok in H; let x := fresh "x" in let E := fresh "E" in destruct H as (x & E & H)].
Ltac steps_ok H := repeat step_ok H.

Lemma add256_ok a b z : add256 a b = Ok z → z = a + b ∧ z < 2 ^ 256.
Proof. unfold add256. case_decide; [|done]. intros [= <-]. done. Qed.
Lemma sub256_ok a b z : sub256 a b = Ok z → z = a - b ∧ b <= a.
Proof. unfold sub256. case_decide; [|done]. intros [= <-]. done. Qed.

(** ** The balances *)

Definition left_in (ch : Channel) : Z := ch_totalDeposited ch - ch_settledAmount ch - ch_withdrawnAmount ch.

Record channel_ok (ch : Channel) : Prop := {
  co_settled : 0 <= ch_settledAmount ch;
  co_withdrawn : 0 <= ch_withdrawnAmount ch;
  co_covered : 0 <= left_in ch;
  co_width : ch_totalDeposited ch < 2 ^ 256;
}.

Lemma no_channel_ok : channel_ok no_channel.
Proof. split; vm_compute; congruence. Qed.

Definition slashed_in (e : event) : Z := match e with ProviderSlashed _ v _ => v | _ => 0 end.
Definition total_slashed (l : list event) : Z := foldr (λ e n, slashed_in e + n) 0 l.

Lemma total_slashed_cons e l : total_slashed (e :: l) = slashed_in e + total_slashed l.
Proof. done. Qed.
#[global] Arguments total_slashed : simpl never.
#[global] Arguments msum : simpl never.

(** The balances of the two contracts that hold money, up to [kp] and [kr]. *)
Record balanced (kp kr : Z) (w : World) : Prop := {
  ba_channel : pc_balance (w_pc w) = kp + msum left_in (pc_channels (w_pc w));
  ba_channels : ∀ k ch, pc_channels (w_pc w) !! k = Some ch → channel_ok ch;
  ba_registry : pr_balance (w_pr w) = kr + msum pv_stake (pr_providers (w_pr w)) + total_slashed (w_log w);
  ba_stakes : ∀ a p, pr_providers (w_pr w) !! a = Some p → 0 <= pv_stake p;
  ba_slashed : 0 <= total_slashed (w_log w);
}.

Lemma channel_at_ok kp kr w k : balanced kp kr w → channel_ok (channel_at k w).
Proof.
  intros []. unfold channel_at. destruct (_ !! k) eqn:E; [by eapply ba_channels0|apply no_channel_ok].
Qed.
Lemma provider_at_stake kp kr w a : balanced kp kr w → 0 <= pv_stake (provider_at a w).
Proof.
  intros []. unfold provider_at. destruct (_ !! a) eqn:E; [by eapply ba_stakes0|done].
Qed.

Lemma bal_put_channel kp kr w k ch :
  balanced kp kr w → channel_ok ch → balanced (kp + left_in (channel_at k w) - left_in ch) kr (put_channel k ch w).
Proof.
  intros [] Hch. split; try done; cbn.
  - rewrite msum_insert. unfold channel_at. destruct (pc_channels (w_pc w) !! k); cbn; [lia|].
    change (left_in no_channel) with 0. lia.
  - intros k' ch'. destruct (decide (k' = k)) as [->|].
    + rewrite lookup_insert_eq. by intros [= <-].
    + rewrite lookup_insert_ne by done. apply ba_channels0.
Qed.
Lemma bal_put_provider kp kr w a p :
  balanced kp kr w → 0 <= pv_stake p →
  balanced kp (kr + pv_stake (provider_at a w) - pv_stake p) (put_provider a p w).
Proof.
  intros [] Hp. split; try done; cbn.
  - rewrite msum_insert. unfold provider_at. destruct (pr_providers (w_pr w) !! a); cbn; lia.
  - intros a' p'. destruct (decide (a' = a)) as [->|].
    + rewrite lookup_insert_eq. by intros [= <-].
    + rewrite lookup_insert_ne by done. apply ba_stakes0.
Qed.
Lemma bal_pc_add kp kr w v : balanced kp kr w → balanced (kp + v) kr (pc_add v w).
Proof. intros []. split; try done. cbn. lia. Qed.
Lemma bal_pr_add kp kr w v : balanced kp kr w → balanced kp (kr + v) (pr_add v w).
Proof. intros []. split; try done. cbn. lia. Qed.
Lemma bal_emit kp kr w e : slashed_in e = 0 → balanced kp kr w → balanced kp kr (emit e w).
Proof. intros He []. split; try done; cbn; rewrite total_slashed_cons, He; lia. Qed.
Lemma bal_slash kp kr w p v h :
  0 <= v → balanced kp kr w → balanced kp (kr - v) (emit (ProviderSlashed p v h) w).
Proof. intros Hv []. split; try done; cbn; rewrite total_slashed_cons; cbn [slashed_in]; lia. Qed.

(** Everything else leaves the money alone. *)
Lemma bal_same kp kr w w' :
  pc_balance (w_pc w') = pc_balance (w_pc w) → pc_channels (w_pc w') = pc_channels (w_pc w) →
  pr_balance (w_pr w') = pr_balance (w_pr w) → pr_providers (w_pr w') = pr_providers (w_pr w) →
  w_log w' = w_log w → balanced kp kr w → balanced kp kr w'.
Proof. intros H1 H2 H3 H4 H5 []. split; rewrite ?H1, ?H2, ?H3, ?H4, ?H5; done. Qed.

Ltac bal_from H := eapply bal_same; [..|exact H]; reflexivity.

Create HintDb lottery.
#[export] Hint Extern 1 (balanced _ _ (emit _ _)) => (apply bal_emit; [reflexivity|]) : lottery.
#[export] Hint Extern 2 (balanced _ _ _) => (eapply bal_same; [..|eassumption]; reflexivity) : lottery.

Section safety.
Context {GE : GoEthereum} {LO : Lottery}.
Implicit Types (c : Call) (w : World).

(** The relation that receivers keep. *)
Definition keeps_balance : relation World := λ w w', balanced 0 0 w → balanced 0 0 w'.
#[local] Instance keeps_balance_po : PreOrder keeps_balance.
Proof. split; [intros x H; exact H|]. intros x y z H1 H2 H. by apply H2, H1. Qed.

Lemma bal_pc_send r to v w w' :
  receiver_in keeps_balance r → balanced v 0 w → pc_send r to v w = Ok w' → balanced 0 0 w'.
Proof.
  intros Hr Hb Hs. unfold pc_send in Hs. step_ok Hs. destruct (r _) as [w1|] eqn:E; [|done]. injection Hs as <-.
  eapply Hr; [exact E|]. apply (bal_pc_add _ _ _ (- v)) in Hb. rewrite Z.add_opp_diag_r in Hb.
  bal_from Hb.
Qed.
Lemma bal_pr_send r to v w w' :
  receiver_in keeps_balance r → balanced 0 v w → pr_send r to v w = Ok w' → balanced 0 0 w'.
Proof.
  intros Hr Hb Hs. unfold pr_send in Hs. step_ok Hs. destruct (r _) as [w1|] eqn:E; [|done]. injection Hs as <-.
  eapply Hr; [exact E|]. apply (bal_pr_add _ _ _ (- v)) in Hb. rewrite Z.add_opp_diag_r in Hb.
  bal_from Hb.
Qed.

Lemma available_ok ch z : channel_ok ch → available ch = Ok z → z = left_in ch ∧ 0 <= z.
Proof.
  intros [] H. unfold available in H. step_ok H. apply sub256_ok in E as [-> _], H as [-> _].
  unfold left_in in *. lia.
Qed.

Lemma payout_balanced s r v rc caller w w' :
  receiver_in keeps_balance rc → 0 <= v → balanced 0 0 w →
  payoutProvider s r v rc caller w = Ok w' → balanced 0 0 w'.
Proof.
  intros Hr Hv Hb H. unfold payoutProvider in H. steps_ok H. injection H as <-.
  pose proof (channel_at_ok _ _ _ (getChannelKey s r) Hb) as Hch.
  apply available_ok in E as [-> _]; [|done]. apply add256_ok in E0 as [-> _]. destruct Hch.
  assert (Hb1 : balanced 0 0 (pc_enter true w)) by (bal_from Hb).
  set (ch' := {| ch_totalDeposited := _ |}) in E1.
  assert (Hb2 := bal_put_channel _ _ _ (getChannelKey s r) ch' Hb1).
  change (channel_at _ (pc_enter true w)) with (channel_at (getChannelKey s r) w) in Hb2.
  replace (0 + _ - _) with v in Hb2 by (unfold ch', left_in; cbn; lia).
  eapply bal_pc_send in E1; [|done|apply Hb2; split; unfold ch', left_in in *; cbn; lia].
  apply (bal_emit _ _ _ (ChannelPayoutExecuted s r v)) in E1; [|done]. bal_from E1.
Qed.

Lemma withdraw_balanced r rc c w w' :
  receiver_in keeps_balance rc → balanced 0 0 w → withdrawChannel r rc c w = Ok w' → balanced 0 0 w'.
Proof.
  intros Hr Hb Hx. unfold withdrawChannel in Hx. steps_ok Hx. injection Hx as <-.
  set (key := getChannelKey (c_sender c) r) in *. pose proof (channel_at_ok _ _ _ key Hb) as Hch.
  apply available_ok in E as [-> _]; [|done]. apply add256_ok in E0 as [-> _]. destruct Hch.
  assert (Hb1 : balanced 0 0 (pc_enter true w)) by (bal_from Hb).
  set (ch' := {| ch_totalDeposited := _ |}) in E1.
  assert (Hb2 := bal_put_channel _ _ _ key ch' Hb1).
  change (channel_at _ (pc_enter true w)) with (channel_at key w) in Hb2.
  replace (0 + _ - _) with (left_in (channel_at key w)) in Hb2 by (unfold ch', left_in; cbn; lia).
  eapply bal_pc_send in E1; [|done|apply Hb2; split; unfold ch', left_in in *; cbn; lia].
  apply (bal_emit _ _ _ (ChannelWithdrawn (c_sender c) r (left_in (channel_at key w)))) in E1; [|done]. bal_from E1.
Qed.

Lemma deposit_balanced ev r c w w' :
  (∀ v, slashed_in (ev v) = 0) → 0 <= c_value c → balanced (c_value c) 0 w →
  add_deposit ev r c w = Ok w' → balanced 0 0 w'.
Proof.
  intros Hev Hv Hb Hx. unfold add_deposit in Hx. steps_ok Hx. injection Hx as <-.
  set (key := getChannelKey (c_sender c) r) in *. pose proof (channel_at_ok _ _ _ key Hb) as [].
  apply add256_ok in E as [-> Hlt]. apply bal_emit; [apply Hev|]. set (ch' := {| ch_totalDeposited := _ |}).
  assert (Hb2 := bal_put_channel _ _ _ key ch' Hb).
  replace (c_value c + _ - _) with 0 in Hb2 by (unfold ch', left_in; cbn; lia).
  apply Hb2. split; unfold ch', left_in in *; cbn; lia.
Qed.

Lemma unlock_balanced r c w w' : balanced 0 0 w → initiateChannelUnlock r c w = Ok w' → balanced 0 0 w'.
Proof.
  intros Hb Hx. unfold initiateChannelUnlock in Hx. steps_ok Hx. injection Hx as <-. apply bal_emit; [done|].
  set (key := getChannelKey (c_sender c) r) in *. set (ch' := {| ch_totalDeposited := _ |}).
  pose proof (channel_at_ok _ _ _ key Hb) as [].
  assert (Hb2 := bal_put_channel _ _ _ key ch' Hb).
  replace (0 + _ - _) with 0 in Hb2 by (unfold ch', left_in; cbn; lia).
  apply Hb2. by split.
Qed.

Lemma settle_balanced t sig secret rc c w w' :
  receiver_in keeps_balance rc → 0 <= tk_faceValue t → balanced 0 0 w →
  settleRoundInternal t sig secret rc c w = Ok w' → balanced 0 0 w'.
Proof.
  intros Hr Hv Hb Hx. unfold settleRoundInternal in Hx. steps_ok Hx.
  destruct x1 as [winner bh]. steps_ok Hx. injection Hx as <-. apply bal_emit; [done|].
  eapply payout_balanced; [exact Hr|exact Hv| |exact E2]. bal_from Hb.
Qed.

Lemma batch_balanced l rs c w w' :
  (∀ i, receiver_in keeps_balance (rs i)) → Forall (λ x, 0 <= tk_faceValue x.1.1) l → balanced 0 0 w →
  settle_batch l rs c w = Ok w' → balanced 0 0 w'.
Proof.
  intros Hr Hl. revert rs w Hr. induction Hl as [|[[t sig] secret] l Hv Hl IH]; intros rs w Hr Hb Hx.
  { by injection Hx as <-. }
  cbn [settle_batch] in Hx. step_ok Hx. eapply settle_balanced in E; [|done..].
  eapply IH; [|exact E|exact Hx]. intros i. apply Hr.
Qed.

Lemma guarded_balanced body w w' :
  (∀ x y, balanced 0 0 x → body x = Ok y → balanced 0 0 y) → balanced 0 0 w → guarded body w = Ok w' →
  balanced 0 0 w'.
Proof.
  intros Hbody Hb Hx. unfold guarded in Hx. steps_ok Hx. injection Hx as <-.
  apply Hbody in E; [bal_from E|bal_from Hb].
Qed.

Lemma claim_balanced t sig secret rc c w w' :
  receiver_in keeps_balance rc → 0 <= tk_faceValue t → balanced 0 0 w →
  claim_body t sig secret rc c w = Ok w' → balanced 0 0 w'.
Proof.
  intros Hr Hv Hb Hx. unfold claim_body in Hx. steps_ok Hx. injection Hx as <-. apply bal_emit; [done|].
  eapply payout_balanced; [exact Hr|exact Hv| |exact E1]. bal_from Hb.
Qed.

Lemma withdrawStake_balanced rc c w w' :
  receiver_in keeps_balance rc → balanced 0 0 w → withdrawStake rc c w = Ok w' → balanced 0 0 w'.
Proof.
  intros Hr Hb Hx. unfold withdrawStake in Hx. steps_ok Hx. injection Hx as <-.
  apply sub256_ok in E as [-> ?]. assert (Hb1 : balanced 0 0 (pr_enter true w)) by (bal_from Hb).
  set (p' := {| pv_stake := _ |}) in E0. assert (Hb2 := bal_put_provider _ _ _ (c_sender c) p' Hb1).
  change (provider_at _ (pr_enter true w)) with (provider_at (c_sender c) w) in Hb2.
  replace (0 + _ - _) with (pv_pendingUnstakeAmount (provider_at (c_sender c) w)) in Hb2 by (unfold p'; cbn; lia).
  eapply bal_pr_send in E0; [|done|apply Hb2; unfold p'; cbn; lia].
  apply (bal_emit _ _ _ (ProviderStakeWithdrawn (c_sender c) (pv_pendingUnstakeAmount (provider_at (c_sender c) w)))) in E0;
    [|done]. bal_from E0.
Qed.

Lemma slash_balanced p v h caller w w' z :
  0 <= v → balanced 0 0 w → slashProvider p v h caller w = Ok (w', z) → balanced 0 0 w'.
Proof.
  intros Hv Hb Hx. unfold slashProvider in Hx. step_ok Hx. case_decide; [by injection Hx as <- _|].
  step_ok Hx. injection Hx as <- _. apply sub256_ok in E as [-> ?].
  pose proof (provider_at_stake _ _ _ p Hb). set (z' := if decide (v > _) then _ else _) in *.
  assert (0 <= z') by (unfold z'; case_decide; lia).
  set (p' := {| pv_stake := _ |}). assert (Hb2 := bal_put_provider _ _ _ p p' Hb).
  replace (0 + _ - _) with z' in Hb2 by (unfold p'; cbn; lia).
  assert (Hp' : 0 <= pv_stake p') by (unfold p'; cbn; lia).
  pose proof (bal_slash _ _ _ p z' h ltac:(done) (Hb2 Hp')) as Hb3. by rewrite Z.sub_diag in Hb3.
Qed.

Lemma drop_pending_balanced k w : balanced 0 0 w → balanced 0 0 (drop_pending k w).
Proof. intros Hb. unfold drop_pending. case_decide; [bal_from Hb|done]. Qed.

Lemma unbonding_balanced amount c w w' :
  balanced 0 0 w → start_unbonding (provider_at (c_sender c) w) amount c w = Ok w' → balanced 0 0 w'.
Proof.
  intros Hb Hx. unfold start_unbonding in Hx. steps_ok Hx. injection Hx as <-. apply bal_emit; [done|].
  set (p' := {| pv_stake := _ |}). assert (Hb2 := bal_put_provider _ _ _ (c_sender c) p' Hb).
  replace (0 + _ - _) with 0 in Hb2 by (unfold p'; cbn; lia).
  apply Hb2. unfold p'. cbn. by eapply provider_at_stake.
Qed.

Lemma register_balanced c w w' :
  0 <= c_value c → balanced 0 (c_value c) w → registerProvider c w = Ok w' → balanced 0 0 w'.
Proof.
  intros Hv Hb Hx. unfold registerProvider in Hx. steps_ok Hx. injection Hx as <-. apply bal_emit; [done|].
  apply add256_ok in E as [-> _]. pose proof (provider_at_stake _ _ _ (c_sender c) Hb).
  set (p' := {| pv_stake := _ |}). assert (Hb2 := bal_put_provider _ _ _ (c_sender c) p' Hb).
  replace (c_value c + _ - _) with 0 in Hb2 by (unfold p'; cbn; lia).
  apply Hb2. unfold p'. cbn. lia.
Qed.

Lemma void_balanced s r id h caller w w' : balanced 0 0 w → voidRound s r id h caller w = Ok w' → balanced 0 0 w'.
Proof.
  intros Hb Hx. unfold voidRound in Hx. steps_ok Hx. injection Hx as <-. apply bal_emit; [done|]. bal_from Hb.
Qed.

Lemma resolve_balanced s r id i c w w' :
  balanced 0 0 w → resolveExpiredDispute s r id i c w = Ok w' → balanced 0 0 w'.
Proof.
  intros Hb Hx. unfold resolveExpiredDispute in Hx. steps_ok Hx. destruct x as [w1 z]. step_ok Hx.
  injection Hx as <-. apply bal_emit; [done|]. eapply void_balanced; [|exact E0].
  set (w0 := drop_pending _ _) in *.
  assert (Hb0 : balanced 0 0 w0) by (apply drop_pending_balanced; bal_from Hb).
  eapply slash_balanced; [|exact Hb0|exact E]. pose proof (provider_at_stake _ _ _ r Hb0).
  apply Z.div_pos; [unfold SLASH_BPS; lia|lia].
Qed.

(** A call that touches no money: its guards, then a record and an event. *)
Ltac no_money Hb Hx :=
  unfold setPayoutEngine, pc_pause, pc_unpause, commitRoundSecret, markRoundPartial, setDisputeResolver,
    se_pause, se_unpause, setSlasher, raiseChunkDispute in Hx;
  steps_ok Hx; injection Hx as <-; try (apply bal_emit; [done|]); bal_from Hb.

Lemma run_balanced o rs c w w' :
  (∀ i : nat, receiver_in keeps_balance (rs i)) → run o rs c w = Ok w' → keeps_balance w w'.
Proof.
  intros Hr Hx Hb. unfold run in Hx. step_ok Hx. destruct G as (_ & Hv & Habi & _).
  destruct o; cbn [credit] in Hx; cbn [abi_decodes] in Habi; try by no_money Hb Hx.
  - eapply (deposit_balanced (ChannelOpened _ _)); [done|apply Hv|exact (bal_pc_add 0 0 w (c_value c) Hb)|exact Hx].
  - eapply (deposit_balanced (ChannelDeposited _ _)); [done|apply Hv|exact (bal_pc_add 0 0 w (c_value c) Hb)|exact Hx].
  - by eapply unlock_balanced.
  - by eapply withdraw_balanced.
  - destruct Habi as (_ & _ & [? _]). by eapply payout_balanced.
  - destruct Habi as [Ht _]. eapply guarded_balanced; [|exact Hb|exact Hx]. intros x y Hx' Hy.
    eapply settle_balanced; [apply Hr|apply Ht|exact Hx'|exact Hy].
  - destruct Habi as [Ht _]. eapply guarded_balanced; [|exact Hb|exact Hx]. intros x y Hx' Hy. cbv beta in Hy.
    step_ok Hy. eapply batch_balanced; [exact Hr| |exact Hx'|exact Hy].
    apply Forall_lookup. intros i [[t sig] secret] Hi. apply lookup_zip_Some in Hi as [Hi _].
    apply lookup_zip_Some in Hi as [Hi _]. rewrite Forall_lookup in Ht. apply (Ht _ _ Hi).
  - destruct Habi as [Ht _]. eapply guarded_balanced; [|exact Hb|exact Hx]. intros x y Hx' Hy.
    eapply claim_balanced; [apply Hr|apply Ht|exact Hx'|exact Hy].
  - eapply register_balanced; [apply Hv|exact (bal_pr_add 0 0 w (c_value c) Hb)|exact Hx].
  - unfold requestUnstake in Hx. do 2 step_ok Hx. by eapply unbonding_balanced.
  - unfold requestPartialUnstake in Hx. do 3 step_ok Hx. do 2 step_ok Hx. by eapply unbonding_balanced.
  - by eapply withdrawStake_balanced.
  - step_ok Hx. destruct x as [w1 z]. injection Hx as <-. destruct Habi as (_ & [? _] & _). by eapply slash_balanced.
  - unfold respondToDispute in Hx. steps_ok Hx. injection Hx as <-. apply bal_emit; [done|].
    apply drop_pending_balanced. bal_from Hb.
  - by eapply resolve_balanced.
Qed.

(** ** Histories *)

(** Worlds that transactions, in any blocks, lead to. *)
Inductive reached (w0 : World) : World → Prop :=
| re_start : reached w0 w0
| re_exec b t w w' : reached w0 w → exec b t w = Ok w' → reached w0 w'.

Lemma reached_rel (R : relation World) `{!PreOrder R} w0 w :
  (∀ o rs c w w', (∀ i : nat, receiver_in R (rs i)) → run o rs c w = Ok w' → R w w') →
  reached w0 w → R w0 w.
Proof.
  intros Hrun. induction 1 as [|b t w w' _ IH Hx]; [reflexivity|].
  transitivity w; [done|]. by eapply lottery_exec_rel.
Qed.

Lemma deployed_balanced owner : balanced 0 0 (deployed owner).
Proof. split; done. Qed.

Lemma reached_balanced owner w : reached (deployed owner) w → balanced 0 0 w.
Proof. intros Hr. apply (reached_rel keeps_balance) in Hr; [apply Hr, deployed_balanced|apply run_balanced]. Qed.

(** What a channel has left is there. *)
Lemma reached_channel owner w k :
  reached (deployed owner) w →
  let ch := channel_at k w in
  channel_ok ch ∧ available ch = Ok (left_in ch) ∧ left_in ch <= pc_balance (w_pc w).
Proof.
  intros Hb%reached_balanced ch. pose proof Hb as []. pose proof (channel_at_ok _ _ _ k Hb) as Hok. fold ch in Hok.
  split; [done|]. destruct Hok as [Hs Hd Hc Ht]. unfold left_in in Hc. split.
  - unfold available, sub256. rewrite decide_True by lia. cbn [rbind]. rewrite decide_True by lia. done.
  - rewrite ba_channel0, Z.add_0_l. unfold ch, channel_at.
    destruct (pc_channels (w_pc w) !! k) as [ch'|] eqn:E; simpl.
    + eapply msum_lookup; [|exact E]. intros k' x Hx. apply (ba_channels0 _ _ Hx).
    + change (left_in no_channel) with 0. apply msum_nonneg. intros k' x Hx. apply (ba_channels0 _ _ Hx).
Qed.

Lemma reached_stake owner w a :
  reached (deployed owner) w → 0 <= pv_stake (provider_at a w) <= pr_balance (w_pr w).
Proof.
  intros Hb%reached_balanced. pose proof Hb as [_ _ Hreg Hst Hsl]. pose proof (provider_at_stake _ _ _ a Hb). split; [done|].
  rewrite Hreg. unfold provider_at in *. destruct (pr_providers (w_pr w) !! a) as [p|] eqn:E; simpl in *.
  - pose proof (msum_lookup pv_stake _ _ _ Hst E). lia.
  - pose proof (msum_nonneg pv_stake _ Hst). lia.
Qed.

(** C6: The lottery contracts are solvent: in every history of calls, by
    anyone, with recipients of transfers that call the contracts again, the
    channel contract holds exactly the sum of what its channels have left and
    pays no channel more than was deposited in it, and the registry holds
    exactly the providers' stakes and what has been slashed; in particular
    slashed stake never leaves the registry. *)
Theorem lottery_solvent owner w :
  reached (deployed owner) w →
  pc_balance (w_pc w) = msum left_in (pc_channels (w_pc w)) ∧
  (∀ sender recipient, let ch := channel_at (getChannelKey sender recipient) w in
     0 <= ch_settledAmount ch ∧ 0 <= ch_withdrawnAmount ch ∧
     ch_settledAmount ch + ch_withdrawnAmount ch <= ch_totalDeposited ch < 2 ^ 256 ∧
     channelBalance sender recipient w = Ok (left_in ch) ∧ left_in ch <= pc_balance (w_pc w)) ∧
  pr_balance (w_pr w) = msum pv_stake (pr_providers (w_pr w)) + total_slashed (w_log w) ∧
  (∀ a, 0 <= pv_stake (provider_at a w) <= pr_balance (w_pr w)).
Proof.
  intros Hw. pose proof Hw as Hb%reached_balanced. pose proof Hb as []. split; [lia|]. split_and!; [|lia|].
  - intros s r ch. destruct (reached_channel owner w (getChannelKey s r) Hw) as (Hok & Ha & Hl).
    fold ch in Hok, Ha, Hl. destruct Hok as [Hs Hd Hc Ht]. unfold left_in in Hc. split_and!; try done; lia.
  - intros a. by apply (reached_stake owner).
Qed.

(** ** The life of a round *)

Definition rank (st : RoundStatus) : Z :=
  match st with Uncommitted => 0 | Open => 1 | PartialFallback => 2 | Settled => 3 | Voided => 4 end.
Abbreviation status k w := (rd_status (round_at k w)).
Abbreviation closed k w := (3 <= rank (status k w)).

(** How many events of the log satisfy [f]. *)
Definition tally (f : event → bool) (w : World) : Z :=
  foldr (λ e n, (if f e then 1 else 0) + n) 0 (w_log w).
Lemma tally_emit f e w : tally f (emit e w) = (if f e then 1 else 0) + tally f w.
Proof. done. Qed.

(** The payments of the round with key [k]: by settlement ([RoundSettled]) and
    ticket by ticket in the fallback ([FallbackTicketClaimed]). *)
Definition settles (k : list byte) (e : event) : bool :=
  match e with RoundSettled s r id _ _ => bool_decide (round_key s r id = k) | _ => false end.
Definition claims (k : list byte) (e : event) : bool :=
  match e with FallbackTicketClaimed s r id _ _ => bool_decide (round_key s r id = k) | _ => false end.
Definition settlements (k : list byte) (w : World) : Z := tally (settles k) w.
Definition fallbacks (k : list byte) (w : World) : Z := tally (claims k) w.

(** Statuses only advance, the committed terms are kept; only a round that is
    neither partial, settled nor void settles, once, and it has no fallback
    payment then nor later; only a partial round pays fallbacks; used tickets
    stay used. *)
Record rounds_le (w w' : World) : Prop := {
  rl_rank : ∀ k, rank (status k w) <= rank (status k w');
  rl_terms : ∀ k, status k w ≠ Uncommitted →
    set_round_status Open (round_at k w') = set_round_status Open (round_at k w);
  rl_past : ∀ k, 2 <= rank (status k w) → settlements k w' = settlements k w;
  rl_closed : ∀ k, closed k w → fallbacks k w' = fallbacks k w;
  rl_partial : ∀ k, fallbacks k w' = fallbacks k w ∨
    (fallbacks k w < fallbacks k w' ∧ 2 <= rank (status k w'));
  rl_once : ∀ k, settlements k w' = settlements k w ∨
    (settlements k w' = settlements k w + 1 ∧ closed k w' ∧ fallbacks k w' = fallbacks k w);
  rl_used : se_used (w_se w) ⊆ se_used (w_se w') ∧ se_usedFallback (w_se w) ⊆ se_usedFallback (w_se w');
}.

#[local] Instance rounds_le_po : PreOrder rounds_le.
Proof.
  split.
  - intros w. by split; auto.
  - intros x y z [A1 A2 A3 AC AP A4 [A5 A6]] [B1 B2 B3 BC BP B4 [B5 B6]]. split.
    + intros k. by transitivity (rank (status k y)).
    + intros k Hk. rewrite B2, A2; [done|done|]. specialize (A1 k). destruct (status k x); try done;
        destruct (status k y); try done; cbn in A1; lia.
    + intros k Hk. rewrite B3, A3; [done|done|]. specialize (A1 k). lia.
    + intros k Hk. rewrite BC, AC; [done|done|]. specialize (A1 k). lia.
    + intros k. specialize (B1 k). destruct (AP k) as [<-|[Hs Hc]]; [apply BP|]. right.
      destruct (BP k) as [->|[? ?]]; split; lia.
    + intros k. specialize (B1 k). destruct (A4 k) as [Hs|(Hs & Hc & Hf)].
      * destruct (B4 k) as [->|(Ht & Hc & Hf)]; [by left|right]. rewrite Ht, Hs. split_and!; [done..|].
        destruct (AP k) as [E|[_ Hr]]; [congruence|]. rewrite (B3 k Hr) in Ht. lia.
      * right. rewrite B3, BC by lia. split_and!; [done|lia|done].
    + split; [by transitivity (se_used (w_se y))|by transitivity (se_usedFallback (w_se y))].
Qed.

(** Steps that touch neither rounds nor tickets and settle nothing. *)
Lemma rl_same w w' :
  se_rounds (w_se w') = se_rounds (w_se w) → se_used (w_se w') = se_used (w_se w) →
  se_usedFallback (w_se w') = se_usedFallback (w_se w) → (∀ k, settlements k w' = settlements k w) →
  (∀ k, fallbacks k w' = fallbacks k w) → rounds_le w w'.
Proof.
  intros H1 H2 H3 H4 H5. assert (Hr : ∀ k, round_at k w' = round_at k w) by (intros k; unfold round_at; by rewrite H1).
  split; try (intros k; rewrite Hr); auto; [lia|]. by rewrite H2, H3.
Qed.
Ltac rl_skip := apply rl_same; intros; reflexivity.

(** A step of one round: the others do not move. *)
Lemma rl_put k r w w' :
  se_rounds (w_se w') = <[k := r]> (se_rounds (w_se w)) → se_used (w_se w) ⊆ se_used (w_se w') →
  se_usedFallback (w_se w) ⊆ se_usedFallback (w_se w') → (∀ k', settlements k' w' = settlements k' w) →
  (∀ k', fallbacks k' w' = fallbacks k' w) → rank (status k w) <= rank (rd_status r) →
  (status k w ≠ Uncommitted → set_round_status Open r = set_round_status Open (round_at k w)) →
  rounds_le w w'.
Proof.
  intros H1 H2 H3 H4 H5 Hrank Hterms.
  assert (Hk : ∀ k', round_at k' w' = if decide (k' = k) then r else round_at k' w).
  { intros k'. unfold round_at. rewrite H1. case_decide as Hd.
    - by rewrite Hd, lookup_insert_eq.
    - by rewrite lookup_insert_ne. }
  split; auto; intros k'; rewrite Hk; case_decide as Hd; subst; auto. lia.
Qed.

Lemma rl_pc_send r to v w w' : receiver_in rounds_le r → pc_send r to v w = Ok w' → rounds_le w w'.
Proof.
  intros Hr Hs. unfold pc_send in Hs. step_ok Hs. destruct (r _) as [w1|] eqn:E; [|done]. injection Hs as <-.
  apply Hr in E. etransitivity; [|exact E]. rl_skip.
Qed.
Lemma rl_pr_send r to v w w' : receiver_in rounds_le r → pr_send r to v w = Ok w' → rounds_le w w'.
Proof.
  intros Hr Hs. unfold pr_send in Hs. step_ok Hs. destruct (r _) as [w1|] eqn:E; [|done]. injection Hs as <-.
  apply Hr in E. etransitivity; [|exact E]. rl_skip.
Qed.

Lemma payout_rounds s r v rc caller w w' :
  receiver_in rounds_le rc → payoutProvider s r v rc caller w = Ok w' → rounds_le w w'.
Proof.
  intros Hr Hx. unfold payoutProvider in Hx. steps_ok Hx. injection Hx as <-. apply rl_pc_send in E1; [|done].
  etransitivity; [|etransitivity; [exact E1|]]; rl_skip.
Qed.

Lemma settle_rounds t sig secret rc c w w' :
  receiver_in rounds_le rc → settleRoundInternal t sig secret rc c w = Ok w' → rounds_le w w'.
Proof.
  intros Hr Hx. unfold settleRoundInternal in Hx. steps_ok Hx. destruct x1 as [winner bh]. steps_ok Hx.
  injection Hx as <-. set (k := round_key _ _ _) in *. apply payout_rounds in E2; [|done].
  set (w1 := put_round k _ _) in E2.
  assert (H1 : rounds_le w w1).
  { apply (rl_put k (set_round_status Settled (round_at k w))); try done; [cbn; set_solver|].
    rewrite G1. cbn. lia. }
  assert (Hc1 : closed k w1) by (unfold w1, round_at; cbn; rewrite lookup_insert_eq; cbn; lia).
  pose proof (transitivity H1 E2) as [A1 A2 A3 AC AP A4 A5].
  assert (Hcl : closed k x1) by (pose proof (rl_rank _ _ E2 k); lia).
  assert (Hsame : settlements k x1 = settlements k w) by (rewrite (rl_past _ _ E2 k) by lia; done).
  assert (Hfall : fallbacks k x1 = fallbacks k w) by (rewrite (rl_closed _ _ E2 k Hc1); done).
  split; try done; unfold settlements in *; intros k'; rewrite tally_emit; cbn [settles]; fold k;
    case_bool_decide as Hd; try subst k'.
  - rewrite G1. cbn. lia.
  - apply A3.
  - right. rewrite Hsame. split_and!; [lia|exact Hcl|exact Hfall].
  - apply A4.
Qed.

Lemma batch_rounds l rs c w w' :
  (∀ i, receiver_in rounds_le (rs i)) → settle_batch l rs c w = Ok w' → rounds_le w w'.
Proof.
  revert rs w. induction l as [|[[t sig] secret] l IH]; intros rs w Hr Hx; [by injection Hx as <-|].
  cbn [settle_batch] in Hx. step_ok Hx. apply settle_rounds in E; [|done].
  transitivity x; [done|]. eapply IH; [|exact Hx]. intros i. apply Hr.
Qed.

Lemma guarded_rounds body w w' :
  (∀ x y, body x = Ok y → rounds_le x y) → guarded body w = Ok w' → rounds_le w w'.
Proof.
  intros Hbody Hx. unfold guarded in Hx. steps_ok Hx. injection Hx as <-. apply Hbody in E.
  etransitivity; [|etransitivity; [exact E|]]; rl_skip.
Qed.

Lemma claim_rounds t sig secret rc c w w' :
  receiver_in rounds_le rc → claim_body t sig secret rc c w = Ok w' →
  rounds_le w w' ∧ roundTicketHash t ∈ se_usedFallback (w_se w').
Proof.
  intros Hr Hx. unfold claim_body in Hx. steps_ok Hx. injection Hx as <-. apply payout_rounds in E1; [|done].
  assert (x = roundTicketHash t) as -> by (unfold check_ticket in E; steps_ok E; by injection E).
  pose proof (rl_used _ _ E1) as [_ Hu]. split; [|cbn; set_solver]. set (k := round_key _ _ _) in *.
  assert (H1 : rounds_le w (use_fallback (roundTicketHash t) w)).
  { split; auto; [intros k'; reflexivity|]. cbn. set_solver. }
  pose proof (transitivity H1 E1) as [A1 A2 A3 AC AP A4 A5].
  split; try done; unfold fallbacks in *; intros k'; rewrite ?tally_emit; cbn [claims]; fold k;
    case_bool_decide as Hd; try subst k'; try apply AC; try apply AP; try apply A4; rewrite ?G.
  - cbn. lia.
  - right. specialize (A1 k). rewrite G in A1. cbn in A1. change (status k (emit _ x1)) with (status k x1).
    destruct (AP k) as [->|[? ?]]; split; lia.
  - specialize (A3 k). rewrite G in A3. left. apply A3. cbn. lia.
Qed.

Lemma void_rounds s r id h caller w w' : voidRound s r id h caller w = Ok w' → rounds_le w w'.
Proof.
  intros Hx. unfold voidRound in Hx. steps_ok Hx. injection Hx as <-. set (k := round_key s r id).
  apply (rl_put k (set_round_status Voided (round_at k w))); try done. destruct (status k w); cbn; lia.
Qed.

Lemma slash_rounds p v h caller w w' z : slashProvider p v h caller w = Ok (w', z) → rounds_le w w'.
Proof.
  intros Hx. unfold slashProvider in Hx. step_ok Hx. case_decide; [by injection Hx as <- _|].
  step_ok Hx. injection Hx as <- _. rl_skip.
Qed.

Lemma drop_pending_rounds k w : rounds_le w (drop_pending k w).
Proof. unfold drop_pending. case_decide; [rl_skip|reflexivity]. Qed.
Lemma close_dispute_rounds k dk d w : rounds_le w (drop_pending k (put_dispute dk d w)).
Proof. transitivity (put_dispute dk d w); [rl_skip|apply drop_pending_rounds]. Qed.

Ltac no_round Hx :=
  unfold openChannel, depositToChannel, add_deposit, initiateChannelUnlock, setPayoutEngine, pc_pause, pc_unpause,
    setDisputeResolver, se_pause, se_unpause, registerProvider, requestUnstake, requestPartialUnstake,
    start_unbonding, setSlasher, raiseChunkDispute in Hx;
  steps_ok Hx; injection Hx as <-; rl_skip.

Lemma run_rounds o rs c w w' :
  (∀ i : nat, receiver_in rounds_le (rs i)) → run o rs c w = Ok w' → rounds_le w w'.
Proof.
  intros Hr Hx. unfold run in Hx. step_ok Hx. clear G.
  destruct o; cbn [credit] in Hx; try by no_round Hx.
  - unfold withdrawChannel in Hx. steps_ok Hx. injection Hx as <-. apply rl_pc_send in E1; [|done].
    etransitivity; [|etransitivity; [exact E1|]]; rl_skip.
  - by eapply payout_rounds.
  - unfold commitRoundSecret in Hx. steps_ok Hx. injection Hx as <-.
    eapply rl_put; try done; rewrite G1; cbn; lia.
  - eapply guarded_rounds; [|exact Hx]. intros x y Hy. by eapply settle_rounds.
  - eapply guarded_rounds; [|exact Hx]. intros x y Hy. cbv beta in Hy. step_ok Hy. by eapply batch_rounds.
  - unfold markRoundPartial in Hx. steps_ok Hx. injection Hx as <-.
    eapply rl_put; try done. rewrite G0. cbn. lia.
  - eapply guarded_rounds; [|exact Hx]. intros x y Hy. by eapply claim_rounds.
  - by eapply void_rounds.
  - unfold withdrawStake in Hx. steps_ok Hx. injection Hx as <-. apply rl_pr_send in E0; [|done].
    etransitivity; [|etransitivity; [exact E0|]]; rl_skip.
  - step_ok Hx. destruct x as [w1 z]. injection Hx as <-. by eapply slash_rounds.
  - unfold respondToDispute in Hx. steps_ok Hx. injection Hx as <-.
    etransitivity; [apply close_dispute_rounds|rl_skip].
  - unfold resolveExpiredDispute in Hx. steps_ok Hx. destruct x as [w1 z]. step_ok Hx. injection Hx as <-.
    apply slash_rounds in E. apply void_rounds in E0.
    etransitivity; [apply close_dispute_rounds|]. etransitivity; [exact E|]. etransitivity; [exact E0|rl_skip].
Qed.

Lemma reached_rounds w w' : reached w w' → rounds_le w w'.
Proof. apply (reached_rel rounds_le), run_rounds. Qed.

(** What a call that settles a round, or pays a ticket of a partial one, finds
    and leaves. *)
Lemma exec_settled b sender v t sig secret trs w w' :
  exec b (Tx sender v (op_settleRound t sig secret) trs) w = Ok w' →
  let k := round_key (tk_sender t) (tk_recipient t) (tk_roundId t) in status k w = Open ∧ closed k w'.
Proof.
  intros Hx k. apply (lottery_exec_run rounds_le run_rounds) in Hx as (rs & Hr & Hx).
  unfold run in Hx. step_ok Hx. unfold settleRound, guarded in Hx. steps_ok Hx. injection Hx as <-.
  unfold settleRoundInternal in E. steps_ok E. split; [exact G4|]. fold k in E.
  destruct x2 as [winner bh]. steps_ok E. injection E as <-. apply payout_rounds in E3; [|apply Hr].
  pose proof (rl_rank _ _ E3 k) as Hk. etransitivity; [|exact Hk].
  unfold round_at. cbn. rewrite lookup_insert_eq. cbn. lia.
Qed.
Lemma exec_claimed b sender v t sig secret trs w w' :
  exec b (Tx sender v (op_claimFallbackTicket t sig secret) trs) w = Ok w' →
  status (round_key (tk_sender t) (tk_recipient t) (tk_roundId t)) w = PartialFallback ∧
  roundTicketHash t ∉ se_usedFallback (w_se w) ∧ roundTicketHash t ∈ se_usedFallback (w_se w').
Proof.
  intros Hx. apply (lottery_exec_run rounds_le run_rounds) in Hx as (rs & Hr & Hx).
  unfold run in Hx. step_ok Hx. unfold claimFallbackTicket, guarded in Hx. steps_ok Hx. injection Hx as <-.
  pose proof (claim_rounds _ _ _ _ _ _ _ (Hr _) E) as [_ Hu]. unfold claim_body in E. step_ok E. steps_ok E.
  split_and!; [done| |exact Hu]. unfold check_ticket in E0. by step_ok E0.
Qed.

Lemma closed_spec k w : closed k w ↔ status k w = Settled ∨ status k w = Voided.
Proof. destruct (status k w); cbn; split; intros; naive_solver lia. Qed.
Lemma round_payments owner w k :
  reached (deployed owner) w →
  0 <= settlements k w <= 1 ∧ 0 <= fallbacks k w ∧ (1 <= settlements k w → closed k w ∧ fallbacks k w = 0).
Proof.
  intros H0%reached_rounds. assert (Hz : settlements k (deployed owner) = 0) by done.
  assert (Hf : fallbacks k (deployed owner) = 0) by done. pose proof (rl_partial _ _ H0 k) as Hp. rewrite Hf in Hp.
  destruct (rl_once _ _ H0 k) as [E|(E & Hc & Hn)]; rewrite E, Hz; [destruct Hp; split_and!; lia|].
  split_and!; [lia..|]. intros _. split; [done|]. by rewrite Hn.
Qed.

(** *** What a payment takes *)

(** The channel and amount a payment event of the engine, or of the channel
    contract, names. *)
Definition round_payment (e : event) : option (list byte * list byte * Z) :=
  match e with
  | RoundSettled s r _ _ v | FallbackTicketClaimed s r _ _ v => Some (s, r, v)
  | _ => None
  end.
Definition channel_payment (e : event) : option (list byte * list byte * Z) :=
  match e with ChannelPayoutExecuted s r v => Some (s, r, v) | _ => None end.
Definition is_payment (e : event) : bool := bool_decide (is_Some (round_payment e)).
Definition paid_as (p : list byte * list byte * Z) (e : event) : bool := bool_decide (round_payment e = Some p).
Definition moved_as (p : list byte * list byte * Z) (e : event) : bool := bool_decide (channel_payment e = Some p).

(** The tickets that were spent, in either way. *)
Definition spent (w : World) : Z :=
  Z.of_nat (size (se_used (w_se w))) + Z.of_nat (size (se_usedFallback (w_se w))).

(** Every payment of a round spends a ticket that was not spent in that way
    before, and comes with a payout of the same amount from its channel. *)
Record pays_le (w w' : World) : Prop := {
  pl_spent : tally is_payment w' + spent w = tally is_payment w + spent w';
  pl_moved : ∀ p, tally (paid_as p) w' + tally (moved_as p) w <= tally (paid_as p) w + tally (moved_as p) w';
}.
#[local] Instance pays_le_po : PreOrder pays_le.
Proof.
  split; [by split|]. intros x y z [A1 A2] [B1 B2]. split; [lia|]. intros p. specialize (A2 p). specialize (B2 p). lia.
Qed.
Ltac pl_skip := split; [reflexivity|intros; reflexivity].

Lemma pl_pc_send r to v w w' : receiver_in pays_le r → pc_send r to v w = Ok w' → pays_le w w'.
Proof.
  intros Hr Hs. unfold pc_send in Hs. step_ok Hs. destruct (r _) as [w1|] eqn:E; [|done]. injection Hs as <-.
  apply Hr in E. etransitivity; [|exact E]. pl_skip.
Qed.
Lemma pl_pr_send r to v w w' : receiver_in pays_le r → pr_send r to v w = Ok w' → pays_le w w'.
Proof.
  intros Hr Hs. unfold pr_send in Hs. step_ok Hs. destruct (r _) as [w1|] eqn:E; [|done]. injection Hs as <-.
  apply Hr in E. etransitivity; [|exact E]. pl_skip.
Qed.

Lemma payout_pays s r v rc caller w w' :
  receiver_in pays_le rc → payoutProvider s r v rc caller w = Ok w' →
  tally is_payment w' + spent w = tally is_payment w + spent w' ∧
  ∀ p, tally (paid_as p) w' + (if decide (p = (s, r, v)) then 1 else 0) + tally (moved_as p) w
       <= tally (paid_as p) w + tally (moved_as p) w'.
Proof.
  intros Hr Hx. unfold payoutProvider in Hx. steps_ok Hx. injection Hx as <-. apply pl_pc_send in E1 as [H1 H2]; [|done].
  split; [exact H1|]. intros p. specialize (H2 p).
  change (tally ?f (pc_enter false ?w)) with (tally f w). rewrite !tally_emit.
  unfold paid_as at 1, moved_as at 2. cbn [round_payment channel_payment].
  change (tally ?f (put_channel _ _ (pc_enter _ ?w))) with (tally f w) in H2.
  repeat case_bool_decide; case_decide; try congruence; lia.
Qed.
Lemma payout_pays_le s r v rc caller w w' :
  receiver_in pays_le rc → payoutProvider s r v rc caller w = Ok w' → pays_le w w'.
Proof.
  intros Hr Hx. destruct (payout_pays _ _ _ _ _ _ _ Hr Hx) as [H1 H2]. split; [done|]. intros p.
  specialize (H2 p). case_decide; lia.
Qed.

Lemma settle_pays t sig secret rc c w w' :
  receiver_in pays_le rc → settleRoundInternal t sig secret rc c w = Ok w' → pays_le w w'.
Proof.
  intros Hr Hx. unfold settleRoundInternal in Hx. steps_ok Hx. destruct x1 as [winner bh]. steps_ok Hx.
  injection Hx as <-. apply payout_pays in E2 as [H1 H2]; [|done].
  assert (Hn : x0 ∉ se_used (w_se w)) by (unfold check_ticket in E0; steps_ok E0; by injection E0 as <-).
  split; [|intros p; specialize (H2 p)]; rewrite !tally_emit.
  - change (spent (emit _ ?w)) with (spent w). change (is_payment (RoundSettled _ _ _ _ _)) with true. cbv iota.
    change (tally ?f (put_round _ _ (use_ticket _ ?w))) with (tally f w) in H1.
    unfold spent in *. cbn in H1. rewrite size_union, size_singleton in H1 by set_solver. lia.
  - change (tally ?f (put_round _ _ (use_ticket _ ?w))) with (tally f w) in H2.
    unfold paid_as at 1, moved_as at 2. cbn [round_payment channel_payment].
    repeat case_bool_decide; case_decide; try congruence; lia.
Qed.

Lemma claim_pays t sig secret rc c w w' :
  receiver_in pays_le rc → claim_body t sig secret rc c w = Ok w' → pays_le w w'.
Proof.
  intros Hr Hx. unfold claim_body in Hx. steps_ok Hx. injection Hx as <-. apply payout_pays in E1 as [H1 H2]; [|done].
  assert (Hn : x ∉ se_usedFallback (w_se w)) by (unfold check_ticket in E; steps_ok E; by injection E as <-).
  split; [|intros p; specialize (H2 p)]; rewrite !tally_emit.
  - change (spent (emit _ ?w)) with (spent w). change (is_payment (FallbackTicketClaimed _ _ _ _ _)) with true. cbv iota.
    change (tally ?f (use_fallback _ ?w)) with (tally f w) in H1.
    unfold spent in *. cbn in H1. rewrite size_union, size_singleton in H1 by set_solver. lia.
  - change (tally ?f (use_fallback _ ?w)) with (tally f w) in H2.
    unfold paid_as at 1, moved_as at 2. cbn [round_payment channel_payment].
    repeat case_bool_decide; case_decide; try congruence; lia.
Qed.

Lemma batch_pays l rs c w w' :
  (∀ i, receiver_in pays_le (rs i)) → settle_batch l rs c w = Ok w' → pays_le w w'.
Proof.
  revert rs w. induction l as [|[[t sig] secret] l IH]; intros rs w Hr Hx; [by injection Hx as <-|].
  cbn [settle_batch] in Hx. step_ok Hx. apply settle_pays in E; [|done].
  transitivity x; [done|]. eapply IH; [|exact Hx]. intros i. apply Hr.
Qed.
Lemma guarded_pays body w w' :
  (∀ x y, body x = Ok y → pays_le x y) → guarded body w = Ok w' → pays_le w w'.
Proof.
  intros Hbody Hx. unfold guarded in Hx. steps_ok Hx. injection Hx as <-. apply Hbody in E.
  etransitivity; [|etransitivity; [exact E|]]; pl_skip.
Qed.
Lemma slash_pays p v h caller w w' z : slashProvider p v h caller w = Ok (w', z) → pays_le w w'.
Proof.
  intros Hx. unfold slashProvider in Hx. step_ok Hx. case_decide; [by injection Hx as <- _|].
  step_ok Hx. injection Hx as <- _. pl_skip.
Qed.
Lemma close_dispute_pays k dk d w : pays_le w (drop_pending k (put_dispute dk d w)).
Proof. unfold drop_pending. case_decide; pl_skip. Qed.

Ltac no_payment Hx :=
  unfold openChannel, depositToChannel, add_deposit, initiateChannelUnlock, setPayoutEngine, pc_pause, pc_unpause,
    setDisputeResolver, se_pause, se_unpause, registerProvider, requestUnstake, requestPartialUnstake,
    start_unbonding, setSlasher, raiseChunkDispute, commitRoundSecret, markRoundPartial, voidRound in Hx;
  steps_ok Hx; injection Hx as <-; pl_skip.

Lemma run_pays o rs c w w' :
  (∀ i : nat, receiver_in pays_le (rs i)) → run o rs c w = Ok w' → pays_le w w'.
Proof.
  intros Hr Hx. unfold run in Hx. step_ok Hx. clear G.
  destruct o; cbn [credit] in Hx; try by no_payment Hx.
  - unfold withdrawChannel in Hx. steps_ok Hx. injection Hx as <-. apply pl_pc_send in E1; [|done].
    etransitivity; [|etransitivity; [exact E1|]]; pl_skip.
  - by eapply payout_pays_le.
  - eapply guarded_pays; [|exact Hx]. intros x y Hy. by eapply settle_pays.
  - eapply guarded_pays; [|exact Hx]. intros x y Hy. cbv beta in Hy. step_ok Hy. by eapply batch_pays.
  - eapply guarded_pays; [|exact Hx]. intros x y Hy. by eapply claim_pays.
  - unfold withdrawStake in Hx. steps_ok Hx. injection Hx as <-. apply pl_pr_send in E0; [|done].
    etransitivity; [|etransitivity; [exact E0|]]; pl_skip.
  - step_ok Hx. destruct x as [w1 z]. injection Hx as <-. by eapply slash_pays.
  - unfold respondToDispute in Hx. steps_ok Hx. injection Hx as <-.
    etransitivity; [apply close_dispute_pays|pl_skip].
  - unfold resolveExpiredDispute in Hx. steps_ok Hx. destruct x as [w1 z]. step_ok Hx. injection Hx as <-.
    apply slash_pays in E. etransitivity; [apply close_dispute_pays|]. etransitivity; [exact E|]. no_payment E0.
Qed.
Lemma reached_pays w w' : reached w w' → pays_le w w'.
Proof. apply (reached_rel pays_le), run_pays. Qed.

(** C7: A round is paid in one way, and no ticket twice.  In every history of
    calls, by anyone, with recipients that call back during a transfer: a
    round settles at most once; a round that has settled has paid no fallback
    ticket and never will, and one that has paid a fallback ticket never
    settles; once a round is settled or void nothing is paid for it any more,
    in either way; its status only advances (uncommitted, open, partial,
    settled, void) and its committed terms never change.  A partial round may
    pay several tickets, but each payment, of either kind, spends a ticket of
    its own - there are exactly as many payments as spent tickets - and is
    backed by a payout of the same amount from the same channel. *)
Theorem round_pays_once owner w w' sender recipient roundId :
  reached (deployed owner) w → reached w w' →
  let k := round_key sender recipient roundId in
  0 <= settlements k w <= 1 ∧
  (settlements k w = 1 → fallbacks k w = 0 ∧
     (getRoundStatus sender recipient roundId w = Settled ∨ getRoundStatus sender recipient roundId w = Voided)) ∧
  (1 <= fallbacks k w → settlements k w' = 0) ∧
  (getRoundStatus sender recipient roundId w = Settled ∨ getRoundStatus sender recipient roundId w = Voided →
     settlements k w' = settlements k w ∧ fallbacks k w' = fallbacks k w) ∧
  rank (getRoundStatus sender recipient roundId w) <= rank (getRoundStatus sender recipient roundId w') ∧
  (getRoundStatus sender recipient roundId w ≠ Uncommitted →
     set_round_status Open (round_at k w') = set_round_status Open (round_at k w)) ∧
  tally is_payment w = spent w ∧
  (∀ s r v, tally (paid_as (s, r, v)) w <= tally (moved_as (s, r, v)) w).
Proof.
  intros H0 Hw%reached_rounds k. unfold getRoundStatus. fold k. rewrite <- !closed_spec.
  pose proof (round_payments _ _ k H0) as (H1 & H2 & H3). pose proof (reached_pays _ _ H0) as [Hs Hm].
  pose proof (reached_rounds _ _ H0) as Hr.
  split_and!; try lia.
  - intros Hf. rewrite (rl_past _ _ Hw); [destruct (decide (1 <= settlements k w)); [destruct H3|]; lia|]. destruct (rl_partial _ _ Hr k) as [E|[_ ?]]; [|done].
    rewrite E in Hf. cbn in Hf. lia.
  - intros Hc. split; [apply (rl_past _ _ Hw); lia|by apply (rl_closed _ _ Hw)].
  - apply Hw.
  - apply Hw.
  - change (tally is_payment (deployed owner)) with 0 in Hs. change (spent (deployed owner)) with 0 in Hs. lia.
  - intros c r v. specialize (Hm (c, r, v)). change (tally ?f (deployed owner)) with 0 in Hm. lia.
Qed.

(** A ticket is spent once.  After a round has been settled no ticket of it is
    paid, by settlement or as a fallback; after a ticket has been paid as a
    fallback it is not paid again, in either way. *)
Theorem ticket_spent_once b sender v t sig secret trs w w1 w' b' sender' v' t' sig' secret' trs' w2 :
  reached w1 w' →
  (exec b (Tx sender v (op_settleRound t sig secret) trs) w = Ok w1 ∧
     tk_sender t' = tk_sender t ∧ tk_recipient t' = tk_recipient t ∧ tk_roundId t' = tk_roundId t) ∨
  (exec b (Tx sender v (op_claimFallbackTicket t sig secret) trs) w = Ok w1 ∧ t' = t) →
  exec b' (Tx sender' v' (op_settleRound t' sig' secret') trs') w' ≠ Ok w2 ∧
  exec b' (Tx sender' v' (op_claimFallbackTicket t' sig' secret') trs') w' ≠ Ok w2.
Proof.
  intros Hr%reached_rounds Hx. pose proof (rl_rank _ _ Hr (round_key (tk_sender t) (tk_recipient t) (tk_roundId t))) as Hk.
  destruct Hx as [(Hx & Hs & Hp & Hi)|[Hx ->]].
  - apply exec_settled in Hx as [_ Hc].
    split; [intros [Ho _]%exec_settled|intros [Ho _]%exec_claimed]; rewrite Hs, Hp, Hi in Ho; rewrite Ho in Hk;
      cbn in Hk; lia.
  - pose proof Hx as (Ho & _ & Hu)%exec_claimed. apply (lottery_exec_rel rounds_le run_rounds) in Hx.
    pose proof (rl_rank _ _ Hx (round_key (tk_sender t) (tk_recipient t) (tk_roundId t))) as Hk'. rewrite Ho in Hk'.
    split; [intros [Ho' _]%exec_settled; rewrite Ho' in Hk; cbn in Hk, Hk'; lia|].
    intros (_ & Hn & _)%exec_claimed. apply Hn. by apply (rl_used _ _ Hr).
Qed.

(** ** Reentrancy guards *)

(** Every call leaves the guards as it found them. *)
Record same_guards (w w' : World) : Prop := {
  sg_pc : pc_entered (w_pc w') = pc_entered (w_pc w);
  sg_se : se_entered (w_se w') = se_entered (w_se w);
  sg_pr : pr_entered (w_pr w') = pr_entered (w_pr w);
}.
#[local] Instance same_guards_po : PreOrder same_guards.
Proof. split; [by split|]. intros x y z [] []. split; congruence. Qed.
Ltac sg_skip := split; reflexivity.

Lemma sg_pc_send r to v w w' : receiver_in same_guards r → pc_send r to v w = Ok w' → same_guards w w'.
Proof.
  intros Hr Hs. unfold pc_send in Hs. step_ok Hs. destruct (r _) as [w1|] eqn:E; [|done]. injection Hs as <-.
  apply Hr in E. etransitivity; [|exact E]. sg_skip.
Qed.
Lemma sg_pr_send r to v w w' : receiver_in same_guards r → pr_send r to v w = Ok w' → same_guards w w'.
Proof.
  intros Hr Hs. unfold pr_send in Hs. step_ok Hs. destruct (r _) as [w1|] eqn:E; [|done]. injection Hs as <-.
  apply Hr in E. etransitivity; [|exact E]. sg_skip.
Qed.
Lemma payout_guards s r v rc caller w w' :
  receiver_in same_guards rc → payoutProvider s r v rc caller w = Ok w' → same_guards w w'.
Proof.
  intros Hr Hx. unfold payoutProvider in Hx. steps_ok Hx. injection Hx as <-. apply sg_pc_send in E1 as []; [|done].
  split; [by rewrite G0|done|done].
Qed.
Lemma settle_guards t sig secret rc c w w' :
  receiver_in same_guards rc → settleRoundInternal t sig secret rc c w = Ok w' → same_guards w w'.
Proof.
  intros Hr Hx. unfold settleRoundInternal in Hx. steps_ok Hx. destruct x1 as [winner bh]. steps_ok Hx.
  injection Hx as <-. apply payout_guards in E2 as []; [|done]. by split.
Qed.
Lemma batch_guards l rs c w w' :
  (∀ i, receiver_in same_guards (rs i)) → settle_batch l rs c w = Ok w' → same_guards w w'.
Proof.
  revert rs w. induction l as [|[[t sig] secret] l IH]; intros rs w Hr Hx; [by injection Hx as <-|].
  cbn [settle_batch] in Hx. step_ok Hx. apply settle_guards in E; [|done].
  transitivity x; [done|]. eapply IH; [|exact Hx]. intros i. apply Hr.
Qed.
Lemma guarded_guards body w w' :
  (∀ x y, body x = Ok y → same_guards x y) → guarded body w = Ok w' → same_guards w w'.
Proof.
  intros Hbody Hx. unfold guarded in Hx. steps_ok Hx. injection Hx as <-. apply Hbody in E as [].
  split; [done|by rewrite G|done].
Qed.
Lemma claim_guards t sig secret rc c w w' :
  receiver_in same_guards rc → claim_body t sig secret rc c w = Ok w' → same_guards w w'.
Proof.
  intros Hr Hx. unfold claim_body in Hx. steps_ok Hx. injection Hx as <-. apply payout_guards in E1 as []; [|done].
  by split.
Qed.
Lemma slash_guards p v h caller w w' z : slashProvider p v h caller w = Ok (w', z) → same_guards w w'.
Proof.
  intros Hx. unfold slashProvider in Hx. step_ok Hx. case_decide; [by injection Hx as <- _|].
  step_ok Hx. injection Hx as <- _. sg_skip.
Qed.
Lemma close_dispute_guards k dk d w : same_guards w (drop_pending k (put_dispute dk d w)).
Proof. unfold drop_pending. case_decide; sg_skip. Qed.

Ltac no_guard Hx :=
  unfold openChannel, depositToChannel, add_deposit, initiateChannelUnlock, setPayoutEngine, pc_pause, pc_unpause,
    commitRoundSecret, markRoundPartial, voidRound, setDisputeResolver, se_pause, se_unpause, registerProvider,
    requestUnstake, requestPartialUnstake, start_unbonding, setSlasher, raiseChunkDispute in Hx;
  steps_ok Hx; injection Hx as <-; sg_skip.

Lemma run_guards o rs c w w' :
  (∀ i : nat, receiver_in same_guards (rs i)) → run o rs c w = Ok w' → same_guards w w'.
Proof.
  intros Hr Hx. unfold run in Hx. step_ok Hx. clear G.
  destruct o; cbn [credit] in Hx; try by no_guard Hx.
  - unfold withdrawChannel in Hx. steps_ok Hx. injection Hx as <-. apply sg_pc_send in E1 as []; [|done].
    split; [by rewrite G|done|done].
  - by eapply payout_guards.
  - eapply guarded_guards; [|exact Hx]. intros x y Hy. by eapply settle_guards.
  - eapply guarded_guards; [|exact Hx]. intros x y Hy. cbv beta in Hy. step_ok Hy. by eapply batch_guards.
  - eapply guarded_guards; [|exact Hx]. intros x y Hy. by eapply claim_guards.
  - unfold withdrawStake in Hx. steps_ok Hx. injection Hx as <-. apply sg_pr_send in E0 as []; [|done].
    split; [done|done|by rewrite G].
  - step_ok Hx. destruct x as [w1 z]. injection Hx as <-. by eapply slash_guards.
  - unfold respondToDispute in Hx. steps_ok Hx. injection Hx as <-.
    etransitivity; [apply close_dispute_guards|sg_skip].
  - unfold resolveExpiredDispute in Hx. steps_ok Hx. destruct x as [w1 z]. step_ok Hx. injection Hx as <-.
    apply slash_guards in E. unfold voidRound in E0. steps_ok E0. injection E0 as <-.
    etransitivity; [apply close_dispute_guards|]. etransitivity; [exact E|sg_skip].
Qed.

(** Between transactions no guard is taken. *)
Lemma reached_unguarded owner w :
  reached (deployed owner) w →
  pc_entered (w_pc w) = false ∧ se_entered (w_se w) = false ∧ pr_entered (w_pr w) = false.
Proof. intros Hr. apply (reached_rel same_guards) in Hr as []; [by split_and!|apply run_guards]. Qed.
End safety.

(** ** Witnesses *)

Lemma exec_all_reached b ts w0 w : reached w0 w → reached w0 (exec_all b ts w).
Proof.
  intros Hr. unfold exec_all. revert w Hr. induction ts as [|t ts IH]; intros w Hr; [done|]. cbn [foldl]. apply IH.
  destruct (exec b t w) eqn:E; [by eapply re_exec|done].
Qed.

Definition toy_ticket (i : Z) : SolTicket :=
  {| tk_sender := toy_consumer; tk_recipient := toy_provider; tk_roundId := 1; tk_localIndex := i;
     tk_faceValue := 1000; tk_winProb := 10 ^ 17; tk_senderNonce := 12345 |}.
Definition toy_signature (i : Z) : list byte :=
  roundTicketHash (toy_ticket i) ++ replicate 12 x00 ++ toy_consumer ++ [x1c].
(** The provider settles the round and, while it is paid, tries to settle it
    again and to withdraw its stake. *)
Definition toy_settle : tx :=
  Tx toy_provider 0 (op_settleRound (toy_ticket 1) (toy_signature 1) toy_secret)
    [(true, [Tx toy_provider 0 (op_settleRound (toy_ticket 1) (toy_signature 1) toy_secret) [];
             Tx toy_provider 0 op_requestUnstake []; Tx toy_provider 0 op_withdrawStake []])].
Definition toy_settled : World := exec_all (toy_block 30) [toy_settle] toy_open.
Lemma toy_open_reached : reached (deployed toy_owner) toy_open.
Proof. unfold toy_open. apply exec_all_reached. constructor. Qed.
Lemma toy_settled_reached : reached (deployed toy_owner) toy_settled.
Proof. unfold toy_settled. apply exec_all_reached, toy_open_reached. Qed.

Lemma lottery_solvent_witness :
  pc_balance (w_pc toy_settled) = 4000 ∧ w_paid toy_settled = [(toy_provider, 1000)] ∧
  4000 = msum left_in (pc_channels (w_pc toy_settled)).
Proof.
  split; [vm_compute; reflexivity|]. split; [vm_compute; reflexivity|].
  transitivity (pc_balance (w_pc toy_settled)); [vm_compute; reflexivity|].
  exact (proj1 (lottery_solvent toy_owner toy_settled toy_settled_reached)).
Defined.

Lemma round_pays_once_witness :
  let k := round_key toy_consumer toy_provider 1 in
  settlements k toy_settled = 1 ∧ getRoundStatus toy_consumer toy_provider 1 toy_settled = Settled ∧
  ∀ w', reached toy_settled w' → settlements k w' = 1 ∧ fallbacks k w' = 0.
Proof.
  assert (H1 : settlements (round_key toy_consumer toy_provider 1) toy_settled = 1) by (vm_compute; reflexivity).
  assert (H2 : getRoundStatus toy_consumer toy_provider 1 toy_settled = Settled) by (vm_compute; reflexivity).
  split; [exact H1|]. split; [exact H2|]. intros w' Hw'.
  destruct (round_pays_once toy_owner toy_settled w' toy_consumer toy_provider 1 toy_settled_reached Hw')
    as (_ & Ho & _ & Hc & _).
  destruct (Hc (or_introl H2)) as [E1 E2]. destruct (Ho H1) as [E3 _].
  split; [exact (eq_trans E1 H1)|exact (eq_trans E2 E3)].
Defined.
