(* ===== verification/Abigen.v ===== *)
(** * Generated contract bindings: the template

    network/payments/bindings: abigen writes the same code for every method and
    every event of a contract.  This file has the template: calls and
    transactions through [bind.BoundContract], the iterator over past events
    ([Next], [Error]), the subscription to new ones ([Watch]) and [Parse].
    LotteryBindings.v instantiates it for the methods and events of the four
    bindings. *)

From S2P Require Import Prelude Bindings Tickets EscrowContract EthEscrow Lottery.

(** ** Values of the ABI *)

(** As Go values: an address, a [*big.Int] (uint256), a uint8, ... *)
Inductive abi_value :=
| VAddress (a : list byte)
| VUint (z : Z)
| VUint8 (z : Z)
| VBool (b : bool)
| VBytes1 (b : byte)
| VBytes32 (b : list byte)
| VBytes (b : list byte)
| VString (s : string)
| VUints (l : list Z)
| VBytess (l : list (list byte))
| VBytes32s (l : list (list byte))
| VTicket (t : SolTicket)
| VTickets (l : list SolTicket).

(** A Go panic, as a result.  [*abi.ConvertType(v, new(T)).( *T)] panics on a
    value of another type. *)
Definition GoPanic : error := New "panic: interface conversion".
Definition to_Address (v : abi_value) : result (list byte) := match v with VAddress a => Ok a | _ => Err GoPanic end.
Definition to_Uint (v : abi_value) : result Z := match v with VUint z => Ok z | _ => Err GoPanic end.
Definition to_Uint8 (v : abi_value) : result Z := match v with VUint8 z => Ok z | _ => Err GoPanic end.
Definition to_Bool (v : abi_value) : result bool := match v with VBool b => Ok b | _ => Err GoPanic end.
Definition to_Bytes1 (v : abi_value) : result byte := match v with VBytes1 b => Ok b | _ => Err GoPanic end.
Definition to_Bytes32 (v : abi_value) : result (list byte) := match v with VBytes32 b => Ok b | _ => Err GoPanic end.
Definition to_String (v : abi_value) : result string := match v with VString s => Ok s | _ => Err GoPanic end.
Definition to_Uints (v : abi_value) : result (list Z) := match v with VUints l => Ok l | _ => Err GoPanic end.

(** [conv(out[i])]. *)
Definition out_at {A} (conv : abi_value → result A) (i : nat) (out : list abi_value) : result A :=
  match out !! i with Some v => conv v | None => Err GoPanic end.

(** ** go-ethereum's package bind *)

(** [Sub] is what a log subscription will deliver: the logs, and then the value
    of its error channel ([None] when the channel is closed without one). *)
Record Sub (LG : Type) := { sb_logs : list LG; sb_end : option error }.
Arguments sb_logs {LG}. Arguments sb_end {LG}.

(** [bind.BoundContract] for call options [CO], filter options [FO],
    transactions [TX] and logs [LG]. *)
Record Bound (CO FO TX LG : Type) := {
  b_Call : CO → string → list abi_value → result (list abi_value);
  b_Transact : TransactOpts → string → list abi_value → result TX;
  b_FilterLogs : FO → string → list (list abi_value) → result (Sub LG);
  b_WatchLogs : FO → string → list (list abi_value) → result ();
  b_UnpackLog : string → LG → result (list abi_value);
}.
Arguments b_Call {CO FO TX LG}. Arguments b_Transact {CO FO TX LG}. Arguments b_FilterLogs {CO FO TX LG}.
Arguments b_WatchLogs {CO FO TX LG}. Arguments b_UnpackLog {CO FO TX LG}.

Section template.
Context {CO FO TX LG : Type} (contract : Bound CO FO TX LG).

(** ** Methods *)

(** A view with one result. *)
Definition call1 {A} (conv : abi_value → result A) (opts : CO) (method : string) (params : list abi_value) : result A :=
  let! out := b_Call contract opts method params in out_at conv 0 out.

(** ** Events *)

(** An event with its raw log; [new(T)] has neither. *)
Record Event := { ev_fields : list abi_value; ev_Raw : option LG }.
Definition new_event : Event := {| ev_fields := []; ev_Raw := None |}.

(** [Parse]: unpack, then keep the log. *)
Definition parse_log (name : string) (log : LG) : result Event :=
  let! fields := b_UnpackLog contract name log in Ok {| ev_fields := fields; ev_Raw := Some log |}.

(** The iterator.  [it_logs] is what the log channel holds, [it_coming] what the
    subscription has not sent yet; its error channel becomes ready, with
    [it_end], when it has sent everything. *)
Record Iterator := {
  it_Event : option Event;
  it_event : string;
  it_logs : list LG;
  it_coming : list LG;
  it_end : option error;
  it_done : bool;
  it_fail : option error;
}.

Definition set_logs (q : list LG) (it : Iterator) : Iterator :=
  {| it_Event := it_Event it; it_event := it_event it; it_logs := q; it_coming := it_coming it; it_end := it_end it;
     it_done := it_done it; it_fail := it_fail it |}.
Definition set_event (e : Event) (it : Iterator) : Iterator :=
  {| it_Event := Some e; it_event := it_event it; it_logs := it_logs it; it_coming := it_coming it;
     it_end := it_end it; it_done := it_done it; it_fail := it_fail it |}.
Definition set_fail (e : option error) (it : Iterator) : Iterator :=
  {| it_Event := it_Event it; it_event := it_event it; it_logs := it_logs it; it_coming := it_coming it;
     it_end := it_end it; it_done := it_done it; it_fail := e |}.
Definition set_done (it : Iterator) : Iterator :=
  {| it_Event := it_Event it; it_event := it_event it; it_logs := it_logs it; it_coming := it_coming it;
     it_end := it_end it; it_done := true; it_fail := it_fail it |}.

(** The subscription sends its next log. *)
Definition deliver (it : Iterator) : option Iterator :=
  match it_coming it with
  | [] => None
  | l :: ls =>
      Some {| it_Event := it_Event it; it_event := it_event it; it_logs := it_logs it ++ [l]; it_coming := ls;
              it_end := it_end it; it_done := it_done it; it_fail := it_fail it |}
  end.

(** [case log := <-it.logs]. *)
Definition receive (log : LG) (rest : list LG) (it : Iterator) : bool * Iterator :=
  let it := set_logs rest it in
  match parse_log (it_event it) log with
  | Err e => (false, set_fail (Some e) (set_event new_event it))
  | Ok ev => (true, set_event ev it)
  end.

(** [Next] once the subscription is over. *)
Definition next_done (it : Iterator) : bool * Iterator :=
  match it_fail it with
  | Some _ => (false, it)
  | None => match it_logs it with l :: q => receive l q it | [] => (false, it) end
  end.

(** [Next]; [None] means that it waits.  When a log and the end of the
    subscription are both ready the runtime picks either: [err_first] is its
    choice. *)
Definition Next (err_first : bool) (it : Iterator) : option (bool * Iterator) :=
  match it_fail it with
  | Some _ => Some (false, it)
  | None =>
      if it_done it then Some (next_done it)
      else
        let finish := next_done (set_fail (it_end it) (set_done it)) in
        match it_logs it, it_coming it with
        | l :: q, [] => Some (if err_first then finish else receive l q it)
        | l :: q, _ :: _ => Some (receive l q it)
        | [], [] => Some finish
        | [], _ :: _ => None
        end
  end.
Definition Error (it : Iterator) : option error := it_fail it.

(** The rules of the indexed arguments, one list per argument. *)
Definition filter_events (name : string) (opts : FO) (rules : list (list abi_value)) : result Iterator :=
  let! sub := b_FilterLogs contract opts name rules in
  Ok {| it_Event := None; it_event := name; it_logs := []; it_coming := sb_logs sub; it_end := sb_end sub;
        it_done := false; it_fail := None |}.

(** What the goroutine of a [Watch] sees: a log, and then what happens while it
    hands the event to the sink; the subscription's error; the caller's quit. *)
Inductive sink_outcome := SinkTakes | SinkErr (e : option error) | SinkQuit.
Inductive watch_input := WatchLog (l : LG) (s : sink_outcome) | WatchErr (e : option error) | WatchQuit.

(** The loop: the events sent to the sink, and what it returned if it did. *)
Fixpoint watch_loop (name : string) (ins : list watch_input) : list Event * option (option error) :=
  match ins with
  | [] => ([], None)
  | WatchErr e :: _ => ([], Some e)
  | WatchQuit :: _ => ([], Some None)
  | WatchLog l s :: ins =>
      match parse_log name l with
      | Err e => ([], Some (Some e))
      | Ok ev =>
          match s with
          | SinkErr e => ([], Some e)
          | SinkQuit => ([], Some None)
          | SinkTakes => let '(evs, r) := watch_loop name ins in (ev :: evs, r)
          end
      end
  end.
Definition watch_events (name : string) (opts : FO) (rules : list (list abi_value)) (ins : list watch_input)
    : result (list Event * option (option error)) :=
  let! _ := b_WatchLogs contract opts name rules in Ok (watch_loop name ins).

(** The code of one event, with the rules and the struct it is generated for. *)
Record EventBinding (R E : Type) := {
  eb_Filter : FO → R → result Iterator;
  eb_Next : bool → Iterator → option (bool * Iterator);
  eb_Event : Event → result E;
  eb_Watch : FO → R → list watch_input → result (list Event * option (option error));
  eb_Parse : LG → result Event;
}.
Definition event_binding {R E} (name : string) (rules : R → list (list abi_value)) (fields : list abi_value → result E)
    : EventBinding R E :=
  {| eb_Filter opts r := filter_events name opts (rules r);
     eb_Next := Next;
     eb_Event ev := fields (ev_fields ev);
     eb_Watch opts r := watch_events name opts (rules r);
     eb_Parse := parse_log name |}.

(** ** Iteration *)

(** [for it.Next() { use(it.Event) }]: the events it sees, with the logs coming
    in meanwhile. *)
Inductive iterates : Iterator → list Event → Iterator → Prop :=
| its_deliver it it1 evs it' : deliver it = Some it1 → iterates it1 evs it' → iterates it evs it'
| its_true c it it1 ev evs it' :
    Next c it = Some (true, it1) → it_Event it1 = Some ev → iterates it1 evs it' → iterates it (ev :: evs) it'
| its_false c it it' : Next c it = Some (false, it') → iterates it [] it'.

(** What there is to see: the events of the logs up to the first one that does
    not unpack, and that one's error. *)
Fixpoint events_of (name : string) (logs : list LG) : list Event * option error :=
  match logs with
  | [] => ([], None)
  | l :: ls =>
      match parse_log name l with
      | Err e => ([], Some e)
      | Ok ev => let '(evs, r) := events_of name ls in (ev :: evs, r)
      end
  end.

(** The logs still to be seen. *)
Definition left_over (it : Iterator) : list LG := it_logs it ++ it_coming it.

Lemma deliver_left it it1 :
  deliver it = Some it1 →
  left_over it1 = left_over it ∧ it_event it1 = it_event it ∧ it_end it1 = it_end it ∧ it_done it1 = it_done it ∧
  it_fail it1 = it_fail it ∧ it_coming it ≠ [].
Proof.
  unfold deliver, left_over. destruct (it_coming it) as [|l ls] eqn:E; [done|]. intros [= <-]. simpl.
  by rewrite <- app_assoc.
Qed.

Lemma receive_spec l q it b it1 :
  it_fail it = None → receive l q it = (b, it1) →
  it_event it1 = it_event it ∧ it_end it1 = it_end it ∧ it_done it1 = it_done it ∧ it_logs it1 = q ∧
  it_coming it1 = it_coming it ∧
  match parse_log (it_event it) l with
  | Err e => b = false ∧ it_fail it1 = Some e
  | Ok ev => b = true ∧ it_fail it1 = None ∧ it_Event it1 = Some ev
  end.
Proof.
  intros Hf. unfold receive. cbn [it_event set_logs]. destruct (parse_log (it_event it) l) as [ev|e]; intros [= <- <-];
    by split_and!.
Qed.

(** One call of [Next] on a subscription that ends without an error. *)
Lemma Next_spec c it b it1 :
  it_fail it = None → it_end it = None → (it_done it = true → it_coming it = []) → Next c it = Some (b, it1) →
  it_event it1 = it_event it ∧ it_end it1 = None ∧ (it_done it1 = true → it_coming it1 = []) ∧
  match left_over it with
  | [] => b = false ∧ it_fail it1 = None
  | l :: ls =>
      match parse_log (it_event it) l with
      | Err e => b = false ∧ it_fail it1 = Some e
      | Ok ev => b = true ∧ it_fail it1 = None ∧ it_Event it1 = Some ev ∧ left_over it1 = ls
      end
  end.
Proof.
  intros Hf He Hd Hn. unfold Next in Hn. rewrite Hf in Hn. unfold left_over.
  assert (Hrec : ∀ l q it0, it_logs it = l :: q → it_event it0 = it_event it → it_end it0 = None →
    it_coming it0 = it_coming it → it_fail it0 = None → (it_done it0 = true → it_coming it = []) →
    receive l q it0 = (b, it1) →
    it_event it1 = it_event it ∧ it_end it1 = None ∧ (it_done it1 = true → it_coming it1 = []) ∧
    match parse_log (it_event it) l with
    | Err e => b = false ∧ it_fail it1 = Some e
    | Ok ev => b = true ∧ it_fail it1 = None ∧ it_Event it1 = Some ev ∧ it_logs it1 ++ it_coming it1 = q ++ it_coming it
    end).
  { intros l q it0 Hl H1 H2 H3 H4 H5 Hr. apply receive_spec in Hr as (E1 & E2 & E3 & E4 & E5 & E6); [|done].
    rewrite H1 in *. rewrite E1, E2, E3, E4, E5, H3. split_and!; try done.
    destruct (parse_log _ l); naive_solver. }
  assert (Hdone : ∀ it0, it_logs it0 = it_logs it → it_event it0 = it_event it → it_end it0 = None →
    it_coming it0 = it_coming it → it_fail it0 = None → it_coming it = [] → next_done it0 = (b, it1) →
    it_event it1 = it_event it ∧ it_end it1 = None ∧ (it_done it1 = true → it_coming it1 = []) ∧
    match it_logs it ++ it_coming it with
    | [] => b = false ∧ it_fail it1 = None
    | l :: ls =>
      match parse_log (it_event it) l with
      | Err e => b = false ∧ it_fail it1 = Some e
      | Ok ev => b = true ∧ it_fail it1 = None ∧ it_Event it1 = Some ev ∧ it_logs it1 ++ it_coming it1 = ls
      end
    end).
  { intros it0 H1 H2 H3 H4 H5 H6 Hx. unfold next_done in Hx. rewrite H5, H1 in Hx.
    destruct (it_logs it) as [|l q] eqn:El.
    - injection Hx as <- <-. rewrite H6. cbn [app]. split_and!; try done. intros _. by rewrite H4, H6.
    - cbn [app]. eapply Hrec; [done|exact H2|done..|exact Hx]. }
  destruct (it_done it) eqn:Ed.
  - injection Hn as Hn. eapply (Hdone it); try done. by apply Hd.
  - destruct (it_logs it) as [|l q] eqn:El; destruct (it_coming it) as [|l' ls] eqn:Ec; [|done| |].
    + injection Hn as Hn. eapply (Hdone (set_fail (it_end it) (set_done it))); try done.
    + injection Hn as Hn. destruct c.
      * eapply (Hdone (set_fail (it_end it) (set_done it))); try done.
      * cbn [app]. eapply (Hrec l q it); try done.
    + injection Hn as Hn. cbn [app]. eapply (Hrec l q it); try done. by rewrite Ed.
Qed.

Lemma iterates_exact it evs it' :
  iterates it evs it' → it_fail it = None → it_end it = None → (it_done it = true → it_coming it = []) →
  (evs, it_fail it') = events_of (it_event it) (left_over it).
Proof.
  induction 1 as [it it1 evs it' Hd _ IH|c it it1 ev evs it' Hn Hev _ IH|c it it' Hn]; intros Hf He Hdc.
  - apply deliver_left in Hd as (<- & <- & Ee & Ed & Ef & Hc). apply IH; [congruence|congruence|].
    rewrite Ed. intros ?. by destruct Hc, Hdc.
  - apply Next_spec in Hn as (E1 & E2 & E3 & Hn); [|done..]. destruct (left_over it) as [|l ls]; [by destruct Hn|].
    cbn [events_of]. destruct (parse_log _ l) as [ev'|e] eqn:Ep; [|by destruct Hn].
    destruct Hn as (_ & Hf1 & Hev1 & Hl). assert (ev' = ev) as -> by congruence.
    rewrite <- E1, <- Hl, <- IH; done.
  - apply Next_spec in Hn as (E1 & E2 & E3 & Hn); [|done..]. destruct (left_over it) as [|l ls]; cbn [events_of].
    + by destruct Hn as [_ ->].
    + destruct (parse_log _ l) as [ev'|e] eqn:Ep; [by destruct Hn|]. by destruct Hn as [_ ->].
Qed.

(** A call waits only for a log that is still to come, so a loop can always go
    on, and it ends. *)
Lemma Next_waits c it : Next c it = None → ∃ it1, deliver it = Some it1.
Proof.
  unfold Next, deliver. destruct (it_fail it), (it_done it), (it_logs it), (it_coming it); try done; eauto.
Qed.
Lemma iterates_total it :
  it_fail it = None → it_end it = None → (it_done it = true → it_coming it = []) → ∃ evs it', iterates it evs it'.
Proof.
  remember (2 * length (it_coming it) + length (it_logs it))%nat as n eqn:Hn. revert it Hn.
  induction (lt_wf n) as [n _ IH]. intros it -> Hf He Hd. destruct (Next false it) as [[[] it1]|] eqn:E.
  - pose proof (Next_spec _ _ _ _ Hf He Hd E) as (E1 & E2 & E3 & Hn).
    destruct (left_over it) as [|l ls] eqn:El; [by destruct Hn|].
    destruct (parse_log _ l) as [ev|e]; [|by destruct Hn]. destruct Hn as (_ & Hf1 & Hev & Hl).
    destruct (IH (2 * length (it_coming it1) + length (it_logs it1))%nat) with it1 as (evs & it' & Hi); try done.
    + assert (Hc : it_coming it1 = it_coming it).
      { unfold Next in E. rewrite Hf in E. unfold next_done, receive in E. repeat case_match; simplify_eq/=; done. }
      apply (f_equal length) in El, Hl. unfold left_over in El, Hl. rewrite !length_app in *. simpl in *.
      rewrite Hc in *. lia.
    + exists (ev :: evs), it'. by eapply its_true.
  - exists [], it1. by eapply its_false.
  - apply Next_waits in E as [it1 E]. pose proof (deliver_left _ _ E) as (El & E1 & E2 & E3 & E4 & _).
    destruct (IH (2 * length (it_coming it1) + length (it_logs it1))%nat) with it1 as (evs & it' & Hi);
      [|done|congruence|congruence| |].
    + unfold deliver in E. destruct (it_coming it); [done|]. injection E as <-. simpl. rewrite length_app. simpl. lia.
    + rewrite E3. intros Hx. unfold deliver in E. rewrite (Hd Hx) in E. done.
    + exists evs, it'. by eapply its_deliver.
Qed.

(** Iterating over past events loses nothing and invents nothing.  The loop
    [for it.Next()] over the result of a [Filter] always can run to its end,
    and however the runtime orders the arrival of logs, the calls and the end
    of the subscription, it sees exactly the events of the logs found, in
    order, up to the first log that does not unpack; [Error] then reports
    that log's error, and nothing when all unpack. *)
Theorem filter_iterates_exact name opts rules sub it :
  b_FilterLogs contract opts name rules = Ok sub → sb_end sub = None →
  filter_events name opts rules = Ok it →
  (∃ evs it', iterates it evs it') ∧
  ∀ evs it', iterates it evs it' → (evs, Error it') = events_of name (sb_logs sub).
Proof.
  intros Hs He Hf. unfold filter_events in Hf. rewrite Hs in Hf. injection Hf as <-. split.
  - by apply iterates_total.
  - intros evs it' Hi. by apply iterates_exact in Hi.
Qed.

(** A subscription that ends with an error may hide logs that had arrived: the
    loop then sees a prefix, and [Error] is set. *)
Lemma iterates_prefix it evs it' e :
  iterates it evs it' → it_fail it = None → it_end it = Some e → it_done it = false →
  ∃ rest, (events_of (it_event it) (left_over it)).1 = evs ++ rest ∧ is_Some (Error it').
Proof.
  induction 1 as [it it1 evs it' Hd _ IH|c it it1 ev evs it' Hn Hev _ IH|c it it' Hn]; intros Hf He Hdn.
  - apply deliver_left in Hd as (<- & <- & Ee & Ed & Ef & Hc). apply IH; congruence.
  - unfold Next in Hn. rewrite Hf, Hdn in Hn. unfold left_over.
    assert (Hr : ∀ l q, it_logs it = l :: q → receive l q it = (true, it1) →
      ∃ rest, (events_of (it_event it) (it_logs it ++ it_coming it)).1 = (ev :: evs) ++ rest ∧ is_Some (Error it')).
    { intros l q Hl Hr. rewrite Hl. cbn [app events_of].
      apply receive_spec in Hr as (E1 & E2 & E3 & E4 & E5 & E6); [|done].
      destruct (parse_log _ l) as [ev'|]; [|by destruct E6]. destruct E6 as (_ & Hf1 & Hev1).
      destruct IH as (rest & Hrest & Her); [done|congruence|congruence|]. exists rest. unfold left_over in Hrest.
      rewrite E1, E4, E5 in Hrest. destruct (events_of _ (q ++ _)). simpl in *. split; [|done].
      rewrite Hrest. congruence. }
    rewrite He in Hn. unfold next_done in Hn. cbn in Hn. repeat case_match; simplify_eq/=; by eapply Hr.
  - exists (events_of (it_event it) (left_over it)).1. split; [done|]. unfold Next in Hn. rewrite Hf, Hdn in Hn.
    unfold Error. rewrite He in Hn. unfold next_done, receive in Hn. cbn in Hn.
    repeat case_match; simplify_eq/=; done.
Qed.

(** A subscription hands the events of its logs to the sink, in order and once
    each, and runs until an error, a quit or a log that does not unpack. *)
Lemma watch_loop_exact name ins :
  let '(evs, r) := watch_loop name ins in
  evs `prefix_of` (events_of name (omap (λ i, match i with WatchLog l _ => Some l | _ => None end) ins)).1 ∧
  (r = None → length evs = length ins ∧ Forall (λ i, ∃ l, i = WatchLog l SinkTakes) ins).
Proof.
  induction ins as [|[l s|e|] ins IH]; simpl; [done| |split; [apply prefix_nil|done]..].
  destruct (parse_log name l) as [ev|e]; [|split; [apply prefix_nil|done]].
  destruct s; [|split; [apply prefix_nil|done]..].
  destruct (watch_loop name ins) as [evs r]. destruct IH as [IH1 IH2]. destruct (events_of name _) as [evs' r'].
  simpl in *. split; [by apply prefix_cons|]. intros Hr. destruct (IH2 Hr) as [-> ?]. split; [done|].
  constructor; [eauto|done].
Qed.
End template.
Arguments Event : clear implicits. Arguments Iterator : clear implicits. Arguments watch_input : clear implicits.
Arguments eb_Filter {FO LG R E}. Arguments eb_Next {FO LG R E}. Arguments eb_Event {FO LG R E}.
Arguments eb_Watch {FO LG R E}. Arguments eb_Parse {FO LG R E}.
