(* ===== verification/LotteryBindings.v ===== *)
(** * The generated bindings of the lottery contracts

    network/payments/bindings: the methods and events of the Go bindings of
    PaymentChannel, SettlementEngine, ProviderRegistry and CommitRevealEntropy,
    over any [bind.BoundContract]; then the contracts of Lottery.v as such a
    backend, with what each binding call does there. *)

From S2P Require Import Prelude Bindings Tickets EscrowContract EthEscrow Lottery LotterySafety Abigen.

Section bindings.
Context {GE : GoEthereum} {LO : Lottery} {CO FO TX LG : Type} (c : Bound CO FO TX LG).
#[local] Abbreviation EventBinding := (EventBinding (FO := FO) (LG := LG)).

(** ** PaymentChannel: paymentchannel/payment_channel.go *)

(** Views. *)
Definition PaymentChannelCaller_AuthorizedPayoutEngine (opts : CO) (arg0 : list byte) : result bool :=
  call1 c to_Bool opts "authorizedPayoutEngine" [VAddress arg0].
Definition PaymentChannelCaller_ChannelBalance (opts : CO) (sender recipient : list byte) : result Z :=
  call1 c to_Uint opts "channelBalance" [VAddress sender; VAddress recipient].
Definition PaymentChannelCaller_Channels (opts : CO) (arg0 : list byte) : result (Z * Z * Z * Z) :=
  let! out := b_Call c opts "channels" [VBytes32 arg0] in
  let! totalDeposited := out_at to_Uint 0 out in
  let! settledAmount := out_at to_Uint 1 out in
  let! withdrawnAmount := out_at to_Uint 2 out in
  let! unlockBlock := out_at to_Uint 3 out in
  Ok (totalDeposited, settledAmount, withdrawnAmount, unlockBlock).
Definition PaymentChannelCaller_Config (opts : CO) : result (list byte) :=
  call1 c to_Address opts "config" [].
Definition PaymentChannelCaller_GetChannelKey (opts : CO) (sender recipient : list byte) : result (list byte) :=
  call1 c to_Bytes32 opts "getChannelKey" [VAddress sender; VAddress recipient].
Definition PaymentChannelCaller_IsUnlockInitiated (opts : CO) (sender recipient : list byte) : result bool :=
  call1 c to_Bool opts "isUnlockInitiated" [VAddress sender; VAddress recipient].
Definition PaymentChannelCaller_Owner (opts : CO) : result (list byte) :=
  call1 c to_Address opts "owner" [].
Definition PaymentChannelCaller_Paused (opts : CO) : result bool :=
  call1 c to_Bool opts "paused" [].

(** Transactions. *)
Definition PaymentChannelTransactor_DepositToChannel (opts : TransactOpts) (recipient : list byte) : result TX :=
  b_Transact c opts "depositToChannel" [VAddress recipient].
Definition PaymentChannelTransactor_InitiateChannelUnlock (opts : TransactOpts) (recipient : list byte) : result TX :=
  b_Transact c opts "initiateChannelUnlock" [VAddress recipient].
Definition PaymentChannelTransactor_OpenChannel (opts : TransactOpts) (recipient : list byte) : result TX :=
  b_Transact c opts "openChannel" [VAddress recipient].
Definition PaymentChannelTransactor_Pause (opts : TransactOpts) : result TX :=
  b_Transact c opts "pause" [].
Definition PaymentChannelTransactor_PayoutProvider (opts : TransactOpts) (sender recipient : list byte) (amount : Z)
    : result TX :=
  b_Transact c opts "payoutProvider" [VAddress sender; VAddress recipient; VUint amount].
Definition PaymentChannelTransactor_SetPayoutEngine (opts : TransactOpts) (engine : list byte) (authorized : bool)
    : result TX :=
  b_Transact c opts "setPayoutEngine" [VAddress engine; VBool authorized].
Definition PaymentChannelTransactor_Unpause (opts : TransactOpts) : result TX :=
  b_Transact c opts "unpause" [].
Definition PaymentChannelTransactor_WithdrawChannel (opts : TransactOpts) (recipient : list byte) : result TX :=
  b_Transact c opts "withdrawChannel" [VAddress recipient].

(** Events. *)
Definition PaymentChannelChannelDeposited : EventBinding (list (list byte) * list (list byte)) event :=
  event_binding c "ChannelDeposited" (λ '(sender, recipient), [VAddress <$> sender; VAddress <$> recipient])
    (λ vs, match vs with
       | [VAddress sender; VAddress recipient; VUint amount] =>
           Ok (ChannelDeposited sender recipient amount)
       | _ => Err GoPanic
       end).
Definition PaymentChannelChannelOpened : EventBinding (list (list byte) * list (list byte)) event :=
  event_binding c "ChannelOpened" (λ '(sender, recipient), [VAddress <$> sender; VAddress <$> recipient])
    (λ vs, match vs with
       | [VAddress sender; VAddress recipient; VUint amount] =>
           Ok (ChannelOpened sender recipient amount)
       | _ => Err GoPanic
       end).
Definition PaymentChannelChannelPayoutExecuted : EventBinding (list (list byte) * list (list byte)) event :=
  event_binding c "ChannelPayoutExecuted" (λ '(sender, recipient), [VAddress <$> sender; VAddress <$> recipient])
    (λ vs, match vs with
       | [VAddress sender; VAddress recipient; VUint amount] =>
           Ok (ChannelPayoutExecuted sender recipient amount)
       | _ => Err GoPanic
       end).
Definition PaymentChannelChannelUnlockInitiated : EventBinding (list (list byte) * list (list byte)) event :=
  event_binding c "ChannelUnlockInitiated" (λ '(sender, recipient), [VAddress <$> sender; VAddress <$> recipient])
    (λ vs, match vs with
       | [VAddress sender; VAddress recipient; VUint unlockBlock] =>
           Ok (ChannelUnlockInitiated sender recipient unlockBlock)
       | _ => Err GoPanic
       end).
Definition PaymentChannelChannelWithdrawn : EventBinding (list (list byte) * list (list byte)) event :=
  event_binding c "ChannelWithdrawn" (λ '(sender, recipient), [VAddress <$> sender; VAddress <$> recipient])
    (λ vs, match vs with
       | [VAddress sender; VAddress recipient; VUint amount] =>
           Ok (ChannelWithdrawn sender recipient amount)
       | _ => Err GoPanic
       end).
Definition PaymentChannelPaused : EventBinding (unit) event :=
  event_binding c "Paused" (λ _, [])
    (λ vs, match vs with
       | [VAddress account] =>
           Ok (Paused channelAddr account)
       | _ => Err GoPanic
       end).
Definition PaymentChannelUnpaused : EventBinding (unit) event :=
  event_binding c "Unpaused" (λ _, [])
    (λ vs, match vs with
       | [VAddress account] =>
           Ok (Unpaused channelAddr account)
       | _ => Err GoPanic
       end).

(** ** SettlementEngine: settlementengine/settlement_engine.go *)

(** Views. *)
Definition SettlementEngineCaller_Config (opts : CO) : result (list byte) :=
  call1 c to_Address opts "config" [].
Definition SettlementEngineCaller_DisputeResolver (opts : CO) : result (list byte) :=
  call1 c to_Address opts "disputeResolver" [].
Definition SettlementEngineCaller_EntropySource (opts : CO) : result (list byte) :=
  call1 c to_Address opts "entropySource" [].
Definition SettlementEngineCaller_GetRoundStatus (opts : CO) (sender recipient : list byte) (roundId : Z)
    : result Z :=
  call1 c to_Uint8 opts "getRoundStatus" [VAddress sender; VAddress recipient; VUint roundId].
Definition SettlementEngineCaller_Owner (opts : CO) : result (list byte) :=
  call1 c to_Address opts "owner" [].
Definition SettlementEngineCaller_Paused (opts : CO) : result bool :=
  call1 c to_Bool opts "paused" [].
Definition SettlementEngineCaller_PaymentChannel (opts : CO) : result (list byte) :=
  call1 c to_Address opts "paymentChannel" [].
Definition SettlementEngineCaller_PreviewWinnerIndex (opts : CO) (sender recipient : list byte) (roundId : Z) (secret : list byte)
    : result Z :=
  call1 c to_Uint opts "previewWinnerIndex" [VAddress sender; VAddress recipient; VUint roundId; VBytes32 secret].
Definition SettlementEngineCaller_ProviderRegistry (opts : CO) : result (list byte) :=
  call1 c to_Address opts "providerRegistry" [].
Definition SettlementEngineCaller_Rounds (opts : CO) (arg0 : list byte) : result (Z * Z * (list byte) * Z * Z) :=
  let! out := b_Call c opts "rounds" [VBytes32 arg0] in
  let! tau := out_at to_Uint 0 out in
  let! faceValue := out_at to_Uint 1 out in
  let! recipientRandHash := out_at to_Bytes32 2 out in
  let! commitBlock := out_at to_Uint 3 out in
  let! status := out_at to_Uint8 4 out in
  Ok (tau, faceValue, recipientRandHash, commitBlock, status).
Definition SettlementEngineCaller_UsedFallbackTickets (opts : CO) (arg0 : list byte) : result bool :=
  call1 c to_Bool opts "usedFallbackTickets" [VBytes32 arg0].
Definition SettlementEngineCaller_UsedTickets (opts : CO) (arg0 : list byte) : result bool :=
  call1 c to_Bool opts "usedTickets" [VBytes32 arg0].

(** Transactions. *)
Definition SettlementEngineTransactor_ClaimFallbackTicket (opts : TransactOpts) (ticket : SolTicket) (senderSig secret : list byte)
    : result TX :=
  b_Transact c opts "claimFallbackTicket" [VTicket ticket; VBytes senderSig; VBytes32 secret].
Definition SettlementEngineTransactor_CommitRoundSecret (opts : TransactOpts) (sender : list byte) (roundId tau faceValue : Z) (recipientRandHash : list byte)
    : result TX :=
  b_Transact c opts "commitRoundSecret" [VAddress sender; VUint roundId; VUint tau; VUint faceValue; VBytes32 recipientRandHash].
Definition SettlementEngineTransactor_MarkRoundPartial (opts : TransactOpts) (sender : list byte) (roundId : Z)
    : result TX :=
  b_Transact c opts "markRoundPartial" [VAddress sender; VUint roundId].
Definition SettlementEngineTransactor_Pause (opts : TransactOpts) : result TX :=
  b_Transact c opts "pause" [].
Definition SettlementEngineTransactor_SetDisputeResolver (opts : TransactOpts) (disputeResolver : list byte)
    : result TX :=
  b_Transact c opts "setDisputeResolver" [VAddress disputeResolver].
Definition SettlementEngineTransactor_SettleRound (opts : TransactOpts) (ticket : SolTicket) (senderSig secret : list byte)
    : result TX :=
  b_Transact c opts "settleRound" [VTicket ticket; VBytes senderSig; VBytes32 secret].
Definition SettlementEngineTransactor_SettleRoundBatch (opts : TransactOpts) (tickets : list SolTicket) (senderSigs secrets : list (list byte))
    : result TX :=
  b_Transact c opts "settleRoundBatch" [VTickets tickets; VBytess senderSigs; VBytes32s secrets].
Definition SettlementEngineTransactor_Unpause (opts : TransactOpts) : result TX :=
  b_Transact c opts "unpause" [].
Definition SettlementEngineTransactor_VoidRound (opts : TransactOpts) (sender recipient : list byte) (roundId : Z) (reason : list byte)
    : result TX :=
  b_Transact c opts "voidRound" [VAddress sender; VAddress recipient; VUint roundId; VBytes32 reason].

(** Events. *)
Definition SettlementEngineFallbackTicketClaimed : EventBinding (list (list byte) * list (list byte) * list Z) event :=
  event_binding c "FallbackTicketClaimed" (λ '(sender, recipient, roundId), [VAddress <$> sender; VAddress <$> recipient; VUint <$> roundId])
    (λ vs, match vs with
       | [VAddress sender; VAddress recipient; VUint roundId; VUint localIndex; VUint faceValue] =>
           Ok (FallbackTicketClaimed sender recipient roundId localIndex faceValue)
       | _ => Err GoPanic
       end).
Definition SettlementEnginePaused : EventBinding (unit) event :=
  event_binding c "Paused" (λ _, [])
    (λ vs, match vs with
       | [VAddress account] =>
           Ok (Paused engineAddr account)
       | _ => Err GoPanic
       end).
Definition SettlementEngineRoundCommitted : EventBinding (list (list byte) * list (list byte) * list Z) event :=
  event_binding c "RoundCommitted" (λ '(sender, recipient, roundId), [VAddress <$> sender; VAddress <$> recipient; VUint <$> roundId])
    (λ vs, match vs with
       | [VAddress sender; VAddress recipient; VUint roundId; VUint tau; VUint faceValue; VUint commitBlock] =>
           Ok (RoundCommitted sender recipient roundId tau faceValue commitBlock)
       | _ => Err GoPanic
       end).
Definition SettlementEngineRoundMarkedPartial : EventBinding (list (list byte) * list (list byte) * list Z) event :=
  event_binding c "RoundMarkedPartial" (λ '(sender, recipient, roundId), [VAddress <$> sender; VAddress <$> recipient; VUint <$> roundId])
    (λ vs, match vs with
       | [VAddress sender; VAddress recipient; VUint roundId] =>
           Ok (RoundMarkedPartial sender recipient roundId)
       | _ => Err GoPanic
       end).
Definition SettlementEngineRoundSettled : EventBinding (list (list byte) * list (list byte) * list Z) event :=
  event_binding c "RoundSettled" (λ '(sender, recipient, roundId), [VAddress <$> sender; VAddress <$> recipient; VUint <$> roundId])
    (λ vs, match vs with
       | [VAddress sender; VAddress recipient; VUint roundId; VUint winningLocalIndex; VUint faceValue] =>
           Ok (RoundSettled sender recipient roundId winningLocalIndex faceValue)
       | _ => Err GoPanic
       end).
Definition SettlementEngineRoundVoided : EventBinding (list (list byte) * list (list byte) * list Z) event :=
  event_binding c "RoundVoided" (λ '(sender, recipient, roundId), [VAddress <$> sender; VAddress <$> recipient; VUint <$> roundId])
    (λ vs, match vs with
       | [VAddress sender; VAddress recipient; VUint roundId; VBytes32 reason] =>
           Ok (RoundVoided sender recipient roundId reason)
       | _ => Err GoPanic
       end).
Definition SettlementEngineUnpaused : EventBinding (unit) event :=
  event_binding c "Unpaused" (λ _, [])
    (λ vs, match vs with
       | [VAddress account] =>
           Ok (Unpaused engineAddr account)
       | _ => Err GoPanic
       end).

(** ** ProviderRegistry: providerregistry/provider_registry.go *)

(** Views. *)
Definition ProviderRegistryCaller_AuthorizedSlashers (opts : CO) (arg0 : list byte) : result bool :=
  call1 c to_Bool opts "authorizedSlashers" [VAddress arg0].
Definition ProviderRegistryCaller_Config (opts : CO) : result (list byte) :=
  call1 c to_Address opts "config" [].
Definition ProviderRegistryCaller_GetProviderStake (opts : CO) (provider : list byte) : result Z :=
  call1 c to_Uint opts "getProviderStake" [VAddress provider].
Definition ProviderRegistryCaller_IsProviderActive (opts : CO) (provider : list byte) : result bool :=
  call1 c to_Bool opts "isProviderActive" [VAddress provider].
Definition ProviderRegistryCaller_Owner (opts : CO) : result (list byte) :=
  call1 c to_Address opts "owner" [].
Definition ProviderRegistryCaller_Providers (opts : CO) (arg0 : list byte) : result (Z * Z * Z * bool) :=
  let! out := b_Call c opts "providers" [VAddress arg0] in
  let! stake := out_at to_Uint 0 out in
  let! unstakeReleaseBlock := out_at to_Uint 1 out in
  let! pendingUnstakeAmount := out_at to_Uint 2 out in
  let! registered := out_at to_Bool 3 out in
  Ok (stake, unstakeReleaseBlock, pendingUnstakeAmount, registered).

(** Transactions. *)
Definition ProviderRegistryTransactor_RegisterProvider (opts : TransactOpts) : result TX :=
  b_Transact c opts "registerProvider" [].
Definition ProviderRegistryTransactor_RequestPartialUnstake (opts : TransactOpts) (amount : Z) : result TX :=
  b_Transact c opts "requestPartialUnstake" [VUint amount].
Definition ProviderRegistryTransactor_RequestUnstake (opts : TransactOpts) : result TX :=
  b_Transact c opts "requestUnstake" [].
Definition ProviderRegistryTransactor_SetSlasher (opts : TransactOpts) (slasher : list byte) (authorized : bool)
    : result TX :=
  b_Transact c opts "setSlasher" [VAddress slasher; VBool authorized].
Definition ProviderRegistryTransactor_SlashProvider (opts : TransactOpts) (provider : list byte) (amount : Z) (reasonId : list byte)
    : result TX :=
  b_Transact c opts "slashProvider" [VAddress provider; VUint amount; VBytes32 reasonId].
Definition ProviderRegistryTransactor_WithdrawStake (opts : TransactOpts) : result TX :=
  b_Transact c opts "withdrawStake" [].

(** Events. *)
Definition ProviderRegistryProviderRegistered : EventBinding (list (list byte)) event :=
  event_binding c "ProviderRegistered" (λ provider, [VAddress <$> provider])
    (λ vs, match vs with
       | [VAddress provider; VUint totalStake] =>
           Ok (ProviderRegistered provider totalStake)
       | _ => Err GoPanic
       end).
Definition ProviderRegistryProviderSlashed : EventBinding (list (list byte) * list (list byte)) event :=
  event_binding c "ProviderSlashed" (λ '(provider, reasonId), [VAddress <$> provider; VBytes32 <$> reasonId])
    (λ vs, match vs with
       | [VAddress provider; VUint amount; VBytes32 reasonId] =>
           Ok (ProviderSlashed provider amount reasonId)
       | _ => Err GoPanic
       end).
Definition ProviderRegistryProviderStakeWithdrawn : EventBinding (list (list byte)) event :=
  event_binding c "ProviderStakeWithdrawn" (λ provider, [VAddress <$> provider])
    (λ vs, match vs with
       | [VAddress provider; VUint amount] =>
           Ok (ProviderStakeWithdrawn provider amount)
       | _ => Err GoPanic
       end).
Definition ProviderRegistryProviderUnstakeRequested : EventBinding (list (list byte)) event :=
  event_binding c "ProviderUnstakeRequested" (λ provider, [VAddress <$> provider])
    (λ vs, match vs with
       | [VAddress provider; VUint releaseBlock; VUint amount] =>
           Ok (ProviderUnstakeRequested provider releaseBlock amount)
       | _ => Err GoPanic
       end).

(** ** CommitRevealEntropy: commitreveal/commit_reveal.go *)

(** Views. *)
Definition CommitRevealEntropyCaller_ROUNDTICKETTYPEHASH (opts : CO) : result (list byte) :=
  call1 c to_Bytes32 opts "ROUND_TICKET_TYPEHASH" [].
Definition CommitRevealEntropyCaller_ComputeWinnerIndex (opts : CO) (commitBlock : Z) (secret : list byte) (roundId tau : Z)
    : result (Z * (list byte)) :=
  let! out := b_Call c opts "computeWinnerIndex" [VUint commitBlock; VBytes32 secret; VUint roundId; VUint tau] in
  let! winnerIndex := out_at to_Uint 0 out in
  let! targetBlockhash := out_at to_Bytes32 1 out in
  Ok (winnerIndex, targetBlockhash).
Definition CommitRevealEntropyCaller_Config (opts : CO) : result (list byte) :=
  call1 c to_Address opts "config" [].
Definition CommitRevealEntropyCaller_Eip712Domain (opts : CO)
    : result (byte * string * string * Z * (list byte) * (list byte) * (list Z)) :=
  let! out := b_Call c opts "eip712Domain" [] in
  let! fields := out_at to_Bytes1 0 out in
  let! name := out_at to_String 1 out in
  let! version := out_at to_String 2 out in
  let! chainId := out_at to_Uint 3 out in
  let! verifyingContract := out_at to_Address 4 out in
  let! salt := out_at to_Bytes32 5 out in
  let! extensions := out_at to_Uints 6 out in
  Ok (fields, name, version, chainId, verifyingContract, salt, extensions).
Definition CommitRevealEntropyCaller_RecoverSigner (opts : CO) (ticketHash sig : list byte) : result (list byte) :=
  call1 c to_Address opts "recoverSigner" [VBytes32 ticketHash; VBytes sig].
Definition CommitRevealEntropyCaller_RoundTicketHash (opts : CO) (ticket : SolTicket) : result (list byte) :=
  call1 c to_Bytes32 opts "roundTicketHash" [VTicket ticket].
Definition CommitRevealEntropyCaller_VerifySecretCommitment (opts : CO) (secret committedHash : list byte)
    : result bool :=
  call1 c to_Bool opts "verifySecretCommitment" [VBytes32 secret; VBytes32 committedHash].

(** Events. *)
Definition CommitRevealEntropyEIP712DomainChanged : EventBinding (unit) event :=
  event_binding c "EIP712DomainChanged" (λ _, [])
    (λ vs, match vs with
       | [] =>
           Ok (EIP712DomainChanged)
       | _ => Err GoPanic
       end).
End bindings.

(** ** The contracts behind the bindings *)

(** The ABI of the events: emitter, name, indexed values and all values. *)
(** What the accounts that a call pays would do, when a node runs the call to
    estimate its gas. *)
Class Recipients := { on_payment : operation → list (bool * list tx) }.

Section logs.
Context {GE : GoEthereum} {LO : Lottery} {RC : Recipients}.

Definition event_contract (e : event) : list byte :=
  match e with
  | ChannelOpened _ _ _ | ChannelDeposited _ _ _ | ChannelUnlockInitiated _ _ _ | ChannelWithdrawn _ _ _
  | ChannelPayoutExecuted _ _ _ => channelAddr
  | RoundCommitted _ _ _ _ _ _ | RoundSettled _ _ _ _ _ | RoundMarkedPartial _ _ _
  | FallbackTicketClaimed _ _ _ _ _ | RoundVoided _ _ _ _ => engineAddr
  | ProviderRegistered _ _ | ProviderUnstakeRequested _ _ _ | ProviderStakeWithdrawn _ _
  | ProviderSlashed _ _ _ => registryAddr
  | DisputeRaised _ _ _ _ _ | DisputeResolvedHonest _ _ _ _ | DisputeResolvedSlashed _ _ _ _ _ => resolverAddr
  | Paused a _ | Unpaused a _ => a
  | EIP712DomainChanged => entropyAddr
  end.
Definition event_name (e : event) : string :=
  match e with
  | ChannelOpened _ _ _ => "ChannelOpened" | ChannelDeposited _ _ _ => "ChannelDeposited"
  | ChannelUnlockInitiated _ _ _ => "ChannelUnlockInitiated" | ChannelWithdrawn _ _ _ => "ChannelWithdrawn"
  | ChannelPayoutExecuted _ _ _ => "ChannelPayoutExecuted" | RoundCommitted _ _ _ _ _ _ => "RoundCommitted"
  | RoundSettled _ _ _ _ _ => "RoundSettled" | RoundMarkedPartial _ _ _ => "RoundMarkedPartial"
  | FallbackTicketClaimed _ _ _ _ _ => "FallbackTicketClaimed" | RoundVoided _ _ _ _ => "RoundVoided"
  | ProviderRegistered _ _ => "ProviderRegistered" | ProviderUnstakeRequested _ _ _ => "ProviderUnstakeRequested"
  | ProviderStakeWithdrawn _ _ => "ProviderStakeWithdrawn" | ProviderSlashed _ _ _ => "ProviderSlashed"
  | DisputeRaised _ _ _ _ _ => "DisputeRaised" | DisputeResolvedHonest _ _ _ _ => "DisputeResolvedHonest"
  | DisputeResolvedSlashed _ _ _ _ _ => "DisputeResolvedSlashed" | Paused _ _ => "Paused"
  | Unpaused _ _ => "Unpaused" | EIP712DomainChanged => "EIP712DomainChanged"
  end.
(** Indexed values first; [ProviderSlashed] has its last argument indexed. *)
Definition event_topics (e : event) : list abi_value :=
  match e with
  | ChannelOpened s r _ | ChannelDeposited s r _ | ChannelUnlockInitiated s r _ | ChannelWithdrawn s r _
  | ChannelPayoutExecuted s r _ => [VAddress s; VAddress r]
  | RoundCommitted s r id _ _ _ | RoundSettled s r id _ _ | RoundMarkedPartial s r id
  | FallbackTicketClaimed s r id _ _ | RoundVoided s r id _ | DisputeRaised s r id _ _
  | DisputeResolvedHonest s r id _ | DisputeResolvedSlashed s r id _ _ => [VAddress s; VAddress r; VUint id]
  | ProviderRegistered p _ | ProviderUnstakeRequested p _ _ | ProviderStakeWithdrawn p _ => [VAddress p]
  | ProviderSlashed p _ h => [VAddress p; VBytes32 h]
  | Paused _ _ | Unpaused _ _ | EIP712DomainChanged => []
  end.
Definition event_values (e : event) : list abi_value :=
  match e with
  | ChannelOpened s r v | ChannelDeposited s r v | ChannelUnlockInitiated s r v | ChannelWithdrawn s r v
  | ChannelPayoutExecuted s r v => [VAddress s; VAddress r; VUint v]
  | RoundCommitted s r id tau v b => [VAddress s; VAddress r; VUint id; VUint tau; VUint v; VUint b]
  | RoundSettled s r id i v | FallbackTicketClaimed s r id i v | DisputeRaised s r id i v
  | DisputeResolvedSlashed s r id i v => [VAddress s; VAddress r; VUint id; VUint i; VUint v]
  | RoundMarkedPartial s r id => [VAddress s; VAddress r; VUint id]
  | RoundVoided s r id h => [VAddress s; VAddress r; VUint id; VBytes32 h]
  | DisputeResolvedHonest s r id i => [VAddress s; VAddress r; VUint id; VUint i]
  | ProviderRegistered p v | ProviderStakeWithdrawn p v => [VAddress p; VUint v]
  | ProviderUnstakeRequested p b v => [VAddress p; VUint b; VUint v]
  | ProviderSlashed p v h => [VAddress p; VUint v; VBytes32 h]
  | Paused _ a | Unpaused _ a => [VAddress a]
  | EIP712DomainChanged => []
  end.

(** A topic filter: an empty rule accepts every value. *)
Fixpoint topics_match (rules : list (list abi_value)) (topics : list abi_value) : Prop :=
  match rules, topics with
  | [], _ => True
  | rule :: rules, t :: topics => (rule = [] ∨ t ∈ rule) ∧ topics_match rules topics
  | _ :: _, [] => False
  end.
#[global] Instance SolTicket_eq_dec : EqDecision SolTicket.
Proof. solve_decision. Defined.
#[global] Instance abi_value_eq_dec : EqDecision abi_value.
Proof. solve_decision. Defined.
#[global] Instance topics_match_dec rules topics : Decision (topics_match rules topics).
Proof. revert topics. induction rules as [|rule rules IH]; intros [|t topics]; simpl; apply _. Defined.

Definition is_log_of (a : list byte) (name : string) (rules : list (list abi_value)) (e : event) : Prop :=
  event_contract e = a ∧ event_name e = name ∧ topics_match rules (event_topics e).
#[global] Instance is_log_of_dec a name rules e : Decision (is_log_of a name rules e).
Proof. unfold is_log_of. apply _. Defined.

(** ** The ABI of the methods *)

Definition table (A : Type) : Type := list (string * (list abi_value → option A)).
Definition method {A} (t : table A) (name : string) (args : list abi_value) : option A :=
  f ← snd <$> (list_find (λ p, p.1 = name) t ≫= λ x, Some x.2); f args.

Definition pc_methods : table operation :=
  [("openChannel", λ args, match args with [VAddress r] => Some (op_openChannel r) | _ => None end);
   ("depositToChannel", λ args, match args with [VAddress r] => Some (op_depositToChannel r) | _ => None end);
   ("initiateChannelUnlock", λ args, match args with [VAddress r] => Some (op_initiateChannelUnlock r) | _ => None end);
   ("withdrawChannel", λ args, match args with [VAddress r] => Some (op_withdrawChannel r) | _ => None end);
   ("payoutProvider", λ args, match args with
      [VAddress s; VAddress r; VUint v] => Some (op_payoutProvider s r v) | _ => None end);
   ("setPayoutEngine", λ args, match args with [VAddress e; VBool b] => Some (op_setPayoutEngine e b) | _ => None end);
   ("pause", λ args, match args with [] => Some op_pc_pause | _ => None end);
   ("unpause", λ args, match args with [] => Some op_pc_unpause | _ => None end)].

Definition se_methods : table operation :=
  [("commitRoundSecret", λ args, match args with
      [VAddress s; VUint id; VUint tau; VUint v; VBytes32 h] => Some (op_commitRoundSecret s id tau v h) | _ => None end);
   ("settleRound", λ args, match args with
      [VTicket t; VBytes sig; VBytes32 secret] => Some (op_settleRound t sig secret) | _ => None end);
   ("settleRoundBatch", λ args, match args with
      [VTickets ts; VBytess sigs; VBytes32s secrets] => Some (op_settleRoundBatch ts sigs secrets) | _ => None end);
   ("markRoundPartial", λ args, match args with [VAddress s; VUint id] => Some (op_markRoundPartial s id) | _ => None end);
   ("claimFallbackTicket", λ args, match args with
      [VTicket t; VBytes sig; VBytes32 secret] => Some (op_claimFallbackTicket t sig secret) | _ => None end);
   ("voidRound", λ args, match args with
      [VAddress s; VAddress r; VUint id; VBytes32 h] => Some (op_voidRound s r id h) | _ => None end);
   ("setDisputeResolver", λ args, match args with [VAddress a] => Some (op_setDisputeResolver a) | _ => None end);
   ("pause", λ args, match args with [] => Some op_se_pause | _ => None end);
   ("unpause", λ args, match args with [] => Some op_se_unpause | _ => None end)].

Definition pr_methods : table operation :=
  [("registerProvider", λ args, match args with [] => Some op_registerProvider | _ => None end);
   ("requestUnstake", λ args, match args with [] => Some op_requestUnstake | _ => None end);
   ("requestPartialUnstake", λ args, match args with [VUint v] => Some (op_requestPartialUnstake v) | _ => None end);
   ("withdrawStake", λ args, match args with [] => Some op_withdrawStake | _ => None end);
   ("slashProvider", λ args, match args with
      [VAddress p; VUint v; VBytes32 h] => Some (op_slashProvider p v h) | _ => None end);
   ("setSlasher", λ args, match args with [VAddress a; VBool b] => Some (op_setSlasher a b) | _ => None end)].

(** The status codes of the [RoundStatus] enum. *)
Definition round_status_code (st : RoundStatus) : Z :=
  match st with Uncommitted => 0 | Open => 1 | Settled => 2 | PartialFallback => 3 | Voided => 4 end.

Definition view1 {A} (f : list abi_value → option A) (ret : A → abi_value) (args : list abi_value)
    : option (result (list abi_value)) :=
  a ← f args; Some (Ok [ret a]).

Definition pc_views (w : World) : table (result (list abi_value)) :=
  [("authorizedPayoutEngine", view1 (λ args, match args with
      [VAddress a] => Some (bool_decide (a ∈ pc_engines (w_pc w))) | _ => None end) VBool);
   ("channelBalance", λ args, match args with
      [VAddress s; VAddress r] => Some (let! v := channelBalance s r w in Ok [VUint v]) | _ => None end);
   ("channels", λ args, match args with
      [VBytes32 k] => let ch := channel_at k w in
        Some (Ok [VUint (ch_totalDeposited ch); VUint (ch_settledAmount ch); VUint (ch_withdrawnAmount ch);
                  VUint (ch_unlockBlock ch)])
      | _ => None end);
   ("config", view1 (λ args, match args with [] => Some configAddr | _ => None end) VAddress);
   ("getChannelKey", view1 (λ args, match args with
      [VAddress s; VAddress r] => Some (getChannelKey s r) | _ => None end) VBytes32);
   ("isUnlockInitiated", view1 (λ args, match args with
      [VAddress s; VAddress r] => Some (isUnlockInitiated s r w) | _ => None end) VBool);
   ("owner", view1 (λ args, match args with [] => Some (pc_owner (w_pc w)) | _ => None end) VAddress);
   ("paused", view1 (λ args, match args with [] => Some (pc_paused (w_pc w)) | _ => None end) VBool)].

Definition se_views (b : Block) (w : World) : table (result (list abi_value)) :=
  [("config", view1 (λ args, match args with [] => Some configAddr | _ => None end) VAddress);
   ("disputeResolver", view1 (λ args, match args with [] => Some (se_resolver (w_se w)) | _ => None end) VAddress);
   ("entropySource", view1 (λ args, match args with [] => Some entropyAddr | _ => None end) VAddress);
   ("paymentChannel", view1 (λ args, match args with [] => Some channelAddr | _ => None end) VAddress);
   ("providerRegistry", view1 (λ args, match args with [] => Some registryAddr | _ => None end) VAddress);
   ("getRoundStatus", view1 (λ args, match args with
      [VAddress s; VAddress r; VUint id] => Some (round_status_code (getRoundStatus s r id w)) | _ => None end) VUint8);
   ("previewWinnerIndex", λ args, match args with
      [VAddress s; VAddress r; VUint id; VBytes32 secret] =>
        Some (let! i := previewWinnerIndex s r id secret b w in Ok [VUint i])
      | _ => None end);
   ("rounds", λ args, match args with
      [VBytes32 k] => let r := round_at k w in
        Some (Ok [VUint (rd_tau r); VUint (rd_faceValue r); VBytes32 (rd_recipientRandHash r);
                  VUint (rd_commitBlock r); VUint8 (round_status_code (rd_status r))])
      | _ => None end);
   ("usedFallbackTickets", view1 (λ args, match args with
      [VBytes32 h] => Some (bool_decide (h ∈ se_usedFallback (w_se w))) | _ => None end) VBool);
   ("usedTickets", view1 (λ args, match args with
      [VBytes32 h] => Some (bool_decide (h ∈ se_used (w_se w))) | _ => None end) VBool);
   ("owner", view1 (λ args, match args with [] => Some (se_owner (w_se w)) | _ => None end) VAddress);
   ("paused", view1 (λ args, match args with [] => Some (se_paused (w_se w)) | _ => None end) VBool)].

Definition pr_views (w : World) : table (result (list abi_value)) :=
  [("authorizedSlashers", view1 (λ args, match args with
      [VAddress a] => Some (bool_decide (a ∈ pr_slashers (w_pr w))) | _ => None end) VBool);
   ("config", view1 (λ args, match args with [] => Some configAddr | _ => None end) VAddress);
   ("getProviderStake", view1 (λ args, match args with
      [VAddress p] => Some (getProviderStake p w) | _ => None end) VUint);
   ("isProviderActive", view1 (λ args, match args with
      [VAddress p] => Some (isProviderActive p w) | _ => None end) VBool);
   ("owner", view1 (λ args, match args with [] => Some (pr_owner (w_pr w)) | _ => None end) VAddress);
   ("providers", λ args, match args with
      [VAddress a] => let p := provider_at a w in
        Some (Ok [VUint (pv_stake p); VUint (pv_unstakeReleaseBlock p); VUint (pv_pendingUnstakeAmount p);
                  VBool (pv_registered p)])
      | _ => None end)].

Definition cr_views (b : Block) : table (result (list abi_value)) :=
  [("ROUND_TICKET_TYPEHASH", view1 (λ args, match args with [] => Some ROUND_TICKET_TYPEHASH | _ => None end) VBytes32);
   ("computeWinnerIndex", λ args, match args with
      [VUint cb; VBytes32 secret; VUint id; VUint tau] =>
        Some (let! (i, h) := computeWinnerIndex cb secret id tau b in Ok [VUint i; VBytes32 h])
      | _ => None end);
   ("config", view1 (λ args, match args with [] => Some configAddr | _ => None end) VAddress);
   ("eip712Domain", λ args, match args with
      [] => Some (Ok [VBytes1 x0f; VString "CIPHER Payment Protocol"; VString "1.0.0"; VUint lotteryChain;
                      VAddress entropyAddr; VBytes32 (zero_bytes 32); VUints []])
      | _ => None end);
   ("recoverSigner", λ args, match args with
      [VBytes32 h; VBytes sig] => Some (let! a := recoverSigner h sig in Ok [VAddress a]) | _ => None end);
   ("roundTicketHash", view1 (λ args, match args with [VTicket t] => Some (roundTicketHash t) | _ => None end) VBytes32);
   ("verifySecretCommitment", view1 (λ args, match args with
      [VBytes32 secret; VBytes32 h] => Some (verifySecretCommitment secret h) | _ => None end) VBool)].

(** A transaction in a block, with what the accounts it pays do. *)
Definition mine (b : Block) (t : Sent operation) (replies : list (bool * list tx)) (w : World) : result World :=
  exec b (Tx (sent_from t) (sent_value t) (sent_op t) replies) w.

(** The contract at address [a], with its methods and views, at a node whose
    chain is in state [w] and whose next block is [b].  A transaction is run
    there to estimate its gas, refused if it reverts, and otherwise handed in
    for a later block; past logs are the events so far, oldest first; a log
    unpacks as the event it is. *)
Definition no_method : error := New "execution reverted".
Definition chain (a : list byte) (methods : table operation) (views : table (result (list abi_value)))
    (b : Block) (w : World) : Bound () () (Sent operation) event :=
  {| b_Call _ m args := default (Err no_method) (method views m args);
     b_Transact opts m args :=
       match method methods m args with
       | Some op =>
           let t := {| sent_from := to_From opts; sent_value := default 0 (to_Value opts); sent_op := op |} in
           let! _ := mine b t (on_payment op) w in Ok t
       | None => Err no_method
       end;
     b_FilterLogs _ name rules := Ok {| sb_logs := filter (is_log_of a name rules) (reverse (w_log w)); sb_end := None |};
     b_WatchLogs _ _ _ := Ok tt;
     b_UnpackLog name e :=
       if decide (event_name e = name) then Ok (event_values e) else Err (New "event signature mismatch") |}.
Definition pc_chain b w := chain channelAddr pc_methods (pc_views w) b w.
Definition se_chain b w := chain engineAddr se_methods (se_views b w) b w.
Definition pr_chain b w := chain registryAddr pr_methods (pr_views w) b w.
Definition cr_chain b w := chain entropyAddr [] (cr_views b) b w.

(** ** What the bindings do there *)

(** Every transaction of a binding is the operation of its name, on its
    arguments in its order, from the account and with the value of the
    options; it is handed in when it would succeed in the node's next block. *)
Theorem transactions_reach b w opts :
  let sent op :=
    let t := {| sent_from := to_From opts; sent_value := default 0 (to_Value opts); sent_op := op |} in
    let! _ := mine b t (on_payment op) w in Ok t in
  ((∀ r, PaymentChannelTransactor_OpenChannel (pc_chain b w) opts r = sent (op_openChannel r)) ∧
   (∀ r, PaymentChannelTransactor_DepositToChannel (pc_chain b w) opts r = sent (op_depositToChannel r)) ∧
   (∀ r, PaymentChannelTransactor_InitiateChannelUnlock (pc_chain b w) opts r = sent (op_initiateChannelUnlock r)) ∧
   (∀ r, PaymentChannelTransactor_WithdrawChannel (pc_chain b w) opts r = sent (op_withdrawChannel r)) ∧
   (∀ s r v, PaymentChannelTransactor_PayoutProvider (pc_chain b w) opts s r v = sent (op_payoutProvider s r v)) ∧
   (∀ e a, PaymentChannelTransactor_SetPayoutEngine (pc_chain b w) opts e a = sent (op_setPayoutEngine e a)) ∧
   PaymentChannelTransactor_Pause (pc_chain b w) opts = sent op_pc_pause ∧
   PaymentChannelTransactor_Unpause (pc_chain b w) opts = sent op_pc_unpause) ∧
  ((∀ s id tau v h, SettlementEngineTransactor_CommitRoundSecret (se_chain b w) opts s id tau v h
      = sent (op_commitRoundSecret s id tau v h)) ∧
   (∀ t sig secret, SettlementEngineTransactor_SettleRound (se_chain b w) opts t sig secret
      = sent (op_settleRound t sig secret)) ∧
   (∀ ts sigs secrets, SettlementEngineTransactor_SettleRoundBatch (se_chain b w) opts ts sigs secrets
      = sent (op_settleRoundBatch ts sigs secrets)) ∧
   (∀ s id, SettlementEngineTransactor_MarkRoundPartial (se_chain b w) opts s id = sent (op_markRoundPartial s id)) ∧
   (∀ t sig secret, SettlementEngineTransactor_ClaimFallbackTicket (se_chain b w) opts t sig secret
      = sent (op_claimFallbackTicket t sig secret)) ∧
   (∀ s r id h, SettlementEngineTransactor_VoidRound (se_chain b w) opts s r id h = sent (op_voidRound s r id h)) ∧
   (∀ a, SettlementEngineTransactor_SetDisputeResolver (se_chain b w) opts a = sent (op_setDisputeResolver a)) ∧
   SettlementEngineTransactor_Pause (se_chain b w) opts = sent op_se_pause ∧
   SettlementEngineTransactor_Unpause (se_chain b w) opts = sent op_se_unpause) ∧
  (ProviderRegistryTransactor_RegisterProvider (pr_chain b w) opts = sent op_registerProvider ∧
   ProviderRegistryTransactor_RequestUnstake (pr_chain b w) opts = sent op_requestUnstake ∧
   (∀ v, ProviderRegistryTransactor_RequestPartialUnstake (pr_chain b w) opts v = sent (op_requestPartialUnstake v)) ∧
   ProviderRegistryTransactor_WithdrawStake (pr_chain b w) opts = sent op_withdrawStake ∧
   (∀ p v h, ProviderRegistryTransactor_SlashProvider (pr_chain b w) opts p v h = sent (op_slashProvider p v h)) ∧
   (∀ a x, ProviderRegistryTransactor_SetSlasher (pr_chain b w) opts a x = sent (op_setSlasher a x))).
Proof. intros sent. split_and!; intros; reflexivity. Qed.

(** Every view of a binding reads what the contract's view of that name gives. *)
Theorem views_read b w :
  (∀ s r, PaymentChannelCaller_ChannelBalance (pc_chain b w) () s r = channelBalance s r w) ∧
  (∀ s r, PaymentChannelCaller_GetChannelKey (pc_chain b w) () s r = Ok (getChannelKey s r)) ∧
  (∀ s r, PaymentChannelCaller_IsUnlockInitiated (pc_chain b w) () s r = Ok (isUnlockInitiated s r w)) ∧
  (∀ k, PaymentChannelCaller_Channels (pc_chain b w) () k = let ch := channel_at k w in
     Ok (ch_totalDeposited ch, ch_settledAmount ch, ch_withdrawnAmount ch, ch_unlockBlock ch)) ∧
  (∀ s r id, SettlementEngineCaller_GetRoundStatus (se_chain b w) () s r id
     = Ok (round_status_code (getRoundStatus s r id w))) ∧
  (∀ s r id secret, SettlementEngineCaller_PreviewWinnerIndex (se_chain b w) () s r id secret
     = previewWinnerIndex s r id secret b w) ∧
  (∀ k, SettlementEngineCaller_Rounds (se_chain b w) () k = let r := round_at k w in
     Ok (rd_tau r, rd_faceValue r, rd_recipientRandHash r, rd_commitBlock r, round_status_code (rd_status r))) ∧
  (∀ p, ProviderRegistryCaller_Providers (pr_chain b w) () p = let p := provider_at p w in
     Ok (pv_stake p, pv_unstakeReleaseBlock p, pv_pendingUnstakeAmount p, pv_registered p)) ∧
  (∀ p, ProviderRegistryCaller_IsProviderActive (pr_chain b w) () p = Ok (isProviderActive p w)) ∧
  (∀ cb secret id tau, CommitRevealEntropyCaller_ComputeWinnerIndex (cr_chain b w) () cb secret id tau
     = computeWinnerIndex cb secret id tau b) ∧
  (∀ h sig, CommitRevealEntropyCaller_RecoverSigner (cr_chain b w) () h sig = recoverSigner h sig) ∧
  (∀ t, CommitRevealEntropyCaller_RoundTicketHash (cr_chain b w) () t = Ok (roundTicketHash t)).
Proof.
  assert (Hret : ∀ {A} (x : result A) ret conv, (∀ a : A, conv (ret a) = Ok a) →
    (let! out := (let! a := x in Ok [ret a]) in out_at conv 0 out) = x) by (intros A []; cbn; auto).
  assert (Hret2 : ∀ x : result (Z * list byte),
    (let! out := (let! (i, h) := x in Ok [VUint i; VBytes32 h]) in
     let! i := out_at to_Uint 0 out in let! h := out_at to_Bytes32 1 out in Ok (i, h)) = x) by (by intros [[]|]).
  split_and!; intros; try reflexivity; try by apply Hret. exact (Hret2 _).
Qed.

(** ** Settlements as a client sees them *)

Lemma events_of_chain a ms vs b w name (es : list event) :
  Forall (λ e, event_name e = name) es →
  events_of (chain a ms vs b w) name es = ((λ e, {| ev_fields := event_values e; ev_Raw := Some e |}) <$> es, None).
Proof.
  induction 1 as [|e es He _ IH]; [done|]. cbn [events_of]. unfold parse_log at 1. cbn [b_UnpackLog chain].
  rewrite decide_True by done. cbn [rbind]. rewrite IH. done.
Qed.

Definition settlement_of (s r : list byte) (id : Z) (e : event) : bool :=
  match e with RoundSettled s' r' id' _ _ => bool_decide (s' = s ∧ r' = r ∧ id' = id) | _ => false end.

Lemma is_settlement s r id e :
  is_log_of engineAddr "RoundSettled" [[VAddress s]; [VAddress r]; [VUint id]] e ↔ settlement_of s r id e = true.
Proof.
  unfold is_log_of. destruct e; cbn; try (split; [intros (_ & ? & _); done|done]).
  rewrite bool_decide_eq_true. split.
  - intros (_ & _ & [|H1] & [|H2] & [|H3] & _); try done. apply list_elem_of_singleton in H1, H2, H3. by simplify_eq.
  - intros (-> & -> & ->). split_and!; try done; right; by apply list_elem_of_singleton.
Qed.

Lemma settlements_bound s r id w :
  Z.of_nat (length (filter (λ e, settlement_of s r id e = true) (w_log w))) <= settlements (round_key s r id) w.
Proof.
  unfold settlements, tally. induction (w_log w) as [|e l IH]; [done|]. rewrite filter_cons. cbn [foldr].
  destruct (decide (settlement_of s r id e = true)) as [He|He].
  - assert (Hs : settles (round_key s r id) e = true).
    { destruct e; try done. cbn in *. apply bool_decide_eq_true in He as (-> & -> & ->). by apply bool_decide_eq_true. }
    rewrite Hs. cbn [length]. lia.
  - destruct (settles _ e); lia.
Qed.

(** C21: A Go client that iterates over the [RoundSettled] events of a round,
    through the generated binding and on any reachable state of the contracts,
    always gets to the end without an error, sees exactly the settlements the
    engine recorded for that round, decoded as they were emitted, and never
    more than one; when it sees one the round is settled or void. *)
Theorem settlement_observed owner w b s r id :
  reached (deployed owner) w →
  let c := se_chain b w in
  ∃ it, eb_Filter (SettlementEngineRoundSettled c) () ([s], [r], [id]) = Ok it ∧
    (∃ evs it', iterates c it evs it') ∧
    ∀ evs it', iterates c it evs it' →
      Error it' = None ∧
      Forall2 (λ ev e, eb_Event (SettlementEngineRoundSettled c) ev = Ok e) evs
        (filter (λ e, settlement_of s r id e = true) (reverse (w_log w))) ∧
      (length evs <= 1)%nat ∧
      (evs ≠ [] → getRoundStatus s r id w = Settled ∨ getRoundStatus s r id w = Voided).
Proof.
  intros Hw c. set (sub := {| sb_logs := filter (is_log_of engineAddr "RoundSettled"
      [[VAddress s]; [VAddress r]; [VUint id]]) (reverse (w_log w)); sb_end := None |}).
  eexists. split; [reflexivity|].
  destruct (filter_iterates_exact c "RoundSettled" () [[VAddress s]; [VAddress r]; [VUint id]] sub _
    eq_refl eq_refl eq_refl) as [Htot Hex].
  split; [exact Htot|]. intros evs it' Hi. apply Hex in Hi. cbn [sb_logs sub] in Hi.
  rewrite (list_filter_iff _ (λ e, settlement_of s r id e = true)) in Hi by apply is_settlement.
  set (es := filter (λ e, settlement_of s r id e = true) (reverse (w_log w))) in *.
  assert (Hes : Forall (λ e, settlement_of s r id e = true) es)
    by (apply Forall_forall; intros e [He _]%list_elem_of_filter; exact He).
  unfold c, se_chain in Hi. rewrite events_of_chain in Hi.
  2: { eapply Forall_impl; [exact Hes|]. by intros []. }
  injection Hi as -> HE.
  assert (Hlen : Z.of_nat (length es) <= settlements (round_key s r id) w).
  { etransitivity; [|apply settlements_bound]. unfold es. by rewrite filter_reverse, length_reverse. }
  pose proof (round_payments _ _ (round_key s r id) Hw) as (H1 & _ & H2). split_and!.
  - exact HE.
  - apply Forall2_fmap_l, Forall_Forall2_diag. eapply Forall_impl; [exact Hes|]. by intros [].
  - rewrite length_fmap. lia.
  - intros Hne. apply closed_spec, H2. destruct es; [done|]. cbn [length] in Hlen. lia.
Qed.

(** ** Logs and events *)

Definition parsed {LG R} (eb : EventBinding (FO := ()) (LG := LG) R event) (l : LG) : result event :=
  let! ev := eb_Parse eb l in eb_Event eb ev.

Lemma parsed_binding {R} a ms vs b w name (rules : R → list (list abi_value)) fields e :
  parsed (event_binding (chain a ms vs b w) name rules fields) e
  = if decide (event_name e = name) then fields (event_values e) else Err (New "event signature mismatch").
Proof.
  unfold parsed. cbn [eb_Parse eb_Event event_binding]. unfold parse_log. cbn [b_UnpackLog chain].
  by case_decide.
Qed.

(** The [Parse] functions of the four bindings, with the emitter and the event
    they are for. *)
Definition parsers b w : list (list byte * string * (event → result event)) :=
  [(channelAddr, "ChannelDeposited", parsed (PaymentChannelChannelDeposited (pc_chain b w)));
   (channelAddr, "ChannelOpened", parsed (PaymentChannelChannelOpened (pc_chain b w)));
   (channelAddr, "ChannelPayoutExecuted", parsed (PaymentChannelChannelPayoutExecuted (pc_chain b w)));
   (channelAddr, "ChannelUnlockInitiated", parsed (PaymentChannelChannelUnlockInitiated (pc_chain b w)));
   (channelAddr, "ChannelWithdrawn", parsed (PaymentChannelChannelWithdrawn (pc_chain b w)));
   (channelAddr, "Paused", parsed (PaymentChannelPaused (pc_chain b w)));
   (channelAddr, "Unpaused", parsed (PaymentChannelUnpaused (pc_chain b w)));
   (engineAddr, "FallbackTicketClaimed", parsed (SettlementEngineFallbackTicketClaimed (se_chain b w)));
   (engineAddr, "Paused", parsed (SettlementEnginePaused (se_chain b w)));
   (engineAddr, "RoundCommitted", parsed (SettlementEngineRoundCommitted (se_chain b w)));
   (engineAddr, "RoundMarkedPartial", parsed (SettlementEngineRoundMarkedPartial (se_chain b w)));
   (engineAddr, "RoundSettled", parsed (SettlementEngineRoundSettled (se_chain b w)));
   (engineAddr, "RoundVoided", parsed (SettlementEngineRoundVoided (se_chain b w)));
   (engineAddr, "Unpaused", parsed (SettlementEngineUnpaused (se_chain b w)));
   (registryAddr, "ProviderRegistered", parsed (ProviderRegistryProviderRegistered (pr_chain b w)));
   (registryAddr, "ProviderSlashed", parsed (ProviderRegistryProviderSlashed (pr_chain b w)));
   (registryAddr, "ProviderStakeWithdrawn", parsed (ProviderRegistryProviderStakeWithdrawn (pr_chain b w)));
   (registryAddr, "ProviderUnstakeRequested", parsed (ProviderRegistryProviderUnstakeRequested (pr_chain b w)));
   (entropyAddr, "EIP712DomainChanged", parsed (CommitRevealEntropyEIP712DomainChanged (cr_chain b w)))].

(** Every event the contracts emit comes back from the [Parse] function of its
    name as it was emitted, and from every other one as an error. *)
Theorem logs_roundtrip b w a name p e :
  (a, name, p) ∈ parsers b w → event_contract e = a →
  (event_name e = name → p e = Ok e) ∧ (event_name e ≠ name → ∃ err, p e = Err err).
Proof.
  intros Hp Ha. unfold parsers in Hp. repeat (apply elem_of_cons in Hp as [[= -> -> ->]|Hp]).
  all: try by apply not_elem_of_nil in Hp.
  all: split; intros Hn; [|eexists]; (etransitivity; [apply parsed_binding|]).
  all: first [by rewrite decide_False|rewrite decide_True by done].
  all: destruct e; try discriminate Hn; cbn in Ha |- *; by subst.
Qed.
End logs.

(** Plain accounts take what they are paid. *)
#[global] Instance PlainRecipients : Recipients := {| on_payment _ := [] |}.

(** ** Witness *)

Lemma settlement_observed_witness :
  ∃ it, eb_Filter (SettlementEngineRoundSettled (se_chain (toy_block 40) toy_settled)) ()
          ([toy_consumer], [toy_provider], [1]) = Ok it ∧
    ∀ evs it', iterates (se_chain (toy_block 40) toy_settled) it evs it' →
      Forall2 (λ ev e, eb_Event (SettlementEngineRoundSettled (se_chain (toy_block 40) toy_settled)) ev = Ok e) evs
        [RoundSettled toy_consumer toy_provider 1 1 1000].
Proof.
  destruct (settlement_observed toy_owner toy_settled (toy_block 40) toy_consumer toy_provider 1 toy_settled_reached)
    as (it & H1 & _ & H2).
  exists it. split; [exact H1|]. intros evs it' Hi. destruct (H2 evs it' Hi) as (_ & H3 & _).
  assert (E : filter (λ e, settlement_of toy_consumer toy_provider 1 e = true) (reverse (w_log toy_settled))
    = [RoundSettled toy_consumer toy_provider 1 1 1000]) by (vm_compute; reflexivity).
  rewrite <- E. exact H3.
Defined.
