(* ===== verification/LotteryLedger.v ===== *)
(** * The ledger of the payment channels

    payments/src: the channel contract books deposits, payouts and refunds in
    its storage and logs an event for each.  Here the two are shown to agree in
    every history of calls, with recipients that call back while they are paid:
    whoever replays the log, in particular a Go client that iterates over the
    events through the generated binding, has the books of the contract. *)

From S2P Require Import Prelude Bindings Tickets EscrowContract EthEscrow Lottery LotterySafety Abigen LotteryBindings.

Section ledger.
Context {GE : GoEthereum} {LO : Lottery} {RC : Recipients}.
Implicit Types (c : Call) (w : World).

(** ** Columns *)

(** The three amounts a channel keeps, and what an event adds to each. *)
Inductive column := Deposits | Payouts | Refunds.

Definition booked (col : column) (ch : Channel) : Z :=
  match col with
  | Deposits => ch_totalDeposited ch
  | Payouts => ch_settledAmount ch
  | Refunds => ch_withdrawnAmount ch
  end.
Definition entry (col : column) (e : event) : option (list byte * list byte * Z) :=
  match col, e with
  | Deposits, ChannelOpened s r v | Deposits, ChannelDeposited s r v
  | Payouts, ChannelPayoutExecuted s r v | Refunds, ChannelWithdrawn s r v => Some (s, r, v)
  | _, _ => None
  end.
Definition moved (col : column) (k : list byte) (e : event) : Z :=
  match entry col e with Some (s, r, v) => if decide (getChannelKey s r = k) then v else 0 | None => 0 end.
Definition logged (col : column) (k : list byte) (l : list event) : Z := foldr (λ e n, moved col k e + n) 0 l.

(** What the books have and the log has not: while a payment is under way, its
    amount. *)
Definition drift (col : column) (k : list byte) w : Z := booked col (channel_at k w) - logged col k (w_log w).

(** Every call leaves the drift of every channel as it found it. *)
Definition same_drift w w' : Prop := ∀ col k, drift col k w' = drift col k w.
#[local] Instance same_drift_po : PreOrder same_drift.
Proof. split; [done|]. intros x y z H1 H2 col k. by rewrite H2, H1. Qed.

Lemma drift_emit e w col k : drift col k (emit e w) = drift col k w - moved col k e.
Proof.
  unfold drift. cbn [w_log emit logged foldr]. change (channel_at k (emit e w)) with (channel_at k w).
  unfold logged. lia.
Qed.
Lemma drift_put key ch w col k :
  drift col k (put_channel key ch w)
  = drift col k w + (if decide (key = k) then booked col ch - booked col (channel_at k w) else 0).
Proof.
  unfold drift. change (w_log (put_channel key ch w)) with (w_log w).
  assert (E : channel_at k (put_channel key ch w) = if decide (key = k) then ch else channel_at k w).
  { unfold channel_at. cbn [w_pc pc_channels put_channel on_pc]. case_decide as Hk.
    - subst. by rewrite lookup_insert_eq.
    - by rewrite lookup_insert_ne. }
  rewrite E. case_decide; lia.
Qed.

(** An event that is no entry. *)
Lemma sd_emit e w : (∀ col, entry col e = None) → same_drift w (emit e w).
Proof. intros He col k. rewrite drift_emit. unfold moved. rewrite He. lia. Qed.
(** A state with the same channels and the same log. *)
Lemma sd_same w w' : pc_channels (w_pc w') = pc_channels (w_pc w) → w_log w' = w_log w → same_drift w w'.
Proof. intros H1 H2 col k. unfold drift, channel_at. by rewrite H1, H2. Qed.
Lemma sd_pc_enter b w : same_drift w (pc_enter b w).
Proof. by apply sd_same. Qed.
Lemma sd_se_enter b w : same_drift w (se_enter b w).
Proof. by apply sd_same. Qed.
Lemma sd_pr_enter b w : same_drift w (pr_enter b w).
Proof. by apply sd_same. Qed.
Ltac sd_skip := apply sd_same; reflexivity.
Ltac sd_event := etransitivity; [|apply sd_emit; by intros []]; sd_skip.

Lemma sd_pc_send r to v w w' : receiver_in same_drift r → pc_send r to v w = Ok w' → same_drift w w'.
Proof.
  intros Hr Hs. unfold pc_send in Hs. step_ok Hs. destruct (r _) as [w1|] eqn:E; [|done]. injection Hs as <-.
  apply Hr in E. etransitivity; [|exact E]. sd_skip.
Qed.
Lemma sd_pr_send r to v w w' : receiver_in same_drift r → pr_send r to v w = Ok w' → same_drift w w'.
Proof.
  intros Hr Hs. unfold pr_send in Hs. step_ok Hs. destruct (r _) as [w1|] eqn:E; [|done]. injection Hs as <-.
  apply Hr in E. etransitivity; [|exact E]. sd_skip.
Qed.

(** ** Operations *)

(** Booking an amount, letting others run, and logging it. *)
Lemma booked_then_logged key ch e w w1 w2 :
  same_drift (put_channel key ch w) w1 → same_drift w1 w2 →
  (∀ col k, moved col k e = if decide (key = k) then booked col ch - booked col (channel_at k w) else 0) →
  same_drift w (emit e w2).
Proof. intros H1 H2 He col k. rewrite drift_emit, (H2 col k), (H1 col k), drift_put, He. lia. Qed.

Lemma payout_drift s r v rc caller w w' :
  receiver_in same_drift rc → payoutProvider s r v rc caller w = Ok w' → same_drift w w'.
Proof.
  intros Hr Hx. unfold payoutProvider in Hx. steps_ok Hx. injection Hx as <-.
  apply sd_pc_send in E1; [|done]. apply add256_ok in E0 as [-> _].
  transitivity (pc_enter true w); [apply sd_pc_enter|]. etransitivity; [|apply sd_pc_enter].
  eapply booked_then_logged; [exact E1|reflexivity|].
  intros col k. unfold moved. destruct col; cbn; case_decide; subst; try lia;
    change (channel_at _ (pc_enter true w)) with (channel_at (getChannelKey s r) w); lia.
Qed.
Lemma withdraw_drift r rc c w w' :
  receiver_in same_drift rc → withdrawChannel r rc c w = Ok w' → same_drift w w'.
Proof.
  intros Hr Hx. unfold withdrawChannel in Hx. steps_ok Hx. injection Hx as <-.
  apply sd_pc_send in E1; [|done]. apply add256_ok in E0 as [-> _].
  transitivity (pc_enter true w); [apply sd_pc_enter|]. etransitivity; [|apply sd_pc_enter].
  eapply booked_then_logged; [exact E1|reflexivity|].
  intros col k. unfold moved. destruct col; cbn; case_decide; subst; try lia;
    change (channel_at _ (pc_enter true w)) with (channel_at (getChannelKey (c_sender c) r) w); lia.
Qed.
Lemma deposit_drift ev r c w w' :
  (∀ v, entry Deposits (ev v) = Some (c_sender c, r, v) ∧ entry Payouts (ev v) = None ∧ entry Refunds (ev v) = None) →
  add_deposit ev r c w = Ok w' → same_drift w w'.
Proof.
  intros Hev Hx. unfold add_deposit in Hx. steps_ok Hx. injection Hx as <-. apply add256_ok in E as [-> _].
  eapply booked_then_logged; [reflexivity|reflexivity|]. destruct (Hev (c_value c)) as (H1 & H2 & H3).
  intros col k. unfold moved. destruct col; rewrite ?H1, ?H2, ?H3; cbn; case_decide; subst; lia.
Qed.
Lemma unlock_drift r c w w' : initiateChannelUnlock r c w = Ok w' → same_drift w w'.
Proof.
  intros Hx. unfold initiateChannelUnlock in Hx. steps_ok Hx. injection Hx as <-.
  eapply booked_then_logged; [reflexivity|reflexivity|].
  intros col k. unfold moved. destruct col; cbn; case_decide; subst; lia.
Qed.

Lemma settle_drift t sig secret rc c w w' :
  receiver_in same_drift rc → settleRoundInternal t sig secret rc c w = Ok w' → same_drift w w'.
Proof.
  intros Hr Hx. unfold settleRoundInternal in Hx. steps_ok Hx. destruct x1 as [winner bh]. steps_ok Hx.
  injection Hx as <-. apply payout_drift in E2; [|done]. etransitivity; [|apply sd_emit; by intros []].
  etransitivity; [|exact E2]. sd_skip.
Qed.
Lemma batch_drift l rs c w w' :
  (∀ i, receiver_in same_drift (rs i)) → settle_batch l rs c w = Ok w' → same_drift w w'.
Proof.
  revert rs w. induction l as [|[[t sig] secret] l IH]; intros rs w Hr Hx; [by injection Hx as <-|].
  cbn [settle_batch] in Hx. step_ok Hx. apply settle_drift in E; [|done].
  transitivity x; [done|]. eapply IH; [|exact Hx]. intros i. apply Hr.
Qed.
Lemma guarded_drift body w w' :
  (∀ x y, body x = Ok y → same_drift x y) → guarded body w = Ok w' → same_drift w w'.
Proof.
  intros Hbody Hx. unfold guarded in Hx. steps_ok Hx. injection Hx as <-. apply Hbody in E.
  etransitivity; [|apply sd_se_enter]. etransitivity; [|exact E]. sd_skip.
Qed.
Lemma claim_drift t sig secret rc c w w' :
  receiver_in same_drift rc → claim_body t sig secret rc c w = Ok w' → same_drift w w'.
Proof.
  intros Hr Hx. unfold claim_body in Hx. steps_ok Hx. injection Hx as <-. apply payout_drift in E1; [|done].
  etransitivity; [|apply sd_emit; by intros []]. etransitivity; [|exact E1]. sd_skip.
Qed.
Lemma slash_drift p v h caller w w' z : slashProvider p v h caller w = Ok (w', z) → same_drift w w'.
Proof.
  intros Hx. unfold slashProvider in Hx. step_ok Hx. case_decide; [by injection Hx as <- _|].
  step_ok Hx. injection Hx as <- _. sd_event.
Qed.
Lemma close_dispute_drift k dk d w : same_drift w (drop_pending k (put_dispute dk d w)).
Proof. unfold drop_pending. case_decide; sd_skip. Qed.

Ltac no_entry Hx :=
  unfold setPayoutEngine, pc_pause, pc_unpause, commitRoundSecret, markRoundPartial, voidRound, setDisputeResolver,
    se_pause, se_unpause, registerProvider, requestUnstake, requestPartialUnstake, start_unbonding, setSlasher,
    raiseChunkDispute in Hx;
  steps_ok Hx; injection Hx as <-; first [sd_skip|sd_event].

Lemma run_drift o rs c w w' :
  (∀ i : nat, receiver_in same_drift (rs i)) → run o rs c w = Ok w' → same_drift w w'.
Proof.
  intros Hr Hx. unfold run in Hx. step_ok Hx. clear G.
  destruct o; cbn [credit] in Hx; try by no_entry Hx.
  - transitivity (pc_add (c_value c) w); [sd_skip|]. eapply deposit_drift; [|exact Hx]. done.
  - transitivity (pc_add (c_value c) w); [sd_skip|]. eapply deposit_drift; [|exact Hx]. done.
  - by eapply unlock_drift.
  - by eapply withdraw_drift.
  - by eapply payout_drift.
  - eapply guarded_drift; [|exact Hx]. intros x y Hy. by eapply settle_drift.
  - eapply guarded_drift; [|exact Hx]. intros x y Hy. cbv beta in Hy. step_ok Hy. by eapply batch_drift.
  - eapply guarded_drift; [|exact Hx]. intros x y Hy. by eapply claim_drift.
  - unfold withdrawStake in Hx. steps_ok Hx. injection Hx as <-. apply sd_pr_send in E0; [|done].
    etransitivity; [|apply sd_pr_enter]. etransitivity; [|apply sd_emit; by intros []]. etransitivity; [|exact E0]. sd_skip.
  - step_ok Hx. destruct x as [w1 z]. injection Hx as <-. by eapply slash_drift.
  - unfold respondToDispute in Hx. steps_ok Hx. injection Hx as <-.
    etransitivity; [apply close_dispute_drift|sd_event].
  - unfold resolveExpiredDispute in Hx. steps_ok Hx. destruct x as [w1 z]. step_ok Hx. injection Hx as <-.
    apply slash_drift in E. unfold voidRound in E0. steps_ok E0. injection E0 as <-.
    etransitivity; [apply close_dispute_drift|]. etransitivity; [exact E|].
    etransitivity; [|apply sd_emit; by intros []]. sd_event.
Qed.

(** In every reachable state the log has the books of every channel. *)
Lemma books_match_log owner w col k :
  reached (deployed owner) w → booked col (channel_at k w) = logged col k (w_log w).
Proof.
  intros Hr. apply (reached_rel same_drift) in Hr; [|apply run_drift]. specialize (Hr col k).
  unfold drift in Hr. cbn in Hr. replace (booked col _ - 0) with 0 in Hr by (by destruct col). lia.
Qed.

(** ** The ledger as a client sees it *)

Lemma logged_app col k l l' : logged col k (l ++ l') = logged col k l + logged col k l'.
Proof. unfold logged. induction l as [|e l IH]; cbn; [lia|]. rewrite IH. lia. Qed.
Lemma logged_reverse col k l : logged col k (reverse l) = logged col k l.
Proof.
  induction l as [|e l IH]; [done|]. rewrite reverse_cons, logged_app, IH. unfold logged. cbn. lia.
Qed.
(** A kind of entry and the events of one name. *)
Lemma logged_filter col k l (P : event → Prop) `{!∀ e, Decision (P e)} :
  (∀ e, ¬ P e → moved col k e = 0) → logged col k (filter P l) = logged col k l.
Proof.
  intros HP. induction l as [|e l IH]; [done|]. rewrite filter_cons. unfold logged in *. cbn [foldr].
  case_decide as He; cbn [foldr]; rewrite IH; [done|]. rewrite HP by done. lia.
Qed.
Lemma logged_filter2 col k l (P Q : event → Prop) `{!∀ e, Decision (P e), !∀ e, Decision (Q e)} :
  (∀ e, ¬ P e → ¬ Q e → moved col k e = 0) → (∀ e, P e → ¬ Q e) →
  logged col k (filter P l ++ filter Q l) = logged col k l.
Proof.
  intros Hno HPQ. rewrite logged_app. induction l as [|e l IH]; [done|]. rewrite !filter_cons. unfold logged in *. cbn [foldr].
  destruct (decide (P e)) as [Hp|Hp], (decide (Q e)) as [Hq|Hq]; cbn [foldr]; try (specialize (Hno e Hp Hq)); try lia.
  by destruct (HPQ e Hp).
Qed.

(** A loop [for it.Next()] over all events of a binding that ended without an
    error, and the events it decoded. *)
Definition iterated {R} (c : Bound () () (Sent operation) event) (eb : EventBinding (FO := ()) (LG := event) R event) (r : R)
    (es : list event) : Prop :=
  ∃ it evs it', eb_Filter eb () r = Ok it ∧ iterates c it evs it' ∧ Error it' = None ∧
    Forall2 (λ ev e, eb_Event eb ev = Ok e) evs es.

Lemma decoded_once {A B} (f : A → result B) l k k' :
  Forall2 (λ a b, f a = Ok b) l k → Forall2 (λ a b, f a = Ok b) l k' → k = k'.
Proof.
  intros Hk. revert k'. induction Hk as [|a b l k Hab _ IH]; intros k' H; inversion H; subst; [done|].
  f_equal; [congruence|]. by apply IH.
Qed.

Lemma iterated_logs {R} a ms vs b w name (rules : R → list (list abi_value)) fields r :
  (∀ e, is_log_of a name (rules r) e → fields (event_values e) = Ok e) →
  let c := chain a ms vs b w in
  let logs := filter (is_log_of a name (rules r)) (reverse (w_log w)) in
  iterated c (event_binding c name rules fields) r logs ∧
  ∀ es, iterated c (event_binding c name rules fields) r es → es = logs.
Proof.
  intros Hf c logs.
  assert (Hlogs : Forall (λ e, event_name e = name) logs).
  { apply Forall_forall. intros e [(_ & He & _) _]%list_elem_of_filter. exact He. }
  assert (Hdec : Forall2 (λ ev e, fields (ev_fields ev) = Ok e)
    ((λ e, {| ev_fields := event_values e; ev_Raw := Some e |}) <$> logs) logs).
  { apply Forall2_fmap_l, Forall_Forall2_diag, Forall_forall. intros e [He _]%list_elem_of_filter. by apply Hf. }
  assert (∃ it, eb_Filter (event_binding c name rules fields) () r = Ok it) as [it Hit] by (eexists; reflexivity).
  destruct (filter_iterates_exact c name () (rules r) {| sb_logs := logs; sb_end := None |} it eq_refl eq_refl Hit)
    as [(evs & it' & Hi) Hex].
  assert (Hall : ∀ evs it', iterates c it evs it' →
    evs = ((λ e, {| ev_fields := event_values e; ev_Raw := Some e |}) <$> logs) ∧ Error it' = None).
  { intros evs1 it1 H1. apply Hex in H1. cbn [sb_logs] in H1. unfold c in H1. rewrite events_of_chain in H1 by exact Hlogs.
    by injection H1. }
  split.
  - exists it, evs, it'. split; [exact Hit|]. split; [exact Hi|]. destruct (Hall _ _ Hi) as [-> ?]. by split.
  - intros es (it1 & evs1 & it1' & E & H1 & _ & H2). rewrite Hit in E. injection E as <-.
    destruct (Hall _ _ H1) as [-> _].
    symmetry. exact (decoded_once _ _ _ _ Hdec H2).
Qed.

(** The four event streams of the channel contract, unfiltered. *)
Definition all_of (name : string) (w : World) : list event :=
  filter (is_log_of channelAddr name [[]; []]) (reverse (w_log w)).

Ltac is_entry := let e := fresh in intros e; destruct e; try reflexivity;
  let He := fresh in intros He; destruct He; (split; [reflexivity|split; [reflexivity|cbn; auto]]).

Lemma streams_have_books owner w k :
  reached (deployed owner) w →
  logged Deposits k (all_of "ChannelOpened" w ++ all_of "ChannelDeposited" w) = ch_totalDeposited (channel_at k w) ∧
  logged Payouts k (all_of "ChannelPayoutExecuted" w) = ch_settledAmount (channel_at k w) ∧
  logged Refunds k (all_of "ChannelWithdrawn" w) = ch_withdrawnAmount (channel_at k w).
Proof.
  intros Hw. pose proof (λ col, books_match_log owner w col k Hw) as Hb. unfold all_of. split_and!.
  - rewrite logged_filter2, logged_reverse; [exact (eq_sym (Hb Deposits))| |].
    + intros e He He'. destruct e; try reflexivity; exfalso; [apply He|apply He'];
        (split; [reflexivity|split; [reflexivity|cbn; auto]]).
    + intros e (_ & He & _) (_ & He' & _). congruence.
  - rewrite logged_filter, logged_reverse; [exact (eq_sym (Hb Payouts))|is_entry].
  - rewrite logged_filter, logged_reverse; [exact (eq_sym (Hb Refunds))|is_entry].
Qed.

Ltac decodes := let e := fresh in intros e (_ & ? & _); destruct e; try discriminate; reflexivity.
Lemma channel_streams b w :
  let c := pc_chain b w in
  (iterated c (PaymentChannelChannelOpened c) ([], []) (all_of "ChannelOpened" w) ∧
   ∀ es, iterated c (PaymentChannelChannelOpened c) ([], []) es → es = all_of "ChannelOpened" w) ∧
  (iterated c (PaymentChannelChannelDeposited c) ([], []) (all_of "ChannelDeposited" w) ∧
   ∀ es, iterated c (PaymentChannelChannelDeposited c) ([], []) es → es = all_of "ChannelDeposited" w) ∧
  (iterated c (PaymentChannelChannelPayoutExecuted c) ([], []) (all_of "ChannelPayoutExecuted" w) ∧
   ∀ es, iterated c (PaymentChannelChannelPayoutExecuted c) ([], []) es → es = all_of "ChannelPayoutExecuted" w) ∧
  (iterated c (PaymentChannelChannelWithdrawn c) ([], []) (all_of "ChannelWithdrawn" w) ∧
   ∀ es, iterated c (PaymentChannelChannelWithdrawn c) ([], []) es → es = all_of "ChannelWithdrawn" w).
Proof. intros c. split_and!; apply iterated_logs; decodes. Qed.

(** C19: The log of the channel contract is its ledger.  In every state the
    contracts can reach, also through recipients that call back while they are
    paid, a Go client can run the iterators over the deposit, payout and refund
    events of the generated binding to their ends, and whatever it sees adds up,
    for every channel, to the amounts the contract's [channels] view reports;
    the difference is the channel's balance. *)
Theorem channel_audited owner w b sender recipient :
  reached (deployed owner) w →
  let c := pc_chain b w in
  let k := getChannelKey sender recipient in
  (∃ opened deposited payouts refunds,
     iterated c (PaymentChannelChannelOpened c) ([], []) opened ∧
     iterated c (PaymentChannelChannelDeposited c) ([], []) deposited ∧
     iterated c (PaymentChannelChannelPayoutExecuted c) ([], []) payouts ∧
     iterated c (PaymentChannelChannelWithdrawn c) ([], []) refunds) ∧
  ∀ opened deposited payouts refunds,
    iterated c (PaymentChannelChannelOpened c) ([], []) opened →
    iterated c (PaymentChannelChannelDeposited c) ([], []) deposited →
    iterated c (PaymentChannelChannelPayoutExecuted c) ([], []) payouts →
    iterated c (PaymentChannelChannelWithdrawn c) ([], []) refunds →
    let total := logged Deposits k (opened ++ deposited) in
    let paid := logged Payouts k payouts in
    let returned := logged Refunds k refunds in
    (∃ unlock, PaymentChannelCaller_Channels c () k = Ok (total, paid, returned, unlock)) ∧
    PaymentChannelCaller_ChannelBalance c () sender recipient = Ok (total - paid - returned).
Proof.
  intros Hw c k. destruct (channel_streams b w) as ([H1 U1] & [H2 U2] & [H3 U3] & [H4 U4]). split.
  { by eexists _, _, _, _. }
  intros os ds ps rs -> %U1 -> %U2 -> %U3 -> %U4 total paid returned.
  destruct (streams_have_books owner w k Hw) as (E1 & E2 & E3). unfold total, paid, returned. rewrite E1, E2, E3.
  destruct (views_read b w) as (V1 & _ & _ & V2 & _). split.
  - eexists. etransitivity; [apply V2|]. reflexivity.
  - etransitivity; [apply V1|]. unfold channelBalance, available, sub256. fold k.
    pose proof (channel_at_ok _ _ _ k (reached_balanced _ _ Hw)) as []. unfold left_in in *.
    rewrite decide_True by lia. cbn [rbind]. by rewrite decide_True by lia.
Qed.
End ledger.

(** ** Witness *)

Lemma channel_audited_witness :
  ∃ payouts,
    iterated (pc_chain (toy_block 40) toy_settled) (PaymentChannelChannelPayoutExecuted (pc_chain (toy_block 40) toy_settled))
      ([], []) payouts ∧
    logged Payouts (getChannelKey toy_consumer toy_provider) payouts = 1000.
Proof.
  destruct (channel_audited toy_owner toy_settled (toy_block 40) toy_consumer toy_provider toy_settled_reached)
    as ((os & ds & ps & rs & H1 & H2 & H3 & H4) & Hall).
  exists ps. split; [exact H3|]. destruct (Hall os ds ps rs H1 H2 H3 H4) as [[u Hc] _].
  match type of Hc with _ = Ok (_, ?p, _, _) =>
    assert (Hp : ∃ a b' d, PaymentChannelCaller_Channels (pc_chain (toy_block 40) toy_settled) ()
      (getChannelKey toy_consumer toy_provider) = Ok (a, 1000, b', d)) by (do 3 eexists; vm_compute; reflexivity) end.
  destruct Hp as (x & y & z & E). rewrite Hc in E. by injection E.
Defined.
