(* ===== verification/AbiTables.v ===== *)
(** * The ABIs of the lottery contracts and the types of their bindings

    network/payments/bindings: the interface descriptions the four generated
    bindings embed, read as data.  [bindings_typed] is the type safety of the
    generated code: over any [bind.BoundContract] that keeps to the embedded
    interface, no method and no event parser panics in a conversion, and every
    transaction is for a method of the interface with arguments of its types. *)

From S2P Require Import Prelude Bindings Tickets EscrowContract EthEscrow Lottery LotterySafety Abigen LotteryBindings.

(** ** Interface descriptions *)

Inductive abi_type :=
| TAddress | TUint256 | TUint8 | TBool | TBytes1 | TBytes32 | TBytes | TString | TTicket
| TArray (t : abi_type).
#[global] Instance abi_type_eq_dec : EqDecision abi_type.
Proof. solve_decision. Defined.

Inductive mutability := Pure | View | Nonpayable | Payable.
Record AbiMethod := Method {
  am_name : string; am_inputs : list abi_type; am_outputs : list abi_type; am_mutability : mutability }.
(** The arguments of an event, with their [indexed] flags. *)
Record AbiEvent := Logged { ae_name : string; ae_inputs : list (abi_type * bool) }.
Record Abi := {
  abi_constructor : list abi_type;
  abi_methods : list AbiMethod;
  abi_events : list AbiEvent;
  abi_errors : list (string * list abi_type);
}.

(** The ABI of PaymentChannel. *)
Definition PaymentChannelABI : Abi :=
  {| abi_constructor := [TAddress];
     abi_methods :=
       [Method "authorizedPayoutEngine" [TAddress] [TBool] View;
        Method "channelBalance" [TAddress; TAddress] [TUint256] View;
        Method "channels" [TBytes32] [TUint256; TUint256; TUint256; TUint256] View;
        Method "config" [] [TAddress] View;
        Method "depositToChannel" [TAddress] [] Payable;
        Method "getChannelKey" [TAddress; TAddress] [TBytes32] Pure;
        Method "initiateChannelUnlock" [TAddress] [] Nonpayable;
        Method "isUnlockInitiated" [TAddress; TAddress] [TBool] View;
        Method "openChannel" [TAddress] [] Payable;
        Method "owner" [] [TAddress] View;
        Method "pause" [] [] Nonpayable;
        Method "paused" [] [TBool] View;
        Method "payoutProvider" [TAddress; TAddress; TUint256] [] Nonpayable;
        Method "setPayoutEngine" [TAddress; TBool] [] Nonpayable;
        Method "unpause" [] [] Nonpayable;
        Method "withdrawChannel" [TAddress] [] Nonpayable];
     abi_events :=
       [Logged "ChannelDeposited" [(TAddress, true); (TAddress, true); (TUint256, false)];
        Logged "ChannelOpened" [(TAddress, true); (TAddress, true); (TUint256, false)];
        Logged "ChannelPayoutExecuted" [(TAddress, true); (TAddress, true); (TUint256, false)];
        Logged "ChannelUnlockInitiated" [(TAddress, true); (TAddress, true); (TUint256, false)];
        Logged "ChannelWithdrawn" [(TAddress, true); (TAddress, true); (TUint256, false)];
        Logged "Paused" [(TAddress, false)];
        Logged "Unpaused" [(TAddress, false)]];
     abi_errors :=
       [("EnforcedPause", []);
        ("ExpectedPause", []);
        ("InsufficientChannelBalance", []);
        ("NothingToWithdraw", []);
        ("ReentrancyGuardReentrantCall", []);
        ("TransferFailed", []);
        ("UnauthorizedCaller", []);
        ("UnlockAlreadyInitiated", []);
        ("UnlockNotComplete", []);
        ("UnlockNotInitiated", []);
        ("ZeroDeposit", [])] |}.

(** The ABI of SettlementEngine. *)
Definition SettlementEngineABI : Abi :=
  {| abi_constructor := [TAddress; TAddress; TAddress; TAddress];
     abi_methods :=
       [Method "claimFallbackTicket" [TTicket; TBytes; TBytes32] [] Nonpayable;
        Method "commitRoundSecret" [TAddress; TUint256; TUint256; TUint256; TBytes32] [] Nonpayable;
        Method "config" [] [TAddress] View;
        Method "disputeResolver" [] [TAddress] View;
        Method "entropySource" [] [TAddress] View;
        Method "getRoundStatus" [TAddress; TAddress; TUint256] [TUint8] View;
        Method "markRoundPartial" [TAddress; TUint256] [] Nonpayable;
        Method "owner" [] [TAddress] View;
        Method "pause" [] [] Nonpayable;
        Method "paused" [] [TBool] View;
        Method "paymentChannel" [] [TAddress] View;
        Method "previewWinnerIndex" [TAddress; TAddress; TUint256; TBytes32] [TUint256] View;
        Method "providerRegistry" [] [TAddress] View;
        Method "rounds" [TBytes32] [TUint256; TUint256; TBytes32; TUint256; TUint8] View;
        Method "setDisputeResolver" [TAddress] [] Nonpayable;
        Method "settleRound" [TTicket; TBytes; TBytes32] [] Nonpayable;
        Method "settleRoundBatch" [TArray TTicket; TArray TBytes; TArray TBytes32] [] Nonpayable;
        Method "unpause" [] [] Nonpayable;
        Method "usedFallbackTickets" [TBytes32] [TBool] View;
        Method "usedTickets" [TBytes32] [TBool] View;
        Method "voidRound" [TAddress; TAddress; TUint256; TBytes32] [] Nonpayable];
     abi_events :=
       [Logged "FallbackTicketClaimed" [(TAddress, true); (TAddress, true); (TUint256, true); (TUint256, false); (TUint256, false)];
        Logged "Paused" [(TAddress, false)];
        Logged "RoundCommitted" [(TAddress, true); (TAddress, true); (TUint256, true); (TUint256, false); (TUint256, false); (TUint256, false)];
        Logged "RoundMarkedPartial" [(TAddress, true); (TAddress, true); (TUint256, true)];
        Logged "RoundSettled" [(TAddress, true); (TAddress, true); (TUint256, true); (TUint256, false); (TUint256, false)];
        Logged "RoundVoided" [(TAddress, true); (TAddress, true); (TUint256, true); (TBytes32, false)];
        Logged "Unpaused" [(TAddress, false)]];
     abi_errors :=
       [("ArrayLengthMismatch", []);
        ("BlockhashUnavailable", []);
        ("EnforcedPause", []);
        ("ExpectedPause", []);
        ("InvalidRoundParams", []);
        ("InvalidSecret", []);
        ("InvalidSignature", []);
        ("NotWinningIndex", []);
        ("ReentrancyGuardReentrantCall", []);
        ("RoundAlreadyCommitted", []);
        ("RoundDisputePending", []);
        ("RoundIsVoided", []);
        ("RoundNotCommitted", []);
        ("RoundNotOpen", []);
        ("RoundNotPartial", []);
        ("RoundNotStaleEnough", []);
        ("TicketAlreadyUsed", []);
        ("UnauthorizedCaller", [])] |}.

(** The ABI of ProviderRegistry. *)
Definition ProviderRegistryABI : Abi :=
  {| abi_constructor := [TAddress];
     abi_methods :=
       [Method "authorizedSlashers" [TAddress] [TBool] View;
        Method "config" [] [TAddress] View;
        Method "getProviderStake" [TAddress] [TUint256] View;
        Method "isProviderActive" [TAddress] [TBool] View;
        Method "owner" [] [TAddress] View;
        Method "providers" [TAddress] [TUint256; TUint256; TUint256; TBool] View;
        Method "registerProvider" [] [] Payable;
        Method "requestPartialUnstake" [TUint256] [] Nonpayable;
        Method "requestUnstake" [] [] Nonpayable;
        Method "setSlasher" [TAddress; TBool] [] Nonpayable;
        Method "slashProvider" [TAddress; TUint256; TBytes32] [TUint256] Nonpayable;
        Method "withdrawStake" [] [] Nonpayable];
     abi_events :=
       [Logged "ProviderRegistered" [(TAddress, true); (TUint256, false)];
        Logged "ProviderSlashed" [(TAddress, true); (TUint256, false); (TBytes32, true)];
        Logged "ProviderStakeWithdrawn" [(TAddress, true); (TUint256, false)];
        Logged "ProviderUnstakeRequested" [(TAddress, true); (TUint256, false); (TUint256, false)]];
     abi_errors :=
       [("InsufficientStake", []);
        ("InvalidAmount", []);
        ("NotRegistered", []);
        ("ReentrancyGuardReentrantCall", []);
        ("TransferFailed", []);
        ("UnauthorizedCaller", []);
        ("UnbondingNotComplete", []);
        ("UnstakeAlreadyRequested", []);
        ("UnstakeNotRequested", [])] |}.

(** The ABI of CommitRevealEntropy. *)
Definition CommitRevealEntropyABI : Abi :=
  {| abi_constructor := [TAddress];
     abi_methods :=
       [Method "ROUND_TICKET_TYPEHASH" [] [TBytes32] View;
        Method "computeWinnerIndex" [TUint256; TBytes32; TUint256; TUint256] [TUint256; TBytes32] View;
        Method "config" [] [TAddress] View;
        Method "eip712Domain" [] [TBytes1; TString; TString; TUint256; TAddress; TBytes32; TArray TUint256] View;
        Method "recoverSigner" [TBytes32; TBytes] [TAddress] Pure;
        Method "roundTicketHash" [TTicket] [TBytes32] View;
        Method "verifySecretCommitment" [TBytes32; TBytes32] [TBool] Pure];
     abi_events :=
       [Logged "EIP712DomainChanged" []];
     abi_errors :=
       [("BlockhashUnavailable", []);
        ("ECDSAInvalidSignature", []);
        ("ECDSAInvalidSignatureLength", [TUint256]);
        ("ECDSAInvalidSignatureS", [TBytes32]);
        ("InvalidSecret", []);
        ("InvalidShortString", []);
        ("InvalidSignature", []);
        ("RoundDrawExpired", []);
        ("RoundNotYetDrawable", []);
        ("StringTooLong", [TString])] |}.

(** ** Types of values *)

(** The Go type go-ethereum decodes each ABI type to. *)
Definition has_type (v : abi_value) (t : abi_type) : bool :=
  match v, t with
  | VAddress _, TAddress | VUint _, TUint256 | VUint8 _, TUint8 | VBool _, TBool | VBytes1 _, TBytes1
  | VBytes32 _, TBytes32 | VBytes _, TBytes | VString _, TString | VTicket _, TTicket
  | VUints _, TArray TUint256 | VBytess _, TArray TBytes | VBytes32s _, TArray TBytes32 | VTickets _, TArray TTicket => true
  | _, _ => false
  end.
Fixpoint typed (vs : list abi_value) (ts : list abi_type) : bool :=
  match vs, ts with
  | [], [] => true
  | v :: vs, t :: ts => has_type v t && typed vs ts
  | _, _ => false
  end.

Definition find_method (abi : Abi) (name : string) : option AbiMethod :=
  snd <$> list_find (λ m, am_name m = name) (abi_methods abi).
Definition find_event (abi : Abi) (name : string) : option AbiEvent :=
  snd <$> list_find (λ e, ae_name e = name) (abi_events abi).
Definition changes_state (m : AbiMethod) : bool :=
  match am_mutability m with Nonpayable | Payable => true | _ => false end.

(** A result that is no panic. *)
Definition orderly {A} (r : result A) : Prop := r ≠ Err GoPanic.

Section typing.
Context {CO FO TX LG : Type}.
#[local] Abbreviation Bd := (Bound CO FO TX LG).
Implicit Types (c : Bd) (abi : Abi).

(** [bind.BoundContract] keeps to an interface: what it returns for a method
    called with arguments of the method's types has the types of its outputs,
    and an unpacked log those of the event. *)
Record respects abi c : Prop := {
  call_typed opts name m args :
    find_method abi name = Some m → typed args (am_inputs m) = true →
    match b_Call c opts name args with Ok out => typed out (am_outputs m) = true | Err e => e ≠ GoPanic end;
  unpack_typed name e l :
    find_event abi name = Some e →
    match b_UnpackLog c name l with Ok vs => typed vs (fst <$> ae_inputs e) = true | Err e => e ≠ GoPanic end;
}.

(** A call of the view [name] of the interface, with arguments of its types, and
    a conversion of its outputs that does not panic. *)
Definition calls {A} abi c (name : string) (opts : CO) (r : result A) : Prop :=
  orderly r ∧
  ∃ m args conv, find_method abi name = Some m ∧ changes_state m = false ∧ typed args (am_inputs m) = true ∧
    r = rbind (b_Call c opts name args) conv.

(** A transaction for the method [name] of the interface, with arguments of its
    types. *)
Definition sends abi c (name : string) (opts : TransactOpts) (r : result TX) : Prop :=
  ∃ m args, find_method abi name = Some m ∧ changes_state m = true ∧ typed args (am_inputs m) = true ∧
    r = b_Transact c opts name args.

(** An event of the interface as its binding reads it: filtering and watching
    pass one rule per indexed argument, in their order, each with values of the
    argument's type, and no parsed log panics. *)
Definition reads_event {R} abi c (name : string) (eb : EventBinding (FO := FO) (LG := LG) R event) : Prop :=
  ∃ e, find_event abi name = Some e ∧
  (∀ l ev, eb_Parse eb l = Ok ev → orderly (eb_Event eb ev)) ∧
  ∀ opts r, ∃ rules,
    Forall2 (λ rule i, Forall (λ v, has_type v i.1 = true) rule) rules (filter (λ i, i.2 = true) (ae_inputs e)) ∧
    eb_Filter eb opts r = filter_events c name opts rules ∧
    ∀ ins, eb_Watch eb opts r ins = watch_events c name opts rules ins.

Lemma typed_lookup vs ts i t : typed vs ts = true → ts !! i = Some t → ∃ v, vs !! i = Some v ∧ has_type v t = true.
Proof.
  revert ts i. induction vs as [|v vs IH]; intros [|t' ts] [|i] H Hi; simplify_eq/=;
    apply andb_true_iff in H as [? ?]; eauto.
Qed.

Lemma out_at_typed {A} (conv : abi_value → result A) t vs ts i :
  typed vs ts = true → ts !! i = Some t → (∀ v, has_type v t = true → ∃ x, conv v = Ok x) →
  ∃ x, out_at conv i vs = Ok x.
Proof.
  intros Hv Hi Hc. destruct (typed_lookup _ _ _ _ Hv Hi) as (v & E & Ht). unfold out_at. rewrite E. by apply Hc.
Qed.
End typing.

(** Each conversion is defined on the values of its type. *)
Ltac converts := let v := fresh in intros v; destruct v; try discriminate; intros _; eexists; reflexivity.

Ltac head_of t := match t with ?f _ => head_of f | _ => t end.

(** A view: the call keeps to the interface, so each output converts. *)
Ltac view_step :=
  match goal with
  | |- orderly (rbind (out_at ?conv ?i ?out) _) =>
      let E := fresh "E" in
      destruct (out_at_typed conv _ out _ i ltac:(eassumption) eq_refl ltac:(converts)) as [? E]; rewrite E; cbn [rbind]
  | |- orderly (out_at ?conv ?i ?out) =>
      let E := fresh "E" in
      destruct (out_at_typed conv _ out _ i ltac:(eassumption) eq_refl ltac:(converts)) as [? E]; rewrite E
  end.
Ltac typed_view :=
  intros; split; [|do 3 eexists; split_and!; [| | |reflexivity]; reflexivity];
  match goal with
  | H : respects ?abi ?c |- orderly ?r =>
      let h := head_of r in unfold h;
      try unfold call1;
      match goal with
      | |- context [b_Call c ?opts ?name ?args] =>
          pose proof (call_typed _ _ H opts name _ args eq_refl eq_refl);
          destruct (b_Call c opts name args); cbn [rbind] in *; [|unfold orderly; congruence]
      end;
      repeat view_step; done
  end.
Ltac typed_transaction := intros; eexists _, _; split_and!; [| | |reflexivity]; reflexivity.
Lemma rule_typed {A} (ret : A → abi_value) t l : (∀ a, has_type (ret a) t = true) → Forall (λ v, has_type v t = true) (ret <$> l).
Proof. intros H. apply Forall_fmap, Forall_true. exact H. Qed.
Ltac typed_event :=
  match goal with
  | H : respects ?abi ?c |- reads_event _ _ ?name ?eb =>
      let h := head_of eb in
      eexists; split_and!; [reflexivity| |
        intros opts r; unfold h; repeat match goal with r : _ * _ |- _ => destruct r end; 
        eexists; split_and!; [|reflexivity|reflexivity];
        repeat (apply Forall2_cons; split; [apply rule_typed; reflexivity|]); apply Forall2_nil; done];
      let l := fresh "l" in let ev := fresh "ev" in let Hp := fresh "Hp" in let Ht := fresh "Ht" in
      intros l ev Hp; pose proof (unpack_typed _ _ H name _ l eq_refl) as Ht;
      unfold h in *; cbn [eb_Parse eb_Event event_binding] in *; unfold parse_log in Hp;
      destruct (b_UnpackLog c name l) as [vs|]; [|discriminate]; injection Hp as <-; cbn [ev_fields];
      cbn [typed fmap list_fmap ae_inputs fst] in Ht;
      repeat (match goal with
        | vs : list abi_value |- _ => destruct vs as [|[] vs]; try discriminate Ht
        end); discriminate
  end.

Section typed.
Context {GE : GoEthereum} {LO : Lottery} {CO FO TX LG : Type}.
Implicit Types c : Bound CO FO TX LG.

(** The code of the PaymentChannel binding is type safe. *)
Definition PaymentChannel_typed c : Prop :=
  (∀ opts arg0, calls PaymentChannelABI c "authorizedPayoutEngine" opts (PaymentChannelCaller_AuthorizedPayoutEngine c opts arg0)) ∧
  (∀ opts sender recipient, calls PaymentChannelABI c "channelBalance" opts (PaymentChannelCaller_ChannelBalance c opts sender recipient)) ∧
  (∀ opts arg0, calls PaymentChannelABI c "channels" opts (PaymentChannelCaller_Channels c opts arg0)) ∧
  (∀ opts, calls PaymentChannelABI c "config" opts (PaymentChannelCaller_Config c opts)) ∧
  (∀ opts sender recipient, calls PaymentChannelABI c "getChannelKey" opts (PaymentChannelCaller_GetChannelKey c opts sender recipient)) ∧
  (∀ opts sender recipient, calls PaymentChannelABI c "isUnlockInitiated" opts (PaymentChannelCaller_IsUnlockInitiated c opts sender recipient)) ∧
  (∀ opts, calls PaymentChannelABI c "owner" opts (PaymentChannelCaller_Owner c opts)) ∧
  (∀ opts, calls PaymentChannelABI c "paused" opts (PaymentChannelCaller_Paused c opts)) ∧
  (∀ opts recipient, sends PaymentChannelABI c "depositToChannel" opts (PaymentChannelTransactor_DepositToChannel c opts recipient)) ∧
  (∀ opts recipient, sends PaymentChannelABI c "initiateChannelUnlock" opts (PaymentChannelTransactor_InitiateChannelUnlock c opts recipient)) ∧
  (∀ opts recipient, sends PaymentChannelABI c "openChannel" opts (PaymentChannelTransactor_OpenChannel c opts recipient)) ∧
  (∀ opts, sends PaymentChannelABI c "pause" opts (PaymentChannelTransactor_Pause c opts)) ∧
  (∀ opts sender recipient amount, sends PaymentChannelABI c "payoutProvider" opts (PaymentChannelTransactor_PayoutProvider c opts sender recipient amount)) ∧
  (∀ opts engine authorized, sends PaymentChannelABI c "setPayoutEngine" opts (PaymentChannelTransactor_SetPayoutEngine c opts engine authorized)) ∧
  (∀ opts, sends PaymentChannelABI c "unpause" opts (PaymentChannelTransactor_Unpause c opts)) ∧
  (∀ opts recipient, sends PaymentChannelABI c "withdrawChannel" opts (PaymentChannelTransactor_WithdrawChannel c opts recipient)) ∧
  reads_event PaymentChannelABI c "ChannelDeposited" (PaymentChannelChannelDeposited c) ∧
  reads_event PaymentChannelABI c "ChannelOpened" (PaymentChannelChannelOpened c) ∧
  reads_event PaymentChannelABI c "ChannelPayoutExecuted" (PaymentChannelChannelPayoutExecuted c) ∧
  reads_event PaymentChannelABI c "ChannelUnlockInitiated" (PaymentChannelChannelUnlockInitiated c) ∧
  reads_event PaymentChannelABI c "ChannelWithdrawn" (PaymentChannelChannelWithdrawn c) ∧
  reads_event PaymentChannelABI c "Paused" (PaymentChannelPaused c) ∧
  reads_event PaymentChannelABI c "Unpaused" (PaymentChannelUnpaused c).
Lemma PaymentChannel_is_typed c : respects PaymentChannelABI c → PaymentChannel_typed c.
Proof. intros H. unfold PaymentChannel_typed. split_and!; first [typed_view|typed_transaction|typed_event]. Qed.

(** The code of the SettlementEngine binding is type safe. *)
Definition SettlementEngine_typed c : Prop :=
  (∀ opts, calls SettlementEngineABI c "config" opts (SettlementEngineCaller_Config c opts)) ∧
  (∀ opts, calls SettlementEngineABI c "disputeResolver" opts (SettlementEngineCaller_DisputeResolver c opts)) ∧
  (∀ opts, calls SettlementEngineABI c "entropySource" opts (SettlementEngineCaller_EntropySource c opts)) ∧
  (∀ opts sender recipient roundId, calls SettlementEngineABI c "getRoundStatus" opts (SettlementEngineCaller_GetRoundStatus c opts sender recipient roundId)) ∧
  (∀ opts, calls SettlementEngineABI c "owner" opts (SettlementEngineCaller_Owner c opts)) ∧
  (∀ opts, calls SettlementEngineABI c "paused" opts (SettlementEngineCaller_Paused c opts)) ∧
  (∀ opts, calls SettlementEngineABI c "paymentChannel" opts (SettlementEngineCaller_PaymentChannel c opts)) ∧
  (∀ opts sender recipient roundId secret, calls SettlementEngineABI c "previewWinnerIndex" opts (SettlementEngineCaller_PreviewWinnerIndex c opts sender recipient roundId secret)) ∧
  (∀ opts, calls SettlementEngineABI c "providerRegistry" opts (SettlementEngineCaller_ProviderRegistry c opts)) ∧
  (∀ opts arg0, calls SettlementEngineABI c "rounds" opts (SettlementEngineCaller_Rounds c opts arg0)) ∧
  (∀ opts arg0, calls SettlementEngineABI c "usedFallbackTickets" opts (SettlementEngineCaller_UsedFallbackTickets c opts arg0)) ∧
  (∀ opts arg0, calls SettlementEngineABI c "usedTickets" opts (SettlementEngineCaller_UsedTickets c opts arg0)) ∧
  (∀ opts ticket senderSig secret, sends SettlementEngineABI c "claimFallbackTicket" opts (SettlementEngineTransactor_ClaimFallbackTicket c opts ticket senderSig secret)) ∧
  (∀ opts sender roundId tau faceValue recipientRandHash, sends SettlementEngineABI c "commitRoundSecret" opts (SettlementEngineTransactor_CommitRoundSecret c opts sender roundId tau faceValue recipientRandHash)) ∧
  (∀ opts sender roundId, sends SettlementEngineABI c "markRoundPartial" opts (SettlementEngineTransactor_MarkRoundPartial c opts sender roundId)) ∧
  (∀ opts, sends SettlementEngineABI c "pause" opts (SettlementEngineTransactor_Pause c opts)) ∧
  (∀ opts disputeResolver, sends SettlementEngineABI c "setDisputeResolver" opts (SettlementEngineTransactor_SetDisputeResolver c opts disputeResolver)) ∧
  (∀ opts ticket senderSig secret, sends SettlementEngineABI c "settleRound" opts (SettlementEngineTransactor_SettleRound c opts ticket senderSig secret)) ∧
  (∀ opts tickets senderSigs secrets, sends SettlementEngineABI c "settleRoundBatch" opts (SettlementEngineTransactor_SettleRoundBatch c opts tickets senderSigs secrets)) ∧
  (∀ opts, sends SettlementEngineABI c "unpause" opts (SettlementEngineTransactor_Unpause c opts)) ∧
  (∀ opts sender recipient roundId reason, sends SettlementEngineABI c "voidRound" opts (SettlementEngineTransactor_VoidRound c opts sender recipient roundId reason)) ∧
  reads_event SettlementEngineABI c "FallbackTicketClaimed" (SettlementEngineFallbackTicketClaimed c) ∧
  reads_event SettlementEngineABI c "Paused" (SettlementEnginePaused c) ∧
  reads_event SettlementEngineABI c "RoundCommitted" (SettlementEngineRoundCommitted c) ∧
  reads_event SettlementEngineABI c "RoundMarkedPartial" (SettlementEngineRoundMarkedPartial c) ∧
  reads_event SettlementEngineABI c "RoundSettled" (SettlementEngineRoundSettled c) ∧
  reads_event SettlementEngineABI c "RoundVoided" (SettlementEngineRoundVoided c) ∧
  reads_event SettlementEngineABI c "Unpaused" (SettlementEngineUnpaused c).
Lemma SettlementEngine_is_typed c : respects SettlementEngineABI c → SettlementEngine_typed c.
Proof. intros H. unfold SettlementEngine_typed. split_and!; first [typed_view|typed_transaction|typed_event]. Qed.

(** The code of the ProviderRegistry binding is type safe. *)
Definition ProviderRegistry_typed c : Prop :=
  (∀ opts arg0, calls ProviderRegistryABI c "authorizedSlashers" opts (ProviderRegistryCaller_AuthorizedSlashers c opts arg0)) ∧
  (∀ opts, calls ProviderRegistryABI c "config" opts (ProviderRegistryCaller_Config c opts)) ∧
  (∀ opts provider, calls ProviderRegistryABI c "getProviderStake" opts (ProviderRegistryCaller_GetProviderStake c opts provider)) ∧
  (∀ opts provider, calls ProviderRegistryABI c "isProviderActive" opts (ProviderRegistryCaller_IsProviderActive c opts provider)) ∧
  (∀ opts, calls ProviderRegistryABI c "owner" opts (ProviderRegistryCaller_Owner c opts)) ∧
  (∀ opts arg0, calls ProviderRegistryABI c "providers" opts (ProviderRegistryCaller_Providers c opts arg0)) ∧
  (∀ opts, sends ProviderRegistryABI c "registerProvider" opts (ProviderRegistryTransactor_RegisterProvider c opts)) ∧
  (∀ opts amount, sends ProviderRegistryABI c "requestPartialUnstake" opts (ProviderRegistryTransactor_RequestPartialUnstake c opts amount)) ∧
  (∀ opts, sends ProviderRegistryABI c "requestUnstake" opts (ProviderRegistryTransactor_RequestUnstake c opts)) ∧
  (∀ opts slasher authorized, sends ProviderRegistryABI c "setSlasher" opts (ProviderRegistryTransactor_SetSlasher c opts slasher authorized)) ∧
  (∀ opts provider amount reasonId, sends ProviderRegistryABI c "slashProvider" opts (ProviderRegistryTransactor_SlashProvider c opts provider amount reasonId)) ∧
  (∀ opts, sends ProviderRegistryABI c "withdrawStake" opts (ProviderRegistryTransactor_WithdrawStake c opts)) ∧
  reads_event ProviderRegistryABI c "ProviderRegistered" (ProviderRegistryProviderRegistered c) ∧
  reads_event ProviderRegistryABI c "ProviderSlashed" (ProviderRegistryProviderSlashed c) ∧
  reads_event ProviderRegistryABI c "ProviderStakeWithdrawn" (ProviderRegistryProviderStakeWithdrawn c) ∧
  reads_event ProviderRegistryABI c "ProviderUnstakeRequested" (ProviderRegistryProviderUnstakeRequested c).
Lemma ProviderRegistry_is_typed c : respects ProviderRegistryABI c → ProviderRegistry_typed c.
Proof. intros H. unfold ProviderRegistry_typed. split_and!; first [typed_view|typed_transaction|typed_event]. Qed.

(** The code of the CommitRevealEntropy binding is type safe. *)
Definition CommitRevealEntropy_typed c : Prop :=
  (∀ opts, calls CommitRevealEntropyABI c "ROUND_TICKET_TYPEHASH" opts (CommitRevealEntropyCaller_ROUNDTICKETTYPEHASH c opts)) ∧
  (∀ opts commitBlock secret roundId tau, calls CommitRevealEntropyABI c "computeWinnerIndex" opts (CommitRevealEntropyCaller_ComputeWinnerIndex c opts commitBlock secret roundId tau)) ∧
  (∀ opts, calls CommitRevealEntropyABI c "config" opts (CommitRevealEntropyCaller_Config c opts)) ∧
  (∀ opts, calls CommitRevealEntropyABI c "eip712Domain" opts (CommitRevealEntropyCaller_Eip712Domain c opts)) ∧
  (∀ opts ticketHash sig, calls CommitRevealEntropyABI c "recoverSigner" opts (CommitRevealEntropyCaller_RecoverSigner c opts ticketHash sig)) ∧
  (∀ opts ticket, calls CommitRevealEntropyABI c "roundTicketHash" opts (CommitRevealEntropyCaller_RoundTicketHash c opts ticket)) ∧
  (∀ opts secret committedHash, calls CommitRevealEntropyABI c "verifySecretCommitment" opts (CommitRevealEntropyCaller_VerifySecretCommitment c opts secret committedHash)) ∧
  reads_event CommitRevealEntropyABI c "EIP712DomainChanged" (CommitRevealEntropyEIP712DomainChanged c).
Lemma CommitRevealEntropy_is_typed c : respects CommitRevealEntropyABI c → CommitRevealEntropy_typed c.
Proof. intros H. unfold CommitRevealEntropy_typed. split_and!; first [typed_view|typed_transaction|typed_event]. Qed.

(** C40: Over bound contracts that keep to the interface descriptions embedded
    in the bindings, the generated code of all four bindings is type safe: no
    view and no event parser panics in a conversion, every transaction is for a
    state-changing method of its interface with arguments of the types it
    declares, and every event is filtered and watched by one rule for each of
    its indexed arguments, in order, with values of that argument's type.  The
    Go types of uint8 and uint256 are told apart: a conversion of one to the
    other panics. *)
Theorem bindings_typed pc se pr cr :
  respects PaymentChannelABI pc → respects SettlementEngineABI se →
  respects ProviderRegistryABI pr → respects CommitRevealEntropyABI cr →
  PaymentChannel_typed pc ∧ SettlementEngine_typed se ∧ ProviderRegistry_typed pr ∧ CommitRevealEntropy_typed cr.
Proof.
  intros. split_and!.
  - by apply PaymentChannel_is_typed.
  - by apply SettlementEngine_is_typed.
  - by apply ProviderRegistry_is_typed.
  - by apply CommitRevealEntropy_is_typed.
Qed.
End typed.

(** ** The contracts keep to their interfaces *)

Section chains.
Context {GE : GoEthereum} {LO : Lottery} {RC : Recipients}.

Lemma find_method_elem abi name m : find_method abi name = Some m → m ∈ abi_methods abi ∧ am_name m = name.
Proof.
  unfold find_method. intros ([i x] & E & ->)%fmap_Some. apply list_find_Some in E as (Hi & Hn & _).
  split; [by eapply list_elem_of_lookup_2|done].
Qed.
Lemma find_event_elem abi name e : find_event abi name = Some e → e ∈ abi_events abi ∧ ae_name e = name.
Proof.
  unfold find_event. intros ([i x] & E & ->)%fmap_Some. apply list_find_Some in E as (Hi & Hn & _).
  split; [by eapply list_elem_of_lookup_2|done].
Qed.

(** Logs unpack to values of the types of their event. *)
Definition emits (abi : Abi) (e : event) : bool :=
  match find_event abi (event_name e) with
  | Some ae => typed (event_values e) (fst <$> ae_inputs ae)
  | None => true
  end.
Lemma events_typed abi e :
  abi ∈ [PaymentChannelABI; SettlementEngineABI; ProviderRegistryABI; CommitRevealEntropyABI] → emits abi e = true.
Proof. intros H. repeat (apply elem_of_cons in H as [->|H]); [by destruct e..|by apply not_elem_of_nil in H]. Qed.

Lemma chain_respects abi a ms vs b w :
  abi ∈ [PaymentChannelABI; SettlementEngineABI; ProviderRegistryABI; CommitRevealEntropyABI] →
  Forall (λ m, ∀ args, typed args (am_inputs m) = true →
    match default (Err no_method) (method vs (am_name m) args) with
    | Ok out => typed out (am_outputs m) = true | Err e => e ≠ GoPanic end) (abi_methods abi) →
  respects abi (chain a ms vs b w).
Proof.
  intros Habi Hm. split.
  - intros opts name m args [Hin <-]%find_method_elem. rewrite Forall_forall in Hm. by apply Hm.
  - intros name ae e Hf. cbn [b_UnpackLog chain]. case_decide as Hn; [|done]. subst name.
    pose proof (events_typed abi e Habi) as He. unfold emits in He. by rewrite Hf in He.
Qed.

(** One method of an interface against the table of views. *)
Ltac typed_args args H :=
  repeat match goal with
  | args : list abi_value |- _ => destruct args as [|[] args]; try discriminate H
  end.
Ltac method_respects :=
  let args := fresh "args" in let H := fresh "H" in intros args H; cbn [am_inputs] in H; typed_args args H; cbn;
  try reflexivity; try discriminate.

(** A view that may revert. *)
Lemma view_result {A} (r : result A) (ret : A → list abi_value) ts :
  r ≠ Err GoPanic → (∀ a, typed (ret a) ts = true) →
  match (let! a := r in Ok (ret a)) with Ok out => typed out ts = true | Err e => e ≠ GoPanic end.
Proof. intros Hr Ht. destruct r as [a|e]; cbn; [apply Ht|congruence]. Qed.

Lemma add256_orderly a b : orderly (add256 a b).
Proof. unfold add256. by case_decide. Qed.
Lemma sub256_orderly a b : orderly (sub256 a b).
Proof. unfold sub256. by case_decide. Qed.
Lemma bind_orderly {A B} (r : result A) (f : A → result B) : orderly r → (∀ a, orderly (f a)) → orderly (rbind r f).
Proof. destruct r; cbn; [auto|]. unfold orderly. congruence. Qed.
Lemma channelBalance_orderly s r w : orderly (channelBalance s r w).
Proof. apply bind_orderly; [apply sub256_orderly|intros; apply sub256_orderly]. Qed.
Lemma computeWinnerIndex_orderly cb secret id tau b : orderly (computeWinnerIndex cb secret id tau b).
Proof.
  unfold computeWinnerIndex. apply bind_orderly; [apply add256_orderly|intros t]. case_decide; [|done].
  apply bind_orderly; [apply add256_orderly|intros l]. case_decide; [|done]. case_decide; [|done].
  apply bind_orderly; [|done]. unfold raffle_winner. by case_decide.
Qed.
Lemma previewWinnerIndex_orderly s r id secret b w : orderly (previewWinnerIndex s r id secret b w).
Proof.
  unfold previewWinnerIndex. case_decide; [|done]. case_decide; [|done].
  apply bind_orderly; [apply computeWinnerIndex_orderly|by intros []].
Qed.

Ltac interface abi :=
  apply chain_respects; [by repeat constructor|]; cbn [abi_methods abi];
  repeat (apply Forall_cons; split; [method_respects|]); try by apply Forall_nil.

(** Every view of the contracts gives what the interface embedded in its binding
    declares. *)
Lemma pc_respects b w : respects PaymentChannelABI (pc_chain b w).
Proof.
  interface PaymentChannelABI.
  exact (view_result (channelBalance _ _ w) (λ v, [VUint v]) [TUint256] (channelBalance_orderly _ _ _) (λ _, eq_refl)).
Qed.
Lemma se_respects b w : respects SettlementEngineABI (se_chain b w).
Proof.
  interface SettlementEngineABI.
  exact (view_result (previewWinnerIndex _ _ _ _ b w) (λ v, [VUint v]) [TUint256] (previewWinnerIndex_orderly _ _ _ _ _ _)
    (λ _, eq_refl)).
Qed.
Lemma pr_respects b w : respects ProviderRegistryABI (pr_chain b w).
Proof. interface ProviderRegistryABI. Qed.
Lemma cr_respects b w : (∀ h sig, orderly (recoverSigner h sig)) → respects CommitRevealEntropyABI (cr_chain b w).
Proof.
  intros Hr. interface CommitRevealEntropyABI.
  - assert (Hc : ∀ cb s id tau,
      match (let! (i, h) := computeWinnerIndex cb s id tau b in Ok [VUint i; VBytes32 h]) with
      | Ok out => typed out [TUint256; TBytes32] = true | Err e => e ≠ GoPanic end).
    { intros cb s id tau. pose proof (computeWinnerIndex_orderly cb s id tau b) as Ho. unfold orderly in Ho.
      destruct (computeWinnerIndex cb s id tau b) as [[]|]; cbn; [done|congruence]. }
    exact (Hc _ _ _ _).
  - exact (view_result (recoverSigner _ _) (λ a, [VAddress a]) [TAddress] (Hr _ _) (λ _, eq_refl)).
Qed.
End chains.

(** ** Witness *)

Lemma bindings_typed_witness :
  PaymentChannel_typed (pc_chain (toy_block 40) toy_settled) ∧
  CommitRevealEntropy_typed (cr_chain (toy_block 40) toy_settled).
Proof.
  destruct (bindings_typed (pc_chain (toy_block 40) toy_settled) (se_chain (toy_block 40) toy_settled)
    (pr_chain (toy_block 40) toy_settled) (cr_chain (toy_block 40) toy_settled)) as (H1 & _ & _ & H2).
  - apply pc_respects.
  - apply se_respects.
  - apply pr_respects.
  - apply cr_respects. intros h sig. unfold orderly, recoverSigner. cbn. unfold toy_ec_recover. by repeat case_match.
  - exact (conj H1 H2).
Defined.
