(* ===== verification/BindingSessions.v ===== *)
(** * Sessions and constructors of the generated bindings

    network/payments/bindings: the types and functions abigen generates around
    the methods: [New], its read-only, write-only and log-only variants,
    deployment, the raw bindings, and the sessions that fix the options of
    calls.  [package bind] of go-ethereum is the class [PackageBind]; the
    contracts of Lottery.v are an instance of it.  [session_deposit] is a
    client's view of the whole stack: what a session deposits it reads back. *)

From S2P Require Import Prelude Bindings Tickets EscrowContract EthEscrow Lottery LotterySafety Abigen LotteryBindings AbiTables.

(** ** Package bind *)

Section sessions.
Context {CO FO TX LG : Type}.
#[local] Abbreviation Bd := (Bound CO FO TX LG).

(** The contract backends and what the generated code calls of the package.  The
    laws are its documentation: a bound contract calls through its caller,
    sends through its transactor and reads logs through its filterer. *)
Class PackageBind := {
  Caller : Type; Transactor : Type; Filterer : Type; Backend : Type;
  as_caller : Backend → Caller; as_transactor : Backend → Transactor; as_filterer : Backend → Filterer;
  GetAbi : Abi → result (option Abi);
  NewBoundContract : list byte → Abi → option Caller → option Transactor → option Filterer → Bd;
  DeployContract : TransactOpts → Abi → list byte → Backend → list abi_value → result (list byte * TX * Bd);
  Transfer : Bd → TransactOpts → result TX;
  GetAbi_ok abi : GetAbi abi = Ok (Some abi);
  bound_calls a abi c t f t' f' :
    b_Call (NewBoundContract a abi c t f) = b_Call (NewBoundContract a abi c t' f');
  bound_transacts a abi c t f c' f' opts m args :
    b_Transact (NewBoundContract a abi c t f) opts m args = b_Transact (NewBoundContract a abi c' t f') opts m args;
  bound_logs a abi c t f c' t' :
    b_FilterLogs (NewBoundContract a abi c t f) = b_FilterLogs (NewBoundContract a abi c' t' f) ∧
    b_WatchLogs (NewBoundContract a abi c t f) = b_WatchLogs (NewBoundContract a abi c' t' f) ∧
    b_UnpackLog (NewBoundContract a abi c t f) = b_UnpackLog (NewBoundContract a abi c' t' f);
}.

(** A contract binding: its read-only, write-only and log parts each hold the
    bound contract. *)
Record Contract (B : Type) := { ct_Caller : B; ct_Transactor : B; ct_Filterer : B }.
Definition contract_of {B} (b : B) : Contract B := {| ct_Caller := b; ct_Transactor := b; ct_Filterer := b |}.

Record Session := { s_Contract : Contract Bd; s_CallOpts : CO; s_TransactOpts : TransactOpts }.
Record CallerSession := { cs_Contract : Bd; cs_CallOpts : CO }.
Record TransactorSession := { ts_Contract : Bd; ts_TransactOpts : TransactOpts }.

(** The generated methods of a [Session] and of a [CallerSession] have the same
    bodies, as have those of a [Session] and of a [TransactorSession]. *)
Class CallSession (S : Type) := { call_contract : S → Bd; call_opts : S → CO }.
Class TransactSession (S : Type) := { transact_contract : S → Bd; transact_opts : S → TransactOpts }.
#[global] Instance Session_calls : CallSession Session :=
  {| call_contract s := ct_Caller _ (s_Contract s); call_opts := s_CallOpts |}.
#[global] Instance CallerSession_calls : CallSession CallerSession :=
  {| call_contract := cs_Contract; call_opts := cs_CallOpts |}.
#[global] Instance Session_transacts : TransactSession Session :=
  {| transact_contract s := ct_Transactor _ (s_Contract s); transact_opts := s_TransactOpts |}.
#[global] Instance TransactorSession_transacts : TransactSession TransactorSession :=
  {| transact_contract := ts_Contract; transact_opts := ts_TransactOpts |}.

(** The raw bindings. *)
Definition Raw_Call (r : Contract Bd) (opts : CO) (method : string) (params : list abi_value) :=
  b_Call (ct_Caller _ r) opts method params.
Definition Raw_Transact (r : Contract Bd) (opts : TransactOpts) (method : string) (params : list abi_value) :=
  b_Transact (ct_Transactor _ r) opts method params.
Definition CallerRaw_Call (r : Bd) (opts : CO) (method : string) (params : list abi_value) := b_Call r opts method params.
Definition TransactorRaw_Transact (r : Bd) (opts : TransactOpts) (method : string) (params : list abi_value) :=
  b_Transact r opts method params.

Context `{PackageBind}.
Definition Raw_Transfer (r : Contract Bd) (opts : TransactOpts) : result TX := Transfer (ct_Transactor _ r) opts.
Definition TransactorRaw_Transfer (r : Bd) (opts : TransactOpts) : result TX := Transfer r opts.

(** ** Constructors *)

(** The bytecode the bindings embed. *)
Context (PaymentChannelBin SettlementEngineBin ProviderRegistryBin CommitRevealEntropyBin : list byte).

(** [GetAbi] and its result, dereferenced. *)
Definition bound_at (abi : Abi) (address : list byte) (caller : option Caller) (transactor : option Transactor)
    (filterer : option Filterer) : result Bd :=
  let! parsed := GetAbi abi in
  match parsed with
  | Some parsed => Ok (NewBoundContract address parsed caller transactor filterer)
  | None => Err GoPanic
  end.
Definition deploy (abi : Abi) (bin : list byte) (auth : TransactOpts) (backend : Backend) (params : list abi_value)
    : result (list byte * TX * Contract Bd) :=
  let! parsed := GetAbi abi in
  match parsed with
  | None => Err (New "GetABI returned nil")
  | Some parsed =>
      let! (address, tx, contract) := DeployContract auth parsed bin backend params in
      Ok (address, tx, contract_of contract)
  end.

(** PaymentChannel. *)
Definition bindPaymentChannel (address : list byte) (caller : option Caller) (transactor : option Transactor)
    (filterer : option Filterer) : result Bd :=
  bound_at PaymentChannelABI address caller transactor filterer.
Definition NewPaymentChannel (address : list byte) (backend : Backend) : result (Contract Bd) :=
  let! contract := bindPaymentChannel address (Some (as_caller backend)) (Some (as_transactor backend))
    (Some (as_filterer backend)) in
  Ok (contract_of contract).
Definition NewPaymentChannelCaller (address : list byte) (caller : Caller) : result Bd :=
  bindPaymentChannel address (Some caller) None None.
Definition NewPaymentChannelTransactor (address : list byte) (transactor : Transactor) : result Bd :=
  bindPaymentChannel address None (Some transactor) None.
Definition NewPaymentChannelFilterer (address : list byte) (filterer : Filterer) : result Bd :=
  bindPaymentChannel address None None (Some filterer).
Definition DeployPaymentChannel (auth : TransactOpts) (backend : Backend) (config : list byte)
    : result (list byte * TX * Contract Bd) :=
  deploy PaymentChannelABI PaymentChannelBin auth backend [VAddress config].

(** SettlementEngine. *)
Definition bindSettlementEngine (address : list byte) (caller : option Caller) (transactor : option Transactor)
    (filterer : option Filterer) : result Bd :=
  bound_at SettlementEngineABI address caller transactor filterer.
Definition NewSettlementEngine (address : list byte) (backend : Backend) : result (Contract Bd) :=
  let! contract := bindSettlementEngine address (Some (as_caller backend)) (Some (as_transactor backend))
    (Some (as_filterer backend)) in
  Ok (contract_of contract).
Definition NewSettlementEngineCaller (address : list byte) (caller : Caller) : result Bd :=
  bindSettlementEngine address (Some caller) None None.
Definition NewSettlementEngineTransactor (address : list byte) (transactor : Transactor) : result Bd :=
  bindSettlementEngine address None (Some transactor) None.
Definition NewSettlementEngineFilterer (address : list byte) (filterer : Filterer) : result Bd :=
  bindSettlementEngine address None None (Some filterer).
Definition DeploySettlementEngine (auth : TransactOpts) (backend : Backend) (config entropySource paymentChannel providerRegistry : list byte)
    : result (list byte * TX * Contract Bd) :=
  deploy SettlementEngineABI SettlementEngineBin auth backend [VAddress config; VAddress entropySource; VAddress paymentChannel; VAddress providerRegistry].

(** ProviderRegistry. *)
Definition bindProviderRegistry (address : list byte) (caller : option Caller) (transactor : option Transactor)
    (filterer : option Filterer) : result Bd :=
  bound_at ProviderRegistryABI address caller transactor filterer.
Definition NewProviderRegistry (address : list byte) (backend : Backend) : result (Contract Bd) :=
  let! contract := bindProviderRegistry address (Some (as_caller backend)) (Some (as_transactor backend))
    (Some (as_filterer backend)) in
  Ok (contract_of contract).
Definition NewProviderRegistryCaller (address : list byte) (caller : Caller) : result Bd :=
  bindProviderRegistry address (Some caller) None None.
Definition NewProviderRegistryTransactor (address : list byte) (transactor : Transactor) : result Bd :=
  bindProviderRegistry address None (Some transactor) None.
Definition NewProviderRegistryFilterer (address : list byte) (filterer : Filterer) : result Bd :=
  bindProviderRegistry address None None (Some filterer).
Definition DeployProviderRegistry (auth : TransactOpts) (backend : Backend) (config : list byte)
    : result (list byte * TX * Contract Bd) :=
  deploy ProviderRegistryABI ProviderRegistryBin auth backend [VAddress config].

(** CommitRevealEntropy. *)
Definition bindCommitRevealEntropy (address : list byte) (caller : option Caller) (transactor : option Transactor)
    (filterer : option Filterer) : result Bd :=
  bound_at CommitRevealEntropyABI address caller transactor filterer.
Definition NewCommitRevealEntropy (address : list byte) (backend : Backend) : result (Contract Bd) :=
  let! contract := bindCommitRevealEntropy address (Some (as_caller backend)) (Some (as_transactor backend))
    (Some (as_filterer backend)) in
  Ok (contract_of contract).
Definition NewCommitRevealEntropyCaller (address : list byte) (caller : Caller) : result Bd :=
  bindCommitRevealEntropy address (Some caller) None None.
Definition NewCommitRevealEntropyTransactor (address : list byte) (transactor : Transactor) : result Bd :=
  bindCommitRevealEntropy address None (Some transactor) None.
Definition NewCommitRevealEntropyFilterer (address : list byte) (filterer : Filterer) : result Bd :=
  bindCommitRevealEntropy address None None (Some filterer).
Definition DeployCommitRevealEntropy (auth : TransactOpts) (backend : Backend) (config : list byte)
    : result (list byte * TX * Contract Bd) :=
  deploy CommitRevealEntropyABI CommitRevealEntropyBin auth backend [VAddress config].

End sessions.
#[global] Arguments ct_Caller {B}. #[global] Arguments ct_Transactor {B}. #[global] Arguments ct_Filterer {B}.
#[global] Arguments PackageBind : clear implicits.
#[global] Arguments Session : clear implicits.
#[global] Arguments CallerSession : clear implicits.
#[global] Arguments TransactorSession : clear implicits.
#[global] Arguments CallSession : clear implicits.
#[global] Arguments TransactSession : clear implicits.

(** ** Sessions *)

Section session_methods.
Context {GE : GoEthereum} {LO : Lottery} {CO FO TX LG : Type}.
#[local] Abbreviation CallSession := (CallSession CO FO TX LG).
#[local] Abbreviation TransactSession := (TransactSession CO FO TX LG).

(** ** PaymentChannel *)

Definition PaymentChannelSession_AuthorizedPayoutEngine {S} `{CallSession S} (s : S) (arg0 : list byte) :=
  PaymentChannelCaller_AuthorizedPayoutEngine (call_contract s) (call_opts s) arg0.
Definition PaymentChannelSession_ChannelBalance {S} `{CallSession S} (s : S) (sender recipient : list byte) :=
  PaymentChannelCaller_ChannelBalance (call_contract s) (call_opts s) sender recipient.
Definition PaymentChannelSession_Channels {S} `{CallSession S} (s : S) (arg0 : list byte) :=
  PaymentChannelCaller_Channels (call_contract s) (call_opts s) arg0.
Definition PaymentChannelSession_Config {S} `{CallSession S} (s : S) :=
  PaymentChannelCaller_Config (call_contract s) (call_opts s).
Definition PaymentChannelSession_GetChannelKey {S} `{CallSession S} (s : S) (sender recipient : list byte) :=
  PaymentChannelCaller_GetChannelKey (call_contract s) (call_opts s) sender recipient.
Definition PaymentChannelSession_IsUnlockInitiated {S} `{CallSession S} (s : S) (sender recipient : list byte) :=
  PaymentChannelCaller_IsUnlockInitiated (call_contract s) (call_opts s) sender recipient.
Definition PaymentChannelSession_Owner {S} `{CallSession S} (s : S) :=
  PaymentChannelCaller_Owner (call_contract s) (call_opts s).
Definition PaymentChannelSession_Paused {S} `{CallSession S} (s : S) :=
  PaymentChannelCaller_Paused (call_contract s) (call_opts s).
Definition PaymentChannelSession_DepositToChannel {S} `{TransactSession S} (s : S) (recipient : list byte) :=
  PaymentChannelTransactor_DepositToChannel (transact_contract s) (transact_opts s) recipient.
Definition PaymentChannelSession_InitiateChannelUnlock {S} `{TransactSession S} (s : S) (recipient : list byte) :=
  PaymentChannelTransactor_InitiateChannelUnlock (transact_contract s) (transact_opts s) recipient.
Definition PaymentChannelSession_OpenChannel {S} `{TransactSession S} (s : S) (recipient : list byte) :=
  PaymentChannelTransactor_OpenChannel (transact_contract s) (transact_opts s) recipient.
Definition PaymentChannelSession_Pause {S} `{TransactSession S} (s : S) :=
  PaymentChannelTransactor_Pause (transact_contract s) (transact_opts s).
Definition PaymentChannelSession_PayoutProvider {S} `{TransactSession S} (s : S) (sender recipient : list byte) (amount : Z) :=
  PaymentChannelTransactor_PayoutProvider (transact_contract s) (transact_opts s) sender recipient amount.
Definition PaymentChannelSession_SetPayoutEngine {S} `{TransactSession S} (s : S) (engine : list byte) (authorized : bool) :=
  PaymentChannelTransactor_SetPayoutEngine (transact_contract s) (transact_opts s) engine authorized.
Definition PaymentChannelSession_Unpause {S} `{TransactSession S} (s : S) :=
  PaymentChannelTransactor_Unpause (transact_contract s) (transact_opts s).
Definition PaymentChannelSession_WithdrawChannel {S} `{TransactSession S} (s : S) (recipient : list byte) :=
  PaymentChannelTransactor_WithdrawChannel (transact_contract s) (transact_opts s) recipient.

(** ** SettlementEngine *)

Definition SettlementEngineSession_Config {S} `{CallSession S} (s : S) :=
  SettlementEngineCaller_Config (call_contract s) (call_opts s).
Definition SettlementEngineSession_DisputeResolver {S} `{CallSession S} (s : S) :=
  SettlementEngineCaller_DisputeResolver (call_contract s) (call_opts s).
Definition SettlementEngineSession_EntropySource {S} `{CallSession S} (s : S) :=
  SettlementEngineCaller_EntropySource (call_contract s) (call_opts s).
Definition SettlementEngineSession_GetRoundStatus {S} `{CallSession S} (s : S) (sender recipient : list byte) (roundId : Z) :=
  SettlementEngineCaller_GetRoundStatus (call_contract s) (call_opts s) sender recipient roundId.
Definition SettlementEngineSession_Owner {S} `{CallSession S} (s : S) :=
  SettlementEngineCaller_Owner (call_contract s) (call_opts s).
Definition SettlementEngineSession_Paused {S} `{CallSession S} (s : S) :=
  SettlementEngineCaller_Paused (call_contract s) (call_opts s).
Definition SettlementEngineSession_PaymentChannel {S} `{CallSession S} (s : S) :=
  SettlementEngineCaller_PaymentChannel (call_contract s) (call_opts s).
Definition SettlementEngineSession_PreviewWinnerIndex {S} `{CallSession S} (s : S) (sender recipient : list byte) (roundId : Z) (secret : list byte) :=
  SettlementEngineCaller_PreviewWinnerIndex (call_contract s) (call_opts s) sender recipient roundId secret.
Definition SettlementEngineSession_ProviderRegistry {S} `{CallSession S} (s : S) :=
  SettlementEngineCaller_ProviderRegistry (call_contract s) (call_opts s).
Definition SettlementEngineSession_Rounds {S} `{CallSession S} (s : S) (arg0 : list byte) :=
  SettlementEngineCaller_Rounds (call_contract s) (call_opts s) arg0.
Definition SettlementEngineSession_UsedFallbackTickets {S} `{CallSession S} (s : S) (arg0 : list byte) :=
  SettlementEngineCaller_UsedFallbackTickets (call_contract s) (call_opts s) arg0.
Definition SettlementEngineSession_UsedTickets {S} `{CallSession S} (s : S) (arg0 : list byte) :=
  SettlementEngineCaller_UsedTickets (call_contract s) (call_opts s) arg0.
Definition SettlementEngineSession_ClaimFallbackTicket {S} `{TransactSession S} (s : S) (ticket : SolTicket) (senderSig secret : list byte) :=
  SettlementEngineTransactor_ClaimFallbackTicket (transact_contract s) (transact_opts s) ticket senderSig secret.
Definition SettlementEngineSession_CommitRoundSecret {S} `{TransactSession S} (s : S) (sender : list byte) (roundId tau faceValue : Z) (recipientRandHash : list byte) :=
  SettlementEngineTransactor_CommitRoundSecret (transact_contract s) (transact_opts s) sender roundId tau faceValue recipientRandHash.
Definition SettlementEngineSession_MarkRoundPartial {S} `{TransactSession S} (s : S) (sender : list byte) (roundId : Z) :=
  SettlementEngineTransactor_MarkRoundPartial (transact_contract s) (transact_opts s) sender roundId.
Definition SettlementEngineSession_Pause {S} `{TransactSession S} (s : S) :=
  SettlementEngineTransactor_Pause (transact_contract s) (transact_opts s).
Definition SettlementEngineSession_SetDisputeResolver {S} `{TransactSession S} (s : S) (disputeResolver : list byte) :=
  SettlementEngineTransactor_SetDisputeResolver (transact_contract s) (transact_opts s) disputeResolver.
Definition SettlementEngineSession_SettleRound {S} `{TransactSession S} (s : S) (ticket : SolTicket) (senderSig secret : list byte) :=
  SettlementEngineTransactor_SettleRound (transact_contract s) (transact_opts s) ticket senderSig secret.
Definition SettlementEngineSession_SettleRoundBatch {S} `{TransactSession S} (s : S) (tickets : list SolTicket) (senderSigs secrets : list (list byte)) :=
  SettlementEngineTransactor_SettleRoundBatch (transact_contract s) (transact_opts s) tickets senderSigs secrets.
Definition SettlementEngineSession_Unpause {S} `{TransactSession S} (s : S) :=
  SettlementEngineTransactor_Unpause (transact_contract s) (transact_opts s).
Definition SettlementEngineSession_VoidRound {S} `{TransactSession S} (s : S) (sender recipient : list byte) (roundId : Z) (reason : list byte) :=
  SettlementEngineTransactor_VoidRound (transact_contract s) (transact_opts s) sender recipient roundId reason.

(** ** ProviderRegistry *)

Definition ProviderRegistrySession_AuthorizedSlashers {S} `{CallSession S} (s : S) (arg0 : list byte) :=
  ProviderRegistryCaller_AuthorizedSlashers (call_contract s) (call_opts s) arg0.
Definition ProviderRegistrySession_Config {S} `{CallSession S} (s : S) :=
  ProviderRegistryCaller_Config (call_contract s) (call_opts s).
Definition ProviderRegistrySession_GetProviderStake {S} `{CallSession S} (s : S) (provider : list byte) :=
  ProviderRegistryCaller_GetProviderStake (call_contract s) (call_opts s) provider.
Definition ProviderRegistrySession_IsProviderActive {S} `{CallSession S} (s : S) (provider : list byte) :=
  ProviderRegistryCaller_IsProviderActive (call_contract s) (call_opts s) provider.
Definition ProviderRegistrySession_Owner {S} `{CallSession S} (s : S) :=
  ProviderRegistryCaller_Owner (call_contract s) (call_opts s).
Definition ProviderRegistrySession_Providers {S} `{CallSession S} (s : S) (arg0 : list byte) :=
  ProviderRegistryCaller_Providers (call_contract s) (call_opts s) arg0.
Definition ProviderRegistrySession_RegisterProvider {S} `{TransactSession S} (s : S) :=
  ProviderRegistryTransactor_RegisterProvider (transact_contract s) (transact_opts s).
Definition ProviderRegistrySession_RequestPartialUnstake {S} `{TransactSession S} (s : S) (amount : Z) :=
  ProviderRegistryTransactor_RequestPartialUnstake (transact_contract s) (transact_opts s) amount.
Definition ProviderRegistrySession_RequestUnstake {S} `{TransactSession S} (s : S) :=
  ProviderRegistryTransactor_RequestUnstake (transact_contract s) (transact_opts s).
Definition ProviderRegistrySession_SetSlasher {S} `{TransactSession S} (s : S) (slasher : list byte) (authorized : bool) :=
  ProviderRegistryTransactor_SetSlasher (transact_contract s) (transact_opts s) slasher authorized.
Definition ProviderRegistrySession_SlashProvider {S} `{TransactSession S} (s : S) (provider : list byte) (amount : Z) (reasonId : list byte) :=
  ProviderRegistryTransactor_SlashProvider (transact_contract s) (transact_opts s) provider amount reasonId.
Definition ProviderRegistrySession_WithdrawStake {S} `{TransactSession S} (s : S) :=
  ProviderRegistryTransactor_WithdrawStake (transact_contract s) (transact_opts s).

(** ** CommitRevealEntropy *)

Definition CommitRevealEntropySession_ROUNDTICKETTYPEHASH {S} `{CallSession S} (s : S) :=
  CommitRevealEntropyCaller_ROUNDTICKETTYPEHASH (call_contract s) (call_opts s).
Definition CommitRevealEntropySession_ComputeWinnerIndex {S} `{CallSession S} (s : S) (commitBlock : Z) (secret : list byte) (roundId tau : Z) :=
  CommitRevealEntropyCaller_ComputeWinnerIndex (call_contract s) (call_opts s) commitBlock secret roundId tau.
Definition CommitRevealEntropySession_Config {S} `{CallSession S} (s : S) :=
  CommitRevealEntropyCaller_Config (call_contract s) (call_opts s).
Definition CommitRevealEntropySession_Eip712Domain {S} `{CallSession S} (s : S) :=
  CommitRevealEntropyCaller_Eip712Domain (call_contract s) (call_opts s).
Definition CommitRevealEntropySession_RecoverSigner {S} `{CallSession S} (s : S) (ticketHash sig : list byte) :=
  CommitRevealEntropyCaller_RecoverSigner (call_contract s) (call_opts s) ticketHash sig.
Definition CommitRevealEntropySession_RoundTicketHash {S} `{CallSession S} (s : S) (ticket : SolTicket) :=
  CommitRevealEntropyCaller_RoundTicketHash (call_contract s) (call_opts s) ticket.
Definition CommitRevealEntropySession_VerifySecretCommitment {S} `{CallSession S} (s : S) (secret committedHash : list byte) :=
  CommitRevealEntropyCaller_VerifySecretCommitment (call_contract s) (call_opts s) secret committedHash.
End session_methods.

(** ** Partial bindings *)

Section partial.
Context {GE : GoEthereum} {LO : Lottery} {CO FO TX LG : Type} {PB : PackageBind CO FO TX LG}.

(** A read-only binding reads what the full one does, a write-only binding sends
    the same transactions, and a log-only binding iterates over the same events;
    here for the balance of a channel, the opening of one and its payouts.  All
    four constructors succeed. *)
Theorem partial_bindings_agree address (backend : Backend) :
  ∃ full reader writer logs,
    NewPaymentChannel address backend = Ok full ∧
    NewPaymentChannelCaller address (as_caller backend) = Ok reader ∧
    NewPaymentChannelTransactor address (as_transactor backend) = Ok writer ∧
    NewPaymentChannelFilterer address (as_filterer backend) = Ok logs ∧
    (∀ opts s r, PaymentChannelCaller_ChannelBalance (ct_Caller full) opts s r
       = PaymentChannelCaller_ChannelBalance reader opts s r) ∧
    (∀ opts r, PaymentChannelTransactor_OpenChannel (ct_Transactor full) opts r
       = PaymentChannelTransactor_OpenChannel writer opts r) ∧
    (∀ opts rules it, eb_Filter (PaymentChannelChannelPayoutExecuted (ct_Filterer full)) opts rules = Ok it →
       eb_Filter (PaymentChannelChannelPayoutExecuted logs) opts rules = Ok it ∧
       ∀ evs it', iterates (ct_Filterer full) it evs it' → iterates logs it evs it').
Proof.
  unfold NewPaymentChannel, NewPaymentChannelCaller, NewPaymentChannelTransactor, NewPaymentChannelFilterer,
    bindPaymentChannel, bound_at. rewrite GetAbi_ok. cbn [rbind]. eexists _, _, _, _.
  split_and!; try reflexivity; cbn [contract_of ct_Caller ct_Transactor ct_Filterer].
  - intros. unfold PaymentChannelCaller_ChannelBalance, call1. by erewrite bound_calls.
  - intros. unfold PaymentChannelTransactor_OpenChannel. by erewrite bound_transacts.
  - intros opts [s r] it. set (f := Some (as_filterer backend)).
    destruct (bound_logs address PaymentChannelABI (Some (as_caller backend)) (Some (as_transactor backend)) f None None)
      as (E1 & _ & E3).
    cbn [eb_Filter event_binding PaymentChannelChannelPayoutExecuted]. unfold filter_events. rewrite E1.
    intros E. split; [exact E|]. clear E. intros evs it'. induction 1 as [??? ? Hd _ IH|c it0 it1 ev evs it' Hn He _ IH|c it0 it' Hn].
    + by eapply its_deliver.
    + eapply (its_true _ c); [|exact He|exact IH]. rewrite <- Hn. unfold Next, next_done, receive, parse_log. by rewrite E3.
    + eapply (its_false _ c). rewrite <- Hn. unfold Next, next_done, receive, parse_log. by rewrite E3.
Qed.
End partial.

(** ** The contracts as a backend *)

Section chain_backend.
Context {GE : GoEthereum} {LO : Lottery} {RC : Recipients}.

(** A node: a block and the state of the contracts in it. *)
Definition node : Type := Block * World.
Definition no_contract : Bound () () (Sent operation) event :=
  {| b_Call _ _ _ := Err no_method; b_Transact _ _ _ := Err no_method;
     b_FilterLogs _ _ _ := Ok {| sb_logs := []; sb_end := None |}; b_WatchLogs _ _ _ := Ok tt;
     b_UnpackLog _ _ := Err no_method |}.
Definition contract_at (a : list byte) (n : node) : Bound () () (Sent operation) event :=
  if decide (a = channelAddr) then pc_chain n.1 n.2
  else if decide (a = engineAddr) then se_chain n.1 n.2
  else if decide (a = registryAddr) then pr_chain n.1 n.2
  else if decide (a = entropyAddr) then cr_chain n.1 n.2
  else no_contract.

(** A call through an absent part of the backend is a nil dereference. *)
#[global, program] Instance ChainBind : PackageBind () () (Sent operation) event := {|
  Caller := node; Transactor := node; Filterer := node; Backend := node;
  as_caller n := n; as_transactor n := n; as_filterer n := n;
  GetAbi abi := Ok (Some abi);
  NewBoundContract a _ c t f :=
    {| b_Call opts m args := match c with Some n => b_Call (contract_at a n) opts m args | None => Err GoPanic end;
       b_Transact opts m args := match t with Some n => b_Transact (contract_at a n) opts m args | None => Err GoPanic end;
       b_FilterLogs opts e rules :=
         match f with Some n => b_FilterLogs (contract_at a n) opts e rules | None => Err GoPanic end;
       b_WatchLogs opts e rules :=
         match f with Some n => b_WatchLogs (contract_at a n) opts e rules | None => Err GoPanic end;
       b_UnpackLog name e :=
         if decide (event_name e = name) then Ok (event_values e) else Err (New "event signature mismatch") |};
  DeployContract _ _ _ _ _ := Err no_method;
  Transfer _ _ := Err no_method |}.
Next Obligation. done. Qed.
Next Obligation. done. Qed.
Next Obligation. done. Qed.
Next Obligation. done. Qed.

(** A session of [from] with the channel contract, every transaction of which
    carries [value]. *)
Definition channel_session (n : node) (from : list byte) (value : Z) : result (Session () () (Sent operation) event) :=
  let! c := NewPaymentChannel channelAddr n in
  Ok {| s_Contract := c; s_CallOpts := (); s_TransactOpts := {| to_From := from; to_Value := Some value |} |}.

Lemma channel_session_views b w from value sess :
  channel_session (b, w) from value = Ok sess →
  (∀ s r, PaymentChannelSession_ChannelBalance sess s r = channelBalance s r w) ∧
  (∀ r, PaymentChannelSession_OpenChannel sess r =
     let t := {| sent_from := from; sent_value := value; sent_op := op_openChannel r |} in
     let! _ := mine b t (on_payment (op_openChannel r)) w in Ok t).
Proof.
  intros [= <-]. split; intros.
  - etransitivity; [|apply (proj1 (views_read b w))]. unfold PaymentChannelSession_ChannelBalance,
      PaymentChannelCaller_ChannelBalance, call1. cbn. unfold contract_at. by rewrite decide_True.
  - unfold PaymentChannelSession_OpenChannel, PaymentChannelTransactor_OpenChannel. cbn -[mine]. unfold contract_at.
    by rewrite decide_True.
Qed.

(** What a session deposits by opening a channel it reads back once the
    transaction is mined, in any block and on any state of the contracts: as
    the balance of the channel, on top of what was there; the balances of other
    channels do not change, and the payment is in the log. *)
Theorem session_deposit owner n from value recipient sess t b w b1 replies w' b' :
  reached (deployed owner) w →
  channel_session n from value = Ok sess →
  PaymentChannelSession_OpenChannel sess recipient = Ok t →
  mine b t replies w = Ok w' →
  ∃ sess1 sess' z,
    channel_session (b1, w) from value = Ok sess1 ∧ channel_session (b', w') from value = Ok sess' ∧
    PaymentChannelSession_ChannelBalance sess1 from recipient = Ok z ∧
    PaymentChannelSession_ChannelBalance sess' from recipient = Ok (z + value) ∧
    (∀ s r, getChannelKey s r ≠ getChannelKey from recipient →
       PaymentChannelSession_ChannelBalance sess' s r = PaymentChannelSession_ChannelBalance sess1 s r) ∧
    w_log w' = ChannelOpened from recipient value :: w_log w.
Proof.
  intros Hw Hs Ht Hx. destruct n as [b0 w0]. pose proof (channel_session_views _ _ _ _ _ Hs) as [_ Hopen].
  rewrite Hopen in Ht. apply rbind_ok in Ht as (? & _ & Ht). injection Ht as <-.
  eexists _, _. destruct (channel_session_views b1 w from value _ eq_refl) as [Hview _].
  destruct (channel_session_views b' w' from value _ eq_refl) as [Hview' _].
  unfold mine in Hx. cbn [exec map sent_from sent_value sent_op] in Hx. unfold run in Hx. step_ok Hx. cbn [credit] in Hx.
  unfold openChannel, add_deposit in Hx. steps_ok Hx. injection Hx as <-. cbn [c_sender c_value] in *.
  set (key := getChannelKey from recipient) in *.
  change (channel_at key (pc_add value w)) with (channel_at key w) in *. apply add256_ok in E as [-> Hlt].
  pose proof (channel_at_ok _ _ _ key (reached_balanced _ _ Hw)) as [].
  assert (Hav : ∀ ch, channel_ok ch → available ch = Ok (left_in ch)).
  { intros ch []. unfold available, sub256, left_in in *. rewrite decide_True by lia. cbn [rbind].
    by rewrite decide_True by lia. }
  exists (left_in (channel_at key w)). split; [reflexivity|]. split; [reflexivity|]. split_and!.
  - rewrite Hview. apply Hav. by apply (channel_at_ok 0 0), (reached_balanced owner).
  - rewrite Hview'. unfold channelBalance. fold key. unfold channel_at at 1. cbn [w_pc pc_channels emit put_channel on_pc].
    rewrite lookup_insert_eq. cbn [default from_option id].
    rewrite Hav.
    + unfold left_in. cbn. f_equal. lia.
    + destruct G as (_ & [Hge _] & _). unfold left_in in *.
      split; unfold left_in; cbn [ch_totalDeposited ch_settledAmount ch_withdrawnAmount]; lia.
  - intros s r Hne. rewrite Hview, Hview'. unfold channelBalance, channel_at. cbn. by rewrite lookup_insert_ne by congruence.
  - done.
Qed.
End chain_backend.
