(* ===== verification/LotteryPlay.v ===== *)
(** * Playing the lottery

    The tickets of network/payments (signer.go, client.go) and of the consumer
    (nodes/consumer/main.go) meet the contracts of payments/src: which tickets
    are paid, when, and what each party can get back. *)

From S2P Require Import Prelude Sha256 Bindings Tickets EscrowContract EthEscrow Nodes Lottery LotterySafety Abigen LotteryBindings.
Import ProtocolConfig.

(** The ticket [SettleRound] of client.go hands to the binding; a missing
    number has no ABI encoding. *)
Definition sol_ticket (t : RoundTicket) : option SolTicket :=
  round ← rt_RoundID t; index ← rt_LocalIndex t; face ← rt_FaceValue t;
  prob ← rt_WinProb t; nonce ← rt_SenderNonce t;
  Some {| tk_sender := rt_Sender t; tk_recipient := rt_Recipient t; tk_roundId := round; tk_localIndex := index;
          tk_faceValue := face; tk_winProb := prob; tk_senderNonce := nonce |}.

Lemma sol_ticket_typed t :
  ticket_typed t → ∃ st, sol_ticket t = Some st ∧ ticket_decodes st ∧ tk_sender st = rt_Sender t.
Proof.
  intros [Hs Hr Hn]. rewrite !Forall_cons in Hn.
  destruct Hn as ((a & Ha & ?) & (b & Hb & ?) & (c & Hc & ?) & (d & Hd & ?) & (e & He & ?) & _).
  unfold sol_ticket. rewrite Ha, Hb, Hc, Hd, He. simpl. eexists. by split.
Qed.

Section play.
Context {GE : GoEthereum} {LO : Lottery} {RC : Recipients}.
Implicit Types (c : Call) (w : World) (b : Block).

(** ** The hash and the signature *)

(** Go and Solidity hash a ticket to the same digest. *)
Lemma Digest_roundTicketHash key t st :
  ticket_typed t → sol_ticket t = Some st →
  Digest (NewTicketSigner key lotteryChain entropyAddr) t = Some (roundTicketHash st).
Proof.
  intros [Hs Hr Hn] Hst. unfold sol_ticket in Hst. rewrite !Forall_cons in Hn.
  destruct Hn as ((a & Ha & ?) & (b & Hb & ?) & (c & Hc & ?) & (d & Hd & ?) & (e & He & ?) & _).
  rewrite Ha, Hb, Hc, Hd, He in Hst. injection Hst as <-.
  unfold Digest, HashRoundTicket, ticket_encoding. rewrite Ha, Hb, Hc, Hd, He. simpl.
  f_equal. unfold roundTicketHash. rewrite hashTypedDataV4_eip712.
  unfold HashTypedData, typed_data. cbn [ts_DomainSeparator NewTicketSigner].
  unfold ComputeDomainSeparator, domain_encoding, uint_word, address_word.
  pose proof lotteryChain_range. pose proof length_entropyAddr.
  rewrite !PaddedBigBytes_small by (unfold is_u256 in *; lia).
  rewrite !LeftPadBytes_short by lia. rewrite Hs, Hr, length_entropyAddr. done.
Qed.

(** The signature of a signer is one the contract attributes to it. *)
Lemma SignTicket_recovered key t st sig :
  ec_valid key → ticket_typed t → sol_ticket t = Some st →
  SignTicket (NewTicketSigner (Some key) lotteryChain entropyAddr) t = Some (Ok sig) →
  recoverSigner (roundTicketHash st) sig = Ok (PubkeyToAddress key).
Proof.
  intros Hk Ht Hst Hs. unfold SignTicket in Hs. cbn [ts_PrivateKey NewTicketSigner] in Hs.
  fold (NewTicketSigner (Some key) lotteryChain entropyAddr) in Hs.
  rewrite (Digest_roundTicketHash _ _ _ Ht Hst) in Hs. cbn [mbind option_bind] in Hs.
  assert (Hl : length (roundTicketHash st) = 32%nat)
    by (unfold roundTicketHash; rewrite hashTypedDataV4_eip712; apply length_Keccak256Hash).
  destruct (ec_Sign_valid (roundTicketHash st) key Hk Hl) as (rs & v & Hsig & Hrs & Hv & _).
  rewrite Hsig in Hs. injection Hs as <-. unfold recoverSigner.
  rewrite <- (ECDSA_recover_Sign _ _ _ _ Hk Hl Hrs Hv Hsig). f_equal.
  unfold map_v. rewrite lookup_app_r, Hrs by lia. cbn [lookup list_lookup Nat.sub].
  rewrite insert_app_r_alt, Hrs by lia. f_equal. cbn. f_equal. f_equal. unfold v_up.
  destruct Hv as [-> | ->]; done.
Qed.

(** ** The draw *)

(** A round is drawn in the blocks [commit + 16 .. commit + 256], from the hash
    of block [commit + 15], and has one winner. *)
Definition drawable (round : Round) b : Prop :=
  rd_commitBlock round + CONFIRMATION_DELAY < bl_number b <= rd_commitBlock round + MAX_BLOCKHASH_WINDOW ∧
  bl_hash b (rd_commitBlock round + CONFIRMATION_DELAY) ≠ zero_bytes 32.

Lemma blockhash_drawable round b :
  drawable round b ↔
  bl_number b <= rd_commitBlock round + MAX_BLOCKHASH_WINDOW ∧
  blockhash b (rd_commitBlock round + CONFIRMATION_DELAY) ≠ zero_bytes 32.
Proof.
  unfold drawable, blockhash, CONFIRMATION_DELAY, MAX_BLOCKHASH_WINDOW. case_decide as Hd.
  - split; intros [? ?]; (split; [lia|done]).
  - split; [intros [? _]; lia|]. intros [_ []]. done.
Qed.

Lemma computeWinnerIndex_spec round secret id b i h :
  rd_commitBlock round + MAX_BLOCKHASH_WINDOW < 2 ^ 256 →
  computeWinnerIndex (rd_commitBlock round) secret id (rd_tau round) b = Ok (i, h) ↔
  drawable round b ∧ h = bl_hash b (rd_commitBlock round + CONFIRMATION_DELAY) ∧
  raffle_winner h secret id (rd_tau round) = Ok i.
Proof.
  intros Hw. rewrite blockhash_drawable. unfold computeWinnerIndex, add256.
  rewrite decide_True by (unfold CONFIRMATION_DELAY, MAX_BLOCKHASH_WINDOW in *; lia). cbn [rbind].
  rewrite (decide_True (P := _ + MAX_BLOCKHASH_WINDOW < _)) by done. cbn [rbind].
  assert (Hbh : bl_number b <= rd_commitBlock round + MAX_BLOCKHASH_WINDOW →
    blockhash b (rd_commitBlock round + CONFIRMATION_DELAY) ≠ zero_bytes 32 →
    blockhash b (rd_commitBlock round + CONFIRMATION_DELAY) = bl_hash b (rd_commitBlock round + CONFIRMATION_DELAY) ∧
    rd_commitBlock round + CONFIRMATION_DELAY <= bl_number b).
  { unfold blockhash. case_decide; [|done]. intros. split; [done|lia]. }
  split.
  - intros H. step_ok H. step_ok H. step_ok H. destruct (Hbh G0 G1) as [E _]. rewrite E in H.
    step_ok H. injection H as <- <-. rewrite <- E at 1. split_and!; done.
  - intros ((H1 & H2) & -> & Hr). destruct (Hbh H1 H2) as [E ?]. rewrite decide_True by done.
    rewrite decide_True by done. rewrite decide_True by done. rewrite E, Hr. done.
Qed.

(** ** Settlement *)

(** When the engine pays a ticket: the round is open and of the ticket's face
    value, its secret is the committed one and no dispute is pending; the
    ticket is new and its index the winner's; the channel covers it, the
    contracts are connected and running, and the recipient is not one of them. *)
Record settles_now b w (st : SolTicket) (secret : list byte) : Prop := {
  sn_open : getRoundStatus (tk_sender st) (tk_recipient st) (tk_roundId st) w = Open;
  sn_face : tk_faceValue st = rd_faceValue (round_at (round_key (tk_sender st) (tk_recipient st) (tk_roundId st)) w);
  sn_secret : Keccak256Hash secret =
    rd_recipientRandHash (round_at (round_key (tk_sender st) (tk_recipient st) (tk_roundId st)) w);
  sn_disputes : dispute_blocks (tk_sender st) (tk_recipient st) (tk_roundId st) w = Ok false;
  sn_new : roundTicketHash st ∉ se_used (w_se w);
  sn_drawable : drawable (round_at (round_key (tk_sender st) (tk_recipient st) (tk_roundId st)) w) b;
  sn_winner : let round := round_at (round_key (tk_sender st) (tk_recipient st) (tk_roundId st)) w in
    raffle_winner (bl_hash b (rd_commitBlock round + CONFIRMATION_DELAY)) secret (tk_roundId st) (rd_tau round)
      = Ok (tk_localIndex st);
  sn_funds : tk_faceValue st <= left_in (channel_at (getChannelKey (tk_sender st) (tk_recipient st)) w);
  sn_engine : engineAddr ∈ pc_engines (w_pc w);
  sn_running : pc_paused (w_pc w) = false ∧ se_paused (w_se w) = false;
  sn_recipient : tk_recipient st ∉ contracts;
}.

(** The round's drawing window does not overflow a uint256. *)
Definition in_range w (st : SolTicket) : Prop :=
  rd_commitBlock (round_at (round_key (tk_sender st) (tk_recipient st) (tk_roundId st)) w) + MAX_BLOCKHASH_WINDOW
    < 2 ^ 256.

(** What a payment leaves. *)
Record ticket_paid w (st : SolTicket) (w' : World) : Prop := {
  tp_paid : w_paid w' = (tk_recipient st, tk_faceValue st) :: w_paid w;
  tp_balance : pc_balance (w_pc w') = pc_balance (w_pc w) - tk_faceValue st;
  tp_status : getRoundStatus (tk_sender st) (tk_recipient st) (tk_roundId st) w' = Settled;
  tp_channel : left_in (channel_at (getChannelKey (tk_sender st) (tk_recipient st)) w')
    = left_in (channel_at (getChannelKey (tk_sender st) (tk_recipient st)) w) - tk_faceValue st;
  tp_event : w_log w' = [RoundSettled (tk_sender st) (tk_recipient st) (tk_roundId st) (tk_localIndex st) (tk_faceValue st);
                         ChannelPayoutExecuted (tk_sender st) (tk_recipient st) (tk_faceValue st)] ++ w_log w;
}.

Lemma channel_at_put k ch w : channel_at k (put_channel k ch w) = ch.
Proof. unfold channel_at. cbn. by rewrite lookup_insert_eq. Qed.

(** A transfer to a plain account from a channel that covers it. *)
Definition paid_out (s r : list byte) (v : Z) w : World :=
  let k := getChannelKey s r in let ch := channel_at k w in
  pc_enter false (emit (ChannelPayoutExecuted s r v) (record_paid r v (pc_add (- v) (put_channel k
    {| ch_totalDeposited := ch_totalDeposited ch; ch_settledAmount := ch_settledAmount ch + v;
       ch_withdrawnAmount := ch_withdrawnAmount ch; ch_unlockBlock := ch_unlockBlock ch |} (pc_enter true w))))).

Lemma left_in_paid_out s r v w :
  left_in (channel_at (getChannelKey s r) (paid_out s r v w)) = left_in (channel_at (getChannelKey s r) w) - v.
Proof.
  unfold paid_out.
  change (channel_at ?k (pc_enter _ (emit _ (record_paid _ _ (pc_add _ (put_channel ?k ?ch ?x))))))
    with (channel_at k (put_channel k ch x)).
  rewrite channel_at_put. unfold left_in. cbn. lia.
Qed.

Lemma payoutProvider_plain s r v caller w :
  let ch := channel_at (getChannelKey s r) w in
  caller ∈ pc_engines (w_pc w) → pc_entered (w_pc w) = false → pc_paused (w_pc w) = false →
  channel_ok ch → available ch = Ok (left_in ch) → left_in ch <= pc_balance (w_pc w) →
  v <= left_in ch → r ∉ contracts → payoutProvider s r v Some caller w = Ok (paid_out s r v w).
Proof.
  intros ch Hc He Hp [Hs Hd Hl Ht] Ha Hb Hv Hr. unfold payoutProvider. fold ch.
  rewrite !decide_True by done. rewrite Ha. cbn [rbind]. rewrite decide_True by done.
  unfold add256. rewrite decide_True by (unfold left_in in *; lia). cbn [rbind].
  unfold pc_send. rewrite decide_True by (split; [done|cbn; lia]). done.
Qed.

(** The world after a settlement with a plain recipient. *)
Definition settled_world (st : SolTicket) w : World :=
  let k := round_key (tk_sender st) (tk_recipient st) (tk_roundId st) in
  emit (RoundSettled (tk_sender st) (tk_recipient st) (tk_roundId st) (tk_localIndex st) (tk_faceValue st))
    (paid_out (tk_sender st) (tk_recipient st) (tk_faceValue st)
       (put_round k (set_round_status Settled (round_at k w)) (use_ticket (roundTicketHash st) w))).

Lemma settleRoundInternal_plain c w st sig secret :
  let round := round_at (round_key (tk_sender st) (tk_recipient st) (tk_roundId st)) w in
  let ch := channel_at (getChannelKey (tk_sender st) (tk_recipient st)) w in
  recoverSigner (roundTicketHash st) sig = Ok (tk_sender st) →
  rd_commitBlock round + MAX_BLOCKHASH_WINDOW < 2 ^ 256 →
  pc_entered (w_pc w) = false → channel_ok ch → available ch = Ok (left_in ch) → left_in ch <= pc_balance (w_pc w) →
  settles_now (c_block c) w st secret → settleRoundInternal st sig secret Some c w = Ok (settled_world st w).
Proof.
  intros round ch Hsig Hwin Hpe Hok Ha Hb [Hop Hf Hs Hdis Hnew Hdr Hwn Hfu Hen [Hpp _] Hrc].
  unfold getRoundStatus in Hop. fold round in Hop, Hf, Hs, Hdr, Hwn. cbv zeta in Hwn.
  assert (Hwi : tk_localIndex st < rd_tau round).
  { unfold raffle_winner in Hwn. pose proof Hwn as Hx. step_ok Hx. injection Hx as <-. apply Z.mod_pos_bound. lia. }
  unfold settleRoundInternal. fold round. rewrite Hop, Hdis. rewrite !decide_True by done. cbn [rbind].
  rewrite decide_True by done.
  unfold check_ticket. rewrite decide_True by done. rewrite Hsig. cbn [rbind]. rewrite decide_True by done.
  unfold verifySecretCommitment. rewrite bool_decide_true by done. rewrite decide_True by done. cbn [rbind].
  rewrite (proj2 (computeWinnerIndex_spec round secret (tk_roundId st) (c_block c) _ _ Hwin) (conj Hdr (conj eq_refl Hwn))).
  cbn [rbind]. rewrite decide_True by done. rewrite payoutProvider_plain by done. done.
Qed.

Lemma settleRoundInternal_inv rc c w st sig secret w' :
  rd_commitBlock (round_at (round_key (tk_sender st) (tk_recipient st) (tk_roundId st)) w) + MAX_BLOCKHASH_WINDOW
    < 2 ^ 256 →
  (∀ k, channel_ok (channel_at k w)) → se_paused (w_se w) = false →
  settleRoundInternal st sig secret rc c w = Ok w' → settles_now (c_block c) w st secret.
Proof.
  intros Hwin Hok Hsp Hx. unfold settleRoundInternal in Hx. steps_ok Hx. destruct x1 as [i h]. steps_ok Hx.
  apply computeWinnerIndex_spec in E1 as (Hdr & -> & Hr); [|done].
  unfold check_ticket in E0. steps_ok E0. unfold payoutProvider in E2. steps_ok E2.
  unfold pc_send in E5. apply guard_ok in E5 as [[Hrc _] _]. destruct G3 as [Hf _].
  apply available_ok in E3 as [-> _]; [|apply Hok]. subst.
  split; try done. symmetry. apply bool_decide_eq_true in G7. done.
Qed.

(** The engine pays a plain account whenever [settles_now], and no account
    otherwise. *)
Lemma settleRound_plain owner c w st sig secret :
  reached (deployed owner) w → recoverSigner (roundTicketHash st) sig = Ok (tk_sender st) →
  rd_commitBlock (round_at (round_key (tk_sender st) (tk_recipient st) (tk_roundId st)) w) + MAX_BLOCKHASH_WINDOW
    < 2 ^ 256 →
  (settles_now (c_block c) w st secret →
     ∃ w', settleRound st sig secret Some c w = Ok w' ∧ ticket_paid w st w') ∧
  (∀ rc w', settleRound st sig secret rc c w = Ok w' → settles_now (c_block c) w st secret).
Proof.
  intros Hw Hsig Hwin. destruct (reached_unguarded _ _ Hw) as (Hpe & Hse & _). unfold settleRound, guarded. split.
  - intros Hn. destruct (reached_channel owner w (getChannelKey (tk_sender st) (tk_recipient st)) Hw) as (Hok & Ha & Hb).
    rewrite decide_True by done. rewrite decide_True by apply (sn_running _ _ _ _ Hn).
    rewrite (settleRoundInternal_plain c (se_enter true w) st sig secret); try done; [|by destruct Hn].
    eexists. split; [reflexivity|]. unfold settled_world. set (w1 := put_round _ _ _).
    split; [reflexivity|reflexivity| |exact (left_in_paid_out (tk_sender st) (tk_recipient st) (tk_faceValue st) w1)
      |reflexivity].
    unfold getRoundStatus, round_at. cbn. by rewrite lookup_insert_eq.
  - intros rc w' Hx. steps_ok Hx. apply settleRoundInternal_inv in E; [by destruct E|done| |done].
    intros k. apply (reached_channel owner w k Hw).
Qed.

(** A binding of one of the contracts, at a node of the chain. *)
Definition handle : Type := Bound () () (Sent operation) event.

(** The rest of [SettleRound] of client.go: the ticket as the binding's struct,
    and the binding's call. *)
Definition submit_settle (se : handle) (auth : TransactOpts * option Z) (t : RoundTicket) (sig secret : list byte)
    : result (Sent operation) :=
  match sol_ticket t with
  | None => Err Panic
  | Some st => SettlementEngineTransactor_SettleRound se auth.1 st sig secret
  end.

(** C5: A signed ticket is paid when it wins, and only then.  For a ticket that
    the consumer's signer signed for the chain and the entropy contract,
    [SettleRound] of the provider's client hands in one transaction, the
    [settleRound] call for this ticket, signature and secret, or returns an
    error; it hands it in only if the ticket can be settled ([settles_now]) in
    the next block of the node it talks to, and always then if the recipient
    is a plain account.  In whatever block and reachable state of the
    contracts the transaction is mined: if it is executed without a revert,
    whatever the recipient does while it is paid, then [settles_now] holds
    there; and if it holds and the recipient is a plain account, the provider
    is paid exactly the face value out of the channel, once, and the round is
    closed.  [settles_now] says: the round is open on the ticket's face value,
    not disputed, and in its drawing window of blocks
    [commit + 16 .. commit + 256]; the secret is the committed one, the ticket
    is unused, its index is the drawn one, and the channel covers the prize;
    neither contract is paused, the engine is authorised at the channel
    contract, and the recipient is none of the lottery's own contracts. *)
Theorem signed_ticket_paid owner b0 w0 key t st sig secret (cl : PaymentClient handle) pk transactor gas opts :
  ec_valid key → ticket_typed t → rt_Sender t = PubkeyToAddress key → sol_ticket t = Some st →
  SignTicket (NewTicketSigner (Some key) lotteryChain entropyAddr) t = Some (Ok sig) →
  length secret = 32%nat →
  reached (deployed owner) w0 → in_range w0 st →
  cl_SettlementEngine cl = Some (se_chain b0 w0) → cl_PrivateKey cl = Some pk → transactor pk (cl_ChainID cl) = Ok opts →
  to_From opts ∉ contracts → to_Value opts = None →
  let r := SettleRound transactor gas submit_settle t sig secret cl in
  let sent := {| sent_from := to_From opts; sent_value := 0; sent_op := op_settleRound st sig secret |} in
  ((r = Ok sent ∧ settles_now b0 w0 st secret) ∨ ∃ e, r = Err e) ∧
  (settles_now b0 w0 st secret → on_payment (sent_op sent) = [] → r = Ok sent) ∧
  ∀ b w, reached (deployed owner) w → in_range w st →
    (settles_now b w st secret → ∃ w', mine b sent [] w = Ok w' ∧ ticket_paid w st w') ∧
    (∀ replies w', mine b sent replies w = Ok w' → settles_now b w st secret).
Proof.
  intros Hk Ht Hsd Hst Hsig Hl Hw0 Hwin0 Hse Hpk Htr Hfrom Hval r sent.
  destruct (sol_ticket_typed t Ht) as (st' & Hst' & Hdec & Hs). assert (st' = st) as -> by congruence. clear Hst'.
  pose proof (SignTicket_recovered key t st sig Hk Ht Hst Hsig) as Hrec. rewrite <- Hsd, <- Hs in Hrec.
  assert (Hr : r = wrap "failed to submit settleRound transaction"
                     (let! _ := mine b0 sent (on_payment (sent_op sent)) w0 in Ok sent)).
  { unfold r, SettleRound, GetTransactor. rewrite Hse, Hpk, Htr. cbn [wrap rbind]. f_equal.
    unfold submit_settle. rewrite Hst. unfold SettlementEngineTransactor_SettleRound. cbn [b_Transact se_chain chain].
    change (method se_methods _ _) with (Some (op_settleRound st sig secret)). rewrite Hval. done. }
  assert (Hmine : ∀ b w, reached (deployed owner) w → in_range w st →
    (settles_now b w st secret → ∃ w', mine b sent [] w = Ok w' ∧ ticket_paid w st w') ∧
    (∀ replies w', mine b sent replies w = Ok w' → settles_now b w st secret)).
  { intros b w Hw Hwin. set (c := {| c_sender := to_From opts; c_value := 0; c_block := b |}).
    destruct (settleRound_plain owner c w st sig secret Hw Hrec Hwin) as [Hok Hinv]. split.
    - intros (w' & E & Hp)%Hok. exists w'. split; [|done]. unfold mine. cbn [exec sent_from sent_value sent_op sent].
      unfold run. rewrite decide_True; [exact E|]. split_and!; try done. by right.
    - intros replies w' Hx. unfold mine in Hx. cbn [exec sent_from sent_value sent_op sent] in Hx.
      unfold run in Hx. step_ok Hx. by apply Hinv in Hx. }
  split; [|split; [|exact Hmine]].
  - rewrite Hr. destruct (mine b0 sent _ w0) as [w1|e] eqn:E; [left|right; by eexists]. split; [done|].
    destruct (Hmine b0 w0 Hw0 Hwin0) as [_ Hinv]. by eapply Hinv.
  - intros Hn Hpl. destruct (Hmine b0 w0 Hw0 Hwin0) as [Hok _]. destruct (Hok Hn) as (w' & E & _).
    by rewrite Hr, Hpl, E.
Qed.

(** The client's queries report what the contracts hold: the balance of a
    channel is what it can still pay, the stake what can still be slashed. *)
Theorem client_queries_exact owner w b s r p (cl : PaymentClient handle) :
  reached (deployed owner) w →
  cl_PaymentChannel cl = Some (pc_chain b w) → cl_ProviderRegistry cl = Some (pr_chain b w) →
  GetChannelBalance (λ pc : handle, PaymentChannelCaller_ChannelBalance pc ()) s r cl
    = Ok (left_in (channel_at (getChannelKey s r) w)) ∧
  GetProviderStake (λ (pr : handle) a, let! pInfo := ProviderRegistryCaller_Providers pr () a in Ok pInfo.1.1.1) p cl
    = Ok (pv_stake (provider_at p w)).
Proof.
  intros Hw Hpc Hpr. unfold GetChannelBalance, GetProviderStake. rewrite Hpc, Hpr.
  destruct (reached_channel owner w (getChannelKey s r) Hw) as (_ & Ha & _).
  rewrite (proj1 (views_read b w)). unfold channelBalance. rewrite Ha. split; reflexivity.
Qed.

(** ** Getting money back *)

(** Once its unlock period is over, the sender of a channel gets back all that
    the channel has left, at any time and whatever the recipient does. *)
Theorem channel_returned owner w b sender recipient :
  let k := getChannelKey sender recipient in
  reached (deployed owner) w → sender ∉ contracts → length recipient = 20%nat → pc_paused (w_pc w) = false →
  0 < ch_unlockBlock (channel_at k w) <= bl_number b → left_in (channel_at k w) ≠ 0 →
  ∃ w', exec b (Tx sender 0 (op_withdrawChannel recipient) []) w = Ok w' ∧
    w_paid w' = (sender, left_in (channel_at k w)) :: w_paid w ∧ left_in (channel_at k w') = 0.
Proof.
  intros k Hw Hs Hr Hp Hu Hl. destruct (reached_unguarded _ _ Hw) as (He & _ & _).
  destruct (reached_channel owner w k Hw) as (Hok & Ha & Hb). destruct Hok as [H1 H2 H3 H4].
  cbn [exec]. unfold run. rewrite decide_True by (split_and!; first [done|by right]). cbn [credit].
  unfold withdrawChannel. cbn [c_sender]. fold k. rewrite decide_True by done. rewrite decide_True by done.
  rewrite decide_True by lia. rewrite decide_True by (unfold number; cbn [c_block]; lia). rewrite Ha. cbn [rbind]. rewrite decide_True by done.
  unfold add256. rewrite decide_True by (unfold left_in in *; lia). cbn [rbind]. unfold pc_send.
  rewrite decide_True by (split; [done|cbn; lia]). cbn [rbind]. eexists. split; [reflexivity|]. split; [done|].
  unfold channel_at at 1. cbn. rewrite lookup_insert_eq. unfold left_in. cbn. lia.
Qed.

(** The unlock is never undone: a channel that has been unlocked once takes new
    deposits, and its sender can withdraw each of them in the same block, so
    tickets against them have no protection period. *)
Theorem refunded_channel_unlocked owner w b sender recipient v :
  let k := getChannelKey sender recipient in
  reached (deployed owner) w → sender ∉ contracts → length recipient = 20%nat → pc_paused (w_pc w) = false →
  0 < ch_unlockBlock (channel_at k w) <= bl_number b →
  0 < v → ch_totalDeposited (channel_at k w) + v < 2 ^ 256 →
  ∃ w1 w2, exec b (Tx sender v (op_depositToChannel recipient) []) w = Ok w1 ∧
    exec b (Tx sender 0 (op_withdrawChannel recipient) []) w1 = Ok w2 ∧
    w_paid w2 = (sender, left_in (channel_at k w) + v) :: w_paid w.
Proof.
  intros k Hw Hs Hr Hp Hu Hv Ht. destruct (reached_channel owner w k Hw) as (Hok & _ & _).
  destruct Hok as [H1 H2 H3 H4].
  assert (Hx : ∃ w1, exec b (Tx sender v (op_depositToChannel recipient) []) w = Ok w1 ∧ w_paid w1 = w_paid w ∧
    pc_paused (w_pc w1) = false ∧ ch_unlockBlock (channel_at k w1) = ch_unlockBlock (channel_at k w) ∧
    left_in (channel_at k w1) = left_in (channel_at k w) + v).
  { cbn [exec]. unfold run. unfold left_in in *.
    rewrite decide_True by (split_and!; [done|unfold is_u256; cbn [c_value]; lia|done|by left]). cbn [credit].
    unfold depositToChannel, add_deposit. cbn [c_sender c_value]. fold k.
    change (channel_at k (pc_add v w)) with (channel_at k w).
    rewrite decide_True by done. rewrite decide_True by lia. unfold add256. rewrite decide_True by done. cbn [rbind].
    eexists. split; [reflexivity|]. split; [done|]. split; [done|].
    change (channel_at k (emit ?e (put_channel k ?ch ?x))) with (channel_at k (put_channel k ch x)).
    rewrite !channel_at_put. cbn. split; [done|]. lia. }
  destruct Hx as (w1 & Hx & Hp1 & Hpa & Hun & Hle).
  pose proof (re_exec _ _ _ _ _ Hw Hx) as Hw1. exists w1.
  destruct (channel_returned owner w1 b sender recipient Hw1) as (w2 & Hx2 & Hpd & _); try done.
  { fold k. by rewrite Hun. }
  { fold k. rewrite Hle. lia. }
  exists w2. fold k in Hpd. by rewrite Hpd, Hle, Hp1.
Qed.
Lemma provider_at_put a p w : provider_at a (put_provider a p w) = p.
Proof. unfold provider_at. cbn. by rewrite lookup_insert_eq. Qed.

(** After the unbonding period a provider gets exactly the amount it asked for,
    as long as its stake still covers it; when it has been slashed below that
    amount meanwhile, the withdrawal reverts, and a new request is refused
    while the old one stands: the rest of the stake is locked. *)
Theorem stake_returned owner w b a :
  let p := provider_at a w in
  reached (deployed owner) w → a ∉ contracts →
  0 < pv_unstakeReleaseBlock p <= bl_number b → 0 < pv_pendingUnstakeAmount p →
  (pv_pendingUnstakeAmount p <= pv_stake p →
   ∃ w', exec b (Tx a 0 op_withdrawStake []) w = Ok w' ∧
     w_paid w' = (a, pv_pendingUnstakeAmount p) :: w_paid w ∧
     pv_stake (provider_at a w') = pv_stake p - pv_pendingUnstakeAmount p ∧
     pv_unstakeReleaseBlock (provider_at a w') = 0) ∧
  (pv_stake p < pv_pendingUnstakeAmount p →
   exec b (Tx a 0 op_withdrawStake []) w = Err InsufficientStake ∧
   ∀ v, is_u256 v → ∃ e e', exec b (Tx a 0 op_requestUnstake []) w = Err e ∧
                            exec b (Tx a 0 (op_requestPartialUnstake v) []) w = Err e').
Proof.
  intros p Hw Ha Hu Hv. destruct (reached_unguarded _ _ Hw) as (_ & _ & He).
  pose proof (reached_stake _ _ a Hw) as Hb. fold p in Hb.
  assert (Hg : ∀ o, abi_decodes o → c_sender {| c_sender := a; c_value := 0; c_block := b |} ∉ contracts ∧
    is_u256 0 ∧ abi_decodes o ∧ (payable o = true ∨ 0 = 0)) by (intros; split_and!; first [done|by right]).
  split; intros Hs.
  - cbn [exec]. unfold run. rewrite decide_True by (by apply Hg). cbn [credit]. unfold withdrawStake. cbn [c_sender].
    fold p. rewrite decide_True by done. rewrite decide_True by lia.
    rewrite decide_True by (unfold number; cbn [c_block]; lia). rewrite decide_True by (split; [lia|done]).
    unfold sub256. rewrite decide_True by done. cbn [rbind]. unfold pr_send.
    rewrite decide_True by (split; [done|cbn; lia]). cbn [rbind]. eexists. split; [reflexivity|]. split; [done|].
    change (provider_at a (pr_enter false (emit ?e (record_paid _ _ (pr_add _ (put_provider a ?q ?x))))))
      with (provider_at a (put_provider a q x)). by rewrite provider_at_put.
  - split.
    + cbn [exec]. unfold run. rewrite decide_True by (by apply Hg). cbn [credit]. unfold withdrawStake. cbn [c_sender].
      fold p. rewrite decide_True by done. rewrite decide_True by lia.
      rewrite decide_True by (unfold number; cbn [c_block]; lia). by rewrite decide_False by lia.
    + intros v Hvu. cbn [exec]. unfold run. rewrite !decide_True by (by apply Hg). cbn [credit].
      unfold requestUnstake, requestPartialUnstake. cbn [c_sender]. fold p.
      case_decide; [|by eexists _, _]. rewrite !decide_False by lia. by eexists _, _.
Qed.

(** ** What the contracts leave open *)

(** A ticket of a partial round is paid only while the hash of block
    [commit + 15] can be read, up to block [commit + 271]; a round that went
    partial because it was stale (more than 3600 blocks) never pays again. *)
Theorem stale_round_unclaimable b sender v t sig secret trs w w' :
  let round := round_at (round_key (tk_sender t) (tk_recipient t) (tk_roundId t)) w in
  (exec b (Tx sender v (op_claimFallbackTicket t sig secret) trs) w = Ok w' →
     bl_number b <= rd_commitBlock round + 271) ∧
  (isUnlockInitiated (tk_sender t) sender w = false → tk_recipient t = sender →
   exec b (Tx sender v (op_markRoundPartial (tk_sender t) (tk_roundId t)) trs) w = Ok w' →
   rd_commitBlock round + 3600 < bl_number b).
Proof.
  intros round. split.
  - intros Hx. cbn [exec] in Hx. unfold run in Hx. step_ok Hx. cbn [credit] in Hx.
    unfold claimFallbackTicket, guarded in Hx. steps_ok Hx. unfold claim_body in E. steps_ok E. apply add256_ok in E1 as [-> _].
    change (round_at _ (se_enter true w)) with round in *. unfold blockhash in *. cbn [c_block] in *.
    case_decide; [|done]. unfold CONFIRMATION_DELAY in *. lia.
  - intros Hn Hr Hx. cbn [exec] in Hx. unfold run in Hx. step_ok Hx. cbn [credit] in Hx.
    unfold markRoundPartial in Hx. steps_ok Hx.
    cbn [c_sender] in *. rewrite <- Hr in *. apply add256_ok in E as [-> _].
    rewrite Hn in *. unfold number in *. cbn [c_block] in *. fold round in G2. unfold ROUND_STALE_TIMEOUT in *.
    destruct G2; [done|lia].
Qed.

(** Before the owner sets a dispute resolver anyone can void any round, in any
    state; a round voided before it is committed can never be opened. *)
Theorem anyone_voids b a sender recipient roundId reason w :
  se_resolver (w_se w) = zero_bytes 20 → a ∉ contracts → length sender = 20%nat → length recipient = 20%nat →
  is_u256 roundId → length reason = 32%nat →
  ∃ w', exec b (Tx a 0 (op_voidRound sender recipient roundId reason) []) w = Ok w' ∧
    getRoundStatus sender recipient roundId w' = Voided ∧
    ∀ w'', reached w' w'' → getRoundStatus sender recipient roundId w'' = Voided.
Proof.
  intros Hn Ha Hs Hr Hi Hl. cbn [exec]. unfold run. rewrite decide_True by (split_and!; first [done|by right]).
  cbn [credit]. unfold voidRound. rewrite decide_True by (by left). eexists. split; [reflexivity|].
  assert (Hv : ∀ x, getRoundStatus sender recipient roundId (emit (RoundVoided sender recipient roundId reason)
    (put_round (round_key sender recipient roundId) (set_round_status Voided x) w)) = Voided)
    by (intros x; unfold getRoundStatus, round_at; cbn; by rewrite lookup_insert_eq).
  split; [apply Hv|]. intros w'' Hw%reached_rounds. 
  pose proof (rl_rank _ _ Hw (round_key sender recipient roundId)) as Hk. unfold getRoundStatus in Hv. rewrite Hv in Hk.
  unfold getRoundStatus. by destruct (rd_status _) in Hk |- *.
Qed.

(** The responder of a dispute chooses the root its proof is checked against:
    every sequence of bytes answers every open dispute in time. *)
Theorem any_chunk_answers b sender recipient roundId i chunk w :
  recipient ∉ contracts → length sender = 20%nat → is_u256 roundId → is_u256 i →
  getDisputeStatus sender recipient roundId i w = DOpen →
  bl_number b <= ds_deadlineBlock (dispute_at (disputeKey sender recipient roundId i) w) →
  ∃ w', exec b (Tx recipient 0 (op_respondToDispute sender roundId i chunk [] (chunk_leaf chunk i)) []) w = Ok w' ∧
    getDisputeStatus sender recipient roundId i w' = ResolvedHonest.
Proof.
  intros Hr Hs Hd Hi Ho Hb. cbn [exec]. unfold run.
  rewrite decide_True.
  2: { split_and!; try done; [|by right]. cbn [abi_decodes]. split_and!; try done.
       apply length_Keccak256Hash. }
  cbn [credit]. unfold respondToDispute. cbn [c_sender]. rewrite decide_True by done.
  rewrite decide_True by done. unfold verifyMerkleProof. rewrite bool_decide_true by done. rewrite decide_True by done.
  eexists. split; [reflexivity|]. unfold getDisputeStatus, dispute_at, drop_pending. case_decide; cbn;
    by rewrite lookup_insert_eq.
Qed.
Lemma le_bytes_small m n z : 0 <= z < 256 ^ Z.of_nat m → le_bytes (m + n) z = le_bytes m z ++ replicate n x00.
Proof.
  revert z. induction m as [|m IH]; intros z Hz.
  - simpl in Hz. assert (z = 0) as -> by lia. clear. cbn [Nat.add le_bytes app].
    induction n as [|n IH]; [done|]. cbn [le_bytes replicate]. by rewrite Z.div_0_l, IH.
  - rewrite Nat2Z.inj_succ, Z.pow_succ_r in Hz by lia. simpl. rewrite IH; [done|].
    split; [apply Z.div_pos; lia|apply Z.div_lt_upper_bound; lia].
Qed.
Lemma be_val_small l m n :
  length l = (m + n)%nat → be_val l < 256 ^ Z.of_nat m → take n l = zero_bytes n.
Proof.
  intros Hl Hv. pose proof (be_val_range l) as [H0 _]. unfold be_val in *.
  assert (Hr : reverse l = le_bytes (m + n) (le_val (reverse l)))
    by (rewrite <- Hl, <- (length_reverse l); symmetry; apply le_bytes_le_val).
  rewrite le_bytes_small in Hr by lia. apply (f_equal reverse) in Hr.
  rewrite reverse_involutive, reverse_app, reverse_replicate in Hr. rewrite Hr.
  apply take_app_length'. unfold zero_bytes. by rewrite length_replicate.
Qed.

(** The consumer writes a win probability of 0.1 as [10^17], the contract reads
    it out of [2^256]: a ticket of a partial round wins only when the hash
    drawn for it starts with 24 zero bytes.  All tickets of a round draw the
    same hash, since they carry the same nonce. *)
Theorem fallback_never_wins sender terms i j st st' bh secret :
  sol_ticket (chunk_ticket sender terms i) = Some st → sol_ticket (chunk_ticket sender terms j) = Some st' →
  isFallbackWinner bh (tk_senderNonce st') secret (tk_winProb st')
    = isFallbackWinner bh (tk_senderNonce st) secret (tk_winProb st) ∧
  (isFallbackWinner bh (tk_senderNonce st) secret (tk_winProb st) = true →
   take 24 (Keccak256Hash (bh ++ uint_word (tk_senderNonce st) ++ secret)) = zero_bytes 24).
Proof.
  intros [= <-] [= <-]. split; [done|]. unfold isFallbackWinner. intros H%bool_decide_eq_true.
  apply (be_val_small _ 8); [by rewrite length_Keccak256Hash|]. etransitivity; [exact H|]. vm_compute. done.
Qed.
End play.

(** ** Witness *)

Definition toy_go_ticket (i : Z) : RoundTicket :=
  {| rt_Sender := toy_consumer; rt_Recipient := toy_provider; rt_RoundID := Some 1; rt_LocalIndex := Some i;
     rt_FaceValue := Some 1000; rt_WinProb := Some (10 ^ 17); rt_SenderNonce := Some 12345 |}.
Definition toy_client : PaymentClient handle :=
  {| cl_ChainID := 1337; cl_PrivateKey := Some (replicate 32 x11); cl_Address := toy_provider;
     cl_Signer := NewTicketSigner (GE := ToyEthereum) (Some (replicate 32 x11)) 1337 (replicate 20 xa5);
     cl_PaymentChannel := Some (pc_chain (toy_block 30) toy_open);
     cl_SettlementEngine := Some (se_chain (toy_block 30) toy_open);
     cl_EntropySource := Some (cr_chain (toy_block 30) toy_open);
     cl_ProviderRegistry := Some (pr_chain (toy_block 30) toy_open) |}.
Definition toy_transactor (k : list byte) (chain : Z) : result TransactOpts :=
  Ok {| to_From := take 20 k; to_Value := None |}.

Lemma toy_go_ticket_typed : ticket_typed (toy_go_ticket 1).
Proof. split; [done|done|]. repeat constructor; (eexists; split; [reflexivity|]; done). Qed.

Lemma toy_settles_now : settles_now (toy_block 30) toy_open (toy_ticket 1) toy_secret.
Proof.
  split; try (vm_compute; reflexivity).
  - apply (bool_decide_unpack _). vm_compute. exact I.
  - split; [vm_compute; split; congruence|]. apply (bool_decide_unpack _). vm_compute. exact I.
  - vm_compute. congruence.
  - split; vm_compute; reflexivity.
  - apply (bool_decide_unpack _). vm_compute. exact I.
Qed.

Lemma signed_ticket_paid_witness :
  ∃ t w', SettleRound toy_transactor (Ok 1) submit_settle (toy_go_ticket 1)
            (toy_signature 1) toy_secret toy_client = Ok t ∧
          mine (toy_block 30) t [] toy_open = Ok w' ∧ w_paid w' = [(toy_provider, 1000)].
Proof.
  assert (Hin : in_range toy_open (toy_ticket 1)) by (vm_compute; reflexivity).
  destruct (signed_ticket_paid (GE := ToyEthereum) (LO := ToyLottery) toy_owner (toy_block 30) toy_open
    (replicate 32 x07) (toy_go_ticket 1) (toy_ticket 1) (toy_signature 1) toy_secret toy_client
    (replicate 32 x11) toy_transactor (Ok 1) {| to_From := toy_provider; to_Value := None |}
    eq_refl toy_go_ticket_typed eq_refl eq_refl
    ltac:(vm_compute; reflexivity) eq_refl toy_open_reached Hin eq_refl eq_refl eq_refl
    ltac:(apply (bool_decide_unpack _); vm_compute; exact I) eq_refl) as (_ & H1 & H2).
  destruct (proj1 (H2 (toy_block 30) toy_open toy_open_reached Hin) toy_settles_now) as (w' & H3 & H4).
  eexists _, w'. split; [exact (H1 toy_settles_now eq_refl)|]. split; [exact H3|].
  rewrite (tp_paid _ _ _ H4). vm_compute. reflexivity.
Defined.
